(* ===== verification/_CoqProject ===== *)
-Q . S2P
Prelude.v
TaskTable.v
Policy.v
Sched.v
Fairness.v
Watchdog.v
Trace.v
Pages.v
Replace.v
ReplaceSpec.v
Swap.v
Pipe.v
PipeSys.v
Signal.v
Kernel.v
Descriptors.v
Resume.v
Reclaim.v
Bytes.v
Heap.v
HeapSpec.v
HeapRun.v
Disk.v
Ata.v
Memory.v
PageTables.v
Spaces.v
UserPages.v
Sharing.v
Cow.v
Destroy.v
Access.v
CowRun.v
Boot.v
Elf.v
ElfSpec.v
ElfRun.v
Fat.v
FatTable.v
FatDir.v
FatFile.v
FatSpec.v
FatFiles.v
FatProps.v
FatRun.v
Mkfs.v
MkfsSpec.v
MkfsRun.v
AtaRun.v
Semaphore.v
Sync.v
Input.v
User.v
UserSpec.v
Exec.v
UserRun.v
Gates.v
Fault.v
Syscall.v
Steady.v
SyscallSpec.v
Delivery.v
SyscallRun.v
Screen.v
Bridge.v
Float32.v
Tokens.v
Llm.v
