(* ===== verification/Prelude.v ===== *)
(** * 5AM-OS: a verification of the kernel

    5AM-OS is an x86-64 kernel in Rust ([src/kernel/src]).  This library
    models the parts of it that keep state and make decisions, and proves what
    makes them correct.  Each definition carries the name of the Rust item it
    translates and follows its guards and early returns in order.

    ** The program and the files that model it

    - Tasks.  [task.rs] keeps eight task slots.  [TaskTable] has the record
      and the waiting states; [Kernel] has creation, fork, exit, wait,
      reaping and the timer's [schedule]; [Descriptors] the file descriptors;
      [Signal] ([signal.rs]) the delivery of a signal and its return.
      [Resume] and [Reclaim] prove what a task resumes with and that what it
      owned is given back.
    - Scheduling.  [sched.rs] has a trait [Scheduler], five policies and the
      mechanism that calls the installed one.  [Policy] has the policies as
      instances of a class with laws, [Sched] the mechanism, [Fairness] and
      [Watchdog] what a waiting task is promised, [Trace] the decision ring.
    - Pipes.  [pipe.rs]: [Pipe] is one pipe's ring buffer, [PipeSys] any
      number of readers and writers of one, interleaved at the points where
      the code leaves its critical sections.
    - The kernel heap.  [heap.rs]: [Heap] is the code over a memory of bytes
      (the list of holes lives in the holes), [HeapSpec] the abstract list,
      [HeapRun] whole runs with live blocks.
    - Paging.  [memory.rs]: [Memory] is the frame allocator, the page tables,
      address spaces, copy-on-write, demand paging and swapping, over
      physical memory as bytes, and the page-fault branch of
      [interrupts.rs].  [PageTables] proves that the tables are trees,
      [Spaces] and [UserPages] what a space holds, [Sharing] the counts of
      shared frames, [Cow] and [CowRun] that programs cannot tell
      copy-on-write from copying, [Boot] that the firmware's map becomes the
      free list, and the concrete machine that the examples run on,
      [Destroy] that taking a space apart gives back what only it used,
      [Access] what the check of a user address establishes.
    - Replacement and swap.  [replace.rs]: [Pages] is what a policy may see,
      [Replace] the policies, [ReplaceSpec] their references.  [swap.rs]:
      [Swap] is the slot bitmap.
    - Programs.  [elf.rs]: [Elf] is the loader over [Memory], [ElfSpec] the
      image a file asks for and the proof that loading builds it, [ElfRun] an
      example file.  [user.rs] and [exec] and [fork] of [syscall.rs]: [User]
      puts the loader, the address spaces, the tasks and the files together,
      [UserSpec] says what a new program finds in its memory, [Exec] what the
      call does as a whole, [UserRun] calls it on a machine.
    - System calls.  [Fault] is the page-fault handler over tasks and memory
      and the kernel's accesses through a program's pointers, which it serves;
      [Syscall] the dispatcher of [syscall.rs]: every call, what a sleeping
      one goes on with, and the way out through [signal.rs]; [Steady] what the
      task operations keep, [SyscallSpec] that no call reaches another
      program, [Delivery] that a caught signal goes through the program's
      own stack and comes back, [SyscallRun] calls on a machine.
    - Files.  [fat.rs]: [Fat] is the file system.  [FatTable] gives what the
      sectors mean (table, clusters, directory) and what one read or write
      does to it, [FatDir] the directory, [FatFile] chains of clusters,
      [FatSpec] when a volume represents a map from names to contents,
      [FatFiles] the operations on it, [FatProps] the guarantees, [FatRun] a
      formatted volume in memory.  [mkfs/src/main.rs]: [Mkfs] is the tool that
      writes the image, [MkfsSpec] what the image holds and that [Fat] reads
      it back, [MkfsRun] two files.
    - The disk.  [Disk] is the interface the swap area and the file system
      use: operations, laws of the sectors, and a subclass of disks that do
      not fail.  [Ata] is the driver of [ata.rs] over the ports, the class
      [Drive] of what the ATA protocol promises about them, and the proof
      that the driver on a drive is a [Disk]; [AtaRun] has a simulated drive.
    - Locks.  [sync.rs]: [Sync] has spin locks and claims on one core with an
      interrupt handler, [Semaphore] the semaphore with any number of callers
      interleaved where they can be preempted.
    - Typed input.  [Input]: the rings of [keyboard.rs] and [serial.rs], the
      scancode decoder, and the console branch of [syscall.rs]'s [read].
    - The screen.  [Screen]: the frame buffer console of [framebuffer.rs] with
      the glyphs of [font.rs], down to the bytes of the pixels.
    - The host channel.  [Bridge]: the serial chip's driver of [serial.rs],
      the questions of [ai.rs] and the answering side, [bridge/bridge.py].
    - The language model.  [llm.rs]: [Float32] has its numbers, [Tokens] the
      vocabulary, the encoding of a prompt and the printing of a token, [Llm]
      the loader, the forward pass and generation.
    - The tables the processor reads.  [Gates]: the interrupt table of
      [interrupts.rs] and the segment table of [gdt.rs] as bytes, and what the
      processor makes of them.
    - Shared: [Prelude] (machine integers, record update, the [io] monad,
      searches) and [Bytes] (little-endian words, memories of bytes).

    The parts meet as in the code: [Kernel] calls [Sched.choose], [park] and
    the pipes' counts; [Memory] calls [Replace] through its registry and
    [Swap]; [CowRun] drives [Memory] through [page_fault]; [Elf] maps pages
    through [Memory]; [Fat] and [Memory]'s swap share [Disk].

    ** What is proved

    - Paging: every byte a program reads is the one it would read if [fork]
      copied ([CowRun]); [map_page] changes one page; booting frees exactly
      the usable frames ([Boot]); an exit frees the frames no other program
      maps, once, and changes nothing else ([Destroy]).
    - Programs: no file makes the loader panic or damages the tables; a
      successful load leaves exactly the bytes and permissions of the
      segments; [exec] replaces the program or does nothing; no system call
      panics or changes what another program reads.
    - Files: on a consistent volume [create] is insertion into the map of the
      files, [remove] deletion and reading lookup, each by clusters of its
      own; on a disk that may fail they still do not panic, and no contents
      of the disk make them.  What the image maker writes, the kernel reads.
    - Heap: live blocks are aligned, disjoint and, with the holes, account
      for all bytes; freeing undoes allocating; every walk ends.
    - Scheduling: the chosen task is ready; aging bounds every wait, round
      robin serves everyone, MLFQ serves after a boost; the watchdog bounds
      every wait under any policy.
    - Tasks: frames laid out for a new task are the ones it is resumed with;
      an address space is reclaimed once; every pipe end is counted; a parent
      gets its child's code; a handled signal returns where it came from.
    - Disk: over any drive that keeps the protocol, the driver ends, writes
      the sectors it was given and no others, and reads what they hold.
    - Locks: under a lock interrupts are off, a handler never meets a lock
      that is held, and every scope leaves the flag as it found it; no
      sleeper of a semaphore is forgotten, permits are conserved.
    - Entry: only the system call's gate opens to a program, every other
      vector leads where it should, and each selector names its segment
      ([Gates]).
    - The screen shows the text written to it, wrapped and scrolled
      ([Screen]); a question reaches the bridge with its state, and the
      answer comes back on the console, whatever lines it is made of
      ([Bridge]).
    - The language model: a coherent model generates without a panic, and a
      prompt is encoded by the reference procedure ([Llm], [Tokens]).
    - Input: keys come out in the order they went in.
    - Pipes: bytes are neither lost, duplicated nor reordered; no wakeup is
      lost.
    - Replacement: the victim is eligible; each policy equals its reference.

    ** Conventions and bounds

    A [uN] is a [Z] in [0, 2^N).  The kernel is built in release mode, so
    [+ - * <<] wrap and the wrap is written where it could matter.  A panic
    is the value [Panic]; [?] keeps the state reached, as in Rust.  Fixed
    arrays are lists of the array's length, which the invariants carry.

    Fuel appears where the code's loop is not structural.  [Heap.HOLES] is
    131073: a hole takes at least sixteen of the heap's 2097152 bytes, so no
    list of holes is longer, and [HeapRun.heap_terminates] proves that the
    fuel is never exhausted.  [Memory.init] and [Memory.accessible_loop] take
    the fuel as an argument and answer [None] when it runs out;
    [Boot.init_frees_usable_frames] has a result whenever there is a unit of
    fuel per frame, [Access.accessible_enough] when there is one per page of
    the range and three more.  [Fat.read_chain] and [Fat.free_loop] recurse on what the
    code's own counter [visited] leaves; the chains of a consistent volume are
    shorter, so the error for a loop is not met there.  Everything else
    recurses on the data.  A turn of the loops in [Bridge]
    reads the chip, so one more than the answers the chip still has is enough; [Tokens.parse_loop] consumes eight bytes and
    [Tokens.merge_loop] a token a turn, so their fuel is the number of them.
    [Ata.POLLS] is the code's own bound on
    [wait_ready]; [Input.read_key] needs a unit per scancode waiting, at most
    the ring's capacity; [Sync.lock] spins as long as its fuel lasts, which is
    for ever if the lock is held ([Sync.lock_spec]).

    ** What is not modelled, and why

    - The naked entry code, the context switch, the interrupt controller's
      ports, [fpu.rs], [smp.rs]: inline assembly and device registers.  What they rely on, the layout of a saved
      frame, is in [Resume] and [Signal].
    - The TLB, cache attributes, and the CPUID and MSR code of
      [enable_no_execute]: hardware.  The direct map is the identity.
    - [shell.rs], [narrate.rs], [bench.rs], [selftest.rs], [oracle.rs]: text,
      and the exercising of the parts above.
    - The boot loader, the entry [main.rs] and the user programs; what the
      host's language model answers is any text. *)

From stdpp Require Export base option list gmap numbers.
From Stdlib Require Export ZArith Lia.
From stdpp Require Export strings.

#[export] Set Default Proof Using "Type".

Declare Scope os_scope.
Delimit Scope os_scope with os.
#[global] Open Scope os_scope.
#[global] Open Scope Z_scope.

(** ** Machine integers

    A Rust [uN] is a [Z] in [0, 2^N).  The kernel is built with the release
    profile, where [+], [-], [*] and [<<] wrap; [saturating_*] clamps. *)

Definition wrap (w z : Z) : Z := z mod 2 ^ w.
Definition u8_max : Z := 255.
Definition u16_max : Z := 65535.
Definition u32_max : Z := 4294967295.
Definition u64_max : Z := 18446744073709551615.

Notation "x +₆₄ y" := (wrap 64 (x + y)) (at level 50, left associativity) : os_scope.
Notation "x -₆₄ y" := (wrap 64 (x - y)) (at level 50, left associativity) : os_scope.
Notation "x +₃₂ y" := (wrap 32 (x + y)) (at level 50, left associativity) : os_scope.
Notation "x *₃₂ y" := (wrap 32 (x * y)) (at level 40, left associativity) : os_scope.

(** [x.saturating_add(y)] at a given maximum, and [x.saturating_sub(y)]. *)
Definition sat_add (max x y : Z) : Z := Z.min max (x + y).
Definition sat_sub (x y : Z) : Z := Z.max 0 (x - y).

Definition in_u (w z : Z) : Prop := 0 <= z < 2 ^ w.

Lemma wrap_in_u w z : 0 <= w -> in_u w (wrap w z).
Proof. intros. apply Z.mod_pos_bound. apply Z.pow_pos_nonneg; lia. Qed.

Lemma wrap_small w z : in_u w z -> wrap w z = z.
Proof. intros. by apply Z.mod_small. Qed.

Lemma sat_add_bound max x y : x <= max -> 0 <= y -> x <= sat_add max x y <= max.
Proof. unfold sat_add; lia. Qed.

(** Bit tests of the shape [e & MASK != 0]. *)
Definition has (e mask : Z) : bool := negb (Z.land e mask =? 0).
(** [e & !mask] on a 64-bit word. *)
Definition clear (e mask : Z) : Z := Z.ldiff e mask.

(** ** Record update

    [r <| f := v |>] is [r] with field [f] replaced.  A setter is made from
    the record's eta expansion by abstracting the projection. *)

Class Setter {R T : Type} (proj : R -> T) : Type := set_field : T -> R -> R.
#[global] Arguments set_field {R T} proj {Setter} v r : rename.

Notation "r <| p := v |>" := (set_field p v r)
  (at level 1, left associativity, format "r  <| p  :=  v |>") : os_scope.

Ltac setter eta proj v r :=
  let t := eval cbv beta delta [eta] in (eta r) in
  let p := eval pattern (proj r) in t in
  match p with ?F _ => let x := eval cbv beta in (F v) in exact x end.

(** ** Results

    A Rust computation ends with [Ok], with an error the caller may inspect,
    or with a panic (an out-of-bounds index, an [unwrap] of [None]), which in
    this kernel stops the machine. *)
Inductive result (A : Type) : Type :=
| Ok (a : A)
| Err (e : string)
| Panic.
Arguments Ok {A} a.
Arguments Err {A} e.
Arguments Panic {A}.

(** A computation that threads a state and may fail.  A failure keeps the
    state reached so far: [?] does not roll anything back. *)
Definition io (S A : Type) : Type := S -> result A * S.

#[export] Instance io_ret S : MRet (io S) := fun A a s => (Ok a, s).
#[export] Instance io_bind S : MBind (io S) := fun A B f m s =>
  match m s with
  | (Ok a, s') => f a s'
  | (Err e, s') => (Err e, s')
  | (Panic, s') => (Panic, s')
  end.

Definition throw {S A} (e : string) : io S A := fun s => (Err e, s).
Definition panic {S A} : io S A := fun s => (Panic, s).

(** [for x in l { body }] in the monad. *)
Fixpoint for_each {S A} (l : list A) (body : A -> io S unit) : io S unit :=
  match l with
  | [] => mret tt
  | x :: l' => body x ≫= fun _ => for_each l' body
  end.

Lemma io_bind_Ok {S A B} (m : io S A) (f : A -> io S B) s b s'' :
  (m ≫= f) s = (Ok b, s'') <-> exists a s', m s = (Ok a, s') /\ f a s' = (Ok b, s'').
Proof.
  unfold mbind, io_bind. destruct (m s) as [[a|e|] s'].
  - split; [eauto|]. intros (a' & t & [= -> ->] & H). done.
  - split; [done|]. intros (a' & t & [=] & _).
  - split; [done|]. intros (a' & t & [=] & _).
Qed.

Lemma io_bind_run {S A B} (m : io S A) (f : A -> io S B) s a s' :
  m s = (Ok a, s') -> (m ≫= f) s = f a s'.
Proof. unfold mbind, io_bind. by intros ->. Qed.

(** The same with an accumulator. *)
Fixpoint fold_io {S A B} (body : B -> A -> io S B) (l : list A) (b : B) : io S B :=
  match l with
  | [] => mret b
  | x :: l' => body b x ≫= fold_io body l'
  end.

(** A computation that only looks at its arguments, and its own monad. *)
Definition lift {S A} (r : result A) : io S A := fun s => (r, s).
#[export] Instance result_ret : MRet result := @Ok.
#[export] Instance result_bind : MBind result := fun A B f r =>
  match r with Ok a => f a | Err e => Err e | Panic => Panic end.

(** [m] run in [s] does not panic; if it succeeds [P] holds of its answer and
    the state, if it fails [E] holds of the state. *)
Definition safe {S A} (m : io S A) (P : A -> S -> Prop) (E : S -> Prop) (s : S) : Prop :=
  match m s with
  | (Ok a, s') => P a s'
  | (Err _, s') => E s'
  | (Panic, _) => False
  end.

Lemma safe_ret {S A} (a : A) (P : A -> S -> Prop) E s : P a s -> safe (mret a) P E s.
Proof. done. Qed.

Lemma safe_throw {S A} e (P : A -> S -> Prop) (E : S -> Prop) s : E s -> safe (throw e) P E s.
Proof. done. Qed.

Lemma safe_bind {S A B} (m : io S A) (f : A -> io S B) Q P E s :
  safe m Q E s -> (forall a s', Q a s' -> safe (f a) P E s') -> safe (m ≫= f) P E s.
Proof.
  unfold safe, mbind, io_bind. intros Hm Hf. destruct (m s) as [[a|e|] s']; [|done..]. by apply Hf.
Qed.

Lemma safe_mono {S A} (m : io S A) (P P' : A -> S -> Prop) (E E' : S -> Prop) s :
  safe m P E s -> (forall a s', P a s' -> P' a s') -> (forall s', E s' -> E' s') -> safe m P' E' s.
Proof. unfold safe. intros Hm HP HE. destruct (m s) as [[a|e|] s']; eauto. Qed.

(** Loops, with an invariant over what has been done. *)
Lemma safe_fold_io {S A B} (body : B -> A -> io S B) (I : list A -> B -> S -> Prop) E l :
  (forall d x r b s, l = d ++ x :: r -> I d b s -> safe (body b x) (I (d ++ [x])) E s) ->
  forall b s, I [] b s -> safe (fold_io body l b) (I l) E s.
Proof.
  intros Hb. assert (G : forall r d b s, l = d ++ r -> I d b s -> safe (fold_io body r b) (I l) E s);
    [|intros b s; by apply (G l [])].
  induction r as [|x r IH]; intros d b s Hl HI; cbn [fold_io].
  - apply safe_ret. rewrite app_nil_r in Hl. by subst d.
  - eapply safe_bind; [by apply (Hb d x r b s)|]. intros b' s' HI'. apply (IH (d ++ [x])); [|done]. by rewrite <- app_assoc.
Qed.

Lemma safe_for_each {S A} (body : A -> io S unit) (I : list A -> S -> Prop) E l :
  (forall d x r s, l = d ++ x :: r -> I d s -> safe (body x) (fun _ => I (d ++ [x])) E s) ->
  forall s, I [] s -> safe (for_each l body) (fun _ => I l) E s.
Proof.
  intros Hb. assert (G : forall r d s, l = d ++ r -> I d s -> safe (for_each r body) (fun _ => I l) E s);
    [|intros s; by apply (G l [])].
  induction r as [|x r IH]; intros d s Hl HI; cbn [for_each].
  - apply safe_ret. rewrite app_nil_r in Hl. by subst d.
  - eapply safe_bind; [by apply (Hb d x r s)|]. intros u s' HI'. apply (IH (d ++ [x])); [|done]. by rewrite <- app_assoc.
Qed.

(** ** Arrays

    A fixed array [[T; N]] is a list of length [N]; [l !!! i] reads a cell
    and [<[i:=x]> l] writes one.  Every use in the development is in range:
    the well-formedness invariants carry the lengths. *)

Lemma list_insert_total {A} `{Inhabited A} (l : list A) (i j : nat) (x : A) :
  (i < length l)%nat ->
  <[i:=x]> l !!! j = if decide (i = j) then x else l !!! j.
Proof.
  intros Hi. case_decide as E; [subst|].
  - apply list_lookup_total_correct. by apply list_lookup_insert_eq.
  - rewrite !list_lookup_total_alt. by rewrite list_lookup_insert_ne.
Qed.

Lemma lookup_total_replicate {A} `{Inhabited A} (n i : nat) (x : A) :
  (i < n)%nat -> replicate n x !!! i = x.
Proof. intros. apply list_lookup_total_correct, lookup_replicate_2. done. Qed.

Lemma replicate_total_cases {A} `{Inhabited A} (P : A -> Prop) (n i : nat) (x : A) :
  P x -> P inhabitant -> P (replicate n x !!! i).
Proof.
  intros Hx Hd. destruct (decide (i < n)%nat).
  - by rewrite lookup_total_replicate.
  - rewrite list_lookup_total_alt, (proj1 (lookup_replicate_None n x i)) by lia. done.
Qed.

(** [for i in 0..n { l[i] = f(i, l[i]) }]. *)
Definition foreach {A} `{Inhabited A} (n : nat) (f : nat -> A -> A) (l : list A) : list A :=
  fold_left (fun l i => <[i := f i (l !!! i)]> l) (seq 0 n) l.

#[global] Arguments foreach : simpl never.

Lemma foreach_S {A} `{Inhabited A} n (f : nat -> A -> A) l :
  foreach (S n) f l = (let l' := foreach n f l in <[n := f n (l' !!! n)]> l').
Proof. unfold foreach. rewrite seq_S, fold_left_app. done. Qed.

Lemma foreach_length {A} `{Inhabited A} n (f : nat -> A -> A) l :
  length (foreach n f l) = length l.
Proof.
  induction n as [|n IH]; [done|]. rewrite foreach_S. simpl.
  by rewrite length_insert.
Qed.

Lemma foreach_lookup {A} `{Inhabited A} n (f : nat -> A -> A) l i :
  (n <= length l)%nat ->
  foreach n f l !!! i = if decide (i < n)%nat then f i (l !!! i) else l !!! i.
Proof.
  induction n as [|n IH]; intros Hn.
  - rewrite decide_False by lia. done.
  - rewrite foreach_S. cbv zeta.
    rewrite list_insert_total by (rewrite foreach_length; lia).
    destruct (decide (n = i)) as [->|]; rewrite IH by lia.
    + rewrite decide_False, decide_True by lia. done.
    + destruct (decide (i < n)%nat).
      * by rewrite decide_True by lia.
      * by rewrite decide_False by lia.
Qed.

(** ** Searches over ranges *)

(** [(a..b).find(|&i| p(i))]: the first index that satisfies [p]. *)
Definition range_find (a b : nat) (p : nat -> bool) : option nat :=
  List.find p (seq a (b - a)).

Lemma range_find_Some a b p i :
  range_find a b p = Some i ->
  (a <= i < b)%nat /\ p i = true /\ forall j, (a <= j < i)%nat -> p j = false.
Proof.
  unfold range_find. remember (b - a)%nat as n eqn:Hn.
  intros Hf.
  assert (Hg : (a <= i < a + n)%nat /\ p i = true /\ forall j, (a <= j < i)%nat -> p j = false).
  { clear Hn b. revert a Hf. induction n as [|n IH]; intros a Hf; simpl in Hf; [done|].
    destruct (p a) eqn:Ha.
    - injection Hf as <-. repeat split; (done || lia).
    - apply IH in Hf as (Hr & Hp & Hall). repeat split; [lia..|done|].
      intros j Hj. destruct (decide (j = a)) as [->|]; [done|]. apply Hall. lia. }
  destruct Hg as (? & ? & ?). repeat split; (done || lia).
Qed.

Lemma range_find_None a b p :
  range_find a b p = None <-> forall j, (a <= j < b)%nat -> p j = false.
Proof.
  unfold range_find. split.
  - intros Hf j Hj. apply (find_none _ _ Hf). apply in_seq. lia.
  - intros Hall. destruct (List.find p (seq a (b - a))) as [i|] eqn:E; [|done].
    apply find_some in E as [Hin Hp]. apply in_seq in Hin.
    rewrite Hall in Hp by lia. done.
Qed.

(** [iter.min_by_key(f)]: the first element whose key is least. *)
Fixpoint min_by_key {A} (key : A -> Z) (l : list A) : option A :=
  match l with
  | [] => None
  | x :: l' =>
      match min_by_key key l' with
      | None => Some x
      | Some y => if key x <=? key y then Some x else Some y
      end
  end.

Lemma min_by_key_None {A} (key : A -> Z) l : min_by_key key l = None <-> l = [].
Proof.
  destruct l as [|x l]; simpl; [done|].
  split; [|done]. destruct (min_by_key key l); [case_match|]; done.
Qed.

Lemma min_by_key_Some {A} (key : A -> Z) l x :
  min_by_key key l = Some x -> x ∈ l /\ forall y, y ∈ l -> key x <= key y.
Proof.
  revert x. induction l as [|a l IH]; intros x; simpl; [done|].
  destruct (min_by_key key l) as [m|] eqn:E.
  - destruct (IH m eq_refl) as [Hin Hmin].
    destruct (Z.leb_spec (key a) (key m)); intros [= <-]; split; try by constructor.
    + intros y [->|Hy]%elem_of_cons; [lia|]. specialize (Hmin y Hy). lia.
    + intros y [->|Hy]%elem_of_cons; [lia|]. auto.
  - apply min_by_key_None in E as ->. intros [= <-]. split; [by constructor|].
    intros y Hy%list_elem_of_singleton. subst. lia.
Qed.

(** The scan three policies share: walk [cands] in order, skip what is not
    eligible, and keep a candidate only when its score is strictly better
    than the best so far.  [best] starts at a value every score is below. *)
Definition scan_best {A} (ok : A -> bool) (score : A -> Z) (init : Z) (cands : list A)
  : option A * Z :=
  fold_left
    (fun '(chosen, best) c =>
       if negb (ok c) then (chosen, best)
       else if score c <? best then (Some c, score c) else (chosen, best))
    cands (None, init).

#[global] Arguments scan_best : simpl never.

Section scan_best.
Context {A : Type} (ok : A -> bool) (score : A -> Z) (init : Z).

Lemma scan_best_app l1 c :
  scan_best ok score init (l1 ++ [c]) =
  let '(chosen, best) := scan_best ok score init l1 in
  if negb (ok c) then (chosen, best)
  else if score c <? best then (Some c, score c) else (chosen, best).
Proof.
  unfold scan_best. rewrite fold_left_app. simpl.
  by destruct (fold_left _ l1 _).
Qed.

(** The result is an eligible candidate of least score, and the first such
    in scan order; nothing is found only when nothing is eligible. *)
Lemma scan_best_spec l :
  (forall c, c ∈ l -> ok c = true -> score c < init) ->
  match scan_best ok score init l with
  | (Some c, best) =>
      best = score c /\ c ∈ l /\ ok c = true /\
      (forall d, d ∈ l -> ok d = true -> score c <= score d) /\
      exists l1 l2, l = l1 ++ c :: l2 /\
        forall d, d ∈ l1 -> ok d = true -> score c < score d
  | (None, best) => best = init /\ forall d, d ∈ l -> ok d = false
  end.
Proof.
  induction l as [|c l IH] using rev_ind; intros Hlt.
  { simpl. split; [done|]. intros d Hd. by apply not_elem_of_nil in Hd. }
  rewrite scan_best_app.
  assert (Hl : forall d, d ∈ l -> ok d = true -> score d < init).
  { intros d Hd. apply Hlt. apply elem_of_app. by left. }
  specialize (IH Hl). destruct (scan_best ok score init l) as [[b|] best].
  - destruct IH as (-> & Hin & Hok & Hmin & l1 & l2 & -> & Hfst).
    destruct (ok c) eqn:Hc; simpl.
    + destruct (Z.ltb_spec (score c) (score b)).
      * repeat split; try done.
        -- apply elem_of_app; right; by left.
        -- intros d [Hd|?%list_elem_of_singleton]%elem_of_app Hokd; [|subst; lia].
           specialize (Hmin d Hd Hokd). lia.
        -- exists (l1 ++ b :: l2), []. split; [done|].
           intros d Hd Hokd. specialize (Hmin d Hd Hokd). lia.
      * repeat split; try done.
        -- apply elem_of_app; by left.
        -- intros d [Hd|?%list_elem_of_singleton]%elem_of_app Hokd; [auto|subst; lia].
        -- exists l1, (l2 ++ [c]). by rewrite <- app_assoc.
    + repeat split; try done.
      * apply elem_of_app; by left.
      * intros d [Hd|?%list_elem_of_singleton]%elem_of_app Hokd; [auto|subst; congruence].
      * exists l1, (l2 ++ [c]). by rewrite <- app_assoc.
  - destruct IH as [-> Hnone]. destruct (ok c) eqn:Hc; simpl.
    + assert (score c < init) by (apply Hlt; [apply elem_of_app; right; by left|done]).
      destruct (Z.ltb_spec (score c) init); [|lia].
      repeat split; try done.
      * apply elem_of_app; right; by left.
      * intros d [Hd|?%list_elem_of_singleton]%elem_of_app Hokd; [|subst; lia].
        rewrite Hnone in Hokd by done. done.
      * exists l, []. split; [done|]. intros d Hd Hokd.
        rewrite Hnone in Hokd by done. done.
    + split; [done|].
      intros d [Hd|?%list_elem_of_singleton]%elem_of_app; subst; auto.
Qed.

(** When the least score is [m], the scan is a search for it. *)
Lemma scan_best_find m x l :
  (forall c, c ∈ l -> ok c = true -> m <= score c < init) ->
  x ∈ l -> ok x = true -> score x = m ->
  (scan_best ok score init l).1 = List.find (fun c => ok c && (score c =? m)) l.
Proof.
  intros Hm Hx Hokx Hsx.
  assert (Hlt : forall c, c ∈ l -> ok c = true -> score c < init) by (intros; by apply Hm).
  pose proof (scan_best_spec l Hlt) as H.
  destruct (scan_best ok score init l) as [[c|] b]; cbn [fst].
  - destruct H as (_ & Hin & Hok & Hmin & l1 & l2 & -> & Hfst).
    assert (Hc : score c = m).
    { specialize (Hmin x Hx Hokx). destruct (Hm c Hin Hok). lia. }
    clear Hx Hlt Hm Hin Hmin. induction l1 as [|d l1 IH]; cbn.
    + by rewrite Hok, Hc, Z.eqb_refl.
    + destruct (ok d && (score d =? m)) eqn:E.
      * apply andb_true_iff in E as [Hd Hs%Z.eqb_eq]. specialize (Hfst d).
        rewrite elem_of_cons in Hfst. specialize (Hfst (or_introl eq_refl) Hd). lia.
      * apply IH. intros e He. apply Hfst. by right.
  - destruct H as [_ Hnone]. by rewrite (Hnone x Hx) in Hokx.
Qed.
End scan_best.

(** ** Rings *)

Lemma to_nat_mod (a b : nat) :
  (0 < b)%nat -> Z.to_nat (Z.of_nat a mod Z.of_nat b) = (a mod b)%nat.
Proof. intros. rewrite <- Nat2Z.inj_mod. apply Nat2Z.id. Qed.

(** Two indices less than a ring apart do not collide. *)
Lemma ring_distinct (n a b : nat) :
  (a < b)%nat -> (b - a < n)%nat -> (a mod n <> b mod n)%nat.
Proof.
  intros Hab Hn E. pose proof (Nat.div_mod_eq a n). pose proof (Nat.div_mod_eq b n).
  assert (a / n <= b / n)%nat by (apply Nat.Div0.div_le_mono; lia).
  assert (a / n < b / n \/ a / n = b / n)%nat as [|] by lia; nia.
Qed.

Lemma ring_NoDup (n start base : nat) :
  NoDup (map (fun step => (start + step) mod n)%nat (seq base n)).
Proof.
  apply NoDup_fmap_2_strong; [|apply NoDup_seq].
  intros a b Ha%elem_of_seq Hb%elem_of_seq E.
  destruct (Nat.lt_total a b) as [Hlt|[Heq|Hlt]]; [|done|]; exfalso.
  - apply (ring_distinct n (start + a) (start + b)); [lia..|done].
  - apply (ring_distinct n (start + b) (start + a)); [lia..|done].
Qed.

(** ** Single bits

    [word | (1 << bit)] and [word & !(1 << bit)]. *)

Definition set_bit (word : Z) (bit : nat) : Z := Z.lor word (Z.shiftl 1 (Z.of_nat bit)).
Definition clear_bit (word : Z) (bit : nat) : Z := Z.ldiff word (Z.shiftl 1 (Z.of_nat bit)).

Lemma set_bit_spec word bit i :
  Z.testbit (set_bit word bit) (Z.of_nat i) = Z.testbit word (Z.of_nat i) || (bit =? i)%nat.
Proof.
  unfold set_bit. rewrite Z.lor_spec. f_equal.
  rewrite Z.shiftl_1_l. destruct (Nat.eqb_spec bit i) as [->|Hne].
  - apply Z.pow2_bits_true. lia.
  - apply Z.pow2_bits_false. lia.
Qed.

Lemma clear_bit_spec word bit i :
  Z.testbit (clear_bit word bit) (Z.of_nat i) = Z.testbit word (Z.of_nat i) && negb (bit =? i)%nat.
Proof.
  unfold clear_bit. rewrite Z.ldiff_spec. do 2 f_equal.
  rewrite Z.shiftl_1_l. destruct (Nat.eqb_spec bit i) as [->|Hne].
  - apply Z.pow2_bits_true. lia.
  - apply Z.pow2_bits_false. lia.
Qed.

(** A word with no bit above [w]. *)
Lemma in_u_bits (w z : Z) : 0 <= w -> (forall i, w <= i -> Z.testbit z i = false) -> in_u w z.
Proof.
  intros Hw H. replace z with (z mod 2 ^ w).
  { apply Z.mod_pos_bound. apply Z.pow_pos_nonneg; lia. }
  apply Z.bits_inj'. intros i Hi. destruct (Z.lt_ge_cases i w).
  - by apply Z.mod_pow2_bits_low.
  - rewrite Z.mod_pow2_bits_high by lia. by rewrite H.
Qed.

Lemma in_u_high w z i : in_u w z -> 0 <= w <= i -> Z.testbit z i = false.
Proof. intros Hz Hi. rewrite <- (Z.mod_small z (2 ^ w)) by done. apply Z.mod_pow2_bits_high. lia. Qed.

Lemma shiftl_lor a b n : 0 <= n -> 0 <= b < 2 ^ n -> Z.lor (Z.shiftl a n) b = a * 2 ^ n + b.
Proof.
  intros Hn Hb. rewrite <- Z.shiftl_mul_pow2 by done. symmetry. apply Z.add_nocarry_lor.
  apply Z.bits_inj'. intros i Hi. rewrite Z.land_spec, Z.bits_0, Z.shiftl_spec by done.
  destruct (Z.lt_ge_cases i n).
  - by rewrite Z.testbit_neg_r by lia.
  - rewrite (in_u_high n b i) by (done || lia). apply andb_false_r.
Qed.

Lemma set_bit_in_u w word bit :
  0 <= w -> in_u w word -> Z.of_nat bit < w -> in_u w (set_bit word bit).
Proof.
  intros Hw Hu Hb. apply in_u_bits; [done|]. intros i Hi. unfold set_bit.
  rewrite Z.lor_spec, (in_u_high w word i), Z.shiftl_1_l, Z.pow2_bits_false by (done || lia). done.
Qed.

Lemma clear_bit_in_u w word bit : 0 <= w -> in_u w word -> in_u w (clear_bit word bit).
Proof.
  intros Hw Hu. apply in_u_bits; [done|]. intros i Hi. unfold clear_bit.
  by rewrite Z.ldiff_spec, (in_u_high w word i) by (done || lia).
Qed.

(** [word.trailing_zeros()], at most [w]. *)
Definition trailing_zeros (w : nat) (word : Z) : nat :=
  default w (range_find 0 w (fun bit => Z.testbit word (Z.of_nat bit))).

Lemma trailing_zeros_spec w word :
  in_u (Z.of_nat w) word -> word <> 0 ->
  (trailing_zeros w word < w)%nat /\ Z.testbit word (Z.of_nat (trailing_zeros w word)) = true /\
  forall i, (i < trailing_zeros w word)%nat -> Z.testbit word (Z.of_nat i) = false.
Proof.
  intros Hw Hne. unfold trailing_zeros. destruct (range_find _ _ _) as [b|] eqn:E; cbn [default id].
  - apply range_find_Some in E as (Hb & Hc & Hmin). split_and!; [lia|done|].
    intros i Hi. apply Hmin. lia.
  - exfalso. apply Hne. rewrite range_find_None in E. apply Z.bits_inj'. intros i Hi.
    rewrite Z.bits_0. destruct (Z.lt_ge_cases i (Z.of_nat w)).
    + rewrite <- (Z2Nat.id i) by lia. apply E. lia.
    + rewrite <- (Z.mod_small word (2 ^ Z.of_nat w)) by done. apply Z.mod_pow2_bits_high. lia.
Qed.

(** ** Sums over a list *)

Fixpoint sum {A} (g : A -> Z) (l : list A) : Z :=
  match l with [] => 0 | x :: l => g x + sum g l end.

Lemma sum_insert {A} `{Inhabited A} (g : A -> Z) l i x :
  (i < length l)%nat -> sum g (<[i := x]> l) = sum g l - g (l !!! i) + g x.
Proof.
  revert i. induction l as [|y l IH]; intros i Hi; cbn [length] in Hi; [lia|].
  destruct i as [|i]; [cbn; lia|].
  change (g y + sum g (<[i := x]> l) = g y + sum g l - g (l !!! i) + g x).
  rewrite IH by lia. lia.
Qed.

Lemma sum_bound {A} (g : A -> Z) l b :
  (forall x, x ∈ l -> 0 <= g x <= b) -> 0 <= sum g l <= b * Z.of_nat (length l).
Proof.
  induction l as [|x l IH]; intros H; cbn -[Z.mul]; [lia|].
  assert (0 <= g x <= b) by (apply H; left).
  assert (0 <= sum g l <= b * Z.of_nat (length l)) by (apply IH; intros; apply H; by right). lia.
Qed.

Lemma sum_ext {A} (g h : A -> Z) l : (forall x, x ∈ l -> g x = h x) -> sum g l = sum h l.
Proof.
  induction l as [|x l IH]; intros H; cbn; [done|]. rewrite H by left. f_equal.
  apply IH. intros y Hy. apply H. by right.
Qed.

Lemma sum_map {A B} (g : B -> Z) (f : A -> B) l : sum g (map f l) = sum (fun x => g (f x)) l.
Proof. induction l as [|x l IH]; cbn; [done|]. by rewrite IH. Qed.

Lemma sum_nonneg {A} (g : A -> Z) l : (forall y, y ∈ l -> 0 <= g y) -> 0 <= sum g l.
Proof.
  induction l as [|y l IH]; intros H; cbn; [lia|]. assert (0 <= g y) by (apply H; left).
  assert (0 <= sum g l) by (apply IH; intros; apply H; by right). lia.
Qed.

Lemma sum_elem {A} (g : A -> Z) l x :
  (forall y, y ∈ l -> 0 <= g y) -> x ∈ l -> g x <= sum g l.
Proof.
  induction l as [|y l IH]; intros Hp Hx; [by apply not_elem_of_nil in Hx|].
  assert (Hl : forall z, z ∈ l -> 0 <= g z) by (intros; apply Hp; by right).
  assert (0 <= g y) by (apply Hp; left). cbn.
  apply elem_of_cons in Hx as [->|Hx]; [pose proof (sum_nonneg g l Hl); lia|].
  specialize (IH Hl Hx). lia.
Qed.
