(* ===== verification/TaskTable.v ===== *)
(** * The task table: the data of [kernel/src/task.rs]

    The states, the descriptor and the task record, and the two operations
    every other component uses on the table: [park] and [wake_all].  The
    operations that also touch the scheduler or the pipes are in [Task]. *)

From S2P Require Import Prelude.

Definition MAX_TASKS : nat := 8.
Definition MAX_PRIORITY : Z := 15.
Definition DEFAULT_PRIORITY : Z := 8.
Definition SHELL_PRIORITY : Z := 0.
Definition STACK_SIZE : Z := 64 * 1024.
Definition MAX_FILES : nat := 8.
Definition MAX_SIGNALS : nat := 16.

#[global] Arguments MAX_TASKS : simpl never.
#[global] Arguments MAX_FILES : simpl never.
#[global] Arguments MAX_SIGNALS : simpl never.

Module Reason.
Inductive t :=
| Until (tick : Z)
| Channel (channel : Z).
#[global] Instance eq_dec : EqDecision t.
Proof. solve_decision. Defined.
End Reason.

Module State.
Inductive t :=
| Free
| Ready
| Blocked (why : Reason.t)
| Finished.
#[global] Instance eq_dec : EqDecision t.
Proof. solve_decision. Defined.
End State.

Module Descriptor.
Inductive t :=
| Free
| Console
| PipeRead (pipe : nat)
| PipeWrite (pipe : nat).
#[global] Instance eq_dec : EqDecision t.
Proof. solve_decision. Defined.
#[global] Instance inhabited : Inhabited t := populate Free.
End Descriptor.

(** What a kernel task is for. *)
Module Work.
Inductive t :=
| Generate (prompt : string)
| Worker (index : nat)
| Ticker (times gap : Z)
| Hog (ticks : Z)
| Spinner
| Burn (until : Z)
| Interactive (until gap : Z).
End Work.

(** [_stack] is the address of the kernel stack the task owns, if it owns
    one; [name] is the raw 24-byte array with its used length beside it. *)
Record Task := mkTask {
  state : State.t;
  name : list Z;
  name_len : nat;
  stack_pointer : Z;
  _stack : option Z;
  switches : Z;
  priority : Z;
  exit_code : Z;
  address_space : option Z;
  parent : option nat;
  kernel_stack_top : Z;
  work : option Work.t;
  files : list Descriptor.t;
  pending : Z;
  handlers : list Z;
  restorer : Z;
  stack_top : Z;
  stack_limit : Z;
  stack_faults : Z
}.

Definition Task_eta (r : Task) : Task :=
  mkTask (state r) (name r) (name_len r) (stack_pointer r) (_stack r) (switches r)
    (priority r) (exit_code r) (address_space r) (parent r) (kernel_stack_top r)
    (work r) (files r) (pending r) (handlers r) (restorer r) (stack_top r)
    (stack_limit r) (stack_faults r).

#[export] Instance set_state : Setter state := fun v r => ltac:(setter Task_eta state v r).
#[export] Instance set_name : Setter name := fun v r => ltac:(setter Task_eta name v r).
#[export] Instance set_name_len : Setter name_len := fun v r => ltac:(setter Task_eta name_len v r).
#[export] Instance set_stack_pointer : Setter stack_pointer := fun v r => ltac:(setter Task_eta stack_pointer v r).
#[export] Instance set__stack : Setter _stack := fun v r => ltac:(setter Task_eta _stack v r).
#[export] Instance set_switches : Setter switches := fun v r => ltac:(setter Task_eta switches v r).
#[export] Instance set_priority : Setter priority := fun v r => ltac:(setter Task_eta priority v r).
#[export] Instance set_exit_code : Setter exit_code := fun v r => ltac:(setter Task_eta exit_code v r).
#[export] Instance set_address_space : Setter address_space := fun v r => ltac:(setter Task_eta address_space v r).
#[export] Instance set_parent : Setter parent := fun v r => ltac:(setter Task_eta parent v r).
#[export] Instance set_kernel_stack_top : Setter kernel_stack_top := fun v r => ltac:(setter Task_eta kernel_stack_top v r).
#[export] Instance set_work : Setter work := fun v r => ltac:(setter Task_eta work v r).
#[export] Instance set_files : Setter files := fun v r => ltac:(setter Task_eta files v r).
#[export] Instance set_pending : Setter pending := fun v r => ltac:(setter Task_eta pending v r).
#[export] Instance set_handlers : Setter handlers := fun v r => ltac:(setter Task_eta handlers v r).
#[export] Instance set_restorer : Setter restorer := fun v r => ltac:(setter Task_eta restorer v r).
#[export] Instance set_stack_top : Setter stack_top := fun v r => ltac:(setter Task_eta stack_top v r).
#[export] Instance set_stack_limit : Setter stack_limit := fun v r => ltac:(setter Task_eta stack_limit v r).
#[export] Instance set_stack_faults : Setter stack_faults := fun v r => ltac:(setter Task_eta stack_faults v r).

Definition Task_empty : Task :=
  {| state := State.Free; name := replicate 24 0; name_len := 0; stack_pointer := 0;
     _stack := None; switches := 0; priority := DEFAULT_PRIORITY; exit_code := 0;
     address_space := None; parent := None; kernel_stack_top := 0; work := None;
     files := replicate MAX_FILES Descriptor.Free; pending := 0;
     handlers := replicate MAX_SIGNALS 0; restorer := 0; stack_top := 0;
     stack_limit := 0; stack_faults := 0 |}.

#[export] Instance Task_inhabited : Inhabited Task := populate Task_empty.

(** The static [TASKS]. *)
Abbreviation Table := (list Task).
Definition TASKS_init : Table := replicate MAX_TASKS Task_empty.

Definition is_state (s : State.t) (t : Task) : bool := bool_decide (state t = s).

(** [tasks()[id].f = v]. *)
Definition update_task (id : nat) (f : Task -> Task) (ts : Table) : Table :=
  <[id := f (ts !!! id)]> ts.

(** The bytes of ["test"]. *)
Definition test_name : list Z := [116; 101; 115; 116].
(** [table[id].name[..n].copy_from_slice(bytes)], [name_len = n]. *)
Definition put_name (bytes : list Z) (t : Task) : Task :=
  let len := Nat.min (length bytes) (length (name t)) in
  t <| name := take len bytes ++ drop len (name t) |> <| name_len := len |>.

Definition test_table (spec : list (State.t * Z)) : Table :=
  fold_left
    (fun table '(id, (st, prio)) =>
       update_task id
         (fun t => put_name test_name (t <| state := st |> <| priority := prio |>)) table)
    (zip (seq 0 MAX_TASKS) spec) TASKS_init.

(** ** Blocking and waking *)

(** Mark the current task blocked on a channel. *)
Definition park (current : nat) (channel : Z) (ts : Table) : Table :=
  update_task current (fun t => t <| state := State.Blocked (Reason.Channel channel) |>) ts.

Definition wake_one (channel : Z) (t : Task) : Task :=
  if is_state (State.Blocked (Reason.Channel channel)) t
  then t <| state := State.Ready |> else t.

(** Every task waiting on [channel] becomes Ready; the count of them. *)
Definition wake_all (channel : Z) (ts : Table) : nat * Table :=
  (length (List.filter (is_state (State.Blocked (Reason.Channel channel))) ts),
   wake_one channel <$> ts).

(** ** Well-formed tables *)

Definition task_wf (t : Task) : Prop :=
  0 <= priority t <= MAX_PRIORITY /\
  length (files t) = MAX_FILES /\ length (handlers t) = MAX_SIGNALS /\
  in_u 32 (pending t) /\ length (name t) = 24%nat /\ (name_len t <= 24)%nat.

Definition table_wf (ts : Table) : Prop :=
  length ts = MAX_TASKS /\ Forall task_wf ts.

Create HintDb table.
Ltac solve_wf := unfold table_wf, task_wf in *; cbn in *; intuition (eauto with table; try lia).

Lemma Task_empty_wf : task_wf Task_empty.
Proof. unfold task_wf, in_u; cbn; unfold MAX_PRIORITY, DEFAULT_PRIORITY. split_and!; (done || lia). Qed.

Lemma TASKS_init_wf : table_wf TASKS_init.
Proof. split; [done|]. apply Forall_replicate, Task_empty_wf. Qed.

Lemma table_wf_lookup ts id : table_wf ts -> (id < MAX_TASKS)%nat -> task_wf (ts !!! id).
Proof.
  intros [Hlen Hall] Hid. destruct (lookup_lt_is_Some_2 ts id) as [t Ht]; [lia|].
  rewrite (list_lookup_total_correct _ _ _ Ht). by eapply Forall_lookup_1.
Qed.

Lemma update_task_length id f ts : length (update_task id f ts) = length ts.
Proof. apply length_insert. Qed.

Lemma update_task_lookup ts id f j :
  table_wf ts -> (id < MAX_TASKS)%nat ->
  update_task id f ts !!! j = if decide (id = j) then f (ts !!! id) else ts !!! j.
Proof. intros [Hlen _] Hid. apply list_insert_total. by rewrite Hlen. Qed.

Lemma update_task_wf ts id f :
  table_wf ts -> (id < MAX_TASKS)%nat -> (task_wf (ts !!! id) -> task_wf (f (ts !!! id))) ->
  table_wf (update_task id f ts).
Proof.
  intros Hwf Hid Hf. split.
  - rewrite update_task_length. apply Hwf.
  - apply Forall_insert; [apply Hwf|]. apply Hf, table_wf_lookup; done.
Qed.

Lemma wake_one_wf c t : task_wf t -> task_wf (wake_one c t).
Proof. unfold wake_one. case_match; [|done]. by unfold task_wf. Qed.

Lemma wake_all_wf c ts : table_wf ts -> table_wf (wake_all c ts).2.
Proof.
  intros [Hlen Hall]. split; cbn; [by rewrite length_fmap|].
  apply Forall_fmap. eapply Forall_impl; [exact Hall|]. apply wake_one_wf.
Qed.

Lemma wake_all_lookup c ts j :
  table_wf ts -> (j < MAX_TASKS)%nat -> (wake_all c ts).2 !!! j = wake_one c (ts !!! j).
Proof.
  intros [Hlen _] Hj. cbn. destruct (lookup_lt_is_Some_2 ts j) as [t Ht]; [lia|].
  rewrite (list_lookup_total_correct _ _ _ Ht). apply list_lookup_total_correct.
  by rewrite list_lookup_fmap, Ht.
Qed.

(** After [wake_all] nobody waits on the channel, and no other state moves. *)
Lemma wake_one_state c t :
  state (wake_one c t) =
    if decide (state t = State.Blocked (Reason.Channel c)) then State.Ready else state t.
Proof.
  unfold wake_one, is_state. case_decide as E.
  - by rewrite bool_decide_true.
  - by rewrite bool_decide_false.
Qed.

Lemma park_lookup current c ts j :
  table_wf ts -> (current < MAX_TASKS)%nat ->
  state (park current c ts !!! j) =
    if decide (current = j) then State.Blocked (Reason.Channel c) else state (ts !!! j).
Proof. intros Hts Hc. unfold park. rewrite update_task_lookup by done. by case_decide. Qed.

Lemma park_wf current c ts : table_wf ts -> (current < MAX_TASKS)%nat -> table_wf (park current c ts).
Proof. intros Hts Hc. by apply update_task_wf. Qed.

Lemma put_name_wf bytes t : task_wf t -> task_wf (put_name bytes t).
Proof.
  unfold task_wf, put_name. cbn. intros (? & ? & ? & ? & Hn & ?).
  rewrite length_app, length_take, length_drop. unfold in_u in *. lia.
Qed.

Lemma test_table_wf spec :
  Forall (fun p => 0 <= p.2 <= MAX_PRIORITY) spec -> table_wf (test_table spec).
Proof.
  intros Hspec. unfold test_table. set (step := fun _ _ => _).
  assert (Hgen : forall ids sp ts, Forall (fun id => id < MAX_TASKS)%nat ids ->
            Forall (fun p => 0 <= p.2 <= MAX_PRIORITY) sp -> table_wf ts ->
            table_wf (fold_left step (zip ids sp) ts)).
  { induction ids as [|id ids IH]; intros [|[st p] sp] ts Hids Hsp Hts; cbn; try done.
    apply Forall_cons in Hids as [Hid Hids]. apply Forall_cons in Hsp as [Hp Hsp].
    apply IH; [done..|]. apply update_task_wf; [done..|]. intros Hwf.
    apply put_name_wf. unfold task_wf in *. cbn in *. tauto. }
  apply Hgen; [|done|apply TASKS_init_wf].
  apply Forall_forall. intros id Hid%elem_of_seq. unfold MAX_TASKS in *. lia.
Qed.

#[export] Hint Resolve put_name_wf Task_empty_wf TASKS_init_wf update_task_wf wake_all_wf wake_one_wf
  table_wf_lookup : table.
