(* ===== verification/Policy.v ===== *)
(** * Scheduling policies: [kernel/src/sched.rs], the trait and its five bricks

    [RunQueue] is what a policy may see.  [Policy] is the trait; [PolicyLaws]
    is the contract the mechanism relies on, and every brick is shown to
    honour it.  The mechanism itself (quanta, accounting, watchdog) is in
    [Sched]; the fairness theorems are in [Fairness]. *)

From S2P Require Import Prelude TaskTable.

(** ** The run queue *)

Record RunQueue := mkRunQueue { tasks : Table; current : nat; now : Z }.

Definition is_ready (q : RunQueue) (id : nat) : bool :=
  (id <? MAX_TASKS)%nat && is_state State.Ready (tasks q !!! id).

Definition queue_priority (q : RunQueue) (id : nat) : Z :=
  if (MAX_TASKS <=? id)%nat then MAX_PRIORITY else priority (tasks q !!! id).

Definition is_user (q : RunQueue) (id : nat) : bool :=
  (id <? MAX_TASKS)%nat && bool_decide (is_Some (address_space (tasks q !!! id))).

(** Every runnable task, in id order. *)
Definition ready (q : RunQueue) : list nat := List.filter (is_ready q) (seq 0 MAX_TASKS).

(** [(current + offset) % MAX_TASKS] for [offset in 1..=MAX_TASKS]. *)
Definition rotation (current : nat) : list nat :=
  map (fun offset => (current + offset) mod MAX_TASKS)%nat (seq 1 MAX_TASKS).

#[global] Arguments is_ready : simpl never.
#[global] Arguments ready : simpl never.
#[global] Arguments rotation : simpl never.
#[global] Arguments queue_priority : simpl never.

Definition queue_wf (q : RunQueue) : Prop :=
  table_wf (tasks q) /\ (current q < MAX_TASKS)%nat.

Lemma is_ready_lt q id : is_ready q id = true -> (id < MAX_TASKS)%nat.
Proof. intros [H _]%andb_true_iff. by apply Nat.ltb_lt in H. Qed.

Lemma elem_of_rotation c id : id ∈ rotation c <-> (id < MAX_TASKS)%nat.
Proof.
  unfold rotation, MAX_TASKS. rewrite list_elem_of_In, in_map_iff. split.
  - intros (o & <- & _). apply Nat.mod_upper_bound. lia.
  - intros Hid. pose proof (Nat.mod_upper_bound c 8). pose proof (Nat.div_mod_eq c 8).
    set (o := if (id <=? c mod 8)%nat then (id + 8 - c mod 8)%nat else (id - c mod 8)%nat).
    assert (Ho : (1 <= o <= 8)%nat) by (subst o; destruct (Nat.leb_spec id (c mod 8)); lia).
    exists o. split; [|apply in_seq; lia].
    rewrite Nat.Div0.add_mod. subst o.
    destruct (Nat.leb_spec id (c mod 8)).
    + destruct (decide (id = c mod 8)%nat) as [->|].
      * replace (c mod 8 + 8 - c mod 8)%nat with 8%nat by lia.
        rewrite Nat.Div0.mod_same, Nat.add_0_r, !Nat.Div0.mod_mod. done.
      * rewrite (Nat.mod_small (id + 8 - c mod 8)) by lia.
        replace (c mod 8 + _)%nat with (id + 1 * 8)%nat by lia.
        rewrite Nat.Div0.mod_add. apply Nat.mod_small. lia.
    + rewrite (Nat.mod_small (id - c mod 8)) by lia.
      replace (c mod 8 + _)%nat with id by lia. apply Nat.mod_small. lia.
Qed.

Lemma elem_of_ready q id : id ∈ ready q <-> is_ready q id = true.
Proof.
  unfold ready. rewrite list_elem_of_In, filter_In, in_seq. split; [by intros [_ ?]|].
  intros H. split; [|done]. apply is_ready_lt in H. lia.
Qed.

Lemma queue_priority_bounds q id :
  queue_wf q -> 0 <= queue_priority q id <= MAX_PRIORITY.
Proof.
  intros [Hwf _]. unfold queue_priority. destruct (Nat.leb_spec MAX_TASKS id).
  - unfold MAX_PRIORITY; lia.
  - by apply (table_wf_lookup _ id Hwf).
Qed.

(** ** The trait *)

Class Policy (P : Type) := {
  policy_name : string;
  describe : string;
  pick : RunQueue -> P -> option nat * P;
  quantum : nat -> RunQueue -> P -> Z * P;
  on_ready : nat -> P -> P;
  on_yield : nat -> bool -> P -> P;
  on_exit : nat -> P -> P;
  reset : P -> P
}.

(** ** The contract

    A pick is a runnable task, nothing is picked only when nothing is
    runnable, and every operation keeps the policy's own invariant. *)
Class PolicyLaws (P : Type) `{!Policy P} := {
  policy_wf : P -> Prop;
  pick_Some q p id :
    queue_wf q -> policy_wf p -> (pick q p).1 = Some id -> is_ready q id = true;
  pick_None q p :
    queue_wf q -> policy_wf p -> (pick q p).1 = None -> forall id, is_ready q id = false;
  pick_wf q p : queue_wf q -> policy_wf p -> policy_wf (pick q p).2;
  quantum_wf id q p : policy_wf p -> policy_wf (quantum id q p).2;
  quantum_u32 id q p : policy_wf p -> in_u 32 (quantum id q p).1;
  on_ready_wf id p : policy_wf p -> policy_wf (on_ready id p);
  on_yield_wf id full p : policy_wf p -> policy_wf (on_yield id full p);
  on_exit_wf id p : policy_wf p -> policy_wf (on_exit id p);
  reset_wf p : policy_wf p -> policy_wf (reset p)
}.

Create HintDb policy.
#[export] Hint Resolve pick_wf quantum_wf on_ready_wf on_yield_wf on_exit_wf reset_wf : policy.

Lemma one_u32 : in_u 32 1.
Proof. unfold in_u; lia. Qed.
#[export] Hint Resolve one_u32 : policy.

(** What [scan_best] over the rotation finds, for the three scanning bricks. *)
Section scan.
Context (q : RunQueue) (score : nat -> Z) (init : Z).
Hypothesis score_lt : forall id, score id < init.

Lemma scan_rotation_ready id b :
  scan_best (is_ready q) score init (rotation (current q)) = (Some id, b) ->
  is_ready q id = true /\ forall j, is_ready q j = true -> score id <= score j.
Proof using score_lt.
  intros E. pose proof (scan_best_spec (is_ready q) score init (rotation (current q))) as H.
  rewrite E in H. destruct H as (_ & _ & Hok & Hmin & _); [by intros|]. split; [done|].
  intros j Hj. apply Hmin; [|done]. apply elem_of_rotation. by eapply is_ready_lt.
Qed.

Lemma scan_rotation_none b :
  scan_best (is_ready q) score init (rotation (current q)) = (None, b) ->
  forall id, is_ready q id = false.
Proof using score_lt.
  intros E id. pose proof (scan_best_spec (is_ready q) score init (rotation (current q))) as H.
  rewrite E in H. destruct H as [_ Hnone]; [by intros|].
  destruct (is_ready q id) eqn:Hr; [|done].
  rewrite <- Hr. apply Hnone, elem_of_rotation. by eapply is_ready_lt.
Qed.
End scan.

(** ** Round robin *)

Module Rr.
Record t := new {}.
#[global] Instance policy : Policy t := {
  policy_name := "rr";
  describe := "everybody in turn, one tick each. fair, and blind";
  pick q p := (List.find (is_ready q) (rotation (current q)), p);
  quantum _ _ p := (1, p);
  on_ready _ p := p;
  on_yield _ _ p := p;
  on_exit _ p := p;
  reset p := p
}.

#[global] Instance laws : PolicyLaws t.
Proof.
  apply (Build_PolicyLaws _ _ (fun _ => True)); try done.
  - intros q p id _ _ H. by apply find_some in H as [_ H].
  - intros q p _ _ H id. destruct (is_ready q id) eqn:Hr; [|done].
    rewrite <- Hr. apply (find_none _ _ H), list_elem_of_In, elem_of_rotation.
    by eapply is_ready_lt.
Defined.
End Rr.

(** ** First come, first served *)

Module Fifo.
Record t := mk { arrived : list Z; stamp : Z }.
Definition new : t := mk (replicate MAX_TASKS 0) 0.

#[global] Instance policy : Policy t := {
  policy_name := "fifo";
  describe := "first come, first served, non-preemptive. WILL hang the shell";
  pick q p :=
    if is_ready q (current q) then (Some (current q), p)
    else (min_by_key (fun id => arrived p !!! id) (ready q), p);
  quantum _ _ p := (1, p);
  on_ready id p :=
    if (id <? MAX_TASKS)%nat
    then let stamp' := stamp p +₆₄ 1 in mk (<[id := stamp']> (arrived p)) stamp'
    else p;
  on_yield _ _ p := p;
  on_exit id p :=
    if (id <? MAX_TASKS)%nat then mk (<[id := 0]> (arrived p)) (stamp p) else p;
  reset _ := new
}.

Definition wf (p : t) : Prop := length (arrived p) = MAX_TASKS.

#[global] Instance laws : PolicyLaws t.
Proof.
  apply (Build_PolicyLaws _ _ wf).
  - intros q p id _ _. cbn. case_match eqn:Hc; cbn; intros H; [congruence|].
    apply min_by_key_Some in H as [H _]. by apply elem_of_ready.
  - intros q p _ _. cbn. case_match eqn:Hc; cbn; intros H id; [done|].
    apply min_by_key_None in H. destruct (is_ready q id) eqn:Hr; [|done].
    apply elem_of_ready in Hr. rewrite H in Hr. by apply not_elem_of_nil in Hr.
  - intros q p _ Hp. cbn. by case_match.
  - done.
  - intros. apply one_u32.
  - intros id p Hp. cbn. case_match; [|done]. unfold wf. cbn. by rewrite length_insert.
  - done.
  - intros id p Hp. cbn. case_match; [|done]. unfold wf. cbn. by rewrite length_insert.
  - done.
Defined.
End Fifo.

(** ** Strict priority *)

Module Prio.
Record t := new {}.
#[global] Instance policy : Policy t := {
  policy_name := "prio";
  describe := "strict priority, no aging. starves the bottom by design";
  pick q p :=
    ((scan_best (is_ready q) (queue_priority q) u16_max (rotation (current q))).1, p);
  quantum _ _ p := (1, p);
  on_ready _ p := p;
  on_yield _ _ p := p;
  on_exit _ p := p;
  reset p := p
}.

Lemma score_lt q id : queue_wf q -> queue_priority q id < u16_max.
Proof.
  intros H. pose proof (queue_priority_bounds q id H).
  unfold MAX_PRIORITY, u16_max in *. lia.
Qed.

#[global] Instance laws : PolicyLaws t.
Proof.
  apply (Build_PolicyLaws _ _ (fun _ => True)); try done.
  - intros q p id Hq _. cbn. destruct (scan_best _ _ _ _) as [o b] eqn:E.
    cbn. intros ->. eapply scan_rotation_ready; [|exact E]. intros; by apply score_lt.
  - intros q p Hq _. cbn. destruct (scan_best _ _ _ _) as [o b] eqn:E.
    cbn. intros ->. eapply scan_rotation_none; [|exact E]. intros; by apply score_lt.
Defined.
End Prio.

(** ** Priority with aging *)

Module Aging.
Record t := mk { waited : list Z }.
Definition new : t := mk (replicate MAX_TASKS 0).

Definition effective (q : RunQueue) (p : t) (id : nat) : Z :=
  queue_priority q id - waited p !!! id.

Definition i32_max : Z := 2147483647.

(** Everyone who was runnable and did not get it grows older. *)
Definition age (q : RunQueue) (winner : nat) (p : t) : t :=
  let waited' :=
    foreach MAX_TASKS
      (fun id w => if is_ready q id && negb (id =? winner)%nat
                   then sat_add u16_max w 1 else w) (waited p) in
  mk (<[winner := 0]> waited').

Definition chosen (q : RunQueue) (p : t) : option nat :=
  (scan_best (is_ready q) (effective q p) i32_max (rotation (current q))).1.

#[global] Instance policy : Policy t := {
  policy_name := "aging";
  describe := "priority minus how long you have waited. starvation is impossible";
  pick q p := (chosen q p, age q (default (current q) (chosen q p)) p);
  quantum _ _ p := (1, p);
  on_ready id p := if (id <? MAX_TASKS)%nat then mk (<[id := 0]> (waited p)) else p;
  on_yield _ _ p := p;
  on_exit id p := if (id <? MAX_TASKS)%nat then mk (<[id := 0]> (waited p)) else p;
  reset _ := new
}.

Definition wf (p : t) : Prop :=
  length (waited p) = MAX_TASKS /\ forall id, 0 <= waited p !!! id <= u16_max.

Lemma waited_reset_wf p id : wf p -> (id < MAX_TASKS)%nat -> wf (mk (<[id := 0]> (waited p))).
Proof.
  intros [Hlen Hb] Hid. split; cbn; [by rewrite length_insert|].
  intros j. rewrite list_insert_total by lia. case_decide; [unfold u16_max; lia|done].
Qed.

Lemma age_waited q w p id :
  wf p -> (w < MAX_TASKS)%nat ->
  waited (age q w p) !!! id =
    if decide (w = id) then 0
    else if is_ready q id then sat_add u16_max (waited p !!! id) 1 else waited p !!! id.
Proof.
  intros [Hlen Hb] Hw. unfold age. cbn [waited].
  rewrite list_insert_total by (rewrite foreach_length; lia).
  case_decide as E; [done|]. rewrite foreach_lookup by lia.
  case_decide as Hlt.
  - destruct (Nat.eqb_spec id w); [congruence|]. by rewrite andb_true_r.
  - destruct (is_ready q id) eqn:Hr; [|done]. apply is_ready_lt in Hr. lia.
Qed.

Lemma age_wf q w p : wf p -> (w < MAX_TASKS)%nat -> wf (age q w p).
Proof.
  intros Hp Hw. split.
  - unfold age. cbn. rewrite length_insert, foreach_length. apply Hp.
  - intros id. rewrite age_waited by done. destruct Hp as [_ Hb]. specialize (Hb id).
    unfold sat_add, u16_max in *. repeat case_match; lia.
Qed.

Lemma effective_lt q p id : queue_wf q -> wf p -> effective q p id < i32_max.
Proof.
  intros Hq [_ Hb]. pose proof (queue_priority_bounds q id Hq). specialize (Hb id).
  unfold effective, i32_max, MAX_PRIORITY in *. lia.
Qed.

(** The winner is runnable and nobody runnable scores lower. *)
Lemma chosen_Some q p id :
  queue_wf q -> wf p -> chosen q p = Some id ->
  is_ready q id = true /\
  forall j, is_ready q j = true -> effective q p id <= effective q p j.
Proof.
  intros Hq Hp. unfold chosen. destruct (scan_best _ _ _ _) as [o b] eqn:E. cbn. intros ->.
  eapply scan_rotation_ready; [|exact E]. intros; by apply effective_lt.
Qed.

Lemma chosen_None q p :
  queue_wf q -> wf p -> chosen q p = None -> forall id, is_ready q id = false.
Proof.
  intros Hq Hp. unfold chosen. destruct (scan_best _ _ _ _) as [o b] eqn:E. cbn. intros ->.
  eapply scan_rotation_none; [|exact E]. intros; by apply effective_lt.
Qed.

Lemma winner_lt q p : queue_wf q -> wf p -> (default (current q) (chosen q p) < MAX_TASKS)%nat.
Proof.
  intros Hq Hp. destruct (chosen q p) as [id|] eqn:E; cbn; [|apply Hq].
  by eapply is_ready_lt, chosen_Some.
Qed.

Lemma new_wf : wf new.
Proof.
  split; [done|]. intros id. unfold u16_max.
  apply (replicate_total_cases (fun w => 0 <= w <= 65535)); cbn; lia.
Qed.

#[global] Instance laws : PolicyLaws t.
Proof.
  apply (Build_PolicyLaws _ _ wf).
  - intros q p id Hq Hp H. by eapply chosen_Some.
  - intros q p Hq Hp H. by eapply chosen_None.
  - intros q p Hq Hp. cbn. apply age_wf; [done|]. by apply winner_lt.
  - done.
  - intros. apply one_u32.
  - intros id p Hp. cbn. case_match eqn:E; [|done]. apply Nat.ltb_lt in E.
    by apply waited_reset_wf.
  - done.
  - intros id p Hp. cbn. case_match eqn:E; [|done]. apply Nat.ltb_lt in E.
    by apply waited_reset_wf.
  - intros. apply new_wf.
Defined.
End Aging.

(** ** Multi-level feedback queue *)

Module Mlfq.
Record t := mk { level : list Z; boost_at : Z }.
Definition new : t := mk (replicate MAX_TASKS 0) 0.

Definition LEVELS : Z := 4.
Definition BOOST : Z := 25.

(** Rule 5: everybody goes back to the top. *)
Definition boost (now : Z) (p : t) : t :=
  if boost_at p <=? now then mk (replicate MAX_TASKS 0) (now +₆₄ BOOST) else p.

#[global] Instance policy : Policy t := {
  policy_name := "mlfq";
  describe := "infers interactivity from behaviour. nobody declares anything";
  pick q p :=
    let p := boost (now q) p in
    ((scan_best (is_ready q) (fun id => level p !!! id) u8_max
        (rotation (current q))).1, p);
  quantum id _ p :=
    (wrap 32 (Z.shiftl 2 (Z.land (level p !!! (Nat.min id (MAX_TASKS - 1))) 31)), p);
  on_ready id p :=
    if (id <? MAX_TASKS)%nat then mk (<[id := 0]> (level p)) (boost_at p) else p;
  on_yield id used_full_quantum p :=
    if (MAX_TASKS <=? id)%nat then p
    else if used_full_quantum && (level p !!! id + 1 <? LEVELS)
         then mk (<[id := level p !!! id + 1]> (level p)) (boost_at p) else p;
  on_exit id p :=
    if (id <? MAX_TASKS)%nat then mk (<[id := 0]> (level p)) (boost_at p) else p;
  reset _ := new
}.

Definition wf (p : t) : Prop :=
  length (level p) = MAX_TASKS /\ forall id, 0 <= level p !!! id < LEVELS.

Lemma level_insert_wf p id v b :
  wf p -> (id < MAX_TASKS)%nat -> 0 <= v < LEVELS -> wf (mk (<[id := v]> (level p)) b).
Proof.
  intros [Hlen Hb] Hid Hv. split; cbn; [by rewrite length_insert|].
  intros j. rewrite list_insert_total by lia. by case_decide.
Qed.

Lemma zero_wf b : wf (mk (replicate MAX_TASKS 0) b).
Proof.
  split; [done|]. intros id. unfold LEVELS.
  apply (replicate_total_cases (fun w => 0 <= w < 4)); cbn; lia.
Qed.

Lemma boost_wf now p : wf p -> wf (boost now p).
Proof. intros. unfold boost. case_match; [apply zero_wf|done]. Qed.

Lemma level_lt p id : wf p -> level p !!! id < u8_max.
Proof. intros [_ Hb]. specialize (Hb id). unfold LEVELS, u8_max in *. lia. Qed.

#[global] Instance laws : PolicyLaws t.
Proof.
  apply (Build_PolicyLaws _ _ wf).
  - intros q p id Hq Hp. cbn. destruct (scan_best _ _ _ _) as [o b] eqn:E.
    cbn. intros ->. eapply scan_rotation_ready; [|exact E].
    intros. by apply level_lt, boost_wf.
  - intros q p Hq Hp. cbn. destruct (scan_best _ _ _ _) as [o b] eqn:E.
    cbn. intros ->. eapply scan_rotation_none; [|exact E].
    intros. by apply level_lt, boost_wf.
  - intros q p _ Hp. by apply boost_wf.
  - done.
  - intros. apply wrap_in_u. lia.
  - intros id p Hp. cbn. case_match eqn:E; [|done]. apply Nat.ltb_lt in E.
    apply level_insert_wf; unfold LEVELS; (done || lia).
  - intros id full p Hp. cbn. case_match eqn:E; [done|]. apply Nat.leb_gt in E.
    case_match eqn:E2; [|done]. apply andb_true_iff in E2 as [_ E2%Z.ltb_lt].
    apply level_insert_wf; [done..|]. pose proof (proj2 Hp id). lia.
  - intros id p Hp. cbn. case_match eqn:E; [|done]. apply Nat.ltb_lt in E.
    apply level_insert_wf; unfold LEVELS; (done || lia).
  - intros. apply zero_wf.
Defined.

(** The quantum doubles with depth: 2, 4, 8, 16. *)
Lemma quantum_level p id q :
  wf p -> (id < MAX_TASKS)%nat -> (quantum id q p).1 = 2 ^ (level p !!! id + 1).
Proof.
  intros [_ Hb] Hid. specialize (Hb id). cbn -[Nat.min].
  replace (Nat.min id (MAX_TASKS - 1)) with id by (unfold MAX_TASKS in *; lia).
  unfold LEVELS in Hb. assert (Hc : level p !!! id = 0 \/ level p !!! id = 1 \/
    level p !!! id = 2 \/ level p !!! id = 3) by lia.
  destruct Hc as [->|[->|[->| ->]]]; done.
Qed.
End Mlfq.
