(* ===== verification/Sched.v ===== *)
(** * The scheduling mechanism: [kernel/src/sched.rs], registry to watchdog

    One record holds every static of the module.  [choose] is the single call
    the timer interrupt makes; it burns a tick of the quantum, asks the
    installed policy, counts what happened and lets the watchdog look. *)

From S2P Require Import Prelude TaskTable Policy.

(** ** The registry *)

Record Policies := mkPolicies {
  RR : Rr.t; FIFO : Fifo.t; PRIO : Prio.t; AGING : Aging.t; MLFQ : Mlfq.t
}.

Definition Policies_eta (r : Policies) : Policies :=
  mkPolicies (RR r) (FIFO r) (PRIO r) (AGING r) (MLFQ r).
#[export] Instance set_RR : Setter RR := fun v r => ltac:(setter Policies_eta RR v r).
#[export] Instance set_FIFO : Setter FIFO := fun v r => ltac:(setter Policies_eta FIFO v r).
#[export] Instance set_PRIO : Setter PRIO := fun v r => ltac:(setter Policies_eta PRIO v r).
#[export] Instance set_AGING : Setter AGING := fun v r => ltac:(setter Policies_eta AGING v r).
#[export] Instance set_MLFQ : Setter MLFQ := fun v r => ltac:(setter Policies_eta MLFQ v r).

Definition COUNT : nat := 5.
(** The one policy the watchdog may fall back to: [aging]. *)
Definition SAFE : nat := 3.
#[global] Arguments COUNT : simpl never.
#[global] Arguments SAFE : simpl never.

(** [&'static mut dyn Policy]: a policy, its contract, and where its state
    lives among the statics. *)
Record Brick := mkBrick {
  carrier : Type;
  brick_policy :: Policy carrier;
  brick_laws :: PolicyLaws carrier;
  get : Policies -> carrier;
  put : carrier -> Policies -> Policies
}.

Definition policy_at (index : nat) : Brick :=
  match index with
  | 0%nat => mkBrick Rr.t _ _ RR (fun v r => r <| RR := v |>)
  | 1%nat => mkBrick Fifo.t _ _ FIFO (fun v r => r <| FIFO := v |>)
  | 2%nat => mkBrick Prio.t _ _ PRIO (fun v r => r <| PRIO := v |>)
  | 4%nat => mkBrick Mlfq.t _ _ MLFQ (fun v r => r <| MLFQ := v |>)
  | _ => mkBrick Aging.t _ _ AGING (fun v r => r <| AGING := v |>)
  end.

(** What the watchdog saw. *)
Record Starvation := mkStarvation {
  starved_task : nat; starved_ticks : Z; starved_policy : nat; reverted : bool
}.

Definition TRACE_LENGTH : nat := 1024.
#[global] Arguments TRACE_LENGTH : simpl never.

(** Every static of the module. *)
Record Sched := mkSched {
  policies : Policies;
  ACTIVE : nat;
  REMAINING : Z;
  SLICES : list Z;
  FIRST_RUN : list Z;
  WORST : list Z;
  SWITCHES : Z;
  START_TICK : Z;
  TRACE_RAN : list Z;
  TRACE_READY : list Z;
  TRACE_LAST : Z;
  TRACE_COUNT : Z;
  UNPICKED : list Z;
  WATCHDOG : bool;
  REPORT : option Starvation
}.

Definition Sched_eta (r : Sched) : Sched :=
  mkSched (policies r) (ACTIVE r) (REMAINING r) (SLICES r) (FIRST_RUN r) (WORST r)
    (SWITCHES r) (START_TICK r) (TRACE_RAN r) (TRACE_READY r) (TRACE_LAST r)
    (TRACE_COUNT r) (UNPICKED r) (WATCHDOG r) (REPORT r).
#[export] Instance set_policies : Setter policies := fun v r => ltac:(setter Sched_eta policies v r).
#[export] Instance set_ACTIVE : Setter ACTIVE := fun v r => ltac:(setter Sched_eta ACTIVE v r).
#[export] Instance set_REMAINING : Setter REMAINING := fun v r => ltac:(setter Sched_eta REMAINING v r).
#[export] Instance set_SLICES : Setter SLICES := fun v r => ltac:(setter Sched_eta SLICES v r).
#[export] Instance set_FIRST_RUN : Setter FIRST_RUN := fun v r => ltac:(setter Sched_eta FIRST_RUN v r).
#[export] Instance set_WORST : Setter WORST := fun v r => ltac:(setter Sched_eta WORST v r).
#[export] Instance set_SWITCHES : Setter SWITCHES := fun v r => ltac:(setter Sched_eta SWITCHES v r).
#[export] Instance set_START_TICK : Setter START_TICK := fun v r => ltac:(setter Sched_eta START_TICK v r).
#[export] Instance set_TRACE_RAN : Setter TRACE_RAN := fun v r => ltac:(setter Sched_eta TRACE_RAN v r).
#[export] Instance set_TRACE_READY : Setter TRACE_READY := fun v r => ltac:(setter Sched_eta TRACE_READY v r).
#[export] Instance set_TRACE_LAST : Setter TRACE_LAST := fun v r => ltac:(setter Sched_eta TRACE_LAST v r).
#[export] Instance set_TRACE_COUNT : Setter TRACE_COUNT := fun v r => ltac:(setter Sched_eta TRACE_COUNT v r).
#[export] Instance set_UNPICKED : Setter UNPICKED := fun v r => ltac:(setter Sched_eta UNPICKED v r).
#[export] Instance set_WATCHDOG : Setter WATCHDOG := fun v r => ltac:(setter Sched_eta WATCHDOG v r).
#[export] Instance set_REPORT : Setter REPORT := fun v r => ltac:(setter Sched_eta REPORT v r).

Definition Sched_init : Sched :=
  {| policies := mkPolicies Rr.new Fifo.new Prio.new Aging.new Mlfq.new;
     ACTIVE := SAFE; REMAINING := 0;
     SLICES := replicate MAX_TASKS 0; FIRST_RUN := replicate MAX_TASKS u64_max;
     WORST := replicate MAX_TASKS 0; SWITCHES := 0; START_TICK := 0;
     TRACE_RAN := replicate TRACE_LENGTH 255; TRACE_READY := replicate TRACE_LENGTH 0;
     TRACE_LAST := 0; TRACE_COUNT := 0; UNPICKED := replicate MAX_TASKS 0;
     WATCHDOG := true; REPORT := None |}.

(** Calls through [policy_at(index)]. *)
Definition modify_policy (index : nat) (f : carrier (policy_at index) -> carrier (policy_at index))
    (s : Sched) : Sched :=
  s <| policies := put (policy_at index) (f (get (policy_at index) (policies s))) (policies s) |>.

Definition call_policy {R} (index : nat)
    (f : carrier (policy_at index) -> R * carrier (policy_at index)) (s : Sched) : R * Sched :=
  let '(r, p) := f (get (policy_at index) (policies s)) in
  (r, s <| policies := put (policy_at index) p (policies s) |>).

Definition name_at (index : nat) : string :=
  @policy_name _ (brick_policy (policy_at (Nat.min index (COUNT - 1)))).
Definition describe_at (index : nat) : string :=
  @describe _ (brick_policy (policy_at (Nat.min index (COUNT - 1)))).
Definition active_name (s : Sched) : string := @policy_name _ (brick_policy (policy_at (ACTIVE s))).
Definition active_description (s : Sched) : string :=
  @describe _ (brick_policy (policy_at (ACTIVE s))).

(** ** The trace *)

(** [ran >= MAX_TASKS] means the machine was idle on this tick. *)
Definition trace_push (tick ran ready : Z) (s : Sched) : Sched :=
  let count := TRACE_COUNT s in
  let index := Z.to_nat (count mod Z.of_nat TRACE_LENGTH) in
  let cell := if ran <? Z.of_nat MAX_TASKS then ran else 255 in
  s <| TRACE_RAN := <[index := cell]> (TRACE_RAN s) |>
    <| TRACE_READY := <[index := ready]> (TRACE_READY s) |>
    <| TRACE_COUNT := count +₆₄ 1 |> <| TRACE_LAST := tick |>.

Definition trace_at (tick : Z) (s : Sched) : option (Z * Z) :=
  let count := TRACE_COUNT s in
  let last := TRACE_LAST s in
  if (count =? 0) || (last <? tick) then None
  else
    let back := last - tick in
    if (Z.of_nat TRACE_LENGTH <=? back) || (count <=? back) then None
    else
      let index := Z.to_nat ((count - 1 - back) mod Z.of_nat TRACE_LENGTH) in
      Some (TRACE_RAN s !!! index, TRACE_READY s !!! index).

Definition trace_window (s : Sched) : Z * Z :=
  (TRACE_LAST s, Z.min (TRACE_COUNT s) (Z.of_nat TRACE_LENGTH)).

(** ** What the mechanism counts *)

(** One turn of the waiting loop. *)
Definition account_one (q : RunQueue) (next : nat) (acc : Z * list Z * list Z) (id : nat)
  : Z * list Z * list Z :=
  let '(ready_mask, unpicked, worst) := acc in
  let ready_mask := if is_ready q id then Z.lor ready_mask (Z.shiftl 1 (Z.of_nat id))
                    else ready_mask in
  if (id =? next)%nat || negb (is_ready q id)
  then (ready_mask, <[id := 0]> unpicked, worst)
  else
    let waiting := sat_add u32_max (unpicked !!! id) 1 in
    (ready_mask, <[id := waiting]> unpicked,
     if worst !!! id <? waiting then <[id := waiting]> worst else worst).

Definition account (q : RunQueue) (next current : nat) (now : Z) (s : Sched) : Sched :=
  let idle := negb (is_ready q next) in
  let slices :=
    if idle then SLICES s else <[next := sat_add u64_max (SLICES s !!! next) 1]> (SLICES s) in
  let first :=
    if negb idle && (FIRST_RUN s !!! next =? u64_max)
    then <[next := sat_sub now (START_TICK s)]> (FIRST_RUN s) else FIRST_RUN s in
  let switches :=
    if negb idle && negb (next =? current)%nat
    then sat_add u64_max (SWITCHES s) 1 else SWITCHES s in
  let '(ready_mask, unpicked, worst) :=
    fold_left (account_one q next) (seq 0 MAX_TASKS) (0, UNPICKED s, WORST s) in
  trace_push now (if idle then u64_max else Z.of_nat next) ready_mask
    (s <| SLICES := slices |> <| FIRST_RUN := first |> <| SWITCHES := switches |>
       <| UNPICKED := unpicked |> <| WORST := worst |>).

Definition reset_stats (now : Z) (s : Sched) : Sched :=
  s <| SLICES := replicate MAX_TASKS 0 |> <| FIRST_RUN := replicate MAX_TASKS u64_max |>
    <| WORST := replicate MAX_TASKS 0 |> <| UNPICKED := replicate MAX_TASKS 0 |>
    <| SWITCHES := 0 |> <| START_TICK := now |>.

Definition slices (id : nat) (s : Sched) : Z :=
  if (MAX_TASKS <=? id)%nat then 0 else SLICES s !!! id.

Definition first_run (id : nat) (s : Sched) : option Z :=
  if (MAX_TASKS <=? id)%nat then None
  else if FIRST_RUN s !!! id =? u64_max then None else Some (FIRST_RUN s !!! id).

Definition worst_wait_of (id : nat) (s : Sched) : Z :=
  if (MAX_TASKS <=? id)%nat then 0 else WORST s !!! id.

(** ** The watchdog *)

Definition STARVATION_TICKS : Z := 100.

Definition set_watchdog (enabled : bool) (s : Sched) : Sched := s <| WATCHDOG := enabled |>.

(** The longest any runnable task has currently gone unpicked, and who. *)
Definition worst_wait (s : Sched) : nat * Z :=
  fold_left
    (fun '(worst, longest) '(id, waited) =>
       if longest <? waited then (id, waited) else (worst, longest))
    (zip (seq 0 (length (UNPICKED s))) (UNPICKED s)) (0%nat, 0).

(** Install a policy: reset it, replay the runnable set, clear the quantum. *)
Definition install (index : nat) (ts : Table) (current : nat) (now : Z) (s : Sched)
  : bool * Sched :=
  if (COUNT <=? index)%nat then (false, s)
  else
    let queue := mkRunQueue ts current now in
    let s := modify_policy index reset s in
    let s := fold_left (fun s id => modify_policy index (on_ready id) s) (ready queue) s in
    (true, s <| ACTIVE := index |> <| REMAINING := 0 |>
             <| UNPICKED := replicate MAX_TASKS 0 |>).

Definition install_by_name (name : string) (ts : Table) (current : nat) (now : Z) (s : Sched)
  : bool * Sched :=
  match range_find 0 COUNT (fun index => bool_decide (name_at index = name)) with
  | Some index => install index ts current now s
  | None => (false, s)
  end.

Definition watchdog (active : nat) (ts : Table) (current : nat) (now : Z) (s : Sched) : Sched :=
  if negb (WATCHDOG s) then s
  else
    let '(worst, longest) := worst_wait s in
    if longest <? STARVATION_TICKS then s
    else
      match REPORT s with
      | Some _ => s
      | None =>
          let reverted := negb (active =? SAFE)%nat in
          let s := s <| REPORT := Some (mkStarvation worst longest active reverted) |> in
          if reverted then (install SAFE ts current now s).2 else s
      end.

(** [report_starvation] takes the report; what it prints is not modelled. *)
Definition take_report (s : Sched) : option Starvation * Sched :=
  (REPORT s, s <| REPORT := None |>).

Definition task_created (id : nat) (s : Sched) : Sched := modify_policy (ACTIVE s) (on_ready id) s.
Definition task_exited (id : nat) (s : Sched) : Sched := modify_policy (ACTIVE s) (on_exit id) s.

(** ** The decision *)

Definition choose (ts : Table) (current : nat) (now : Z) (s : Sched) : nat * Sched :=
  let queue := mkRunQueue ts current now in
  let remaining := sat_sub (REMAINING s) 1 in
  let s := s <| REMAINING := remaining |> in
  if (0 <? remaining) && is_ready queue current then (current, s)
  else
    let active := ACTIVE s in
    let s := modify_policy active (on_yield current (remaining =? 0)) s in
    let '(picked, s) := call_policy active (pick queue) s in
    let '(next, s) :=
      match picked with
      | Some id =>
          let '(quantum, s) := call_policy active (quantum id queue) s in
          (id, s <| REMAINING := Z.max quantum 1 |>)
      | None => (current, s <| REMAINING := 0 |>)
      end in
    let s := account queue next current now s in
    let s := watchdog active ts current now s in
    (next, s).

(** ** The conformance surface *)

Definition test_pick (index : nat) (ts : Table) (current : nat) (now : Z) (s : Sched)
  : option nat * Sched :=
  call_policy (Nat.min index (COUNT - 1)) (pick (mkRunQueue ts current now)) s.
Definition test_quantum (index id : nat) (ts : Table) (current : nat) (now : Z) (s : Sched)
  : Z * Sched :=
  call_policy (Nat.min index (COUNT - 1)) (quantum id (mkRunQueue ts current now)) s.
Definition test_reset (index : nat) (s : Sched) : Sched :=
  modify_policy (Nat.min index (COUNT - 1)) reset s.
Definition test_ready (index id : nat) (s : Sched) : Sched :=
  modify_policy (Nat.min index (COUNT - 1)) (on_ready id) s.
Definition resync (ts : Table) (current : nat) (ticks : Z) (s : Sched) : Sched :=
  (install (ACTIVE s) ts current ticks s).2.

(** ** The registry is a family of lenses *)

Definition policies_wf (ps : Policies) : Prop :=
  policy_wf (RR ps) /\ policy_wf (FIFO ps) /\ policy_wf (PRIO ps) /\
  policy_wf (AGING ps) /\ policy_wf (MLFQ ps).

Ltac each_policy i :=
  destruct i as [|[|[|[|[|i]]]]].

Lemma get_wf i ps : policies_wf ps -> policy_wf (get (policy_at i) ps).
Proof. intros (? & ? & ? & ? & ?). each_policy i; done. Qed.

Lemma put_wf i p ps : policies_wf ps -> policy_wf p -> policies_wf (put (policy_at i) p ps).
Proof. unfold policies_wf. intros (? & ? & ? & ? & ?) Hp. each_policy i; cbn in *; done. Qed.

Lemma get_put i p ps : get (policy_at i) (put (policy_at i) p ps) = p.
Proof. each_policy i; done. Qed.

(** What the mechanism itself keeps true. *)
Record sched_wf (s : Sched) : Prop := {
  wf_policies : policies_wf (policies s);
  wf_active : (ACTIVE s < COUNT)%nat;
  wf_slices : length (SLICES s) = MAX_TASKS;
  wf_first : length (FIRST_RUN s) = MAX_TASKS;
  wf_worst : length (WORST s) = MAX_TASKS;
  wf_unpicked : length (UNPICKED s) = MAX_TASKS;
  wf_unpicked_u32 : Forall (in_u 32) (UNPICKED s);
  wf_ran : length (TRACE_RAN s) = TRACE_LENGTH;
  wf_ready : length (TRACE_READY s) = TRACE_LENGTH;
  wf_remaining : in_u 32 (REMAINING s)
}.

Create HintDb sched.
#[export] Hint Resolve get_wf put_wf wf_policies wf_active : sched.

Lemma Fifo_new_wf : policy_wf Fifo.new.
Proof. done. Qed.

Lemma Sched_init_wf : sched_wf Sched_init.
Proof.
  constructor; try done.
  - unfold policies_wf. split_and!; try done; [apply Aging.new_wf|apply Mlfq.zero_wf].
  - by apply Nat.ltb_lt.
  - apply Forall_replicate. by unfold in_u.
Qed.

Lemma modify_policy_wf i f s :
  sched_wf s -> (forall p, policy_wf p -> policy_wf (f p)) -> sched_wf (modify_policy i f s).
Proof. intros [] Hf. constructor; try done. cbn. eauto with sched. Qed.

Lemma call_policy_wf {R} i (f : carrier (policy_at i) -> R * carrier (policy_at i)) s :
  sched_wf s -> (forall p, policy_wf p -> policy_wf (f p).2) -> sched_wf (call_policy i f s).2.
Proof.
  intros [] Hf. unfold call_policy. specialize (Hf (get (policy_at i) (policies s))).
  destruct (f _) as [r p]. constructor; try done. cbn. eauto with sched.
Qed.

(** ** The waiting loop, cell by cell *)

Definition unpicked_cell (q : RunQueue) (next id : nat) (u : Z) : Z :=
  if (id =? next)%nat || negb (is_ready q id) then 0 else sat_add u32_max u 1.

Lemma account_loop q next n mask unpicked worst :
  exists mask' worst',
    fold_left (account_one q next) (seq 0 n) (mask, unpicked, worst)
      = (mask', foreach n (unpicked_cell q next) unpicked, worst') /\
    length worst' = length worst.
Proof.
  induction n as [|n (m & w & IH & Hlen)].
  { exists mask, worst. split; reflexivity. }
  rewrite seq_S, fold_left_app, IH, foreach_S. cbn -[foreach].
  assert (Hcell : forall u, unpicked_cell q next n u =
    if (n =? next)%nat || negb (is_ready q n) then 0 else sat_add u32_max u 1) by done.
  rewrite Hcell.
  destruct ((n =? next)%nat || negb (is_ready q n)) eqn:E.
  - do 2 eexists. by split.
  - do 2 eexists. split; [done|]. case_match; [|done]. by rewrite length_insert.
Qed.

Lemma account_UNPICKED q next current now s :
  UNPICKED (account q next current now s) = foreach MAX_TASKS (unpicked_cell q next) (UNPICKED s).
Proof.
  unfold account.
  destruct (account_loop q next MAX_TASKS 0 (UNPICKED s) (WORST s)) as (m & w & -> & _).
  done.
Qed.

Lemma account_frame q next current now s :
  let s' := account q next current now s in
  policies s' = policies s /\ ACTIVE s' = ACTIVE s /\ REMAINING s' = REMAINING s /\
  WATCHDOG s' = WATCHDOG s /\ REPORT s' = REPORT s.
Proof. unfold account. destruct (fold_left _ _ _) as [[m u] w]. done. Qed.

Lemma unpicked_cell_u32 q next id u : in_u 32 u -> in_u 32 (unpicked_cell q next id u).
Proof.
  unfold unpicked_cell, in_u, sat_add, u32_max. case_match; lia.
Qed.

Lemma foreach_Forall {A} `{Inhabited A} (P : A -> Prop) n (f : nat -> A -> A) l :
  (n <= length l)%nat -> Forall P l -> (forall i x, P x -> P (f i x)) -> Forall P (foreach n f l).
Proof.
  intros Hn Hl Hf. rewrite Forall_lookup in *. intros i x Hx.
  pose proof (lookup_lt_Some _ _ _ Hx) as Hi. rewrite foreach_length in Hi.
  apply list_lookup_total_correct in Hx. rewrite foreach_lookup in Hx by done. subst x.
  destruct (lookup_lt_is_Some_2 l i Hi) as [y Hy].
  rewrite (list_lookup_total_correct _ _ _ Hy). case_decide; eauto.
Qed.

Lemma account_wf q next current now s :
  sched_wf s -> (next < MAX_TASKS)%nat -> sched_wf (account q next current now s).
Proof.
  intros [] Hnext. pose proof (account_UNPICKED q next current now s) as Hu.
  assert (Hl : length (UNPICKED s) = MAX_TASKS) by done.
  revert Hu. unfold account.
  destruct (account_loop q next MAX_TASKS 0 (UNPICKED s) (WORST s)) as (m & w & -> & Hw).
  intros _. constructor; cbn; repeat case_match;
    rewrite ?length_insert, ?foreach_length; try done; try congruence.
  apply foreach_Forall; [lia|done|]. intros. by apply unpicked_cell_u32.
Qed.

Lemma fold_on_ready_wf i l s :
  sched_wf s -> sched_wf (fold_left (fun s id => modify_policy i (on_ready id) s) l s).
Proof.
  revert s. induction l as [|id l IH]; intros s Hs; cbn; [done|].
  apply IH, modify_policy_wf; auto with policy.
Qed.

Lemma fold_on_ready_frame i l s :
  let s' := fold_left (fun s id => modify_policy i (on_ready id) s) l s in
  WATCHDOG s' = WATCHDOG s /\ REPORT s' = REPORT s.
Proof. revert s. induction l as [|id l IH]; intros s; cbn; [done|].
  destruct (IH (modify_policy i (on_ready id) s)) as [Hw Hr]. by rewrite Hw, Hr.
Qed.

Lemma install_wf i ts current now s : sched_wf s -> sched_wf (install i ts current now s).2.
Proof.
  intros Hs. unfold install. destruct (Nat.leb_spec COUNT i); [done|]. cbn zeta.
  pose proof (modify_policy_wf i reset s Hs) as Hr.
  pose proof (fold_on_ready_wf i (ready (mkRunQueue ts current now)) _
                (Hr (fun p => reset_wf p))) as [].
  constructor; try done. cbn. apply Forall_replicate. unfold in_u; lia.
Qed.

Lemma watchdog_wf active ts current now s :
  sched_wf s -> sched_wf (watchdog active ts current now s).
Proof.
  intros Hs. unfold watchdog. case_match; [done|]. destruct (worst_wait s) as [w l].
  case_match; [done|]. case_match; [done|].
  assert (Hr : forall r, sched_wf (s <| REPORT := r |>)) by (intros; by destruct Hs; constructor).
  case_match; [by apply install_wf|done].
Qed.

#[export] Hint Resolve account_wf watchdog_wf install_wf : sched.

(** ** What [choose] returns *)

Lemma choose_spec ts current now s :
  sched_wf s -> table_wf ts -> (current < MAX_TASKS)%nat ->
  let q := mkRunQueue ts current now in
  sched_wf (choose ts current now s).2 /\
  (is_ready q (choose ts current now s).1 = true \/
   (choose ts current now s).1 = current /\ forall id, is_ready q id = false).
Proof.
  intros Hs Hts Hcur q. assert (Hq : queue_wf q) by done. unfold choose. fold q.
  set (r := sat_sub (REMAINING s) 1).
  assert (Hr : in_u 32 r).
  { pose proof (wf_remaining s Hs). unfold in_u, r, sat_sub in *. lia. }
  assert (Hs1 : sched_wf (s <| REMAINING := r |>)) by (destruct Hs; by constructor).
  destruct ((0 <? r) && is_ready q current) eqn:Ekeep.
  { cbn. apply andb_true_iff in Ekeep as [_ ?]. auto. }
  cbn zeta. set (a := ACTIVE (s <| REMAINING := r |>)).
  pose proof (modify_policy_wf a (on_yield current (r =? 0)) _ Hs1
                (fun p => on_yield_wf _ _ p)) as Hs2.
  set (s2 := modify_policy a _ _) in *.
  pose proof (call_policy_wf a (pick q) s2 Hs2 (fun p Hp => pick_wf q p Hq Hp)) as Hs3.
  pose proof (get_wf a _ (wf_policies _ Hs2)) as Hg.
  assert (Hpick : (call_policy a (pick q) s2).1 = (pick q (get (policy_at a) (policies s2))).1)
    by (unfold call_policy; by destruct (pick q _)).
  destruct (call_policy a (pick q) s2) as [picked s3]. cbn in Hpick, Hs3.
  destruct picked as [id|].
  - symmetry in Hpick. pose proof (pick_Some q _ id Hq Hg Hpick) as Hready.
    pose proof (call_policy_wf a (quantum id q) s3 Hs3 (fun p => quantum_wf id q p)) as Hs4.
    assert (Hqu : in_u 32 (call_policy a (quantum id q) s3).1).
    { pose proof (quantum_u32 id q _ (get_wf a _ (wf_policies _ Hs3))) as Hqu.
      unfold call_policy. by destruct (quantum id q _). }
    destruct (call_policy a (quantum id q) s3) as [n s4]. cbn in Hs4, Hqu.
    split; [|by left]. cbn. apply watchdog_wf, account_wf; [|by eapply is_ready_lt].
    destruct Hs4; constructor; try done. cbn. unfold in_u in *. lia.
  - symmetry in Hpick. pose proof (pick_None q _ Hq Hg Hpick) as Hnone.
    split; [|by right]. cbn. apply watchdog_wf, account_wf; [|done].
    destruct Hs3; by constructor.
Qed.

(** C21: the scheduler is work conserving and never runs a task that may not
    run.  Whatever policy is installed and whatever its history, [choose]
    hands the CPU to a Ready task whenever one exists, and stays on the
    current task only when nobody can run; its own invariant is kept. *)
Theorem choose_runs_ready ts current now s :
  sched_wf s -> table_wf ts -> (current < MAX_TASKS)%nat ->
  let '(next, s') := choose ts current now s in
  sched_wf s' /\ (next < MAX_TASKS)%nat /\
  ((exists id, (id < MAX_TASKS)%nat /\ state (ts !!! id) = State.Ready) ->
   state (ts !!! next) = State.Ready) /\
  ((forall id, (id < MAX_TASKS)%nat -> state (ts !!! id) <> State.Ready) -> next = current).
Proof.
  intros Hs Hts Hcur. pose proof (choose_spec ts current now s Hs Hts Hcur) as [Hwf Hn].
  destruct (choose ts current now s) as [next s']. cbn in *.
  assert (Hiff : forall id, (id < MAX_TASKS)%nat ->
            is_ready (mkRunQueue ts current now) id = true <-> state (ts !!! id) = State.Ready).
  { intros id Hid. unfold is_ready, is_state. cbn [tasks].
    rewrite andb_true_iff, Nat.ltb_lt, bool_decide_eq_true. tauto. }
  assert (Hlt : (next < MAX_TASKS)%nat)
    by (destruct Hn as [Hn|[-> _]]; [by eapply is_ready_lt|done]).
  split; [done|]. split; [done|]. split.
  - intros (id & Hid & Hst). apply Hiff; [done|]. destruct Hn as [Hn|[_ Hnone]]; [done|].
    apply Hiff in Hst; [|done]. by rewrite Hnone in Hst.
  - intros Hnone. destruct Hn as [Hn|[-> _]]; [|done].
    apply Hiff in Hn; [|done]. by apply Hnone in Hn.
Qed.

Lemma choose_runs_ready_witness :
  let ts := test_table [(State.Ready, 0); (State.Free, 8); (State.Ready, 8)] in
  sched_wf Sched_init /\ table_wf ts /\ (choose ts 0 5 Sched_init).1 = 0%nat /\
  (let '(next, s') := choose ts 0 5 Sched_init in
   sched_wf s' /\ (next < MAX_TASKS)%nat /\
   ((exists id, (id < MAX_TASKS)%nat /\ state (ts !!! id) = State.Ready) ->
    state (ts !!! next) = State.Ready) /\
   ((forall id, (id < MAX_TASKS)%nat -> state (ts !!! id) <> State.Ready) -> next = 0%nat)).
Proof.
  assert (Hts : table_wf (test_table [(State.Ready, 0); (State.Free, 8); (State.Ready, 8)])).
  { apply test_table_wf. repeat constructor; cbn; unfold MAX_PRIORITY; lia. }
  split_and!; [exact Sched_init_wf|exact Hts|by vm_compute|].
  apply choose_runs_ready; [exact Sched_init_wf|exact Hts|unfold MAX_TASKS; lia].
Defined.
