(* ===== verification/Fairness.v ===== *)
(** * Who waits, and for how long

    The fairness side of [kernel/src/sched.rs]: round robin's rotation,
    strict priority's starvation, the bound aging puts on a wait, and what
    that bound means for the watchdog in every reachable state. *)

From S2P Require Import Prelude TaskTable Policy Sched.

(** ** A run of decisions

    The policy sees a sequence of events: a decision on a run queue, a task
    giving the CPU up, a slot being filled, a slot being freed.  [picks] lists the decisions' answers. *)

Inductive event :=
| Decide (q : RunQueue)
| Yield (id : nat) (used_full_quantum : bool)
| Arrive (id : nat)
| Depart (id : nat).

Section run.
Context {P : Type} `{!Policy P}.

Definition event_step (p : P) (e : event) : list (option nat) * P :=
  match e with
  | Decide q => let '(r, p') := pick q p in ([r], p')
  | Yield id full => ([], on_yield id full p)
  | Arrive id => ([], on_ready id p)
  | Depart id => ([], on_exit id p)
  end.

Fixpoint picks (p : P) (es : list event) : list (option nat) :=
  match es with
  | [] => []
  | e :: es => let '(r, p') := event_step p e in r ++ picks p' es
  end.
End run.

Definition is_decision (e : event) : bool := match e with Decide _ => true | _ => false end.
Definition decisions (es : list event) : nat := length (List.filter is_decision es).

(** [id] is runnable at every decision, its slot is not recycled, and it is
    not the one running. *)
Definition stays_ready (id : nat) (e : event) : Prop :=
  match e with
  | Decide q => queue_wf q /\ is_ready q id = true
  | Yield j _ | Arrive j | Depart j => j <> id
  end.

(** Every decision starts from the task the one before it chose, as it does
    when nothing but the scheduler moves the CPU. *)
Fixpoint chained {P} `{!Policy P} (c : nat) (p : P) (es : list event) : Prop :=
  match es with
  | [] => True
  | Decide q :: es => current q = c /\ chained (default c (pick q p).1) (pick q p).2 es
  | e :: es => chained c (event_step p e).2 es
  end.

(** ** The rotation

    Searching from [current + 1] brings the search closer, each time it stops
    short of [id], to [id]. *)

Definition distance (c id : nat) : nat := (id + MAX_TASKS - c - 1) mod MAX_TASKS.

Lemma distance_lt c id : (distance c id < MAX_TASKS)%nat.
Proof. apply Nat.mod_upper_bound. unfold MAX_TASKS. lia. Qed.

Lemma below_MAX_TASKS (Q : nat -> Prop) n :
  (n < MAX_TASKS)%nat -> Forall Q (seq 0 MAX_TASKS) -> Q n.
Proof. intros Hn H. eapply Forall_forall in H; [done|]. apply elem_of_seq. lia. Qed.

Lemma rotation_progress f c id w :
  (c < MAX_TASKS)%nat -> (id < MAX_TASKS)%nat ->
  List.find f (rotation c) = Some w -> f id = true -> w <> id ->
  (distance w id < distance c id)%nat.
Proof.
  intros Hc Hid. revert w. pattern c. apply below_MAX_TASKS; [done|].
  unfold MAX_TASKS; cbn [seq]. repeat apply Forall_cons_2; try apply Forall_nil_2;
    (pattern id; apply below_MAX_TASKS; [done|]);
    unfold MAX_TASKS; cbn [seq]; repeat apply Forall_cons_2; try apply Forall_nil_2;
    match goal with |- context [rotation ?k] =>
      let r := eval vm_compute in (rotation k) in change (rotation k) with r end;
    intros w; cbn;
    repeat (case_match; [intros [= <-] ? ?; first [done|vm_compute; lia]|]); intros; congruence.
Qed.

(** A policy whose every decision is a search along the rotation for a set
    that [id] belongs to answers [id] within [MAX_TASKS] decisions. *)
Lemma rotation_serves {P} `{!Policy P} (I : P -> Prop) id es c p :
  (forall q p, queue_wf q -> I p -> is_ready q id = true ->
     exists f, (pick q p).1 = List.find f (rotation (current q)) /\ f id = true) ->
  (forall q p, queue_wf q -> I p -> I (pick q p).2) ->
  (forall j p full, j <> id -> I p ->
     I (on_yield j full p) /\ I (on_ready j p) /\ I (on_exit j p)) ->
  I p -> (c < MAX_TASKS)%nat -> Forall (stays_ready id) es -> chained c p es ->
  Some id ∉ picks p es -> (decisions es <= distance c id)%nat.
Proof.
  intros Hfind Hpick Hev. revert c p. induction es as [|e es IH]; intros c p Hp Hc Hes Hch Hno.
  { cbn. lia. }
  apply Forall_cons in Hes as [He Hes].
  destruct e as [q|j full|j|j]; cbn [picks event_step chained] in Hno, Hch.
  - destruct He as [Hq Hid], Hch as [<- Hch].
    destruct (Hfind q p Hq Hp Hid) as (f & Hf & Hfid).
    specialize (Hpick q p Hq Hp). destruct (pick q p) as [r p']. cbn in *. subst r.
    rewrite not_elem_of_cons in Hno. destruct Hno as [Hne Hno].
    destruct (List.find f _) as [w|] eqn:E.
    + assert (w <> id) by congruence. pose proof (is_ready_lt q id Hid) as Hidlt.
      pose proof (rotation_progress f _ id w Hc Hidlt E Hfid H).
      apply find_some in E as [Hw%list_elem_of_In%elem_of_rotation _].
      specialize (IH w p' Hpick Hw Hes Hch Hno). unfold decisions in *. cbn. lia.
    + pose proof (find_none _ _ E id) as Hn. rewrite Hn in Hfid; [done|].
      apply list_elem_of_In, elem_of_rotation. by eapply is_ready_lt.
  - apply (IH c (on_yield j full p)); try done. by apply Hev.
  - apply (IH c (on_ready j p)); try done. by apply (Hev j p false).
  - apply (IH c (on_exit j p)); try done. by apply (Hev j p false).
Qed.

Lemma decisions_le_distance {P} `{!Policy P} id c p es :
  ((Some id ∉ picks p es) -> decisions es <= distance c id)%nat ->
  (MAX_TASKS <= decisions es)%nat -> Some id ∈ picks p es.
Proof.
  intros H Hd. destruct (decide (Some id ∈ picks p es)) as [|Hno]; [done|].
  pose proof (distance_lt c id). specialize (H Hno). lia.
Qed.

(** Round robin is starvation free, with the best bound there is: a task
    that stays runnable is picked within [MAX_TASKS] decisions, wherever the
    rotation stands and whatever the others do. *)
Theorem rr_serves_everyone id es c p :
  (c < MAX_TASKS)%nat -> Forall (stays_ready id) es -> chained (P := Rr.t) c p es ->
  (MAX_TASKS <= decisions es)%nat -> Some id ∈ picks p es.
Proof.
  intros Hc Hes Hch. apply (decisions_le_distance id c).
  apply (rotation_serves (fun _ => True)); try done.
  intros q p' _ _ Hid. by exists (is_ready q).
Qed.

(** Eight ready tasks of priorities 0 to 7, seen from task [c]. *)
Definition busy_queue (prios : list Z) (c : nat) (now : Z) : RunQueue :=
  mkRunQueue (test_table (map (fun n => (State.Ready, n)) prios)) c now.

Lemma busy_queue_wf prios c now :
  Forall (fun n => 0 <= n <= MAX_PRIORITY) prios -> (c < MAX_TASKS)%nat ->
  queue_wf (busy_queue prios c now).
Proof. intros H Hc. split; [|done]. apply test_table_wf. by apply Forall_map. Qed.

Definition zeros : list Z := replicate 8 0.
Definition round (now : Z) : list event :=
  map (fun c => Decide (busy_queue zeros c now)) (seq 0 8).

Lemma round_stays_ready id now : (id < 8)%nat -> Forall (stays_ready id) (round now).
Proof.
  intros Hid. apply Forall_map, Forall_forall. intros c Hc%elem_of_seq. split.
  - apply busy_queue_wf; [|unfold MAX_TASKS; lia].
    apply Forall_replicate. unfold MAX_PRIORITY. lia.
  - do 8 (destruct id as [|id]; [by destruct c|]). lia.
Qed.

Lemma rr_serves_everyone_witness :
  chained (P := Rr.t) 0 Rr.new (round 0) /\ Some 5%nat ∈ picks Rr.new (round 0).
Proof.
  split; [by vm_compute|].
  apply (rr_serves_everyone 5 (round 0) 0).
  - unfold MAX_TASKS. lia.
  - apply round_stays_ready. lia.
  - by vm_compute.
  - by vm_compute; lia.
Defined.

(** ** Strict priority *)

(** Strict priority starves, exactly as its description says: as long as
    a more important task is runnable, a task is never picked, however many
    decisions are taken. *)
Theorem prio_starves id hi es p :
  Forall (fun e => match e with
                   | Decide q => queue_wf q /\ is_ready q hi = true /\
                                 queue_priority q hi < queue_priority q id
                   | _ => True
                   end) es ->
  Some id ∉ picks (P := Prio.t) p es.
Proof.
  revert p. induction es as [|e es IH]; intros p Hes; [by apply not_elem_of_nil|].
  apply Forall_cons in Hes as [He Hes].
  destruct e as [q| | |]; cbn [picks event_step]; try by apply IH.
  destruct He as (Hq & Hhi & Hlt). cbn. rewrite not_elem_of_cons. split; [|by apply IH].
  destruct (scan_best _ _ _ _) as [[w|] b] eqn:E; [|done]. cbn. intros [= ->].
  apply scan_rotation_ready in E as [_ Hmin]; [|intros; by apply Prio.score_lt].
  specialize (Hmin hi Hhi). lia.
Qed.

Lemma prio_starves_witness :
  let q := busy_queue [0; 1] 0 0 in
  is_ready q 1 = true /\ Some 1%nat ∉ picks (P := Prio.t) Prio.new (replicate 50 (Decide q)).
Proof.
  split; [by vm_compute|]. apply (prio_starves 1 0). apply Forall_replicate. split_and!.
  - apply busy_queue_wf; [|unfold MAX_TASKS; lia].
    unfold MAX_PRIORITY. repeat constructor; lia.
  - by vm_compute.
  - by vm_compute.
Defined.

(** ** The multi-level queue *)

Module MlfqFair.
Import Mlfq.

(** At the top level, or about to be put there. *)
Definition on_top (id : nat) (p : t) : Prop := wf p /\ level p !!! id = 0.

Lemma boost_top now id p : (id < MAX_TASKS)%nat -> on_top id p -> on_top id (boost now p).
Proof.
  intros Hid [Hp Hl]. split; [by apply boost_wf|]. unfold boost. case_match; [|done].
  by apply lookup_total_replicate.
Qed.

Lemma boost_due now id p :
  (id < MAX_TASKS)%nat -> wf p -> boost_at p <= now -> on_top id (boost now p).
Proof.
  intros Hid Hp Hn. split; [by apply boost_wf|]. unfold boost.
  destruct (Z.leb_spec (boost_at p) now); [|lia]. by apply lookup_total_replicate.
Qed.

(** With [id] on top, a pick is a search along the rotation for the tasks
    on top. *)
Lemma pick_on_top q p id :
  queue_wf q -> wf p -> on_top id (boost (now q) p) -> is_ready q id = true ->
  exists f, (pick q p).1 = List.find f (rotation (current q)) /\ f id = true.
Proof.
  intros Hq Hp [Hb Hl] Hid. eexists. split.
  - cbn. apply (scan_best_find _ _ _ 0 id); try done.
    + intros c _ _. pose proof (level_lt _ c Hb). pose proof (proj2 Hb c). lia.
    + apply elem_of_rotation. by eapply is_ready_lt.
  - cbn. by rewrite Hid, Hl.
Qed.

Lemma level_other id p j v b :
  wf p -> j <> id -> (j < MAX_TASKS)%nat ->
  level (mk (<[j := v]> (level p)) b) !!! id = level p !!! id.
Proof. intros Hp Hj Hlt. cbn. rewrite list_insert_total by (by rewrite (proj1 Hp)).
  by rewrite decide_False. Qed.

Lemma on_top_event id j p full :
  j <> id -> on_top id p ->
  on_top id (on_yield j full p) /\ on_top id (on_ready j p) /\ on_top id (on_exit j p).
Proof.
  intros Hj [Hp Hl].
  split_and!; (split; [first [exact (on_yield_wf j full p Hp)|exact (on_ready_wf j p Hp)
                             |exact (on_exit_wf j p Hp)]|]); cbn -[Nat.ltb Nat.leb].
  - destruct (Nat.leb_spec MAX_TASKS j); [done|]. case_match; [|done].
    by rewrite level_other.
  - destruct (Nat.ltb_spec j MAX_TASKS); [|done]. by rewrite level_other.
  - destruct (Nat.ltb_spec j MAX_TASKS); [|done]. by rewrite level_other.
Qed.

Lemma top_serves id es c p :
  on_top id p -> (c < MAX_TASKS)%nat -> Forall (stays_ready id) es -> chained c p es ->
  Some id ∉ picks p es -> (decisions es <= distance c id)%nat.
Proof.
  intros Hp Hc Hes Hch Hno. destruct (decide (id < MAX_TASKS)%nat) as [Hid|Hid].
  - apply (rotation_serves (on_top id) id es c p); try done.
    + intros q p' Hq Hp' Hr. apply pick_on_top; [done|apply Hp'|by apply boost_top|done].
    + intros q p' _ Hp'. by apply boost_top.
    + intros j p' full. apply on_top_event.
  - clear Hch Hno. induction Hes as [|e es He Hes IH]; [cbn; lia|].
    destruct e as [q| | |]; [|done..]. destruct He as [_ Hr%is_ready_lt]. lia.
Qed.
End MlfqFair.

(** The multi-level queue does not starve either, whatever levels the
    tasks have sunk to: from the first decision after a boost falls due, a
    task that stays runnable is picked within [MAX_TASKS] more. *)
Theorem mlfq_serves_after_boost id q es c p :
  Mlfq.wf p -> Mlfq.boost_at p <= now q ->
  Forall (stays_ready id) (Decide q :: es) -> chained c p (Decide q :: es) ->
  (MAX_TASKS <= decisions es)%nat -> Some id ∈ picks p (Decide q :: es).
Proof.
  intros Hp Hn [[Hq Hid] Hes]%Forall_cons [Hc Hch] Hd.
  pose proof (MlfqFair.boost_due _ id p (is_ready_lt _ _ Hid) Hp Hn) as Htop.
  pose proof (pick_Some q p) as Hsome. cbn [picks event_step].
  assert (Hp' : (pick q p).2 = Mlfq.boost (now q) p) by done.
  destruct (pick q p) as [r p']. cbn in Hp', Hch, Hsome. subst p'.
  apply elem_of_cons. right. apply (decisions_le_distance id (default c r)); [|done].
  apply MlfqFair.top_serves; try done.
  destruct r as [w|]; cbn; [|rewrite <- Hc; apply Hq].
  by eapply is_ready_lt, Hsome.
Qed.

Lemma mlfq_serves_after_boost_witness :
  let p := Mlfq.mk [3; 3; 3; 3; 3; 3; 3; 3] 40 in
  let es := Decide (busy_queue zeros 0 40) :: map (fun c => Decide (busy_queue zeros c 41))
              [1; 2; 3; 4; 5; 6; 7; 0]%nat in
  chained 0 p es /\ Some 0%nat ∈ picks p es.
Proof.
  split; [by vm_compute|]. apply (mlfq_serves_after_boost 0 _ _ 0).
  - split; [done|]. intros id. unfold Mlfq.LEVELS.
    do 8 (destruct id as [|id]; [by cbn; lia|]). by vm_compute.
  - by vm_compute.
  - constructor.
    + split; [|by vm_compute]. apply busy_queue_wf; [|unfold MAX_TASKS; lia].
      apply Forall_replicate. unfold MAX_PRIORITY. lia.
    + apply Forall_map, Forall_forall. intros c Hc. split.
      * apply busy_queue_wf; [apply Forall_replicate; unfold MAX_PRIORITY; lia|].
        unfold MAX_TASKS.
        rewrite !elem_of_cons, elem_of_nil in Hc. lia.
      * done.
  - by vm_compute.
  - vm_compute. lia.
Defined.

(** ** Aging *)

Module AgingFair.
Import Aging.

(** The longest wait: every other task can win at most once after a task
    has been passed over [MAX_PRIORITY + 1] times. *)
Definition BOUND : Z := MAX_PRIORITY + Z.of_nat MAX_TASKS - 1.

(** After [u] rounds passed over, [j] can still beat a waiter. *)
Definition can_win (p : t) (u : Z) (j : nat) : bool := u <? waited p !!! j + (MAX_PRIORITY + 1).

Definition rivals (p : t) (id : nat) (u : Z) : list nat :=
  List.filter (fun j => negb (j =? id)%nat && can_win p u j) (seq 0 MAX_TASKS).

(** [id] has been passed over [u] times in a row. *)
Definition passed_over (p : t) (id : nat) (u : Z) : Prop :=
  0 <= u <= waited p !!! id /\
  (MAX_PRIORITY + 1 <= u -> u + Z.of_nat (length (rivals p id u)) <= BOUND).

Lemma elem_rivals p id u j :
  j ∈ rivals p id u <-> (j < MAX_TASKS)%nat /\ j <> id /\ u < waited p !!! j + (MAX_PRIORITY + 1).
Proof.
  unfold rivals, can_win. rewrite list_elem_of_In, filter_In, in_seq.
  rewrite andb_true_iff, negb_true_iff, Nat.eqb_neq, Z.ltb_lt. lia.
Qed.

Lemma rivals_NoDup p id u : List.NoDup (rivals p id u).
Proof. apply List.NoDup_filter, seq_NoDup. Qed.

(** Losing rivals shortens the list. *)
Lemma rivals_shrink p id u p' u' :
  (forall j, j ∈ rivals p' id u' -> j ∈ rivals p id u) ->
  (length (rivals p' id u') <= length (rivals p id u))%nat.
Proof.
  intros Hsub. apply NoDup_incl_length; [apply rivals_NoDup|].
  intros j Hj. rewrite <- list_elem_of_In in *. auto.
Qed.

Lemma rivals_lose p id u p' u' w :
  (forall j, j ∈ rivals p' id u' -> j ∈ rivals p id u) ->
  w ∈ rivals p id u -> w ∉ rivals p' id u' ->
  (length (rivals p' id u') < length (rivals p id u))%nat.
Proof.
  intros Hsub Hin Hout. change (length (w :: rivals p' id u') <= length (rivals p id u))%nat.
  apply NoDup_incl_length.
  - constructor; [by rewrite <- list_elem_of_In|apply rivals_NoDup].
  - intros j [<-|Hj]; rewrite <- list_elem_of_In in *; auto.
Qed.

Lemma rivals_at_most p id u :
  (id < MAX_TASKS)%nat -> (length (rivals p id u) <= MAX_TASKS - 1)%nat.
Proof.
  intros Hid.
  assert (length (id :: rivals p id u) <= length (seq 0 MAX_TASKS))%nat as Hl.
  { apply NoDup_incl_length.
    - constructor; [|apply rivals_NoDup]. rewrite <- list_elem_of_In, elem_rivals. tauto.
    - intros j [<-|Hj]; apply in_seq; [lia|].
      rewrite <- list_elem_of_In, elem_rivals in Hj. lia. }
  rewrite length_seq in Hl. cbn in Hl. lia.
Qed.

Lemma passed_over_zero p id : wf p -> passed_over p id 0.
Proof. intros [_ Hb]. specialize (Hb id). unfold passed_over, MAX_PRIORITY. lia. Qed.

(** Clearing another slot's age only helps the waiter. *)
Lemma passed_over_reset p id u j :
  wf p -> (j < MAX_TASKS)%nat -> j <> id -> passed_over p id u ->
  passed_over (mk (<[j := 0]> (waited p))) id u.
Proof.
  intros [Hlen Hb] Hj Hne [Hu Hr].
  assert (Hw : forall k, <[j := 0]> (waited p) !!! k <= waited p !!! k).
  { intros k. rewrite list_insert_total by lia. case_decide; [|lia]. apply Hb. }
  split.
  - cbn. rewrite list_insert_total by lia. by rewrite decide_False.
  - intros H16. specialize (Hr H16).
    pose proof (rivals_shrink p id u (mk (<[j := 0]> (waited p))) u) as Hs.
    enough (Hk : forall k, k ∈ rivals (mk (<[j := 0]> (waited p))) id u -> k ∈ rivals p id u)
      by (specialize (Hs Hk); lia).
    intros k. rewrite !elem_rivals. cbn. specialize (Hw k). lia.
Qed.

(** The step of the argument: being passed over once more costs a rival. *)
Lemma passed_over_again q p id w u :
  queue_wf q -> wf p -> is_ready q id = true -> chosen q p = Some w -> w <> id ->
  passed_over p id u -> passed_over (age q w p) id (u + 1).
Proof.
  intros Hq Hp Hid Hw Hne [Hu Hr]. pose proof Hp as [Hlen Hb].
  destruct (chosen_Some q p w Hq Hp Hw) as [Hready Hmin].
  specialize (Hmin id Hid). pose proof (is_ready_lt _ _ Hid) as Hidlt.
  pose proof (is_ready_lt _ _ Hready) as Hwlt.
  pose proof (queue_priority_bounds q w Hq). pose proof (queue_priority_bounds q id Hq).
  unfold effective in Hmin. unfold MAX_PRIORITY in *.
  assert (Hage : forall j, waited (age q w p) !!! j <= waited p !!! j + 1).
  { intros j. rewrite age_waited by done. pose proof (Hb j). unfold sat_add.
    repeat case_match; lia. }
  assert (Hbound : u + 1 <= u16_max).
  { destruct (decide (16 <= u)) as [H16|]; [|unfold u16_max; lia].
    specialize (Hr H16). unfold BOUND, MAX_PRIORITY, MAX_TASKS, u16_max in *. lia. }
  split.
  - rewrite age_waited, decide_False, Hid by done. unfold sat_add. lia.
  - intros H16. destruct (decide (16 <= u)) as [Hge|Hlt].
    + specialize (Hr Hge).
      assert (length (rivals (age q w p) id (u + 1)) < length (rivals p id u))%nat; [|lia].
      apply (rivals_lose _ _ _ _ _ w).
      * intros j. rewrite !elem_rivals. specialize (Hage j). unfold MAX_PRIORITY in *. lia.
      * rewrite elem_rivals. unfold MAX_PRIORITY in *. lia.
      * rewrite elem_rivals, age_waited, decide_True by done. unfold MAX_PRIORITY in *. lia.
    + assert (length (w :: rivals (age q w p) id (u + 1)) <= MAX_TASKS - 1)%nat as Hl.
      { transitivity (length (List.filter (fun j => negb (j =? id)%nat) (seq 0 MAX_TASKS))).
        - apply NoDup_incl_length.
          + constructor; [|apply rivals_NoDup].
            rewrite <- list_elem_of_In, elem_rivals, age_waited, decide_True by done.
            unfold MAX_PRIORITY in *. lia.
          + intros j [<-|Hj]; apply filter_In; rewrite in_seq, negb_true_iff, Nat.eqb_neq.
            * lia.
            * rewrite <- list_elem_of_In, elem_rivals in Hj. lia.
        - pose proof (rivals_at_most (mk (replicate MAX_TASKS 0)) id (-17) Hidlt) as Hr8.
          unfold rivals, can_win in Hr8. erewrite filter_ext_in in Hr8; [exact Hr8|].
          intros j Hj%in_seq. cbn -[replicate].
          rewrite lookup_total_replicate by lia. cbn. by rewrite andb_true_r. }
      cbn in Hl. unfold BOUND, MAX_PRIORITY, MAX_TASKS in *. lia.
Qed.

Lemma passed_over_bound p id u : passed_over p id u -> u <= BOUND.
Proof.
  intros [Hu Hr]. destruct (decide (MAX_PRIORITY + 1 <= u)) as [H|H].
  - specialize (Hr H). lia.
  - unfold BOUND, MAX_PRIORITY, MAX_TASKS in *. lia.
Qed.

Lemma no_pick_is_passed_over es p id u :
  wf p -> passed_over p id u -> Forall (stays_ready id) es -> Some id ∉ picks p es ->
  u + Z.of_nat (decisions es) <= BOUND.
Proof.
  revert p u. induction es as [|e es IH]; intros p u Hp Hu Hes Hno.
  { cbn. apply passed_over_bound in Hu. lia. }
  apply Forall_cons in Hes as [He Hes]. destruct e as [q|j full|j|j]; cbn [picks event_step] in Hno.
  - destruct He as [Hq Hid]. cbn in Hno. rewrite not_elem_of_cons in Hno.
    destruct Hno as [Hne Hno].
    destruct (chosen q p) as [w|] eqn:Hw;
      [|by rewrite (chosen_None q p Hq Hp Hw id) in Hid].
    cbn in Hne, Hno. assert (w <> id) by congruence.
    destruct (chosen_Some q p w Hq Hp Hw) as [Hr _].
    specialize (IH (age q w p) (u + 1)). unfold decisions in *. cbn.
    enough (u + 1 + Z.of_nat (length (List.filter is_decision es)) <= BOUND) by lia.
    apply IH; [|by eapply passed_over_again|done..].
    apply age_wf; [done|]. by eapply is_ready_lt.
  - change (decisions (Yield j full :: es)) with (decisions es). by eapply IH.
  - change (decisions (Arrive j :: es)) with (decisions es).
    cbn -[Nat.ltb] in Hno, He. revert Hno. destruct (Nat.ltb_spec j MAX_TASKS); intros Hno.
    + eapply (IH (mk (<[j := 0]> (waited p)))); [|apply passed_over_reset; done|done|done].
      by apply waited_reset_wf.
    + by eapply IH.
  - change (decisions (Depart j :: es)) with (decisions es).
    cbn -[Nat.ltb] in Hno, He. revert Hno. destruct (Nat.ltb_spec j MAX_TASKS); intros Hno.
    + eapply (IH (mk (<[j := 0]> (waited p)))); [|apply passed_over_reset; done|done|done].
      by apply waited_reset_wf.
    + by eapply IH.
Qed.
End AgingFair.

(** C22: aging makes starvation impossible: a task that stays runnable is
    picked within [MAX_PRIORITY + MAX_TASKS] decisions, whatever its priority,
    whatever the others do, and from any reachable aging state. *)
Theorem aging_no_starvation id es p :
  Aging.wf p -> Forall (stays_ready id) es ->
  AgingFair.BOUND < Z.of_nat (decisions es) -> Some id ∈ picks p es.
Proof.
  intros Hp Hes Hd. destruct (decide (Some id ∈ picks p es)) as [|Hno]; [done|].
  pose proof (AgingFair.no_pick_is_passed_over es p id 0 Hp
                (AgingFair.passed_over_zero p id Hp) Hes Hno). lia.
Qed.

Lemma aging_no_starvation_witness :
  let es := replicate 23 (Decide (busy_queue [15; 0; 0; 0; 0; 0; 0; 0] 0 0)) in
  AgingFair.BOUND = 22 /\ Some 0%nat ∈ picks Aging.new es.
Proof.
  split; [done|]. apply aging_no_starvation; [apply Aging.new_wf| |by vm_compute].
  apply Forall_replicate. split; [|by vm_compute].
  apply busy_queue_wf; [|unfold MAX_TASKS; lia].
  unfold MAX_PRIORITY. repeat constructor; lia.
Defined.

(** The bound is exact, and larger than the [MAX_PRIORITY + 1] skips the
    comment on [Aging] promises: beside seven priority-0 tasks, a priority-15
    task is passed over 22 times in a row before it is picked. *)
Theorem aging_bound_is_tight :
  let q := busy_queue [15; 0; 0; 0; 0; 0; 0; 0] 0 0 in
  picks Aging.new (replicate 23 (Decide q)) =
    map Some [1; 2; 3; 4; 5; 6; 7; 1; 2; 3; 4; 5; 6; 7; 1; 2; 3; 4; 5; 6; 7; 1; 0]%nat /\
  Forall (stays_ready 0) (replicate 23 (Decide q)).
Proof.
  split; [by vm_compute|]. apply Forall_replicate. split; [|by vm_compute].
  apply busy_queue_wf; [|unfold MAX_TASKS; lia].
  unfold MAX_PRIORITY. repeat constructor; lia.
Qed.
