(* ===== verification/Watchdog.v ===== *)
(** * The watchdog, in every reachable state of the scheduler

    The scheduler's statics as a transition system: the timer's [choose], the
    shell's installs and resets, tasks coming and going, and the conformance
    suite.  What aging bounds, what the watchdog therefore never reports, and
    how long any runnable task can wait whatever policy is installed. *)

From stdpp Require Import relations.
From S2P Require Import Prelude TaskTable Policy Sched Fairness.

(** ** One decision, in closed form *)

Lemma put_put i p p' ps : put (policy_at i) p (put (policy_at i) p' ps) = put (policy_at i) p ps.
Proof. each_policy i; done. Qed.

Section decision.
Context (ts : Table) (current : nat) (now : Z) (s : Sched).

Definition queue_of : RunQueue := mkRunQueue ts current now.
(** The tick does not decide: the quantum has some left to run. *)
Definition mid_quantum : bool := (0 <? sat_sub (REMAINING s) 1) && is_ready queue_of current.
Definition yielded : carrier (policy_at (ACTIVE s)) :=
  on_yield current (sat_sub (REMAINING s) 1 =? 0) (get (policy_at (ACTIVE s)) (policies s)).
Definition answer : option nat := (pick queue_of yielded).1.
Definition after : carrier (policy_at (ACTIVE s)) :=
  match answer with
  | Some id => (quantum id queue_of (pick queue_of yielded).2).2
  | None => (pick queue_of yielded).2
  end.
Definition new_quantum : Z :=
  match answer with
  | Some id => Z.max (quantum id queue_of (pick queue_of yielded).2).1 1
  | None => 0
  end.
Definition decided : Sched :=
  account queue_of (default current answer) current now
    (s <| policies := put (policy_at (ACTIVE s)) after (policies s) |>
       <| REMAINING := new_quantum |>).

Lemma choose_keeps :
  mid_quantum = true ->
  choose ts current now s = (current, s <| REMAINING := sat_sub (REMAINING s) 1 |>).
Proof. unfold mid_quantum, choose. fold queue_of. cbn zeta. by intros ->. Qed.

Lemma choose_decides :
  mid_quantum = false ->
  choose ts current now s =
    (default current answer, watchdog (ACTIVE s) ts current now decided).
Proof.
  unfold mid_quantum, choose. fold queue_of. cbn zeta. intros ->.
  unfold decided, after, new_quantum, answer. fold queue_of.
  unfold call_policy, modify_policy. cbn [policies ACTIVE set_field set_policies set_REMAINING].
  fold queue_of. rewrite get_put. fold yielded.
  destruct (pick queue_of yielded) as [[id|] p] eqn:E; cbn [fst snd default];
    [|by rewrite put_put].
  rewrite !put_put. cbn [policies set_field set_policies]. rewrite get_put.
  destruct (quantum id queue_of p) as [n p'] eqn:E2; cbn [fst snd].
  by rewrite put_put.
Qed.
End decision.

(** ** The pieces of a decision *)

Lemma brick_quantum i id q p :
  policy_wf p -> (id < MAX_TASKS)%nat -> 0 <= (quantum (P := carrier (policy_at i)) id q p).1 <= 16.
Proof.
  intros Hp Hid. assert (H1 : 0 <= 1 <= 16) by lia.
  each_policy i; try exact H1. cbn [policy_at carrier brick_policy] in *.
  rewrite (Mlfq.quantum_level p id q Hp Hid). pose proof (proj2 Hp id) as Hl.
  unfold Mlfq.LEVELS in Hl. change 16 with (2 ^ 4). split; [lia|].
  apply Z.pow_le_mono_r; lia.
Qed.

Section decided.
Context (ts : Table) (current : nat) (now : Z) (s : Sched).
Hypotheses (Hs : sched_wf s) (Hts : table_wf ts) (Hcur : (current < MAX_TASKS)%nat).

Abbreviation q := (queue_of ts current now).
Abbreviation next := (default current (answer ts current now s)).

Lemma queue_of_wf : queue_wf q.
Proof using Hts Hcur. done. Qed.

Lemma yielded_wf : policy_wf (yielded current s).
Proof using Hs. apply on_yield_wf, get_wf, Hs. Qed.

Lemma answer_ready id : answer ts current now s = Some id -> is_ready q id = true.
Proof using Hs Hts Hcur. apply pick_Some; [apply queue_of_wf|apply yielded_wf]. Qed.

Lemma answer_none : answer ts current now s = None -> forall id, is_ready q id = false.
Proof using Hs Hts Hcur. apply pick_None; [apply queue_of_wf|apply yielded_wf]. Qed.

Lemma next_lt : (next < MAX_TASKS)%nat.
Proof using Hs Hts Hcur.
  destruct (answer _ _ _ _) as [id|] eqn:E; [|done].
  by eapply is_ready_lt, answer_ready.
Qed.

Lemma after_wf : policy_wf (after ts current now s).
Proof using Hs Hts Hcur.
  assert (policy_wf (pick q (yielded current s)).2)
    by (apply pick_wf; [apply queue_of_wf|apply yielded_wf]).
  unfold after. case_match; [by apply quantum_wf|done].
Qed.

Lemma new_quantum_bound : 0 <= new_quantum ts current now s <= 16.
Proof using Hs Hts Hcur.
  unfold new_quantum. destruct (answer _ _ _ _) as [id|] eqn:E; [|lia].
  assert (Hp : policy_wf (pick q (yielded current s)).2)
    by (apply pick_wf; [apply queue_of_wf|apply yielded_wf]).
  assert (Hid : (id < MAX_TASKS)%nat) by (by eapply is_ready_lt, answer_ready).
  pose proof (brick_quantum (ACTIVE s) id q _ Hp Hid) as Hq.
  split; [lia|]. apply Z.max_lub; [apply Hq|lia].
Qed.

Lemma decided_wf : sched_wf (decided ts current now s).
Proof using Hs Hts Hcur.
  apply account_wf; [|apply next_lt]. pose proof new_quantum_bound. destruct Hs.
  constructor; try done; cbn; [|unfold in_u; lia]. apply put_wf; [done|apply after_wf].
Qed.

Lemma decided_frame :
  let d := decided ts current now s in
  policies d = put (policy_at (ACTIVE s)) (after ts current now s) (policies s) /\
  ACTIVE d = ACTIVE s /\ REMAINING d = new_quantum ts current now s /\
  WATCHDOG d = WATCHDOG s /\ REPORT d = REPORT s.
Proof using Type. apply account_frame. Qed.

Lemma decided_UNPICKED id :
  (id < MAX_TASKS)%nat ->
  UNPICKED (decided ts current now s) !!! id = unpicked_cell q next id (UNPICKED s !!! id).
Proof using Hs.
  intros Hid. unfold decided. rewrite account_UNPICKED.
  rewrite foreach_lookup; [|cbn; by rewrite (wf_unpicked s Hs)].
  by rewrite decide_True.
Qed.
End decided.

Lemma worst_wait_spec s :
  let '(w, l) := worst_wait s in
  (forall u, u ∈ UNPICKED s -> u <= l) /\ 0 <= l /\ (0 < l -> UNPICKED s !! w = Some l).
Proof.
  unfold worst_wait. generalize (UNPICKED s) as us. intros us.
  induction us as [|u us IH] using rev_ind.
  { cbn. split_and!; try lia. intros u Hu. by apply not_elem_of_nil in Hu. }
  rewrite length_app, seq_app, zip_with_app, fold_left_app by (by rewrite length_seq).
  cbn [Nat.add length seq zip zip_with fold_left].
  destruct (fold_left _ _ _) as [w l]. destruct IH as (Hmax & Hpos & Hat).
  destruct (Z.ltb_spec l u); split_and!; try lia.
  - intros v [Hv|Hv%list_elem_of_singleton]%elem_of_app; [|subst; lia].
    specialize (Hmax v Hv). lia.
  - intros _. by rewrite lookup_app_r, Nat.sub_diag by lia.
  - intros v [Hv|Hv%list_elem_of_singleton]%elem_of_app; [|subst; lia].
    by apply Hmax.
  - intros Hl. by apply lookup_app_l_Some, Hat.
Qed.

(** [install] of the safe policy. *)
Lemma install_frame i ts current now s :
  (i < COUNT)%nat ->
  let s' := (install i ts current now s).2 in
  ACTIVE s' = i /\ REMAINING s' = 0 /\ UNPICKED s' = replicate MAX_TASKS 0 /\
  WATCHDOG s' = WATCHDOG s /\ REPORT s' = REPORT s.
Proof.
  intros Hi. unfold install. destruct (Nat.leb_spec COUNT i); [lia|].
  destruct (fold_on_ready_frame i (ready (mkRunQueue ts current now)) (modify_policy i reset s)).
  done.
Qed.

(** The three things the watchdog can do. *)
Lemma watchdog_cases active ts current now s :
  length (UNPICKED s) = MAX_TASKS ->
  let s' := watchdog active ts current now s in
  let starving := exists id, (id < MAX_TASKS)%nat /\ STARVATION_TICKS <= UNPICKED s !!! id in
  (s' = s /\ (WATCHDOG s = true -> REPORT s = None -> ~ starving)) \/
  (starving /\ exists r, STARVATION_TICKS <= starved_ticks r /\ starved_policy r = active /\
     REPORT s = None /\
     ((active = SAFE /\ reverted r = false /\ s' = s <| REPORT := Some r |>) \/
      (active <> SAFE /\ reverted r = true /\
       s' = (install SAFE ts current now (s <| REPORT := Some r |>)).2))).
Proof.
  intros Hlen. cbn zeta. unfold watchdog. destruct (WATCHDOG s); cbn [negb]; [|by left].
  pose proof (worst_wait_spec s) as Hw. destruct (worst_wait s) as [w l].
  destruct Hw as (Hmax & Hpos & Hat). destruct (Z.ltb_spec l STARVATION_TICKS).
  { left. split; [done|]. intros _ _ (id & Hid & Hge).
    destruct (lookup_lt_is_Some_2 (UNPICKED s) id) as [u Hu]; [lia|].
    rewrite (list_lookup_total_correct _ _ _ Hu) in Hge.
    apply list_elem_of_lookup_2, Hmax in Hu. lia. }
  destruct (REPORT s) eqn:Hr; [by left|]. right. unfold STARVATION_TICKS in *.
  specialize (Hat ltac:(lia)). split.
  { exists w. pose proof (lookup_lt_Some _ _ _ Hat).
    rewrite (list_lookup_total_correct _ _ _ Hat). lia. }
  exists (mkStarvation w l active (negb (active =? SAFE)%nat)). split_and!; [done..|].
  destruct (Nat.eqb_spec active SAFE); [by left|by right].
Qed.

(** ** Under aging, the counters and the policy agree *)

Lemma safe_decision ts current now s :
  ACTIVE s = SAFE ->
  let q := queue_of ts current now in
  answer ts current now s = Aging.chosen q (AGING (policies s)) /\
  AGING (put (policy_at (ACTIVE s)) (after ts current now s) (policies s)) =
    Aging.age q (default current (answer ts current now s)) (AGING (policies s)) /\
  new_quantum ts current now s <= 1.
Proof.
  destruct s as [ps a]; cbn [ACTIVE policies]. intros ->.
  unfold new_quantum, after, answer, yielded, SAFE. cbn -[Aging.chosen Aging.age].
  by destruct (Aging.chosen _ _).
Qed.

(** Every task's counter is a number of rounds aging has passed it over. *)
Definition aging_agrees (s : Sched) : Prop :=
  forall id, (id < MAX_TASKS)%nat ->
    AgingFair.passed_over (AGING (policies s)) id (UNPICKED s !!! id).

Lemma policies_wf_AGING s : sched_wf s -> Aging.wf (AGING (policies s)).
Proof. intros [(_ & _ & _ & H & _)]. exact H. Qed.

Lemma aging_agrees_zero s :
  sched_wf s -> (forall id, (id < MAX_TASKS)%nat -> UNPICKED s !!! id = 0) -> aging_agrees s.
Proof.
  intros Hs H0 id Hid. rewrite H0 by done. by apply AgingFair.passed_over_zero, policies_wf_AGING.
Qed.

Lemma aging_agrees_decided ts current now s :
  sched_wf s -> table_wf ts -> (current < MAX_TASKS)%nat ->
  ACTIVE s = SAFE -> aging_agrees s -> aging_agrees (decided ts current now s).
Proof.
  intros Hs Hts Hcur Ha Hag id Hid.
  destruct (safe_decision ts current now s Ha) as (Hans & Haft & _).
  destruct (decided_frame ts current now s) as (Hpol & _).
  pose proof (policies_wf_AGING s Hs) as Hwf.
  pose proof (next_lt ts current now s Hs Hts Hcur) as Hnext.
  rewrite decided_UNPICKED, Hpol, Haft by done. unfold unpicked_cell.
  destruct (Nat.eqb_spec id (default current (answer ts current now s))) as [->|Hne]; cbn [orb].
  { by apply AgingFair.passed_over_zero, Aging.age_wf. }
  destruct (is_ready _ id) eqn:Hr; cbn [negb];
    [|by apply AgingFair.passed_over_zero, Aging.age_wf].
  specialize (Hag id Hid). pose proof (AgingFair.passed_over_bound _ _ _ Hag) as Hb.
  unfold AgingFair.BOUND, MAX_PRIORITY, MAX_TASKS in Hb.
  replace (sat_add u32_max _ 1) with (UNPICKED s !!! id + 1) by (unfold sat_add, u32_max; lia).
  destruct (answer ts current now s) as [w|] eqn:E; cbn [default] in *;
    [|by rewrite (answer_none ts current now s Hs Hts Hcur E id) in Hr].
  by apply AgingFair.passed_over_again.
Qed.

Lemma aging_agrees_event s p' id :
  sched_wf s -> (id < MAX_TASKS)%nat -> UNPICKED s !!! id = 0 ->
  AGING p' = Aging.mk (<[id := 0]> (Aging.waited (AGING (policies s)))) ->
  aging_agrees s -> aging_agrees (s <| policies := p' |>).
Proof.
  intros Hs Hid H0 Hp Hag j Hj. cbn [policies UNPICKED set_field set_policies]. rewrite Hp.
  pose proof (policies_wf_AGING s Hs) as Hwf.
  destruct (decide (j = id)) as [->|].
  - rewrite H0. by apply AgingFair.passed_over_zero, Aging.waited_reset_wf.
  - apply AgingFair.passed_over_reset; [done..|]. by apply Hag.
Qed.

(** ** The transition system *)

(** While aging is installed, a slot changes hands only when its last
    occupant was not waiting: it was not runnable at the last decision, or it
    was the one picked (either way [account] zeroed the counter). *)
Definition quiet (s : Sched) (id : nat) : Prop := ACTIVE s = SAFE -> UNPICKED s !!! id = 0.

Inductive step : Sched -> Sched -> Prop :=
| step_choose ts current now s :
    table_wf ts -> (current < MAX_TASKS)%nat -> step s (choose ts current now s).2
| step_created id s : (id < MAX_TASKS)%nat -> quiet s id -> step s (task_created id s)
| step_exited id s : (id < MAX_TASKS)%nat -> quiet s id -> step s (task_exited id s)
| step_install i ts current now s : step s (install i ts current now s).2
| step_install_by_name name ts current now s : step s (install_by_name name ts current now s).2
| step_reset_stats now s : step s (reset_stats now s)
| step_set_watchdog b s : step s (set_watchdog b s)
| step_take_report s : step s (take_report s).2
| step_conformance ps ts current ticks s :
    policies_wf ps -> step s (resync ts current ticks (s <| policies := ps |>)).

Definition reachable (s : Sched) : Prop := rtc step Sched_init s.

Record inv (s : Sched) : Prop := {
  inv_wf : sched_wf s;
  inv_remaining : REMAINING s <= 16;
  inv_safe : ACTIVE s = SAFE -> REMAINING s <= 1 /\ aging_agrees s;
  inv_report r : REPORT s = Some r -> starved_policy r <> SAFE /\ reverted r = true
}.

Lemma replicate_zero id : (id < MAX_TASKS)%nat -> replicate MAX_TASKS 0 !!! id = 0.
Proof. apply lookup_total_replicate. Qed.

(** Anything that leaves aging with no quantum running and every counter at
    zero, with no new report, is safe. *)
Lemma inv_fresh s :
  sched_wf s -> REMAINING s = 0 -> UNPICKED s = replicate MAX_TASKS 0 ->
  (forall r, REPORT s = Some r -> starved_policy r <> SAFE /\ reverted r = true) -> inv s.
Proof.
  intros Hs Hr Hu Hrep. constructor; [done|lia| |done].
  intros _. split; [lia|]. apply aging_agrees_zero; [done|].
  intros id Hid. rewrite Hu. by apply replicate_zero.
Qed.

Lemma inv_install i ts current now s :
  sched_wf s -> inv s \/ (i < COUNT)%nat ->
  (forall r, REPORT s = Some r -> starved_policy r <> SAFE /\ reverted r = true) ->
  inv (install i ts current now s).2.
Proof.
  intros Hs Hi Hrep. destruct (decide (i < COUNT)%nat) as [Hlt|Hge].
  - destruct (install_frame i ts current now s Hlt) as (Ha & Hr & Hu & _ & Hp).
    apply inv_fresh; [by apply install_wf|done..|by rewrite Hp].
  - unfold install. destruct (Nat.leb_spec COUNT i); [|lia]. by destruct Hi.
Qed.

Lemma inv_init : inv Sched_init.
Proof. apply inv_fresh; [apply Sched_init_wf|done..]. Qed.

Lemma agrees_not_starving s id :
  aging_agrees s -> (id < MAX_TASKS)%nat -> UNPICKED s !!! id <= AgingFair.BOUND.
Proof. intros H Hid. eapply AgingFair.passed_over_bound, H, Hid. Qed.

Lemma inv_decided ts current now s :
  table_wf ts -> (current < MAX_TASKS)%nat -> inv s -> inv (decided ts current now s).
Proof.
  intros Hts Hcur [Hs Hr Hsafe Hrep].
  destruct (decided_frame ts current now s) as (Hpol & Ha & Hrem & _ & Hre).
  pose proof (new_quantum_bound ts current now s Hs Hts Hcur) as Hq.
  constructor.
  - by apply decided_wf.
  - rewrite Hrem. apply Hq.
  - rewrite Ha. intros E. split.
    + rewrite Hrem. by apply safe_decision.
    + by apply aging_agrees_decided, Hsafe.
  - by rewrite Hre.
Qed.

Lemma inv_watchdog ts current now s :
  inv s -> inv (watchdog (ACTIVE s) ts current now s).
Proof.
  intros Hinv. pose proof Hinv as [Hs Hr Hsafe Hrep].
  destruct (watchdog_cases (ACTIVE s) ts current now s (wf_unpicked s Hs))
    as [[-> _]|((id & Hid & Hst) & r & Ht & Hp & Hnone & [(E & _)|(Hne & Hrev & ->)])]; [done|..].
  - destruct (Hsafe E) as [_ Hag]. pose proof (agrees_not_starving s id Hag Hid) as Hb.
    unfold AgingFair.BOUND, MAX_PRIORITY, MAX_TASKS, STARVATION_TICKS in *. lia.
  - apply inv_install.
    + by destruct Hs; constructor.
    + right. unfold SAFE, COUNT. lia.
    + cbn. intros r' [= <-]. by rewrite Hp.
Qed.

Lemma inv_choose ts current now s :
  table_wf ts -> (current < MAX_TASKS)%nat -> inv s -> inv (choose ts current now s).2.
Proof.
  intros Hts Hcur Hinv. destruct (mid_quantum ts current now s) eqn:Hmid.
  - rewrite choose_keeps by done. destruct Hinv as [Hs Hr Hsafe Hrep].
    pose proof (wf_remaining s Hs) as Hu. unfold in_u in Hu. constructor.
    + destruct Hs; constructor; try done. cbn. unfold in_u, sat_sub. lia.
    + cbn. unfold sat_sub. lia.
    + cbn [ACTIVE set_field set_REMAINING]. intros E. destruct (Hsafe E) as [H1 Hag].
      split; [|done]. cbn. unfold sat_sub. lia.
    + done.
  - rewrite choose_decides by done. cbn [snd].
    pose proof (inv_decided ts current now s Hts Hcur Hinv) as Hd.
    destruct (decided_frame ts current now s) as (_ & <- & _). by apply inv_watchdog.
Qed.

(** What a task's coming and going do to the installed policy. *)
Lemma inv_policy_event s (f : forall P, Policy P -> P -> P) id :
  (id < MAX_TASKS)%nat -> quiet s id ->
  (forall i p, policy_wf p -> policy_wf (f (carrier (policy_at i)) _ p)) ->
  (forall p, f Aging.t _ p = Aging.mk (<[id := 0]> (Aging.waited p))) ->
  inv s -> inv (modify_policy (ACTIVE s) (f _ _) s).
Proof.
  intros Hid Hq Hwf Hf Hinv. pose proof Hinv as [Hs Hr Hsafe Hrep].
  assert (Hs' : sched_wf (modify_policy (ACTIVE s) (f _ _) s))
    by (apply modify_policy_wf; [done|apply Hwf]).
  constructor; try done. cbn [modify_policy ACTIVE REMAINING set_field set_policies].
  intros E. destruct (Hsafe E) as [H1 Hag]. split; [done|].
  unfold modify_policy. apply (aging_agrees_event s _ id); try done; [by apply Hq|].
  destruct s as [ps a]. cbn [ACTIVE policies] in *. subst a. cbn. apply Hf.
Qed.

Lemma step_inv s s' : step s s' -> inv s -> inv s'.
Proof.
  intros Hst Hinv. pose proof Hinv as [Hs Hr Hsafe Hrep].
  assert (Hlt : forall id : nat, (id < MAX_TASKS)%nat -> (id <? MAX_TASKS)%nat = true)
    by (intros; by apply Nat.ltb_lt).
  destruct Hst as [| id s Hid Hq | id s Hid Hq | | nm | | | |].
  - by apply inv_choose.
  - apply (inv_policy_event s (fun P PP => @on_ready P PP id) id); try done.
    + intros. by apply on_ready_wf.
    + intros p. cbn -[Nat.ltb]. by rewrite Hlt.
  - apply (inv_policy_event s (fun P PP => @on_exit P PP id) id); try done.
    + intros. by apply on_exit_wf.
    + intros p. cbn -[Nat.ltb]. by rewrite Hlt.
  - apply inv_install; auto.
  - unfold install_by_name. case_match; [|done]. apply inv_install; auto.
  - constructor; try done.
    + destruct Hs; constructor; try done. cbn. apply Forall_replicate. unfold in_u; lia.
    + intros E. destruct (Hsafe E) as [H1 _]. split; [done|].
      apply (aging_agrees_zero (reset_stats now s)); [|intros; by apply replicate_zero].
      destruct Hs; constructor; try done. cbn. apply Forall_replicate. unfold in_u; lia.
  - constructor; try done. by destruct Hs; constructor.
  - constructor; try done. by destruct Hs; constructor.
  - assert (Hp : sched_wf (s <| policies := ps |>)) by (destruct Hs; by constructor).
    apply inv_install; [done| |done]. right. apply Hs.
Qed.

Lemma reachable_inv s : reachable s -> inv s.
Proof.
  unfold reachable. intros H. assert (Hg : forall s0, rtc step s0 s -> inv s0 -> inv s).
  { intros s0 H0. induction H0; [done|]. intros. by eapply IHrtc, step_inv. }
  by eapply Hg, inv_init.
Qed.

(** With aging installed the watchdog has nothing to see, in any state
    the scheduler can reach: no task's counter of missed decisions exceeds
    [MAX_PRIORITY + MAX_TASKS - 1], far below [STARVATION_TICKS].  So a
    pending report never accuses aging, and always comes with a revert. *)
Theorem watchdog_never_accuses_aging s :
  reachable s ->
  (ACTIVE s = SAFE -> forall id, (id < MAX_TASKS)%nat ->
     UNPICKED s !!! id <= AgingFair.BOUND < STARVATION_TICKS) /\
  (forall r, REPORT s = Some r -> starved_policy r <> SAFE /\ reverted r = true).
Proof.
  intros [Hs Hr Hsafe Hrep]%reachable_inv. split; [|done].
  intros E id Hid. destruct (Hsafe E) as [_ Hag]. split; [by apply agrees_not_starving|done].
Qed.

Definition two_ready : Table := test_table [(State.Ready, 0); (State.Ready, 15)].

Lemma two_ready_wf : table_wf two_ready.
Proof. apply test_table_wf. repeat constructor; cbn; unfold MAX_PRIORITY; lia. Qed.

Lemma watchdog_never_accuses_aging_witness :
  let s := (choose two_ready 0 7 Sched_init).2 in
  reachable s /\ ACTIVE s = SAFE /\ UNPICKED s !!! 1%nat <= AgingFair.BOUND < STARVATION_TICKS.
Proof.
  assert (Hr : reachable (choose two_ready 0 7 Sched_init).2).
  { eapply rtc_once, step_choose; [apply two_ready_wf|unfold MAX_TASKS; lia]. }
  split; [exact Hr|split; [by vm_compute|]].
  apply (watchdog_never_accuses_aging (choose two_ready 0 7 Sched_init).2 Hr);
    [by vm_compute|unfold MAX_TASKS; lia].
Defined.

(** ** How long anybody waits, whatever is installed *)

(** Consecutive ticks: each starts from the task the last one chose. *)
Fixpoint run (s : Sched) (c : nat) (l : list (Table * Z)) : list nat :=
  match l with
  | [] => []
  | (ts, now) :: l => let '(next, s') := choose ts c now s in next :: run s' next l
  end.

Definition kept_ready (id : nat) (tick : Table * Z) : Prop :=
  table_wf tick.1 /\ state (tick.1 !!! id) = State.Ready.

Section waiting.
Context (id : nat) (Hid : (id < MAX_TASKS)%nat).

Lemma kept_ready_queue ts now c : kept_ready id (ts, now) -> is_ready (queue_of ts c now) id = true.
Proof using Hid.
  intros [_ H]. apply andb_true_iff. split; [by apply Nat.ltb_lt|by apply bool_decide_eq_true].
Qed.

(** A decision that passes [id] over. *)
Lemma decided_passes ts now c s :
  sched_wf s -> kept_ready id (ts, now) -> (choose ts c now s).1 <> id ->
  mid_quantum ts c now s = false ->
  UNPICKED (decided ts c now s) !!! id = sat_add u32_max (UNPICKED s !!! id) 1.
Proof using Hid.
  intros Hs Hk Hne Hmid. rewrite choose_decides in Hne by done. cbn in Hne.
  rewrite decided_UNPICKED by done. unfold unpicked_cell.
  rewrite (proj2 (Nat.eqb_neq _ _)) by congruence.
  by rewrite (kept_ready_queue ts now c Hk).
Qed.

(** Under aging every tick decides, and misses can only mount to the bound. *)
Lemma safe_run l s c u :
  inv s -> ACTIVE s = SAFE -> (c < MAX_TASKS)%nat -> Forall (kept_ready id) l ->
  AgingFair.passed_over (AGING (policies s)) id u -> id ∉ run s c l ->
  u + Z.of_nat (length l) <= AgingFair.BOUND.
Proof using Hid.
  revert s c u. induction l as [|[ts now] l IH]; intros s c u Hinv Ha Hc Hl Hu Hno.
  { cbn. apply AgingFair.passed_over_bound in Hu. lia. }
  apply Forall_cons in Hl as [Hk Hl]. cbn [run] in Hno.
  pose proof Hinv as [Hs Hr Hsafe _]. destruct (Hsafe Ha) as [H1 Hag].
  pose proof (proj1 Hk) as Hts. cbn in Hts.
  assert (Hmid : mid_quantum ts c now s = false).
  { unfold mid_quantum, sat_sub. by replace (Z.max 0 (REMAINING s - 1)) with 0 by lia. }
  pose proof (inv_choose ts c now s Hts Hc Hinv) as Hinv'.
  pose proof (next_lt ts c now s Hs Hts Hc) as Hnext.
  destruct (decided_frame ts c now s) as (Hpol & Had & _).
  destruct (safe_decision ts c now s Ha) as (Hans & Haft & _).
  pose proof (inv_decided ts c now s Hts Hc Hinv) as Hdinv.
  assert (Hw : watchdog (ACTIVE s) ts c now (decided ts c now s) = decided ts c now s \/
               exists r, watchdog (ACTIVE s) ts c now (decided ts c now s)
                         = (decided ts c now s) <| REPORT := r |>).
  { destruct (watchdog_cases (ACTIVE s) ts c now _ (wf_unpicked _ (inv_wf _ Hdinv)))
      as [[-> _]|(_ & r & _ & _ & _ & [(_ & _ & ->)|[]])]; [by left|right; by eexists|done]. }
  rewrite choose_decides in Hno, Hinv' by done. cbn in Hno, Hinv'.
  rewrite not_elem_of_cons in Hno. destruct Hno as [Hne Hno].
  set (s' := watchdog _ _ _ _ _) in *.
  assert (Hs' : ACTIVE s' = SAFE /\ policies s' = policies (decided ts c now s)).
  { destruct Hw as [->|[r ->]]; cbn; by rewrite Had. }
  destruct Hs' as [Ha' Hp'].
  specialize (IH s' _ (u + 1) Hinv' Ha' Hnext Hl). cbn [length].
  enough (u + 1 + Z.of_nat (length l) <= AgingFair.BOUND) by lia.
  apply IH; [|done]. rewrite Hp', Hpol, Haft.
  pose proof (kept_ready_queue ts now c Hk) as Hrid.
  destruct (answer ts c now s) as [w|] eqn:E; cbn [default] in *;
    [|by rewrite (answer_none ts c now s Hs Hts Hc E id) in Hrid].
  apply AgingFair.passed_over_again; try done. by apply policies_wf_AGING.
Qed.

(** Under any other policy each tick either burns quantum or counts a miss,
    until the misses reach the threshold and aging takes over. *)
Definition progress (s : Sched) : Z := 17 * Z.min 99 (UNPICKED s !!! id) + 16 - REMAINING s.

Lemma progress_bound s : inv s -> 0 <= progress s <= 1699.
Proof using Hid.
  intros [Hs Hr _ _]. pose proof (wf_remaining s Hs) as Hu.
  assert (H0 : 0 <= UNPICKED s !!! id).
  { destruct (lookup_lt_is_Some_2 (UNPICKED s) id) as [u Hl]; [by rewrite (wf_unpicked s Hs)|].
    rewrite (list_lookup_total_correct _ _ _ Hl).
    eapply Forall_lookup_1 in Hl; [|apply (wf_unpicked_u32 s Hs)]. unfold in_u in Hl. lia. }
  unfold in_u, progress in *. lia.
Qed.

(** Such a decision makes progress, or hands the machine to aging. *)
Lemma decision_progress ts now c s :
  inv s -> ACTIVE s <> SAFE -> WATCHDOG s = true -> REPORT s = None ->
  (c < MAX_TASKS)%nat -> kept_ready id (ts, now) -> (choose ts c now s).1 <> id ->
  mid_quantum ts c now s = false ->
  let s' := (choose ts c now s).2 in
  ACTIVE s' = SAFE \/
  (ACTIVE s' <> SAFE /\ WATCHDOG s' = true /\ REPORT s' = None /\ progress s < progress s').
Proof using Hid.
  intros Hinv Ha Hw Hr Hc Hk Hne Hmid. pose proof Hinv as [Hs _ _ _].
  pose proof (decided_passes ts now c s Hs Hk Hne Hmid) as Hu.
  pose proof (progress_bound s Hinv) as Hp.
  pose proof (progress_bound _ (inv_decided ts c now s (proj1 Hk) Hc Hinv)) as Hp'.
  pose proof (inv_remaining _ (inv_decided ts c now s (proj1 Hk) Hc Hinv)) as Hr16.
  destruct (decided_frame ts c now s) as (_ & Had & _ & Hwd & Hrd).
  pose proof (decided_wf ts c now s Hs (proj1 Hk) Hc) as Hdwf.
  rewrite choose_decides by done. cbn [snd].
  destruct (watchdog_cases (ACTIVE s) ts c now _ (wf_unpicked _ Hdwf))
    as [[-> Hno]|(_ & r & _ & _ & _ & [(E & _)|(_ & _ & ->)])]; [right|done|left].
  - split_and!; [congruence..|]. unfold progress in *.
    assert (UNPICKED (decided ts c now s) !!! id < STARVATION_TICKS).
    { apply Z.nle_gt. intros Hge. apply Hno; [congruence..|]. by exists id. }
    pose proof (wf_remaining s Hs) as Hrem.
    unfold in_u, sat_add, u32_max, STARVATION_TICKS in *. lia.
  - apply install_frame. unfold SAFE, COUNT. lia.
Qed.

Lemma watched_run l s c :
  inv s -> ACTIVE s <> SAFE -> WATCHDOG s = true -> REPORT s = None ->
  (c < MAX_TASKS)%nat -> Forall (kept_ready id) l -> id ∉ run s c l ->
  progress s + Z.of_nat (length l) <= 1700 + AgingFair.BOUND.
Proof using Hid.
  revert s c. induction l as [|[ts now] l IH]; intros s c Hinv Ha Hw Hr Hc Hl Hno.
  { pose proof (progress_bound s Hinv).
    unfold AgingFair.BOUND, MAX_PRIORITY, MAX_TASKS in *. cbn. lia. }
  apply Forall_cons in Hl as [Hk Hl]. cbn [run length] in *.
  pose proof (inv_choose ts c now s (proj1 Hk) Hc Hinv) as Hinv'.
  pose proof (choose_spec ts c now s (inv_wf s Hinv) (proj1 Hk) Hc) as [_ Hnext].
  pose proof (decision_progress ts now c s Hinv Ha Hw Hr Hc Hk) as Hprog.
  pose proof (choose_keeps ts c now s) as Hkeep.
  pose proof (progress_bound s Hinv) as Hb.
  destruct (choose ts c now s) as [next s'] eqn:E. cbn [fst snd] in *.
  rewrite not_elem_of_cons in Hno. destruct Hno as [Hne Hno].
  assert (Hn : (next < MAX_TASKS)%nat)
    by (destruct Hnext as [Hnext|[-> _]]; [by eapply is_ready_lt|done]).
  destruct (mid_quantum ts c now s) eqn:Hmid.
  - specialize (Hkeep eq_refl) as [= -> ->].
    assert (Hgt : 0 < sat_sub (REMAINING s) 1).
    { apply andb_true_iff in Hmid as [H%Z.ltb_lt _]. done. }
    assert (progress (s <| REMAINING := sat_sub (REMAINING s) 1 |>) = progress s + 1).
    { unfold progress, sat_sub in *. cbn. lia. }
    specialize (IH _ c Hinv' Ha Hw Hr Hc Hl Hno). lia.
  - destruct Hprog as [Hsafe|(Ha' & Hw' & Hr' & Hlt)]; [congruence|done|..].
    + pose proof (safe_run l s' next 0 Hinv' Hsafe Hn Hl
        (AgingFair.passed_over_zero _ _ (policies_wf_AGING s' (inv_wf s' Hinv'))) Hno).
      lia.
    + specialize (IH s' next Hinv' Ha' Hw' Hr' Hn Hl Hno). lia.
Qed.
End waiting.

(** C20: no runnable task waits for ever, whatever policy is installed and
    whatever its history: with the watchdog on and no report pending, a task
    that stays runnable for 1723 consecutive ticks is run during them.  (At
    most 17 ticks per missed decision, [STARVATION_TICKS] misses, and then
    aging's bound.) *)
Theorem watchdog_bounds_every_wait id s c l :
  reachable s -> WATCHDOG s = true -> REPORT s = None ->
  (id < MAX_TASKS)%nat -> (c < MAX_TASKS)%nat -> Forall (kept_ready id) l ->
  1723 <= Z.of_nat (length l) -> id ∈ run s c l.
Proof.
  intros Hinv%reachable_inv Hw Hr Hid Hc Hl Hlen.
  destruct (decide (id ∈ run s c l)) as [|Hno]; [done|].
  destruct (decide (ACTIVE s = SAFE)) as [Ha|Ha].
  - pose proof (safe_run id Hid l s c 0 Hinv Ha Hc Hl
      (AgingFair.passed_over_zero _ _ (policies_wf_AGING s (inv_wf s Hinv))) Hno).
    unfold AgingFair.BOUND, MAX_PRIORITY, MAX_TASKS in *. lia.
  - pose proof (watched_run id Hid l s c Hinv Ha Hw Hr Hc Hl Hno).
    pose proof (progress_bound id Hid s Hinv).
    unfold AgingFair.BOUND, MAX_PRIORITY, MAX_TASKS in *. lia.
Qed.

Lemma watchdog_bounds_every_wait_witness :
  let s := (install 2 two_ready 0 0 Sched_init).2 in
  ACTIVE s = 2%nat /\ 1%nat ∈ run s 0 (replicate 1723 (two_ready, 7)).
Proof.
  split; [by vm_compute|]. apply watchdog_bounds_every_wait.
  - apply rtc_once, step_install.
  - by vm_compute.
  - by vm_compute.
  - unfold MAX_TASKS; lia.
  - unfold MAX_TASKS; lia.
  - apply Forall_replicate. split; [apply two_ready_wf|by vm_compute].
  - by rewrite length_replicate.
Defined.
