(* ===== verification/Trace.v ===== *)
(** * The trace and the counters: what [account] leaves behind

    [kernel/src/sched.rs], the ring [trace_push]/[trace_at] of the last
    [TRACE_LENGTH] decisions and the per-task counters beside it. *)

From S2P Require Import Prelude TaskTable Policy Sched.

Definition ran_cell (ran : Z) : Z := if ran <? Z.of_nat MAX_TASKS then ran else 255.

(** The ring holds the last [TRACE_LENGTH] entries of the history [h]. *)
Record trace_holds (h : list (Z * Z)) (s : Sched) : Prop := {
  holds_count : TRACE_COUNT s = Z.of_nat (length h);
  holds_ran_length : length (TRACE_RAN s) = TRACE_LENGTH;
  holds_ready_length : length (TRACE_READY s) = TRACE_LENGTH;
  holds_entries k ran ready :
    h !! k = Some (ran, ready) -> (length h - k <= TRACE_LENGTH)%nat ->
    TRACE_RAN s !!! (k mod TRACE_LENGTH)%nat = ran_cell ran /\
    TRACE_READY s !!! (k mod TRACE_LENGTH)%nat = ready
}.

Lemma TRACE_LENGTH_pos : (0 < TRACE_LENGTH)%nat.
Proof. by apply Nat.ltb_lt. Qed.

Lemma trace_push_holds h s tick ran ready :
  trace_holds h s -> Z.of_nat (length h) < u64_max ->
  trace_holds (h ++ [(ran, ready)]) (trace_push tick ran ready s).
Proof.
  intros [Hc Hr1 Hr2 He] Hlt. pose proof TRACE_LENGTH_pos as Hpos.
  pose proof (Nat.mod_upper_bound (length h) TRACE_LENGTH ltac:(lia)) as Hidx.
  unfold trace_push. rewrite Hc, to_nat_mod by done. constructor; cbn.
  - rewrite length_app, wrap_small; cbn; [lia|]. unfold in_u, u64_max in *. lia.
  - by rewrite length_insert.
  - by rewrite length_insert.
  - rewrite length_app. cbn. intros k r b Hk Hn.
    rewrite !list_insert_total by lia. case_decide as E.
    + assert (k = length h) as ->.
      { pose proof (lookup_lt_Some _ _ _ Hk) as Hlk. rewrite length_app in Hlk. cbn in Hlk.
        destruct (decide (k < length h)%nat); [|lia].
        by pose proof (ring_distinct TRACE_LENGTH k (length h) ltac:(lia) ltac:(lia)). }
      rewrite list_lookup_middle in Hk by done. by injection Hk as -> ->.
    + apply He; [|lia]. apply lookup_app_Some in Hk as [Hk|[Hge Hk]]; [done|].
      destruct (k - length h)%nat as [|] eqn:Ek; [|done].
      replace k with (length h) in E by lia. done.
Qed.

(** Pushes on consecutive ticks, from [t0]. *)
Fixpoint push_all (t0 : Z) (es : list (Z * Z)) (s : Sched) : Sched :=
  match es with
  | [] => s
  | (ran, ready) :: es => push_all (t0 + 1) es (trace_push t0 ran ready s)
  end.

Lemma push_all_holds es t0 h s :
  trace_holds h s -> Z.of_nat (length h + length es) <= u64_max ->
  trace_holds (h ++ es) (push_all t0 es s) /\
  (es <> [] -> TRACE_LAST (push_all t0 es s) = t0 + Z.of_nat (length es) - 1).
Proof.
  revert t0 h s. induction es as [|[ran ready] es IH]; intros t0 h s Hs Hlen; cbn [push_all].
  - by rewrite app_nil_r.
  - cbn [length] in Hlen.
    destruct (IH (t0 + 1) (h ++ [(ran, ready)]) (trace_push t0 ran ready s)) as [Hh Hl].
    + apply trace_push_holds; [done|lia].
    + rewrite length_app. cbn. lia.
    + rewrite <- app_assoc in Hh. split; [done|]. intros _. destruct es; [cbn; lia|].
      rewrite Hl by done. cbn. lia.
Qed.

Lemma Sched_init_holds : trace_holds [] Sched_init.
Proof. constructor; try done. Qed.

(** The trace is a faithful window.  When decisions come one per tick,
    [trace_at] returns exactly what was pushed for each of the last
    [TRACE_LENGTH] ticks, and nothing for an older tick or a later one: the
    ring never shows an overwritten entry under the wrong tick. *)
Theorem trace_round_trip es t0 k :
  Z.of_nat (length es) <= u64_max ->
  let s := push_all t0 es Sched_init in
  trace_at (t0 + Z.of_nat k) s =
    match es !! k with
    | Some (ran, ready) =>
        if (length es - k <=? TRACE_LENGTH)%nat then Some (ran_cell ran, ready) else None
    | None => None
    end.
Proof.
  intros Hlen. cbn zeta. destruct (push_all_holds es t0 [] Sched_init Sched_init_holds Hlen)
    as [[Hc _ _ He] Hl]. cbn [app] in *. unfold trace_at. rewrite Hc.
  destruct (Z.eqb_spec (Z.of_nat (length es)) 0) as [E0|Hne]; cbn [orb].
  { by destruct es. }
  rewrite Hl by (by destruct es). pose proof TRACE_LENGTH_pos.
  destruct (es !! k) as [[ran ready]|] eqn:Hk.
  - specialize (He k ran ready Hk). apply lookup_lt_Some in Hk.
    destruct (Z.ltb_spec (t0 + Z.of_nat (length es) - 1) (t0 + Z.of_nat k)); [lia|].
    destruct (Nat.leb_spec (length es - k) TRACE_LENGTH) as [Hin|Hout].
    + destruct (He Hin) as [<- <-].
      destruct (Z.leb_spec (Z.of_nat TRACE_LENGTH)
        (t0 + Z.of_nat (length es) - 1 - (t0 + Z.of_nat k))); [lia|].
      destruct (Z.leb_spec (Z.of_nat (length es))
        (t0 + Z.of_nat (length es) - 1 - (t0 + Z.of_nat k))); [lia|]. cbn [orb].
      replace (Z.of_nat (length es) - 1 - _) with (Z.of_nat k) by lia.
      by rewrite to_nat_mod.
    + destruct (Z.leb_spec (Z.of_nat TRACE_LENGTH)
        (t0 + Z.of_nat (length es) - 1 - (t0 + Z.of_nat k))); [done|lia].
  - apply lookup_ge_None in Hk.
    by destruct (Z.ltb_spec (t0 + Z.of_nat (length es) - 1) (t0 + Z.of_nat k)); [|lia].
Qed.

Lemma trace_round_trip_witness :
  let s := push_all 100 [(3, 9); (255, 0); (1, 2)] Sched_init in
  trace_at (100 + Z.of_nat 1) s = Some (255, 0) /\ trace_at (100 + Z.of_nat 3) s = None.
Proof.
  split.
  - apply (trace_round_trip [(3, 9); (255, 0); (1, 2)] 100 1). by vm_compute.
  - apply (trace_round_trip [(3, 9); (255, 0); (1, 2)] 100 3). by vm_compute.
Defined.

(** ** One decision's accounting *)

Definition mask_below (q : RunQueue) (n : nat) : Z :=
  fold_left (fun m id => if is_ready q id then Z.lor m (Z.shiftl 1 (Z.of_nat id)) else m)
    (seq 0 n) 0.

Lemma mask_below_spec q n id :
  Z.testbit (mask_below q n) (Z.of_nat id) = (id <? n)%nat && is_ready q id.
Proof.
  unfold mask_below. induction n as [|n IH]; [by rewrite Z.bits_0|].
  rewrite seq_S, fold_left_app. cbn [fold_left Nat.add]. set (m := fold_left _ _ _) in *.
  destruct (Nat.ltb_spec id (S n)), (Nat.ltb_spec id n); try lia.
  - destruct (is_ready q n); [|done]. rewrite Z.lor_spec, IH, Z.shiftl_spec by lia. cbn [andb].
    rewrite Z.testbit_neg_r by lia. apply orb_false_r.
  - replace id with n in * by lia. destruct (is_ready q n); [|done].
    rewrite Z.lor_spec, Z.shiftl_spec, Z.sub_diag by lia. apply orb_true_r.
  - destruct (is_ready q n); [|done]. rewrite Z.lor_spec, IH, Z.shiftl_spec by lia.
    cbn [andb orb]. apply (Z.bits_above_log2 1); cbn; lia.
Qed.

Definition worst_cell (q : RunQueue) (next : nat) (us : list Z) (id : nat) (w : Z) : Z :=
  if (id =? next)%nat || negb (is_ready q id) then w
  else Z.max w (sat_add u32_max (us !!! id) 1).

Lemma list_insert_same {A} `{Inhabited A} (l : list A) i : <[i := l !!! i]> l = l.
Proof.
  destruct (decide (i < length l)%nat) as [Hi|Hi].
  - apply list_insert_id. by apply list_lookup_lookup_total_lt.
  - apply list_insert_ge. lia.
Qed.

Lemma account_loop_cells q next us ws n :
  (n <= length us)%nat ->
  fold_left (account_one q next) (seq 0 n) (0, us, ws) =
    (mask_below q n, foreach n (unpicked_cell q next) us, foreach n (worst_cell q next us) ws).
Proof.
  induction n as [|n IH]; intros Hn; [done|].
  unfold mask_below. rewrite !seq_S, !fold_left_app, IH, !foreach_S by lia.
  cbn [fold_left Nat.add account_one]. rewrite foreach_lookup, decide_False by lia.
  set (us' := foreach n (unpicked_cell q next) us). set (ws' := foreach n _ ws).
  unfold worst_cell, unpicked_cell.
  destruct ((n =? next)%nat || negb (is_ready q n)) eqn:E; cbn zeta.
  - by rewrite list_insert_same.
  - f_equal. destruct (Z.ltb_spec (ws' !!! n)
                         (sat_add u32_max (us !!! n) 1)).
    + by rewrite Z.max_r by lia.
    + by rewrite Z.max_l, list_insert_same by lia.
Qed.

(** What one decision leaves behind.  The trace's newest entry names the
    task that ran (or idle) and exactly the runnable set; only the task that
    ran is credited with a slice; a counter of missed decisions rises by one
    for a runnable task that was passed over and is cleared otherwise; and
    the worst wait is the running maximum of the misses. *)
Theorem account_records q next current now s :
  sched_wf s -> (next < MAX_TASKS)%nat -> TRACE_COUNT s < u64_max -> 0 <= TRACE_COUNT s ->
  let s' := account q next current now s in
  (exists mask, trace_at now s' = Some (if is_ready q next then Z.of_nat next else 255, mask) /\
     forall id, Z.testbit mask (Z.of_nat id) = is_ready q id) /\
  forall id, (id < MAX_TASKS)%nat ->
    let missed := is_ready q id && negb (id =? next)%nat in
    slices id s' = (if is_ready q id && (id =? next)%nat
                    then sat_add u64_max (slices id s) 1 else slices id s) /\
    UNPICKED s' !!! id = (if missed then sat_add u32_max (UNPICKED s !!! id) 1 else 0) /\
    worst_wait_of id s' = (if missed then Z.max (worst_wait_of id s) (UNPICKED s' !!! id)
                           else worst_wait_of id s).
Proof.
  intros Hs Hnext Hc1 Hc0. cbn zeta. unfold account.
  rewrite account_loop_cells by (by rewrite (wf_unpicked s Hs)). split.
  - exists (mask_below q MAX_TASKS). split.
    + unfold trace_push, trace_at. cbn -[Z.ltb Z.modulo Z.of_nat].
      pose proof TRACE_LENGTH_pos. rewrite wrap_small by (unfold in_u, u64_max in *; lia).
      destruct (Z.eqb_spec (TRACE_COUNT s + 1) 0); [lia|]. rewrite Z.ltb_irrefl. cbn [orb].
      rewrite Z.sub_diag. destruct (Z.leb_spec (Z.of_nat TRACE_LENGTH) 0); [lia|].
      destruct (Z.leb_spec (TRACE_COUNT s + 1) 0); [lia|]. cbn [orb].
      replace (TRACE_COUNT s + 1 - 1 - 0) with (TRACE_COUNT s) by lia.
      pose proof (Z.mod_pos_bound (TRACE_COUNT s) (Z.of_nat TRACE_LENGTH) ltac:(lia)).
      rewrite !list_insert_total, !decide_True
        by (rewrite ?(wf_ran s Hs), ?(wf_ready s Hs); lia || done).
      destruct (is_ready q next); cbn -[Z.ltb Z.of_nat]; [|done].
      by destruct (Z.ltb_spec (Z.of_nat next) (Z.of_nat MAX_TASKS)); [|lia].
    + intros id. rewrite mask_below_spec. destruct (is_ready q id) eqn:Hr; [|apply andb_false_r].
      apply is_ready_lt in Hr. by apply andb_true_iff; split; [apply Nat.ltb_lt|].
  - intros id Hid. unfold slices, worst_wait_of.
    destruct (Nat.leb_spec MAX_TASKS id); [lia|].
    cbn -[foreach Nat.eqb]. rewrite !foreach_lookup, !decide_True
      by (rewrite ?(wf_unpicked s Hs), ?(wf_worst s Hs); lia || done).
    unfold unpicked_cell, worst_cell. split_and!.
    + destruct (Nat.eqb_spec id next) as [->|Hne].
      * destruct (is_ready q next); cbn; [|done].
        rewrite list_insert_total, decide_True by (rewrite ?(wf_slices s Hs); done). done.
      * rewrite andb_false_r. destruct (negb (is_ready q next)); [done|].
        rewrite list_insert_total, decide_False by (rewrite ?(wf_slices s Hs); done). done.
    + by destruct (Nat.eqb_spec id next), (is_ready q id).
    + by destruct (Nat.eqb_spec id next), (is_ready q id).
Qed.

Lemma account_records_witness :
  let q := mkRunQueue (test_table [(State.Ready, 0); (State.Ready, 8)]) 0 5 in
  slices 1 (account q 1 0 5 Sched_init) = 1 /\ UNPICKED (account q 1 0 5 Sched_init) !!! 0%nat = 1.
Proof.
  set (q := mkRunQueue _ _ _).
  destruct (account_records q 1 0 5 Sched_init Sched_init_wf) as [_ H].
  - unfold MAX_TASKS. lia.
  - by vm_compute.
  - by vm_compute.
  - split.
    + destruct (H 1%nat) as [E _]; [unfold MAX_TASKS; lia|]. rewrite E. by vm_compute.
    + destruct (H 0%nat) as (_ & E & _); [unfold MAX_TASKS; lia|]. rewrite E. by vm_compute.
Defined.
