(* ===== verification/Pages.v ===== *)
(** * Page table entries and what a replacement policy sees of them

    The flag bits of [kernel/src/memory.rs] and its [PageSet]: the resident
    user pages of one address space, each with its live entry. *)

From S2P Require Import Prelude.

Definition PAGE_SIZE : Z := 4096.
Definition PRESENT : Z := 1.
Definition WRITABLE : Z := 2.
Definition USER : Z := 4.
Definition ACCESSED : Z := 32.
Definition DIRTY : Z := 64.
Definition COW : Z := 512.
Definition SWAPPED : Z := 1024.
Definition ADDRESS_MASK : Z := 4503599627366400.
Definition NO_EXECUTE : Z := 9223372036854775808.

(** ** Flags *)

Lemma land_clear e m k : Z.land m k = 0 -> Z.land (clear e m) k = Z.land e k.
Proof.
  intros H. apply Z.bits_inj. intros i. unfold clear.
  rewrite !Z.land_spec, Z.ldiff_spec.
  assert (Hi : Z.testbit m i && Z.testbit k i = false)
    by (rewrite <- Z.land_spec, H; apply Z.bits_0).
  destruct (Z.testbit e i), (Z.testbit m i), (Z.testbit k i); done.
Qed.

Lemma has_clear_other e m k : Z.land m k = 0 -> has (clear e m) k = has e k.
Proof. intros H. unfold has. by rewrite land_clear. Qed.

Lemma has_clear_same e m : has (clear e m) m = false.
Proof.
  unfold has, clear. replace (Z.land (Z.ldiff e m) m) with 0; [done|].
  symmetry. apply Z.bits_inj. intros i. rewrite Z.land_spec, Z.ldiff_spec, Z.bits_0.
  by destruct (Z.testbit e i), (Z.testbit m i).
Qed.

Lemma clear_clear e m : clear (clear e m) m = clear e m.
Proof.
  apply Z.bits_inj. intros i. unfold clear. rewrite !Z.ldiff_spec.
  by destruct (Z.testbit e i), (Z.testbit m i).
Qed.

(** ** The page set

    [pages[i]] is a virtual address and the entry its pointer leads to.  The
    entry is read live, so clearing a bit is seen by the next read. *)
Abbreviation PageSet := (list (Z * Z)).

Definition address (pages : PageSet) (index : nat) : Z := (pages !!! index).1.
Definition entry (pages : PageSet) (index : nat) : Z := (pages !!! index).2.
Definition accessed (pages : PageSet) (index : nat) : bool := has (entry pages index) ACCESSED.
Definition dirty (pages : PageSet) (index : nat) : bool := has (entry pages index) DIRTY.

(** [shared] is [is_shared]: the frame belongs to another space too. *)
Definition eligible (shared : Z -> bool) (pages : PageSet) (index : nat) : bool :=
  let e := entry pages index in
  has e PRESENT && negb (has e SWAPPED) && negb (shared (Z.land e ADDRESS_MASK)).

Definition clear_accessed (pages : PageSet) (index : nat) : PageSet :=
  <[index := (address pages index, clear (entry pages index) ACCESSED)]> pages.

Definition test_entry (present accessed dirty swapped : bool) : Z :=
  let e := Z.lor (Z.lor 8384512 USER) WRITABLE in
  let e := if present then Z.lor e PRESENT else e in
  let e := if accessed then Z.lor e ACCESSED else e in
  let e := if dirty then Z.lor e DIRTY else e in
  if swapped then Z.lor e SWAPPED else e.

(** Two sets that differ at most in accessed bits. *)
Definition same_pages (ps ps' : PageSet) : Prop :=
  length ps' = length ps /\
  forall i, address ps' i = address ps i /\
            clear (entry ps' i) ACCESSED = clear (entry ps i) ACCESSED.

#[export] Instance same_pages_equiv : Equivalence same_pages.
Proof.
  split.
  - by intros ps.
  - intros a b [Hl H]. split; [done|]. intros i. by destruct (H i).
  - intros a b c [Hl1 H1] [Hl2 H2]. split; [congruence|].
    intros i. destruct (H1 i), (H2 i). split; congruence.
Qed.

Lemma clear_accessed_entry ps i j :
  (i < length ps)%nat ->
  entry (clear_accessed ps i) j =
    if decide (i = j) then clear (entry ps i) ACCESSED else entry ps j.
Proof.
  intros Hi. unfold entry, clear_accessed. rewrite list_insert_total by done. by case_decide.
Qed.

Lemma clear_accessed_same ps i : (i < length ps)%nat -> same_pages ps (clear_accessed ps i).
Proof.
  intros Hi. split; [apply length_insert|]. intros j. split.
  - unfold address, clear_accessed. rewrite list_insert_total by done. by case_decide; subst.
  - rewrite clear_accessed_entry by done. case_decide; [subst; apply clear_clear|done].
Qed.

Lemma clear_accessed_accessed ps i j :
  (i < length ps)%nat ->
  accessed (clear_accessed ps i) j = accessed ps j && negb (bool_decide (i = j)).
Proof.
  intros Hi. unfold accessed. rewrite clear_accessed_entry by done.
  destruct (decide (i = j)) as [->|Hne].
  - by rewrite bool_decide_true, has_clear_same, andb_false_r.
  - by rewrite bool_decide_false, andb_true_r.
Qed.

(** Everything a policy may not change, it cannot. *)
Lemma same_pages_eligible shared ps ps' i :
  same_pages ps ps' -> eligible shared ps' i = eligible shared ps i.
Proof.
  intros [_ H]. destruct (H i) as [_ He]. unfold eligible.
  assert (Hh : forall m, Z.land ACCESSED m = 0 -> Z.land (entry ps' i) m = Z.land (entry ps i) m).
  { intros m Hm. rewrite <- (land_clear _ ACCESSED m Hm), He. by apply land_clear. }
  unfold has. by rewrite !Hh.
Qed.

Lemma same_pages_dirty ps ps' i : same_pages ps ps' -> dirty ps' i = dirty ps i.
Proof.
  intros [_ H]. destruct (H i) as [_ He]. unfold dirty.
  by rewrite <- (has_clear_other (entry ps' i) ACCESSED), He, has_clear_other.
Qed.

#[export] Instance same_pages_length_proper : Proper (same_pages ==> eq) (@length (Z * Z)).
Proof. intros ps ps' [H _]. done. Qed.

Lemma same_pages_address ps ps' i : same_pages ps ps' -> address ps' i = address ps i.
Proof. intros [_ H]. apply H. Qed.
