(* ===== verification/Replace.v ===== *)
(** * Page replacement: [kernel/src/replace.rs]

    The [Replacer] trait, its contract, the four bricks and the registry.
    What a brick answers is compared with a reference in [ReplaceSpec]. *)

From S2P Require Import Prelude Pages.

(** ** The trait *)

Class Replacer (R : Type) := {
  replacer_name : string;
  replacer_describe : string;
  choose (shared : Z -> bool) (pages : PageSet) (r : R) : option nat * (PageSet * R);
  on_resident (address : Z) (r : R) : R;
  on_evicted (address : Z) (r : R) : R;
  replacer_reset (r : R) : R
}.

(** ** The contract

    A victim is an eligible page of the set; no victim is named only when
    there is none; and nothing but accessed bits is touched. *)
Class ReplacerLaws (R : Type) `{!Replacer R} := {
  replacer_wf : R -> Prop;
  (** An arrival can still be counted: a 64-bit counter has not run out. *)
  has_room : R -> Prop;
  choose_Some shared ps r i :
    replacer_wf r -> (choose shared ps r).1 = Some i ->
    (i < length ps)%nat /\ eligible shared ps i = true;
  choose_None shared ps r :
    replacer_wf r -> (choose shared ps r).1 = None ->
    forall i, (i < length ps)%nat -> eligible shared ps i = false;
  choose_pages shared ps r : replacer_wf r -> same_pages ps (choose shared ps r).2.1;
  choose_wf shared ps r : replacer_wf r -> replacer_wf (choose shared ps r).2.2;
  on_resident_wf a r : replacer_wf r -> has_room r -> replacer_wf (on_resident a r);
  on_evicted_wf a r : replacer_wf r -> replacer_wf (on_evicted a r);
  replacer_reset_wf r : replacer_wf r -> replacer_wf (replacer_reset r)
}.

(** ** The clock *)

Module Clock.
Record t := mk { hand : nat }.
Definition new : t := mk 0.

(** The body of the sweep, over the steps still to take. *)
Fixpoint sweep (shared : Z -> bool) (start : nat) (steps : list nat) (pages : PageSet)
  : option nat * PageSet :=
  match steps with
  | [] => (None, pages)
  | step :: steps =>
      let index := ((start + step) mod length pages)%nat in
      if negb (eligible shared pages index) then sweep shared start steps pages
      else if accessed pages index
           then sweep shared start steps (clear_accessed pages index)
           else (Some index, pages)
  end.

#[global] Instance replacer : Replacer t := {
  replacer_name := "clock";
  replacer_describe := "second chance, swept in a circle. one bit, made to be enough";
  choose shared pages r :=
    if (length pages =? 0)%nat then (None, (pages, r))
    else
      let '(victim, pages') := sweep shared (hand r) (seq 0 (length pages * 2)) pages in
      match victim with
      | Some index => (Some index, (pages', mk ((index + 1) mod length pages)%nat))
      | None => (None, (pages', r))
      end;
  on_resident _ r := r;
  on_evicted _ r := r;
  replacer_reset _ := new
}.
End Clock.

(** ** First in, first out *)

Module FifoR.
Definition TRACKED : nat := 128.
#[global] Arguments TRACKED : simpl never.

Record t := mk { addresses : list Z; stamps : list Z; next : Z }.
Definition new : t := mk (replicate TRACKED 0) (replicate TRACKED 0) 1.

Definition slot_of (r : t) (a : Z) : option nat :=
  range_find 0 TRACKED
    (fun i => negb (stamps r !!! i =? 0) && (addresses r !!! i =? a)).

(** A page never seen to arrive is older than any that was. *)
Definition age (r : t) (pages : PageSet) (index : nat) : Z :=
  match slot_of r (address pages index) with
  | Some slot => stamps r !!! slot
  | None => 0
  end.

Definition free_slot (r : t) : nat :=
  match range_find 0 TRACKED (fun i => stamps r !!! i =? 0) with
  | Some i => i
  | None => default 0%nat (min_by_key (fun i => stamps r !!! i) (seq 0 TRACKED))
  end.

#[global] Instance replacer : Replacer t := {
  replacer_name := "fifo";
  replacer_describe := "oldest resident page goes. shows Belady's anomaly";
  choose shared pages r :=
    ((scan_best (eligible shared pages) (age r pages) u64_max (seq 0 (length pages))).1,
     (pages, r));
  on_resident a r :=
    match slot_of r a with
    | Some _ => r
    | None =>
        let free := free_slot r in
        mk (<[free := a]> (addresses r)) (<[free := next r]> (stamps r)) (next r +₆₄ 1)
    end;
  on_evicted a r :=
    match slot_of r a with
    | Some slot => mk (addresses r) (<[slot := 0]> (stamps r)) (next r)
    | None => r
    end;
  replacer_reset _ := new
}.
End FifoR.

(** ** Not recently used *)

Module Nru.
Record t := new {}.

Definition class (pages : PageSet) (index : nat) : Z :=
  (if accessed pages index then 1 else 0) * 2 + (if dirty pages index then 1 else 0).

(** The scan, with its early exit on class 0. *)
Fixpoint scan (shared : Z -> bool) (pages : PageSet) (best : option (Z * nat)) (l : list nat)
  : option (Z * nat) :=
  match l with
  | [] => best
  | index :: l =>
      if negb (eligible shared pages index) then scan shared pages best l
      else
        let c := class pages index in
        let best := match best with
                    | None => Some (c, index)
                    | Some (b, _) => if c <? b then Some (c, index) else best
                    end in
        if c =? 0 then best else scan shared pages best l
  end.

(** Clear every accessed bit: the start of a fresh observation window. *)
Definition clear_all (pages : PageSet) : PageSet :=
  fold_left (fun pages index => if accessed pages index then clear_accessed pages index else pages)
    (seq 0 (length pages)) pages.

#[global] Instance replacer : Replacer t := {
  replacer_name := "nru";
  replacer_describe := "four classes from two bits, lowest non-empty wins";
  choose shared pages r :=
    match scan shared pages None (seq 0 (length pages)) with
    | None => (None, (pages, r))
    | Some (_, chosen) => (Some chosen, (clear_all pages, r))
    end;
  on_resident _ r := r;
  on_evicted _ r := r;
  replacer_reset r := r
}.
End Nru.

(** ** Random *)

Module Random.
Record t := mk { seed : Z }.
Definition new : t := mk 0.
Definition SEED : Z := 2685821657736338717.

(** xorshift64, from [SEED] when the state is zero. *)
Definition next_state (x : Z) : Z :=
  let x := if x =? 0 then SEED else x in
  let x := Z.lxor x (wrap 64 (Z.shiftl x 13)) in
  let x := Z.lxor x (Z.shiftr x 7) in
  Z.lxor x (wrap 64 (Z.shiftl x 17)).

(** The eligible page with [wanted] eligible pages before it. *)
Fixpoint nth_eligible (shared : Z -> bool) (pages : PageSet) (wanted : Z) (l : list nat)
  : option nat :=
  match l with
  | [] => None
  | index :: l =>
      if negb (eligible shared pages index) then nth_eligible shared pages wanted l
      else if wanted =? 0 then Some index
      else nth_eligible shared pages (wanted - 1) l
  end.

Definition candidates (shared : Z -> bool) (pages : PageSet) : list nat :=
  List.filter (eligible shared pages) (seq 0 (length pages)).

#[global] Instance replacer : Replacer t := {
  replacer_name := "random";
  replacer_describe := "no state, no scan, no bits. the control you compare against";
  choose shared pages r :=
    let count := Z.of_nat (length (candidates shared pages)) in
    if count =? 0 then (None, (pages, r))
    else
      let x := next_state (seed r) in
      (nth_eligible shared pages (x mod count) (seq 0 (length pages)), (pages, mk x));
  on_resident _ r := r;
  on_evicted _ r := r;
  replacer_reset _ := new
}.
End Random.

(** ** The clock honours the contract *)

Module ClockProofs.
Import Clock.

Section sweep.
Context (shared : Z -> bool) (start n : nat) (Hn : (0 < n)%nat).

Abbreviation at_step step := ((start + step) mod n)%nat.

Lemma at_step_lt step : (at_step step < n)%nat.
Proof using Hn. apply Nat.mod_upper_bound. lia. Qed.

(** A sweep that takes nothing has found, and cleared, an accessed bit on
    every eligible page it passed. *)
Lemma sweep_spec steps ps :
  length ps = n ->
  let '(victim, ps') := sweep shared start steps ps in
  same_pages ps ps' /\ (forall j, accessed ps' j = true -> accessed ps j = true) /\
  match victim with
  | Some i => (i < n)%nat /\ eligible shared ps i = true
  | None => forall k, k ∈ steps -> eligible shared ps (at_step k) = true ->
              accessed ps (at_step k) = true /\ accessed ps' (at_step k) = false
  end.
Proof using Hn.
  revert ps. induction steps as [|step steps IH]; intros ps Hlen; cbn [sweep].
  { split; [done|]. split; [done|]. intros k Hk. by apply not_elem_of_nil in Hk. }
  rewrite Hlen. pose proof (at_step_lt step) as Hlt. cbn zeta.
  destruct (eligible shared ps (at_step step)) eqn:He; cbn [negb].
  2: { specialize (IH ps Hlen). destruct (sweep _ _ _ _) as [v ps'].
       destruct IH as (Hs & Ha & Hv). split; [done|]. split; [done|].
       destruct v; [done|]. intros k Hk Hek.
       apply elem_of_cons in Hk as [->|Hk]; [congruence|]. by apply Hv. }
  destruct (accessed ps (at_step step)) eqn:Hacc; [|done].
  pose proof (clear_accessed_same ps (at_step step) ltac:(lia)) as Hsame.
  specialize (IH (clear_accessed ps (at_step step))).
  specialize (IH (eq_trans (proj1 Hsame) Hlen)).
  destruct (sweep _ _ _ _) as [v ps']. destruct IH as (Hs & Ha & Hv).
  assert (Hmono : forall j, accessed (clear_accessed ps (at_step step)) j = true ->
                    accessed ps j = true /\ at_step step <> j).
  { intros j. rewrite clear_accessed_accessed by lia. rewrite andb_true_iff, negb_true_iff.
    rewrite bool_decide_eq_false. tauto. }
  split; [by transitivity (clear_accessed ps (at_step step))|].
  split; [intros j Hj; by apply Hmono, Ha|].
  destruct v as [i|]; [destruct Hv as [? Hv]; split; [done|];
    by rewrite <- (same_pages_eligible shared _ _ i Hsame)|].
  intros k Hk Hek. apply elem_of_cons in Hk as [->|Hk].
  - split; [done|]. apply not_true_is_false. intros H%Ha%Hmono. tauto.
  - destruct (Hv k Hk) as [H1 H2]; [by rewrite (same_pages_eligible _ _ _ _ Hsame)|].
    split; [by apply Hmono|done].
Qed.

Lemma sweep_app l1 l2 ps :
  sweep shared start (l1 ++ l2) ps =
    match sweep shared start l1 ps with
    | (Some i, ps') => (Some i, ps')
    | (None, ps') => sweep shared start l2 ps'
    end.
Proof using Type.
  revert ps. induction l1 as [|step l1 IH]; intros ps; cbn; [done|].
  destruct (eligible _ _ _); cbn [negb]; [|apply IH]. destruct (accessed _ _); [apply IH|done].
Qed.

(** Every page is met on every lap. *)
Lemma lap_covers i base :
  (i < n)%nat -> exists k, k ∈ seq (base * n) n /\ at_step k = i.
Proof using Hn.
  intros Hi. exists (base * n + (i + n - start mod n) mod n)%nat. split.
  - apply elem_of_seq. pose proof (Nat.mod_upper_bound (i + n - start mod n) n). lia.
  - rewrite Nat.add_assoc, (Nat.add_comm start), <- Nat.add_assoc, Nat.add_comm.
    rewrite Nat.Div0.mod_add. rewrite <- Nat.Div0.add_mod_idemp_l, Nat.Div0.add_mod_idemp_r.
    pose proof (Nat.mod_upper_bound start n ltac:(lia)).
    replace (start mod n + _)%nat with (i + 1 * n)%nat by lia.
    rewrite Nat.Div0.mod_add. by apply Nat.mod_small.
Qed.

Lemma two_laps : seq 0 (n * 2) = seq (0 * n) n ++ seq (1 * n) n.
Proof using Hn.
  replace (n * 2)%nat with (n + n)%nat by lia. rewrite seq_app. f_equal; f_equal; lia.
Qed.

(** Two laps are enough. *)
Lemma sweep_two_laps ps :
  length ps = n -> (sweep shared start (seq 0 (n * 2)) ps).1 = None ->
  forall i, (i < n)%nat -> eligible shared ps i = false.
Proof using Hn.
  intros Hlen. rewrite (two_laps), sweep_app.
  pose proof (sweep_spec (seq (0 * n) n) ps Hlen) as H1.
  destruct (sweep _ _ (seq (0 * n) n) ps) as [[?|] ps1]; [done|]. destruct H1 as (Hs1 & _ & H1).
  pose proof (sweep_spec (seq (1 * n) n) ps1) as H2. specialize (H2 (eq_trans (proj1 Hs1) Hlen)).
  destruct (sweep _ _ (seq (1 * n) n) ps1) as [[?|] ps2]; [done|]. destruct H2 as (_ & _ & H2).
  intros _ i Hi. apply not_true_is_false. intros He.
  destruct (lap_covers i 0 Hi) as (k1 & Hk1 & Hi1), (lap_covers i 1 Hi) as (k2 & Hk2 & Hi2).
  destruct (H1 k1 Hk1) as [_ Hcleared]; [by rewrite Hi1|].
  destruct (H2 k2 Hk2) as [Hset _]; [by rewrite Hi2, (same_pages_eligible _ _ _ _ Hs1)|].
  rewrite Hi1 in Hcleared. rewrite Hi2 in Hset. congruence.
Qed.
End sweep.

#[global] Instance laws : ReplacerLaws t.
Proof.
  apply (Build_ReplacerLaws _ _ (fun _ => True) (fun _ => True)); try done.
  - intros shared ps r i _. cbn. destruct (Nat.eqb_spec (length ps) 0); [done|].
    pose proof (sweep_spec shared (hand r) (length ps) ltac:(lia) (seq 0 (length ps * 2)) ps eq_refl).
    destruct (sweep _ _ _ _) as [[v|] ps']; cbn; [|done]. intros [= <-]. tauto.
  - intros shared ps r _. cbn. destruct (Nat.eqb_spec (length ps) 0); [intros; lia|].
    intros H. apply (sweep_two_laps shared (hand r)); [lia|done|].
    by destruct (sweep _ _ _ _) as [[v|] ps'].
  - intros shared ps r _. cbn. destruct (Nat.eqb_spec (length ps) 0); [done|].
    pose proof (sweep_spec shared (hand r) (length ps) ltac:(lia) (seq 0 (length ps * 2)) ps eq_refl).
    destruct (sweep _ _ _ _) as [[v|] ps']; cbn; tauto.
Defined.
End ClockProofs.

(** ** FIFO honours the contract *)

Module FifoProofs.
Import FifoR.

(** Every stamp was handed out before the next one. *)
Definition wf (r : t) : Prop :=
  length (addresses r) = TRACKED /\ length (stamps r) = TRACKED /\
  (forall i, (i < TRACKED)%nat -> 0 <= stamps r !!! i < next r) /\ 1 <= next r <= u64_max.

Definition room (r : t) : Prop := next r < u64_max.

Lemma slot_of_Some r a i :
  slot_of r a = Some i -> (i < TRACKED)%nat /\ stamps r !!! i <> 0 /\ addresses r !!! i = a.
Proof.
  intros (Hi & H & _)%range_find_Some. apply andb_true_iff in H as [H1 H2%Z.eqb_eq].
  apply negb_true_iff, Z.eqb_neq in H1. split; [lia|done].
Qed.

Lemma slot_of_None r a :
  slot_of r a = None <->
  forall i, (i < TRACKED)%nat -> stamps r !!! i <> 0 -> addresses r !!! i <> a.
Proof.
  unfold slot_of. rewrite range_find_None. split.
  - intros H i Hi Hs Ha. specialize (H i ltac:(lia)).
    apply andb_false_iff in H as [H|H]; [apply negb_false_iff, Z.eqb_eq in H|apply Z.eqb_neq in H];
      congruence.
  - intros H i Hi. apply not_true_iff_false. intros [H1 H2%Z.eqb_eq]%andb_true_iff.
    apply negb_true_iff, Z.eqb_neq in H1. by apply (H i ltac:(lia)).
Qed.

Lemma age_bound r ps i : wf r -> 0 <= age r ps i < u64_max.
Proof.
  intros (_ & _ & H & Hn). unfold age. destruct (slot_of r _) as [s|] eqn:E; [|by unfold u64_max].
  apply slot_of_Some in E as [Hs _]. specialize (H s Hs). lia.
Qed.

Lemma TRACKED_pos : (0 < TRACKED)%nat.
Proof. by apply Nat.ltb_lt. Qed.

Lemma free_slot_lt r : (free_slot r < TRACKED)%nat.
Proof.
  unfold free_slot. pose proof TRACKED_pos. destruct (range_find _ _ _) as [i|] eqn:E.
  - apply range_find_Some in E. lia.
  - destruct (min_by_key _ _) as [i|] eqn:E2; [|done].
    apply min_by_key_Some in E2 as [H2%elem_of_seq _]. cbn. lia.
Qed.

Lemma choose_scan shared r ps :
  wf r ->
  match (choose shared ps r).1 with
  | Some i => (i < length ps)%nat /\ eligible shared ps i = true /\
      forall j, (j < length ps)%nat -> eligible shared ps j = true -> age r ps i <= age r ps j
  | None => forall i, (i < length ps)%nat -> eligible shared ps i = false
  end.
Proof.
  intros Hr. cbn.
  pose proof (scan_best_spec (eligible shared ps) (age r ps) u64_max (seq 0 (length ps))) as H.
  destruct (scan_best _ _ _ _) as [[i|] b]; cbn.
  - destruct H as (_ & Hin & He & Hmin & _); [intros; by apply age_bound|].
    apply elem_of_seq in Hin. split; [lia|]. split; [done|].
    intros j Hj. apply Hmin, elem_of_seq. lia.
  - destruct H as [_ H]; [intros; by apply age_bound|].
    intros i Hi. apply H, elem_of_seq. lia.
Qed.

Lemma fifo_new_wf : wf new.
Proof.
  split_and!; try done. intros i Hi. cbn -[replicate].
  rewrite lookup_total_replicate by done. lia.
Qed.

Lemma on_resident_wf' a r : wf r -> room r -> wf (on_resident a r).
Proof.
  intros (Ha & Hs & Hb & Hn) Hr. cbn. destruct (slot_of r a); [done|].
  unfold room, u64_max in Hr. pose proof (free_slot_lt r) as Hf.
  split_and!; cbn [addresses stamps next]; rewrite ?length_insert; try done.
  - intros i Hi. rewrite wrap_small by (unfold in_u; lia).
    rewrite list_insert_total by lia. specialize (Hb i Hi). case_decide; lia.
  - rewrite wrap_small by (unfold in_u; lia). lia.
  - rewrite wrap_small by (unfold in_u; lia). unfold u64_max. lia.
Qed.

Lemma on_evicted_wf' a r : wf r -> wf (on_evicted a r).
Proof.
  intros (Ha & Hs & Hb & Hn). cbn. destruct (slot_of r a) as [i|] eqn:E; [|done].
  apply slot_of_Some in E as [Hi _].
  split_and!; cbn [addresses stamps next]; rewrite ?length_insert; try done; try lia.
  intros j Hj. rewrite list_insert_total by lia. specialize (Hb j Hj). case_decide; lia.
Qed.

#[global] Instance laws : ReplacerLaws t.
Proof.
  apply (Build_ReplacerLaws _ _ wf room); try done.
  - intros shared ps r i Hr H. pose proof (choose_scan shared r ps Hr) as Hc.
    rewrite H in Hc. tauto.
  - intros shared ps r Hr H. pose proof (choose_scan shared r ps Hr) as Hc. by rewrite H in Hc.
  - apply on_resident_wf'.
  - apply on_evicted_wf'.
  - intros. apply fifo_new_wf.
Defined.
End FifoProofs.

(** ** NRU honours the contract *)

Module NruProofs.
Import Nru.

Lemma class_bounds ps i : 0 <= class ps i <= 3.
Proof. unfold class. repeat case_match; lia. Qed.

(** Stopping at class 0 is only an optimisation. *)
Lemma scan_is_scan_best shared ps l best bound :
  (forall c i, best = Some (c, i) -> 0 < c) ->
  (match best with Some (c, _) => bound = c | None => 3 < bound end) ->
  scan shared ps best l =
    match fold_left
      (fun '(chosen, best) c =>
         if negb (eligible shared ps c) then (chosen, best)
         else if class ps c <? best then (Some c, class ps c) else (chosen, best))
      l (snd <$> best, bound) with
    | (Some i, c) => Some (c, i)
    | (None, _) => None
    end.
Proof.
  revert best bound. induction l as [|i l IH]; intros best bound Hpos Hb; cbn [scan fold_left].
  { by destruct best as [[c i]|]; cbn; subst. }
  destruct (eligible shared ps i) eqn:He; cbn [negb]; [|by apply IH].
  pose proof (class_bounds ps i) as Hc.
  assert (forall l', fold_left
      (fun '(chosen, best) c =>
         if negb (eligible shared ps c) then (chosen, best)
         else if class ps c <? best then (Some c, class ps c) else (chosen, best))
      l' (Some i, 0) = (Some i, 0)) as Hstuck.
  { intros l'. induction l' as [|j l' IHl]; cbn; [done|].
    pose proof (class_bounds ps j). destruct (eligible _ _ j); cbn; [|done].
    destruct (Z.ltb_spec (class ps j) 0); [lia|done]. }
  assert (Hlt : match best with Some (b, _) => class ps i < b | None => True end \/
                (exists b k, best = Some (b, k) /\ b <= class ps i)).
  { destruct best as [[b k]|]; [|by left]. destruct (Z.lt_ge_cases (class ps i) b); [by left|].
    right. eauto. }
  destruct Hlt as [Hlt|(b & k & -> & Hge)].
  - assert (Hnew : match best with Some (b, _) => if class ps i <? b then Some (class ps i, i) else best
                   | None => Some (class ps i, i) end = Some (class ps i, i)).
    { destruct best as [[b k]|]; [|done]. by destruct (Z.ltb_spec (class ps i) b); [|lia]. }
    assert (Hlt' : (class ps i <? bound) = true).
    { apply Z.ltb_lt. destruct best as [[b k]|]; lia. }
    rewrite Hlt', Hnew. destruct (Z.eqb_spec (class ps i) 0) as [E|E].
    + by rewrite E, Hstuck.
    + rewrite (IH _ (class ps i)); [done| |done]. intros c j [= <- <-]. lia.
  - subst bound. specialize (Hpos b k eq_refl).
    destruct (Z.ltb_spec (class ps i) b); [lia|].
    destruct (Z.eqb_spec (class ps i) 0); [lia|]. apply IH; [|done].
    by intros c j [= <- <-].
Qed.

Lemma scan_spec shared ps :
  match scan shared ps None (seq 0 (length ps)) with
  | Some (c, i) => (i < length ps)%nat /\ eligible shared ps i = true /\ c = class ps i /\
      forall j, (j < length ps)%nat -> eligible shared ps j = true -> class ps i <= class ps j
  | None => forall i, (i < length ps)%nat -> eligible shared ps i = false
  end.
Proof.
  rewrite (scan_is_scan_best _ _ _ None 4); [|done|cbn; lia]. cbn [fmap option_fmap option_map].
  pose proof (scan_best_spec (eligible shared ps) (class ps) 4 (seq 0 (length ps))) as H.
  unfold scan_best in H. destruct (fold_left _ _ _) as [[i|] b]; cbn.
  - destruct H as (-> & Hin & He & Hmin & _); [intros j; pose proof (class_bounds ps j); lia|].
    apply elem_of_seq in Hin. split_and!; [lia|done|done|].
    intros j Hj. apply Hmin, elem_of_seq. lia.
  - destruct H as [_ H]; [intros j; pose proof (class_bounds ps j); lia|].
    intros i Hi. apply H, elem_of_seq. lia.
Qed.

Lemma clear_all_spec ps :
  same_pages ps (clear_all ps) /\ forall i, (i < length ps)%nat -> accessed (clear_all ps) i = false.
Proof.
  unfold clear_all.
  assert (H : forall n, (n <= length ps)%nat ->
    let ps' := fold_left (fun ps i => if accessed ps i then clear_accessed ps i else ps) (seq 0 n) ps in
    same_pages ps ps' /\ forall i, (i < n)%nat -> accessed ps' i = false).
  { induction n as [|n IH]; intros Hn; [split; [done|lia]|].
    rewrite seq_S, fold_left_app. cbn [fold_left Nat.add].
    destruct IH as [Hs Ha]; [lia|]. set (ps' := fold_left _ _ _) in *. cbn zeta.
    destruct (accessed ps' n) eqn:E.
    - assert (Hl : (n < length ps')%nat) by (rewrite (proj1 Hs); lia).
      split; [transitivity ps'; [done|by apply clear_accessed_same]|].
      intros i Hi. rewrite clear_accessed_accessed by done.
      destruct (decide (n = i)) as [->|]; [by rewrite bool_decide_true, andb_false_r|].
      rewrite Ha by lia. done.
    - split; [done|]. intros i Hi. destruct (decide (i = n)) as [->|]; [done|]. apply Ha. lia. }
  by apply H.
Qed.

#[global] Instance laws : ReplacerLaws t.
Proof.
  apply (Build_ReplacerLaws _ _ (fun _ => True) (fun _ => True)); try done.
  - intros shared ps r i _. cbn. pose proof (scan_spec shared ps) as H.
    destruct (scan _ _ _ _) as [[c j]|]; cbn; [|done]. intros [= <-]. tauto.
  - intros shared ps r _. cbn. pose proof (scan_spec shared ps) as H.
    by destruct (scan _ _ _ _) as [[c j]|].
  - intros shared ps r _. cbn. destruct (scan _ _ _ _) as [[c j]|]; [|done]. apply clear_all_spec.
Defined.
End NruProofs.

(** ** Random honours the contract *)

Module RandomProofs.
Import Random.

Lemma nth_eligible_Some shared ps wanted l i :
  nth_eligible shared ps wanted l = Some i -> i ∈ l /\ eligible shared ps i = true.
Proof.
  revert wanted. induction l as [|j l IH]; intros wanted; cbn; [done|].
  destruct (eligible shared ps j) eqn:E; cbn.
  - case_match; [intros [= <-]; split; [by left|done]|].
    intros [Hi He]%IH. split; [by right|done].
  - intros [Hi He]%IH. split; [by right|done].
Qed.

(** With [wanted] below the number of candidates, one is found: the
    candidate with that rank. *)
Lemma nth_eligible_lookup shared ps wanted l :
  0 <= wanted ->
  nth_eligible shared ps wanted l = List.filter (eligible shared ps) l !! Z.to_nat wanted.
Proof.
  revert wanted. induction l as [|j l IH]; intros wanted Hw; cbn [nth_eligible List.filter]; [done|].
  destruct (eligible shared ps j); cbn [negb]; [|by apply IH].
  destruct (Z.eqb_spec wanted 0) as [->|Hne]; [done|].
  rewrite IH by lia. replace (Z.to_nat wanted) with (S (Z.to_nat (wanted - 1))) by lia. done.
Qed.

(** *** xorshift64 *)

Lemma high_bits_zero x i : 0 <= x < 2 ^ 64 -> 64 <= i -> Z.testbit x i = false.
Proof.
  intros Hx Hi. rewrite <- (Z.mod_small x (2 ^ 64)) by lia. apply Z.mod_pow2_bits_high. lia.
Qed.

Lemma below_2_64 y : 0 <= y -> (forall i, 64 <= i -> Z.testbit y i = false) -> y < 2 ^ 64.
Proof.
  intros H0 Hh. replace y with (y mod 2 ^ 64); [apply Z.mod_pos_bound; lia|].
  apply Z.bits_inj'. intros i Hi. destruct (Z.lt_ge_cases i 64).
  - by rewrite Z.mod_pow2_bits_low by lia.
  - rewrite Z.mod_pow2_bits_high by lia. symmetry. by apply Hh.
Qed.

(** [x ^= shift(x)] loses nothing of a nonzero [x]: the bits of [x] can be
    recovered one by one, from the end the shift fills with zeros. *)
Lemma xor_shift_pos x y (from : Z -> Z) (rank : Z -> Z) :
  0 < x < 2 ^ 64 -> 0 <= y ->
  (forall i, 64 <= i -> Z.testbit y i = false) ->
  (forall i, 0 <= i < 64 -> Z.testbit y i = xorb (Z.testbit x i) (Z.testbit x (from i))) ->
  (forall i, 0 <= i < 64 -> 0 <= rank i) ->
  (forall i, 0 <= i < 64 -> from i < 0 \/ 64 <= from i \/ rank (from i) < rank i) ->
  0 < y < 2 ^ 64.
Proof.
  intros Hx H0 Hh Hb Hrank Hdec. split; [|by apply below_2_64].
  destruct (decide (y = 0)) as [->|]; [exfalso|lia].
  assert (Hz : forall n, 0 <= n -> forall i, 0 <= i < 64 -> rank i = n -> Z.testbit x i = false).
  { refine (Z_lt_induction _ _). intros n IH i Hi Hn.
    specialize (Hb i Hi). rewrite Z.bits_0 in Hb.
    assert (Hf : Z.testbit x (from i) = false).
    { destruct (Z.lt_ge_cases (from i) 0); [by apply Z.testbit_neg_r|].
      destruct (Z.lt_ge_cases (from i) 64) as [Hlt|]; [|apply high_bits_zero; lia].
      destruct (Hdec i Hi) as [?|[?|Hr]]; [lia..|].
      apply (IH (rank (from i))); [|lia|done]. split; [apply Hrank|]; lia. }
    rewrite Hf in Hb. by destruct (Z.testbit x i). }
  assert (x = 0); [|lia]. apply Z.bits_inj'. intros i Hi. rewrite Z.bits_0.
  destruct (Z.lt_ge_cases i 64); [|apply high_bits_zero; lia]. by apply (Hz (rank i)); [apply Hrank| |].
Qed.

Lemma xor_shiftl_pos x k :
  0 < x < 2 ^ 64 -> 0 < k -> 0 < Z.lxor x (wrap 64 (Z.shiftl x k)) < 2 ^ 64.
Proof.
  intros Hx Hk. unfold wrap. apply (xor_shift_pos x _ (fun i => i - k) (fun i => i)); try lia.
  - apply Z.lxor_nonneg. pose proof (Z.mod_pos_bound (Z.shiftl x k) (2 ^ 64)). lia.
  - intros i Hi. rewrite Z.lxor_spec, Z.mod_pow2_bits_high by lia.
    by rewrite high_bits_zero by lia.
  - intros i Hi. by rewrite Z.lxor_spec, Z.mod_pow2_bits_low, Z.shiftl_spec by lia.
Qed.

Lemma xor_shiftr_pos x k :
  0 < x < 2 ^ 64 -> 0 < k -> 0 < Z.lxor x (Z.shiftr x k) < 2 ^ 64.
Proof.
  intros Hx Hk. apply (xor_shift_pos x _ (fun i => i + k) (fun i => 63 - i)); try lia.
  - apply Z.lxor_nonneg. rewrite Z.shiftr_nonneg. lia.
  - intros i Hi. rewrite Z.lxor_spec, Z.shiftr_spec by lia.
    by rewrite !high_bits_zero by lia.
  - intros i Hi. by rewrite Z.lxor_spec, Z.shiftr_spec by lia.
Qed.

Lemma next_state_pos x : 0 <= x < 2 ^ 64 -> 0 < next_state x < 2 ^ 64.
Proof.
  intros Hx. unfold next_state. apply xor_shiftl_pos; [|lia].
  apply xor_shiftr_pos; [|lia]. apply xor_shiftl_pos; [|lia].
  destruct (Z.eqb_spec x 0); [by unfold SEED|lia].
Qed.

Definition wf (r : t) : Prop := in_u 64 (seed r).

Lemma candidates_elem shared ps i :
  i ∈ candidates shared ps <-> (i < length ps)%nat /\ eligible shared ps i = true.
Proof. unfold candidates. rewrite list_elem_of_In, filter_In, in_seq. intuition lia. Qed.

Lemma choose_random shared ps r :
  wf r ->
  (choose shared ps r).1 =
    candidates shared ps !!
      Z.to_nat (next_state (seed r) mod Z.of_nat (length (candidates shared ps))).
Proof.
  intros Hr. cbn -[candidates Z.of_nat]. destruct (Z.eqb_spec (Z.of_nat (length (candidates shared ps))) 0) as [E|E].
  - cbn. symmetry. apply lookup_ge_None. lia.
  - cbn -[Z.of_nat]. apply nth_eligible_lookup. apply Z.mod_pos_bound. lia.
Qed.

#[global] Instance laws : ReplacerLaws t.
Proof.
  apply (Build_ReplacerLaws _ _ wf (fun _ => True)); try done.
  - intros shared ps r i Hr H. rewrite choose_random in H by done.
    by apply candidates_elem, (list_elem_of_lookup_2 _ _ _ H).
  - intros shared ps r Hr H i Hi. rewrite choose_random in H by done.
    apply lookup_ge_None in H. apply not_true_is_false. intros He.
    assert (Hin : i ∈ candidates shared ps) by (by apply candidates_elem).
    destruct (candidates shared ps) as [|c cs]; [by apply not_elem_of_nil in Hin|].
    pose proof (Z.mod_pos_bound (next_state (seed r)) (Z.of_nat (length (c :: cs)))).
    cbn [length] in *. lia.
  - intros shared ps r _. cbn -[candidates]. by case_match.
  - intros shared ps r Hr. cbn -[candidates]. case_match; [done|].
    unfold wf, in_u in *. cbn. pose proof (next_state_pos (seed r) Hr). lia.
Defined.
End RandomProofs.

(** ** The registry *)

Module Registry.
Definition COUNT : nat := 4.
#[global] Arguments COUNT : simpl never.

(** Every static of the module. *)
Record t := mk {
  CLOCK : Clock.t; FIFO : FifoR.t; NRU : Nru.t; RANDOM : Random.t; ACTIVE : nat
}.
Definition init : t := mk Clock.new FifoR.new Nru.new Random.new 0.

(** [&'static mut dyn Replacer]. *)
Record Brick := mkBrick {
  carrier : Type;
  brick_replacer :: Replacer carrier;
  brick_laws :: ReplacerLaws carrier;
  get : t -> carrier;
  put : carrier -> t -> t
}.

Definition replacer_at (index : nat) : Brick :=
  match index with
  | 1%nat => mkBrick FifoR.t _ _ FIFO (fun v s => mk (CLOCK s) v (NRU s) (RANDOM s) (ACTIVE s))
  | 2%nat => mkBrick Nru.t _ _ NRU (fun v s => mk (CLOCK s) (FIFO s) v (RANDOM s) (ACTIVE s))
  | 3%nat => mkBrick Random.t _ _ RANDOM (fun v s => mk (CLOCK s) (FIFO s) (NRU s) v (ACTIVE s))
  | _ => mkBrick Clock.t _ _ CLOCK (fun v s => mk v (FIFO s) (NRU s) (RANDOM s) (ACTIVE s))
  end.

Definition name_at (index : nat) : string :=
  @replacer_name _ (brick_replacer (replacer_at (Nat.min index (COUNT - 1)))).
Definition describe_at (index : nat) : string :=
  @replacer_describe _ (brick_replacer (replacer_at (Nat.min index (COUNT - 1)))).
Definition active_name (s : t) : string :=
  @replacer_name _ (brick_replacer (replacer_at (ACTIVE s))).

Definition choose_at (index : nat) (shared : Z -> bool) (pages : PageSet) (s : t)
  : option nat * (PageSet * t) :=
  let '(victim, (pages, r)) := choose shared pages (get (replacer_at index) s) in
  (victim, (pages, put (replacer_at index) r s)).

Definition modify_at (index : nat) (f : carrier (replacer_at index) -> carrier (replacer_at index))
    (s : t) : t :=
  put (replacer_at index) (f (get (replacer_at index) s)) s.

(** The mechanism's single call into policy. *)
Definition choose_victim (shared : Z -> bool) (pages : PageSet) (s : t)
  : option nat * (PageSet * t) := choose_at (ACTIVE s) shared pages s.
Definition note_resident (a : Z) (s : t) : t := modify_at (ACTIVE s) (on_resident a) s.
Definition note_evicted (a : Z) (s : t) : t := modify_at (ACTIVE s) (on_evicted a) s.

Definition install (index : nat) (s : t) : bool * t :=
  if (COUNT <=? index)%nat then (false, s)
  else
    let s := modify_at index replacer_reset s in
    (true, mk (CLOCK s) (FIFO s) (NRU s) (RANDOM s) index).

Definition install_by_name (name : string) (s : t) : bool * t :=
  match range_find 0 COUNT (fun index => bool_decide (name_at index = name)) with
  | Some index => install index s
  | None => (false, s)
  end.

Definition test_choose (index : nat) (shared : Z -> bool) (pages : PageSet) (s : t)
  : option nat * (PageSet * t) := choose_at (Nat.min index (COUNT - 1)) shared pages s.
Definition test_reset (index : nat) (s : t) : t :=
  modify_at (Nat.min index (COUNT - 1)) replacer_reset s.

Definition wf (s : t) : Prop :=
  FifoProofs.wf (FIFO s) /\ RandomProofs.wf (RANDOM s) /\ (ACTIVE s < COUNT)%nat.

Lemma registry_get_wf i s : wf s -> replacer_wf (get (replacer_at i) s).
Proof. intros (? & ? & _). do 4 (destruct i as [|i]; [done|]). done. Qed.

Lemma registry_put_wf i r s : wf s -> replacer_wf r -> wf (put (replacer_at i) r s).
Proof. intros (? & ? & ?) Hr. do 4 (destruct i as [|i]; [done|]). done. Qed.

Lemma init_wf : wf init.
Proof.
  split; [apply FifoProofs.fifo_new_wf|].
  split; [unfold RandomProofs.wf, in_u|unfold COUNT]; cbn; lia.
Qed.

Lemma registry_get_put i r s : get (replacer_at i) (put (replacer_at i) r s) = r.
Proof. do 4 (destruct i as [|i]; [done|]). done. Qed.
End Registry.

(** C23: eviction is safe and complete whatever policy is installed and
    whatever it remembers: the page named is one that may be taken (present,
    not already out, not shared), a page is named whenever one may be taken,
    no entry changes by more than its accessed bit, and the policy's own
    state stays sound. *)
Theorem victim_is_eligible shared pages s :
  Registry.wf s ->
  let '(victim, (pages', s')) := Registry.choose_victim shared pages s in
  same_pages pages pages' /\ Registry.wf s' /\
  match victim with
  | Some i => (i < length pages)%nat /\ eligible shared pages i = true
  | None => forall i, (i < length pages)%nat -> eligible shared pages i = false
  end.
Proof.
  intros Hs. unfold Registry.choose_victim, Registry.choose_at.
  pose proof (Registry.registry_get_wf (Registry.ACTIVE s) s Hs) as Hg.
  set (r := Registry.get _ _) in *.
  pose proof (choose_pages shared pages r Hg) as Hp.
  pose proof (choose_wf shared pages r Hg) as Hw.
  pose proof (fun i => choose_Some shared pages r i Hg) as HS.
  pose proof (choose_None shared pages r Hg) as HN.
  destruct (choose shared pages r) as [[i|] [ps' r']]; cbn [fst snd] in *.
  - split_and!; [done|by apply Registry.registry_put_wf|by apply HS|by apply HS].
  - split_and!; [done|by apply Registry.registry_put_wf|by apply HN].
Qed.

Lemma victim_is_eligible_witness :
  let pages := [(4096, test_entry true true false false); (8192, test_entry false false false true);
                (12288, test_entry true false false false)] in
  Registry.wf Registry.init /\
  (Registry.choose_victim (fun _ => false) pages Registry.init).1 = Some 2%nat /\
  (let '(victim, (pages', s')) := Registry.choose_victim (fun _ => false) pages Registry.init in
   same_pages pages pages' /\ Registry.wf s' /\
   match victim with
   | Some i => (i < length pages)%nat /\ eligible (fun _ => false) pages i = true
   | None => forall i, (i < length pages)%nat -> eligible (fun _ => false) pages i = false
   end).
Proof.
  split; [apply Registry.init_wf|]. split; [by vm_compute|].
  apply victim_is_eligible, Registry.init_wf.
Defined.
