(* ===== verification/ReplaceSpec.v ===== *)
(** * What each replacement policy answers

    Reference definitions for the bricks of [kernel/src/replace.rs], and the
    proofs that the bricks compute them: the clock against "second chance in
    hand order", FIFO's fixed table against a queue of arrivals, NRU against
    its four classes, and the generator behind random. *)

From Stdlib Require Import Sorted.
From S2P Require Import Prelude Pages Replace.

(** ** The clock: second chance *)

Section clock.
Context (shared : Z -> bool).

(** The pages in the order the hand meets them. *)
Definition hand_order (hand n : nat) : list nat :=
  map (fun step => (hand + step) mod n)%nat (seq 0 n).

Definition second_chance (hand : nat) (ps : PageSet) : option nat :=
  let order := hand_order hand (length ps) in
  match List.find (fun i => eligible shared ps i && negb (accessed ps i)) order with
  | Some i => Some i
  | None => List.find (eligible shared ps) order
  end.

Lemma find_ext_in {A} (f g : A -> bool) l :
  (forall x, x ∈ l -> f x = g x) -> List.find f l = List.find g l.
Proof.
  induction l as [|x l IH]; intros H; cbn; [done|].
  rewrite H by left. destruct (g x); [done|]. apply IH. intros y Hy. apply H. by right.
Qed.

(** Over indices met once each, a sweep is a search of the original set. *)
Lemma sweep_find start steps ps :
  (0 < length ps)%nat ->
  NoDup (map (fun step => (start + step) mod length ps)%nat steps) ->
  (Clock.sweep shared start steps ps).1 =
    List.find (fun i => eligible shared ps i && negb (accessed ps i))
      (map (fun step => (start + step) mod length ps)%nat steps).
Proof.
  intros Hn. remember (length ps) as n eqn:Hlen. symmetry in Hlen. revert ps Hlen.
  induction steps as [|step steps IH]; intros ps Hlen Hnd; [done|].
  cbn [map] in Hnd. apply NoDup_cons in Hnd as [Hnin Hnd].
  cbn [Clock.sweep map List.find]. rewrite Hlen. cbn zeta. set (i := (_ mod n)%nat) in *.
  assert (Hi : (i < length ps)%nat) by (rewrite Hlen; apply Nat.mod_upper_bound; lia).
  destruct (eligible shared ps i) eqn:He; cbn [negb andb]; [|by apply IH].
  destruct (accessed ps i) eqn:Ha; cbn [negb]; [|done].
  pose proof (clear_accessed_same ps i Hi) as Hs.
  rewrite IH; [|by rewrite (proj1 Hs)|done]. apply find_ext_in. intros j Hj.
  rewrite (same_pages_eligible shared _ _ j Hs), clear_accessed_accessed by done.
  rewrite bool_decide_false by (by intros ->). by rewrite andb_true_r.
Qed.

Lemma second_lap start n :
  (0 < n)%nat ->
  map (fun step => (start + step) mod n)%nat (seq (1 * n) n) = hand_order start n.
Proof.
  intros Hn. unfold hand_order. replace (1 * n)%nat with (n + 0)%nat by lia.
  rewrite <- fmap_add_seq. change (fmap (Nat.add n) (seq 0 n)) with (map (Nat.add n) (seq 0 n)).
  rewrite map_map. apply map_ext. intros k. rewrite Nat.add_assoc, (Nat.add_comm start).
  rewrite <- Nat.add_assoc, Nat.add_comm. replace n with (1 * n)%nat at 1 by lia.
  by rewrite Nat.Div0.mod_add.
Qed.
End clock.

(** C29: the clock is second chance.  The victim is the first eligible page,
    in hand order, that has not been used since the hand last passed it; only
    when every eligible page has been used does the sweep come round to the
    first eligible one.  The hand then stands just past the victim. *)
Theorem clock_is_second_chance shared ps c :
  let '(victim, (_, c')) := choose (R := Clock.t) shared ps c in
  victim = second_chance shared (Clock.hand c) ps /\
  match victim with
  | Some i => Clock.hand c' = ((i + 1) mod length ps)%nat
  | None => c' = c
  end.
Proof.
  cbn. destruct (Nat.eqb_spec (length ps) 0) as [E|E].
  { unfold second_chance. by rewrite E. }
  set (start := Clock.hand c). assert (Hn : (0 < length ps)%nat) by lia.
  assert (Hv : (Clock.sweep shared start (seq 0 (length ps * 2)) ps).1
               = second_chance shared start ps).
  { rewrite (ClockProofs.two_laps (length ps) Hn), ClockProofs.sweep_app.
    change (0 * length ps)%nat with 0%nat.
    pose proof (sweep_find shared start (seq 0 (length ps)) ps Hn
                  (ring_NoDup _ start 0)) as H1.
    pose proof (ClockProofs.sweep_spec shared start _ Hn (seq 0 (length ps)) ps eq_refl) as S1.
    unfold second_chance. fold (hand_order start (length ps)) in H1.
    destruct (Clock.sweep _ _ (seq 0 (length ps)) ps) as [[i|] ps1]; cbn [fst] in *;
      rewrite <- H1; [done|].
    destruct S1 as (Hs & _ & S1). pose proof (proj1 Hs) as Hl.
    rewrite <- Hl in Hn |- *.
    rewrite (sweep_find shared start _ ps1 Hn (ring_NoDup _ start _)), second_lap by done. apply find_ext_in. intros i Hi.
    apply list_elem_of_In, in_map_iff in Hi as (k & <- & Hk%list_elem_of_In).
    rewrite Hl in *. specialize (S1 k Hk).
    rewrite (same_pages_eligible shared _ _ _ Hs).
    destruct (eligible shared ps _); [|done]. by destruct S1 as [_ ->]. }
  destruct (Clock.sweep _ _ _ _) as [[i|] ps']; cbn in *; by split.
Qed.

(** ** FIFO: a queue of arrivals *)

Module Queue.
Definition resident (a : Z) (q : list Z) : list Z :=
  if bool_decide (a ∈ q) then q
  else (if (length q <? FifoR.TRACKED)%nat then q else tail q) ++ [a].
Definition evicted (a : Z) (q : list Z) : list Z := filter (fun b => b <> a) q.

Section choice.
Context (shared : Z -> bool) (ps : PageSet).
(** The first eligible page at an address. *)
Definition page_at (a : Z) : option nat :=
  List.find (fun i => eligible shared ps i && (address ps i =? a)) (seq 0 (length ps)).
Fixpoint first_page (q : list Z) : option nat :=
  match q with
  | [] => None
  | a :: q => match page_at a with Some i => Some i | None => first_page q end
  end.
(** A page that never arrived goes before any that did. *)
Definition choice (q : list Z) : option nat :=
  match List.find (fun i => eligible shared ps i && negb (bool_decide (address ps i ∈ q)))
          (seq 0 (length ps)) with
  | Some i => Some i
  | None => first_page q
  end.
End choice.
End Queue.

Module FifoRefines.
Import FifoR.

(** The table holds the queue [q]: the live slots, taken by stamp, are the
    addresses of [q] in order. *)
Record holds (r : t) (sl : list nat) (q : list Z) : Prop := {
  holds_wf : FifoProofs.wf r;
  holds_slots i : i ∈ sl <-> (i < TRACKED)%nat /\ stamps r !!! i <> 0;
  holds_sorted : StronglySorted (fun i j => stamps r !!! i < stamps r !!! j) sl;
  holds_queue : q = map (fun i => addresses r !!! i) sl;
  holds_nodup : NoDup q
}.

Lemma sorted_NoDup r sl :
  StronglySorted (fun i j => stamps r !!! i < stamps r !!! j) sl -> NoDup sl.
Proof.
  induction 1 as [|i sl _ IH Hall]; constructor; [|done].
  intros Hin. rewrite Forall_forall in Hall. specialize (Hall i Hin). lia.
Qed.

Lemma queue_elem r sl q a : holds r sl q -> a ∈ q <-> exists i, i ∈ sl /\ addresses r !!! i = a.
Proof.
  intros H. rewrite (holds_queue _ _ _ H), list_elem_of_In, in_map_iff.
  setoid_rewrite <- list_elem_of_In. split; intros (i & H1 & H2); by exists i.
Qed.

(** Two live slots with one address are one slot. *)
Lemma slots_inj r sl q i j :
  holds r sl q -> i ∈ sl -> j ∈ sl -> addresses r !!! i = addresses r !!! j -> i = j.
Proof.
  intros H Hi Hj E. pose proof (holds_nodup _ _ _ H) as Hnd. rewrite (holds_queue _ _ _ H) in Hnd.
  apply list_elem_of_lookup in Hi as [x Hx], Hj as [y Hy].
  assert (x = y).
  { eapply (NoDup_lookup _ x y); [exact Hnd|..].
    - change (map ?f sl) with (f <$> sl). by rewrite list_lookup_fmap, Hx.
    - change (map ?f sl) with (f <$> sl). rewrite list_lookup_fmap, Hy. cbn. by rewrite E. }
  congruence.
Qed.

Lemma slot_of_queue r sl q a :
  holds r sl q ->
  match slot_of r a with
  | Some i => i ∈ sl /\ addresses r !!! i = a
  | None => a ∉ q
  end.
Proof.
  intros H. destruct (slot_of r a) as [i|] eqn:E.
  - apply FifoProofs.slot_of_Some in E as (? & ? & ?). split; [|done]. by apply (holds_slots _ _ _ H).
  - intros (i & Hi & Ha)%(queue_elem r sl q a H). apply (holds_slots _ _ _ H) in Hi as [Hi Hs].
    rewrite FifoProofs.slot_of_None in E. by apply (E i).
Qed.

Lemma sorted_filter {A} (R R' : A -> A -> Prop) (P : A -> Prop) `{forall x, Decision (P x)} l :
  StronglySorted R l -> (forall x y, P x -> P y -> R x y -> R' x y) ->
  StronglySorted R' (filter P l).
Proof.
  intros Hs HR. induction Hs as [|x l _ IH Hall]; [constructor|].
  rewrite filter_cons. case_decide; [|done]. constructor; [done|].
  rewrite Forall_forall in *. intros y [? ?]%list_elem_of_filter. auto.
Qed.

Lemma evicted_absent a q : a ∉ q -> Queue.evicted a q = q.
Proof.
  induction q as [|b q IH]; intros H; [done|]. rewrite not_elem_of_cons in H.
  destruct H as [Hne H]. unfold Queue.evicted in *. rewrite filter_cons, decide_True by done.
  by rewrite IH.
Qed.

Lemma new_holds : holds new [] [].
Proof.
  constructor; try done; [apply FifoProofs.fifo_new_wf| |constructor|constructor].
  intros i. split; [by intros ?%not_elem_of_nil|]. intros [Hi Hs]. exfalso. apply Hs.
  cbn -[replicate]. by apply lookup_total_replicate.
Qed.

Lemma evicted_holds r sl q a :
  holds r sl q -> exists sl', holds (on_evicted a r) sl' (Queue.evicted a q).
Proof.
  intros H. pose proof (slot_of_queue r sl q a H) as Hslot.
  pose proof (FifoProofs.on_evicted_wf' a r (holds_wf _ _ _ H)) as Hwf.
  cbn [on_evicted replacer] in *. destruct (slot_of r a) as [i|] eqn:E.
  2: { exists sl. replace (Queue.evicted a q) with q; [done|]. symmetry.
       by apply evicted_absent. }
  destruct Hslot as [Hi Ha]. pose proof (proj1 (holds_slots _ _ _ H i) Hi) as [Hlt _].
  destruct (holds_wf _ _ _ H) as (_ & Hlen & _).
  exists (filter (fun j => j <> i) sl). constructor; cbn [stamps addresses]; [done|..].
  - intros j. rewrite list_elem_of_filter, (holds_slots _ _ _ H).
    rewrite list_insert_total by lia. case_decide; intuition congruence.
  - apply (sorted_filter _ _ _ _ (holds_sorted _ _ _ H)). intros x y Hx Hy Hxy.
    by rewrite !list_insert_total, !decide_False by (auto || lia).
  - rewrite (holds_queue _ _ _ H) at 1. unfold Queue.evicted.
    assert (Hin : forall x, x ∈ sl -> addresses r !!! x = a -> x = i).
    { intros x Hx Hxa. apply (slots_inj r sl q x i H Hx Hi). congruence. }
    clear -Hin Ha. induction sl as [|k sl IH]; [done|].
    cbn [map]. rewrite !filter_cons, IH by (intros; apply Hin; [by right|done]).
    destruct (decide (k = i)) as [->|Hk].
    + rewrite decide_False, decide_False by (intros ?; done). done.
    + rewrite (decide_True (P := k <> i)) by done. rewrite decide_True; [done|].
      intros Hka. apply Hk, Hin; [by left|done].
  - apply NoDup_filter, (holds_nodup _ _ _ H).
Qed.

Lemma sorted_snoc {A} (R : A -> A -> Prop) l y :
  StronglySorted R l -> Forall (fun x => R x y) l -> StronglySorted R (l ++ [y]).
Proof.
  induction 1 as [|x l _ IH Hall]; intros Hy; cbn; [by repeat constructor|].
  apply Forall_cons in Hy as [Hx Hy]. constructor; [by apply IH|].
  apply Forall_app. split; [done|by constructor].
Qed.

Lemma map_without {A} (f : nat -> A) (sl : list nat) (P : nat -> Prop)
    `{forall x, Decision (P x)} :
  NoDup (map f sl) -> NoDup (map f (filter P sl)).
Proof.
  induction sl as [|x sl IH]; intros Hnd; [done|]. cbn [map] in Hnd.
  apply NoDup_cons in Hnd as [Hx Hnd]. rewrite filter_cons. case_decide; [|by apply IH].
  cbn [map]. apply NoDup_cons. split; [|by apply IH].
  rewrite list_elem_of_In, in_map_iff. intros (y & E & Hy%list_elem_of_In).
  apply list_elem_of_filter in Hy as [_ Hy]. apply Hx. rewrite list_elem_of_In, in_map_iff.
  exists y. by rewrite <- list_elem_of_In.
Qed.

(** Reusing a slot: whatever it held goes, and the newcomer is last. *)
Lemma push_holds r sl q f a :
  holds r sl q -> (f < TRACKED)%nat -> a ∉ q -> FifoProofs.room r ->
  holds (mk (<[f := a]> (addresses r)) (<[f := next r]> (stamps r)) (next r +₆₄ 1))
    (filter (fun j => j <> f) sl ++ [f])
    (map (fun i => addresses r !!! i) (filter (fun j => j <> f) sl) ++ [a]).
Proof.
  intros H Hf Ha Hroom. destruct (holds_wf _ _ _ H) as (Hla & Hls & Hb & Hn).
  unfold FifoProofs.room, u64_max in Hroom.
  assert (Hnew : next r +₆₄ 1 = next r + 1) by (apply wrap_small; unfold in_u; lia).
  constructor; cbn [stamps addresses next].
  - split_and!; cbn [addresses stamps next]; rewrite ?length_insert, ?Hnew; try done;
      [|lia|unfold u64_max; lia].
    intros i Hi. rewrite list_insert_total by lia. specialize (Hb i Hi). case_decide; lia.
  - intros i. rewrite elem_of_app, list_elem_of_filter, list_elem_of_singleton.
    rewrite (holds_slots _ _ _ H), list_insert_total by lia.
    destruct (decide (f = i)) as [->|]; [|intuition congruence].
    split; [|tauto]. intros _. split; [done|lia].
  - apply sorted_snoc.
    + apply (sorted_filter _ _ _ _ (holds_sorted _ _ _ H)). intros x y Hx Hy Hxy.
      by rewrite !list_insert_total, !decide_False by (auto || lia).
    + apply Forall_forall. intros x [Hx Hin]%list_elem_of_filter.
      rewrite !list_insert_total, decide_False, decide_True by (auto || lia).
      apply (holds_slots _ _ _ H) in Hin as [Hlt _]. by apply Hb.
  - rewrite map_app. cbn [map]. rewrite list_insert_total, decide_True by (done || lia). f_equal.
    apply map_ext_in. intros i Hi%list_elem_of_In. apply list_elem_of_filter in Hi as [Hi _].
    by rewrite list_insert_total, decide_False by (auto || lia).
  - apply NoDup_app. split_and!; [|
      |apply NoDup_singleton].
    + apply map_without. rewrite <- (holds_queue _ _ _ H).
      apply (holds_nodup _ _ _ H).
    + intros b Hb' ->%list_elem_of_singleton. apply Ha. apply (queue_elem _ _ _ _ H).
      apply list_elem_of_In, in_map_iff in Hb' as (i & <- & Hi%list_elem_of_In).
      apply list_elem_of_filter in Hi as [_ Hi]. by exists i.
Qed.

Lemma filter_absent (f : nat) (sl : list nat) : f ∉ sl -> filter (fun j => j <> f) sl = sl.
Proof.
  induction sl as [|x sl IH]; intros Hf; [done|]. rewrite not_elem_of_cons in Hf.
  destruct Hf as [Hne Hf]. rewrite filter_cons, decide_True by congruence. by rewrite IH.
Qed.

Lemma resident_holds r sl q a :
  holds r sl q -> FifoProofs.room r -> exists sl', holds (on_resident a r) sl' (Queue.resident a q).
Proof.
  intros H Hroom. pose proof (slot_of_queue r sl q a H) as Hslot.
  cbn [on_resident replacer]. unfold Queue.resident. destruct (slot_of r a) as [i|] eqn:E.
  { exists sl. rewrite bool_decide_true; [done|]. apply (queue_elem _ _ _ _ H). by exists i. }
  rewrite bool_decide_false by done. eexists.
  pose proof (push_holds r sl q (free_slot r) a H (FifoProofs.free_slot_lt r) Hslot Hroom) as Hp.
  pose proof (sorted_NoDup _ _ (holds_sorted _ _ _ H)) as Hnd.
  assert (Hlen : length q = length sl) by (rewrite (holds_queue _ _ _ H); apply length_map).
  rewrite Hlen. replace ((if (length sl <? TRACKED)%nat then q else tail q) ++ [a])
    with (map (fun i => addresses r !!! i) (filter (fun j => j <> free_slot r) sl) ++ [a]); [exact Hp|].
  f_equal. clear Hp. unfold free_slot. destruct (range_find _ _ _) as [f|] eqn:Ef.
  - apply range_find_Some in Ef as (Hf & Hz%Z.eqb_eq & _).
    assert (Hnin : f ∉ sl) by (intros [_ Hin]%(holds_slots _ _ _ H); done).
    rewrite filter_absent by done.
    assert (length (f :: sl) <= length (seq 0 TRACKED))%nat as Hl.
    { apply NoDup_incl_length; [apply NoDup_ListNoDup; by constructor|].
      intros x [<-|Hx]; apply in_seq; [lia|].
      apply list_elem_of_In, (holds_slots _ _ _ H) in Hx. lia. }
    rewrite length_seq in Hl. cbn [length] in Hl.
    destruct (Nat.ltb_spec (length sl) TRACKED); [|lia]. symmetry. apply (holds_queue _ _ _ H).
  - rewrite range_find_None in Ef.
    assert (Hall : forall i, (i < TRACKED)%nat -> i ∈ sl).
    { intros i Hi. apply (holds_slots _ _ _ H). split; [done|]. apply Z.eqb_neq, Ef. lia. }
    assert (length (seq 0 TRACKED) <= length sl)%nat as Hl.
    { apply NoDup_incl_length; [apply seq_NoDup|]. intros x Hx%in_seq.
      apply list_elem_of_In, Hall. lia. }
    rewrite length_seq in Hl. destruct (Nat.ltb_spec (length sl) TRACKED); [lia|].
    destruct sl as [|h sl]; [pose proof FifoProofs.TRACKED_pos; cbn in Hl; lia|].
    assert (Hh : (h < TRACKED)%nat) by (apply (holds_slots _ _ _ H); by left).
    destruct (min_by_key _ _) as [m|] eqn:Em.
    2: { apply min_by_key_None in Em. by rewrite <- (length_seq TRACKED 0), Em in Hh;
         apply Nat.nlt_0_r in Hh. }
    apply min_by_key_Some in Em as [Hm Hmin]. cbn [default].
    assert (m = h) as ->.
    { apply elem_of_seq in Hm. specialize (Hmin h ltac:(apply elem_of_seq; lia)).
      assert (Hin : m ∈ h :: sl) by (apply Hall; lia).
      apply elem_of_cons in Hin as [|Hin]; [done|].
      pose proof (holds_sorted _ _ _ H) as Hs. apply StronglySorted_inv in Hs as [_ Hs].
      rewrite Forall_forall in Hs. specialize (Hs m Hin). lia. }
    apply NoDup_cons in Hnd as [Hnin _].
    rewrite filter_cons, decide_False, filter_absent by auto.
    by rewrite (holds_queue _ _ _ H).
Qed.

(** The stamp an address carries: 0 when it is not in the table. *)
Lemma age_queue r sl q ps i :
  holds r sl q ->
  (age r ps i = 0 <-> address ps i ∉ q) /\
  (forall k, k ∈ sl -> address ps i = addresses r !!! k -> age r ps i = stamps r !!! k).
Proof.
  intros H. unfold age. pose proof (slot_of_queue r sl q (address ps i) H) as Hs.
  destruct (slot_of r (address ps i)) as [k|].
  - destruct Hs as [Hk Ha]. pose proof (proj1 (holds_slots _ _ _ H k) Hk) as [_ Hne]. split.
    + split; [done|]. intros Hq. exfalso. apply Hq, (queue_elem _ _ _ _ H). by exists k.
    + intros k' Hk' E. f_equal. apply (slots_inj r sl q); [done..|congruence].
  - split; [done|]. intros k Hk E. exfalso. apply Hs, (queue_elem _ _ _ _ H). by exists k.
Qed.

Lemma page_at_None shared ps a i :
  Queue.page_at shared ps a = None -> (i < length ps)%nat ->
  eligible shared ps i = true -> address ps i <> a.
Proof.
  intros H Hi He E. pose proof (find_none _ _ H i) as Hf. cbn in Hf.
  rewrite He, E, Z.eqb_refl in Hf. discriminate Hf. apply in_seq. lia.
Qed.

(** When every eligible page has arrived, the scan takes the one whose
    arrival is first in the queue. *)
Lemma choice_tracked r shared ps sl1 sl2 :
  FifoProofs.wf r ->
  StronglySorted (fun i j => stamps r !!! i < stamps r !!! j) (sl1 ++ sl2) ->
  (forall i, (i < length ps)%nat -> eligible shared ps i = true ->
     exists k, k ∈ sl2 /\ address ps i = addresses r !!! k) ->
  (forall i k, k ∈ sl2 -> address ps i = addresses r !!! k -> age r ps i = stamps r !!! k) ->
  (choose (R := t) shared ps r).1 =
    Queue.first_page shared ps (map (fun i => addresses r !!! i) sl2).
Proof.
  intros Hwf. revert sl1. induction sl2 as [|h sl2 IH]; intros sl1 Hs Hall Hage.
  - cbn. pose proof (FifoProofs.choose_scan shared r ps Hwf) as Hc. cbn in Hc.
    destruct (scan_best _ _ _ _) as [[i|] b]; [|done]. cbn in *.
    destruct Hc as (Hi & He & _). destruct (Hall i Hi He) as (k & Hk & _).
    by apply not_elem_of_nil in Hk.
  - cbn [map Queue.first_page].
    destruct (Queue.page_at shared ps (addresses r !!! h)) as [i|] eqn:Ep.
    + pose proof Ep as Ep'. apply find_some in Ep' as [Hi [He Ha%Z.eqb_eq]%andb_true_iff].
      apply in_seq in Hi. unfold Queue.page_at in Ep. rewrite <- Ep. cbn.
      assert (Hagei : age r ps i = stamps r !!! h) by (apply Hage; [by left|done]).
      assert (Hlater : forall k, k ∈ sl2 -> stamps r !!! h < stamps r !!! k).
      { intros k Hk. assert (Hs2 : StronglySorted (fun i j => stamps r !!! i < stamps r !!! j) (h :: sl2)).
        { clear -Hs. induction sl1 as [|x sl1 IH]; [done|].
          apply IH. by apply StronglySorted_inv in Hs as [? _]. }
        apply StronglySorted_inv in Hs2 as [_ Hs2]. rewrite Forall_forall in Hs2. by apply Hs2. }
      rewrite (scan_best_find _ _ _ (stamps r !!! h) i).
      * apply find_ext_in. intros j Hj%elem_of_seq.
        destruct (eligible shared ps j) eqn:Hej; [|done]. cbn.
        destruct (Hall j ltac:(lia) Hej) as (k & Hk & Hak). rewrite (Hage j k Hk Hak), Hak.
        apply elem_of_cons in Hk as [->|Hk]; [by rewrite !Z.eqb_refl|].
        specialize (Hlater k Hk). destruct (Z.eqb_spec (stamps r !!! k) (stamps r !!! h)); [lia|].
        symmetry. apply Z.eqb_neq. intros E. rewrite <- Hak in E.
        pose proof (Hage j h ltac:(by left) E) as E2.
        rewrite (Hage j k ltac:(by right) Hak) in E2. lia.
      * intros j Hj%elem_of_seq Hej. pose proof (FifoProofs.age_bound r ps j Hwf).
        destruct (Hall j ltac:(lia) Hej) as (k & Hk & Hak). rewrite (Hage j k Hk Hak) in *.
        apply elem_of_cons in Hk as [->|Hk]; [lia|]. specialize (Hlater k Hk). lia.
      * apply elem_of_seq. lia.
      * done.
      * done.
    + apply (IH (sl1 ++ [h])).
      * by rewrite <- app_assoc.
      * intros i Hi He. destruct (Hall i Hi He) as (k & Hk & Hak).
        apply elem_of_cons in Hk as [->|Hk]; [|by exists k].
        exfalso. by apply (page_at_None _ _ _ i Ep).
      * intros i k Hk. apply Hage. by right.
Qed.

Lemma choose_holds r sl q shared ps :
  holds r sl q -> (choose (R := t) shared ps r).1 = Queue.choice shared ps q.
Proof.
  intros H. pose proof (holds_wf _ _ _ H) as Hwf. unfold Queue.choice.
  destruct (List.find _ (seq 0 (length ps))) as [i|] eqn:Ef.
  - rewrite <- Ef. apply find_some in Ef as [Hi [He Hn%negb_true_iff]%andb_true_iff].
    apply in_seq in Hi. cbn. rewrite (scan_best_find _ _ _ 0 i).
    + apply find_ext_in. intros j _. f_equal. apply eq_bool_prop_intro.
      destruct (age_queue r sl q ps j H) as [Ha _].
      rewrite !Is_true_true, negb_true_iff, bool_decide_eq_false. by rewrite Z.eqb_eq.
    + intros j _ _. by apply FifoProofs.age_bound.
    + apply elem_of_seq. lia.
    + done.
    + apply (age_queue r sl q ps i H). by apply bool_decide_eq_false in Hn.
  - rewrite (holds_queue _ _ _ H). apply (choice_tracked r shared ps [] sl Hwf).
    + apply (holds_sorted _ _ _ H).
    + intros i Hi He. pose proof (find_none _ _ Ef i) as Hf. cbn in Hf.
      rewrite He, in_seq in Hf. specialize (Hf ltac:(lia)).
      apply negb_false_iff, bool_decide_eq_true in Hf.
      apply (queue_elem _ _ _ _ H) in Hf as (k & Hk & E). by exists k.
    + intros i k Hk. by apply (age_queue r sl q ps i H).
Qed.

(** What a policy is told between two choices. *)
Inductive notice := Came (a : Z) | Left (a : Z) | Forget.

Definition tell (r : t) (e : notice) : t :=
  match e with Came a => on_resident a r | Left a => on_evicted a r | Forget => replacer_reset r end.
Definition queued (q : list Z) (e : notice) : list Z :=
  match e with Came a => Queue.resident a q | Left a => Queue.evicted a q | Forget => [] end.

Lemma next_grows r e : FifoProofs.wf r -> FifoProofs.room r -> next (tell r e) <= next r + 1.
Proof.
  intros (_ & _ & _ & Hn) Hr. unfold FifoProofs.room, u64_max in Hr.
  destruct e as [a|a|]; cbn; [destruct (slot_of r a)..|]; cbn; try lia.
  rewrite wrap_small by (unfold in_u; lia). lia.
Qed.

Lemma run_holds es r sl q :
  holds r sl q -> next r + Z.of_nat (length es) <= u64_max ->
  exists sl', holds (fold_left tell es r) sl' (fold_left queued es q).
Proof.
  revert r sl q. induction es as [|e es IH]; intros r sl q H Hn; [by exists sl|].
  cbn [fold_left length] in *. pose proof (holds_wf _ _ _ H) as Hwf.
  assert (Hroom : FifoProofs.room r) by (unfold FifoProofs.room; lia).
  pose proof (next_grows r e Hwf Hroom).
  assert (He : exists sl', holds (tell r e) sl' (queued q e)).
  { destruct e as [a|a|]; cbn [tell queued].
    - by eapply resident_holds.
    - by eapply evicted_holds.
    - exists []. apply new_holds. }
  destruct He as [sl' He]. apply (IH _ sl'); [done|lia].
Qed.
End FifoRefines.

(** FIFO's fixed table of stamps implements a queue of arrivals.
    Whatever it has been told, its next victim is the one the queue names: a
    page that never arrived (or was forgotten when the table overflowed) if
    there is one, and otherwise the eligible page that arrived first. *)
Theorem fifo_refines_queue es shared ps :
  Z.of_nat (length es) < u64_max ->
  (choose (R := FifoR.t) shared ps (fold_left FifoRefines.tell es FifoR.new)).1 =
    Queue.choice shared ps (fold_left FifoRefines.queued es []).
Proof.
  intros Hn. destruct (FifoRefines.run_holds es FifoR.new [] [] FifoRefines.new_holds) as [sl H].
  - cbn [FifoR.new FifoR.next]. lia.
  - by apply (FifoRefines.choose_holds _ sl).
Qed.

Lemma fifo_refines_queue_witness :
  let es := [FifoRefines.Came 8192; FifoRefines.Came 4096; FifoRefines.Left 8192;
             FifoRefines.Came 8192] in
  let e := test_entry true true false false in
  (choose (R := FifoR.t) (fun _ => false) [(4096, e); (8192, e)]
     (fold_left FifoRefines.tell es FifoR.new)).1 = Some 0%nat.
Proof.
  cbv zeta. rewrite fifo_refines_queue; [by vm_compute|by vm_compute].
Defined.

(** ** NRU *)

(** NRU takes a page of the lowest non-empty class (the early exit on
    class 0 included), and every eviction opens a fresh observation window:
    afterwards no page of the set is marked as accessed. *)
Theorem nru_takes_lowest_class shared ps :
  let '(victim, (ps', _)) := choose (R := Nru.t) shared ps Nru.new in
  match victim with
  | Some i =>
      (i < length ps)%nat /\ eligible shared ps i = true /\
      (forall j, (j < length ps)%nat -> eligible shared ps j = true ->
         Nru.class ps i <= Nru.class ps j) /\
      (forall j, (j < length ps)%nat -> accessed ps' j = false)
  | None => ps' = ps
  end.
Proof.
  cbn. pose proof (NruProofs.scan_spec shared ps) as H.
  destruct (Nru.scan _ _ _ _) as [[c i]|]; [|done]. destruct H as (Hi & He & _ & Hmin).
  split_and!; try done. intros j Hj. by apply NruProofs.clear_all_spec.
Qed.

(** ** Random *)

(** The generator never sticks: from any 64-bit state, zero included,
    xorshift64's next state is a nonzero 64-bit number; so a choice always
    names the candidate of a rank drawn from a live state. *)
Theorem random_never_sticks shared ps r :
  in_u 64 (Random.seed r) ->
  0 < Random.next_state (Random.seed r) < 2 ^ 64 /\
  (choose (R := Random.t) shared ps r).1 =
    Random.candidates shared ps !!
      Z.to_nat (Random.next_state (Random.seed r) mod Z.of_nat (length (Random.candidates shared ps))).
Proof.
  intros Hr. split; [by apply RandomProofs.next_state_pos|by apply RandomProofs.choose_random].
Qed.

Lemma random_never_sticks_witness :
  let e := test_entry true false false false in
  0 < Random.next_state 0 < 2 ^ 64 /\
  (choose (R := Random.t) (fun _ => false) [(0, e); (4096, e); (8192, e)] Random.new).1 = Some 0%nat.
Proof.
  cbv zeta. match goal with |- _ /\ (choose ?s ?p _).1 = _ =>
    destruct (random_never_sticks s p Random.new) as [H1 H2] end.
  - unfold in_u. cbn. lia.
  - split; [exact H1|]. rewrite H2. by vm_compute.
Defined.
