(* ===== verification/Swap.v ===== *)
(** * Swap: [kernel/src/swap.rs]

    The bitmap of slots past the end of the filesystem, and where on the disk
    a slot lives.  Moving the page itself is [ata::read] and [ata::write] on
    the sectors [slot_lba] names. *)

From S2P Require Import Prelude Pages.

Definition SWAP_START : Z := 32768.
Definition SECTORS_PER_PAGE : Z := 8.
Definition SLOTS : nat := 2048.
Definition WORDS : nat := 32.
#[global] Arguments SLOTS : simpl never.
#[global] Arguments WORDS : simpl never.

Record Swap := mkSwap { USED : list Z; EVICTIONS : Z; FAULTS_IN : Z }.
Definition Swap_init : Swap := mkSwap (replicate WORDS 0) 0 0.

(** [(!word).trailing_zeros()]: the lowest clear bit, 64 when there is none. *)
Definition lowest_clear (word : Z) : nat :=
  default 64%nat (range_find 0 64 (fun bit => negb (Z.testbit word (Z.of_nat bit)))).

Definition allocate_slot (s : Swap) : option nat * Swap :=
  match range_find 0 (length (USED s)) (fun index => negb (USED s !!! index =? u64_max)) with
  | Some index =>
      let word := USED s !!! index in
      let bit := lowest_clear word in
      (Some (index * 64 + bit)%nat,
       mkSwap (<[index := set_bit word bit]> (USED s)) (EVICTIONS s) (FAULTS_IN s))
  | None => (None, s)
  end.

Definition free_slot (slot : nat) (s : Swap) : Swap :=
  if (SLOTS <=? slot)%nat then s
  else
    let index := (slot / 64)%nat in
    mkSwap (<[index := clear_bit (USED s !!! index) (slot mod 64)]> (USED s))
      (EVICTIONS s) (FAULTS_IN s).

Definition slot_lba (slot : nat) : Z :=
  wrap 32 (SWAP_START + wrap 32 (wrap 32 (Z.of_nat slot) * SECTORS_PER_PAGE)).

Definition count_ones (word : Z) : nat :=
  length (List.filter (fun bit => Z.testbit word (Z.of_nat bit)) (seq 0 64)).
Definition stats (s : Swap) : nat * Z * Z :=
  (list_sum (map count_ones (USED s)), EVICTIONS s, FAULTS_IN s).
Definition reset (s : Swap) : Swap := mkSwap (replicate WORDS 0) (EVICTIONS s) (FAULTS_IN s).

(** ** The set the bitmap stands for *)

Definition used (s : Swap) (slot : nat) : bool :=
  Z.testbit (USED s !!! (slot / 64)%nat) (Z.of_nat (slot mod 64)).

Definition swap_wf (s : Swap) : Prop :=
  length (USED s) = WORDS /\ Forall (in_u 64) (USED s).

Lemma Swap_init_wf : swap_wf Swap_init.
Proof. split; [done|]. apply Forall_replicate. unfold in_u. lia. Qed.

(** A word that is not all ones has a clear bit, and the lowest is found. *)
Lemma lowest_clear_spec word :
  in_u 64 word -> word <> u64_max ->
  (lowest_clear word < 64)%nat /\ Z.testbit word (Z.of_nat (lowest_clear word)) = false /\
  forall i, (i < lowest_clear word)%nat -> Z.testbit word (Z.of_nat i) = true.
Proof.
  intros Hw Hne. unfold lowest_clear. destruct (range_find _ _ _) as [b|] eqn:E; cbn [default id].
  - apply range_find_Some in E as (Hb & Hc%negb_true_iff & Hmin). split_and!; [lia|done|].
    intros i Hi. apply negb_false_iff, Hmin. lia.
  - exfalso. apply Hne. rewrite range_find_None in E. change u64_max with (Z.ones 64).
    apply Z.bits_inj'. intros i Hi. destruct (Z.lt_ge_cases i 64).
    + rewrite Z.ones_spec_low by lia. rewrite <- (Z2Nat.id i) by lia.
      apply negb_false_iff, E. lia.
    + rewrite Z.ones_spec_high by lia. by apply (in_u_high 64).
Qed.

Lemma div_mod_slot index bit :
  (bit < 64)%nat -> ((index * 64 + bit) / 64 = index /\ (index * 64 + bit) mod 64 = bit)%nat.
Proof.
  intros Hb. rewrite Nat.add_comm. split.
  - rewrite Nat.div_add by lia. by rewrite Nat.div_small.
  - rewrite Nat.Div0.mod_add. by apply Nat.mod_small.
Qed.

Lemma slot_index_lt slot : (slot < SLOTS)%nat -> (slot / 64 < WORDS)%nat.
Proof. intros H. apply Nat.Div0.div_lt_upper_bound. by unfold SLOTS, WORDS in *. Qed.

Lemma all_used index s :
  (index < length (USED s))%nat -> USED s !!! index = u64_max ->
  forall slot, (slot / 64 = index)%nat -> used s slot = true.
Proof.
  intros _ Hw slot <-. unfold used. rewrite Hw. change u64_max with (Z.ones 64).
  apply Z.ones_spec_low. pose proof (Nat.mod_upper_bound slot 64). lia.
Qed.

Lemma allocate_slot_spec s :
  swap_wf s ->
  let '(r, s') := allocate_slot s in
  swap_wf s' /\
  match r with
  | Some slot =>
      (slot < SLOTS)%nat /\ used s slot = false /\
      (forall j, (j < slot)%nat -> used s j = true) /\
      (forall j, used s' j = used s j || (slot =? j)%nat)
  | None => s' = s /\ forall j, (j < SLOTS)%nat -> used s j = true
  end.
Proof.
  intros [Hl Hu]. unfold allocate_slot. rewrite Hl.
  destruct (range_find _ _ _) as [index|] eqn:E.
  - apply range_find_Some in E as (Hi & Hne%negb_true_iff%Z.eqb_neq & Hmin).
    assert (Hw : in_u 64 (USED s !!! index)).
    { eapply Forall_lookup_1; [exact Hu|]. apply list_lookup_lookup_total_lt. lia. }
    destruct (lowest_clear_spec _ Hw Hne) as (Hb & Hclear & Hbelow).
    set (bit := lowest_clear _) in *. destruct (div_mod_slot index bit Hb) as [Hd Hm].
    split_and!.
    + split; cbn [USED]; [by rewrite length_insert|]. apply Forall_insert; [done|].
      apply (set_bit_in_u 64); [done|done|unfold bit in *; lia].
    + unfold SLOTS. unfold WORDS in Hi. lia.
    + unfold used. by rewrite Hd, Hm.
    + intros j Hj. pose proof (Nat.div_mod_eq j 64) as Ej. pose proof (Nat.mod_upper_bound j 64).
      destruct (decide (j / 64 = index)%nat) as [Ed|Ed].
      * unfold used. rewrite Ed. apply Hbelow. lia.
      * eapply all_used; [|..|reflexivity]; [lia|].
        apply Z.eqb_eq, negb_false_iff, Hmin. lia.
    + intros j. unfold used. cbn [USED]. rewrite list_insert_total by lia.
      case_decide as Ed.
      * rewrite set_bit_spec, <- Ed. f_equal. apply eq_bool_prop_intro.
        rewrite !Is_true_true, !Nat.eqb_eq. pose proof (Nat.div_mod_eq j 64). lia.
      * rewrite (proj2 (Nat.eqb_neq _ _)); [by rewrite orb_false_r|]. by intros <-.
  - rewrite range_find_None in E. split_and!; [done|done|].
    intros j Hj. pose proof (slot_index_lt j Hj).
    eapply all_used; [|..|reflexivity]; [lia|]. apply Z.eqb_eq, negb_false_iff, E. lia.
Qed.

Lemma allocate_slot_spec_of s slot s' :
  swap_wf s -> allocate_slot s = (Some slot, s') ->
  swap_wf s' /\ (slot < SLOTS)%nat /\ used s slot = false /\
  forall j, used s' j = used s j || (slot =? j)%nat.
Proof. intros Hs E. pose proof (allocate_slot_spec s Hs) as H. rewrite E in H. tauto. Qed.

(** The swap bitmap is a set of slots.  [allocate_slot] hands out the
    lowest free slot, marks it and nothing else, and fails only when all
    [SLOTS] are used. *)
Theorem allocate_slot_lowest_free s :
  swap_wf s ->
  let '(r, s') := allocate_slot s in
  swap_wf s' /\
  match r with
  | Some slot =>
      (slot < SLOTS)%nat /\ used s slot = false /\
      (forall j, (j < slot)%nat -> used s j = true) /\
      (forall j, used s' j = used s j || (slot =? j)%nat)
  | None => s' = s /\ forall j, (j < SLOTS)%nat -> used s j = true
  end.
Proof. apply allocate_slot_spec. Qed.

Lemma allocate_slot_lowest_free_witness :
  let s := mkSwap (u64_max :: 5 :: replicate 30 0) 0 0 in
  swap_wf s /\ (allocate_slot s).1 = Some 65%nat /\
  (let '(r, s') := allocate_slot s in swap_wf s' /\
   match r with
   | Some slot =>
       (slot < SLOTS)%nat /\ used s slot = false /\
       (forall j, (j < slot)%nat -> used s j = true) /\
       (forall j, used s' j = used s j || (slot =? j)%nat)
   | None => s' = s /\ forall j, (j < SLOTS)%nat -> used s j = true
   end).
Proof.
  assert (H : swap_wf (mkSwap (u64_max :: 5 :: replicate 30 0) 0 0)).
  { split; [done|]. repeat constructor; by vm_compute. }
  split; [exact H|]. split; [by vm_compute|]. exact (allocate_slot_lowest_free _ H).
Defined.

(** ** Freeing, counting, placing *)

Lemma free_slot_spec slot s :
  swap_wf s -> (slot < SLOTS)%nat ->
  swap_wf (free_slot slot s) /\
  forall j, used (free_slot slot s) j = used s j && negb (slot =? j)%nat.
Proof.
  intros [Hl Hu] Hs. unfold free_slot. destruct (Nat.leb_spec SLOTS slot); [lia|]. cbn zeta.
  pose proof (slot_index_lt slot Hs) as Hi. split; [split; cbn [USED]|].
  - by rewrite length_insert.
  - apply Forall_insert; [done|]. apply clear_bit_in_u; [done|].
    eapply Forall_lookup_1; [exact Hu|]. apply list_lookup_lookup_total_lt. lia.
  - intros j. unfold used. cbn [USED]. rewrite list_insert_total by lia.
    pose proof (Nat.div_mod_eq j 64). pose proof (Nat.div_mod_eq slot 64).
    case_decide as Ed.
    + rewrite clear_bit_spec, <- Ed. do 2 f_equal. apply eq_bool_prop_intro.
      rewrite !Is_true_true, !Nat.eqb_eq. lia.
    + rewrite (proj2 (Nat.eqb_neq slot j)); [by rewrite andb_true_r|]. by intros ->.
Qed.

Definition use_count (s : Swap) : nat := length (List.filter (used s) (seq 0 SLOTS)).

Lemma filter_map_length {A B} (f : B -> bool) (g : A -> B) l :
  length (List.filter f (map g l)) = length (List.filter (fun x => f (g x)) l).
Proof. induction l as [|x l IH]; cbn; [done|]. destruct (f (g x)); cbn; by rewrite IH. Qed.

(** Counting the ones of the words is counting the used slots. *)
Lemma stats_use_count s : swap_wf s -> (stats s).1.1 = use_count s.
Proof.
  intros [Hl _]. cbn. unfold use_count.
  assert (H : forall n, (n <= length (USED s))%nat ->
    list_sum (map count_ones (take n (USED s))) = length (List.filter (used s) (seq 0 (n * 64)))).
  { induction n as [|n IH]; intros Hn; [done|].
    destruct (lookup_lt_is_Some_2 (USED s) n) as [w Hw]; [lia|].
    rewrite (take_S_r _ _ _ Hw), map_app, list_sum_app, IH by lia.
    replace (S n * 64)%nat with (n * 64 + 64)%nat by lia.
    rewrite seq_app, List.filter_app, length_app. f_equal. cbn [map list_sum fold_right].
    rewrite Nat.add_0_r. unfold count_ones. cbn [Nat.add].
    replace (seq (n * 64) 64) with (map (fun b => n * 64 + b)%nat (seq 0 64)).
    2: { change (map ?f ?l) with (f <$> l). by rewrite fmap_add_seq, Nat.add_0_r. }
    rewrite filter_map_length. f_equal. apply filter_ext_in. intros b Hb%in_seq.
    destruct (div_mod_slot n b) as [Hd Hm]; [lia|]. unfold used. rewrite Hd, Hm.
    by rewrite (list_lookup_total_correct _ _ _ Hw). }
  rewrite <- (firstn_all (USED s)), H by lia. by rewrite Hl.
Qed.

Lemma filter_one (f g : nat -> bool) slot l :
  NoDup l -> slot ∈ l -> f slot = false ->
  (forall j, g j = f j || (slot =? j)%nat) ->
  length (List.filter g l) = S (length (List.filter f l)).
Proof.
  intros Hnd Hin Hf Hg. induction Hnd as [|x l Hx Hnd IH]; [by apply not_elem_of_nil in Hin|].
  cbn. rewrite Hg. destruct (Nat.eqb_spec slot x) as [->|Hne].
  - rewrite Hf, orb_true_r. cbn. do 2 f_equal. apply filter_ext_in. intros j Hj.
    rewrite Hg. rewrite (proj2 (Nat.eqb_neq x j)); [by rewrite orb_false_r|].
    intros ->. by apply Hx, list_elem_of_In.
  - rewrite orb_false_r. apply elem_of_cons in Hin as [|Hin]; [congruence|].
    destruct (f x); cbn; by rewrite IH.
Qed.

(** Freeing undoes allocating, whatever happened to other slots in
    between is left alone, freeing twice is harmless, and the count that
    [stats] reports moves by exactly one each way. *)
Theorem swap_round_trip s slot s' :
  swap_wf s -> allocate_slot s = (Some slot, s') ->
  (stats s').1.1 = S (stats s).1.1 /\
  (stats (free_slot slot s')).1.1 = (stats s).1.1 /\
  (forall j, used (free_slot slot s') j = used s j) /\
  (forall j, used (free_slot slot (free_slot slot s')) j = used s j).
Proof.
  intros Hs E. pose proof (allocate_slot_spec_of s slot s' Hs E) as (Hwf & Hlt & Hfree & Hused).
  destruct (free_slot_spec slot s' Hwf Hlt) as [Hfwf Hf].
  destruct (free_slot_spec slot _ Hfwf Hlt) as [_ Hff].
  assert (Hback : forall j, used (free_slot slot s') j = used s j).
  { intros j. rewrite Hf, Hused. destruct (Nat.eqb_spec slot j) as [<-|]; cbn.
    - by rewrite andb_false_r.
    - by rewrite orb_false_r, andb_true_r. }
  split_and!.
  - rewrite !stats_use_count by done. unfold use_count.
    apply (filter_one _ _ slot); [apply NoDup_seq|apply elem_of_seq; lia|done|done].
  - rewrite !stats_use_count by done. unfold use_count. f_equal. by apply filter_ext.
  - done.
  - intros j. rewrite Hff, Hback. destruct (Nat.eqb_spec slot j) as [<-|]; cbn.
    + by rewrite andb_false_r.
    + by rewrite andb_true_r.
Qed.

Lemma swap_round_trip_witness :
  let s := mkSwap (u64_max :: 5 :: replicate 30 0) 0 0 in
  (stats (allocate_slot s).2).1.1 = 67%nat /\
  (stats (free_slot 65 (allocate_slot s).2)).1.1 = (stats s).1.1.
Proof.
  split; [by vm_compute|].
  apply (swap_round_trip (mkSwap (u64_max :: 5 :: replicate 30 0) 0 0) 65).
  - split; [done|]. repeat constructor; by vm_compute.
  - by vm_compute.
Defined.

(** A slot's sectors are its own: they lie past the filesystem, below
    the 28-bit limit of the drive, the address does not wrap, and two slots
    never share a sector. *)
Theorem slots_are_disjoint a b i j :
  (a < SLOTS)%nat -> (b < SLOTS)%nat -> 0 <= i < SECTORS_PER_PAGE -> 0 <= j < SECTORS_PER_PAGE ->
  SWAP_START <= slot_lba a + i < 2 ^ 28 /\
  (slot_lba a + i = slot_lba b + j -> a = b /\ i = j).
Proof.
  intros Ha Hb Hi Hj.
  assert (H : forall n, (n < SLOTS)%nat -> slot_lba n = SWAP_START + 8 * Z.of_nat n).
  { intros n Hn. unfold SLOTS in Hn. unfold slot_lba, SWAP_START, SECTORS_PER_PAGE.
    rewrite (wrap_small 32 (Z.of_nat n)), (wrap_small 32 (_ * _)), wrap_small
      by (unfold in_u; lia). lia. }
  rewrite !H by done. unfold SWAP_START, SECTORS_PER_PAGE, SLOTS in *. lia.
Qed.

Lemma slots_are_disjoint_witness :
  SWAP_START <= slot_lba 2047 + 7 < 2 ^ 28 /\ (slot_lba 2047 + 7 = slot_lba 0 + 7 -> 2047%nat = 0%nat /\ 7 = 7).
Proof. apply slots_are_disjoint; unfold SLOTS, SECTORS_PER_PAGE; lia. Defined.
