(* ===== verification/Pipe.v ===== *)
(** * Pipes: [kernel/src/pipe.rs]

    The ring buffer, its end counts, and the atomic pieces of [read] and
    [write]: what each does inside its critical section.  How those pieces
    interleave, block and wake is in [PipeSys]. *)

From S2P Require Import Prelude.

Definition CAPACITY : nat := 512.
Definition MAX_PIPES : nat := 8.
#[global] Arguments CAPACITY : simpl never.
#[global] Arguments MAX_PIPES : simpl never.

Record Pipe := mkPipe {
  buffer : list Z; head : nat; tail : nat; len : nat;
  readers : Z; writers : Z; in_use : bool
}.

Definition Pipe_empty : Pipe := mkPipe (replicate CAPACITY 0) 0 0 0 0 0 false.
#[export] Instance Pipe_inhabited : Inhabited Pipe := populate Pipe_empty.

Definition Pipe_eta (r : Pipe) : Pipe :=
  mkPipe (buffer r) (head r) (tail r) (len r) (readers r) (writers r) (in_use r).
#[export] Instance set_buffer : Setter buffer := fun v r => ltac:(setter Pipe_eta buffer v r).
#[export] Instance set_head : Setter head := fun v r => ltac:(setter Pipe_eta head v r).
#[export] Instance set_tail : Setter tail := fun v r => ltac:(setter Pipe_eta tail v r).
#[export] Instance set_len : Setter len := fun v r => ltac:(setter Pipe_eta len v r).
#[export] Instance set_readers : Setter readers := fun v r => ltac:(setter Pipe_eta readers v r).
#[export] Instance set_writers : Setter writers := fun v r => ltac:(setter Pipe_eta writers v r).
#[export] Instance set_in_use : Setter in_use := fun v r => ltac:(setter Pipe_eta in_use v r).

Abbreviation Pipes := (list Pipe).
Definition PIPES_init : Pipes := replicate MAX_PIPES Pipe_empty.

Definition readable_channel (id : nat) : Z := 2415919104 + Z.of_nat id.
Definition writable_channel (id : nat) : Z := 2432696320 + Z.of_nat id.

(** [pipes()[id].f = v]. *)
Definition update_pipe (id : nat) (f : Pipe -> Pipe) (ps : Pipes) : Pipes :=
  <[id := f (ps !!! id)]> ps.

(** ** Ends *)

Definition create (ps : Pipes) : option nat * Pipes :=
  match range_find 0 (length ps) (fun id => negb (in_use (ps !!! id))) with
  | Some id =>
      (Some id, update_pipe id
                  (fun _ => Pipe_empty <| in_use := true |> <| readers := 1 |> <| writers := 1 |>) ps)
  | None => (None, ps)
  end.

Definition add_reader (p : Pipe) : Pipe := p <| readers := readers p +₃₂ 1 |>.
Definition add_writer (p : Pipe) : Pipe := p <| writers := writers p +₃₂ 1 |>.

Definition release_if_closed (p : Pipe) : Pipe :=
  if (readers p =? 0) && (writers p =? 0) then p <| in_use := false |> else p.

(** The critical sections of [close_reader] and [close_writer]; both wake
    the other side afterwards. *)
Definition close_reader (p : Pipe) : Pipe :=
  release_if_closed (p <| readers := sat_sub (readers p) 1 |>).
Definition close_writer (p : Pipe) : Pipe :=
  release_if_closed (p <| writers := sat_sub (writers p) 1 |>).

(** ** The critical section of [read] *)

(** [*slot = buffer[tail]; tail = (tail + 1) % CAPACITY], [count] times. *)
Fixpoint pop (count : nat) (p : Pipe) : list Z * Pipe :=
  match count with
  | O => ([], p)
  | S count =>
      let byte := buffer p !!! tail p in
      let '(bytes, p') := pop count (p <| tail := ((tail p + 1) mod CAPACITY)%nat |>) in
      (byte :: bytes, p')
  end.

(** [None]: empty, but a writer exists. *)
Definition read_attempt (out_len : nat) (p : Pipe) : option (list Z) * Pipe :=
  if (len p =? 0)%nat
  then (if writers p =? 0 then Some [] else None, p)
  else
    let count := Nat.min (len p) out_len in
    let '(bytes, p) := pop count p in
    (Some bytes, p <| len := (len p - count)%nat |>).

(** The condition a blocked reader waits for. *)
Definition can_read (p : Pipe) : bool := (0 <? len p)%nat || (writers p =? 0).

(** ** The critical section of [write] *)

Fixpoint push (bytes : list Z) (p : Pipe) : Pipe :=
  match bytes with
  | [] => p
  | byte :: bytes =>
      push bytes (p <| buffer := <[head p := byte]> (buffer p) |>
                    <| head := ((head p + 1) mod CAPACITY)%nat |>)
  end.

(** What is left to write goes in as far as it fits.  [None]: no readers. *)
Definition write_attempt (rest : list Z) (p : Pipe) : option nat * Pipe :=
  if readers p =? 0 then (None, p)
  else
    let room := (CAPACITY - len p)%nat in
    if (room =? 0)%nat then (Some 0%nat, p)
    else
      let count := Nat.min room (length rest) in
      let p := push (take count rest) p in
      (Some count, p <| len := (len p + count)%nat |>).

Definition can_write (p : Pipe) : bool := (len p <? CAPACITY)%nat || (readers p =? 0).

Definition stats (id : nat) (ps : Pipes) : nat * Z * Z :=
  let p := ps !!! id in (len p, readers p, writers p).

(** ** The queue the ring stands for *)

Definition ring (p : Pipe) (i : nat) : nat := ((tail p + i) mod CAPACITY)%nat.
Definition contents (p : Pipe) : list Z := map (fun i => buffer p !!! ring p i) (seq 0 (len p)).

Record pipe_wf (p : Pipe) : Prop := {
  wf_buffer : length (buffer p) = CAPACITY;
  wf_tail : (tail p < CAPACITY)%nat;
  wf_len : (len p <= CAPACITY)%nat;
  wf_head : head p = ring p (len p)
}.

Lemma CAPACITY_pos : (0 < CAPACITY)%nat.
Proof. by apply Nat.ltb_lt. Qed.

Lemma contents_length p : length (contents p) = len p.
Proof. unfold contents. by rewrite length_map, length_seq. Qed.

Lemma Pipe_empty_wf : pipe_wf Pipe_empty.
Proof. constructor; try done; cbn; pose proof CAPACITY_pos; lia. Qed.

Lemma ring_shift p i t :
  ring (p <| tail := ((tail p + t) mod CAPACITY)%nat |>) i = ring p (t + i).
Proof. unfold ring. cbn. rewrite Nat.Div0.add_mod_idemp_l. f_equal. lia. Qed.

Lemma ring_0 p : (tail p < CAPACITY)%nat -> ring p 0 = tail p.
Proof. intros. unfold ring. rewrite Nat.add_0_r. by apply Nat.mod_small. Qed.

Lemma ring_lt p i : (ring p i < CAPACITY)%nat.
Proof. apply Nat.mod_upper_bound. pose proof CAPACITY_pos. lia. Qed.

Lemma ring_inj p i j : (i < CAPACITY)%nat -> (j < CAPACITY)%nat -> ring p i = ring p j -> i = j.
Proof.
  intros Hi Hj E. destruct (Nat.lt_total i j) as [Hl|[->|Hl]]; [|done|]; exfalso.
  - apply (ring_distinct CAPACITY (tail p + i) (tail p + j)); [lia..|done].
  - apply (ring_distinct CAPACITY (tail p + j) (tail p + i)); [lia..|done].
Qed.

Lemma ring_succ p i : ring p (S i) = ((ring p i + 1) mod CAPACITY)%nat.
Proof. unfold ring. rewrite Nat.Div0.add_mod_idemp_l. f_equal. lia. Qed.

Lemma pop_spec count p :
  (tail p < CAPACITY)%nat ->
  pop count p = (map (fun i => buffer p !!! ring p i) (seq 0 count), p <| tail := ring p count |>).
Proof.
  revert p. induction count as [|count IH]; intros p Ht; cbn [pop].
  { rewrite ring_0 by done. by destruct p. }
  rewrite IH; [|cbn; apply Nat.mod_upper_bound; lia]. cbn [seq map]. f_equal; [f_equal|].
  - by rewrite ring_0.
  - rewrite <- seq_shift, map_map. apply map_ext. intros i. by rewrite ring_shift.
  - rewrite ring_shift. by destruct p.
Qed.

(** [push] at distance [k] from the tail. *)
Lemma push_spec bytes p k :
  length (buffer p) = CAPACITY -> head p = ring p k -> (k + length bytes <= CAPACITY)%nat ->
  exists b, push bytes p = p <| buffer := b |> <| head := ring p (k + length bytes) |> /\
    length b = CAPACITY /\
    forall i, (i < CAPACITY)%nat ->
      b !!! ring p i = if decide (k <= i < k + length bytes)%nat
                       then bytes !!! (i - k)%nat else buffer p !!! ring p i.
Proof.
  revert p k. induction bytes as [|byte bytes IH]; intros p k Hb Hh Hk; cbn [push length] in *.
  { exists (buffer p). split_and!; [rewrite Nat.add_0_r, <- Hh; by destruct p|done|].
    intros i Hi. rewrite decide_False by lia. done. }
  match goal with |- context [push bytes ?r] => set (p' := r) end.
  destruct (IH p' (S k)) as (b & E & Hlen & Hl).
  - cbn. by rewrite length_insert.
  - change (((head p + 1) mod CAPACITY)%nat = ring p (S k)). by rewrite Hh, ring_succ.
  - lia.
  - exists b. split_and!; [|done|].
    + rewrite E. replace (k + S (length bytes))%nat with (S k + length bytes)%nat by lia. done.
    + intros i Hi. change (ring p i) with (ring p' i). rewrite Hl by done.
      change (ring p' i) with (ring p i). unfold p'. cbn [buffer set_field set_head set_buffer].
      rewrite Hh, list_insert_total by (rewrite Hb; apply ring_lt).
      destruct (decide (i = k)) as [->|Hne].
      * rewrite (decide_False (P := (S k <= k < S k + length bytes)%nat)) by lia.
        rewrite (decide_True (P := ring p k = ring p k)) by done.
        rewrite decide_True by lia. by rewrite Nat.sub_diag.
      * rewrite (decide_False (P := ring p k = ring p i))
          by (intros E2; apply ring_inj in E2; lia).
        repeat case_decide; try lia.
        replace (i - k)%nat with (S (i - S k)) by lia. done.
Qed.

Lemma seq_shift_by k n : seq k n = map (Nat.add k) (seq 0 n).
Proof.
  revert k. induction n as [|n IH]; intros k; [done|]. cbn [seq map]. rewrite Nat.add_0_r. f_equal.
  rewrite (IH (S k)), <- seq_shift, map_map. apply map_ext. intros i. lia.
Qed.

Lemma map_lookup_seq {A} `{Inhabited A} (l : list A) :
  map (fun i => l !!! i) (seq 0 (length l)) = l.
Proof.
  induction l as [|x l IH]; [done|]. cbn [length seq map]. f_equal.
  rewrite <- seq_shift, map_map. exact IH.
Qed.

(** ** Both critical sections, as operations on the queue *)

Lemma contents_ext p q :
  len p = len q -> (forall i, (i < len p)%nat -> buffer p !!! ring p i = buffer q !!! ring q i) ->
  contents p = contents q.
Proof.
  intros Hl H. unfold contents. rewrite <- Hl. apply map_ext_in. intros i Hi%in_seq. apply H. lia.
Qed.

Lemma read_attempt_spec n p :
  pipe_wf p ->
  let '(r, p') := read_attempt n p in
  pipe_wf p' /\ readers p' = readers p /\ writers p' = writers p /\ in_use p' = in_use p /\
  match r with
  | Some bytes =>
      contents p = bytes ++ contents p' /\ length bytes = Nat.min n (len p) /\
      (len p = 0%nat -> writers p = 0)
  | None => p' = p /\ len p = 0%nat /\ writers p <> 0
  end.
Proof.
  intros Hp. pose proof Hp as [Hb Ht Hl Hh]. unfold read_attempt.
  destruct (Nat.eqb_spec (len p) 0) as [E|E].
  { destruct (Z.eqb_spec (writers p) 0); [|done]. split_and!; try done. by rewrite E, Nat.min_0_r. }
  rewrite pop_spec by done. set (c := Nat.min (len p) n).
  assert (Hring : forall i, ring (p <| tail := ring p c |> <| len := (len p - c)%nat |>) i = ring p (c + i))
    by (intros; apply (ring_shift p i c)).
  split_and!; try done.
  - constructor; cbn [buffer tail len head set_field set_tail set_len]; try done.
    + apply ring_lt.
    + lia.
    + change (head p = ring (p <| tail := ring p c |> <| len := (len p - c)%nat |>) (len p - c)).
      rewrite Hring, Hh. f_equal. lia.
  - unfold contents. cbn [len set_field set_tail set_len].
    replace (len p) with (c + (len p - c))%nat at 1 by lia.
    rewrite seq_app, map_app. f_equal. cbn [Nat.add].
    rewrite (seq_shift_by c), map_map. apply map_ext. intros i. by rewrite Hring.
  - rewrite length_map, length_seq. lia.
Qed.

Lemma write_attempt_spec rest p :
  pipe_wf p ->
  let '(r, p') := write_attempt rest p in
  pipe_wf p' /\ readers p' = readers p /\ writers p' = writers p /\ in_use p' = in_use p /\
  match r with
  | Some count =>
      readers p <> 0 /\ contents p' = contents p ++ take count rest /\
      count = Nat.min (CAPACITY - len p) (length rest)
  | None => p' = p /\ readers p = 0
  end.
Proof.
  intros Hp. pose proof Hp as [Hb Ht Hl Hh]. unfold write_attempt.
  destruct (Z.eqb_spec (readers p) 0) as [E|E]; [done|].
  destruct (Nat.eqb_spec (CAPACITY - len p) 0) as [E2|E2].
  { split_and!; try done; [by rewrite app_nil_r|lia]. }
  set (c := Nat.min _ _). assert (Hc : length (take c rest) = c) by (rewrite length_take; lia).
  destruct (push_spec (take c rest) p (len p) Hb Hh ltac:(lia)) as (b & Ep & Hlb & Hbs).
  rewrite Ep, Hc in *. split_and!; try done.
  - constructor; cbn [buffer tail len head set_field set_buffer set_head set_len]; try done. lia.
  - unfold contents at 1. cbn [len set_field set_len].
    rewrite seq_app, map_app. f_equal; cbn [Nat.add].
    + apply map_ext_in. intros i Hi%in_seq.
      change (b !!! ring p i = buffer p !!! ring p i). rewrite Hbs by lia.
      by rewrite decide_False by lia.
    + rewrite (seq_shift_by (len p)), map_map.
      transitivity (map (fun i => take c rest !!! i) (seq 0 c)).
      * apply map_ext_in. intros i Hi%in_seq.
        change (b !!! ring p (len p + i) = take c rest !!! i). rewrite Hbs by lia.
        rewrite decide_True by lia. f_equal. lia.
      * pose proof (map_lookup_seq (take c rest)) as Hm. by rewrite Hc in Hm.
Qed.

(** The edges of a pipe.  A read waits exactly when the pipe is empty and
    a writer exists; it returns nothing exactly at end of file, or when it
    asked for nothing; a write is refused exactly when no reader exists, and
    has to wait exactly when the pipe is full. *)
Theorem pipe_edges n rest p :
  pipe_wf p -> rest <> [] ->
  ((read_attempt n p).1 = None <-> contents p = [] /\ writers p <> 0) /\
  ((read_attempt n p).1 = Some [] <->
     (contents p = [] /\ writers p = 0) \/ (contents p <> [] /\ n = 0%nat)) /\
  ((write_attempt rest p).1 = None <-> readers p = 0) /\
  ((write_attempt rest p).1 = Some 0%nat <-> readers p <> 0 /\ length (contents p) = CAPACITY).
Proof.
  intros Hp Hrest. pose proof (wf_len p Hp) as Hl. pose proof (contents_length p) as Hc.
  pose proof (read_attempt_spec n p Hp) as Hr. pose proof (write_attempt_spec rest p Hp) as Hw.
  destruct (read_attempt n p) as [r p1], (write_attempt rest p) as [w p2]. cbn [fst].
  destruct Hr as (_ & _ & _ & _ & Hr), Hw as (_ & _ & _ & _ & Hw).
  assert (Hne : length rest <> 0%nat) by (by destruct rest).
  split_and!.
  - destruct r as [bytes|].
    + destruct Hr as (_ & _ & H0). split; [done|]. intros [E Hwr]. exfalso. apply Hwr, H0.
      by rewrite <- Hc, E.
    + destruct Hr as (_ & E & Hwr). split; [|done]. intros _. split; [|done].
      apply nil_length_inv. congruence.
  - destruct r as [bytes|].
    + destruct Hr as (Eb & Hlen & H0). split.
      * intros [= ->]. cbn in Hlen. destruct (contents p) as [|b bs]; cbn in Hc.
        -- left. split; [done|]. by apply H0.
        -- right. split; [done|]. lia.
      * intros H. f_equal. apply nil_length_inv. rewrite Hlen.
        destruct H as [[E _]|[_ ->]]; [rewrite E in Hc; cbn in Hc|]; lia.
    + destruct Hr as (_ & E & Hwr). split; [done|]. intros [[_ ?]|[Hn _]]; [done|].
      exfalso. apply Hn, nil_length_inv. congruence.
  - destruct w as [c|]; [|tauto]. destruct Hw as (Hrd & _). split; [done|]. by intros ?.
  - destruct w as [c|].
    + destruct Hw as (Hrd & _ & Hcount). rewrite Hc. split.
      * intros [= ->]. split; [done|]. lia.
      * intros [_ E]. f_equal. lia.
    + destruct Hw as [_ E]. split; [done|]. by intros [? _].
Qed.

Lemma pipe_edges_witness :
  let p := Pipe_empty <| readers := 1 |> <| writers := 1 |> in
  pipe_wf p /\ ((read_attempt 4 p).1 = None <-> contents p = [] /\ writers p <> 0).
Proof.
  assert (H : pipe_wf (Pipe_empty <| readers := 1 |> <| writers := 1 |>)).
  { pose proof CAPACITY_pos. constructor; cbn; (done || lia). }
  split; [exact H|]. by apply (pipe_edges 4 [1] _ H).
Defined.
