(* ===== verification/PipeSys.v ===== *)
(** * Readers and writers of one pipe, interleaved

    [read], [write] and the two [close]s of [kernel/src/pipe.rs] cut at the
    ends of their critical sections, with [task::park] and [task::wake_all]
    between: every task of the machine may be anywhere inside any of them.
    What is proved: no byte is lost, duplicated or reordered, and no wakeup
    is lost. *)

From stdpp Require Import relations.
From S2P Require Import Prelude TaskTable Pipe.

#[local] Arguments Nat.ltb : simpl never.

(** Where a task is. *)
Inductive PC :=
| Idle
| ReadTop (n : nat)                        (* about to enter [read]'s section *)
| ReadBlock (n : nat)                      (* in [block_until(readable)] *)
| ReadWake (bytes : list Z)                (* took bytes; wakes the writers next *)
| WriteTop (data : list Z) (written : nat) (* the head of [write]'s loop *)
| WriteFull (data : list Z) (written : nat)  (* found it full; wakes the readers next *)
| WriteBlock (data : list Z) (written : nat) (* in [block_until(writable)] *)
| WriteWake (written : nat)                (* placed bytes; wakes the readers, returns *)
| ClosedReader                             (* closed a read end; wakes the writers next *)
| ClosedWriter.                            (* closed a write end; wakes the readers next *)

#[export] Instance PC_inhabited : Inhabited PC := populate Idle.

(** [sent] and [received] are the histories of the bytes placed and taken. *)
Record Sys := mkSys {
  pipe : Pipe; table : Table; pcs : list PC; sent : list Z; received : list Z
}.

Definition Sys_eta (r : Sys) : Sys := mkSys (pipe r) (table r) (pcs r) (sent r) (received r).
#[export] Instance set_pipe : Setter pipe := fun v r => ltac:(setter Sys_eta pipe v r).
#[export] Instance set_table : Setter table := fun v r => ltac:(setter Sys_eta table v r).
#[export] Instance set_sent : Setter sent := fun v r => ltac:(setter Sys_eta sent v r).
#[export] Instance set_received : Setter received := fun v r => ltac:(setter Sys_eta received v r).

Definition goto (i : nat) (pc : PC) (s : Sys) : Sys :=
  mkSys (pipe s) (table s) (<[i := pc]> (pcs s)) (sent s) (received s).

Section system.
Context (id : nat).

Abbreviation readable := (readable_channel id).
Abbreviation writable := (writable_channel id).

Definition wake (channel : Z) (s : Sys) : Sys := s <| table := (wake_all channel (table s)).2 |>.
Definition block (i : nat) (channel : Z) (s : Sys) : Sys := s <| table := park i channel (table s) |>.

(** Leaving [write]: wake the readers if anything was placed. *)
Definition write_done (i written : nat) (s : Sys) : Sys :=
  if (0 <? written)%nat then goto i (WriteWake written) s else goto i Idle s.

(** Task [i] runs to its next scheduling point. *)
Definition turn (i : nat) (s : Sys) : Sys :=
  match pcs s !!! i with
  | Idle => s
  | ReadTop n =>
      let '(r, p) := read_attempt n (pipe s) in
      let s := s <| pipe := p |> in
      match r with
      | Some [] => goto i Idle s
      | Some bytes => goto i (ReadWake bytes) (s <| received := received s ++ bytes |>)
      | None => goto i (ReadBlock n) s
      end
  | ReadBlock n => if can_read (pipe s) then goto i (ReadTop n) s else block i readable s
  | ReadWake _ => goto i Idle (wake writable s)
  | WriteTop data written =>
      if (length data <=? written)%nat then write_done i written s
      else
        let '(r, p) := write_attempt (drop written data) (pipe s) in
        match r with
        | None => write_done i written s
        | Some O => goto i (WriteFull data written) s
        | Some count =>
            goto i (WriteTop data (written + count))
              (s <| pipe := p |> <| sent := sent s ++ take count (drop written data) |>)
        end
  | WriteFull data written => goto i (WriteBlock data written) (wake readable s)
  | WriteBlock data written =>
      if can_write (pipe s) then goto i (WriteTop data written) s else block i writable s
  | WriteWake _ => goto i Idle (wake readable s)
  | ClosedReader => goto i Idle (wake writable s)
  | ClosedWriter => goto i Idle (wake readable s)
  end.

(** A runnable task runs; an idle one enters a call; ends are added (there
    are far fewer than 2^32 descriptors) and closed; and the rest of the
    kernel does what it likes to the table, short of putting a task to sleep
    on this pipe: a sleeper woken for another reason tests its condition
    again. *)
Inductive step : Sys -> Sys -> Prop :=
| step_turn i s :
    (i < MAX_TASKS)%nat -> state (table s !!! i) = State.Ready -> step s (turn i s)
| step_read i n s :
    (i < MAX_TASKS)%nat -> pcs s !!! i = Idle -> step s (goto i (ReadTop n) s)
| step_write i data s :
    (i < MAX_TASKS)%nat -> pcs s !!! i = Idle -> step s (goto i (WriteTop data 0) s)
| step_add_reader s :
    readers (pipe s) < u32_max -> step s (s <| pipe := add_reader (pipe s) |>)
| step_add_writer s :
    writers (pipe s) < u32_max -> step s (s <| pipe := add_writer (pipe s) |>)
| step_close_reader i s :
    (i < MAX_TASKS)%nat -> pcs s !!! i = Idle ->
    step s (goto i ClosedReader (s <| pipe := close_reader (pipe s) |>))
| step_close_writer i s :
    (i < MAX_TASKS)%nat -> pcs s !!! i = Idle ->
    step s (goto i ClosedWriter (s <| pipe := close_writer (pipe s) |>))
| step_other ts s :
    table_wf ts ->
    (forall i c, state (ts !!! i) = State.Blocked (Reason.Channel c) ->
       c = readable \/ c = writable -> state (table s !!! i) = State.Blocked (Reason.Channel c)) ->
    step s (s <| table := ts |>).

(** A fresh pipe among tasks that are not asleep on it. *)
Definition start (ts : Table) : Sys :=
  mkSys (Pipe_empty <| in_use := true |> <| readers := 1 |> <| writers := 1 |>)
    ts (replicate MAX_TASKS Idle) [] [].

Definition parked (s : Sys) (i : nat) (channel : Z) : Prop :=
  state (table s !!! i) = State.Blocked (Reason.Channel channel).

Definition awake_on_pipe (ts : Table) : Prop :=
  forall i, (i < MAX_TASKS)%nat ->
    state (ts !!! i) <> State.Blocked (Reason.Channel readable) /\
    state (ts !!! i) <> State.Blocked (Reason.Channel writable).

Definition reachable (s : Sys) : Prop :=
  exists ts, table_wf ts /\ awake_on_pipe ts /\ rtc step (start ts) s.

(** A task on its way to waking the readers, or the writers. *)
Definition owes_readers (pc : PC) : bool :=
  match pc with
  | WriteTop _ written => (0 <? written)%nat
  | WriteFull _ _ | WriteWake _ | ClosedWriter => true
  | _ => false
  end.
Definition owes_writers (pc : PC) : bool :=
  match pc with ReadWake _ | ClosedReader => true | _ => false end.

Definition someone (s : Sys) (f : PC -> bool) : Prop :=
  exists j, (j < MAX_TASKS)%nat /\ f (pcs s !!! j) = true.

(** ** The invariant *)

Record inv (s : Sys) : Prop := {
  inv_pipe : pipe_wf (pipe s);
  inv_readers_u32 : in_u 32 (readers (pipe s));
  inv_writers_u32 : in_u 32 (writers (pipe s));
  inv_table : table_wf (table s);
  inv_pcs : length (pcs s) = MAX_TASKS;
  inv_bytes : sent s = received s ++ contents (pipe s);
  inv_reader i :
    (i < MAX_TASKS)%nat -> parked s i readable -> exists n, pcs s !!! i = ReadBlock n;
  inv_writer i :
    (i < MAX_TASKS)%nat -> parked s i writable ->
    exists data written, pcs s !!! i = WriteBlock data written;
  inv_readers_owed i :
    (i < MAX_TASKS)%nat -> parked s i readable -> can_read (pipe s) = true ->
    someone s owes_readers;
  inv_writers_owed i :
    (i < MAX_TASKS)%nat -> parked s i writable -> can_write (pipe s) = true ->
    someone s owes_writers
}.

Lemma channels_differ : readable <> writable.
Proof. unfold readable_channel, writable_channel. lia. Qed.

Definition not_parked (s : Sys) (i : nat) : Prop := ~ parked s i readable /\ ~ parked s i writable.

Lemma pcs_lookup s i pc j :
  inv s -> (i < MAX_TASKS)%nat ->
  pcs (goto i pc s) !!! j = if decide (i = j) then pc else pcs s !!! j.
Proof. intros H Hi. apply list_insert_total. by rewrite (inv_pcs s H). Qed.

(** Someone who owed still owes after [i] moves, if [i]'s own debt is kept. *)
Lemma someone_goto s i pc f t :
  inv s -> (i < MAX_TASKS)%nat -> (f (pcs s !!! i) = true -> f pc = true) ->
  pcs t = pcs (goto i pc s) -> someone s f \/ f pc = true -> someone t f.
Proof.
  intros Hinv Hi Hf Ht Hs. unfold someone. rewrite Ht.
  destruct (decide (f pc = true)) as [Hpc|Hpc].
  - exists i. split; [done|]. rewrite pcs_lookup by done. by rewrite decide_True.
  - destruct Hs as [(j & Hj & Hfj)|]; [|done]. exists j. split; [done|].
    rewrite pcs_lookup by done. case_decide; [subst; tauto|done].
Qed.

(** [i] moves on, perhaps changing the pipe, without sleeping or waking. *)
Lemma update_inv s i pc p sn rc :
  inv s -> (i < MAX_TASKS)%nat -> not_parked s i ->
  pipe_wf p -> in_u 32 (readers p) -> in_u 32 (writers p) -> sn = rc ++ contents p ->
  (can_read p = true -> can_read (pipe s) = true \/ owes_readers pc = true) ->
  (can_write p = true -> can_write (pipe s) = true \/ owes_writers pc = true) ->
  (owes_readers (pcs s !!! i) = true -> owes_readers pc = true) ->
  (owes_writers (pcs s !!! i) = true -> owes_writers pc = true) ->
  inv (mkSys p (table s) (<[i := pc]> (pcs s)) sn rc).
Proof.
  intros Hinv Hi [Hnr Hnw] Hp Hr Hw Hb Hcr Hcw Hor How. constructor; try done; cbn [pipe table pcs].
  - apply Hinv.
  - rewrite length_insert. apply Hinv.
  - intros j Hj Hpark. change (<[i:=pc]> (pcs s)) with (pcs (goto i pc s)).
    rewrite pcs_lookup by done. case_decide; [by subst|]. by apply (inv_reader s Hinv).
  - intros j Hj Hpark. change (<[i:=pc]> (pcs s)) with (pcs (goto i pc s)).
    rewrite pcs_lookup by done. case_decide; [by subst|]. by apply (inv_writer s Hinv).
  - intros j Hj Hpark Hc. apply (someone_goto s i pc); [done..|].
    destruct (Hcr Hc) as [Hc'|]; [left|by right]. by apply (inv_readers_owed s Hinv j).
  - intros j Hj Hpark Hc. apply (someone_goto s i pc); [done..|].
    destruct (Hcw Hc) as [Hc'|]; [left|by right]. by apply (inv_writers_owed s Hinv j).
Qed.

Lemma goto_inv s i pc :
  inv s -> (i < MAX_TASKS)%nat -> not_parked s i ->
  (owes_readers (pcs s !!! i) = true -> owes_readers pc = true) ->
  (owes_writers (pcs s !!! i) = true -> owes_writers pc = true) -> inv (goto i pc s).
Proof. intros Hinv Hi Hn Hr Hw. apply (update_inv s i _ (pipe s)); try done; try apply Hinv; by left. Qed.

(** The table moves without putting anyone to sleep on this pipe. *)
Lemma table_inv s ts :
  inv s -> table_wf ts ->
  (forall i c, (i < MAX_TASKS)%nat -> state (ts !!! i) = State.Blocked (Reason.Channel c) ->
     c = readable \/ c = writable -> parked s i c) ->
  inv (s <| table := ts |>).
Proof.
  intros Hinv Hts H. pose proof Hinv as [].
  constructor; try done; unfold parked; cbn [table set_field set_table].
  - intros i Hi Hp. apply inv_reader0; [done|]. apply H; auto.
  - intros i Hi Hp. apply inv_writer0; [done|]. apply H; auto.
  - intros i Hi Hp. apply (inv_readers_owed0 i); [done|]. apply H; auto.
  - intros i Hi Hp. apply (inv_writers_owed0 i); [done|]. apply H; auto.
Qed.

Lemma wake_parked s c i k :
  inv s -> (i < MAX_TASKS)%nat -> parked (wake c s) i k <-> parked s i k /\ k <> c.
Proof.
  intros Hinv Hi. unfold parked, wake. cbn [table set_field set_table].
  rewrite wake_all_lookup, wake_one_state by (done || apply Hinv).
  case_decide as E.
  - split; [done|]. rewrite E. by intros [[= ->] ?].
  - split; [intros H; split; [done|by intros ->]|tauto].
Qed.

Lemma wake_inv s c : inv s -> inv (wake c s).
Proof.
  intros Hinv. apply table_inv; [done|apply wake_all_wf, Hinv|].
  intros i k Hi Hk _. by apply (wake_parked s c i k).
Qed.

(** Waking a channel discharges the debt to it: nobody is left asleep. *)
Lemma wake_goto_inv s i c pc :
  inv s -> (i < MAX_TASKS)%nat -> not_parked s i ->
  (c <> readable -> owes_readers (pcs s !!! i) = true -> owes_readers pc = true) ->
  (c <> writable -> owes_writers (pcs s !!! i) = true -> owes_writers pc = true) ->
  inv (goto i pc (wake c s)).
Proof.
  intros Hinv Hi [Hnr Hnw] Hr Hw. pose proof (wake_inv s c Hinv) as Hw'.
  pose proof Hw' as []. constructor; try done; cbn [pipe table pcs goto].
  - by rewrite length_insert.
  - intros j Hj Hp. change (exists n, pcs (goto i pc (wake c s)) !!! j = ReadBlock n).
    rewrite pcs_lookup by done. case_decide; [subst|by apply inv_reader0].
    by apply (wake_parked s c j) in Hp as [? _].
  - intros j Hj Hp. change (exists d w, pcs (goto i pc (wake c s)) !!! j = WriteBlock d w).
    rewrite pcs_lookup by done. case_decide; [subst|by apply inv_writer0].
    by apply (wake_parked s c j) in Hp as [? _].
  - intros j Hj Hp Hc. apply (someone_goto (wake c s) i pc); [done|done| |done|left].
    + apply Hr. by apply (wake_parked s c j) in Hp as [_ ?].
    + by apply (inv_readers_owed0 j).
  - intros j Hj Hp Hc. apply (someone_goto (wake c s) i pc); [done|done| |done|left].
    + apply Hw. by apply (wake_parked s c j) in Hp as [_ ?].
    + by apply (inv_writers_owed0 j).
Qed.

(** Sleeping after the test, in the same critical section. *)
Lemma block_parked s i c j k :
  inv s -> (i < MAX_TASKS)%nat ->
  parked (block i c s) j k <-> (if decide (i = j) then k = c else parked s j k).
Proof.
  intros Hinv Hi. unfold parked, block. cbn [table set_field set_table].
  rewrite park_lookup by (done || apply Hinv). case_decide; naive_solver.
Qed.

Lemma block_reader_inv s i n :
  inv s -> (i < MAX_TASKS)%nat -> pcs s !!! i = ReadBlock n -> can_read (pipe s) = false ->
  inv (block i readable s).
Proof.
  intros Hinv Hi Hpc Hc. pose proof Hinv as []. pose proof channels_differ.
  constructor; try done.
  - apply park_wf; done.
  - intros j Hj Hp%block_parked; [|done..]. case_decide; [subst; by exists n|auto].
  - intros j Hj Hp%block_parked; [|done..]. case_decide; [congruence|auto].
  - intros j Hj _ Hcr. cbn in Hcr. congruence.
  - intros j Hj Hp%block_parked Hcw; [|done..]. case_decide; [congruence|].
    by apply (inv_writers_owed0 j).
Qed.

Lemma block_writer_inv s i d w :
  inv s -> (i < MAX_TASKS)%nat -> pcs s !!! i = WriteBlock d w -> can_write (pipe s) = false ->
  inv (block i writable s).
Proof.
  intros Hinv Hi Hpc Hc. pose proof Hinv as []. pose proof channels_differ.
  constructor; try done.
  - apply park_wf; done.
  - intros j Hj Hp%block_parked; [|done..]. case_decide; [congruence|auto].
  - intros j Hj Hp%block_parked; [|done..]. case_decide; [subst; by exists d, w|auto].
  - intros j Hj Hp%block_parked Hcr; [|done..]. case_decide; [congruence|].
    by apply (inv_readers_owed0 j).
  - intros j Hj _ Hcw. cbn in Hcw. congruence.
Qed.

(** ** Every turn keeps the invariant *)

Lemma ready_not_parked s i : state (table s !!! i) = State.Ready -> not_parked s i.
Proof. intros H. unfold not_parked, parked. rewrite H. by split. Qed.

Lemma idle_not_parked s i : inv s -> (i < MAX_TASKS)%nat -> pcs s !!! i = Idle -> not_parked s i.
Proof.
  intros Hinv Hi Hpc. split; intros Hp.
  - apply (inv_reader s Hinv i Hi) in Hp as [n Hp]. congruence.
  - apply (inv_writer s Hinv i Hi) in Hp as (d & w & Hp). congruence.
Qed.

Lemma write_done_inv s i d w :
  inv s -> (i < MAX_TASKS)%nat -> not_parked s i -> pcs s !!! i = WriteTop d w ->
  inv (write_done i w s).
Proof.
  intros Hinv Hi Hn Hpc. unfold write_done.
  destruct (Nat.ltb_spec 0 w); apply goto_inv; rewrite ?Hpc; cbn; try done.
  intros Hw%Nat.ltb_lt. lia.
Qed.

Lemma can_read_contents p : can_read p = true <-> contents p <> [] \/ writers p = 0.
Proof.
  unfold can_read. rewrite orb_true_iff, Nat.ltb_lt, Z.eqb_eq, <- contents_length.
  destruct (contents p); cbn; [intuition (lia || done)|intuition (lia || done)].
Qed.

Lemma can_write_length p :
  can_write p = true <-> (length (contents p) < CAPACITY)%nat \/ readers p = 0.
Proof. unfold can_write. by rewrite orb_true_iff, Nat.ltb_lt, Z.eqb_eq, contents_length. Qed.

Lemma read_turn_inv s i n :
  inv s -> (i < MAX_TASKS)%nat -> not_parked s i -> pcs s !!! i = ReadTop n -> inv (turn i s).
Proof.
  intros Hinv Hi Hn Hpc. unfold turn. rewrite Hpc. pose proof Hinv as [].
  pose proof (read_attempt_spec n (pipe s) inv_pipe0) as H.
  destruct (read_attempt n (pipe s)) as [[bytes|] p]; destruct H as (Hp & Hr & Hw & _ & H).
  - destruct H as (Hc & Hlen & _).
    assert (Hshort : (length (contents p) <= length (contents (pipe s)))%nat)
      by (rewrite Hc, length_app; lia).
    assert (Hcr : can_read p = true -> can_read (pipe s) = true).
    { rewrite !can_read_contents, Hw, Hc. intros [Hne|]; [left|by right].
      destruct bytes; [done|]. by intros ?. }
    destruct bytes as [|b bytes]; (apply (update_inv s i _ p); rewrite ?Hpc, ?Hr, ?Hw; try done; auto).
    + change (sent s = received s ++ contents p). by rewrite inv_bytes0, Hc.
    + rewrite !can_write_length, Hr, Hc. tauto.
    + change (sent s = (received s ++ b :: bytes) ++ contents p).
      by rewrite inv_bytes0, Hc, app_assoc.
  - destruct H as (-> & _). apply (update_inv s i _ (pipe s)); rewrite ?Hpc; try done; auto.
Qed.

Lemma write_turn_inv s i d w :
  inv s -> (i < MAX_TASKS)%nat -> not_parked s i -> pcs s !!! i = WriteTop d w -> inv (turn i s).
Proof.
  intros Hinv Hi Hn Hpc. unfold turn. rewrite Hpc. pose proof Hinv as [].
  destruct (Nat.leb_spec (length d) w); [by eapply write_done_inv|].
  pose proof (write_attempt_spec (drop w d) (pipe s) inv_pipe0) as Hwr.
  destruct (write_attempt (drop w d) (pipe s)) as [[[|c]|] p];
    destruct Hwr as (Hp & Hr & Hw & _ & Hwr).
  - apply goto_inv; rewrite ?Hpc; try done.
  - destruct Hwr as (Hne & Hc & Hcount).
    apply (update_inv s i _ p); rewrite ?Hpc, ?Hr, ?Hw; try done.
    + change (sent s ++ take (S c) (drop w d) = received s ++ contents p).
      by rewrite inv_bytes0, Hc, app_assoc.
    + intros _. right. apply Nat.ltb_lt. lia.
    + rewrite !can_write_length, Hr, Hc, length_app. intros [?|]; [left; left; lia|left; by right].
    + intros _. apply Nat.ltb_lt. lia.
  - by eapply write_done_inv.
Qed.

Lemma turn_inv s i :
  inv s -> (i < MAX_TASKS)%nat -> state (table s !!! i) = State.Ready -> inv (turn i s).
Proof.
  intros Hinv Hi Hready. pose proof (ready_not_parked s i Hready) as Hn.
  pose proof channels_differ.
  destruct (pcs s !!! i) as [|n|n|b|d w|d w|d w|w| |] eqn:Hpc.
  2: by eapply read_turn_inv.
  4: by eapply write_turn_inv.
  all: unfold turn; rewrite Hpc; try done.
  - destruct (can_read (pipe s)) eqn:Hc; [|by eapply block_reader_inv].
    apply goto_inv; rewrite ?Hpc; done.
  - apply wake_goto_inv; rewrite ?Hpc; done.
  - apply wake_goto_inv; rewrite ?Hpc; done.
  - destruct (can_write (pipe s)) eqn:Hc; [|by eapply block_writer_inv].
    apply goto_inv; rewrite ?Hpc; done.
  - apply wake_goto_inv; rewrite ?Hpc; done.
  - apply wake_goto_inv; rewrite ?Hpc; done.
  - apply wake_goto_inv; rewrite ?Hpc; done.
Qed.

(** Opening and closing ends leaves the bytes alone. *)
Lemma same_ring p q :
  buffer q = buffer p -> head q = head p -> tail q = tail p -> len q = len p ->
  pipe_wf p -> pipe_wf q /\ contents q = contents p.
Proof.
  destruct p, q; cbn. intros -> -> -> -> []. split; [by constructor|done].
Qed.

Lemma release_same p :
  let q := release_if_closed p in
  buffer q = buffer p /\ head q = head p /\ tail q = tail p /\ len q = len p /\
  readers q = readers p /\ writers q = writers p.
Proof. unfold release_if_closed. by case_match. Qed.

Lemma add_end_inv s p :
  inv s -> buffer p = buffer (pipe s) -> head p = head (pipe s) -> tail p = tail (pipe s) ->
  len p = len (pipe s) -> in_u 32 (readers p) -> in_u 32 (writers p) ->
  (readers p = 0 -> readers (pipe s) = 0) -> (writers p = 0 -> writers (pipe s) = 0) ->
  inv (s <| pipe := p |>).
Proof.
  intros Hinv Hb Hh Ht Hl Hr Hw Hr0 Hw0. pose proof Hinv as [].
  destruct (same_ring (pipe s) p Hb Hh Ht Hl inv_pipe0) as [Hp Hc].
  constructor; try done; unfold someone; cbn [pipe pcs set_field set_pipe].
  - by rewrite Hc.
  - intros i Hi Hpk Hcr. apply (inv_readers_owed0 i Hi Hpk).
    apply can_read_contents. apply can_read_contents in Hcr. rewrite Hc in Hcr. tauto.
  - intros i Hi Hpk Hcw. apply (inv_writers_owed0 i Hi Hpk).
    apply can_write_length. apply can_write_length in Hcw. rewrite Hc in Hcw. tauto.
Qed.

Lemma close_end_inv s i pc p :
  inv s -> (i < MAX_TASKS)%nat -> pcs s !!! i = Idle ->
  buffer p = buffer (pipe s) -> head p = head (pipe s) -> tail p = tail (pipe s) ->
  len p = len (pipe s) -> in_u 32 (readers p) -> in_u 32 (writers p) ->
  (readers p = readers (pipe s) \/ owes_writers pc = true) ->
  (writers p = writers (pipe s) \/ owes_readers pc = true) ->
  inv (goto i pc (s <| pipe := p |>)).
Proof.
  intros Hinv Hi Hpc Hb Hh Ht Hl Hr Hw Hr' Hw'. pose proof Hinv as [].
  destruct (same_ring (pipe s) p Hb Hh Ht Hl inv_pipe0) as [Hp Hc].
  apply (update_inv s i _ p); rewrite ?Hpc; try done.
  - by apply idle_not_parked.
  - by rewrite Hc.
  - rewrite !can_read_contents, Hc. destruct Hw' as [->|]; tauto.
  - rewrite !can_write_length, Hc. destruct Hr' as [->|]; tauto.
Qed.

Lemma pipe_step_inv s s' : step s s' -> inv s -> inv s'.
Proof.
  intros Hst Hinv. pose proof Hinv as [].
  assert (Hsub : forall x, in_u 32 x -> in_u 32 (sat_sub x 1)) by (unfold in_u, sat_sub; lia).
  assert (Hadd : forall x, in_u 32 x -> x < u32_max -> x +₃₂ 1 = x + 1).
  { intros x Hx Hlt. apply wrap_small. unfold in_u, u32_max in *. lia. }
  destruct Hst as [i s Hi Hr|i n s Hi Hpc|i d s Hi Hpc|s Hlt|s Hlt|i s Hi Hpc|i s Hi Hpc|ts s Hts H].
  - by apply turn_inv.
  - apply goto_inv; rewrite ?Hpc; try done. by apply idle_not_parked.
  - apply goto_inv; rewrite ?Hpc; try done. by apply idle_not_parked.
  - apply add_end_inv; try done; cbn; rewrite Hadd by done; unfold in_u, u32_max in *; lia.
  - apply add_end_inv; try done; cbn; rewrite Hadd by done; unfold in_u, u32_max in *; lia.
  - unfold close_reader.
    destruct (release_same ((pipe s) <| readers := sat_sub (readers (pipe s)) 1 |>))
      as (Hb & Hh & Ht & Hl & Hr & Hw).
    apply close_end_inv; rewrite ?Hr, ?Hw; cbn; auto.
  - unfold close_writer.
    destruct (release_same ((pipe s) <| writers := sat_sub (writers (pipe s)) 1 |>))
      as (Hb & Hh & Ht & Hl & Hr & Hw).
    apply close_end_inv; rewrite ?Hr, ?Hw; cbn; auto.
  - apply table_inv; [done..|]. intros i c _ Hb Hc. by apply H.
Qed.

Lemma start_inv ts : table_wf ts -> awake_on_pipe ts -> inv (start ts).
Proof.
  intros Hts Ha. assert (Hp : pipe_wf (pipe (start ts))).
  { constructor; cbn; [done|apply CAPACITY_pos|lia|done]. }
  constructor; try done; try (unfold in_u; cbn; lia).
  all: intros i Hi H; by apply Ha in H.
Qed.

Lemma pipe_reachable_inv s : reachable s -> inv s.
Proof.
  intros (ts & Hts & Ha & Hrun). pose proof (start_inv ts Hts Ha) as Hinv.
  induction Hrun as [|s0 s1 s2 Hst _ IH]; [done|]. by apply IH, (pipe_step_inv s0).
Qed.
End system.

(** C27: a pipe is a bounded queue whoever is using it.  Under every
    interleaving of readers, writers and closers, the bytes placed are the
    bytes taken followed by the bytes still inside: nothing is lost,
    duplicated or reordered, and never more than [CAPACITY] wait. *)
Theorem pipe_conserves_bytes id s :
  reachable id s ->
  sent s = received s ++ contents (pipe s) /\ (length (contents (pipe s)) <= CAPACITY)%nat.
Proof.
  intros H%pipe_reachable_inv. split; [apply H|]. rewrite contents_length. apply (inv_pipe _ _ H).
Qed.

(** C26: no wakeup is lost.  In every reachable state where no task is on its
    way to a wake-up call, a sleeping reader has nothing to read and a
    writer still to wait for, and a sleeping writer has no room and a reader
    still to wait for.  So a reader and a writer are never asleep on one
    pipe together: the pair cannot deadlock. *)
Theorem no_lost_wakeup id s :
  reachable id s ->
  (forall j, (j < MAX_TASKS)%nat ->
     owes_readers (pcs s !!! j) = false /\ owes_writers (pcs s !!! j) = false) ->
  (forall i, (i < MAX_TASKS)%nat -> parked s i (readable_channel id) ->
     contents (pipe s) = [] /\ writers (pipe s) <> 0) /\
  (forall i, (i < MAX_TASKS)%nat -> parked s i (writable_channel id) ->
     length (contents (pipe s)) = CAPACITY /\ readers (pipe s) <> 0) /\
  (forall i j, (i < MAX_TASKS)%nat -> (j < MAX_TASKS)%nat ->
     ~ (parked s i (readable_channel id) /\ parked s j (writable_channel id))).
Proof.
  intros H%pipe_reachable_inv Hq. pose proof (inv_pipe _ _ H) as Hp. pose proof (wf_len _ Hp) as Hl.
  assert (Hr : forall i, (i < MAX_TASKS)%nat -> parked s i (readable_channel id) ->
                 can_read (pipe s) = false).
  { intros i Hi Hpk. apply not_true_is_false. intros Hc.
    destruct (inv_readers_owed _ _ H i Hi Hpk Hc) as (j & Hj & Ho).
    destruct (Hq j Hj). congruence. }
  assert (Hw : forall i, (i < MAX_TASKS)%nat -> parked s i (writable_channel id) ->
                 can_write (pipe s) = false).
  { intros i Hi Hpk. apply not_true_is_false. intros Hc.
    destruct (inv_writers_owed _ _ H i Hi Hpk Hc) as (j & Hj & Ho).
    destruct (Hq j Hj). congruence. }
  unfold can_read, can_write in *. split_and!.
  - intros i Hi Hpk. destruct (proj1 (orb_false_iff _ _) (Hr i Hi Hpk)) as [H1 H2%Z.eqb_neq].
    split; [|done]. apply nil_length_inv. rewrite contents_length.
    apply Nat.ltb_ge in H1. lia.
  - intros i Hi Hpk. destruct (proj1 (orb_false_iff _ _) (Hw i Hi Hpk)) as [H1 H2%Z.eqb_neq].
    split; [|done]. rewrite contents_length. apply Nat.ltb_ge in H1. lia.
  - intros i j Hi Hj [Hpr Hpw].
    destruct (proj1 (orb_false_iff _ _) (Hr i Hi Hpr)) as [H1%Nat.ltb_ge _].
    destruct (proj1 (orb_false_iff _ _) (Hw j Hj Hpw)) as [H2%Nat.ltb_ge _].
    pose proof CAPACITY_pos. lia.
Qed.

(** A run: task 0 reads an empty pipe and sleeps; task 1 writes two bytes. *)
Definition two_awake : Table := test_table [(State.Ready, 0); (State.Ready, 8)].
Definition asleep : Sys :=
  turn 3 0 (turn 3 0 (goto 0 (ReadTop 5) (start two_awake))).
Definition woken : Sys :=
  turn 3 1 (turn 3 1 (turn 3 1 (goto 1 (WriteTop [104; 105] 0) asleep))).

Lemma two_awake_start : table_wf two_awake /\ awake_on_pipe 3 two_awake.
Proof.
  split; [apply test_table_wf; repeat constructor; cbn; unfold MAX_PRIORITY; lia|].
  intros i Hi. unfold MAX_TASKS in Hi. do 8 (destruct i as [|i]; [by vm_compute|]). lia.
Qed.

Lemma asleep_reachable : reachable 3 asleep.
Proof.
  destruct two_awake_start as [Hts Ha]. exists two_awake. split; [done|]. split; [done|].
  eapply rtc_l; [apply (step_read 3 0 5); [unfold MAX_TASKS; lia|by vm_compute]|].
  eapply rtc_l; [apply (step_turn 3 0); [unfold MAX_TASKS; lia|by vm_compute]|].
  eapply rtc_l; [apply (step_turn 3 0); [unfold MAX_TASKS; lia|by vm_compute]|].
  apply rtc_refl.
Qed.

Lemma woken_reachable : reachable 3 woken.
Proof.
  destruct asleep_reachable as (ts & Hts & Ha & Hrun). exists ts. split; [done|]. split; [done|].
  transitivity asleep; [done|].
  eapply rtc_l; [apply (step_write 3 1 [104; 105]); [unfold MAX_TASKS; lia|by vm_compute]|].
  do 3 (eapply rtc_l;
    [apply (step_turn 3 1); [unfold MAX_TASKS; lia|by vm_compute]|]).
  apply rtc_refl.
Qed.

Lemma pipe_conserves_bytes_witness :
  reachable 3 woken /\ sent woken = [104; 105] /\
  sent woken = received woken ++ contents (pipe woken) /\
  (length (contents (pipe woken)) <= CAPACITY)%nat.
Proof.
  split; [exact woken_reachable|]. split; [by vm_compute|].
  apply (pipe_conserves_bytes 3 woken woken_reachable).
Defined.

Lemma no_lost_wakeup_witness :
  parked asleep 0 (readable_channel 3) /\ contents (pipe asleep) = [] /\ writers (pipe asleep) <> 0.
Proof.
  split; [by vm_compute|].
  apply (no_lost_wakeup 3 asleep asleep_reachable) with (i := 0%nat).
  - intros j Hj. unfold MAX_TASKS in Hj. do 8 (destruct j as [|j]; [by vm_compute|]). lia.
  - unfold MAX_TASKS. lia.
  - by vm_compute.
Defined.
