(* ===== verification/Signal.v ===== *)
(** * Signals: [kernel/src/signal.rs]

    Delivery rewrites a saved twenty-word frame so that the program resumes
    in its handler; [restore] puts the frame back from the program's stack.
    The per-task operations of [kernel/src/task.rs] that signals use are here
    too. *)

From S2P Require Import Prelude TaskTable.

Definition SIGINT : nat := 2.
Definition SIGKILL : nat := 9.
Definition SIGTERM : nat := 15.
Definition RDI : nat := 8.
Definition RAX : nat := 14.
Definition RIP : nat := 15.
Definition CS : nat := 16.
Definition RSP : nat := 18.
Definition FRAME_WORDS : nat := 20.
#[global] Arguments FRAME_WORDS : simpl never.

Definition catchable (signal : nat) : bool := negb (signal =? SIGKILL)%nat.

(** ** The pending set *)

Definition take_pending_signal (t : Task) : option nat * Task :=
  if pending t =? 0 then (None, t)
  else
    let number := trailing_zeros 32 (pending t) in
    (Some number, t <| pending := clear_bit (pending t) number |>).

Definition set_pending_signal (number : nat) (t : Task) : Task :=
  t <| pending := set_bit (pending t) number |>.

Definition has_pending_signal (t : Task) : bool := negb (pending t =? 0).

Definition signal_handler (number : nat) (t : Task) : Z :=
  if (MAX_SIGNALS <=? number)%nat then 0 else handlers t !!! number.

Definition set_signal_handler (number : nat) (handler restorer' : Z) (t : Task) : bool * Task :=
  if (MAX_SIGNALS <=? number)%nat || negb (catchable number) then (false, t)
  else (true, t <| handlers := <[number := handler]> (handlers t) |> <| restorer := restorer' |>).

Definition clear_signal_handlers (t : Task) : Task :=
  t <| handlers := replicate MAX_SIGNALS 0 |> <| restorer := 0 |>.

(** [signal]: mark it pending and wake a sleeper. *)
Definition post_signal (number : nat) (t : Task) : bool * Task :=
  match state t with
  | State.Free | State.Finished => (false, t)
  | State.Blocked _ => (true, set_pending_signal number t <| state := State.Ready |>)
  | State.Ready => (true, set_pending_signal number t)
  end.

(** ** Delivery

    [frame] is the twenty saved words; the result lists the stores to the
    program's stack, in order. *)

Definition saved_at (user_stack : Z) : Z := clear (user_stack -₆₄ (Z.of_nat FRAME_WORDS * 8)) 15.
Definition word_at (base : Z) (index : nat) : Z := base +₆₄ (Z.of_nat index * 8).

Definition save_frame (saved : Z) (frame : list Z) : list (Z * Z) :=
  imap (fun index word => (word_at saved index, word)) frame.

(** [true]: terminate the task instead. *)
Definition deliver (t : Task) (frame : list Z) : bool * Task * list Z * list (Z * Z) :=
  match take_pending_signal t with
  | (None, t) => (false, t, frame, [])
  | (Some signal, t) =>
      if negb (Z.land (frame !!! CS) 3 =? 3)
      then (false, set_pending_signal signal t, frame, [])
      else
        let handler := signal_handler signal t in
        if (handler =? 0) || negb (catchable signal) then (true, t, frame, [])
        else if restorer t =? 0 then (true, t, frame, [])
        else
          let saved := saved_at (frame !!! RSP) in
          let entry_stack := saved -₆₄ 8 in
          (false, t,
           <[RSP := entry_stack]> (<[RDI := Z.of_nat signal]> (<[RIP := handler]> frame)),
           save_frame saved frame ++ [(entry_stack, restorer t)])
  end.

(** Undo a delivery, reading the program's memory. *)
Definition restore (frame : list Z) (memory : Z -> Z) : list Z :=
  let saved := frame !!! RSP in
  map (fun index => memory (word_at saved index)) (seq 0 FRAME_WORDS).

(** ** Memory *)

Definition store (memory : Z -> Z) (w : Z * Z) : Z -> Z :=
  fun a => if a =? w.1 then w.2 else memory a.
Definition store_all (ws : list (Z * Z)) (memory : Z -> Z) : Z -> Z := fold_left store ws memory.

Lemma store_all_app ws ws' m : store_all (ws ++ ws') m = store_all ws' (store_all ws m).
Proof. apply fold_left_app. Qed.

Lemma store_all_other ws m a : (forall w, w ∈ ws -> w.1 <> a) -> store_all ws m a = m a.
Proof.
  revert m. induction ws as [|w ws IH]; intros m H; [done|]. cbn. rewrite IH.
  - unfold store. destruct (Z.eqb_spec a w.1) as [E|]; [|done]. exfalso. by apply (H w); [left|].
  - intros w' Hw'. apply H. by right.
Qed.

(** ** Where the saved frame goes *)

Lemma saved_at_bounds sp :
  176 <= sp < 2 ^ 64 ->
  saved_at sp mod 16 = 0 /\ 8 <= saved_at sp /\ saved_at sp + 160 <= sp.
Proof.
  intros Hsp. unfold saved_at, clear.
  change (Z.of_nat FRAME_WORDS * 8) with 160. rewrite wrap_small by (unfold in_u; lia).
  assert (E : Z.ldiff (sp - 160) 15 = 16 * ((sp - 160) / 16)).
  { change 15 with (Z.ones 4). rewrite Z.ldiff_ones_r, Z.shiftr_div_pow2, Z.shiftl_mul_pow2 by lia.
    change (2 ^ 4) with 16. lia. }
  rewrite E. pose proof (Z.div_mod (sp - 160) 16). pose proof (Z.mod_pos_bound (sp - 160) 16).
  split; [rewrite Z.mul_comm; apply Z.mod_mul; lia|]. lia.
Qed.

Lemma word_at_small base i :
  0 <= base -> (i < FRAME_WORDS)%nat -> base + 160 <= 2 ^ 64 -> word_at base i = base + 8 * Z.of_nat i.
Proof.
  intros Hb Hi Ht. unfold word_at. unfold FRAME_WORDS in Hi.
  rewrite wrap_small; [lia|]. unfold in_u. lia.
Qed.

Lemma save_frame_elem saved frame a w :
  (a, w) ∈ save_frame saved frame <->
  exists i, frame !! i = Some w /\ a = word_at saved i.
Proof.
  unfold save_frame. rewrite elem_of_lookup_imap. split.
  - intros (i & y & [= -> ->] & H). by exists i.
  - intros (i & H & ->). by exists i, w.
Qed.

(** What [save_frame] wrote is read back word by word. *)
Lemma read_saved saved frame m i w :
  length frame = FRAME_WORDS -> 0 <= saved -> saved + 160 <= 2 ^ 64 ->
  frame !! i = Some w -> store_all (save_frame saved frame) m (word_at saved i) = w.
Proof.
  intros Hlen Hs Ht Hi.
  assert (Hsmall : forall j, (j < length frame)%nat -> word_at saved j = saved + 8 * Z.of_nat j)
    by (intros; apply word_at_small; rewrite <- ?Hlen; done).
  pose proof (lookup_lt_Some _ _ _ Hi) as Hlt.
  rewrite <- (take_drop_middle _ _ _ Hi) at 1. unfold save_frame.
  rewrite imap_app. cbn [imap]. rewrite store_all_app. cbn [store_all fold_left].
  rewrite store_all_other.
  - unfold store. cbn [fst snd]. rewrite length_take, Nat.min_l, Nat.add_0_r by lia.
    by rewrite Z.eqb_refl.
  - intros [a x] (j & y & [= -> ->] & Hj)%elem_of_lookup_imap. cbn [fst].
    apply lookup_lt_Some in Hj. rewrite length_drop in Hj. rewrite length_take, Nat.min_l by lia.
    rewrite !Hsmall by lia. lia.
Qed.

(** Delivery changes nothing of the task but its pending set. *)
Lemma set_pending_wf number t :
  (number < 32)%nat -> task_wf t -> task_wf (set_pending_signal number t).
Proof.
  unfold task_wf, set_pending_signal. cbn. intros Hn (? & ? & ? & Hp & ? & ?).
  pose proof (set_bit_in_u 32 (pending t) number ltac:(lia) Hp ltac:(lia)). tauto.
Qed.

Lemma take_pending_wf t :
  task_wf t ->
  let '(number, t') := take_pending_signal t in
  task_wf t' /\ t' = t <| pending := pending t' |> /\ (forall n, number = Some n -> (n < 32)%nat).
Proof.
  intros Ht. unfold take_pending_signal. destruct (Z.eqb_spec (pending t) 0) as [|Hne]; [by destruct t|].
  pose proof Ht as (? & ? & ? & Hp & ? & ?). split_and!; [|done|].
  - unfold task_wf. cbn. pose proof (clear_bit_in_u 32 (pending t) (trailing_zeros 32 (pending t)) ltac:(lia) Hp).
    tauto.
  - intros n [= <-]. by apply (trailing_zeros_spec 32).
Qed.

Lemma deliver_task t frame :
  task_wf t ->
  let '(_, t', _, _) := deliver t frame in task_wf t' /\ t' = t <| pending := pending t' |>.
Proof.
  intros Ht. unfold deliver. pose proof (take_pending_wf t Ht) as H.
  destruct (take_pending_signal t) as [[n|] t1]; destruct H as (Hw & E & Hn); [|done].
  destruct (negb (Z.land _ _ =? 3)); [split; [by apply set_pending_wf; [apply Hn|]|by rewrite E]|].
  destruct (_ || _); [done|]. by destruct (restorer t1 =? 0).
Qed.

(** A delivery that enters a handler. *)
Definition enters (t : Task) (frame : list Z) (t' : Task) (frame' : list Z) (ws : list (Z * Z)) : Prop :=
  deliver t frame = (false, t', frame', ws) /\ ws <> [].

Lemma enters_inv t frame t' frame' ws :
  enters t frame t' frame' ws ->
  exists signal,
    take_pending_signal t = (Some signal, t') /\ Z.land (frame !!! CS) 3 = 3 /\
    signal_handler signal t' <> 0 /\ catchable signal = true /\ restorer t' <> 0 /\
    frame' = <[RSP := saved_at (frame !!! RSP) -₆₄ 8]>
               (<[RDI := Z.of_nat signal]> (<[RIP := signal_handler signal t']> frame)) /\
    ws = save_frame (saved_at (frame !!! RSP)) frame ++ [(saved_at (frame !!! RSP) -₆₄ 8, restorer t')].
Proof.
  intros [E Hws]. unfold deliver in E. destruct (take_pending_signal t) as [[signal|] t1]; [|congruence].
  destruct (Z.eqb_spec (Z.land (frame !!! CS) 3) 3); cbn [negb] in E; [|congruence].
  destruct (Z.eqb_spec (signal_handler signal t1) 0); cbn [orb] in E; [congruence|].
  destruct (catchable signal) eqn:Hc; cbn [negb] in E; [|congruence].
  destruct (Z.eqb_spec (restorer t1) 0); [congruence|].
  injection E as <- <- <-. by exists signal.
Qed.

(** The stores of a delivery lie just below the interrupted stack pointer. *)
Lemma enters_below t frame t' frame' ws :
  enters t frame t' frame' ws -> length frame = FRAME_WORDS -> 176 <= frame !!! RSP < 2 ^ 64 ->
  frame' !!! RSP = saved_at (frame !!! RSP) - 8 /\
  forall w, w ∈ ws -> frame' !!! RSP <= w.1 < frame !!! RSP.
Proof.
  intros (signal & _ & _ & _ & _ & _ & -> & ->)%enters_inv Hlen Hsp.
  destruct (saved_at_bounds _ Hsp) as (_ & Hlo & Hhi). set (saved := saved_at _) in *.
  assert (He : saved -₆₄ 8 = saved - 8) by (apply wrap_small; unfold in_u; lia). rewrite He.
  rewrite list_insert_total, decide_True by (rewrite ?length_insert, ?Hlen; unfold FRAME_WORDS, RSP; (done || lia)).
  split; [done|]. intros [a x] [Hin|Hin%list_elem_of_singleton]%elem_of_app.
  - apply save_frame_elem in Hin as (i & Hi & ->). apply lookup_lt_Some in Hi.
    rewrite word_at_small by lia. cbn [fst]. unfold FRAME_WORDS in Hlen. lia.
  - injection Hin as -> ->. cbn [fst]. lia.
Qed.

(** A function that returns: it pops the restorer's address, so the program
    makes the [sigreturn] call with its stack pointer at the saved frame. *)
Definition at_sigreturn (entered frame : list Z) : Prop := frame !!! RSP = entered !!! RSP + 8.

Lemma restore_saved t frame t' frame' ws m m' ret :
  enters t frame t' frame' ws -> length frame = FRAME_WORDS -> 176 <= frame !!! RSP < 2 ^ 64 ->
  (forall a, frame' !!! RSP < a < frame !!! RSP -> m' a = store_all ws m a) ->
  at_sigreturn frame' ret -> restore ret m' = frame.
Proof.
  intros He Hlen Hsp Hm Hret. destruct (enters_below _ _ _ _ _ He Hlen Hsp) as [Hrsp _].
  apply enters_inv in He as (signal & _ & _ & _ & _ & _ & _ & ->).
  destruct (saved_at_bounds _ Hsp) as (_ & Hlo & Hhi). set (saved := saved_at _) in *.
  unfold restore, at_sigreturn in *. rewrite Hret, Hrsp. replace (saved - 8 + 8) with saved by lia.
  apply list_eq. intros i. change (map ?f ?l) with (f <$> l). rewrite list_lookup_fmap.
  destruct (frame !! i) as [w|] eqn:Hi.
  - pose proof (lookup_lt_Some _ _ _ Hi) as Hlt. rewrite Hlen in Hlt.
    rewrite lookup_seq_lt by done. cbn. f_equal.
    pose proof (word_at_small saved i ltac:(lia) Hlt ltac:(lia)) as Hw.
    rewrite Hm by (unfold FRAME_WORDS in Hlt; lia). rewrite store_all_app. cbn.
    unfold store. cbn. rewrite wrap_small by (unfold in_u; lia).
    destruct (Z.eqb_spec (word_at saved i) (saved - 8)); [lia|].
    apply read_saved; (done || lia).
  - apply lookup_ge_None in Hi. rewrite lookup_seq_ge by lia. done.
Qed.

(** A handler is a genuine detour: when it returns and the program makes
    the [sigreturn] call, the interrupted frame comes back word for word,
    every register included, whatever the handler did to registers and to
    memory outside the frame it was handed; and the kernel remembers nothing
    in between. *)
Theorem signal_round_trip t frame t' frame' ws m m' ret :
  in_u 32 (pending t) -> enters t frame t' frame' ws -> length frame = FRAME_WORDS -> 176 <= frame !!! RSP < 2 ^ 64 ->
  (forall a, frame' !!! RSP < a < frame !!! RSP -> m' a = store_all ws m a) ->
  at_sigreturn frame' ret ->
  restore ret m' = frame /\
  exists signal, frame' !!! RIP = signal_handler signal t /\ frame' !!! RDI = Z.of_nat signal /\
    frame' !!! RSP mod 16 = 8 /\ store_all ws m (frame' !!! RSP) = restorer t /\
    Z.testbit (pending t) (Z.of_nat signal) = true.
Proof.
  intros Hpend He Hlen Hsp Hm Hret. split; [by eapply restore_saved|].
  destruct (enters_below _ _ _ _ _ He Hlen Hsp) as [Hrsp _].
  apply enters_inv in He as (signal & Ht & _ & Hh & _ & _ & Ef & ->). exists signal.
  destruct (saved_at_bounds _ Hsp) as (Hal & Hlo & Hhi). unfold FRAME_WORDS in Hlen.
  unfold take_pending_signal in Ht. destruct (Z.eqb_spec (pending t) 0) as [|Hp]; [done|].
  injection Ht as Hsig <-. split_and!.
  - subst frame'. unfold RIP, RDI, RSP. rewrite !list_insert_total by (rewrite ?length_insert, ?Hlen; lia).
    done.
  - subst frame'. unfold RIP, RDI, RSP. rewrite !list_insert_total by (rewrite ?length_insert, ?Hlen; lia).
    done.
  - rewrite Hrsp. rewrite <- Zminus_mod_idemp_l, Hal. done.
  - rewrite Hrsp, store_all_app. cbn. unfold store. cbn.
    rewrite wrap_small by (unfold in_u; lia). by rewrite Z.eqb_refl.
  - rewrite <- Hsig. by apply (trailing_zeros_spec 32).
Qed.

(** A task with a handler for SIGINT and one for SIGTERM, both pending. *)
Definition caught : Task :=
  Task_empty <| pending := set_bit (set_bit 0 SIGINT) SIGTERM |>
    <| handlers := <[SIGTERM := 8192]> (<[SIGINT := 4096]> (replicate MAX_SIGNALS 0)) |>
    <| restorer := 12288 |>.
Definition ring3_frame : list Z := replicate 15 7 ++ [5000; 51; 514; 1114000; 43].

Lemma signal_round_trip_witness :
  let '(_, _, frame', ws) := deliver caught ring3_frame in
  length ws = 21%nat /\
  restore (<[RSP := frame' !!! RSP + 8]> (replicate 20 0)) (store_all ws (fun _ => 0)) = ring3_frame.
Proof.
  destruct (deliver caught ring3_frame) as [[[k t'] frame'] ws] eqn:E.
  assert (Hk : k = false) by (vm_compute in E; congruence). subst k.
  assert (Hws : length ws = 21%nat) by (vm_compute in E; injection E as <- <- <-; done).
  split; [exact Hws|].
  apply (signal_round_trip caught ring3_frame t' frame' ws (fun _ => 0)).
  - unfold in_u. by vm_compute.
  - split; [exact E|]. by intros ->.
  - done.
  - by vm_compute.
  - done.
  - done.
Defined.

(** Handlers nest.  A second signal delivered while the first handler is
    running, anywhere at or below the stack pointer that handler started
    with, saves its frame without touching the first: two [sigreturn]s bring
    back first the handler, then the interrupted program. *)
Theorem handlers_nest t1 f1 t1' f1' ws1 t2 f2 t2' f2' ws2 m r1 r2 :
  enters t1 f1 t1' f1' ws1 -> enters t2 f2 t2' f2' ws2 ->
  length f1 = FRAME_WORDS -> length f2 = FRAME_WORDS ->
  176 <= f1 !!! RSP < 2 ^ 64 -> 176 <= f2 !!! RSP <= f1' !!! RSP ->
  at_sigreturn f2' r2 -> at_sigreturn f1' r1 ->
  let memory := store_all ws2 (store_all ws1 m) in
  restore r2 memory = f2 /\ restore r1 memory = f1.
Proof.
  intros H1 H2 Hl1 Hl2 Hs1 Hs2 Hr2 Hr1. cbn zeta.
  destruct (enters_below _ _ _ _ _ H1 Hl1 Hs1) as [E1 _].
  destruct (saved_at_bounds _ Hs1) as (_ & Hlo & Hhi).
  assert (Hs2' : 176 <= f2 !!! RSP < 2 ^ 64) by lia.
  destruct (enters_below _ _ _ _ _ H2 Hl2 Hs2') as [E2 Hb2]. split.
  - by eapply restore_saved.
  - eapply restore_saved; try done. intros a Ha. apply store_all_other.
    intros w Hw Ea. specialize (Hb2 w Hw). lia.
Qed.

Lemma handlers_nest_witness :
  let '(_, t1, f1, ws1) := deliver caught ring3_frame in
  let f2 := <[RIP := 4100]> f1 in
  let '(_, t2, f2', ws2) := deliver t1 f2 in
  restore (<[RSP := f2' !!! RSP + 8]> f2') (store_all ws2 (store_all ws1 (fun _ => 0))) = f2 /\
  restore (<[RSP := f1 !!! RSP + 8]> f1) (store_all ws2 (store_all ws1 (fun _ => 0))) = ring3_frame.
Proof.
  destruct (deliver caught ring3_frame) as [[[k1 t1] f1] ws1] eqn:E1.
  cbv zeta. destruct (deliver t1 (<[RIP := 4100]> f1)) as [[[k2 t2] f2] ws2] eqn:E2.
  assert (H1 : enters caught ring3_frame t1 f1 ws1 /\ length f1 = 20%nat /\ f1 !!! RSP = 1113832).
  { vm_compute in E1. injection E1 as <- <- <- <-. split_and!; [split; [by vm_compute|done]|done|done]. }
  assert (H2 : enters t1 (<[RIP := 4100]> f1) t2 f2 ws2 /\ length f2 = 20%nat).
  { vm_compute in E1. injection E1 as <- <- <- <-. vm_compute in E2. injection E2 as <- <- <- <-.
    split; [split; [by vm_compute|done]|done]. }
  destruct H1 as (H1 & Hl1 & Hr1), H2 as [H2 Hl2].
  assert (Hr2 : <[RIP := 4100]> f1 !!! RSP = f1 !!! RSP).
  { rewrite list_insert_total by (rewrite Hl1; unfold RIP; lia). done. }
  apply (handlers_nest caught ring3_frame t1 f1 ws1 t1 _ t2 f2 ws2 (fun _ => 0)); try done.
  - by rewrite length_insert.
  - by rewrite Hr2, Hr1.
  - unfold at_sigreturn. rewrite list_insert_total by (rewrite Hl2; unfold RSP; lia). done.
  - unfold at_sigreturn. rewrite list_insert_total by (rewrite Hl1; unfold RSP; lia). done.
Defined.

(** ** What [sigreturn] trusts, and what delivery forgets *)

(** The assembly after [dispatch] stores the call's result where RAX will be
    restored from. *)
Definition syscall_return (result : Z) (frame : list Z) : list Z := <[RAX := result]> frame.

(** A signal delivered on the way out of a system call loses the call's
    result.  Delivery saves the frame before the result is stored in it, so
    after the handler's [sigreturn] the program resumes with the RAX it made
    the call with (the call's number) instead of the answer. *)
Theorem delivery_loses_syscall_result t frame t' frame' ws m ret result :
  enters t frame t' frame' ws -> length frame = FRAME_WORDS -> 176 <= frame !!! RSP < 2 ^ 64 ->
  at_sigreturn (syscall_return result frame') ret ->
  let resumed := restore ret (store_all ws m) in
  syscall_return (resumed !!! RAX) resumed = frame.
Proof.
  intros He Hlen Hsp Hret. cbn zeta. rewrite (restore_saved t frame t' frame' ws m); try done.
  - unfold syscall_return. apply list_insert_id, list_lookup_lookup_total_lt.
    rewrite Hlen. by apply Nat.ltb_lt.
  - unfold at_sigreturn, syscall_return in *. rewrite Hret.
    pose proof (enters_inv _ _ _ _ _ He) as (sg & _ & _ & _ & _ & _ & -> & _).
    rewrite list_insert_total by (rewrite !length_insert, Hlen; by apply Nat.ltb_lt). done.
Qed.

Lemma delivery_loses_syscall_result_witness :
  let frame := <[RAX := 7]> ring3_frame in
  let '(_, _, frame', ws) := deliver caught frame in
  let ret := <[RSP := frame' !!! RSP + 8]> frame' in
  let resumed := restore ret (store_all ws (fun _ => 0)) in
  syscall_return (resumed !!! RAX) resumed = frame.
Proof.
  cbv zeta. destruct (deliver caught (<[RAX := 7]> ring3_frame)) as [[[k t'] frame'] ws] eqn:E.
  assert (H : enters caught (<[RAX := 7]> ring3_frame) t' frame' ws /\ length frame' = 20%nat).
  { vm_compute in E. injection E as <- <- <- <-. split; [split; [by vm_compute|done]|done]. }
  destruct H as [H Hl].
  apply (delivery_loses_syscall_result caught _ t' frame' ws (fun _ => 0) _ 512); try done.
  unfold at_sigreturn, syscall_return.
  rewrite !list_insert_total by (rewrite ?Hl; by apply Nat.ltb_lt). done.
Defined.

(** [sigreturn] trusts the program's stack completely.  Whatever twenty
    words a program has put where its stack pointer points become the frame
    it resumes through: CS and RFLAGS are not checked, so a program that
    makes the call by hand can name the kernel's code segment and resume in
    ring 0. *)
Theorem sigreturn_is_unchecked words sp frame m :
  length words = FRAME_WORDS -> 0 <= sp -> sp + 160 <= 2 ^ 64 -> frame !!! RSP = sp ->
  restore frame (store_all (save_frame sp words) m) = words.
Proof.
  intros Hlen Hs Ht Hf. unfold restore. rewrite Hf. apply list_eq. intros i.
  change (map ?f ?l) with (f <$> l). rewrite list_lookup_fmap.
  destruct (words !! i) as [w|] eqn:Hi.
  - pose proof (lookup_lt_Some _ _ _ Hi) as Hlt. rewrite Hlen in Hlt.
    rewrite lookup_seq_lt by done. cbn. f_equal. by apply read_saved.
  - apply lookup_ge_None in Hi. by rewrite lookup_seq_ge by lia.
Qed.

Lemma sigreturn_is_unchecked_witness :
  let forged := <[CS := 8]> ring3_frame in
  restore (<[RSP := 8192]> ring3_frame) (store_all (save_frame 8192 forged) (fun _ => 0)) !!! CS = 8.
Proof.
  cbv zeta. rewrite (sigreturn_is_unchecked (<[CS := 8]> ring3_frame) 8192); done.
Defined.
