(* ===== verification/Kernel.v ===== *)
(** * The task operations of [kernel/src/task.rs]

    Creating, forking, finishing and reaping tasks, their descriptors, and
    the timer's [schedule].  The state is every static these operations
    touch: the task table, the pipes, the scheduler, the orphaned address
    spaces, the stacks they write and the two CPU registers they load. *)

From S2P Require Import Prelude TaskTable Policy Sched Pipe Signal.

Definition KERNEL_CODE : Z := 8.
Definition USER_DATA : Z := 43.
Definition USER_CODE : Z := 51.

Record Kernel := mkKernel {
  TASKS : Table;
  PIPES : Pipes;
  SCHED : Sched;
  CURRENT : nat;
  ENABLED : bool;
  ORPHANS : list Z;
  KERNEL_ROOT : Z;
  CR3 : Z;                  (* the active address space *)
  RSP0 : Z;                 (* [TSS.privilege_stack_table[0]] *)
  STACKS : Z -> Z;          (* kernel memory, by word address *)
  USER_MEMORY : Z -> Z -> Z (* user memory, by address space *)
}.

Definition Kernel_eta (r : Kernel) : Kernel :=
  mkKernel (TASKS r) (PIPES r) (SCHED r) (CURRENT r) (ENABLED r) (ORPHANS r) (KERNEL_ROOT r)
    (CR3 r) (RSP0 r) (STACKS r) (USER_MEMORY r).
#[export] Instance set_TASKS : Setter TASKS := fun v r => ltac:(setter Kernel_eta TASKS v r).
#[export] Instance set_PIPES : Setter PIPES := fun v r => ltac:(setter Kernel_eta PIPES v r).
#[export] Instance set_SCHED : Setter SCHED := fun v r => ltac:(setter Kernel_eta SCHED v r).
#[export] Instance set_CURRENT : Setter CURRENT := fun v r => ltac:(setter Kernel_eta CURRENT v r).
#[export] Instance set_ORPHANS : Setter ORPHANS := fun v r => ltac:(setter Kernel_eta ORPHANS v r).
#[export] Instance set_CR3 : Setter CR3 := fun v r => ltac:(setter Kernel_eta CR3 v r).
#[export] Instance set_RSP0 : Setter RSP0 := fun v r => ltac:(setter Kernel_eta RSP0 v r).
#[export] Instance set_STACKS : Setter STACKS := fun v r => ltac:(setter Kernel_eta STACKS v r).
#[export] Instance set_USER_MEMORY : Setter USER_MEMORY := fun v r => ltac:(setter Kernel_eta USER_MEMORY v r).

(** [tasks()[id].f = v], and the pipe and wake-up calls. *)
Definition modify_task (id : nat) (f : Task -> Task) (k : Kernel) : Kernel :=
  k <| TASKS := update_task id f (TASKS k) |>.
Definition modify_pipe (id : nat) (f : Pipe -> Pipe) (k : Kernel) : Kernel :=
  k <| PIPES := update_pipe id f (PIPES k) |>.
Definition wake (channel : Z) (k : Kernel) : Kernel :=
  k <| TASKS := (wake_all channel (TASKS k)).2 |>.
Definition notify_created (id : nat) (k : Kernel) : Kernel := k <| SCHED := task_created id (SCHED k) |>.
Definition notify_exited (id : nat) (k : Kernel) : Kernel := k <| SCHED := task_exited id (SCHED k) |>.

(** [pipe::close_reader] and [close_writer] with their wake-ups. *)
Definition pipe_close_reader (p : nat) (k : Kernel) : Kernel :=
  wake (writable_channel p) (modify_pipe p close_reader k).
Definition pipe_close_writer (p : nat) (k : Kernel) : Kernel :=
  wake (readable_channel p) (modify_pipe p close_writer k).

(** ** Frames *)

(** [sp -= 8; *sp = value], for each value in turn: the final stack pointer
    and the stores. *)
Definition push_all (top : Z) (values : list Z) : Z * list (Z * Z) :=
  fold_left (fun '(sp, ws) value => (sp -₆₄ 8, ws ++ [(sp -₆₄ 8, value)])) values (top, []).

Definition build_frame (top entry : Z) : Z * list (Z * Z) :=
  push_all top ([0; top -₆₄ 8; 514; KERNEL_CODE; entry] ++ replicate 15 0).

Definition build_user_frame (top entry user_stack argc argv : Z) : Z * list (Z * Z) :=
  push_all top ([USER_DATA; user_stack; 514; USER_CODE; entry; 0; 0; 0; 0; 0; argv; argc]
                ++ replicate 8 0).

(** The twenty words at a saved stack pointer. *)
Definition frame_at (memory : Z -> Z) (sp : Z) : list Z :=
  map (fun index => memory (word_at sp index)) (seq 0 FRAME_WORDS).

Definition store_frame (sp : Z) (frame : list Z) (memory : Z -> Z) : Z -> Z :=
  store_all (save_frame sp frame) memory.

(** ** Creating tasks *)

Definition init_shell (k : Kernel) : Kernel :=
  let k := modify_task 0 (fun t =>
    t <| state := State.Ready |> <| name := [115; 104; 101; 108; 108] ++ drop 5 (name t) |>
      <| name_len := 5%nat |> <| priority := SHELL_PRIORITY |>) k in
  mkKernel (TASKS k) (PIPES k) (SCHED k) 0 true (ORPHANS k) (CR3 k) (CR3 k) (RSP0 k) (STACKS k)
    (USER_MEMORY k).

Definition free_task_slot (ts : Table) : option nat :=
  range_find 1 MAX_TASKS (fun i => is_state State.Free (ts !!! i)).

Definition stack_base (stack : Z) : Z := clear (stack +₆₄ STACK_SIZE) 15.

(** [stack] is the address of the freshly allocated kernel stack, and
    [task_entry] the address every kernel task starts at. *)
Definition spawn_with_priority (task_entry : Z) (bytes : list Z) (w : Work.t) (prio stack : Z)
    (k : Kernel) : result nat * Kernel :=
  match free_task_slot (TASKS k) with
  | None => (Err "no free task slots", k)
  | Some id =>
      let top := stack_base stack in
      let '(sp, stores) := build_frame top task_entry in
      let k := k <| STACKS := store_all stores (STACKS k) |> in
      let k := modify_task id (fun t =>
        put_name bytes
          (t <| state := State.Ready |> <| stack_pointer := sp |> <| kernel_stack_top := top |>
             <| address_space := None |> <| parent := None |> <| _stack := Some stack |>
             <| switches := 0 |> <| work := Some w |> <| priority := Z.min prio MAX_PRIORITY |>)) k in
      (Ok id, notify_created id k)
  end.

Definition spawn (task_entry : Z) (bytes : list Z) (w : Work.t) (stack : Z) (k : Kernel)
  : result nat * Kernel := spawn_with_priority task_entry bytes w DEFAULT_PRIORITY stack k.

Definition console_files : list Descriptor.t :=
  <[2%nat := Descriptor.Console]> (<[1%nat := Descriptor.Console]>
    (<[0%nat := Descriptor.Console]> (replicate MAX_FILES Descriptor.Free))).

Definition spawn_user (bytes : list Z) (entry user_stack root : Z) (parent' : option nat)
    (argc argv stack : Z) (k : Kernel) : result nat * Kernel :=
  match free_task_slot (TASKS k) with
  | None => (Err "no free task slots", k)
  | Some id =>
      let top := stack_base stack in
      let '(sp, stores) := build_user_frame top entry user_stack argc argv in
      let k := k <| STACKS := store_all stores (STACKS k) |> in
      let k := modify_task id (fun t =>
        put_name bytes
          (t <| state := State.Ready |> <| stack_pointer := sp |> <| kernel_stack_top := top |>
             <| address_space := Some root |> <| parent := parent' |> <| switches := 0 |>
             <| priority := DEFAULT_PRIORITY |> <| exit_code := 0 |> <| work := None |>
             <| _stack := Some stack |> <| files := console_files |>)) k in
      (Ok id, notify_created id k)
  end.

(** The pipe ends a set of descriptors holds gain an owner each. *)
Definition add_owner (d : Descriptor.t) (k : Kernel) : Kernel :=
  match d with
  | Descriptor.PipeRead p => modify_pipe p add_reader k
  | Descriptor.PipeWrite p => modify_pipe p add_writer k
  | _ => k
  end.

Definition child_name : list Z := [99; 104; 105; 108; 100].

Definition fork_from (parent' : nat) (root : Z) (frame : list Z) (stack : Z) (k : Kernel)
  : result nat * Kernel :=
  let p := TASKS k !!! parent' in
  match free_task_slot (TASKS k) with
  | None => (Err "no free task slots", k)
  | Some id =>
      let top := stack_base stack in
      let sp := top -₆₄ (Z.of_nat FRAME_WORDS * 8) in
      let k := k <| STACKS := store (store_frame sp frame (STACKS k)) (word_at sp RAX, 0) |> in
      let k := modify_task id (fun t =>
        t <| state := State.Ready |> <| stack_pointer := sp |> <| kernel_stack_top := top |>
          <| address_space := Some root |> <| parent := Some parent' |> <| switches := 0 |>
          <| priority := priority p |> <| exit_code := 0 |> <| work := None |>
          <| files := files p |> <| handlers := handlers p |> <| restorer := restorer p |>
          <| pending := 0 |> <| stack_top := stack_top p |> <| stack_limit := stack_limit p |>
          <| stack_faults := 0 |> <| _stack := Some stack |>
          <| name := child_name ++ drop 5 (name t) |> <| name_len := 5%nat |>) k in
      let k := fold_left (fun k d => add_owner d k) (files p) k in
      (Ok id, notify_created id k)
  end.

(** ** Descriptors *)

Definition descriptor (id fd : nat) (k : Kernel) : Descriptor.t :=
  if (MAX_FILES <=? fd)%nat then Descriptor.Free else files (TASKS k !!! id) !!! fd.

Definition set_file (id fd : nat) (d : Descriptor.t) (k : Kernel) : Kernel :=
  modify_task id (fun t => t <| files := <[fd := d]> (files t) |>) k.

Definition is_free (d : Descriptor.t) : bool := bool_decide (d = Descriptor.Free).

Definition add_descriptor (id : nat) (d : Descriptor.t) (k : Kernel) : option nat * Kernel :=
  match range_find 0 MAX_FILES (fun fd => is_free (files (TASKS k !!! id) !!! fd)) with
  | Some slot => (Some slot, set_file id slot d k)
  | None => (None, k)
  end.

Definition drop_owner (d : Descriptor.t) (k : Kernel) : Kernel :=
  match d with
  | Descriptor.PipeRead p => pipe_close_reader p k
  | Descriptor.PipeWrite p => pipe_close_writer p k
  | _ => k
  end.

Definition close_descriptor (id fd : nat) (k : Kernel) : bool * Kernel :=
  if (MAX_FILES <=? fd)%nat then (false, k)
  else
    let taken := files (TASKS k !!! id) !!! fd in
    let k := set_file id fd Descriptor.Free k in
    (negb (is_free taken), drop_owner taken k).

Definition duplicate_descriptor (id old new : nat) (k : Kernel) : bool * Kernel :=
  if (MAX_FILES <=? old)%nat || (MAX_FILES <=? new)%nat then (false, k)
  else
    let source := descriptor id old k in
    if is_free source then (false, k)
    else if (old =? new)%nat then (true, k)
    else
      let k := (close_descriptor id new k).2 in
      let k := add_owner source k in
      (true, set_file id new source k).

Definition close_all_descriptors (id : nat) (k : Kernel) : Kernel :=
  fold_left (fun k fd => (close_descriptor id fd k).2) (seq 0 MAX_FILES) k.

(** [make_pipe] of [syscall.rs], after its check of the user's pointer: a
    new pipe on the two lowest free descriptors. *)
Definition make_pipe (id : nat) (k : Kernel) : option (nat * nat) * Kernel :=
  let '(r, ps) := create (PIPES k) in
  let k := k <| PIPES := ps |> in
  match r with
  | None => (None, k)
  | Some pipe =>
      match add_descriptor id (Descriptor.PipeRead pipe) k with
      | (None, k) => (None, pipe_close_writer pipe (pipe_close_reader pipe k))
      | (Some read_fd, k) =>
          match add_descriptor id (Descriptor.PipeWrite pipe) k with
          | (None, k) => (None, pipe_close_writer pipe (close_descriptor id read_fd k).2)
          | (Some write_fd, k) => (Some (read_fd, write_fd), k)
          end
      end
  end.

(** ** Finishing and reaping *)

Definition finish (id : nat) (code : Z) (k : Kernel) : Kernel :=
  let k := close_all_descriptors id k in
  let k := modify_task id (fun t => t <| exit_code := code |> <| state := State.Finished |>) k in
  wake (Z.of_nat id) k.

(** [*task = Task::empty(); task_exited(id)]. *)
Definition empty_slot (id : nat) (k : Kernel) : Kernel :=
  notify_exited id (modify_task id (fun _ => Task_empty) k).

Definition reap_finished (k : Kernel) : Kernel :=
  fold_left (fun k id => if is_state State.Finished (TASKS k !!! id) then empty_slot id k else k)
    (seq 1 (MAX_TASKS - 1)) k.

Definition is_child (parent' : nat) (t : Task) : bool := bool_decide (parent t = Some parent').

(** The critical section of [wait_any_child]: collect a finished child. *)
Definition collect (parent' : nat) (k : Kernel) : option Z * Kernel :=
  match range_find 0 MAX_TASKS (fun id =>
          let t := TASKS k !!! id in is_child parent' t && is_state State.Finished t) with
  | None => (None, k)
  | Some id =>
      let t := TASKS k !!! id in
      let k := match address_space t with
               | Some root => k <| ORPHANS := ORPHANS k ++ [root] |>
               | None => k
               end in
      (Some (exit_code t), empty_slot id k)
  end.

(** One turn of [wait_any_child]'s loop: an answer, or the child it sleeps
    on ([block_until] parks on the child's own channel). *)
Inductive wait_outcome := Collected (code : Z) | NoChild | SleepsOn (child : nat).

Definition wait_turn (parent' : nat) (k : Kernel) : wait_outcome * Kernel :=
  match collect parent' k with
  | (Some code, k) => (Collected code, k)
  | (None, k) =>
      match range_find 0 (length (TASKS k)) (fun id =>
              let t := TASKS k !!! id in is_child parent' t && negb (is_state State.Free t)) with
      | None => (NoChild, k)
      | Some child =>
          (SleepsOn child, k <| TASKS := park parent' (Z.of_nat child) (TASKS k) |>)
      end
  end.

Definition wait_any_child (parent' : nat) (k : Kernel) : wait_outcome * Kernel :=
  let any := existsb (fun id => let t := TASKS k !!! id in
               is_child parent' t && negb (is_state State.Free t) && negb (id =? parent')%nat)
             (seq 0 (length (TASKS k))) in
  if negb any then (NoChild, k) else wait_turn parent' k.

Definition gone (t : Task) : bool := is_state State.Finished t || is_state State.Free t.

(** Every address space left over, each taken out of the table. *)
Definition orphan_address_spaces (k : Kernel) : list Z * Kernel :=
  let take t := if gone t then t <| address_space := None |> else t in
  let left := omap (fun t => if gone t then address_space t else None) (TASKS k) in
  (ORPHANS k ++ left, k <| TASKS := take <$> TASKS k |> <| ORPHANS := [] |>).

(** ** Signals and the foreground *)

Definition signal (id number : nat) (k : Kernel) : bool * Kernel :=
  if (MAX_TASKS <=? id)%nat || (MAX_SIGNALS <=? number)%nat then (false, k)
  else
    let '(sent, t) := post_signal number (TASKS k !!! id) in
    (sent, modify_task id (fun _ => t) k).

Definition foreground_user_task (k : Kernel) : option nat :=
  List.find (fun id => let t := TASKS k !!! id in
               bool_decide (is_Some (address_space t)) && negb (gone t))
    (rev (seq 1 (MAX_TASKS - 1))).

Definition busy (k : Kernel) : bool :=
  existsb (fun id => negb (id =? 0)%nat && negb (gone (TASKS k !!! id))) (seq 0 MAX_TASKS).

Definition set_stack_region (id : nat) (top limit : Z) (k : Kernel) : Kernel :=
  modify_task id (fun t => t <| stack_top := top |> <| stack_limit := limit |>
                             <| stack_faults := 0 |>) k.
Definition note_stack_fault (id : nat) (k : Kernel) : Z * Kernel :=
  let k := modify_task id (fun t => t <| stack_faults := stack_faults t +₆₄ 1 |>) k in
  (stack_faults (TASKS k !!! id), k).

(** [exec]'s change of program: new code, no handlers. *)
Definition set_address_space (id : nat) (root : Z) (k : Kernel) : Kernel :=
  modify_task id (fun t => t <| address_space := Some root |>) k.

(** ** The timer *)

Definition wake_sleeper (now : Z) (t : Task) : Task :=
  match state t with
  | State.Blocked (Reason.Until deadline) =>
      if deadline <=? now then t <| state := State.Ready |> else t
  | _ => t
  end.

Definition load_stack (t : Task) (k : Kernel) : Kernel :=
  if kernel_stack_top t =? 0 then k else k <| RSP0 := kernel_stack_top t |>.

(** Following the task that was picked: the address space and the stack the
    CPU will use when it next enters ring 0. *)
Definition switch_to (next : nat) (k : Kernel) : Kernel :=
  let k := modify_task next (fun t => t <| switches := switches t +₆₄ 1 |>)
             (k <| CURRENT := next |>) in
  let t := TASKS k !!! next in
  let want := default (KERNEL_ROOT k) (address_space t) in
  let k := if negb (want =? 0) && negb (want =? CR3 k) then k <| CR3 := want |> else k in
  load_stack t k.

(** Where to go when the task picked has just been killed. *)
Definition fallback (next : nat) (ts : Table) : nat :=
  default 0%nat (List.find (fun id => is_state State.Ready (ts !!! id)) (rotation next)).

(** Signal delivery to the task about to resume. *)
Definition deliver_on_resume (next : nat) (k : Kernel) : bool * Kernel :=
  let t := TASKS k !!! next in
  let sp := stack_pointer t in
  let '(kill, t', frame', stores) := deliver t (frame_at (STACKS k) sp) in
  (kill, modify_task next (fun _ => t') k
           <| STACKS := store_frame sp frame' (STACKS k) |>
           <| USER_MEMORY := fun root => if root =? CR3 k then store_all stores (USER_MEMORY k root)
                                         else USER_MEMORY k root |>).

Definition kill_picked (next : nat) (k : Kernel) : Kernel :=
  let k := modify_task next (fun t => t <| exit_code := 128 |> <| state := State.Finished |>) k in
  let k := wake (Z.of_nat next) k in
  let next' := fallback next (TASKS k) in
  let k := k <| CURRENT := next' |> in
  let t := TASKS k !!! next' in
  let k := match address_space t with Some root => k <| CR3 := root |> | None => k end in
  load_stack t k.

(** The first half of [schedule]: note where the current task stopped, wake
    the sleepers whose time has come, pick, and follow the pick. *)
Definition pick_next (sp now : Z) (k : Kernel) : nat * Kernel :=
  let current := CURRENT k in
  let k := modify_task current (fun t => t <| stack_pointer := sp |>) k in
  let k := k <| TASKS := wake_sleeper now <$> TASKS k |> in
  let '(next, sched) := choose (TASKS k) current now (SCHED k) in
  let k := k <| SCHED := sched |> in
  (next, if (next =? current)%nat then k else switch_to next k).

Definition signalled (next : nat) (k : Kernel) : bool :=
  let t := TASKS k !!! next in
  bool_decide (is_Some (address_space t)) && has_pending_signal t.

(** The stack pointer the CPU resumes on. *)
Definition schedule (sp now : Z) (k : Kernel) : Z * Kernel :=
  if negb (ENABLED k) then (sp, k)
  else
    let '(next, k) := pick_next sp now k in
    let k :=
      if signalled next k
      then
        let '(kill, k) := deliver_on_resume next k in
        if kill then kill_picked next k else k
      else k in
    (stack_pointer (TASKS k !!! CURRENT k), k).

(** The tick that has to end the task it picked. *)
Definition tick_kills (sp now : Z) (k : Kernel) : bool :=
  let '(next, k') := pick_next sp now k in
  ENABLED k && signalled next k' && (deliver_on_resume next k').1.
