(* ===== verification/Descriptors.v ===== *)
(** * Every pipe end is counted

    The operations of [kernel/src/task.rs] that open, inherit, duplicate and
    close descriptors keep each pipe's [readers] and [writers] equal to the
    number of descriptors that name that end.  End-of-file is made of these
    counts. *)

From stdpp Require Import relations.
From S2P Require Import Prelude TaskTable Policy Sched Pipe Signal Kernel.

#[local] Arguments Nat.ltb : simpl never.
#[local] Arguments Nat.leb : simpl never.

(** ** Counting *)

Definition ind (d e : Descriptor.t) : Z := if decide (e = d) then 1 else 0.
(** How many of [l] are [d]; how many descriptors of the table are. *)
Definition count (d : Descriptor.t) (l : list Descriptor.t) : Z := sum (ind d) l.
Definition ends (d : Descriptor.t) (ts : Table) : Z := sum (fun t => count d (files t)) ts.

Lemma ind_bound d e : 0 <= ind d e <= 1.
Proof. unfold ind. case_decide; lia. Qed.

Lemma count_nonneg d l : 0 <= count d l.
Proof. unfold count. destruct (sum_bound (ind d) l 1); [|done]. intros; apply ind_bound. Qed.

Lemma count_free p l :
  l = replicate MAX_FILES Descriptor.Free ->
  count (Descriptor.PipeRead p) l = 0 /\ count (Descriptor.PipeWrite p) l = 0.
Proof. intros ->. done. Qed.

Lemma ends_bound d ts : table_wf ts -> 0 <= ends d ts <= 64.
Proof.
  intros [Hlen Hall]. unfold ends.
  destruct (sum_bound (fun t => count d (files t)) ts 8) as [H1 H2].
  - intros t Ht. rewrite Forall_forall in Hall. destruct (Hall t Ht) as (_ & Hf & _).
    unfold count. destruct (sum_bound (ind d) (files t) 1) as [H1 H2]; [intros; apply ind_bound|].
    rewrite Hf in H2. unfold MAX_FILES in H2. lia.
  - rewrite Hlen in H2. unfold MAX_TASKS in H2. lia.
Qed.

Lemma ends_update d ts id f :
  table_wf ts -> (id < MAX_TASKS)%nat ->
  ends d (update_task id f ts) =
    ends d ts - count d (files (ts !!! id)) + count d (files (f (ts !!! id))).
Proof. intros [Hlen _] Hid. unfold ends, update_task. by rewrite sum_insert by lia. Qed.

Lemma ends_map d ts f : (forall t, files (f t) = files t) -> ends d (f <$> ts) = ends d ts.
Proof.
  intros Hf. unfold ends. change (f <$> ts) with (map f ts). rewrite sum_map.
  apply sum_ext. intros t _. by rewrite Hf.
Qed.

Lemma ends_elem d ts id :
  table_wf ts -> (id < MAX_TASKS)%nat -> count d (files (ts !!! id)) <= ends d ts.
Proof.
  intros [Hlen _] Hid. unfold ends.
  apply (sum_elem (fun t => count d (files t))); [intros; apply count_nonneg|].
  apply list_elem_of_lookup_2 with id, list_lookup_lookup_total_lt. lia.
Qed.

Lemma count_elem d l fd : (fd < length l)%nat -> l !!! fd = d -> 1 <= count d l.
Proof.
  intros Hfd E. unfold count. transitivity (ind d d); [unfold ind; by rewrite decide_True|].
  apply (sum_elem (ind d)); [intros; apply ind_bound|].
  apply list_elem_of_lookup_2 with fd. rewrite <- E. by apply list_lookup_lookup_total_lt.
Qed.

(** ** The invariant, with descriptors in flight

    [delta d] is how far the count of the end [d] is ahead of the table while
    an operation is half done. *)

Definition valid (d : Descriptor.t) : Prop :=
  match d with
  | Descriptor.PipeRead p | Descriptor.PipeWrite p => (p < MAX_PIPES)%nat
  | _ => True
  end.

Definition pipe_of (d : Descriptor.t) : nat :=
  match d with Descriptor.PipeRead p | Descriptor.PipeWrite p => p | _ => 0%nat end.

(** The count a pipe keeps for an end. *)
Definition end_count (d : Descriptor.t) (p : Pipe) : Z :=
  match d with
  | Descriptor.PipeRead _ => readers p
  | Descriptor.PipeWrite _ => writers p
  | _ => 0
  end.
Definition owners (d : Descriptor.t) (ps : Pipes) : Z := end_count d (ps !!! pipe_of d).

Definition is_pipe (d : Descriptor.t) : bool :=
  match d with Descriptor.PipeRead _ | Descriptor.PipeWrite _ => true | _ => false end.

Definition Free_files : list Descriptor.t := replicate MAX_FILES Descriptor.Free.

Record counted (delta : Descriptor.t -> Z) (k : Kernel) : Prop := {
  c_tasks : table_wf (TASKS k);
  c_pipes : length (PIPES k) = MAX_PIPES;
  c_valid id fd : (id < MAX_TASKS)%nat -> (fd < MAX_FILES)%nat ->
    valid (files (TASKS k !!! id) !!! fd);
  c_owners d : is_pipe d = true -> valid d -> owners d (PIPES k) = ends d (TASKS k) + delta d;
  c_nonneg d : is_pipe d = true -> valid d -> 0 <= owners d (PIPES k);
  c_in_use p : (p < MAX_PIPES)%nat ->
    in_use (PIPES k !!! p) = true <-> (readers (PIPES k !!! p) <> 0 \/ writers (PIPES k !!! p) <> 0)
}.

Definition none : Descriptor.t -> Z := fun _ => 0.

(** A slot that is free or finished holds nothing open. *)
Definition clean (k : Kernel) : Prop :=
  forall id, (id < MAX_TASKS)%nat -> gone (TASKS k !!! id) = true -> files (TASKS k !!! id) = Free_files.

Definition fd_inv (k : Kernel) : Prop := counted none k /\ clean k.

Definition live (id : nat) (k : Kernel) : Prop :=
  (id < MAX_TASKS)%nat /\ gone (TASKS k !!! id) = false.

Lemma counted_ext delta delta' k :
  (forall d, is_pipe d = true -> delta' d = delta d) -> counted delta k -> counted delta' k.
Proof. intros H []. constructor; try done. intros d Hp Hv. rewrite H by done. auto. Qed.

(** ** The moves *)

Lemma update_pipe_lookup (ps : Pipes) p q f :
  (p < length ps)%nat -> update_pipe p f ps !!! q = if decide (p = q) then f (ps !!! p) else ps !!! q.
Proof. intros Hp. by apply list_insert_total. Qed.

(** The two ends of one pipe, treated alike. *)
Definition bump (d : Descriptor.t) (p : Pipe) : Pipe :=
  match d with Descriptor.PipeRead _ => add_reader p | _ => add_writer p end.
Definition unbump (d : Descriptor.t) (p : Pipe) : Pipe :=
  match d with Descriptor.PipeRead _ => close_reader p | _ => close_writer p end.

Lemma add_owner_pipe d k : is_pipe d = true -> add_owner d k = modify_pipe (pipe_of d) (bump d) k.
Proof. by destruct d. Qed.

Lemma valid_lt d (ps : Pipes) : is_pipe d = true -> valid d -> length ps = MAX_PIPES -> (pipe_of d < length ps)%nat.
Proof. intros Hp Hv ->. by destruct d. Qed.

Lemma bump_counts d e p :
  is_pipe d = true -> is_pipe e = true -> pipe_of d = pipe_of e ->
  end_count e (bump d p) = if decide (e = d) then end_count e p +₃₂ 1 else end_count e p.
Proof. intros Hd He E. destruct d, e; try done; cbn in *; subst; by case_decide. Qed.

Lemma unbump_counts d e p :
  is_pipe d = true -> is_pipe e = true -> pipe_of d = pipe_of e ->
  end_count e (unbump d p) = if decide (e = d) then sat_sub (end_count e p) 1 else end_count e p.
Proof.
  intros Hd He E. destruct d, e; try done; cbn in *; subst;
    unfold close_reader, close_writer, release_if_closed; repeat case_match; done.
Qed.

(** A pipe is released exactly when its last end is. *)
Lemma unbump_in_use d p :
  is_pipe d = true -> 0 <= readers p /\ 0 <= writers p ->
  (in_use p = true <-> readers p <> 0 \/ writers p <> 0) -> 1 <= end_count d p ->
  in_use (unbump d p) = true <-> (readers (unbump d p) <> 0 \/ writers (unbump d p) <> 0).
Proof.
  intros Hp [Hr Hw] Hu H1.
  assert (Hin : in_use p = true) by (apply Hu; destruct d; cbn in *; lia).
  destruct d; try done; cbn in *; unfold close_reader, close_writer, release_if_closed, sat_sub; cbn;
    case_match eqn:E; cbn; rewrite ?andb_true_iff, ?andb_false_iff, ?Z.eqb_eq, ?Z.eqb_neq in E;
    (split; [intros H|intros H]); try done; try lia.
Qed.

(** Changing one end's count by [by_]. *)
Lemma counted_modify delta d k f by_ ts :
  counted delta k -> is_pipe d = true -> valid d ->
  (forall e, is_pipe e = true -> pipe_of d = pipe_of e ->
     end_count e (f (PIPES k !!! pipe_of d)) = end_count e (PIPES k !!! pipe_of d) +
       (if decide (e = d) then by_ else 0)) ->
  0 <= owners d (PIPES k) + by_ ->
  (in_use (f (PIPES k !!! pipe_of d)) = true <->
     (readers (f (PIPES k !!! pipe_of d)) <> 0 \/ writers (f (PIPES k !!! pipe_of d)) <> 0)) ->
  table_wf ts -> (forall e, ends e ts = ends e (TASKS k)) ->
  (forall id fd, (id < MAX_TASKS)%nat -> (fd < MAX_FILES)%nat -> valid (files (ts !!! id) !!! fd)) ->
  counted (fun e => delta e + by_ * ind d e) (modify_pipe (pipe_of d) f k <| TASKS := ts |>).
Proof.
  intros H Hp Hv Hf Hpos Huse Hts Hends Hval. pose proof H as [].
  pose proof (valid_lt d (PIPES k) Hp Hv c_pipes0) as Hlt.
  assert (Hown : forall e, is_pipe e = true ->
            owners e (update_pipe (pipe_of d) f (PIPES k)) = owners e (PIPES k) + by_ * ind d e).
  { intros e He. unfold owners. rewrite update_pipe_lookup by done. unfold ind. case_decide as E.
    - rewrite Hf, <- E by done. case_decide; lia.
    - rewrite decide_False by (by intros ->). lia. }
  constructor; cbn [TASKS PIPES set_field set_TASKS set_PIPES modify_pipe]; try done.
  - by rewrite <- c_pipes0; apply length_insert.
  - intros e He Hve. rewrite Hown, c_owners0, Hends by done. lia.
  - intros e He Hve. rewrite Hown by done. pose proof (c_nonneg0 e He Hve).
    unfold ind. case_decide; [subst|]; lia.
  - intros q Hq. rewrite update_pipe_lookup by done. case_decide; [|by apply c_in_use0]. by subst.
Qed.

Lemma with_TASKS k : k <| TASKS := TASKS k |> = k.
Proof. by destruct k. Qed.

(** Gaining an owner; the pipe must be open already. *)
Lemma counted_add_owner delta d k :
  counted delta k -> valid d -> (is_pipe d = true -> in_use (PIPES k !!! pipe_of d) = true) ->
  (forall e, delta e <= 64) ->
  counted (fun e => delta e + if is_pipe d then ind d e else 0) (add_owner d k).
Proof.
  intros H Hv Hopen Hd. destruct (is_pipe d) eqn:Hp.
  2: { destruct d; try done; (eapply counted_ext; [|exact H]); intros; lia. }
  specialize (Hopen eq_refl). pose proof H as [].
  pose proof (c_nonneg0 d Hp Hv) as H0. pose proof (c_owners0 d Hp Hv) as Ho.
  pose proof (ends_bound d _ c_tasks0) as He64. pose proof (Hd d) as Hd64.
  assert (Hsmall : end_count d (PIPES k !!! pipe_of d) +₃₂ 1 = end_count d (PIPES k !!! pipe_of d) + 1).
  { apply wrap_small. unfold in_u, owners in *. lia. }
  rewrite add_owner_pipe by done. rewrite <- (with_TASKS (modify_pipe _ _ _)).
  eapply counted_ext; [|apply (counted_modify delta d k (bump d) 1); try done].
  - intros e _. cbn. lia.
  - intros e He E. rewrite bump_counts by done. case_decide; [subst; by rewrite Hsmall|lia].
  - lia.
  - unfold owners in H0. destruct d; try done; cbn in *; (split; [intros _|by intros _]);
      rewrite Hsmall; lia.
Qed.

(** Replacing one task's record. *)
Lemma counted_files delta id f k :
  counted delta k -> (id < MAX_TASKS)%nat ->
  (task_wf (TASKS k !!! id) -> task_wf (f (TASKS k !!! id))) ->
  (forall fd, (fd < MAX_FILES)%nat -> valid (files (f (TASKS k !!! id)) !!! fd)) ->
  counted (fun e => delta e + count e (files (TASKS k !!! id))
                            - count e (files (f (TASKS k !!! id)))) (modify_task id f k).
Proof.
  intros [] Hid Hwf Hval. constructor; cbn [TASKS PIPES set_field set_TASKS modify_task]; try done.
  - by apply update_task_wf.
  - intros j fd Hj Hfd. rewrite update_task_lookup by done. case_decide; [by apply Hval|auto].
  - intros d Hp Hv. rewrite ends_update, c_owners0 by done. lia.
Qed.

Lemma files_length k delta id : counted delta k -> (id < MAX_TASKS)%nat ->
  length (files (TASKS k !!! id)) = MAX_FILES.
Proof. intros H Hid. apply (table_wf_lookup _ _ (c_tasks _ _ H) Hid). Qed.

Lemma counted_set_file delta id fd d k :
  counted delta k -> (id < MAX_TASKS)%nat -> (fd < MAX_FILES)%nat -> valid d ->
  counted (fun e => delta e + ind e (files (TASKS k !!! id) !!! fd) - ind e d) (set_file id fd d k).
Proof.
  intros H Hid Hfd Hv. pose proof (files_length _ _ _ H Hid) as Hl. unfold set_file.
  eapply counted_ext; [|apply (counted_files delta id _ k H Hid)].
  - intros e _. cbn [files set_field set_files]. unfold count. rewrite sum_insert by lia. lia.
  - unfold task_wf. cbn. rewrite length_insert. tauto.
  - intros j Hj. cbn [files set_field set_files]. rewrite list_insert_total by lia.
    case_decide; [done|]. by apply (c_valid _ _ H).
Qed.

(** Waking changes neither the counts nor the descriptors. *)
Lemma wake_one_files c t : files (wake_one c t) = files t.
Proof. unfold wake_one. by case_match. Qed.

Lemma table_wf_map (f : Task -> Task) (ts : Table) : (forall t, task_wf t -> task_wf (f t)) -> table_wf ts -> table_wf (f <$> ts).
Proof.
  intros Hf [Hl Ha]. split; [by rewrite length_fmap|]. apply Forall_fmap.
  eapply Forall_impl; [exact Ha|]. exact Hf.
Qed.

Lemma map_total (f : Task -> Task) (ts : Table) (j : nat) : table_wf ts -> (j < MAX_TASKS)%nat -> (f <$> ts) !!! j = f (ts !!! j).
Proof.
  intros [Hl _] Hj. apply list_lookup_total_correct. rewrite list_lookup_fmap.
  rewrite list_lookup_lookup_total_lt by lia. done.
Qed.

Lemma counted_map delta f k :
  counted delta k -> (forall t, task_wf t -> task_wf (f t)) -> (forall t, files (f t) = files t) ->
  counted delta (k <| TASKS := f <$> TASKS k |>).
Proof.
  intros [] Hf Hfiles. constructor; cbn [TASKS PIPES set_field set_TASKS]; try done.
  - by apply table_wf_map.
  - intros id fd Hid Hfd. rewrite map_total, Hfiles by done. auto.
  - intros d Hp Hv. rewrite ends_map by done. auto.
Qed.

Lemma counted_wake delta c k : counted delta k -> counted delta (wake c k).
Proof. intros H. apply (counted_map delta (wake_one c) k H); [apply wake_one_wf|apply wake_one_files]. Qed.

(** Losing an owner. *)
Lemma drop_owner_pipe d k : is_pipe d = true ->
  exists c, drop_owner d k = wake c (modify_pipe (pipe_of d) (unbump d) k).
Proof. destruct d; intros; try done; eexists; reflexivity. Qed.

Lemma counted_drop_owner delta d k :
  counted delta k -> valid d -> (is_pipe d = true -> 1 <= delta d) ->
  counted (fun e => delta e - if is_pipe d then ind e d else 0) (drop_owner d k).
Proof.
  intros H Hv Hd. destruct (is_pipe d) eqn:Hp.
  2: { destruct d; try done; (eapply counted_ext; [|exact H]); intros; lia. }
  specialize (Hd eq_refl). pose proof H as [].
  pose proof (c_owners0 d Hp Hv) as Ho. pose proof (ends_bound d _ c_tasks0) as He.
  destruct (drop_owner_pipe d k Hp) as [c ->]. apply counted_wake.
  assert (Hone : 1 <= end_count d (PIPES k !!! pipe_of d)) by (unfold owners in Ho; lia).
  rewrite <- (with_TASKS (modify_pipe _ _ _)).
  eapply counted_ext; [|apply (counted_modify delta d k (unbump d) (-1)); try done].
  - intros e _. cbn. unfold ind. do 2 case_decide; subst; try done; lia.
  - intros e He' E. rewrite unbump_counts by done. unfold sat_sub. case_decide; [subst; lia|lia].
  - unfold owners. lia.
  - assert (Hr : forall b, is_pipe b = true -> pipe_of b = pipe_of d ->
              0 <= end_count b (PIPES k !!! pipe_of d)).
    { intros b Hb E. rewrite <- E. apply (c_nonneg0 b Hb). destruct b, d; try done; cbn in *; by subst. }
    assert (Hrw : 0 <= readers (PIPES k !!! pipe_of d) /\ 0 <= writers (PIPES k !!! pipe_of d)).
    { split; [apply (Hr (Descriptor.PipeRead (pipe_of d)))|apply (Hr (Descriptor.PipeWrite (pipe_of d)))]; done. }
    pose proof (c_in_use0 (pipe_of d) ltac:(by destruct d)) as Hu.
    apply unbump_in_use; tauto || lia.
Qed.

(** ** Operations that keep the whole invariant *)

Definition inv (delta : Descriptor.t -> Z) (k : Kernel) : Prop := counted delta k /\ clean k.

(** Updating a task without touching its descriptors or bringing it to life
    or death. *)
Definition quiet (f : Task -> Task) : Prop :=
  forall t, task_wf t -> task_wf (f t) /\ files (f t) = files t /\ gone (f t) = gone t.

Lemma inv_map delta f k : inv delta k -> quiet f -> inv delta (k <| TASKS := f <$> TASKS k |>).
Proof.
  intros [H Hc] Hf. pose proof (c_tasks _ _ H) as Hts.
  assert (Hwf : forall id, (id < MAX_TASKS)%nat -> task_wf (TASKS k !!! id))
    by (intros; by apply table_wf_lookup).
  split.
  - destruct H. constructor; cbn [TASKS PIPES set_field set_TASKS]; try done.
    + apply table_wf_map; [|done]. intros t Ht. by apply Hf.
    + intros id fd Hid Hfd. rewrite map_total by done.
      destruct (Hf _ (Hwf id Hid)) as (_ & -> & _). auto.
    + intros d Hp Hv. rewrite c_owners0 by done. unfold ends. change (f <$> TASKS k) with (map f (TASKS k)).
      rewrite sum_map. f_equal. apply sum_ext. intros t Ht. destruct Hts as [_ Ha].
      rewrite Forall_forall in Ha. by destruct (Hf t (Ha t Ht)) as (_ & -> & _).
  - intros id Hid. cbn [TASKS set_field set_TASKS]. rewrite map_total by done.
    destruct (Hf _ (Hwf id Hid)) as (_ & -> & ->). auto.
Qed.

Lemma inv_task_at delta id f k :
  inv delta k ->
  (let t := TASKS k !!! id in
   (id < MAX_TASKS)%nat -> task_wf t -> task_wf (f t) /\ files (f t) = files t /\ gone (f t) = gone t) ->
  inv delta (modify_task id f k).
Proof.
  intros [H Hc] Hf. pose proof (c_tasks _ _ H) as Hts. destruct (decide (id < MAX_TASKS)%nat) as [Hid|Hid].
  - destruct (Hf Hid (table_wf_lookup _ _ Hts Hid)) as (Hwf & Hfiles & Hgone). split.
    + eapply counted_ext; [|apply (counted_files delta id f k H Hid)]; [|done|].
      * intros d _. rewrite Hfiles. lia.
      * intros fd Hfd. rewrite Hfiles. by apply (c_valid _ _ H).
    + intros j Hj. cbn [TASKS modify_task set_field set_TASKS]. rewrite update_task_lookup by done.
      case_decide; [subst; rewrite Hfiles, Hgone|]; auto.
  - unfold modify_task, update_task. rewrite list_insert_ge; [by destruct k|].
    destruct Hts as [-> _]. lia.
Qed.

Lemma inv_task delta id f k : inv delta k -> quiet f -> inv delta (modify_task id f k).
Proof. intros H Hf. apply inv_task_at; [done|]. intros t _. apply Hf. Qed.

Lemma quiet_wake c : quiet (wake_one c).
Proof.
  intros t Ht. split_and!; [by apply wake_one_wf|apply wake_one_files|].
  unfold wake_one. destruct (is_state _ t) eqn:E; [|done]. apply bool_decide_eq_true in E.
  unfold gone, is_state. by rewrite E.
Qed.

Lemma inv_wake delta c k : inv delta k -> inv delta (wake c k).
Proof. intros H. apply (inv_map delta (wake_one c) k H), quiet_wake. Qed.

(** Statics the invariant does not read. *)
Lemma inv_frame delta k k' : inv delta k -> TASKS k' = TASKS k -> PIPES k' = PIPES k -> inv delta k'.
Proof.
  intros [[] Hc] Et Ep. split; [constructor; rewrite ?Et, ?Ep; done|].
  intros id Hid. rewrite Et. auto.
Qed.

Lemma inv_drop_owner delta d k :
  inv delta k -> valid d -> (is_pipe d = true -> 1 <= delta d) ->
  inv (fun e => delta e - if is_pipe d then ind e d else 0) (drop_owner d k).
Proof.
  intros [H Hc] Hv Hd. split; [by apply counted_drop_owner|].
  pose proof (c_tasks _ _ H) as Hts. intros id Hid.
  destruct (is_pipe d) eqn:Hp; [|destruct d; try done; by apply Hc].
  destruct (drop_owner_pipe d k Hp) as [c ->]. unfold wake. cbn [TASKS modify_pipe set_field set_TASKS set_PIPES].
  rewrite wake_all_lookup by done. destruct (quiet_wake c _ (table_wf_lookup _ _ Hts Hid)) as (_ & -> & ->).
  by apply Hc.
Qed.

Lemma drop_owner_tasks d k id :
  table_wf (TASKS k) -> (id < MAX_TASKS)%nat ->
  files (TASKS (drop_owner d k) !!! id) = files (TASKS k !!! id) /\
  gone (TASKS (drop_owner d k) !!! id) = gone (TASKS k !!! id).
Proof.
  intros Hts Hid. destruct (is_pipe d) eqn:Hp; [|by destruct d].
  destruct (drop_owner_pipe d k Hp) as [c ->]. unfold wake. cbn [TASKS modify_pipe set_field set_TASKS set_PIPES].
  rewrite wake_all_lookup by done. by destruct (quiet_wake c _ (table_wf_lookup _ _ Hts Hid)) as (_ & -> & ->).
Qed.

Lemma add_owner_tasks d k : TASKS (add_owner d k) = TASKS k.
Proof. by destruct d. Qed.

Lemma inv_add_owner delta d k :
  inv delta k -> valid d -> (is_pipe d = true -> in_use (PIPES k !!! pipe_of d) = true) ->
  (forall e, delta e <= 64) ->
  inv (fun e => delta e + if is_pipe d then ind d e else 0) (add_owner d k).
Proof.
  intros [H Hc] Hv Ho Hd. split; [by apply counted_add_owner|].
  intros id Hid. rewrite add_owner_tasks. by apply Hc.
Qed.

Lemma set_file_tasks id fd d k j :
  table_wf (TASKS k) -> (id < MAX_TASKS)%nat ->
  files (TASKS (set_file id fd d k) !!! j) =
    (if decide (id = j) then <[fd := d]> (files (TASKS k !!! id)) else files (TASKS k !!! j)) /\
  gone (TASKS (set_file id fd d k) !!! j) = gone (TASKS k !!! j).
Proof.
  intros Hts Hid. unfold set_file, modify_task. cbn [TASKS set_field set_TASKS].
  rewrite update_task_lookup by done. case_decide; [by subst|done].
Qed.

Lemma inv_set_file delta id fd d k :
  inv delta k -> live id k -> (fd < MAX_FILES)%nat -> valid d ->
  inv (fun e => delta e + ind e (files (TASKS k !!! id) !!! fd) - ind e d) (set_file id fd d k).
Proof.
  intros [H Hc] [Hid Hl] Hfd Hv. split; [by apply counted_set_file|].
  intros j Hj. destruct (set_file_tasks id fd d k j (c_tasks _ _ H) Hid) as [-> ->].
  case_decide; [subst; congruence|by apply Hc].
Qed.

(** An end the table or the operation holds belongs to an open pipe. *)
Lemma held_in_use delta d k :
  counted delta k -> is_pipe d = true -> valid d -> 1 <= ends d (TASKS k) + delta d ->
  in_use (PIPES k !!! pipe_of d) = true.
Proof.
  intros H Hp Hv H1. pose proof (c_owners _ _ H d Hp Hv) as Ho.
  apply (c_in_use _ _ H); [by destruct d|]. unfold owners in Ho. destruct d; try done; cbn in *; lia.
Qed.

Lemma named_ends delta id fd k :
  counted delta k -> (id < MAX_TASKS)%nat -> (fd < MAX_FILES)%nat ->
  1 <= ends (files (TASKS k !!! id) !!! fd) (TASKS k).
Proof.
  intros H Hid Hfd. etransitivity; [|apply ends_elem; [apply H|exact Hid]].
  apply count_elem with fd; [|done]. by rewrite (files_length _ _ _ H Hid).
Qed.

(** ** Each operation *)

Lemma inv_ext delta delta' k :
  (forall d, is_pipe d = true -> delta' d = delta d) -> inv delta k -> inv delta' k.
Proof. intros E [H Hc]. split; [by eapply counted_ext|done]. Qed.

Lemma ind_self d : ind d d = 1.
Proof. unfold ind. by rewrite decide_True. Qed.

Lemma ind_sym d e : ind d e = ind e d.
Proof. unfold ind. repeat case_decide; congruence. Qed.

Lemma ind_not_pipe d e : is_pipe d = false -> is_pipe e = true -> ind d e = 0 /\ ind e d = 0.
Proof. intros Hd He. unfold ind. split; case_decide; congruence. Qed.

(** What closing does to the descriptors and to who is alive. *)
Lemma close_descriptor_tasks id fd k j :
  table_wf (TASKS k) -> (id < MAX_TASKS)%nat -> (fd < MAX_FILES)%nat -> (j < MAX_TASKS)%nat ->
  let k' := (close_descriptor id fd k).2 in
  files (TASKS k' !!! j) =
    (if decide (id = j) then <[fd := Descriptor.Free]> (files (TASKS k !!! id)) else files (TASKS k !!! j)) /\
  gone (TASKS k' !!! j) = gone (TASKS k !!! j).
Proof.
  intros Hts Hid Hfd Hj. unfold close_descriptor. rewrite (proj2 (Nat.leb_gt _ _) Hfd). cbn [snd].
  destruct (set_file_tasks id fd Descriptor.Free k j Hts Hid) as [E1 E2].
  assert (Hts' : table_wf (TASKS (set_file id fd Descriptor.Free k))).
  { apply update_task_wf; [done..|]. unfold task_wf. cbn. rewrite length_insert. tauto. }
  destruct (drop_owner_tasks (files (TASKS k !!! id) !!! fd) _ j Hts' Hj) as [-> ->]. by rewrite E1, E2.
Qed.

Lemma inv_close delta id fd k :
  inv delta k -> live id k -> (fd < MAX_FILES)%nat -> (forall d, is_pipe d = true -> 0 <= delta d) ->
  inv delta (close_descriptor id fd k).2 /\
  (forall j, live j k -> live j (close_descriptor id fd k).2).
Proof.
  intros H Hl Hfd Hd. pose proof Hl as [Hid _]. pose proof H as [Hk _].
  split.
  2: { intros j [Hj Hg]. split; [done|]. pose proof (close_descriptor_tasks id fd k j (c_tasks _ _ Hk) Hid Hfd Hj)
         as [_ E]. cbn zeta in E. by rewrite E. }
  unfold close_descriptor. rewrite (proj2 (Nat.leb_gt _ _) Hfd). cbn [snd].
  set (d := files (TASKS k !!! id) !!! fd).
  assert (Hv : valid d) by (by apply (c_valid _ _ Hk)).
  pose proof (inv_set_file delta id fd Descriptor.Free k H Hl Hfd I) as H1. fold d in H1.
  pose proof (inv_drop_owner _ d _ H1 Hv) as H2. eapply inv_ext; [|apply H2].
  - intros e He. cbn beta. destruct (is_pipe d) eqn:Hp.
    + destruct (ind_not_pipe Descriptor.Free e eq_refl He) as [_ ->]. lia.
    + destruct (ind_not_pipe d e Hp He) as [_ ->], (ind_not_pipe Descriptor.Free e eq_refl He) as [_ ->]. lia.
  - intros Hp. specialize (Hd d Hp). destruct (ind_not_pipe Descriptor.Free d eq_refl Hp) as [_ ->].
    rewrite ind_self. lia.
Qed.

(** Putting a descriptor in flight into the table. *)
Lemma inv_add_descriptor delta id d k :
  inv delta k -> live id k -> valid d ->
  let '(slot, k') := add_descriptor id d k in
  PIPES k' = PIPES k /\ (forall j, live j k -> live j k') /\
  match slot with
  | Some fd => (fd < MAX_FILES)%nat /\ files (TASKS k' !!! id) !!! fd = d /\
               inv (fun e => delta e - ind e d) k'
  | None => k' = k
  end.
Proof.
  intros H Hl Hv. pose proof Hl as [Hid Hg]. pose proof H as [Hk _]. unfold add_descriptor.
  destruct (range_find _ _ _) as [fd|] eqn:E; [|done].
  apply range_find_Some in E as ([_ Hfd] & E & _). apply bool_decide_eq_true in E.
  split_and!; [done| |done| |].
  - intros j [Hj Hgj]. split; [done|].
    by destruct (set_file_tasks id fd d k j (c_tasks _ _ Hk) Hid) as [_ ->].
  - destruct (set_file_tasks id fd d k id (c_tasks _ _ Hk) Hid) as [-> _].
    rewrite decide_True by done. rewrite list_insert_total, decide_True; [done..|].
    by rewrite (files_length _ _ _ Hk Hid).
  - eapply inv_ext; [|apply (inv_set_file delta id fd d k H Hl Hfd Hv)].
    intros e He. cbn beta. rewrite E. destruct (ind_not_pipe Descriptor.Free e eq_refl He) as [_ ->]. lia.
Qed.

Lemma inv_create k p ps :
  inv none k -> create (PIPES k) = (Some p, ps) ->
  (p < MAX_PIPES)%nat /\
  inv (fun e => ind e (Descriptor.PipeRead p) + ind e (Descriptor.PipeWrite p)) (k <| PIPES := ps |>).
Proof.
  intros [H Hc] E. pose proof H as [? Hlen ? Ho Hn Hu]. unfold create in E.
  destruct (range_find _ _ _) as [q|] eqn:F; [|done]. injection E as -> <-.
  apply range_find_Some in F as ([_ Hp] & Hfree & _). rewrite Hlen in Hp. split; [done|]. split; [|done].
  apply negb_true_iff in Hfree. assert (Hz : readers (PIPES k !!! p) = 0 /\ writers (PIPES k !!! p) = 0).
  { pose proof (Hu p Hp) as Hup. rewrite Hfree in Hup. split; apply Z.eq_dne; intros ?; by destruct Hup as [_ Hup]; discriminate Hup; tauto. }
  assert (Hown : forall e, is_pipe e = true -> valid e ->
            owners e (update_pipe p (fun _ => Pipe_empty <| in_use := true |> <| readers := 1 |> <| writers := 1 |>)
                        (PIPES k)) =
            owners e (PIPES k) + (ind e (Descriptor.PipeRead p) + ind e (Descriptor.PipeWrite p))).
  { intros e He Hv. unfold owners, ind. rewrite update_pipe_lookup by lia.
    destruct e as [| |q|q]; try done; cbn [pipe_of end_count is_pipe] in *;
      case_decide as Eq; subst; repeat case_decide; try congruence; cbn; lia. }
  constructor; cbn [TASKS PIPES set_field set_PIPES]; try done.
  - unfold update_pipe. by rewrite length_insert.
  - intros d Hp' Hv. rewrite Hown, Ho by done. unfold none. lia.
  - intros d Hp' Hv. rewrite Hown by done. pose proof (Hn d Hp' Hv). pose proof (ind_bound d (Descriptor.PipeRead p)).
    pose proof (ind_bound d (Descriptor.PipeWrite p)). unfold ind in *. repeat case_decide; lia.
  - intros q Hq. rewrite update_pipe_lookup by lia. case_decide; [|by apply Hu]. cbn. split; [lia|done].
Qed.

Lemma inv_make_pipe id k : inv none k -> live id k -> inv none (make_pipe id k).2.
Proof.
  intros H Hl. unfold make_pipe. destruct (create (PIPES k)) as [[p|] ps] eqn:E.
  2: { unfold create in E. destruct (range_find _ _ _); [done|]. injection E as <-.
       by apply (inv_frame none k). }
  destruct (inv_create k p ps H E) as [Hp H1]. set (k1 := k <| PIPES := ps |>) in *.
  assert (Hr : Descriptor.PipeRead p <> Descriptor.PipeWrite p) by done.
  assert (Hends : forall d e, is_pipe d = true -> ind d e >= 0) by (intros; pose proof (ind_bound d e); lia).
  pose proof (inv_add_descriptor _ id (Descriptor.PipeRead p) k1 H1 Hl Hp) as HA.
  destruct (add_descriptor id (Descriptor.PipeRead p) k1) as [[rfd|] k2].
  - destruct HA as (_ & Hlive & Hrfd & Hfile & H2).
    pose proof (inv_add_descriptor _ id (Descriptor.PipeWrite p) k2 H2 (Hlive id Hl) Hp) as HB.
    destruct (add_descriptor id (Descriptor.PipeWrite p) k2) as [[wfd|] k3]; cbn [snd].
    + destruct HB as (_ & _ & _ & _ & H3). eapply inv_ext; [|exact H3]. intros; cbn; unfold none; lia.
    + destruct HB as (_ & _ & ->).
      destruct (inv_close _ id rfd k2 H2 (Hlive id Hl) Hrfd) as [H3 _].
      { intros d Hd. pose proof (ind_bound d (Descriptor.PipeWrite p)). lia. }
      eapply inv_ext; [|apply (inv_drop_owner _ (Descriptor.PipeWrite p) _ H3 Hp)].
      * intros d Hd. cbn. unfold none. lia.
      * intros _. rewrite ind_self. pose proof (ind_bound (Descriptor.PipeWrite p) (Descriptor.PipeRead p)). lia.
  - destruct HA as (_ & _ & ->). cbn [snd].
    assert (H2 := inv_drop_owner _ (Descriptor.PipeRead p) _ H1 Hp).
    specialize (H2 ltac:(intros _; cbn beta; rewrite ind_self;
      pose proof (ind_bound (Descriptor.PipeRead p) (Descriptor.PipeWrite p)); lia)).
    eapply inv_ext; [|apply (inv_drop_owner _ (Descriptor.PipeWrite p) _ H2 Hp)].
    + intros d Hd. cbn. unfold none. lia.
    + intros _. cbn. rewrite ind_self. lia.
Qed.

Lemma inv_duplicate id old new k :
  inv none k -> live id k -> inv none (duplicate_descriptor id old new k).2.
Proof.
  intros H Hl. unfold duplicate_descriptor.
  destruct (Nat.leb_spec MAX_FILES old) as [|Hold]; [done|].
  destruct (Nat.leb_spec MAX_FILES new) as [|Hnew]; [done|]. cbn [orb].
  unfold descriptor. rewrite (proj2 (Nat.leb_gt _ _) Hold).
  set (d := files (TASKS k !!! id) !!! old).
  destruct (is_free d) eqn:Hf; [done|]. destruct (Nat.eqb_spec old new) as [|Hne]; [done|]. cbn [snd].
  pose proof H as [Hk _]. pose proof Hl as [Hid _].
  assert (Hv : valid d) by (by apply (c_valid _ _ Hk)).
  destruct (inv_close none id new k H Hl Hnew) as [H1 Hlive]; [done|].
  destruct (close_descriptor_tasks id new k id (c_tasks _ _ Hk) Hid Hnew Hid) as [Ef _].
  set (k1 := (close_descriptor id new k).2) in *. rewrite decide_True in Ef by done.
  pose proof (files_length _ _ _ Hk Hid) as Hlen.
  assert (E1 : files (TASKS k1 !!! id) !!! old = d).
  { rewrite Ef, list_insert_total by lia. by rewrite decide_False. }
  assert (E2 : files (TASKS k1 !!! id) !!! new = Descriptor.Free).
  { rewrite Ef, list_insert_total by lia. by rewrite decide_True. }
  pose proof (inv_add_owner none d k1 H1 Hv) as H2.
  assert (Hopen : is_pipe d = true -> in_use (PIPES k1 !!! pipe_of d) = true).
  { intros Hp. apply (held_in_use none); try done; [apply H1|].
    pose proof (named_ends none id old k1 ltac:(apply H1) Hid Hold) as Hn. rewrite E1 in Hn.
    unfold none. lia. }
  specialize (H2 Hopen ltac:(unfold none; lia)).
  pose proof (inv_set_file _ id new d _ H2) as H3.
  eapply inv_ext; [|apply H3; [|done..]].
  - intros e He. cbn beta. rewrite add_owner_tasks, E2. unfold none.
    destruct (ind_not_pipe Descriptor.Free e eq_refl He) as [_ ->].
    destruct (is_pipe d) eqn:Hp; [rewrite (ind_sym d e); lia|].
    destruct (ind_not_pipe d e Hp He) as [_ ->]. lia.
  - unfold live. rewrite add_owner_tasks. by apply Hlive.
Qed.

(** Filling a free slot with a record that holds [files]. *)
Lemma inv_fill id f k :
  inv none k -> (1 <= id < MAX_TASKS)%nat -> state (TASKS k !!! id) = State.Free ->
  (task_wf (TASKS k !!! id) -> task_wf (f (TASKS k !!! id))) ->
  (forall fd, (fd < MAX_FILES)%nat -> valid (files (f (TASKS k !!! id)) !!! fd)) ->
  (gone (f (TASKS k !!! id)) = true -> files (f (TASKS k !!! id)) = Free_files) ->
  inv (fun e => - count e (files (f (TASKS k !!! id)))) (modify_task id f k).
Proof.
  intros [H Hc] [_ Hid] Hfree Hwf Hval Hg. pose proof (c_tasks _ _ H) as Hts. split.
  - eapply counted_ext; [|apply (counted_files none id f k H Hid Hwf Hval)].
    intros e He. rewrite (Hc id Hid); [|unfold gone, is_state; by rewrite Hfree].
    by destruct e.
  - intros j Hj. cbn [TASKS modify_task set_field set_TASKS]. rewrite update_task_lookup by done.
    case_decide; [by subst|]. by apply Hc.
Qed.

Lemma inv_add_owners l delta k :
  inv delta k ->
  (forall d, d ∈ l -> valid d /\ (is_pipe d = true -> in_use (PIPES k !!! pipe_of d) = true)) ->
  (forall e, delta e + count e l <= 64) ->
  inv (fun e => delta e + count e l) (fold_left (fun k d => add_owner d k) l k).
Proof.
  revert delta k. induction l as [|d l IH]; intros delta k H Hl Hb.
  { eapply inv_ext; [|exact H]. intros. cbn. lia. }
  destruct (Hl d ltac:(left)) as [Hv Ho].
  assert (Hd : forall e, delta e <= 64).
  { intros e. specialize (Hb e). pose proof (count_nonneg e (d :: l)). lia. }
  pose proof (inv_add_owner delta d k H Hv Ho Hd) as H1. cbn [fold_left].
  eapply inv_ext; [|apply (IH _ _ H1)].
  - intros e He. unfold count. cbn. destruct (is_pipe d) eqn:Hp; [rewrite (ind_sym d e); lia|].
    destruct (ind_not_pipe d e Hp He) as [_ ->]. destruct (ind_not_pipe d e Hp He) as [? ?]. lia.
  - intros e He. destruct (Hl e ltac:(by right)) as [Hve Hoe]. split; [done|]. intros Hpe. specialize (Hoe Hpe).
    destruct (is_pipe d) eqn:Hp; [|by destruct d]. rewrite add_owner_pipe by done.
    cbn [PIPES modify_pipe set_field set_PIPES]. destruct H as [H _].
    rewrite update_pipe_lookup by (by apply valid_lt; [..|apply H]). case_decide as E; [|done].
    rewrite <- E in Hoe. by destruct d.
  - intros e. specialize (Hb e). cbn in Hb. unfold count in *. cbn in Hb. unfold ind in *.
    repeat case_decide; destruct (is_pipe d); subst; try congruence; lia.
Qed.

Lemma free_task_slot_spec ts id :
  free_task_slot ts = Some id -> (1 <= id < MAX_TASKS)%nat /\ state (ts !!! id) = State.Free.
Proof.
  intros (Hid & E & _)%range_find_Some. split; [done|]. by apply bool_decide_eq_true in E.
Qed.

Lemma inv_fork parent' root frame stack k :
  inv none k -> live parent' k -> inv none (fork_from parent' root frame stack k).2.
Proof.
  intros H [Hp Hg]. unfold fork_from. destruct (free_task_slot (TASKS k)) as [id|] eqn:E; [|done].
  apply free_task_slot_spec in E as [Hid Hfree]. pose proof H as [Hk _]. cbn [snd].
  set (k1 := k <| STACKS := _ |>). set (f := fun t : Task => _).
  set (p := TASKS k !!! parent').
  assert (Hpw : task_wf p) by (apply table_wf_lookup; [apply Hk|done]).
  assert (H1 : inv none k1) by (by apply (inv_frame none k)).
  pose proof (inv_fill id f k1 H1 Hid Hfree) as H2.
  assert (Hf : files (f (TASKS k1 !!! id)) = files p) by done. rewrite Hf in H2.
  assert (Hlen : length (files p) = MAX_FILES) by apply Hpw.
  specialize (H2 ltac:(subst f; unfold task_wf in *; cbn; rewrite length_drop;
                       unfold in_u in *; intuition lia)
                 ltac:(intros; by apply (c_valid _ _ Hk)) ltac:(done)).
  apply (inv_frame none (fold_left (fun k d => add_owner d k) (files p) (modify_task id f k1)));
    [|done..].
  eapply inv_ext; [|apply (inv_add_owners (files p) _ _ H2)].
  - intros e _. cbn beta. unfold none. lia.
  - intros d [fd Hfd]%list_elem_of_lookup.
    pose proof (lookup_lt_Some _ _ _ Hfd) as Hlt. apply list_lookup_total_correct in Hfd. subst d.
    rewrite Hlen in Hlt. split; [by apply (c_valid _ _ Hk)|]. intros Hpipe.
    apply (held_in_use none _ k); [done..|by apply (c_valid _ _ Hk)|].
    pose proof (named_ends none parent' fd k Hk Hp Hlt) as Hn. unfold none, p in *. lia.
  - intros e. lia.
Qed.

Lemma count_console e : is_pipe e = true -> count e console_files = 0.
Proof. by destruct e. Qed.

Lemma inv_spawn_user bytes entry user_stack root parent' argc argv stack k :
  inv none k -> inv none (spawn_user bytes entry user_stack root parent' argc argv stack k).2.
Proof.
  intros H. unfold spawn_user. destruct (free_task_slot (TASKS k)) as [id|] eqn:E; [|done].
  apply free_task_slot_spec in E as [Hid Hfree].
  destruct (build_user_frame _ _ _ _ _) as [sp stores]. cbn [snd].
  set (k1 := k <| STACKS := _ |>). set (f := fun t : Task => put_name _ _).
  assert (H1 : inv none k1) by (by apply (inv_frame none k)).
  pose proof (inv_fill id f k1 H1 Hid Hfree) as H2.
  apply (inv_frame none (modify_task id f k1)); [|done..].
  eapply inv_ext; [|apply H2]; [| | |done].
  - intros e He. cbn beta. change (files (f (TASKS k1 !!! id))) with console_files.
    rewrite count_console by done. done.
  - intros Hw. apply put_name_wf. unfold task_wf, MAX_PRIORITY, DEFAULT_PRIORITY in *. cbn. intuition lia.
  - intros fd Hfd. change (files (f (TASKS k1 !!! id))) with console_files.
    unfold MAX_FILES in Hfd. do 8 (destruct fd as [|fd]; [done|]). lia.
Qed.

Lemma inv_spawn task_entry bytes w prio stack k :
  0 <= prio -> inv none k -> inv none (spawn_with_priority task_entry bytes w prio stack k).2.
Proof.
  intros Hprio H. unfold spawn_with_priority. destruct (free_task_slot (TASKS k)) as [id|] eqn:E; [|done].
  apply free_task_slot_spec in E as [Hid Hfree].
  destruct (build_frame _ _) as [sp stores]. cbn [snd].
  set (k1 := k <| STACKS := _ |>). set (f := fun t : Task => put_name _ _).
  assert (H1 : inv none k1) by (by apply (inv_frame none k)).
  assert (Hfiles : files (f (TASKS k1 !!! id)) = Free_files).
  { change (files (TASKS k !!! id) = Free_files). destruct H as [_ Hc]. apply Hc; [lia|].
    unfold gone, is_state. by rewrite Hfree. }
  pose proof (inv_fill id f k1 H1 Hid Hfree) as H2. rewrite Hfiles in H2.
  apply (inv_frame none (modify_task id f k1)); [|done..].
  eapply inv_ext; [|apply H2]; [| | |done].
  - intros e He. cbn beta. by destruct e.
  - intros Hw. apply put_name_wf. unfold task_wf, MAX_PRIORITY in *. cbn. intuition lia.
  - intros fd Hfd. unfold Free_files. by rewrite lookup_total_replicate.
Qed.

(** Closing a list of descriptors in turn. *)
Lemma inv_close_list l id k :
  inv none k -> live id k -> (forall fd, fd ∈ l -> (fd < MAX_FILES)%nat) ->
  let k' := fold_left (fun k fd => (close_descriptor id fd k).2) l k in
  inv none k' /\ live id k' /\
  files (TASKS k' !!! id) = fold_left (fun fs fd => <[fd := Descriptor.Free]> fs) l (files (TASKS k !!! id)).
Proof.
  revert k. induction l as [|fd l IH]; intros k H Hl Hin; cbn [fold_left]; [done|].
  destruct (inv_close none id fd k H Hl (Hin fd ltac:(left)) ltac:(done)) as [H1 Hlive].
  destruct (IH _ H1 (Hlive id Hl) ltac:(intros; apply Hin; by right)) as (H2 & Hl2 & E).
  split_and!; [done..|]. rewrite E. f_equal.
  destruct (close_descriptor_tasks id fd k id (c_tasks _ _ (proj1 H)) (proj1 Hl) (Hin fd ltac:(left)) (proj1 Hl))
    as [-> _]. by rewrite decide_True.
Qed.

Lemma close_every_file (fs : list Descriptor.t) :
  length fs = MAX_FILES ->
  fold_left (fun fs fd => <[fd := Descriptor.Free]> fs) (seq 0 MAX_FILES) fs = Free_files.
Proof.
  unfold MAX_FILES, Free_files. intros H. do 8 (destruct fs as [|? fs]; [done|]).
  by destruct fs.
Qed.

Lemma inv_finish id code k : inv none k -> live id k -> inv none (finish id code k).
Proof.
  intros H Hl. unfold finish, close_all_descriptors.
  destruct (inv_close_list (seq 0 MAX_FILES) id k H Hl) as (H1 & [Hid _] & E).
  { intros fd Hfd%elem_of_seq. lia. }
  set (k1 := fold_left _ _ k) in *. apply inv_wake.
  rewrite close_every_file in E by (by eapply files_length; [apply H|]).
  destruct H1 as [Hk Hc]. pose proof (c_tasks _ _ Hk) as Hts. set (f := fun t : Task => _). split.
  - eapply counted_ext; [|apply (counted_files none id f k1 Hk Hid)]; [|done|].
    + intros d _. cbn beta. change (files (f (TASKS k1 !!! id))) with (files (TASKS k1 !!! id)). lia.
    + intros fd Hfd. by apply (c_valid _ _ Hk).
  - intros j Hj. cbn [TASKS modify_task set_field set_TASKS]. rewrite update_task_lookup by done.
    case_decide; [by subst|by apply Hc].
Qed.

Lemma inv_empty_slot id k :
  inv none k -> (id < MAX_TASKS)%nat -> state (TASKS k !!! id) = State.Finished -> inv none (empty_slot id k).
Proof.
  intros H Hid Hs. apply (inv_frame none (modify_task id (fun _ => Task_empty) k)); [|done..].
  destruct H as [Hk Hc]. pose proof (c_tasks _ _ Hk) as Hts.
  assert (E : files (TASKS k !!! id) = Free_files).
  { apply Hc; [done|]. unfold gone, is_state. by rewrite Hs. }
  split.
  - eapply counted_ext; [|apply (counted_files none id _ k Hk Hid)].
    + intros d _. cbn beta. rewrite E. change (files Task_empty) with Free_files. lia.
    + intros _. apply Task_empty_wf.
    + intros fd Hfd. change (files Task_empty) with Free_files. unfold Free_files. by rewrite lookup_total_replicate.
  - intros j Hj. cbn [TASKS modify_task set_field set_TASKS]. rewrite update_task_lookup by done.
    case_decide; [done|by apply Hc].
Qed.

Lemma inv_reap k : inv none k -> inv none (reap_finished k).
Proof.
  unfold reap_finished.
  assert (Hin : forall id, id ∈ seq 1 (MAX_TASKS - 1) -> (id < MAX_TASKS)%nat)
    by (intros id Hid%elem_of_seq; lia).
  revert k Hin. induction (seq 1 (MAX_TASKS - 1)) as [|id l IH]; intros k Hin H; [done|]. cbn [fold_left].
  apply IH; [intros; apply Hin; by right|]. destruct (is_state _ _) eqn:E; [|done].
  apply inv_empty_slot; [done|apply Hin; left|by apply bool_decide_eq_true in E].
Qed.

Lemma inv_collect parent' k : inv none k -> inv none (collect parent' k).2.
Proof.
  intros H. unfold collect. destruct (range_find _ _ _) as [id|] eqn:E; [|done].
  apply range_find_Some in E as ([_ Hid] & [_ Hs]%andb_true_iff & _). apply bool_decide_eq_true in Hs.
  cbn [snd]. apply inv_empty_slot; [|done|by case_match].
  case_match; [|done]. by apply (inv_frame none k).
Qed.

Lemma inv_park id channel k :
  inv none k -> live id k -> inv none (k <| TASKS := park id channel (TASKS k) |>).
Proof.
  intros H [_ Hg]. apply (inv_task_at none id (fun t => t <| state := _ |>) k H).
  intros t _ Ht. unfold t. by rewrite Hg.
Qed.

Lemma inv_wait parent' k : inv none k -> live parent' k -> inv none (wait_any_child parent' k).2.
Proof.
  intros H Hl. unfold wait_any_child. destruct (negb _); [done|]. unfold wait_turn.
  pose proof (inv_collect parent' k H) as Hcol. destruct (collect parent' k) as [[code|] k1] eqn:E; [done|].
  assert (k1 = k) as ->.
  { unfold collect in E. destruct (range_find _ _ _); congruence. }
  destruct (range_find _ _ _); [|done]. by apply inv_park.
Qed.

(** ** Signals and the timer *)

Lemma inv_deliver next k : inv none k -> inv none (deliver_on_resume next k).2.
Proof.
  intros H. unfold deliver_on_resume.
  pose proof (fun Ht => deliver_task (TASKS k !!! next) (frame_at (STACKS k) (stack_pointer (TASKS k !!! next))) Ht) as Hd.
  destruct (deliver _ _) as [[[kill t'] frame'] stores]. cbn [snd].
  eapply (inv_frame none (modify_task next (fun _ => t') k)); [|done..].
  apply inv_task_at; [done|]. intros t _ Ht. destruct (Hd Ht) as [Hw E]. fold t in E. by rewrite E at 2 3.
Qed.

Lemma quiet_wake_sleeper now : quiet (wake_sleeper now).
Proof.
  intros t Ht. unfold wake_sleeper. destruct (state t) as [| |[d|]|] eqn:E; try done.
  case_match; [|done]. split; [done|]. unfold gone, is_state. by rewrite E.
Qed.

Lemma inv_pick_next sp now k : inv none k -> inv none (pick_next sp now k).2.
Proof.
  intros H. unfold pick_next.
  match goal with |- context [choose ?ts ?c now ?s] => destruct (choose ts c now s) as [next sched] end. cbn [snd].
  assert (H1 : inv none (modify_task (CURRENT k) (fun t => t <| stack_pointer := sp |>) k)) by (by apply inv_task).
  apply (inv_map none (wake_sleeper now)) in H1; [|apply quiet_wake_sleeper].
  match type of H1 with inv none ?s => set (k1 := s) in * end.
  assert (H2 : inv none (k1 <| SCHED := sched |>)) by (by apply (inv_frame none k1)).
  case_match; [done|]. unfold switch_to.
  assert (H3 : inv none (modify_task next (fun t => t <| switches := switches t +₆₄ 1 |>)
                  (k1 <| SCHED := sched |> <| CURRENT := next |>))).
  { apply inv_task; [by apply (inv_frame none k1)|done]. }
  match type of H3 with inv none ?s => set (k2 := s) in * end. unfold load_stack.
  repeat case_match; by apply (inv_frame none k2).
Qed.

Lemma inv_schedule sp now k : inv none k -> tick_kills sp now k = false -> inv none (schedule sp now k).2.
Proof.
  intros H. unfold tick_kills, schedule. destruct (ENABLED k); [|done]. cbn [negb andb].
  pose proof (inv_pick_next sp now k H) as H1. destruct (pick_next sp now k) as [next k']. cbn [snd] in H1.
  destruct (signalled next k'); [|done]. cbn [andb].
  pose proof (inv_deliver next k' H1) as H2. destruct (deliver_on_resume next k') as [kill k2].
  cbn [fst snd] in *. by intros ->.
Qed.

Lemma inv_signal id number k : inv none k -> inv none (signal id number k).2.
Proof.
  intros H. unfold signal. destruct (Nat.leb_spec MAX_TASKS id); [done|].
  destruct (Nat.leb_spec MAX_SIGNALS number) as [|Hn]; [done|]. cbn [orb].
  destruct (post_signal number (TASKS k !!! id)) as [sent t'] eqn:E. cbn [snd].
  apply inv_task_at; [done|]. intros t _ Ht. unfold post_signal in E. fold t in E.
  assert (Hw : task_wf (set_pending_signal number t)).
  { apply set_pending_wf; [|done]. unfold MAX_SIGNALS in Hn. lia. }
  destruct (state t) eqn:Es; injection E as <- <-; try done; (split; [done|]);
    unfold gone, is_state; by rewrite Es.
Qed.

(** ** The whole life of the descriptors *)

Inductive step : Kernel -> Kernel -> Prop :=
| SInit k : step k (init_shell k)
| SPipe id k : live id k -> step k (make_pipe id k).2
| SClose id fd k : live id k -> step k (close_descriptor id fd k).2
| SDuplicate id old new k : live id k -> step k (duplicate_descriptor id old new k).2
| SFork id root frame stack k : live id k -> step k (fork_from id root frame stack k).2
| SSpawnUser bytes entry sp root parent' argc argv stack k :
    step k (spawn_user bytes entry sp root parent' argc argv stack k).2
| SSpawn task_entry bytes w prio stack k :
    0 <= prio -> step k (spawn_with_priority task_entry bytes w prio stack k).2
| SFinish id code k : live id k -> step k (finish id code k)
| SReap k : step k (reap_finished k)
| SWait id k : live id k -> step k (wait_any_child id k).2
| SPark id channel k : live id k -> step k (k <| TASKS := park id channel (TASKS k) |>)
| SWake channel k : step k (wake channel k)
| SSignal id number k : step k (signal id number k).2
| STick sp now k : tick_kills sp now k = false -> step k (schedule sp now k).2.

Lemma inv_init_shell k : inv none k -> inv none (init_shell k).
Proof.
  intros H. unfold init_shell. set (f := fun t : Task => _).
  apply (inv_frame none (modify_task 0 f k)); [|done..].
  destruct H as [Hk Hc]. assert (H0 : (0 < MAX_TASKS)%nat) by (by apply Nat.ltb_lt). split.
  - eapply counted_ext; [|apply (counted_files none 0 f k Hk H0)].
    + intros d _. cbn beta. change (files (f (TASKS k !!! 0%nat))) with (files (TASKS k !!! 0%nat)). lia.
    + unfold f, task_wf, MAX_PRIORITY, SHELL_PRIORITY. cbn. rewrite length_drop. intuition lia.
    + intros fd Hfd. by apply (c_valid _ _ Hk).
  - intros j Hj. cbn [TASKS modify_task set_field set_TASKS]. rewrite update_task_lookup by (done || apply Hk).
    case_decide; [done|by apply Hc].
Qed.

Lemma inv_step k k' : step k k' -> inv none k -> inv none k'.
Proof.
  intros Hs Hk. destruct Hs.
  - by apply inv_init_shell.
  - by apply inv_make_pipe.
  - destruct (decide (fd < MAX_FILES)%nat) as [Hfd|Hfd]; [by apply inv_close|].
    unfold close_descriptor. by rewrite (proj2 (Nat.leb_le _ _)) by lia.
  - by apply inv_duplicate.
  - by apply inv_fork.
  - by apply inv_spawn_user.
  - by apply inv_spawn.
  - by apply inv_finish.
  - by apply inv_reap.
  - by apply inv_wait.
  - by apply inv_park.
  - by apply inv_wake.
  - by apply inv_signal.
  - by apply inv_schedule.
Qed.

(** ** Counts mean holders *)

Lemma count_zero d l : count d l = 0 <-> d ∉ l.
Proof.
  unfold count. split.
  - intros E Hin. pose proof (sum_elem (ind d) l d ltac:(intros; apply ind_bound) Hin).
    rewrite ind_self in H. lia.
  - intros Hn. induction l as [|e l IH]; [done|]. cbn. apply not_elem_of_cons in Hn as [Hne Hn].
    rewrite IH by done. unfold ind. by rewrite decide_False.
Qed.

(** Some descriptor of some task names the end [d]. *)
Definition held (d : Descriptor.t) (ts : Table) : Prop :=
  exists id fd, (id < MAX_TASKS)%nat /\ (fd < MAX_FILES)%nat /\ files (ts !!! id) !!! fd = d.

Lemma ends_zero d ts : table_wf ts -> ends d ts = 0 <-> ~ held d ts.
Proof.
  intros Hts. split.
  - intros E (id & fd & Hid & Hfd & Hd). pose proof (ends_elem d ts id Hts Hid) as Hle.
    pose proof (count_elem d (files (ts !!! id)) fd) as H1.
    pose proof (table_wf_lookup _ _ Hts Hid) as (_ & Hlen & _). rewrite Hlen in H1.
    specialize (H1 Hfd Hd). lia.
  - intros Hn. pose proof Hts as [Hlen Hall].
    assert (Hz : forall t, t ∈ ts -> count d (files t) = 0).
    { intros t Ht. apply count_zero. intros Hin. apply Hn.
      apply list_elem_of_lookup in Ht as [id Hid]. apply list_elem_of_lookup in Hin as [fd Hfd].
      exists id, fd. pose proof (lookup_lt_Some _ _ _ Hid). pose proof (lookup_lt_Some _ _ _ Hfd).
      rewrite Forall_lookup in Hall. destruct (Hall _ _ Hid) as (_ & Hf & _).
      split_and!; [lia|lia|]. apply list_lookup_total_correct in Hid. rewrite Hid.
      by apply list_lookup_total_correct. }
    unfold ends. rewrite (sum_ext _ (fun _ => 0) ts Hz). clear. induction ts; [done|]. exact IHts.
Qed.

Lemma held_dec d ts : table_wf ts -> held d ts \/ ~ held d ts.
Proof.
  intros Hts. destruct (Z.eq_dec (ends d ts) 0) as [E|E]; [right; by apply ends_zero|left].
  destruct (existsb (fun id => existsb (fun fd => bool_decide (files (ts !!! id) !!! fd = d))
      (seq 0 MAX_FILES)) (seq 0 MAX_TASKS)) eqn:X.
  - apply existsb_exists in X as (id & Hid%in_seq & (fd & Hfd%in_seq & Hd)%existsb_exists).
    apply bool_decide_eq_true in Hd. exists id, fd. split_and!; (lia || done).
  - exfalso. apply E, ends_zero; [done|]. intros (id & fd & Hid & Hfd & Hd).
    apply not_true_iff_false in X. apply X, existsb_exists. exists id. split; [apply in_seq; lia|].
    apply existsb_exists. exists fd. split; [apply in_seq; lia|]. by apply bool_decide_eq_true.
Qed.

Lemma inv_boot k : TASKS k = TASKS_init -> PIPES k = PIPES_init -> inv none k.
Proof.
  intros Et Ep. split.
  - constructor; rewrite ?Et, ?Ep.
    + apply TASKS_init_wf.
    + done.
    + intros id fd Hid Hfd. unfold TASKS_init. rewrite lookup_total_replicate by done. cbn [files Task_empty].
      by rewrite lookup_total_replicate.
    + intros d Hp Hv. unfold owners, PIPES_init. rewrite lookup_total_replicate by (by destruct d). by destruct d.
    + intros d Hp Hv. unfold owners, PIPES_init. rewrite lookup_total_replicate by (by destruct d). by destruct d.
    + intros p Hp. unfold PIPES_init. rewrite lookup_total_replicate by done. cbn. split; [done|]. by intros [|].
  - intros id Hid _. rewrite Et. unfold TASKS_init. by rewrite lookup_total_replicate.
Qed.

Lemma inv_reachable k0 k :
  TASKS k0 = TASKS_init -> PIPES k0 = PIPES_init -> rtc step k0 k -> inv none k.
Proof.
  intros Et Ep Hr. pose proof (inv_boot k0 Et Ep) as H. clear Et Ep.
  induction Hr; [done|]. apply IHHr. by eapply inv_step.
Qed.

(** C24: every pipe end is counted.  From boot, through any interleaving of
    pipe, close, dup2, fork, exec'd programs, exits, reaping, waits, signals
    and timer ticks (short of a tick that has to kill), each pipe's reader
    and writer counts are exactly the number of descriptors that name that
    end; the pipe is released exactly when no descriptor names either end;
    and an empty pipe reads as end-of-file exactly when no task anywhere
    still holds its write end. *)
Theorem ends_are_counted k0 k p n :
  TASKS k0 = TASKS_init -> PIPES k0 = PIPES_init -> rtc step k0 k -> (p < MAX_PIPES)%nat ->
  let pipe := PIPES k !!! p in
  readers pipe = ends (Descriptor.PipeRead p) (TASKS k) /\
  writers pipe = ends (Descriptor.PipeWrite p) (TASKS k) /\
  (in_use pipe = true <->
     held (Descriptor.PipeRead p) (TASKS k) \/ held (Descriptor.PipeWrite p) (TASKS k)) /\
  (len pipe = 0%nat ->
     ((read_attempt n pipe).1 = Some [] <-> ~ held (Descriptor.PipeWrite p) (TASKS k))).
Proof.
  intros Et Ep Hr Hp pipe. destruct (inv_reachable _ _ Et Ep Hr) as [H _].
  pose proof (c_owners _ _ H (Descriptor.PipeRead p) eq_refl Hp) as E1.
  pose proof (c_owners _ _ H (Descriptor.PipeWrite p) eq_refl Hp) as E2.
  unfold owners, none in E1, E2. cbn in E1, E2. fold pipe in E1, E2.
  pose proof (ends_zero (Descriptor.PipeRead p) _ (c_tasks _ _ H)) as Z1.
  pose proof (ends_zero (Descriptor.PipeWrite p) _ (c_tasks _ _ H)) as Z2.
  assert (Hdec := fun d => held_dec d _ (c_tasks _ _ H)).
  split_and!; [lia|lia| |].
  - pose proof (c_in_use _ _ H p Hp) as Hu. fold pipe in Hu. rewrite Hu.
    assert (R1 : readers pipe = 0 <-> ~ held (Descriptor.PipeRead p) (TASKS k)) by (rewrite <- Z1; lia).
    assert (W1 : writers pipe = 0 <-> ~ held (Descriptor.PipeWrite p) (TASKS k)) by (rewrite <- Z2; lia).
    pose proof (Hdec (Descriptor.PipeRead p)). pose proof (Hdec (Descriptor.PipeWrite p)). tauto.
  - intros Hlen. unfold read_attempt. rewrite Hlen. cbn [fst Nat.eqb].
    destruct (Z.eqb_spec (writers pipe) 0) as [E|E]; cbn [fst].
    + split; [|done]. intros _. apply Z2. lia.
    + split; [done|]. intros Hn. apply Z2 in Hn. lia.
Qed.

(** A booted machine, and one program on it with a pipe of its own. *)
Definition booted : Kernel :=
  mkKernel TASKS_init PIPES_init Sched_init 0 false [] 4096 4096 0 (fun _ => 0) (fun _ _ => 0).
Definition one_program : Kernel :=
  (make_pipe 1 (spawn_user [115; 104] 4194304 8388608 8192 None 0 0 65536 (init_shell booted)).2).2.

Lemma one_program_reachable : rtc step booted one_program.
Proof.
  eapply rtc_l; [apply SInit|]. eapply rtc_l; [apply SSpawnUser|]. eapply rtc_l; [|apply rtc_refl].
  apply SPipe. split; vm_compute; (done || lia).
Qed.

Lemma ends_are_counted_witness :
  readers (PIPES one_program !!! 0%nat) = ends (Descriptor.PipeRead 0) (TASKS one_program) /\
  readers (PIPES one_program !!! 0%nat) = 1.
Proof.
  split; [|reflexivity].
  exact (proj1 (ends_are_counted booted one_program 0 1 eq_refl eq_refl one_program_reachable
                  ltac:(vm_compute; lia))).
Defined.

(** A program ended by a signal at a timer tick takes its pipe ends with
    it.  [schedule] marks it finished without closing its descriptors, so
    after the slot has been reaped nobody names either end of the pipe, and
    the pipe still has a reader and a writer: a reader of it would wait for
    an end-of-file that cannot come. *)
Theorem signal_death_leaks :
  exists k0 k, TASKS k0 = TASKS_init /\ PIPES k0 = PIPES_init /\ rtc step k0 k /\
    let k' := reap_finished (schedule 0 1 k).2 in
    is_state State.Free (TASKS k' !!! 1%nat) = true /\
    ends (Descriptor.PipeRead 0) (TASKS k') = 0 /\ ends (Descriptor.PipeWrite 0) (TASKS k') = 0 /\
    let pipe := PIPES k' !!! 0%nat in
    in_use pipe = true /\ writers pipe = 1 /\ (read_attempt 1 pipe).1 = None.
Proof.
  (* the shell waits for the program, as it does for a foreground job *)
  exists booted, (signal 1 SIGTERM (one_program <| TASKS := park 0 1 (TASKS one_program) |>)).2.
  split; [done|]. split; [done|]. split.
  - eapply rtc_r; [|apply SSignal]. eapply rtc_r; [apply one_program_reachable|].
    apply SPark. split; vm_compute; (done || lia).
  - cbn zeta. split_and!; vm_compute; reflexivity.
Qed.
