(* ===== verification/Resume.v ===== *)
(** * What a task resumes with

    The frames [spawn], [spawn_user] and [fork_from] lay out are the frames
    the timer pops: read back at the saved stack pointer they hold exactly
    the registers the new task must start with.  And [schedule] hands the CPU
    to a task together with its address space and its kernel stack. *)

From stdpp Require Import list.
From S2P Require Import Prelude TaskTable Policy Sched Pipe Signal Kernel.

#[local] Arguments Nat.ltb : simpl never.
#[local] Arguments Nat.leb : simpl never.

(** ** Frames *)

Lemma push_all_app top vs v :
  push_all top (vs ++ [v]) =
    ((push_all top vs).1 -₆₄ 8, (push_all top vs).2 ++ [((push_all top vs).1 -₆₄ 8, v)]).
Proof. unfold push_all. rewrite fold_left_app. cbn. by destruct (fold_left _ _ _). Qed.

Lemma push_all_sp top vs :
  8 * Z.of_nat (length vs) <= top < 2 ^ 64 -> (push_all top vs).1 = top - 8 * Z.of_nat (length vs).
Proof.
  induction vs as [|v vs IH] using rev_ind; intros H; [cbn; lia|].
  rewrite length_app in *. cbn [length] in *. rewrite push_all_app. cbn [fst].
  rewrite IH by lia. rewrite wrap_small by (unfold in_u; lia). lia.
Qed.

(** The stores stay below [top] and at or above the final pointer. *)
Lemma push_all_range top vs w :
  8 * Z.of_nat (length vs) <= top < 2 ^ 64 -> w ∈ (push_all top vs).2 ->
  top - 8 * Z.of_nat (length vs) <= w.1 < top.
Proof.
  induction vs as [|v vs IH] using rev_ind; intros H Hw; [by apply not_elem_of_nil in Hw|].
  rewrite length_app in *. cbn [length] in *. rewrite push_all_app in Hw. cbn [snd] in Hw.
  apply elem_of_app in Hw as [Hw|Hw%list_elem_of_singleton].
  - specialize (IH ltac:(lia) Hw). lia.
  - subst. cbn [fst]. rewrite push_all_sp by lia. rewrite wrap_small by (unfold in_u; lia). lia.
Qed.

(** The last value pushed is the first word of the frame. *)
Lemma push_all_read top vs m i :
  8 * Z.of_nat (length vs) <= top < 2 ^ 64 -> (i < length vs)%nat ->
  store_all (push_all top vs).2 m (top - 8 * Z.of_nat (length vs) + 8 * Z.of_nat i) = rev vs !!! i.
Proof.
  revert i. induction vs as [|v vs IH] using rev_ind; intros i H Hi; [cbn in Hi; lia|].
  rewrite length_app in *. cbn [length] in *. rewrite push_all_app, rev_app_distr. cbn [snd rev app].
  rewrite store_all_app. cbn [store_all fold_left]. unfold store at 1. cbn [fst snd].
  rewrite push_all_sp by lia. rewrite wrap_small by (unfold in_u; lia).
  destruct i as [|i].
  - rewrite (proj2 (Z.eqb_eq _ _)) by lia. done.
  - rewrite (proj2 (Z.eqb_neq _ _)) by lia. change ((v :: rev vs) !!! S i) with (rev vs !!! i).
    rewrite <- IH by lia. f_equal. lia.
Qed.

Lemma frame_pushed top vs m :
  length vs = FRAME_WORDS -> 160 <= top < 2 ^ 64 ->
  frame_at (store_all (push_all top vs).2 m) (push_all top vs).1 = rev vs.
Proof.
  intros Hlen Htop. assert (E : 8 * Z.of_nat (length vs) = 160) by (rewrite Hlen; done).
  rewrite push_all_sp by lia. unfold frame_at. apply list_eq. intros i.
  change (map ?f ?l) with (f <$> l). rewrite list_lookup_fmap.
  destruct (decide (i < FRAME_WORDS)%nat) as [Hi|Hi].
  - rewrite lookup_seq_lt by done. cbn [fmap option_fmap option_map].
    rewrite word_at_small by (done || lia). rewrite push_all_read by (rewrite ?Hlen; (done || lia)).
    symmetry. apply list_lookup_lookup_total_lt. rewrite length_rev. lia.
  - rewrite lookup_seq_ge by lia. symmetry. apply lookup_ge_None. rewrite length_rev. lia.
Qed.

(** The words a frame was stored from, read back. *)
Lemma frame_stored sp frame m :
  length frame = FRAME_WORDS -> 0 <= sp -> sp + 160 <= 2 ^ 64 ->
  frame_at (store_frame sp frame m) sp = frame.
Proof.
  intros Hlen Hs Ht. unfold frame_at, store_frame. apply list_eq. intros i.
  change (map ?f ?l) with (f <$> l). rewrite list_lookup_fmap.
  destruct (frame !! i) as [w|] eqn:Hi.
  - pose proof (lookup_lt_Some _ _ _ Hi). rewrite lookup_seq_lt by lia. cbn [fmap option_fmap option_map].
    f_equal. by apply read_saved.
  - apply lookup_ge_None in Hi. by rewrite lookup_seq_ge by lia.
Qed.

Lemma store_frame_other sp frame m a :
  length frame = FRAME_WORDS -> 0 <= sp -> sp + 160 <= 2 ^ 64 -> ~ sp <= a < sp + 160 ->
  store_frame sp frame m a = m a.
Proof.
  intros Hlen Hs Ht Ha. unfold store_frame. apply store_all_other.
  intros [b w] Hw E. apply save_frame_elem in Hw as (i & Hi & ->). apply lookup_lt_Some in Hi.
  cbn in E. rewrite word_at_small in E by lia. unfold FRAME_WORDS in *. lia.
Qed.

(** One word of a stored frame replaced. *)
Lemma frame_store_word sp m i v :
  0 <= sp -> sp + 160 <= 2 ^ 64 -> (i < FRAME_WORDS)%nat ->
  frame_at (store m (word_at sp i, v)) sp = <[i := v]> (frame_at m sp).
Proof.
  intros Hs Ht Hi. unfold frame_at. apply list_eq. intros j.
  change (map ?f ?l) with (f <$> l).
  assert (Hl : length ((fun index => m (word_at sp index)) <$> seq 0 FRAME_WORDS) = FRAME_WORDS)
    by (by rewrite length_fmap, length_seq).
  destruct (decide (j < FRAME_WORDS)%nat) as [Hj|Hj].
  - rewrite list_lookup_fmap, lookup_seq_lt by done. cbn [fmap option_fmap option_map].
    unfold store. cbn [fst snd]. rewrite !word_at_small by done.
    destruct (decide (i = j)) as [->|Hne].
    + rewrite Z.eqb_refl. symmetry. apply list_lookup_insert_eq. lia.
    + rewrite (proj2 (Z.eqb_neq _ _)) by lia. rewrite list_lookup_insert_ne by done.
      rewrite list_lookup_fmap, lookup_seq_lt by done. cbn. by rewrite word_at_small.
  - transitivity (@None Z); [|symmetry]; apply lookup_ge_None; [rewrite length_fmap, length_seq; lia|].
    rewrite length_insert. lia.
Qed.

(** ** The stack a box of [STACK_SIZE] bytes gives *)

Definition good_stack (stack : Z) : Prop := 0 <= stack /\ stack + STACK_SIZE < 2 ^ 64.

Lemma stack_base_spec stack :
  good_stack stack ->
  stack_base stack mod 16 = 0 /\ stack + STACK_SIZE - 16 < stack_base stack <= stack + STACK_SIZE.
Proof.
  intros [H0 H1]. unfold stack_base, clear. rewrite wrap_small by (unfold in_u, STACK_SIZE in *; lia).
  change 15 with (Z.ones 4). rewrite Z.ldiff_ones_r, Z.shiftr_div_pow2, Z.shiftl_mul_pow2 by lia.
  change (2 ^ 4) with 16. split; [apply Z.mod_mul; lia|].
  pose proof (Z.div_mod (stack + STACK_SIZE) 16). pose proof (Z.mod_pos_bound (stack + STACK_SIZE) 16). lia.
Qed.

Lemma free_slot ts id :
  free_task_slot ts = Some id -> (1 <= id < MAX_TASKS)%nat /\ state (ts !!! id) = State.Free.
Proof. intros (Hid & E & _)%range_find_Some. split; [done|]. by apply bool_decide_eq_true in E. Qed.

(** Filling slot [id] leaves the other tasks alone. *)
Lemma fill_slot ts id f :
  table_wf ts -> (id < MAX_TASKS)%nat ->
  update_task id f ts !!! id = f (ts !!! id) /\ forall j, j <> id -> update_task id f ts !!! j = ts !!! j.
Proof.
  intros Hts Hid. split; intros; rewrite update_task_lookup by done;
    [by rewrite decide_True|by rewrite decide_False].
Qed.

(** A freshly built frame lies inside the new stack. *)
Lemma built_inside stack vs w :
  good_stack stack -> length vs = FRAME_WORDS -> w ∈ (push_all (stack_base stack) vs).2 ->
  stack <= w.1 < stack + STACK_SIZE.
Proof.
  intros Hg Hlen Hw. pose proof (stack_base_spec stack Hg) as [_ Hb]. destruct Hg as [H0 H1].
  apply push_all_range in Hw; rewrite Hlen in *; unfold FRAME_WORDS, STACK_SIZE in *; lia.
Qed.

Lemma stack_base_room stack : good_stack stack -> 160 <= stack_base stack < 2 ^ 64.
Proof.
  intros Hg. pose proof (stack_base_spec stack Hg) as [_ Hb]. destruct Hg as [H0 H1].
  unfold STACK_SIZE in *. lia.
Qed.

Definition RSI : nat := 9.
Definition RFLAGS : nat := 17.

(** A program starts the way its loader asked.  The task [spawn_user]
    makes takes a free slot, and when the timer first resumes it the frame it
    pops enters ring 3 at the program's entry point, on the program's stack,
    with interrupts enabled and [argc] and [argv] in the first two argument
    registers; nothing outside its new kernel stack was written, and no other
    task was touched. *)
Theorem spawn_user_enters_program bytes entry user_stack root parent' argc argv stack k id k' :
  table_wf (TASKS k) -> good_stack stack ->
  spawn_user bytes entry user_stack root parent' argc argv stack k = (Ok id, k') ->
  let t := TASKS k' !!! id in
  let frame := frame_at (STACKS k') (stack_pointer t) in
  state (TASKS k !!! id) = State.Free /\
  state t = State.Ready /\ address_space t = Some root /\ parent t = parent' /\
  length frame = FRAME_WORDS /\
  frame !!! RIP = entry /\ Z.land (frame !!! CS) 3 = 3 /\ frame !!! RSP = user_stack /\
  frame !!! RDI = argc /\ frame !!! RSI = argv /\ Z.testbit (frame !!! RFLAGS) 9 = true /\
  stack <= stack_pointer t /\ stack_pointer t + 160 = kernel_stack_top t /\
  kernel_stack_top t <= stack + STACK_SIZE /\
  (forall j, j <> id -> TASKS k' !!! j = TASKS k !!! j) /\
  (forall a, ~ stack <= a < stack + STACK_SIZE -> STACKS k' a = STACKS k a).
Proof.
  intros Hts Hg E. unfold spawn_user in E. destruct (free_task_slot (TASKS k)) as [i|] eqn:F; [|done].
  apply free_slot in F as [Hi Hfree]. pose proof (stack_base_room stack Hg) as Hroom.
  pose proof (stack_base_spec stack Hg) as [_ Hb].
  set (vs := [USER_DATA; user_stack; 514; USER_CODE; entry; 0; 0; 0; 0; 0; argv; argc] ++ replicate 8 0) in *.
  assert (Hbuild : build_user_frame (stack_base stack) entry user_stack argc argv = push_all (stack_base stack) vs)
    by done.
  assert (Hlen : length vs = FRAME_WORDS) by done.
  pose proof (frame_pushed (stack_base stack) vs (STACKS k) Hlen Hroom) as Hframe.
  pose proof (push_all_sp (stack_base stack) vs ltac:(rewrite Hlen; unfold FRAME_WORDS; lia)) as Hsp.
  pose proof (fun w => built_inside stack vs w Hg Hlen) as Hin.
  rewrite Hbuild in E. destruct (push_all (stack_base stack) vs) as [sp stores].
  injection E as <- <-. cbn [fst snd] in *.
  match goal with |- context [modify_task i ?f _] => set (g := f) end.
  destruct (fill_slot (TASKS k) i g Hts ltac:(lia)) as [Hself Hother].
  cbn [TASKS STACKS notify_created modify_task set_field set_TASKS set_SCHED set_STACKS].
  rewrite Hself. assert (Esp : stack_pointer (g (TASKS k !!! i)) = sp) by reflexivity.
  assert (Etop : kernel_stack_top (g (TASKS k !!! i)) = stack_base stack) by reflexivity.
  rewrite Esp, Etop, Hframe. assert (E160 : 8 * Z.of_nat (length vs) = 160) by (by rewrite Hlen).
  rewrite E160 in Hsp. clear E160.
  destruct Hg as [H0 H1]. unfold STACK_SIZE in *.
  split_and!; try reflexivity; try done; try lia.
  intros a Ha. apply store_all_other. intros w Hw Ew. apply Ha. rewrite <- Ew. by apply Hin.
Qed.

Lemma boot_wf : table_wf TASKS_init.
Proof. apply TASKS_init_wf. Qed.

Definition idle : Kernel :=
  mkKernel TASKS_init PIPES_init Sched_init 0 true [] 4096 4096 0 (fun _ => 0) (fun _ _ => 0).

Definition sample_user : result nat * Kernel :=
  spawn_user [115] 4194304 8388608 8192 (Some 0%nat) 2 8388544 65536 idle.

Lemma sample_stack : good_stack 65536.
Proof. unfold good_stack, STACK_SIZE. lia. Qed.

Lemma spawn_user_enters_program_witness :
  sample_user = (Ok 1%nat, sample_user.2) /\
  frame_at (STACKS sample_user.2) (stack_pointer (TASKS sample_user.2 !!! 1%nat)) !!! RIP = 4194304.
Proof.
  assert (E1 : sample_user.1 = Ok 1%nat) by (vm_compute; reflexivity).
  assert (E : sample_user = (Ok 1%nat, sample_user.2)) by (rewrite <- E1; apply surjective_pairing).
  split; [exact E|].
  pose proof (spawn_user_enters_program _ _ _ _ _ _ _ _ idle _ _ boot_wf sample_stack E) as H.
  cbn zeta in H.
  destruct H as (_ & _ & _ & _ & _ & H & _). exact H.
Defined.

(** A kernel task starts on an ABI-aligned stack of its own.  The frame
    [spawn] builds resumes at the entry point in ring 0 with interrupts on,
    its stack pointer eight below a 16-byte boundary (as after a [call]), the
    whole frame inside the newly allocated stack; priorities above the
    maximum are clamped. *)
Theorem spawn_is_aligned task_entry bytes w prio stack k id k' :
  table_wf (TASKS k) -> good_stack stack ->
  spawn_with_priority task_entry bytes w prio stack k = (Ok id, k') ->
  let t := TASKS k' !!! id in
  let frame := frame_at (STACKS k') (stack_pointer t) in
  state (TASKS k !!! id) = State.Free /\ state t = State.Ready /\ work t = Some w /\
  address_space t = None /\ priority t = Z.min prio MAX_PRIORITY /\
  length frame = FRAME_WORDS /\ frame !!! RIP = task_entry /\ frame !!! CS = KERNEL_CODE /\
  Z.testbit (frame !!! RFLAGS) 9 = true /\ (frame !!! RSP + 8) mod 16 = 0 /\
  stack <= stack_pointer t /\ stack_pointer t + 160 = frame !!! RSP + 8 /\
  frame !!! RSP + 8 <= stack + STACK_SIZE /\
  (forall j, j <> id -> TASKS k' !!! j = TASKS k !!! j) /\
  (forall a, ~ stack <= a < stack + STACK_SIZE -> STACKS k' a = STACKS k a).
Proof.
  intros Hts Hg E. unfold spawn_with_priority in E. destruct (free_task_slot (TASKS k)) as [i|] eqn:F; [|done].
  apply free_slot in F as [Hi Hfree]. pose proof (stack_base_room stack Hg) as Hroom.
  pose proof (stack_base_spec stack Hg) as [Halign Hb].
  set (vs := [0; stack_base stack -₆₄ 8; 514; KERNEL_CODE; task_entry] ++ replicate 15 0) in *.
  assert (Hbuild : build_frame (stack_base stack) task_entry = push_all (stack_base stack) vs) by done.
  assert (Hlen : length vs = FRAME_WORDS) by done.
  pose proof (frame_pushed (stack_base stack) vs (STACKS k) Hlen Hroom) as Hframe.
  pose proof (push_all_sp (stack_base stack) vs ltac:(rewrite Hlen; unfold FRAME_WORDS; lia)) as Hsp.
  pose proof (fun w => built_inside stack vs w Hg Hlen) as Hin.
  rewrite Hbuild in E. destruct (push_all (stack_base stack) vs) as [sp stores].
  injection E as <- <-. cbn [fst snd] in *.
  match goal with |- context [modify_task i ?f _] => set (g := f) end.
  destruct (fill_slot (TASKS k) i g Hts ltac:(lia)) as [Hself Hother].
  cbn [TASKS STACKS notify_created modify_task set_field set_TASKS set_SCHED set_STACKS].
  rewrite Hself. assert (Esp : stack_pointer (g (TASKS k !!! i)) = sp) by reflexivity.
  rewrite Esp, Hframe. assert (E160 : 8 * Z.of_nat (length vs) = 160) by (by rewrite Hlen).
  rewrite E160 in Hsp. clear E160.
  assert (Ersp : rev vs !!! RSP = stack_base stack - 8).
  { transitivity (stack_base stack -₆₄ 8); [reflexivity|]. apply wrap_small. unfold in_u. lia. }
  rewrite Ersp. replace (stack_base stack - 8 + 8) with (stack_base stack) by lia.
  destruct Hg as [H0 H1]. unfold STACK_SIZE in *.
  split_and!; try reflexivity; try done; try lia.
  intros a Ha. apply store_all_other. intros x Hx Ex. apply Ha. rewrite <- Ex. by apply Hin.
Qed.

Definition sample_task : result nat * Kernel := spawn_with_priority 1048576 [119] Work.Spinner 20 65544 idle.

Lemma spawn_is_aligned_witness :
  sample_task = (Ok 1%nat, sample_task.2) /\
  (frame_at (STACKS sample_task.2) (stack_pointer (TASKS sample_task.2 !!! 1%nat)) !!! RSP + 8) mod 16 = 0.
Proof.
  assert (E1 : sample_task.1 = Ok 1%nat) by (vm_compute; reflexivity).
  assert (E : sample_task = (Ok 1%nat, sample_task.2)) by (rewrite <- E1; apply surjective_pairing).
  split; [exact E|].
  assert (Hg : good_stack 65544) by (unfold good_stack, STACK_SIZE; lia).
  pose proof (spawn_is_aligned _ _ _ _ _ idle _ _ boot_wf Hg E) as H. cbn zeta in H.
  destruct H as (_ & _ & _ & _ & _ & _ & _ & _ & _ & H & _). exact H.
Defined.

(** C31: [fork] returns twice.  The child occupies a free slot, inherits its
    parent's priority, descriptors, handlers and stack region with nothing
    pending, and the frame it first resumes with is the parent's saved frame
    word for word except that the result register holds 0; the parent and
    every other task are untouched, and so is all memory outside the child's
    new kernel stack. *)
Theorem fork_child_resumes_as_parent parent' root frame stack k id k' :
  table_wf (TASKS k) -> good_stack stack -> length frame = FRAME_WORDS ->
  fork_from parent' root frame stack k = (Ok id, k') ->
  let p := TASKS k !!! parent' in
  let t := TASKS k' !!! id in
  state (TASKS k !!! id) = State.Free /\ state t = State.Ready /\
  frame_at (STACKS k') (stack_pointer t) = <[RAX := 0]> frame /\
  (address_space t, parent t, priority t, files t) = (Some root, Some parent', priority p, files p) /\
  (handlers t, restorer t, pending t) = (handlers p, restorer p, 0) /\
  (stack_top t, stack_limit t) = (stack_top p, stack_limit p) /\
  (forall j, j <> id -> TASKS k' !!! j = TASKS k !!! j) /\
  (forall a, ~ stack <= a < stack + STACK_SIZE -> STACKS k' a = STACKS k a).
Proof.
  intros Hts Hg Hlen E. unfold fork_from in E. destruct (free_task_slot (TASKS k)) as [i|] eqn:F; [|done].
  apply free_slot in F as [Hi Hfree]. pose proof (stack_base_room stack Hg) as Hroom.
  pose proof (stack_base_spec stack Hg) as [_ Hb].
  assert (Hsp : stack_base stack -₆₄ (Z.of_nat FRAME_WORDS * 8) = stack_base stack - 160).
  { change (Z.of_nat FRAME_WORDS * 8) with 160. apply wrap_small. unfold in_u. lia. }
  rewrite Hsp in E. set (sp := stack_base stack - 160) in *.
  match type of E with context [modify_task i ?f ?s] => set (g := f) in E; set (k1 := s) in E end.
  assert (Hfold : forall l k, TASKS (fold_left (fun k d => add_owner d k) l k) = TASKS k /\
                              STACKS (fold_left (fun k d => add_owner d k) l k) = STACKS k).
  { clear. induction l as [|d l IH]; intros k; [done|]. cbn [fold_left].
    destruct (IH (add_owner d k)) as [-> ->]. by destruct d. }
  injection E as <- <-. destruct (Hfold (files (TASKS k !!! parent')) (modify_task i g k1)) as [Et Es].
  destruct (fill_slot (TASKS k) i g Hts ltac:(lia)) as [Hself Hother].
  cbn [TASKS STACKS notify_created set_field set_SCHED]. rewrite Et, Es.
  assert (Et1 : TASKS (modify_task i g k1) = update_task i g (TASKS k)) by done.
  assert (Es1 : STACKS (modify_task i g k1) = store (store_frame sp frame (STACKS k)) (word_at sp RAX, 0)) by done.
  rewrite Et1, Es1, Hself. assert (Esp : stack_pointer (g (TASKS k !!! i)) = sp) by reflexivity. rewrite Esp.
  split_and!; try reflexivity; try done.
  - rewrite frame_store_word by (unfold FRAME_WORDS, RAX, sp; lia).
    by rewrite frame_stored by (done || (unfold sp; lia)).
  - intros a Ha. destruct Hg as [H0 H1]. unfold store. cbn [fst snd].
    rewrite word_at_small by (unfold FRAME_WORDS, RAX, sp; lia).
    rewrite (proj2 (Z.eqb_neq _ _)) by (unfold RAX, sp, STACK_SIZE in *; lia).
    apply store_frame_other; [done|unfold sp, STACK_SIZE in *; lia..].
Qed.

Definition sample_frame : list Z := replicate 14 7 ++ [57; 4194310; 51; 514; 8388000; 43].
Definition sample_fork : result nat * Kernel := fork_from 0 12288 sample_frame 262144 idle.

Lemma fork_child_resumes_as_parent_witness :
  sample_fork = (Ok 1%nat, sample_fork.2) /\
  frame_at (STACKS sample_fork.2) (stack_pointer (TASKS sample_fork.2 !!! 1%nat)) =
    <[RAX := 0]> sample_frame.
Proof.
  assert (E1 : sample_fork.1 = Ok 1%nat) by (vm_compute; reflexivity).
  assert (E : sample_fork = (Ok 1%nat, sample_fork.2)) by (rewrite <- E1; apply surjective_pairing).
  split; [exact E|].
  assert (Hg : good_stack 262144) by (unfold good_stack, STACK_SIZE; lia).
  assert (Hlen : length sample_frame = FRAME_WORDS) by reflexivity.
  pose proof (fork_child_resumes_as_parent _ _ _ _ idle _ _ boot_wf Hg Hlen E) as H. cbn zeta in H. apply H.
Defined.

(** ** The timer *)

(** The task on the CPU runs in its own address space (or the kernel's), and
    the CPU will enter ring 0 on that task's own kernel stack. *)
Definition following (k : Kernel) : Prop :=
  let t := TASKS k !!! CURRENT k in
  CR3 k = default (KERNEL_ROOT k) (address_space t) /\
  (kernel_stack_top t <> 0 -> RSP0 k = kernel_stack_top t).

Record running (k : Kernel) : Prop := {
  r_tasks : table_wf (TASKS k);
  r_sched : sched_wf (SCHED k);
  r_current : (CURRENT k < MAX_TASKS)%nat;
  r_roots : KERNEL_ROOT k <> 0 /\ forall id, (id < MAX_TASKS)%nat -> address_space (TASKS k !!! id) <> Some 0;
  r_follows : following k
}.

Lemma wake_sleeper_same now t :
  task_wf t ->
  task_wf (wake_sleeper now t) /\ address_space (wake_sleeper now t) = address_space t /\
  kernel_stack_top (wake_sleeper now t) = kernel_stack_top t /\
  stack_pointer (wake_sleeper now t) = stack_pointer t /\
  (state t = State.Ready -> state (wake_sleeper now t) = State.Ready).
Proof. intros Ht. unfold wake_sleeper. repeat case_match; done. Qed.

(** [switch_to] establishes [following] whatever was running before. *)
Lemma switch_to_follows next k :
  table_wf (TASKS k) -> (next < MAX_TASKS)%nat -> KERNEL_ROOT k <> 0 ->
  address_space (TASKS k !!! next) <> Some 0 ->
  let k' := switch_to next k in
  following k' /\ CURRENT k' = next /\ SCHED k' = SCHED k /\ KERNEL_ROOT k' = KERNEL_ROOT k /\
  TASKS k' = update_task next (fun t => t <| switches := switches t +₆₄ 1 |>) (TASKS k) /\
  STACKS k' = STACKS k /\ ENABLED k' = ENABLED k.
Proof.
  intros Hts Hn Hr Ha k'. unfold k', switch_to, load_stack.
  set (f := fun t : Task => t <| switches := _ |>).
  assert (Ef : update_task next f (TASKS k) !!! next = f (TASKS k !!! next))
    by (rewrite update_task_lookup by done; by rewrite decide_True).
  unfold modify_task. cbn [TASKS set_field set_TASKS set_CURRENT KERNEL_ROOT CR3]. rewrite Ef.
  assert (Ea : address_space (f (TASKS k !!! next)) = address_space (TASKS k !!! next)) by done.
  assert (Et : kernel_stack_top (f (TASKS k !!! next)) = kernel_stack_top (TASKS k !!! next)) by done.
  rewrite Ea, Et. set (want := default (KERNEL_ROOT k) (address_space (TASKS k !!! next))).
  assert (Hw : want <> 0).
  { unfold want. destruct (address_space (TASKS k !!! next)) as [r|]; cbn [default id]; [|done].
    intros ->. by apply Ha. }
  rewrite (proj2 (Z.eqb_neq _ _) Hw). cbn [negb andb]. unfold following.
  destruct (Z.eqb_spec want (CR3 k)) as [Ew|Ew]; cbn [negb];
    destruct (Z.eqb_spec (kernel_stack_top (TASKS k !!! next)) 0);
    split_and!; try reflexivity;
    cbn [TASKS CURRENT KERNEL_ROOT CR3 RSP0 set_field set_TASKS set_CURRENT set_CR3 set_RSP0];
    rewrite ?Ef, ?Ea, ?Et; done.
Qed.

(** Changing what the CPU does not follow keeps the state [running]. *)
Lemma running_frame k k' :
  running k -> table_wf (TASKS k') -> sched_wf (SCHED k') -> CURRENT k' = CURRENT k ->
  KERNEL_ROOT k' = KERNEL_ROOT k -> CR3 k' = CR3 k -> RSP0 k' = RSP0 k ->
  (forall id, (id < MAX_TASKS)%nat ->
     address_space (TASKS k' !!! id) = address_space (TASKS k !!! id) /\
     kernel_stack_top (TASKS k' !!! id) = kernel_stack_top (TASKS k !!! id)) ->
  running k'.
Proof.
  intros [_ _ Hcur [Hr Ha] [F1 F2]] Hts Hs Ec Er E3 E0 Hsame. constructor; try done.
  - by rewrite Ec.
  - rewrite Er. split; [done|]. intros id Hid. rewrite (proj1 (Hsame id Hid)). by apply Ha.
  - unfold following. rewrite Ec, Er, E3, E0. by destruct (Hsame _ Hcur) as [-> ->].
Qed.

Lemma fmap_total (f : Task -> Task) (ts : Table) j :
  table_wf ts -> (j < MAX_TASKS)%nat -> (f <$> ts) !!! j = f (ts !!! j).
Proof.
  intros [Hl _] Hj. apply list_lookup_total_correct. rewrite list_lookup_fmap.
  by rewrite list_lookup_lookup_total_lt by lia.
Qed.

(** What the first half of [schedule] leaves: the table with the sleepers
    woken, and the picked task on the CPU. *)
Definition noted (sp now : Z) (k : Kernel) : Table :=
  wake_sleeper now <$> update_task (CURRENT k) (fun t => t <| stack_pointer := sp |>) (TASKS k).

Lemma noted_wf sp now k : running k -> table_wf (noted sp now k).
Proof.
  intros [Hts _ Hc _ _]. unfold noted.
  assert (H1 : table_wf (update_task (CURRENT k) (fun t => t <| stack_pointer := sp |>) (TASKS k)))
    by (by apply update_task_wf).
  destruct H1 as [Hl Ha]. split; [by rewrite length_fmap|]. apply Forall_fmap.
  eapply Forall_impl; [exact Ha|]. intros t Ht. by apply (wake_sleeper_same now t Ht).
Qed.

Lemma noted_lookup sp now k j :
  running k -> (j < MAX_TASKS)%nat ->
  address_space (noted sp now k !!! j) = address_space (TASKS k !!! j) /\
  kernel_stack_top (noted sp now k !!! j) = kernel_stack_top (TASKS k !!! j) /\
  stack_pointer (noted sp now k !!! j) = if decide (CURRENT k = j) then sp else stack_pointer (TASKS k !!! j).
Proof.
  intros [Hts _ Hc _ _] Hj. unfold noted.
  assert (H1 : table_wf (update_task (CURRENT k) (fun t => t <| stack_pointer := sp |>) (TASKS k)))
    by (by apply update_task_wf).
  rewrite fmap_total by done. pose proof (table_wf_lookup _ _ H1 Hj) as Hw.
  destruct (wake_sleeper_same now _ Hw) as (_ & -> & -> & -> & _).
  rewrite update_task_lookup by done. by case_decide; subst.
Qed.

Lemma pick_next_spec sp now k :
  running k ->
  let '(next, k') := pick_next sp now k in
  running k' /\ CURRENT k' = next /\ STACKS k' = STACKS k /\ ENABLED k' = ENABLED k /\
  (forall j, (j < MAX_TASKS)%nat ->
     state (TASKS k' !!! j) = state (noted sp now k !!! j) /\
     stack_pointer (TASKS k' !!! j) = stack_pointer (noted sp now k !!! j)) /\
  ((exists j, (j < MAX_TASKS)%nat /\ state (noted sp now k !!! j) = State.Ready) ->
     state (noted sp now k !!! next) = State.Ready).
Proof.
  intros Hk. pose proof (noted_wf sp now k Hk) as Hts. pose proof (fun j => noted_lookup sp now k j Hk) as Hl.
  pose proof Hk as [_ Hs Hc [Hr Ha] _]. unfold pick_next.
  cbn [TASKS SCHED modify_task set_field set_TASKS]. fold (noted sp now k).
  pose proof (choose_spec (noted sp now k) (CURRENT k) now (SCHED k) Hs Hts Hc) as [Hs' Hpick].
  destruct (choose _ _ _ _) as [next sched]. cbn [fst snd] in *.
  assert (Hready : (exists j, (j < MAX_TASKS)%nat /\ state (noted sp now k !!! j) = State.Ready) ->
                   state (noted sp now k !!! next) = State.Ready).
  { intros (j & Hj & Ej). destruct Hpick as [Hp|[_ Hnone]].
    - unfold is_ready in Hp. apply andb_true_iff in Hp as [_ Hp]. by apply bool_decide_eq_true in Hp.
    - specialize (Hnone j). unfold is_ready, is_state in Hnone. cbn [tasks] in Hnone.
      rewrite (proj2 (Nat.ltb_lt _ _) Hj), Ej in Hnone. done. }
  assert (Hn : (next < MAX_TASKS)%nat) by (destruct Hpick as [Hp|[-> _]]; [by eapply is_ready_lt|done]).
  match goal with |- context [switch_to next ?s] => set (k1 := s) end.
  assert (E1 : TASKS k1 = noted sp now k) by done.
  assert (Hk1 : running k1).
  { apply (running_frame k k1 Hk); try done. intros id Hid. rewrite E1.
    destruct (Hl id Hid) as (-> & -> & _). done. }
  destruct (Nat.eqb_spec next (CURRENT k)) as [->|Hne]; [by split_and!|].
  pose proof (r_roots _ Hk1) as [Hr1 Ha1].
  destruct (switch_to_follows next k1 (r_tasks _ Hk1) Hn Hr1 (Ha1 next Hn)) as (F & Ec & Es & Er & Et & Em & Ee).
  assert (Hwf : table_wf (TASKS (switch_to next k1))) by (rewrite Et; by apply update_task_wf).
  assert (Hsame : forall j, (j < MAX_TASKS)%nat ->
     state (TASKS (switch_to next k1) !!! j) = state (noted sp now k !!! j) /\
     stack_pointer (TASKS (switch_to next k1) !!! j) = stack_pointer (noted sp now k !!! j) /\
     address_space (TASKS (switch_to next k1) !!! j) = address_space (noted sp now k !!! j)).
  { intros j Hj. rewrite Et, E1, update_task_lookup by done. by case_decide; subst. }
  split_and!; try done.
  - constructor; [done|by rewrite Es|by rewrite Ec| |done]. rewrite Er. split; [done|].
    intros id Hid. destruct (Hsame id Hid) as (_ & _ & ->). rewrite <- E1. by apply Ha1.
  - intros j Hj. by destruct (Hsame j Hj) as (-> & -> & _).
Qed.

(** Delivering to the picked task moves nothing the CPU follows. *)
Lemma deliver_on_resume_spec next k :
  running k -> (next < MAX_TASKS)%nat ->
  let k' := (deliver_on_resume next k).2 in
  running k' /\ CURRENT k' = CURRENT k /\
  forall j, (j < MAX_TASKS)%nat ->
    state (TASKS k' !!! j) = state (TASKS k !!! j) /\
    stack_pointer (TASKS k' !!! j) = stack_pointer (TASKS k !!! j).
Proof.
  intros Hk Hn. pose proof Hk as [Hts _ _ _ _]. unfold deliver_on_resume.
  pose proof (deliver_task (TASKS k !!! next) (frame_at (STACKS k) (stack_pointer (TASKS k !!! next)))
                (table_wf_lookup _ _ Hts Hn)) as Hd.
  destruct (deliver _ _) as [[[kill t'] frame'] stores]. destruct Hd as [Hw E]. cbn [snd].
  match goal with |- running ?s /\ _ => set (k1 := s) end.
  assert (E1 : TASKS k1 = update_task next (fun _ => t') (TASKS k)) by done.
  assert (Hwf : table_wf (TASKS k1)) by (rewrite E1; by apply update_task_wf).
  assert (Hl : forall j, (j < MAX_TASKS)%nat -> TASKS k1 !!! j = (TASKS k !!! j) <| pending := pending (TASKS k1 !!! j) |>).
  { intros j Hj. rewrite E1, update_task_lookup by done. case_decide; [by subst|by destruct (TASKS k !!! j)]. }
  split_and!; [|done|].
  - apply (running_frame k k1 Hk); try done; [by apply Hk|]. intros id Hid. by rewrite (Hl id Hid).
  - intros j Hj. by rewrite (Hl j Hj).
Qed.

(** C25: the timer hands over a whole machine.  On every tick that does not
    have to kill, the scheduler saves where the interrupted task stopped,
    resumes a Ready task whenever there is one (sleepers whose deadline has
    passed included), on that task's own saved stack pointer, with that
    task's address space active (the kernel's if it has none) and its own
    kernel stack loaded for the next entry to ring 0; and a task that keeps
    the CPU continues exactly where it was. *)
Theorem schedule_hands_over sp now k :
  running k -> ENABLED k = true -> tick_kills sp now k = false ->
  let '(sp', k') := schedule sp now k in
  let next := CURRENT k' in
  running k' /\
  sp' = stack_pointer (TASKS k' !!! next) /\
  stack_pointer (TASKS k' !!! CURRENT k) = sp /\
  (next = CURRENT k -> sp' = sp) /\
  (forall j, j <> CURRENT k -> (j < MAX_TASKS)%nat ->
     stack_pointer (TASKS k' !!! j) = stack_pointer (TASKS k !!! j)) /\
  ((exists j, (j < MAX_TASKS)%nat /\ state (TASKS k' !!! j) = State.Ready) ->
   state (TASKS k' !!! next) = State.Ready).
Proof.
  intros Hk He Hkill. pose proof (r_current _ Hk) as Hc. pose proof (pick_next_spec sp now k Hk) as H.
  pose proof (fun j => noted_lookup sp now k j Hk) as Hl.
  unfold tick_kills in Hkill. unfold schedule. rewrite He in *. cbn [negb andb] in *.
  destruct (pick_next sp now k) as [next k1]. destruct H as (Hk1 & Hc1 & _ & _ & Hsame & Hready).
  pose proof (r_current _ Hk1) as Hn. rewrite Hc1 in Hn.
  assert (Hgoal : forall k2, running k2 -> CURRENT k2 = next ->
    (forall j, (j < MAX_TASKS)%nat -> state (TASKS k2 !!! j) = state (TASKS k1 !!! j) /\
        stack_pointer (TASKS k2 !!! j) = stack_pointer (TASKS k1 !!! j)) ->
    running k2 /\
    stack_pointer (TASKS k2 !!! CURRENT k2) = stack_pointer (TASKS k2 !!! CURRENT k2) /\
    stack_pointer (TASKS k2 !!! CURRENT k) = sp /\
    (CURRENT k2 = CURRENT k -> stack_pointer (TASKS k2 !!! CURRENT k2) = sp) /\
    (forall j, j <> CURRENT k -> (j < MAX_TASKS)%nat ->
       stack_pointer (TASKS k2 !!! j) = stack_pointer (TASKS k !!! j)) /\
    ((exists j, (j < MAX_TASKS)%nat /\ state (TASKS k2 !!! j) = State.Ready) ->
     state (TASKS k2 !!! CURRENT k2) = State.Ready)).
  { intros k2 Hk2 Hc2 H2.
    assert (Hsp : forall j, (j < MAX_TASKS)%nat ->
      stack_pointer (TASKS k2 !!! j) = if decide (CURRENT k = j) then sp else stack_pointer (TASKS k !!! j)).
    { intros j Hj. destruct (H2 j Hj) as [_ ->]. destruct (Hsame j Hj) as [_ ->]. by destruct (Hl j Hj) as (_ & _ & ->). }
    split_and!; try done.
    - rewrite Hsp by done. by rewrite decide_True.
    - intros ->. rewrite Hsp by done. by rewrite decide_True.
    - intros j Hne Hj. rewrite Hsp by done. rewrite decide_False; congruence.
    - rewrite Hc2. intros (j & Hj & Ej). destruct (H2 next Hn) as [-> _]. destruct (Hsame next Hn) as [-> _].
      apply Hready. exists j. split; [done|]. destruct (H2 j Hj) as [E _]. destruct (Hsame j Hj) as [E' _]. congruence. }
  destruct (signalled next k1); cbn [andb] in Hkill; [|by apply Hgoal].
  pose proof (deliver_on_resume_spec next k1 Hk1 Hn) as (Hk2 & Hc2 & H2).
  destruct (deliver_on_resume next k1) as [kill k2]. cbn [fst snd] in *. rewrite Hkill.
  apply Hgoal; [done|congruence|done].
Qed.

(** The shell and one other kernel task, both ready. *)
Definition two_tasks : Kernel :=
  mkKernel (test_table [(State.Ready, 0); (State.Ready, 8)]) PIPES_init Sched_init 1 true []
    4096 4096 0 (fun _ => 0) (fun _ _ => 0).

Lemma two_tasks_running : running two_tasks.
Proof.
  constructor.
  - apply test_table_wf. repeat constructor; cbn; unfold MAX_PRIORITY; lia.
  - apply Sched_init_wf.
  - by apply Nat.ltb_lt.
  - split; [done|]. intros id Hid. unfold MAX_TASKS in Hid.
    do 8 (destruct id as [|id]; [done|]). lia.
  - done.
Qed.

Lemma schedule_hands_over_witness :
  CURRENT (schedule 777 5 two_tasks).2 = 0%nat /\
  stack_pointer (TASKS (schedule 777 5 two_tasks).2 !!! 1%nat) = 777.
Proof.
  split; [vm_compute; reflexivity|].
  assert (Hk : tick_kills 777 5 two_tasks = false) by (vm_compute; reflexivity).
  pose proof (schedule_hands_over 777 5 two_tasks two_tasks_running eq_refl Hk) as H.
  destruct (schedule 777 5 two_tasks) as [sp' k']. apply H.
Defined.
