(* ===== verification/Reclaim.v ===== *)
(** * Ends and reclamation: exits, waits, and address spaces

    [finish], [wait_any_child], [reap_finished] and [orphan_address_spaces]
    of [kernel/src/task.rs]: a parent gets its child's exit code, and every
    address space a dead task leaves behind is handed back exactly once. *)

From stdpp Require Import relations.
From S2P Require Import Prelude TaskTable Policy Sched Pipe Signal Kernel Descriptors.

#[local] Arguments Nat.ltb : simpl never.
#[local] Arguments Nat.leb : simpl never.

(** ** Address spaces *)

(** How many owners the root [r] has: tasks, and places in the orphans'
    list. *)
Definition same (r x : Z) : Z := if decide (x = r) then 1 else 0.
Definition owns (r : Z) (t : Task) : Z :=
  match address_space t with Some root => same r root | None => 0 end.
Definition occ (r : Z) (l : list Z) : Z := sum (same r) l.
Definition spaces (r : Z) (k : Kernel) : Z := sum (owns r) (TASKS k) + occ r (ORPHANS k).

Lemma sum_app {A} (g : A -> Z) l l' : sum g (l ++ l') = sum g l + sum g l'.
Proof. induction l as [|x l IH]; cbn; [done|]. rewrite IH. lia. Qed.

Lemma sum_plus {A} (g h : A -> Z) l : sum (fun x => g x + h x) l = sum g l + sum h l.
Proof. induction l as [|x l IH]; cbn; [done|]. rewrite IH. lia. Qed.

Lemma occ_bound r l : 0 <= occ r l.
Proof. apply sum_nonneg. intros y _. unfold same. case_decide; lia. Qed.

Lemma owns_bound r t : 0 <= owns r t <= 1.
Proof. unfold owns, same. repeat case_match; lia. Qed.

Lemma occ_elem r l : r ∈ l -> 1 <= occ r l.
Proof.
  intros H. transitivity (same r r); [unfold same; by rewrite decide_True|].
  apply (sum_elem (same r)); [|done]. intros y _. unfold same. case_decide; lia.
Qed.

Lemma occ_zero r l : r ∉ l -> occ r l = 0.
Proof.
  induction l as [|x l IH]; intros H; [done|]. apply not_elem_of_cons in H as [Hne H].
  unfold occ in *. cbn. rewrite IH by done. unfold same. by rewrite decide_False.
Qed.

Lemma occ_NoDup (l : list Z) : (forall r, occ r l <= 1) -> NoDup l.
Proof.
  induction l as [|x l IH]; intros H; [constructor|]. constructor.
  - intros Hin. apply occ_elem in Hin. specialize (H x). unfold occ, same in *. cbn in H.
    rewrite decide_True in H by done. lia.
  - apply IH. intros r. specialize (H r). unfold occ in *. cbn in H. unfold same at 1 in H. case_decide; lia.
Qed.

(** The space a dead task leaves, and the task without it. *)
Definition left_by (t : Task) : option Z := if gone t then address_space t else None.
Definition stripped (t : Task) : Task := if gone t then t <| address_space := None |> else t.

Lemma orphan_parts k :
  orphan_address_spaces k =
    (ORPHANS k ++ omap left_by (TASKS k), k <| TASKS := stripped <$> TASKS k |> <| ORPHANS := [] |>).
Proof. done. Qed.

Lemma owns_parts r t : owns r t = owns r (stripped t) + occ r (option_list (left_by t)).
Proof.
  unfold owns, stripped, left_by, occ. destruct (gone t); cbn; [|lia].
  destruct (address_space t) as [a|]; cbn; lia.
Qed.

Lemma omap_cons_list {A B} (f : A -> option B) x l : omap f (x :: l) = option_list (f x) ++ omap f l.
Proof. cbn. by destruct (f x). Qed.

Lemma orphan_conserves r k :
  occ r (orphan_address_spaces k).1 + spaces r (orphan_address_spaces k).2 = spaces r k.
Proof.
  rewrite orphan_parts. unfold spaces. cbn [fst snd TASKS ORPHANS set_field set_TASKS set_ORPHANS].
  unfold occ at 1. rewrite sum_app. fold (occ r (ORPHANS k)) (occ r (omap left_by (TASKS k))).
  change (occ r []) with 0. change (stripped <$> TASKS k) with (map stripped (TASKS k)). rewrite sum_map.
  assert (H : forall ts, occ r (omap left_by ts) + sum (fun t => owns r (stripped t)) ts = sum (owns r) ts).
  { induction ts as [|t ts IH]; [done|]. rewrite omap_cons_list. unfold occ. rewrite sum_app.
    fold (occ r (option_list (left_by t))) (occ r (omap left_by ts)). cbn [sum].
    rewrite (owns_parts r t). lia. }
  specialize (H (TASKS k)). lia.
Qed.

Lemma omap_elem r (ts : Table) : r ∈ omap left_by ts ->
  exists id t, ts !! id = Some t /\ gone t = true /\ address_space t = Some r.
Proof.
  intros (t & Ht & E)%list_elem_of_omap. apply list_elem_of_lookup in Ht as [id Hid].
  exists id, t. unfold left_by in E. by destruct (gone t).
Qed.

Lemma spaces_elem r k id t :
  TASKS k !! id = Some t -> address_space t = Some r -> 1 <= sum (owns r) (TASKS k).
Proof.
  intros Hid E. transitivity (owns r t); [unfold owns, same; rewrite E; by rewrite decide_True|].
  apply sum_elem; [intros; apply owns_bound|]. by apply list_elem_of_lookup_2 with id.
Qed.

Lemma stripped_lookup k id :
  table_wf (TASKS k) -> (id < MAX_TASKS)%nat ->
  TASKS (orphan_address_spaces k).2 !!! id = stripped (TASKS k !!! id).
Proof. intros Hts Hid. rewrite orphan_parts. by apply map_total. Qed.

Lemma stripped_none k : omap left_by (TASKS (orphan_address_spaces k).2) = [].
Proof.
  rewrite orphan_parts. cbn [snd TASKS set_field set_TASKS set_ORPHANS].
  induction (TASKS k) as [|t ts IH]; [done|]. rewrite fmap_cons, omap_cons_list, IH.
  unfold left_by, stripped. destruct (gone t) eqn:E; [|by rewrite E]. by destruct (gone _).
Qed.

(** Reclaiming is exact.  If no root has two owners, the list
    [orphan_address_spaces] hands out names each space at most once, names
    none that a live task still runs in, and names every one a finished or
    freed slot holds; live tasks are untouched, spaces not in the list keep
    their owner, and asking again yields nothing. *)
Theorem reclaim_is_exact k :
  table_wf (TASKS k) -> (forall r, spaces r k <= 1) ->
  let '(freed, k') := orphan_address_spaces k in
  NoDup freed /\
  (forall r id, r ∈ freed -> (id < MAX_TASKS)%nat -> gone (TASKS k !!! id) = false ->
     address_space (TASKS k !!! id) <> Some r) /\
  (forall r id, (id < MAX_TASKS)%nat -> gone (TASKS k !!! id) = true ->
     address_space (TASKS k !!! id) = Some r -> r ∈ freed) /\
  (forall id, (id < MAX_TASKS)%nat -> gone (TASKS k !!! id) = false -> TASKS k' !!! id = TASKS k !!! id) /\
  (forall r, r ∉ freed -> spaces r k' = spaces r k) /\
  (forall r, r ∈ freed -> spaces r k' = 0) /\
  (orphan_address_spaces k').1 = [].
Proof.
  intros Hts Hone. pose proof (fun r => orphan_conserves r k) as Hcons.
  pose proof (fun id => stripped_lookup k id Hts) as Hstrip. pose proof (stripped_none k) as Hnone.
  destruct (orphan_address_spaces k) as [freed k'] eqn:E. cbn [fst snd] in *.
  assert (Hlive : forall id, (id < MAX_TASKS)%nat -> gone (TASKS k !!! id) = false -> TASKS k' !!! id = TASKS k !!! id).
  { intros id Hid Hg. rewrite Hstrip by done. unfold stripped. by rewrite Hg. }
  assert (Hocc : forall r, 0 <= occ r freed <= 1).
  { intros r. pose proof (occ_bound r freed). specialize (Hcons r). specialize (Hone r).
    assert (0 <= sum (owns r) (TASKS k')) by (apply sum_nonneg; intros; apply owns_bound).
    pose proof (occ_bound r (ORPHANS k')). unfold spaces in Hcons at 1. lia. }
  assert (Hzero : forall r, r ∈ freed -> spaces r k' = 0).
  { intros r Hr. pose proof (occ_elem r freed Hr). specialize (Hcons r). specialize (Hone r).
    assert (0 <= sum (owns r) (TASKS k')) by (apply sum_nonneg; intros; apply owns_bound).
    pose proof (occ_bound r (ORPHANS k')). unfold spaces in *. lia. }
  assert (Hlen : length (TASKS k') = MAX_TASKS).
  { rewrite orphan_parts in E. injection E as _ <-. cbn. rewrite length_fmap. apply Hts. }
  split_and!; try done.
  - apply occ_NoDup. intros r. apply Hocc.
  - intros r id Hr Hid Hg Ha. specialize (Hzero r Hr). unfold spaces in Hzero.
    pose proof (occ_bound r (ORPHANS k')).
    assert (1 <= sum (owns r) (TASKS k')); [|lia].
    apply (spaces_elem r k' id (TASKS k' !!! id)); [|by rewrite Hlive].
    apply list_lookup_lookup_total_lt. by rewrite Hlen.
  - intros r id Hid Hg Ha. rewrite orphan_parts in E. injection E as <- _.
    apply elem_of_app. right. apply list_elem_of_omap. exists (TASKS k !!! id). split.
    + apply list_elem_of_lookup_2 with id, list_lookup_lookup_total_lt. destruct Hts as [-> _]. done.
    + unfold left_by. by rewrite Hg.
  - intros r Hr. specialize (Hcons r). rewrite occ_zero in Hcons by done. lia.
  - rewrite (orphan_parts k'), Hnone. rewrite orphan_parts in E. by injection E as _ <-.
Qed.

(** A finished program, a live one, and the roots they run in. *)
Definition two_programs : Kernel :=
  mkKernel (update_task 1 (fun t => t <| state := State.Finished |> <| address_space := Some 8192 |>)
             (update_task 2 (fun t => t <| state := State.Ready |> <| address_space := Some 12288 |>) TASKS_init))
    PIPES_init Sched_init 0 true [16384] 4096 4096 0 (fun _ => 0) (fun _ _ => 0).

Lemma spaces_explicit (a b c r : Z) : a <> b -> b <> c -> a <> c -> same r a + (same r b + (same r c + 0)) <= 1.
Proof. intros. unfold same. repeat case_decide; lia. Qed.

Lemma reclaim_is_exact_witness :
  (orphan_address_spaces two_programs).1 = [16384; 8192] /\ NoDup [16384; 8192].
Proof.
  split; [vm_compute; reflexivity|].
  assert (Hts : table_wf (TASKS two_programs)).
  { apply update_task_wf; [apply update_task_wf; [apply TASKS_init_wf|by apply Nat.ltb_lt|done]|by apply Nat.ltb_lt|done]. }
  assert (Hone : forall r, spaces r two_programs <= 1).
  { intros r. transitivity (same r 8192 + (same r 12288 + (same r 16384 + 0)));
      [unfold spaces, two_programs, TASKS_init, MAX_TASKS; cbn -[same]; lia|by apply spaces_explicit]. }
  pose proof (reclaim_is_exact two_programs Hts Hone) as H.
  destruct (orphan_address_spaces two_programs) as [freed k'] eqn:E.
  assert (Ef : freed = [16384; 8192]) by (apply (f_equal fst) in E; vm_compute in E; congruence).
  rewrite Ef in H. apply H.
Defined.

(** ** Waiting *)

(** A task whose descriptors were closed, and that at most woke up. *)
Definition eased (t t' : Task) : Prop :=
  t' = t <| files := files t' |> <| state := state t' |> /\
  (state t' = state t \/ (exists why, state t = State.Blocked why) /\ state t' = State.Ready).

Lemma eased_refl t : eased t t.
Proof. split; [by destruct t|by left]. Qed.

Lemma eased_trans t1 t2 t3 : eased t1 t2 -> eased t2 t3 -> eased t1 t3.
Proof.
  intros [E1 H1] [E2 H2]. split.
  - rewrite E2. rewrite E1. done.
  - destruct H2 as [H2|[Hb2 H2]], H1 as [H1|[Hb1 H1]]; [left; congruence|right; split; [done|congruence]| |by right].
    right. rewrite <- H1. by split.
Qed.

Lemma eased_wake_one c t : eased t (wake_one c t).
Proof.
  unfold eased, wake_one. destruct (is_state _ t) eqn:E; [|split; [by destruct t|by left]].
  apply bool_decide_eq_true in E. split; [by destruct t|right]. rewrite E. eauto.
Qed.

Lemma eased_files t f : eased t (t <| files := f |>).
Proof. split; [by destruct t|by left]. Qed.

Lemma eased_drop_owner d k j :
  table_wf (TASKS k) -> (j < MAX_TASKS)%nat -> eased (TASKS k !!! j) (TASKS (drop_owner d k) !!! j).
Proof.
  intros Hts Hj. destruct (is_pipe d) eqn:Hp; [|destruct d; try done; apply eased_refl].
  destruct (drop_owner_pipe d k Hp) as [c ->]. unfold wake.
  cbn [TASKS modify_pipe set_field set_TASKS set_PIPES]. rewrite wake_all_lookup by done. apply eased_wake_one.
Qed.

Lemma drop_owner_wf d k : table_wf (TASKS k) -> table_wf (TASKS (drop_owner d k)).
Proof.
  intros Hts. destruct (is_pipe d) eqn:Hp; [|by destruct d].
  destruct (drop_owner_pipe d k Hp) as [c ->]. by apply wake_all_wf.
Qed.

Lemma eased_close id fd k :
  table_wf (TASKS k) -> (id < MAX_TASKS)%nat ->
  table_wf (TASKS (close_descriptor id fd k).2) /\
  forall j, (j < MAX_TASKS)%nat -> eased (TASKS k !!! j) (TASKS (close_descriptor id fd k).2 !!! j).
Proof.
  intros Hts Hid. unfold close_descriptor. destruct (_ <=? _)%nat; [split; [done|intros; apply eased_refl]|]. cbn [snd].
  assert (Hts' : table_wf (TASKS (set_file id fd Descriptor.Free k))).
  { apply update_task_wf; [done..|]. unfold task_wf. cbn. by rewrite length_insert. }
  split; [by apply drop_owner_wf|]. intros j Hj.
  eapply eased_trans; [|by apply eased_drop_owner]. unfold set_file, modify_task. cbn [TASKS set_field set_TASKS].
  rewrite update_task_lookup by done. case_decide; [subst; apply eased_files|apply eased_refl].
Qed.

Lemma close_orphans id fd k : ORPHANS (close_descriptor id fd k).2 = ORPHANS k.
Proof.
  unfold close_descriptor. destruct (_ <=? _)%nat; [done|]. cbn [snd].
  by destruct (files _ !!! fd).
Qed.

Lemma eased_close_all id k :
  table_wf (TASKS k) -> (id < MAX_TASKS)%nat ->
  table_wf (TASKS (close_all_descriptors id k)) /\
  (forall j, (j < MAX_TASKS)%nat -> eased (TASKS k !!! j) (TASKS (close_all_descriptors id k) !!! j)) /\
  ORPHANS (close_all_descriptors id k) = ORPHANS k.
Proof.
  intros Hts Hid. unfold close_all_descriptors. generalize (seq 0 MAX_FILES) as l. intros l. revert k Hts.
  induction l as [|fd l IH]; intros k Hts; cbn [fold_left]; [split_and!; try done; intros; apply eased_refl|].
  destruct (eased_close id fd k Hts Hid) as [H1 H2]. destruct (IH _ H1) as (H3 & H4 & H5).
  split_and!; [done| |by rewrite H5, close_orphans]. intros j Hj. eapply eased_trans; [by apply H2|by apply H4].
Qed.

(** What [finish] does to every task. *)
Lemma finish_lookup id code k j :
  table_wf (TASKS k) -> (id < MAX_TASKS)%nat -> (j < MAX_TASKS)%nat ->
  let t' := TASKS (finish id code k) !!! j in
  table_wf (TASKS (finish id code k)) /\
  parent t' = parent (TASKS k !!! j) /\ address_space t' = address_space (TASKS k !!! j) /\
  (j = id -> state t' = State.Finished /\ exit_code t' = code) /\
  (j <> id ->
     (state (TASKS k !!! j) = State.Blocked (Reason.Channel (Z.of_nat id)) -> state t' = State.Ready) /\
     (state t' = state (TASKS k !!! j) \/
      (exists why, state (TASKS k !!! j) = State.Blocked why) /\ state t' = State.Ready)).
Proof.
  intros Hts Hid Hj. unfold finish. destruct (eased_close_all id k Hts Hid) as (H1 & H2 & _).
  set (k1 := close_all_descriptors id k) in *.
  set (f := fun t : Task => t <| exit_code := code |> <| state := State.Finished |>).
  assert (Hwf : table_wf (TASKS (modify_task id f k1))).
  { apply (update_task_wf (TASKS k1) id f H1 Hid). unfold task_wf, f. cbn. tauto. }
  unfold wake. cbn [TASKS set_field set_TASKS]. rewrite wake_all_lookup by done.
  split; [by apply wake_all_wf|]. unfold modify_task. cbn [TASKS set_field set_TASKS].
  rewrite update_task_lookup by done. destruct (H2 j Hj) as [E Hst]. case_decide as Ej.
  - subst j. destruct (H2 id Hid) as [Eid _]. unfold wake_one, is_state, f.
    cbn [state set_field set_state set_exit_code]. rewrite bool_decide_false by done.
    cbn [parent address_space state exit_code set_field set_state set_exit_code].
    split_and!; try done; by rewrite Eid.
  - destruct (eased_wake_one (Z.of_nat id) (TASKS k1 !!! j)) as [E' Hst'].
    split_and!; [by rewrite E', E|by rewrite E', E|by intros ->|].
    intros _. rewrite wake_one_state in *. split.
    + intros Hb. rewrite Hb in Hst. destruct Hst as [->|[_ ->]]; [by rewrite decide_True|by rewrite decide_False].
    + case_decide as Ec; destruct Hst as [Hs|[Hb Hs]]; eauto; rewrite ?Hs in *; try (right; eauto; fail); try (left; done).
Qed.

Lemma sum_update r id f ts :
  table_wf ts -> (id < MAX_TASKS)%nat ->
  sum (owns r) (update_task id f ts) = sum (owns r) ts - owns r (ts !!! id) + owns r (f (ts !!! id)).
Proof. intros [Hlen _] Hid. unfold update_task. by rewrite sum_insert by lia. Qed.

(** Collecting a child moves its address space to the orphans. *)
Lemma collect_Some parent' k code k' :
  table_wf (TASKS k) -> collect parent' k = (Some code, k') ->
  exists id, (id < MAX_TASKS)%nat /\ parent (TASKS k !!! id) = Some parent' /\
    state (TASKS k !!! id) = State.Finished /\ exit_code (TASKS k !!! id) = code /\
    TASKS k' = update_task id (fun _ => Task_empty) (TASKS k) /\
    forall r, spaces r k' = spaces r k.
Proof.
  intros Hts E. unfold collect in E. destruct (range_find _ _ _) as [id|] eqn:F; [|done].
  apply range_find_Some in F as ([_ Hid] & [Hp Hs]%andb_true_iff & _).
  apply bool_decide_eq_true in Hp, Hs. injection E as <- <-. exists id. split_and!; try done.
  - by destruct (address_space _).
  - intros r. unfold spaces.
    assert (Ht : forall k0, TASKS k0 = TASKS k ->
      sum (owns r) (TASKS (empty_slot id k0)) = sum (owns r) (TASKS k) - owns r (TASKS k !!! id)).
    { intros k0 E0. unfold empty_slot, notify_exited, modify_task. cbn [TASKS set_field set_TASKS set_SCHED].
      rewrite E0, sum_update by done. change (owns r Task_empty) with 0. lia. }
    destruct (address_space (TASKS k !!! id)) as [root|] eqn:Ea; rewrite Ht by done;
      unfold owns; rewrite Ea; cbn [ORPHANS empty_slot notify_exited modify_task set_field set_TASKS set_SCHED set_ORPHANS].
    + unfold occ. rewrite sum_app. cbn. lia.
    + lia.
Qed.

Lemma collect_None parent' k :
  (collect parent' k).1 = None ->
  collect parent' k = (None, k) /\
  forall id, (id < MAX_TASKS)%nat -> parent (TASKS k !!! id) = Some parent' ->
    state (TASKS k !!! id) <> State.Finished.
Proof.
  unfold collect. destruct (range_find _ _ _) as [i|] eqn:F; [done|]. intros _. split; [done|].
  intros id Hid Hp Hs. rewrite range_find_None in F. specialize (F id ltac:(lia)). cbn beta in F.
  unfold is_child, is_state in F. by rewrite !bool_decide_true in F.
Qed.

(** C30: waiting hands over the exit code.  When [wait_any_child] goes to
    sleep on a child and that child finishes with a code, the parent is
    runnable again, its next turn collects exactly that code and frees the
    child's slot, and no address space is lost or duplicated on the way. *)
Theorem wait_gets_exit_code parent' child code k k1 :
  table_wf (TASKS k) -> (parent' < MAX_TASKS)%nat ->
  wait_turn parent' k = (SleepsOn child, k1) -> child <> parent' ->
  let k2 := finish child code k1 in
  state (TASKS k2 !!! parent') = State.Ready /\
  exists k3, wait_turn parent' k2 = (Collected code, k3) /\
    state (TASKS k3 !!! child) = State.Free /\ forall r, spaces r k3 = spaces r k2.
Proof.
  intros Hts Hp E Hne. unfold wait_turn in E.
  destruct (collect parent' k) as [[c|] k0] eqn:C; [done|].
  destruct (collect_None parent' k) as [C' Hnone]; [by rewrite C|]. rewrite C' in C. injection C as <-.
  destruct (range_find _ _ _) as [i|] eqn:F; [|done]. injection E as -> <-.
  apply range_find_Some in F as ([_ Hc] & [Hchild _]%andb_true_iff & _).
  apply bool_decide_eq_true in Hchild. destruct Hts as [Hlen Ha]. rewrite Hlen in Hc.
  assert (Hts : table_wf (TASKS k)) by done. clear Hlen Ha.
  set (k1 := k <| TASKS := _ |>).
  assert (Hts1 : table_wf (TASKS k1)) by (by apply park_wf).
  assert (Hpar : forall j, (j < MAX_TASKS)%nat -> parent (TASKS k1 !!! j) = parent (TASKS k !!! j)).
  { intros j Hj. unfold k1. cbn [TASKS set_field set_TASKS]. unfold park. rewrite update_task_lookup by done.
    by case_decide; subst. }
  assert (Hst : forall j, (j < MAX_TASKS)%nat -> state (TASKS k1 !!! j) =
     if decide (parent' = j) then State.Blocked (Reason.Channel (Z.of_nat child)) else state (TASKS k !!! j)).
  { intros j Hj. by apply park_lookup. }
  intros k2. destruct (finish_lookup child code k1 parent' Hts1 Hc Hp) as (Hts2 & _ & _ & _ & Hw).
  destruct (Hw ltac:(congruence)) as [Hwoken _].
  split; [apply Hwoken; rewrite Hst, decide_True by done; done|].
  destruct (collect parent' k2) as [[c|] k3] eqn:C2.
  2: { exfalso. destruct (collect_None parent' k2) as [_ Hnone2]; [by rewrite C2|].
       destruct (finish_lookup child code k1 child Hts1 Hc Hc) as (_ & E1 & _ & Hf & _).
       unfold k2 in Hnone2. apply (Hnone2 child Hc); [by rewrite E1, Hpar|by apply Hf]. }
  destruct (collect_Some parent' k2 c k3 Hts2 C2) as (id & Hid & Hip & His & Hcode & Et & Hsp).
  assert (id = child) as ->.
  { destruct (decide (id = child)) as [|Hd]; [done|]. exfalso.
    destruct (finish_lookup child code k1 id Hts1 Hc Hid) as (_ & E1 & _ & _ & H2).
    unfold k2 in *. rewrite E1, Hpar in Hip by done. destruct (H2 Hd) as [_ [E2|[_ E2]]]; [|congruence].
    rewrite E2, Hst in His by done. case_decide; [congruence|]. by apply (Hnone id Hid). }
  destruct (finish_lookup child code k1 child Hts1 Hc Hc) as (_ & _ & _ & Hf & _).
  destruct (Hf eq_refl) as [_ Hcode']. fold k2 in Hcode'. rewrite Hcode' in Hcode. subst c.
  exists k3. split_and!; [unfold wait_turn; by rewrite C2| |done].
  rewrite Et, update_task_lookup by done. by rewrite decide_True.
Qed.

(** The shell with a program of its own running. *)
Definition parent_and_child : Kernel :=
  mkKernel (update_task 1 (fun t => t <| state := State.Ready |> <| parent := Some 0%nat |>)
             (update_task 2 (fun t => t <| state := State.Ready |> <| parent := Some 0%nat |>)
               (update_task 0 (fun t => t <| state := State.Ready |>) TASKS_init)))
    PIPES_init Sched_init 0 true [] 4096 4096 0 (fun _ => 0) (fun _ _ => 0).

Lemma parent_and_child_wf : table_wf (TASKS parent_and_child).
Proof.
  do 3 (apply update_task_wf; [|by apply Nat.ltb_lt|done]). apply TASKS_init_wf.
Qed.

Lemma wait_gets_exit_code_witness :
  (wait_turn 0 parent_and_child).1 = SleepsOn 1 /\
  exists k3, wait_turn 0 (finish 1 42 (wait_turn 0 parent_and_child).2) = (Collected 42, k3).
Proof.
  assert (E1 : (wait_turn 0 parent_and_child).1 = SleepsOn 1) by (vm_compute; reflexivity).
  split; [exact E1|].
  assert (E : wait_turn 0 parent_and_child = (SleepsOn 1, (wait_turn 0 parent_and_child).2))
    by (rewrite <- E1; apply surjective_pairing).
  assert (Hp : (0 < MAX_TASKS)%nat) by (by apply Nat.ltb_lt).
  assert (Hne : 1%nat <> 0%nat) by done.
  destruct (wait_gets_exit_code 0 1 42 _ _ parent_and_child_wf Hp E Hne) as (_ & k3 & H & _).
  exists k3. exact H.
Defined.

(** [wait_any_child] waits for one child, not for any.  With two children
    running it sleeps on the first alone; when the second finishes, its exit
    code is there to collect and its parent sleeps on. *)
Theorem wait_sleeps_through_second_child :
  exists k, (wait_any_child 0 k).1 = SleepsOn 1 /\
    let k1 := finish 2 7 (wait_any_child 0 k).2 in
    state (TASKS k1 !!! 0%nat) = State.Blocked (Reason.Channel 1) /\ (collect 0 k1).1 = Some 7.
Proof. exists parent_and_child. cbn zeta. split_and!; vm_compute; reflexivity. Qed.

(** The shell waiting for a program it started. *)
Definition spawned : Kernel :=
  (spawn_user [115; 104] 4194304 8388608 8192 (Some 0%nat) 0 0 65536 (init_shell booted)).2.

Definition waiting : Kernel := (wait_any_child 0 spawned).2.
Definition interrupted : Kernel := (signal 1 SIGTERM waiting).2.

Lemma spawned_reachable : rtc step booted interrupted.
Proof.
  apply (rtc_l step booted (init_shell booted) interrupted (SInit booted)).
  apply (rtc_l step (init_shell booted) spawned interrupted (SSpawnUser _ _ _ _ _ _ _ _ _)).
  assert (Hl : live 0 spawned) by (split; vm_compute; (done || lia)).
  apply (rtc_l step spawned waiting interrupted (SWait 0 spawned Hl)).
  apply (rtc_l step waiting interrupted interrupted (SSignal 1 SIGTERM waiting)), rtc_refl.
Qed.

(** A program killed at a timer tick leaves the shell standing in its
    address space.  From boot, with the shell waiting for the program: the
    tick that kills it falls back to the shell, which has no address space
    of its own, and leaves the dead program's active; the root the shell
    then takes to destroy is the one it is running in. *)
Theorem kill_strands_the_shell :
  exists k0 k, TASKS k0 = TASKS_init /\ PIPES k0 = PIPES_init /\ rtc step k0 k /\
    let k1 := (schedule 0 1 k).2 in
    CURRENT k1 = 0%nat /\ address_space (TASKS k1 !!! 0%nat) = None /\
    let k2 := (wait_turn 0 k1).2 in
    (wait_turn 0 k1).1 = Collected 128 /\
    (orphan_address_spaces k2).1 = [CR3 k2] /\ CR3 k2 <> KERNEL_ROOT k2.
Proof.
  exists booted, interrupted.
  split; [done|]. split; [done|]. split; [exact spawned_reachable|].
  cbn zeta. split_and!; vm_compute; (reflexivity || discriminate).
Qed.

(** [reap_finished] forgets the address space of a task nobody waited
    for: the root has no owner afterwards and is never handed back. *)
Theorem reap_forgets_address_space :
  exists k r, table_wf (TASKS k) /\ spaces r k = 1 /\ spaces r (reap_finished k) = 0 /\
    occ r (orphan_address_spaces (reap_finished k)).1 = 0.
Proof.
  exists two_programs, 8192. split.
  { apply update_task_wf; [apply update_task_wf; [apply TASKS_init_wf|by apply Nat.ltb_lt|done]|by apply Nat.ltb_lt|done]. }
  split_and!; vm_compute; reflexivity.
Qed.
