(* ===== verification/Bytes.v ===== *)
(** * Bytes and words

    Little-endian encoding, and a memory of bytes with its multi-byte loads
    and stores: what the heap, the page tables, the loader and the file
    system read and write. *)

From S2P Require Import Prelude.

(** ** Little-endian *)

(** [from_le_bytes] and [to_le_bytes]. *)
Fixpoint unle (bytes : list Z) : Z :=
  match bytes with [] => 0 | b :: bytes => b + 256 * unle bytes end.
Fixpoint le (n : nat) (v : Z) : list Z :=
  match n with O => [] | S n => v mod 256 :: le n (v / 256) end.

Definition is_byte (b : Z) : Prop := 0 <= b < 256.

Lemma le_length n v : length (le n v) = n.
Proof. revert v. induction n as [|n IH]; intros v; cbn; [done|]. by rewrite IH. Qed.

Lemma le_bytes n v : Forall is_byte (le n v).
Proof.
  revert v. induction n as [|n IH]; intros v; cbn; constructor; [|apply IH].
  apply Z.mod_pos_bound. lia.
Qed.

Lemma pow_byte n : 256 ^ Z.of_nat (S n) = 256 * 256 ^ Z.of_nat n.
Proof. rewrite Nat2Z.inj_succ, Z.pow_succ_r by lia. done. Qed.

Lemma unle_le n v : 0 <= v < 256 ^ Z.of_nat n -> unle (le n v) = v.
Proof.
  revert v. induction n as [|n IH]; intros v Hv; [cbn in *; lia|]. cbn [le unle].
  rewrite pow_byte in Hv. rewrite IH.
  - pose proof (Z.div_mod v 256). lia.
  - split; [apply Z.div_pos; lia|]. apply Z.div_lt_upper_bound; lia.
Qed.

Lemma unle_bound bytes : Forall is_byte bytes -> 0 <= unle bytes < 256 ^ Z.of_nat (length bytes).
Proof.
  induction 1 as [|b bytes Hb _ IH]; [cbn; lia|]. cbn [unle length]. rewrite pow_byte.
  unfold is_byte in Hb. lia.
Qed.

Lemma le_unle bytes : Forall is_byte bytes -> le (length bytes) (unle bytes) = bytes.
Proof.
  induction 1 as [|b bytes Hb _ IH]; [done|]. unfold is_byte in Hb. cbn [unle length le].
  rewrite (Z.mul_comm 256), Z.mod_add, Z.div_add by lia.
  rewrite Z.mod_small, Z.div_small by lia. by rewrite Z.add_0_l, IH.
Qed.

Lemma unle_app b b' : unle (b ++ b') = unle b + 256 ^ Z.of_nat (length b) * unle b'.
Proof.
  induction b as [|x b IH]; [cbn [app length unle]; change (256 ^ Z.of_nat 0) with 1; lia|].
  cbn [app length unle]. rewrite IH, pow_byte. lia.
Qed.

(** ** Memory *)

Definition memory : Type := Z -> Z.

(** [n] bytes at [a]; the word they spell. *)
Definition bytes_at (n : nat) (m : memory) (a : Z) : list Z :=
  map (fun i => m (a + Z.of_nat i)) (seq 0 n).
Definition load (n : nat) (m : memory) (a : Z) : Z := unle (bytes_at n m a).

(** Writing a run of bytes, a word, or one byte over a range. *)
Definition put (a : Z) (bytes : list Z) (m : memory) : memory := fun x =>
  if (a <=? x) && (x <? a + Z.of_nat (length bytes)) then bytes !!! Z.to_nat (x - a) else m x.
Definition store (n : nat) (a v : Z) (m : memory) : memory := put a (le n v) m.
Definition fill (a size b : Z) (m : memory) : memory := fun x =>
  if (a <=? x) && (x <? a + size) then b else m x.
Definition copy (source target size : Z) (m : memory) : memory := fun x =>
  if (target <=? x) && (x <? target + size) then m (source + (x - target)) else m x.

(** Agreement of two memories on a range. *)
Definition same_on (lo hi : Z) (m m' : memory) : Prop := forall x, lo <= x < hi -> m' x = m x.

Lemma put_out a bytes m x : ~ a <= x < a + Z.of_nat (length bytes) -> put a bytes m x = m x.
Proof. intros H. unfold put. destruct (Z.leb_spec a x), (Z.ltb_spec x (a + Z.of_nat (length bytes))); cbn; (done || lia). Qed.

Lemma put_in a bytes m i :
  (i < length bytes)%nat -> put a bytes m (a + Z.of_nat i) = bytes !!! i.
Proof.
  intros H. unfold put. rewrite (proj2 (Z.leb_le _ _)), (proj2 (Z.ltb_lt _ _)) by lia. cbn.
  f_equal. lia.
Qed.

Lemma store_out n a v m x : ~ a <= x < a + Z.of_nat n -> store n a v m x = m x.
Proof. intros H. unfold store. apply put_out. by rewrite le_length. Qed.

Lemma fill_out a size b m x : ~ a <= x < a + size -> fill a size b m x = m x.
Proof. intros H. unfold fill. destruct (Z.leb_spec a x), (Z.ltb_spec x (a + size)); cbn; (done || lia). Qed.

Lemma fill_in a size b m x : a <= x < a + size -> fill a size b m x = b.
Proof. intros H. unfold fill. by rewrite (proj2 (Z.leb_le _ _)), (proj2 (Z.ltb_lt _ _)) by lia. Qed.

Lemma copy_out source target size m x : ~ target <= x < target + size -> copy source target size m x = m x.
Proof. intros H. unfold copy. destruct (Z.leb_spec target x), (Z.ltb_spec x (target + size)); cbn; (done || lia). Qed.

Lemma copy_in source target size m x :
  target <= x < target + size -> copy source target size m x = m (source + (x - target)).
Proof. intros H. unfold copy. by rewrite (proj2 (Z.leb_le _ _)), (proj2 (Z.ltb_lt _ _)) by lia. Qed.

Lemma bytes_at_ext n m m' a : same_on a (a + Z.of_nat n) m m' -> bytes_at n m' a = bytes_at n m a.
Proof.
  intros H. unfold bytes_at. apply map_ext_in. intros i Hi%in_seq. apply H. lia.
Qed.

Lemma load_ext n m m' a : same_on a (a + Z.of_nat n) m m' -> load n m' a = load n m a.
Proof. intros H. unfold load. by rewrite (bytes_at_ext n m m' a H). Qed.

Lemma bytes_at_put a bytes m : bytes_at (length bytes) (put a bytes m) a = bytes.
Proof.
  apply list_eq. intros i. unfold bytes_at. change (map ?f ?l) with (f <$> l). rewrite list_lookup_fmap.
  destruct (decide (i < length bytes)%nat).
  - rewrite lookup_seq_lt by done. cbn [fmap option_fmap option_map]. rewrite put_in by done.
    symmetry. by apply list_lookup_lookup_total_lt.
  - rewrite lookup_seq_ge by lia. symmetry. apply lookup_ge_None. lia.
Qed.

Lemma load_store n a v m : 0 <= v < 256 ^ Z.of_nat n -> load n (store n a v m) a = v.
Proof.
  intros Hv. unfold load, store. pose proof (bytes_at_put a (le n v) m) as E. rewrite le_length in E.
  rewrite E. by apply unle_le.
Qed.

Lemma load_store_out n k a b v m :
  a + Z.of_nat n <= b \/ b + Z.of_nat k <= a -> load n (store k b v m) a = load n m a.
Proof. intros H. apply load_ext. intros x Hx. apply store_out. lia. Qed.

Lemma load_bound n m a : (forall x, is_byte (m x)) -> 0 <= load n m a < 256 ^ Z.of_nat n.
Proof.
  intros H. unfold load. pose proof (unle_bound (bytes_at n m a)) as Hb.
  assert (E : length (bytes_at n m a) = n) by (unfold bytes_at; by rewrite length_map, length_seq).
  rewrite E in Hb. apply Hb. apply Forall_forall. intros b (i & -> & _)%list_elem_of_fmap. apply H.
Qed.

Lemma load_fill_zero n a size m x :
  a <= x -> x + Z.of_nat n <= a + size -> load n (fill a size 0 m) x = 0.
Proof.
  intros H1 H2. unfold load.
  assert (E : bytes_at n (fill a size 0 m) x = replicate n 0).
  { unfold bytes_at.
    apply list_eq. intros i. change (map ?f ?l) with (f <$> l). rewrite list_lookup_fmap.
    destruct (decide (i < n)%nat).
    - rewrite lookup_seq_lt by done. cbn [fmap option_fmap option_map]. rewrite fill_in by lia.
      symmetry. by apply lookup_replicate_2; rewrite ?length_seq.
    - rewrite lookup_seq_ge by lia. symmetry. apply lookup_ge_None. rewrite length_replicate, ?length_seq. lia. }
  rewrite E. clear. induction n; cbn; lia.
Qed.

Lemma load_copy n source target size m x :
  target <= x -> x + Z.of_nat n <= target + size ->
  load n (copy source target size m) x = load n m (source + (x - target)).
Proof.
  intros H1 H2. unfold load. f_equal. unfold bytes_at. apply map_ext_in. intros i Hi%in_seq.
  rewrite copy_in by lia. f_equal. lia.
Qed.

Lemma load_byte n m a : load (S n) m a = m a + 256 * load n m (a + 1).
Proof.
  unfold load, bytes_at. cbn [seq map unle]. rewrite Z.add_0_r. do 2 f_equal.
  rewrite <- seq_shift, map_map. f_equal. apply map_ext. intros i. f_equal. lia.
Qed.

(** All the bytes of a memory stay bytes. *)
Definition bytes_ok (m : memory) : Prop := forall x, is_byte (m x).

Lemma put_ok a bytes m : Forall is_byte bytes -> bytes_ok m -> bytes_ok (put a bytes m).
Proof.
  intros Hb Hm x. unfold put. destruct (Z.leb_spec a x), (Z.ltb_spec x (a + Z.of_nat (length bytes))); cbn; try apply Hm.
  assert (Hi : (Z.to_nat (x - a) < length bytes)%nat) by lia.
  rewrite Forall_forall in Hb. apply Hb, list_elem_of_lookup_2 with (Z.to_nat (x - a)).
  by apply list_lookup_lookup_total_lt.
Qed.

Lemma store_ok n a v m : bytes_ok m -> bytes_ok (store n a v m).
Proof. intros H. apply put_ok; [apply le_bytes|done]. Qed.

Lemma fill_ok a size b m : is_byte b -> bytes_ok m -> bytes_ok (fill a size b m).
Proof. intros Hb Hm x. unfold fill. by case_match. Qed.

Lemma copy_ok source target size m : bytes_ok m -> bytes_ok (copy source target size m).
Proof. intros Hm x. unfold copy. by case_match. Qed.

(** ** Slices of a buffer *)

(** [data[from..to]], which panics out of range; a little-endian word read
    from it, and the word there is. *)
Definition slice (data : list Z) (from to : Z) : result (list Z) :=
  if (from <=? to) && (to <=? Z.of_nat (length data))
  then Ok (take (Z.to_nat (to - from)) (drop (Z.to_nat from) data)) else Panic.
Definition read_le (n : Z) (data : list Z) (at_ : Z) : result Z :=
  bytes ← slice data at_ (at_ + n); mret (unle bytes).
Definition word (n : nat) (data : list Z) (at_ : Z) : Z := unle (take n (drop (Z.to_nat at_) data)).

Lemma slice_Ok data from to : 0 <= from -> from <= to -> to <= Z.of_nat (length data) ->
  slice data from to = Ok (take (Z.to_nat (to - from)) (drop (Z.to_nat from) data)).
Proof. intros H0 H1 H2. unfold slice. by rewrite !(proj2 (Z.leb_le _ _)). Qed.

Lemma read_le_Ok n data at_ : 0 <= at_ -> at_ + Z.of_nat n <= Z.of_nat (length data) ->
  read_le (Z.of_nat n) data at_ = Ok (word n data at_).
Proof.
  intros H0 H1. unfold read_le. rewrite slice_Ok by lia. cbn. unfold word. do 3 f_equal. lia.
Qed.

Lemma word_bound n data at_ : Forall is_byte data -> 0 <= word n data at_ < 256 ^ Z.of_nat n.
Proof.
  intros Hb. unfold word. assert (Hf : Forall is_byte (take n (drop (Z.to_nat at_) data))) by by apply Forall_take, Forall_drop.
  pose proof (unle_bound _ Hf) as [H0 H1]. split; [done|]. eapply Z.lt_le_trans; [exact H1|].
  apply Z.pow_le_mono_r; [lia|]. rewrite length_take. lia.
Qed.
