(* ===== verification/Heap.v ===== *)
(** * The heap allocator: [kernel/src/heap.rs]

    The list of holes as the code keeps it: threaded through the free memory
    itself, each hole's size and next pointer being its first sixteen bytes.
    The walks take fuel; [HOLES] is more holes than the heap has room for. *)

From S2P Require Import Prelude Bytes.

Definition HEAP_START : Z := 0x444444440000.
Definition HEAP_SIZE : Z := 2097152.
Definition HOLE_SIZE : Z := 16.
Definition HOLE_ALIGN : Z := 8.
Definition HOLES : nat := Z.to_nat 131073.
#[global] Arguments HOLES : simpl never.

(** [LinkedListAllocator], with the memory it writes to. *)
Record Heap := mkHeap {
  mem : memory;
  head : Z;
  allocated : Z;
  live_allocations : Z
}.
Definition Heap_eta (r : Heap) : Heap := mkHeap (mem r) (head r) (allocated r) (live_allocations r).
#[export] Instance set_mem : Setter mem := fun v r => ltac:(setter Heap_eta mem v r).
#[export] Instance set_head : Setter head := fun v r => ltac:(setter Heap_eta head v r).
#[export] Instance set_allocated : Setter allocated := fun v r => ltac:(setter Heap_eta allocated v r).
#[export] Instance set_live_allocations : Setter live_allocations :=
  fun v r => ltac:(setter Heap_eta live_allocations v r).

Definition new (m : memory) : Heap := mkHeap m 0 0 0.

(** A hole's [size] and [next] fields, and its [end()]. *)
Definition size_at (m : memory) (hole : Z) : Z := load 8 m hole.
Definition next_at (m : memory) (hole : Z) : Z := load 8 m (hole + 8).
Definition end_at (m : memory) (hole : Z) : Z := hole +₆₄ size_at m hole.
Definition set_size (hole v : Z) (m : memory) : memory := store 8 hole v m.
Definition set_next (hole v : Z) (m : memory) : memory := store 8 (hole + 8) v m.

(** [while !current.is_null() && current < address]: where the walk stops.
    [None] is running out of fuel. *)
Fixpoint find_place (fuel : nat) (m : memory) (address previous current : Z) : option (Z * Z) :=
  match fuel with
  | O => None
  | S fuel =>
      if negb (current =? 0) && (current <? address)
      then find_place fuel m address current (next_at m current)
      else Some (previous, current)
  end.

Definition add_region (address size : Z) (h : Heap) : option Heap :=
  let m := set_next address 0 (set_size address size (mem h)) in
  match find_place HOLES m address 0 (head h) with
  | None => None
  | Some (previous, current) =>
      let m := set_next address current m in
      let '(first, m) :=
        if previous =? 0 then (address, m) else (head h, set_next previous address m) in
      let m :=
        if negb (current =? 0) && (end_at m address =? current)
        then set_next address (next_at m current)
               (set_size address (size_at m address +₆₄ size_at m current) m)
        else m in
      let m :=
        if negb (previous =? 0) && (end_at m previous =? address)
        then set_next previous (next_at m address)
               (set_size previous (size_at m previous +₆₄ size_at m address) m)
        else m in
      Some (h <| mem := m |> <| head := first |>)
  end.

Definition align_up (address align : Z) : Z := Z.ldiff (address +₆₄ align -₆₄ 1) (align -₆₄ 1).

(** The aligned start, when the allocation sits in the hole and leaves no
    gap too small to be a hole. *)
Definition fits (m : memory) (hole size align : Z) : option Z :=
  let start := align_up hole align in
  if u64_max <? start + size then None
  else
    let end_ := start + size in
    if end_at m hole <? end_ then None
    else
      let front := start -₆₄ hole in
      if (0 <? front) && (front <? HOLE_SIZE) then None
      else
        let back := end_at m hole -₆₄ end_ in
        if (0 <? back) && (back <? HOLE_SIZE) then None
        else Some start.

(** What [take_region] does with the hole it chose. *)
Definition carve (previous current start size : Z) (h : Heap) : option Heap :=
  let region_end := end_at (mem h) current in
  let next := next_at (mem h) current in
  let h := if previous =? 0 then h <| head := next |>
           else h <| mem := set_next previous next (mem h) |> in
  match (if current <? start then add_region current (start -₆₄ current) h else Some h) with
  | None => None
  | Some h =>
      let end_ := start +₆₄ size in
      if end_ <? region_end then add_region end_ (region_end -₆₄ end_) h else Some h
  end.

Fixpoint take_loop (fuel : nat) (size align previous current : Z) (h : Heap)
  : option (option Z * Heap) :=
  match fuel with
  | O => None
  | S fuel =>
      if current =? 0 then Some (None, h)
      else
        match fits (mem h) current size align with
        | Some start =>
            match carve previous current start size h with
            | Some h => Some (Some start, h)
            | None => None
            end
        | None => take_loop fuel size align current (next_at (mem h) current) h
        end
  end.

Definition take_region (size align : Z) (h : Heap) : option (option Z * Heap) :=
  take_loop HOLES size align 0 (head h) h.

(** [Layout::align_to] then [pad_to_align], then room for a [Hole].  The
    layout itself is valid: its alignment is a power of two. *)
Definition ISIZE_MAX : Z := 9223372036854775807.
Definition adjust (size align : Z) : result (Z * Z) :=
  let align := Z.max align HOLE_ALIGN in
  if ISIZE_MAX - (align - 1) <? size then Panic
  else Ok (Z.max (align_up size align) HOLE_SIZE, align).

(** [GlobalAlloc::alloc]: [Some 0] is the null pointer; the outer [None] is
    running out of fuel. *)
Definition alloc (size align : Z) (h : Heap) : option (result Z * Heap) :=
  match adjust size align with
  | Ok (size, align) =>
      match take_region size align h with
      | None => None
      | Some (Some start, h) =>
          Some (Ok start, h <| allocated := allocated h +₆₄ size |>
                            <| live_allocations := live_allocations h +₆₄ 1 |>)
      | Some (None, h) => Some (Ok 0, h)
      end
  | Err e => Some (Err e, h)
  | Panic => Some (Panic, h)
  end.

Definition dealloc (ptr size align : Z) (h : Heap) : option (result unit * Heap) :=
  match adjust size align with
  | Ok (size, _) =>
      match add_region ptr size h with
      | None => None
      | Some h => Some (Ok tt, h <| allocated := allocated h -₆₄ size |>
                                 <| live_allocations := live_allocations h -₆₄ 1 |>)
      end
  | Err e => Some (Err e, h)
  | Panic => Some (Panic, h)
  end.

(** (free bytes, holes, live allocations) *)
Fixpoint stats_loop (fuel : nat) (m : memory) (current free holes : Z) : option (Z * Z) :=
  match fuel with
  | O => None
  | S fuel =>
      if current =? 0 then Some (free, holes)
      else stats_loop fuel m (next_at m current) (free +₆₄ size_at m current) (holes +₆₄ 1)
  end.
Definition stats (h : Heap) : option (Z * Z * Z) :=
  match stats_loop HOLES (mem h) (head h) 0 0 with
  | Some (free, holes) => Some (free, holes, live_allocations h)
  | None => None
  end.

(** [init], once every page of the range is mapped. *)
Definition init (m : memory) : option Heap := add_region HEAP_START HEAP_SIZE (new m).

(** ** The list of holes *)

Abbreviation Holes := (list (Z * Z)).

(** The pointers from [p] to [q] spell [l]. *)
Fixpoint segment (m : memory) (p q : Z) (l : Holes) : Prop :=
  match l with
  | [] => p = q
  | (a, s) :: l => p = a /\ size_at m a = s /\ segment m (next_at m a) q l
  end.

(** Sorted, aligned, inside the heap, and no two adjacent: each hole starts
    strictly after [lo], the end of the one before. *)
Definition good_block (a s : Z) : Prop :=
  HEAP_START <= a /\ a + s <= HEAP_START + HEAP_SIZE /\ a mod 8 = 0 /\ s mod 8 = 0 /\ HOLE_SIZE <= s.
Fixpoint placed (lo : Z) (l : Holes) : Prop :=
  match l with
  | [] => True
  | (a, s) :: l => lo < a /\ good_block a s /\ placed (a + s) l
  end.

Definition free (l : Holes) (x : Z) : Prop := exists a s, (a, s) ∈ l /\ a <= x < a + s.
Definition total (l : Holes) : Z := sum snd l.

(** The abstract release: insert in order, merge with both neighbours. *)
Definition glue (a s : Z) (l : Holes) : Holes :=
  match l with
  | (b, t) :: l' => if a + s =? b then (a, s + t) :: l' else (a, s) :: l
  | [] => [(a, s)]
  end.
Fixpoint release (a s : Z) (l : Holes) : Holes :=
  match l with
  | (b, t) :: l' => if b <? a then glue b t (release a s l') else glue a s l
  | [] => [(a, s)]
  end.

(** The heap stands for the holes [l]. *)
Definition holds (h : Heap) (l : Holes) : Prop := segment (mem h) (head h) 0 l /\ placed 0 l.
