(* ===== verification/HeapSpec.v ===== *)
(** * The heap allocator refines a set of free bytes

    The threaded list stands for a sorted, fully coalesced list of holes
    ([Heap.holds]); [add_region] is [release] on it, [take_region] removes a
    block from it, and since coalesced lists are determined by the bytes they
    cover, freeing what was allocated restores the heap exactly. *)

From stdpp Require Import relations.
From S2P Require Import Prelude Bytes Heap.

#[local] Arguments Z.pow : simpl never.
#[local] Arguments load : simpl never.

(** ** Lists of holes *)

Lemma good_block_pos a s : good_block a s -> 0 < a /\ a + s < 2 ^ 48 /\ HOLE_SIZE <= s.
Proof. unfold good_block, HEAP_START, HEAP_SIZE, HOLE_SIZE. lia. Qed.

Lemma placed_weaken lo lo' l : lo' <= lo -> placed lo l -> placed lo' l.
Proof. destruct l as [|[a s] l]; [done|]. cbn. intros ? (? & ? & ?). split_and!; (done || lia). Qed.

Lemma placed_elem lo l a s : placed lo l -> (a, s) ∈ l -> lo < a /\ good_block a s.
Proof.
  revert lo. induction l as [|[b t] l IH]; intros lo Hl Hin; [by apply not_elem_of_nil in Hin|].
  destruct Hl as (Hb & Hg & Hl). apply elem_of_cons in Hin as [[= -> ->]|Hin]; [done|].
  destruct (IH _ Hl Hin) as [H1 H2]. apply good_block_pos in Hg. unfold HOLE_SIZE in *. split; [lia|done].
Qed.

Lemma placed_app lo l1 l2 :
  placed lo (l1 ++ l2) <->
  placed lo l1 /\ placed (match last l1 with Some (a, s) => a + s | None => lo end) l2.
Proof.
  revert lo. induction l1 as [|[a s] l1 IH]; intros lo; [cbn; tauto|].
  cbn [app placed]. rewrite IH. destruct l1 as [|h l1]; [cbn; tauto|].
  change (last ((a, s) :: h :: l1)) with (last (h :: l1)).
  destruct (last (h :: l1)) as [[b t]|] eqn:E; [tauto|]. by apply last_None in E.
Qed.

(** The holes of one list do not touch. *)
Lemma placed_apart lo l1 a s l2 b t :
  placed lo (l1 ++ (a, s) :: l2) -> (b, t) ∈ l1 ++ l2 -> b + t < a \/ a + s < b.
Proof.
  intros Hp. apply placed_app in Hp as [H1 H2]. cbn in H2. destruct H2 as (Ha & Hg & H2).
  intros [Hin|Hin]%elem_of_app.
  - left. assert (Hlast : forall lo l c u, placed lo l -> (c, u) ∈ l ->
              match last l with Some (d, v) => c + u <= d + v | None => False end).
    { clear. intros lo l. revert lo. induction l as [|[d v] l IH]; intros lo c u Hl Hin;
        [by apply not_elem_of_nil in Hin|].
      destruct l as [|h l]; [apply list_elem_of_singleton in Hin; injection Hin as -> ->; cbn; lia|].
      change (last ((d, v) :: h :: l)) with (last (h :: l)). destruct Hl as (_ & _ & Hl).
      apply elem_of_cons in Hin as [[= -> ->]|Hin]; [|by eapply IH].
      destruct h as [e w]. pose proof (IH (d + v) e w Hl ltac:(left)) as Hlast.
      destruct (last ((e, w) :: l)) as [[f x]|]; [|done]. destruct Hl as (He & Hg & _).
      apply good_block_pos in Hg. unfold HOLE_SIZE in *. lia. }
    specialize (Hlast _ _ _ _ H1 Hin). destruct (last l1) as [[d v]|]; [lia|done].
  - right. destruct (placed_elem _ _ _ _ H2 Hin). lia.
Qed.

Lemma free_cons a s l x : free ((a, s) :: l) x <-> a <= x < a + s \/ free l x.
Proof.
  unfold free. split.
  - intros (b & t & [[= -> ->]|Hin]%elem_of_cons & Hx); [by left|right; eauto].
  - intros [Hx|(b & t & Hin & Hx)]; [exists a, s; split; [left|done]|exists b, t; split; [by right|done]].
Qed.

Lemma free_app l1 l2 x : free (l1 ++ l2) x <-> free l1 x \/ free l2 x.
Proof.
  induction l1 as [|[a s] l1 IH]; [cbn; split; [by right|intros [(? & ? & H%not_elem_of_nil & _)|]; done]|].
  cbn [app]. rewrite !free_cons, IH. tauto.
Qed.

Lemma free_nil x : ~ free [] x.
Proof. intros (a & s & H%not_elem_of_nil & _). done. Qed.

Lemma free_above lo l x : placed lo l -> free l x -> lo < x.
Proof. intros Hl (a & s & Hin & Hx). destruct (placed_elem _ _ _ _ Hl Hin). lia. Qed.

Lemma free_from b t k x : good_block b t -> placed (b + t) k -> free ((b, t) :: k) x -> b <= x.
Proof.
  intros Hg%good_block_pos Hk [?|Hx]%free_cons; [lia|]. pose proof (free_above _ _ _ Hk Hx).
  unfold HOLE_SIZE in *. lia.
Qed.

(** The byte just after a hole is not free. *)
Lemma free_end a s l : placed (a + s) l -> ~ free ((a, s) :: l) (a + s).
Proof. intros Hl [?|Hx]%free_cons; [lia|]. pose proof (free_above _ _ _ Hl Hx). lia. Qed.

(** A coalesced list is determined by the bytes it covers. *)
Lemma placed_canonical lo lo' l l' :
  placed lo l -> placed lo' l' -> (forall x, free l x <-> free l' x) -> l = l'.
Proof.
  revert lo lo' l'. induction l as [|[a s] l IH]; intros lo lo' [|[a' s'] l'] Hl Hl' E; [done| | |].
  - exfalso. apply (free_nil a'), E, free_cons. left. destruct Hl' as (_ & Hg & _).
    apply good_block_pos in Hg. unfold HOLE_SIZE in *. lia.
  - exfalso. apply (free_nil a), E, free_cons. left. destruct Hl as (_ & Hg & _).
    apply good_block_pos in Hg. unfold HOLE_SIZE in *. lia.
  - destruct Hl as (_ & Hg & Hl), Hl' as (_ & Hg' & Hl').
    pose proof (good_block_pos _ _ Hg) as Hs. pose proof (good_block_pos _ _ Hg') as Hs'.
    unfold HOLE_SIZE in *.
    assert (a <= a') by (apply (free_from a s l); [done..|]; apply E, free_cons; left; lia).
    assert (a' <= a) by (apply (free_from a' s' l'); [done..|]; apply E, free_cons; left; lia).
    assert (a' = a) as -> by lia.
    assert (s' = s) as ->.
    { destruct (Z.lt_total s s') as [Hlt|[?|Hlt]]; [|done|]; exfalso.
      - apply (free_end a s l Hl), E, free_cons. left. lia.
      - apply (free_end a s' l' Hl'), E, free_cons. left. lia. }
    f_equal. apply (IH (a + s) (a + s)); [done..|]. intros x.
    assert (Hx : free ((a, s) :: l) x <-> free ((a, s) :: l') x) by apply E.
    rewrite !free_cons in Hx. split; intros Hf.
    + pose proof (free_above _ _ _ Hl Hf). apply proj1 in Hx. destruct (Hx (or_intror Hf)); [lia|done].
    + pose proof (free_above _ _ _ Hl' Hf). apply proj2 in Hx. destruct (Hx (or_intror Hf)); [lia|done].
Qed.

(** ** Releasing a block *)

Definition sized (l : Holes) : Prop := forall a s, (a, s) ∈ l -> 0 <= s.

Lemma placed_sized lo l : placed lo l -> sized l.
Proof.
  intros Hl a s Hin. destruct (placed_elem _ _ _ _ Hl Hin) as [_ Hg%good_block_pos].
  unfold HOLE_SIZE in *. lia.
Qed.

Lemma glue_free a s l x :
  0 <= s -> sized l -> free (glue a s l) x <-> a <= x < a + s \/ free l x.
Proof.
  intros Hs Hl. destruct l as [|[b t] l]; [apply free_cons|]. cbn.
  destruct (Z.eqb_spec (a + s) b) as [<-|]; [|apply free_cons].
  assert (0 <= t) by (apply (Hl (a + s) t); left).
  rewrite !free_cons. destruct (decide (a <= x < a + s + t)); [|].
  - split; [|intros _; left; lia]. intros _.
    destruct (Z.lt_ge_cases x (a + s)); [left|right; left]; lia.
  - split; (intros [?|?]; [lia|]); [tauto|]. destruct H0 as [?|?]; [lia|tauto].
Qed.

Lemma glue_total a s l : total (glue a s l) = s + total l.
Proof. destruct l as [|[b t] l]; [done|]. unfold total. cbn. case_match; cbn; lia. Qed.

Lemma glue_sized a s l : 0 <= s -> sized l -> sized (glue a s l).
Proof.
  intros Hs Hl b t. destruct l as [|[c u] l]; cbn; [by intros [= -> ->]%list_elem_of_singleton|].
  assert (0 <= u) by (apply (Hl c u); left).
  case_match; intros [[= -> ->]|Hin]%elem_of_cons; try lia; [apply (Hl b t); by right|by apply (Hl b t)].
Qed.

Lemma release_sized a s l : 0 <= s -> sized l -> sized (release a s l).
Proof.
  intros Hs. induction l as [|[b t] l IH]; intros Hl; [by intros b t [= -> ->]%list_elem_of_singleton|].
  cbn [release]. case_match; [|by apply glue_sized]. apply glue_sized.
  - apply (Hl b t). left.
  - apply IH. intros c u Hin. apply (Hl c u). by right.
Qed.

Lemma release_free a s l x :
  0 <= s -> sized l -> free (release a s l) x <-> a <= x < a + s \/ free l x.
Proof.
  intros Hs. induction l as [|[b t] l IH]; intros Hl; [apply free_cons|].
  assert (Hl' : sized l) by (intros c u Hin; apply (Hl c u); by right).
  assert (0 <= t) by (apply (Hl b t); left).
  cbn [release]. case_match; [|by apply glue_free].
  rewrite glue_free, IH, free_cons by (done || by apply release_sized). tauto.
Qed.

Lemma release_total a s l : total (release a s l) = s + total l.
Proof.
  induction l as [|[b t] l IH]; [done|]. cbn [release]. case_match; rewrite glue_total; [|done].
  rewrite IH. unfold total. cbn. lia.
Qed.

Lemma good_block_join a s b t : good_block a s -> good_block b t -> a + s = b -> good_block a (s + t).
Proof.
  unfold good_block, HOLE_SIZE. intros (? & ? & ? & Hs & ?) (? & ? & ? & Ht & ?) E. split_and!; try lia.
  rewrite Z.add_mod, Hs, Ht by lia. done.
Qed.

Lemma glue_placed lo a s l :
  lo < a -> good_block a s -> placed (a + s - 1) l -> placed lo (glue a s l).
Proof.
  intros Hlo Hg Hl. destruct l as [|[b t] l]; [done|]. destruct Hl as (Hb & Hgb & Hl). cbn.
  destruct (Z.eqb_spec (a + s) b) as [E|E]; cbn; split_and!; try done; try lia.
  - by apply (good_block_join a s b t).
  - by replace (a + (s + t)) with (b + t) by lia.
Qed.

Lemma release_placed lo a s l :
  placed lo l -> lo <= a -> good_block a s -> (forall x, a <= x < a + s -> ~ free l x) ->
  placed (lo - 1) (release a s l).
Proof.
  revert lo. induction l as [|[b t] l IH]; intros lo Hl Hlo Hg Hfree; [cbn; split_and!; (done || lia)|].
  destruct Hl as (Hb & Hgb & Hl). pose proof (good_block_pos _ _ Hgb) as Hp.
  pose proof (good_block_pos _ _ Hg) as Hpa. unfold HOLE_SIZE in *. cbn [release].
  destruct (Z.ltb_spec b a).
  - assert (b + t <= a).
    { destruct (Z.lt_ge_cases a (b + t)); [|done]. exfalso. apply (Hfree a); [lia|]. apply free_cons. left. lia. }
    apply glue_placed; [lia|done|]. apply IH; [done|lia|done|]. intros x Hx Hf. apply (Hfree x Hx), free_cons. by right.
  - assert (a + s <= b).
    { destruct (Z.lt_ge_cases b (a + s)); [|done]. exfalso. apply (Hfree b); [lia|]. apply free_cons. left. lia. }
    apply glue_placed; [lia|done|]. cbn. split_and!; (done || lia).
Qed.

Lemma glue_skip b t c u k : b + t < c -> glue b t (glue c u k) = (b, t) :: glue c u k.
Proof.
  intros H. destruct k as [|[d v] k]; cbn; [|case_match; cbn]; by rewrite (proj2 (Z.eqb_neq _ _)) by lia.
Qed.

(** Where the walk of [add_region] cuts the list. *)
Lemma release_split a s l1 l2 lo :
  placed lo (l1 ++ l2) -> (forall b t, (b, t) ∈ l1 -> b < a) -> (forall b t, (b, t) ∈ l2 -> a <= b) ->
  (forall x, a <= x < a + s -> ~ free (l1 ++ l2) x) -> 0 < s ->
  release a s (l1 ++ l2) =
    match last l1 with
    | None => glue a s l2
    | Some (b, t) => removelast l1 ++ glue b t (glue a s l2)
    end.
Proof.
  revert lo. induction l1 as [|[b t] l1 IH]; intros lo Hl H1 H2 Hfree Hs; cbn [app].
  { cbn. destruct l2 as [|[c u] l2]; [done|]. cbn [release].
    assert (a <= c) by (apply (H2 c u); left). by rewrite (proj2 (Z.ltb_ge _ _)). }
  destruct Hl as (Hb & Hg & Hl). cbn [release]. rewrite (proj2 (Z.ltb_lt _ _)) by (apply (H1 b t); left).
  rewrite (IH (b + t)); [|done|intros; apply (H1 b0 t0); by right|done| |done].
  2: { intros x Hx Hf. apply (Hfree x Hx). cbn [app]. apply free_cons. by right. }
  destruct l1 as [|[c u] l1]; [done|].
  change (last ((b, t) :: (c, u) :: l1)) with (last ((c, u) :: l1)).
  change (removelast ((b, t) :: (c, u) :: l1)) with ((b, t) :: removelast ((c, u) :: l1)).
  destruct Hl as (Hc & _ & _). destruct l1 as [|[d v] l1]; [by apply glue_skip|].
  destruct (last ((c, u) :: (d, v) :: l1)) as [[e w]|] eqn:E; [|by apply last_None in E].
  change (removelast ((c, u) :: (d, v) :: l1)) with ((c, u) :: removelast ((d, v) :: l1)).
  cbn [app glue]. by rewrite (proj2 (Z.eqb_neq _ _)) by lia.
Qed.

(** ** The nodes in memory *)

Lemma same_on_sub lo hi lo' hi' m m' : lo' <= lo -> hi <= hi' -> same_on lo' hi' m m' -> same_on lo hi m m'.
Proof. intros ? ? H x Hx. apply H. lia. Qed.

Lemma node_ext a m m' : same_on a (a + 16) m m' -> size_at m' a = size_at m a /\ next_at m' a = next_at m a.
Proof.
  intros H. unfold size_at, next_at. split; apply load_ext; (eapply same_on_sub; [| |exact H]); lia.
Qed.

Lemma segment_ext m m' p q l :
  (forall a s, (a, s) ∈ l -> same_on a (a + 16) m m') -> segment m p q l -> segment m' p q l.
Proof.
  revert p. induction l as [|[a s] l IH]; intros p Hs; [done|]. intros (-> & <- & Hl).
  destruct (node_ext a m m') as [E1 E2]; [apply (Hs a (size_at m a)); left|].
  split_and!; [done|done|]. rewrite E2. apply IH; [|done]. intros b t Hin. apply (Hs b t). by right.
Qed.

Lemma segment_app m p q l1 l2 :
  segment m p q (l1 ++ l2) <-> exists r, segment m p r l1 /\ segment m r q l2.
Proof.
  revert p. induction l1 as [|[a s] l1 IH]; intros p; cbn [app segment].
  - split; [eauto|]. by intros (r & -> & H).
  - rewrite IH. split.
    + intros (-> & <- & r & H1 & H2). eauto 6.
    + intros (r & (-> & <- & H1) & H2). eauto 6.
Qed.

Definition word (v : Z) : Prop := 0 <= v < 2 ^ 64.

Lemma size_set_size a v m : word v -> size_at (set_size a v m) a = v.
Proof. intros H. by apply load_store. Qed.
Lemma next_set_next a v m : word v -> next_at (set_next a v m) a = v.
Proof. intros H. by apply load_store. Qed.
Lemma size_set_next a v m : size_at (set_next a v m) a = size_at m a.
Proof. apply load_store_out. cbn. lia. Qed.
Lemma next_set_size a v m : next_at (set_size a v m) a = next_at m a.
Proof. apply load_store_out. cbn. lia. Qed.

Lemma set_size_out a v m x : ~ a <= x < a + 16 -> set_size a v m x = m x.
Proof. intros H. apply store_out. cbn. lia. Qed.
Lemma set_next_out a v m x : ~ a <= x < a + 16 -> set_next a v m x = m x.
Proof. intros H. apply store_out. cbn. lia. Qed.

(** A hole joined to the one it points at, when they touch. *)
Definition join (a c : Z) (m : memory) : memory :=
  if negb (c =? 0) && (end_at m a =? c)
  then set_next a (next_at m c) (set_size a (size_at m a +₆₄ size_at m c) m)
  else m.

Lemma join_out a c m x : ~ a <= x < a + 16 -> join a c m x = m x.
Proof. intros H. unfold join. case_match; [|done]. by rewrite set_next_out, set_size_out. Qed.

Lemma segment_word lo m p l : segment m p 0 l -> placed lo l -> word p.
Proof.
  destruct l as [|[a s] l]; [intros -> _; unfold word; lia|]. intros (-> & _) (_ & Hg%good_block_pos & _).
  unfold word, HOLE_SIZE in *. lia.
Qed.

Lemma join_spec m a s c l :
  size_at m a = s -> next_at m a = c -> segment m c 0 l -> placed (a + s - 1) l -> good_block a s ->
  segment (join a c m) a 0 (glue a s l).
Proof.
  intros Hs Hn Hl Hp Hg. pose proof (good_block_pos _ _ Hg) as Hpos. unfold HOLE_SIZE in *.
  assert (Hend : end_at m a = a + s).
  { unfold end_at. rewrite Hs. apply wrap_small. unfold in_u. lia. }
  unfold join. destruct l as [|[b t] l].
  { cbn in Hl. subst c. rewrite Hl. cbn. by rewrite Hs. }
  destruct Hl as (-> & Ht & Hl), Hp as (Hb & Hgb & Hp). pose proof (good_block_pos _ _ Hgb) as Hposb.
  unfold HOLE_SIZE in *. rewrite (proj2 (Z.eqb_neq b 0)) by lia. cbn [negb andb]. rewrite Hend. cbn [glue].
  destruct (Z.eqb_spec (a + s) b) as [E|E]; [|by cbn; rewrite Hs, Hn, Ht].
  rewrite Hs, Ht, wrap_small by (unfold in_u; lia). set (m' := set_next _ _ _). split_and!; [done| |].
  - unfold m'. rewrite size_set_next, size_set_size; [done|]. unfold word. lia.
  - assert (En : next_at m' a = next_at m b) by (apply next_set_next; by eapply segment_word).
    rewrite En. eapply segment_ext; [|exact Hl]. intros d u Hin x Hx.
    destruct (placed_elem _ _ _ _ Hp Hin) as [Hd _]. unfold m'. by rewrite set_next_out, set_size_out by lia.
Qed.

(** ** The walk *)

Lemma find_place_spec fuel m address previous current l lo :
  segment m current 0 l -> placed lo l -> (length l < fuel)%nat ->
  exists l1 l2 place next, l = l1 ++ l2 /\
    find_place fuel m address previous current = Some (place, next) /\
    segment m current next l1 /\ segment m next 0 l2 /\
    (forall b t, (b, t) ∈ l1 -> b < address) /\ (forall b t, (b, t) ∈ l2 -> address <= b) /\
    place = match last l1 with Some (b, _) => b | None => previous end.
Proof.
  revert previous current l lo. induction fuel as [|fuel IH]; intros previous current l lo Hs Hp Hf; [lia|].
  cbn [find_place]. destruct l as [|[a s] l].
  { cbn in Hs. subst. exists [], [], previous, 0. cbn. split_and!; try done; intros b t Hin; by apply not_elem_of_nil in Hin. }
  destruct Hs as (-> & Hsz & Hs), Hp as (Ha & Hg & Hp). pose proof (good_block_pos _ _ Hg).
  rewrite (proj2 (Z.eqb_neq a 0)) by lia. cbn [negb andb]. destruct (Z.ltb_spec a address).
  - cbn [length] in Hf. destruct (IH a _ l (a + s) Hs Hp ltac:(lia)) as (l1 & l2 & place & next & -> & E & H1 & H2 & H3 & H4 & H5).
    exists ((a, s) :: l1), l2, place, next. split_and!; try done.
    + intros b t [[= -> ->]|Hin]%elem_of_cons; [done|by apply (H3 b t)].
    + rewrite H5. destruct l1 as [|h l1]; [done|]. change (last ((a, s) :: h :: l1)) with (last (h :: l1)).
      destruct (last (h :: l1)) as [[? ?]|] eqn:El; [done|by apply last_None in El].
  - exists [], ((a, s) :: l), previous, a. split_and!; try done.
    + intros b t Hin. by apply not_elem_of_nil in Hin.
    + unfold HOLE_SIZE in *. intros b t [[= -> ->]|Hin]%elem_of_cons; [done|].
      destruct (placed_elem _ _ _ _ Hp Hin). lia.
Qed.

(** A heap has fewer holes than the fuel of its walks. *)
Lemma placed_length lo l :
  placed lo l -> HEAP_START - 16 <= lo ->
  lo + HOLE_SIZE * Z.of_nat (length l) <= Z.max lo (HEAP_START + HEAP_SIZE).
Proof.
  revert lo. induction l as [|[a s] l IH]; intros lo Hl Hlo; [cbn; lia|].
  destruct Hl as (Ha & Hg & Hl). cbn [length]. pose proof Hg as (? & ? & _ & _ & Hs).
  specialize (IH (a + s) Hl ltac:(unfold HOLE_SIZE in *; lia)). unfold HOLE_SIZE in *. lia.
Qed.

Lemma holes_fuel l : placed 0 l -> (length l < HOLES)%nat.
Proof.
  intros Hl. destruct l as [|[a s] l]; [unfold HOLES; cbn [length]; lia|]. destruct Hl as (_ & Hg & Hl).
  pose proof Hg as (Hlo & Hhi & _ & _ & Hs). pose proof (placed_length (a + s) l Hl) as H.
  specialize (H ltac:(unfold HOLE_SIZE in *; lia)).
  unfold HOLES, HOLE_SIZE, HEAP_SIZE in *. apply Nat2Z.inj_lt. rewrite Z2Nat.id by lia.
  cbn [length]. rewrite Nat2Z.inj_succ. lia.
Qed.

(** ** [add_region] is [release] *)

Lemma placed_start l : placed 0 l -> placed (HEAP_START - 1) l.
Proof. destruct l as [|[a s] l]; [done|]. intros (Ha & Hg & Hl). cbn. split_and!; try done. destruct Hg. lia. Qed.

Lemma disjoint_nodes lo l a s b t :
  placed lo l -> (b, t) ∈ l -> good_block a s -> (forall x, a <= x < a + s -> ~ free l x) ->
  b + 16 <= a \/ a + 16 <= b.
Proof.
  intros Hl Hin Hg Hfree. destruct (placed_elem _ _ _ _ Hl Hin) as [_ Hgb].
  apply good_block_pos in Hg, Hgb. unfold HOLE_SIZE in *.
  assert (Hb : forall x, b <= x < b + t -> ~ a <= x < a + s).
  { intros x Hx Hxa. apply (Hfree x Hxa). exists b, t. split; done. }
  destruct (Z.le_gt_cases (b + t) a); [lia|]. destruct (Z.le_gt_cases (a + s) b); [lia|]. exfalso.
  apply (Hb (Z.max a b)); lia.
Qed.

Lemma removelast_last (l : Holes) b t : last l = Some (b, t) -> l = removelast l ++ [(b, t)].
Proof.
  induction l as [|h l IH]; [done|]. destruct l as [|h' l]; [by intros [= ->]|].
  change (last (h :: h' :: l)) with (last (h' :: l)). intros E. rewrite (IH E) at 1. done.
Qed.

Lemma add_region_refines address size h l :
  holds h l -> good_block address size -> (forall x, address <= x < address + size -> ~ free l x) ->
  exists h', add_region address size h = Some h' /\ holds h' (release address size l) /\
    allocated h' = allocated h /\ live_allocations h' = live_allocations h /\
    (forall x, ~ free l x -> ~ address <= x < address + size -> mem h' x = mem h x).
Proof.
  intros [Hseg Hp] Hg Hfree. pose proof (good_block_pos _ _ Hg) as Hpos. pose proof Hpos as (_ & _ & H16).
  unfold HOLE_SIZE in H16. unfold add_region. set (m1 := set_next address 0 (set_size address size (mem h))).
  assert (Hm1 : forall x, ~ address <= x < address + 16 -> m1 x = mem h x).
  { intros x Hx. unfold m1. by rewrite set_next_out, set_size_out. }
  assert (Hapart : forall b t, (b, t) ∈ l -> b + 16 <= address \/ address + 16 <= b).
  { intros b t Hin. by apply (disjoint_nodes 0 l address size b t). }
  assert (Hseg1 : segment m1 (head h) 0 l).
  { eapply segment_ext; [|exact Hseg]. intros b t Hin x Hx. apply Hm1. specialize (Hapart b t Hin). lia. }
  destruct (find_place_spec HOLES m1 address 0 (head h) l 0 Hseg1 Hp (holes_fuel l Hp))
    as (l1 & l2 & place & next & El & E & H1 & H2 & Hl1 & Hl2 & Eplace).
  rewrite E. set (m2 := set_next address next m1).
  assert (Hm2 : forall x, ~ address <= x < address + 16 -> m2 x = mem h x).
  { intros x Hx. unfold m2. by rewrite set_next_out, Hm1. }
  assert (Hsub : forall b t, (b, t) ∈ l1 \/ (b, t) ∈ l2 -> (b, t) ∈ l) by (intros; subst l; by apply elem_of_app).
  assert (Hs2 : segment m2 next 0 l2).
  { eapply segment_ext; [|exact H2]. intros b t Hin x Hx. unfold m2. apply set_next_out.
    specialize (Hapart b t (Hsub b t (or_intror Hin))). lia. }
  assert (Hp2 : placed (address + size - 1) l2).
  { subst l. apply placed_app in Hp as [_ Hp]. destruct l2 as [|[c u] l2]; [done|].
    destruct Hp as (_ & Hgc & Hp). cbn. split_and!; [|done..].
    assert (address <= c) by (apply (Hl2 c u); left). pose proof (good_block_pos _ _ Hgc).
    unfold HOLE_SIZE in *. destruct (Z.lt_ge_cases c (address + size)); [|lia]. exfalso.
    apply (Hfree c); [lia|]. apply free_app. right. apply free_cons. left. lia. }
  assert (Hword : word size /\ word next /\ word address).
  { unfold word. split_and!; [lia|lia|by destruct (segment_word _ _ _ _ Hs2 Hp2)..|lia|lia]. }
  destruct Hword as (Hws & Hwn & Hwa).
  assert (Hsz : size_at m2 address = size).
  { unfold m2, m1. by rewrite !size_set_next, size_set_size. }
  assert (Hnx : next_at m2 address = next) by (unfold m2; by rewrite next_set_next).
  (* the two merges, in turn *)
  assert (Hglue : forall m3, (forall x, address <= x < address + 16 -> m3 x = m2 x) -> segment m3 next 0 l2 ->
            segment (join address next m3) address 0 (glue address size l2)).
  { intros m3 Hsame Hseg3. destruct (node_ext address m2 m3 Hsame) as [Ea En]. 
    apply join_spec; [by rewrite Ea|by rewrite En|done..]. }
  assert (Hres : placed 0 (release address size l)).
  { apply (placed_weaken (HEAP_START - 1 - 1)); [unfold HEAP_START; lia|].
    apply release_placed; [by apply placed_start|destruct Hg; lia|done|done]. }
  subst l. rewrite (release_split address size l1 l2 0) in * by (done || lia).
  destruct (last l1) as [[b t]|] eqn:El1.
  2: { apply last_None in El1 as ->. cbn in H1. subst place. cbn [Z.eqb negb andb].
       fold (join address next m2). eexists. split; [reflexivity|].
       split_and!; [split; [by apply Hglue|done]|done|done|].
       intros x Hx Hxa. cbn [mem set_field set_mem set_head]. rewrite join_out, Hm2 by lia. done. }
  subst place. pose proof (removelast_last l1 b t El1) as Er. set (r := removelast l1) in *.
  rewrite Er, <- app_assoc in Hp. cbn [app] in Hp.
  assert (Hin : (b, t) ∈ l1) by (rewrite Er; apply elem_of_app; right; left).
  pose proof (Hapart b t (Hsub b t (or_introl Hin))) as Hab. pose proof (Hl1 b t Hin) as Hba.
  assert (Hgb : good_block b t) by (apply placed_app in Hp as [_ Hp]; apply Hp).
  pose proof (good_block_pos _ _ Hgb) as Hposb. unfold HOLE_SIZE in Hposb.
  assert (Hbt : b + t <= address).
  { destruct (Z.lt_ge_cases address (b + t)); [|done]. exfalso. apply (Hfree address); [lia|].
    exists b, t. split; [apply elem_of_app; by left|lia]. }
  rewrite (proj2 (Z.eqb_neq b 0)) by lia. cbn [negb].
  set (m3 := set_next b address m2). fold (join address next m3). set (m4 := join address next m3).
  assert (Hm3 : forall x, ~ b <= x < b + 16 -> m3 x = m2 x) by (intros; by apply set_next_out).
  assert (Ejoin : forall m, (if true && (end_at m b =? address)
             then set_next b (next_at m address) (set_size b (size_at m b +₆₄ size_at m address) m) else m)
           = join b address m).
  { intros m. unfold join. by rewrite (proj2 (Z.eqb_neq address 0)) by lia. }
  rewrite Ejoin. eexists. split; [reflexivity|]. cbn [mem head allocated live_allocations set_field set_mem set_head].
  assert (H4 : segment m4 address 0 (glue address size l2)).
  { apply Hglue; [intros x Hx; apply Hm3; lia|]. eapply segment_ext; [|exact Hs2].
    intros c u Hc x Hx. apply Hm3. destruct (placed_apart 0 r b t l2 c u Hp); [by apply elem_of_app; right| |].
    - assert (address <= c) by by apply (Hl2 c u). lia.
    - lia. }
  assert (Hb4 : size_at m4 b = t /\ next_at m4 b = address /\ segment m4 (head h) b r).
  { rewrite Er in H1. apply segment_app in H1 as (b' & Hr & -> & Hsb & _).
    destruct (node_ext b m3 m4) as [-> ->]; [intros x Hx; apply join_out; lia|].
    assert (Hsame2 : same_on b (b + 16) m1 m2) by (intros x Hx; unfold m2; apply set_next_out; lia).
    destruct (node_ext b m1 m2 Hsame2) as [Eb _]. unfold m3.
    rewrite size_set_next, next_set_next, Eb by done. split_and!; [done|done|].
    eapply segment_ext; [|exact Hr]. intros c u Hc x Hx.
    assert (Hcl : (c, u) ∈ l1) by (rewrite Er; apply elem_of_app; by left).
    pose proof (Hapart c u (Hsub c u (or_introl Hcl))).
    destruct (placed_elem 0 (r ++ (b, t) :: l2) c u Hp) as [_ Hgc%good_block_pos]; [apply elem_of_app; by left|].
    unfold HOLE_SIZE in Hgc.
    destruct (placed_apart 0 r b t l2 c u Hp); [by apply elem_of_app; left| |];
      (unfold m4; rewrite join_out by lia; fold m3; rewrite Hm3 by lia; unfold m2; by rewrite set_next_out by lia). }
  destruct Hb4 as (Eb1 & Eb2 & Hr4).
  split_and!; [split; [|done]|done|done|].
  - apply segment_app. exists b. split.
    + eapply segment_ext; [|exact Hr4]. intros c u Hc x Hx. apply join_out.
      destruct (placed_elem 0 (r ++ (b, t) :: l2) c u Hp) as [_ Hgc%good_block_pos]; [apply elem_of_app; by left|].
      unfold HOLE_SIZE in Hgc.
      destruct (placed_apart 0 r b t l2 c u Hp); [by apply elem_of_app; left|lia|lia].
    + apply join_spec; try done. apply glue_placed; [lia|done|done].
  - intros x Hx Hxa. assert (~ b <= x < b + 16).
    { intros Hxb. apply Hx. exists b, t. split; [apply elem_of_app; by left|lia]. }
    unfold m4. rewrite join_out, join_out, Hm3, Hm2 by lia. done.
Qed.

(** ** Taking a block *)

Lemma align_up_spec x k :
  0 <= k <= 63 -> 0 <= x < 2 ^ 63 ->
  let r := align_up x (2 ^ k) in x <= r < x + 2 ^ k /\ r mod 2 ^ k = 0.
Proof.
  intros Hk Hx. unfold align_up.
  assert (Hp : 0 < 2 ^ k <= 2 ^ 63) by (split; [apply Z.pow_pos_nonneg; lia|apply Z.pow_le_mono_r; lia]).
  rewrite (wrap_small 64 (x + 2 ^ k)), (wrap_small 64 (2 ^ k - 1)), (wrap_small 64 (x + 2 ^ k - 1))
    by (unfold in_u; lia).
  replace (2 ^ k - 1) with (Z.ones k) by (rewrite Z.ones_equiv; lia).
  rewrite Z.ldiff_ones_r, Z.shiftr_div_pow2, Z.shiftl_mul_pow2 by lia.
  pose proof (Z.div_mod (x + 2 ^ k - 1) (2 ^ k)). pose proof (Z.mod_pos_bound (x + 2 ^ k - 1) (2 ^ k)).
  split; [lia|]. apply Z.mod_mul. lia.
Qed.

(** A power-of-two alignment of at least eight makes addresses multiples of
    eight. *)
Lemma mod_pow_8 r k : 3 <= k -> r mod 2 ^ k = 0 -> r mod 8 = 0.
Proof.
  intros Hk H. apply Z.mod_divide in H; [|apply Z.pow_nonzero; lia]. apply Z.mod_divide; [lia|].
  destruct H as [q ->]. exists (q * 2 ^ (k - 3)). rewrite <- Z.mul_assoc. f_equal.
  change 8 with (2 ^ 3). rewrite <- Z.pow_add_r by lia. f_equal. lia.
Qed.

Definition request (size align : Z) : Prop :=
  size mod 8 = 0 /\ HOLE_SIZE <= size < 2 ^ 63 /\ exists k, 3 <= k <= 63 /\ align = 2 ^ k.

Lemma fits_spec m a s size align start :
  good_block a s -> size_at m a = s -> request size align -> fits m a size align = Some start ->
  a <= start /\ start + size <= a + s /\ start mod align = 0 /\ good_block start size /\
  (start = a \/ good_block a (start - a)) /\
  (start + size = a + s \/ good_block (start + size) (a + s - (start + size))).
Proof.
  intros Hg Hs (Hm & Hr & k & Hk & ->) E. pose proof (good_block_pos _ _ Hg) as Hp. unfold HOLE_SIZE in *.
  pose proof (align_up_spec a k ltac:(lia) ltac:(lia)) as [Ha Hmod]. unfold fits, HOLE_SIZE in E.
  set (r := align_up a (2 ^ k)) in *. destruct (Z.ltb_spec u64_max (r + size)) as [|H64]; [done|].
  assert (Hend : end_at m a = a + s) by (unfold end_at; rewrite Hs; apply wrap_small; unfold in_u; lia).
  rewrite Hend in E. destruct (Z.ltb_spec (a + s) (r + size)) as [|Hle]; [done|].
  rewrite (wrap_small 64 (r - a)), (wrap_small 64 (a + s - (r + size))) in E
    by (unfold in_u, u64_max in *; lia).
  destruct ((0 <? r - a) && (r - a <? 16)) eqn:Ef; [done|].
  destruct ((0 <? a + s - (r + size)) && (a + s - (r + size) <? 16)) eqn:Eb; [done|].
  injection E as <-. rewrite andb_false_iff, !Z.ltb_ge in Ef, Eb.
  assert (Hr8 : r mod 8 = 0) by (apply (mod_pow_8 r k); [lia|done]).
  destruct Hg as (Hlo & Hhi & Ha8 & Hs8 & _). unfold good_block, HOLE_SIZE.
  assert (H8 : forall u v, u mod 8 = 0 -> v mod 8 = 0 -> (u + v) mod 8 = 0 /\ (u - v) mod 8 = 0).
  { intros u v Hu Hv. by rewrite Z.add_mod, Zminus_mod, Hu, Hv by lia. }
  destruct (H8 r size Hr8 Hm) as [Hrs _]. destruct (H8 a s Ha8 Hs8) as [Has _].
  destruct (H8 (a + s) (r + size) Has Hrs) as [_ Hback]. destruct (H8 r a Hr8 Ha8) as [_ Hfront].
  split_and!; try done; try lia.
Qed.

(** What taking [size] bytes at [start] does to the heap. *)
Record takes (start size : Z) (h h' : Heap) (l l' : Holes) : Prop := {
  t_holds : holds h' l';
  t_free x : free l' x <-> free l x /\ ~ start <= x < start + size;
  t_block x : start <= x < start + size -> free l x;
  t_total : total l' + size = total l;
  t_counts : allocated h' = allocated h /\ live_allocations h' = live_allocations h;
  t_mem x : ~ free l x -> mem h' x = mem h x
}.

Lemma placed_remove lo l1 a s l2 : placed lo (l1 ++ (a, s) :: l2) -> placed lo (l1 ++ l2).
Proof.
  rewrite !placed_app. intros [H1 (Ha & Hg & H2)]. split; [done|]. apply good_block_pos in Hg.
  unfold HOLE_SIZE in *. eapply placed_weaken; [|exact H2]. lia.
Qed.

Lemma free_remove lo l1 a s l2 x :
  placed lo (l1 ++ (a, s) :: l2) -> free (l1 ++ l2) x <-> free (l1 ++ (a, s) :: l2) x /\ ~ a <= x < a + s.
Proof.
  intros Hp. rewrite !free_app, free_cons. split; [|tauto].
  intros H. split; [tauto|]. intros Hx.
  assert (Hf : free (l1 ++ l2) x) by (by apply free_app).
  destruct Hf as (b & t & Hin & Hxb). destruct (placed_apart _ _ _ _ _ _ _ Hp Hin); lia.
Qed.

Lemma unlink_refines h l1 a s l2 :
  holds h (l1 ++ (a, s) :: l2) -> segment (mem h) (head h) a l1 ->
  let previous := match last l1 with Some (b, _) => b | None => 0 end in
  let next := next_at (mem h) a in
  let h' := if previous =? 0 then h <| head := next |>
            else h <| mem := set_next previous next (mem h) |> in
  holds h' (l1 ++ l2) /\ allocated h' = allocated h /\ live_allocations h' = live_allocations h /\
  (forall x, ~ free l1 x -> mem h' x = mem h x).
Proof.
  intros [Hseg Hp] H1. apply segment_app in Hseg as (a' & H1' & H2).
  destruct H2 as (-> & Hs & H2). pose proof (placed_remove _ _ _ _ _ Hp) as Hp'.
  destruct (last l1) as [[b t]|] eqn:E.
  - pose proof (removelast_last l1 b t E) as Er. set (r := removelast l1) in *.
    assert (Hin : (b, t) ∈ l1) by (rewrite Er; apply elem_of_app; right; left).
    destruct (placed_elem 0 (l1 ++ l2) b t Hp') as [Hb0 Hgb]; [by apply elem_of_app; left|].
    cbn zeta. rewrite (proj2 (Z.eqb_neq b 0)) by lia. pose proof (good_block_pos _ _ Hgb) as Hposb. unfold HOLE_SIZE in Hposb.
    split_and!; [|done|done|].
    + split; [|done]. cbn [mem head set_field set_mem]. rewrite Er in Hp' |- *. rewrite <- app_assoc in Hp' |- *. cbn [app] in *.
      assert (Hout : forall c u, (c, u) ∈ r ++ l2 -> same_on c (c + 16) (mem h) (set_next b (next_at (mem h) a) (mem h))).
      { intros c u Hc x Hx. apply set_next_out. destruct (placed_apart _ _ _ _ _ _ _ Hp' Hc); [|lia].
        destruct (placed_elem 0 (r ++ (b, t) :: l2) c u Hp') as [_ Hgc%good_block_pos];
          [apply elem_of_app in Hc as [?|?]; apply elem_of_app; [by left|right; by right]|].
        unfold HOLE_SIZE in Hgc. lia. }
      rewrite Er in H1. apply segment_app in H1 as (b' & Hr & -> & Hsb & _). apply segment_app. exists b.
      assert (Hw : word (next_at (mem h) a)) by (apply placed_app in Hp as [_ (_ & _ & Hp)]; by eapply segment_word).
      split; [|cbn [segment]; split_and!; [done|by rewrite size_set_next|rewrite next_set_next by done]].
      * eapply segment_ext; [|exact Hr]. intros c u Hc. apply (Hout c u), elem_of_app. by left.
      * eapply segment_ext; [|exact H2]. intros c u Hc. apply (Hout c u), elem_of_app. by right.
    + intros x Hx. cbn [mem set_field set_mem]. apply set_next_out. intros Hxb. apply Hx. exists b, t. split; [done|lia].
  - apply last_None in E as ->. cbn zeta. cbn in *. subst. split_and!; try done.
Qed.

Lemma total_remove l1 a s l2 : total (l1 ++ (a, s) :: l2) = s + total (l1 ++ l2).
Proof. unfold total. induction l1 as [|[b t] l1 IH]; cbn; [done|]. rewrite IH. lia. Qed.

Lemma carve_refines h l1 a s l2 start size :
  holds h (l1 ++ (a, s) :: l2) -> segment (mem h) (head h) a l1 ->
  good_block start size -> a <= start -> start + size <= a + s ->
  (start = a \/ good_block a (start - a)) ->
  (start + size = a + s \/ good_block (start + size) (a + s - (start + size))) ->
  exists h' l', carve (match last l1 with Some (b, _) => b | None => 0 end) a start size h = Some h' /\
    takes start size h h' (l1 ++ (a, s) :: l2) l'.
Proof.
  intros Hh H1 Hg Ha Hend Hfront Hback. pose proof Hh as [Hseg Hp].
  assert (Hga : good_block a s) by (apply placed_app in Hp as [_ Hp]; apply Hp).
  pose proof (good_block_pos _ _ Hga) as Hpa. pose proof (good_block_pos _ _ Hg) as Hps. unfold HOLE_SIZE in *.
  assert (Hsz : size_at (mem h) a = s) by (apply segment_app in Hseg as (? & _ & -> & Hsz & _); done).
  destruct (unlink_refines h l1 a s l2 Hh H1) as (Hh1 & Hal & Hlv & Hm1).
  pose proof (fun x => free_remove 0 l1 a s l2 x Hp) as Hf1.
  unfold carve. set (previous := match last l1 with Some (b, _) => b | None => 0 end) in *.
  unfold end_at. rewrite Hsz, (wrap_small 64 (a + s)) by (unfold in_u; lia).
  set (h1 := if previous =? 0 then _ else _) in *.
  assert (Hsized : sized (l1 ++ l2)) by (eapply placed_sized; apply Hh1).
  (* the gap in front *)
  assert (Hfr : exists h2 k, (if a <? start then add_region a (start -₆₄ a) h1 else Some h1) = Some h2 /\
     holds h2 k /\ (forall x, free k x <-> free (l1 ++ l2) x \/ a <= x < start) /\
     total k = total (l1 ++ l2) + (start - a) /\
     allocated h2 = allocated h1 /\ live_allocations h2 = live_allocations h1 /\
     (forall x, ~ free (l1 ++ (a, s) :: l2) x -> mem h2 x = mem h1 x)).
  { destruct (Z.ltb_spec a start) as [Hlt|Hge].
    - rewrite wrap_small by (unfold in_u; lia). destruct Hfront as [|Hgf]; [lia|].
      destruct (add_region_refines a (start - a) h1 (l1 ++ l2) Hh1 Hgf) as (h2 & E & Hh2 & Ha2 & Hl2 & Hm2).
      { intros x Hx Hf. apply Hf1 in Hf as [_ Hf]. lia. }
      exists h2, (release a (start - a) (l1 ++ l2)). split_and!; try done.
      + intros x. rewrite release_free by (done || lia). split; intros [?|?]; [right; lia|by left|by right|left; lia].
      + rewrite release_total. lia.
      + intros x Hx. rewrite free_app, free_cons in Hx. apply Hm2; [rewrite free_app; tauto|]. intros Hxa. apply Hx. right; left. lia.
    - assert (start = a) as -> by lia. exists h1, (l1 ++ l2). split_and!; try done; [|lia].
      intros x. split; [tauto|]. intros [?|?]; [done|lia]. }
  destruct Hfr as (h2 & k & -> & Hh2 & Hf2 & Ht2 & Ha2 & Hl2 & Hm2).
  assert (Hsized2 : sized k) by (eapply placed_sized; apply Hh2).
  rewrite wrap_small by (unfold in_u; lia).
  assert (Hmem : forall x, ~ free (l1 ++ (a, s) :: l2) x -> mem h1 x = mem h x).
  { intros x Hx. apply Hm1. rewrite free_app in Hx. tauto. }
  destruct (Z.ltb_spec (start + size) (a + s)) as [Hlt|Hge].
  - rewrite wrap_small by (unfold in_u; lia). destruct Hback as [|Hgb]; [lia|].
    destruct (add_region_refines _ _ h2 k Hh2 Hgb) as (h3 & E & Hh3 & Ha3 & Hl3 & Hm3).
    { intros x Hx Hf. apply Hf2 in Hf as [Hf|]; [|lia]. apply Hf1 in Hf as [_ Hf]. lia. }
    exists h3, (release (start + size) (a + s - (start + size)) k). split; [done|]. constructor.
    + done.
    + intros x. rewrite release_free, Hf2, Hf1, free_app, free_cons by (done || lia).
      destruct (decide (a <= x < a + s)).
      * split; [|intros [_ ?]; destruct (decide (x < start)); [right; right; lia|left; lia]].
        intros [?|[[_ ?]|?]]; (split; [right; left; lia|lia]).
      * split; [intros [?|[[? _]|?]]; [lia|split; [done|lia]|lia]|]. intros [? _]. right. left. by split.
    + intros x Hx. rewrite free_app, free_cons. right. left. lia.
    + rewrite release_total, Ht2, total_remove. lia.
    + split; congruence.
    + intros x Hx. rewrite Hm3, Hm2, Hmem; [done..|done| |].
      * rewrite Hf2, Hf1. intros [[? _]|?]; [done|]. apply Hx. rewrite free_app, free_cons. right; left. lia.
      * intros ?. apply Hx. rewrite free_app, free_cons. right; left. lia.
  - exists h2, k. split; [done|]. constructor.
    + done.
    + intros x. rewrite Hf2, Hf1, free_app, free_cons. destruct (decide (a <= x < a + s)).
      * split; [intros [[_ ?]|?]; [lia|]; (split; [right; left; lia|lia])|]. intros [_ ?]. right. lia.
      * split; [intros [[? _]|?]; [split; [done|lia]|lia]|]. intros [? _]. left. by split.
    + intros x Hx. rewrite free_app, free_cons. right. left. lia.
    + rewrite Ht2, total_remove. lia.
    + split; congruence.
    + intros x Hx. by rewrite Hm2, Hmem.
Qed.

Lemma take_loop_spec fuel size align l1 l2 h current :
  request size align -> holds h (l1 ++ l2) -> segment (mem h) (head h) current l1 ->
  segment (mem h) current 0 l2 -> (length l2 < fuel)%nat ->
  exists r h', take_loop fuel size align (match last l1 with Some (b, _) => b | None => 0 end) current h = Some (r, h') /\
    match r with
    | Some start => start mod align = 0 /\ good_block start size /\ exists l', takes start size h h' (l1 ++ l2) l'
    | None => h' = h /\ forall a s, (a, s) ∈ l2 -> fits (mem h) a size align = None
    end.
Proof.
  intros Hr. revert l1 l2 current. induction fuel as [|fuel IH]; intros l1 l2 current Hh H1 H2 Hf; [lia|].
  cbn [take_loop]. destruct l2 as [|[a s] l2].
  { cbn in H2. subst. exists None, h. split; [done|]. split; [done|]. intros a s Hin. by apply not_elem_of_nil in Hin. }
  destruct H2 as (-> & Hs & H2). pose proof Hh as [_ Hp].
  assert (Hga : good_block a s) by (apply placed_app in Hp as [_ Hp]; apply Hp).
  pose proof (good_block_pos _ _ Hga). rewrite (proj2 (Z.eqb_neq a 0)) by lia.
  destruct (fits (mem h) a size align) as [start|] eqn:E.
  - destruct (fits_spec _ _ _ _ _ _ Hga Hs Hr E) as (Ha & Hend & Hmod & Hg & Hfr & Hbk).
    destruct (carve_refines h l1 a s l2 start size Hh H1 Hg Ha Hend Hfr Hbk) as (h' & l' & -> & Ht).
    exists (Some start), h'. split; [done|]. split_and!; [done|done|]. by exists l'.
  - cbn [length] in Hf. assert (El : l1 ++ (a, s) :: l2 = (l1 ++ [(a, s)]) ++ l2) by (by rewrite <- app_assoc).
    destruct (IH (l1 ++ [(a, s)]) l2 (next_at (mem h) a)) as (r & h' & Et & Hres).
    + by rewrite <- El.
    + apply segment_app. exists a. split; [done|]. cbn. done.
    + done.
    + lia.
    + rewrite last_snoc in Et. exists r, h'. split; [done|]. destruct r as [start|]; [by rewrite El|].
      destruct Hres as [-> Hres]. split; [done|]. intros b t [[= -> ->]|Hin]%elem_of_cons; [done|by apply (Hres b t)].
Qed.

Lemma take_region_spec size align h l :
  request size align -> holds h l ->
  exists r h', take_region size align h = Some (r, h') /\
    match r with
    | Some start => start mod align = 0 /\ good_block start size /\ exists l', takes start size h h' l l'
    | None => h' = h /\ forall a s, (a, s) ∈ l -> fits (mem h) a size align = None
    end.
Proof.
  intros Hr Hh. pose proof Hh as [Hseg Hp].
  apply (take_loop_spec HOLES size align [] l h (head h)); try done. by apply holes_fuel.
Qed.

(** ** Layouts *)

(** What Rust promises of a [Layout]. *)
Definition layout (size align : Z) : Prop :=
  0 <= size <= ISIZE_MAX - (align - 1) /\ exists k, 0 <= k <= 62 /\ align = 2 ^ k.

(** The bytes a layout takes from the heap. *)
Definition need (size align : Z) : Z :=
  match adjust size align with Ok (n, _) => n | _ => 0 end.

Lemma adjust_spec size align n al :
  layout size align -> adjust size align = Ok (n, al) ->
  request n al /\ size <= n /\ (forall p, p mod al = 0 -> p mod align = 0).
Proof.
  intros (Hs & k & Hk & ->) E. unfold adjust, HOLE_ALIGN in E.
  assert (Hmax : Z.max (2 ^ k) 8 = 2 ^ Z.max k 3).
  { destruct (Z.le_ge_cases k 3).
    - rewrite (Z.max_r k 3) by lia. apply Z.max_r. change 8 with (2 ^ 3). apply Z.pow_le_mono_r; lia.
    - rewrite (Z.max_l k 3) by lia. apply Z.max_l. change 8 with (2 ^ 3). apply Z.pow_le_mono_r; lia. }
  rewrite Hmax in E. set (j := Z.max k 3) in *.
  assert (Hp : 8 <= 2 ^ j <= 2 ^ 62).
  { split; [change 8 with (2 ^ 3)|]; apply Z.pow_le_mono_r; lia. }
  destruct (Z.ltb_spec (ISIZE_MAX - (2 ^ j - 1)) size) as [|Hfit]; [done|]. unfold ISIZE_MAX in *.
  injection E as <- <-.
  destruct (align_up_spec size j ltac:(lia) ltac:(lia)) as [Hr Hmod]. set (r := align_up size (2 ^ j)) in *.
  unfold request, HOLE_SIZE. split_and!; try lia.
  - assert (r mod 8 = 0) by (apply (mod_pow_8 r j); [lia|done]). destruct (Z.max_spec r 16) as [[_ ->]|[_ ->]]; done.
  - exists j. split; [lia|done].
  - intros p Hpm. apply Z.mod_divide in Hpm as [q ->]; [|lia].
    replace (2 ^ j) with (2 ^ (j - k) * 2 ^ k) by (rewrite <- Z.pow_add_r by lia; f_equal; lia).
    rewrite Z.mul_assoc. apply Z.mod_mul. apply Z.pow_nonzero; lia.
Qed.

Lemma alloc_spec size align h l :
  layout size align -> holds h l ->
  exists res h', alloc size align h = Some (res, h') /\
    match res with
    | Ok p =>
        (p = 0 /\ h' = h /\ exists n al, adjust size align = Ok (n, al) /\
           forall a s, (a, s) ∈ l -> fits (mem h) a n al = None) \/
        (p <> 0 /\ p mod align = 0 /\ size <= need size align /\ good_block p (need size align) /\
         exists h1 l', takes p (need size align) h h1 l l' /\
           h' = h1 <| allocated := allocated h +₆₄ need size align |>
                   <| live_allocations := live_allocations h +₆₄ 1 |>)
    | Err _ => False
    | Panic => adjust size align = Panic /\ h' = h
    end.
Proof.
  intros Hl Hh. unfold alloc, need. destruct (adjust size align) as [[n al]|e|] eqn:E.
  - destruct (adjust_spec _ _ _ _ Hl E) as (Hr & Hn & Hal).
    destruct (take_region_spec n al h l Hr Hh) as ([start|] & h' & -> & H).
    + destruct H as (Hm & Hg & l' & Ht). eexists (Ok start), _. split; [done|]. right.
      pose proof (good_block_pos _ _ Hg). split_and!; [lia|by apply Hal|done|done|].
      exists h', l'. split; [done|]. by destruct (t_counts _ _ _ _ _ _ Ht) as [-> ->].
    + destruct H as [-> H]. exists (Ok 0), h. split; [done|]. left. split_and!; [done|done|]. exists n, al. by split.
  - unfold adjust in E. by case_match.
  - exists Panic, h. done.
Qed.

Lemma dealloc_spec p size align n al h l :
  adjust size align = Ok (n, al) -> holds h l -> good_block p n ->
  (forall x, p <= x < p + n -> ~ free l x) ->
  exists h', dealloc p size align h = Some (Ok tt, h') /\ holds h' (release p n l) /\
    allocated h' = allocated h -₆₄ n /\ live_allocations h' = live_allocations h -₆₄ 1 /\
    (forall x, ~ free l x -> ~ p <= x < p + n -> mem h' x = mem h x).
Proof.
  intros E Hh Hg Hf. unfold dealloc. rewrite E.
  destruct (add_region_refines p n h l Hh Hg Hf) as (h' & -> & Hh' & Ha & Hl & Hm).
  eexists. split; [done|]. cbn [allocated live_allocations mem set_field set_allocated set_live_allocations].
  by rewrite Ha, Hl.
Qed.

Lemma need_adjust size align : 0 < need size align -> exists al, adjust size align = Ok (need size align, al).
Proof. unfold need. destruct (adjust size align) as [[n al]|e|]; [eauto|lia|lia]. Qed.

(** A heap whose list only moved outside the holes still holds it. *)
Lemma holds_ext h h' l :
  holds h l -> head h' = head h -> (forall x, free l x -> mem h' x = mem h x) -> holds h' l.
Proof.
  intros [Hs Hp] E Hm. split; [|done]. rewrite E. eapply segment_ext; [|exact Hs].
  intros a s Hin x Hx. apply Hm. exists a, s. split; [done|].
  destruct (placed_elem _ _ _ _ Hp Hin) as [_ Hg%good_block_pos]. unfold HOLE_SIZE in *. lia.
Qed.

(** Freeing undoes allocating.  Whatever the owner wrote into the block
    meanwhile, giving it back leaves exactly the holes there were before, in
    the same places and of the same sizes, and the same counters. *)
Theorem dealloc_restores size align h l p h1 m :
  layout size align -> holds h l -> in_u 64 (allocated h) -> in_u 64 (live_allocations h) ->
  alloc size align h = Some (Ok p, h1) -> p <> 0 ->
  (forall x, ~ p <= x < p + need size align -> m x = mem h1 x) ->
  exists h2, dealloc p size align (h1 <| mem := m |>) = Some (Ok tt, h2) /\ holds h2 l /\
    allocated h2 = allocated h /\ live_allocations h2 = live_allocations h.
Proof.
  intros Hl Hh Hca Hcl E Hp0 Hm. destruct (alloc_spec size align h l Hl Hh) as (res & h' & E' & H).
  rewrite E in E'. injection E' as <- <-. destruct H as [[? _]|(_ & _ & _ & Hg & h3 & l' & Ht & ->)]; [done|].
  pose proof (good_block_pos _ _ Hg) as Hpos. unfold HOLE_SIZE in Hpos.
  destruct (need_adjust size align) as [al Ea]; [lia|].
  destruct Ht as [Hh3 Hfree Hblock _ [Hal Hlv] _].
  assert (Hh4 : holds (h3 <| allocated := allocated h +₆₄ need size align |>
                 <| live_allocations := live_allocations h +₆₄ 1 |> <| mem := m |>) l').
  { apply (holds_ext h3); [done|done|]. intros x Hx. cbn [mem set_field set_mem]. rewrite Hm; [done|].
    apply Hfree in Hx. tauto. }
  destruct (dealloc_spec p size align _ al _ l' Ea Hh4 Hg) as (h2 & E2 & Hh2 & Ha2 & Hl2 & _).
  { intros x Hx Hf. apply Hfree in Hf. tauto. }
  exists h2. split; [exact E2|]. split_and!.
  - assert (Er : release p (need size align) l' = l); [|by rewrite <- Er].
    destruct Hh2 as [_ Hp2], Hh as [_ Hp]. eapply placed_canonical; [exact Hp2|exact Hp|]. intros x.
    rewrite release_free by (lia || (eapply placed_sized; apply Hh3)). rewrite Hfree.
    split; [intros [?|[? _]]; [by apply Hblock|done]|]. intros Hx.
    destruct (decide (p <= x < p + need size align)); [by left|right; by split].
  - rewrite Ha2. cbn [allocated set_field set_mem set_allocated set_live_allocations].
    unfold wrap. rewrite Zminus_mod_idemp_l. replace (allocated h + need size align - need size align) with (allocated h) by lia.
    by apply Z.mod_small.
  - rewrite Hl2. cbn [live_allocations set_field set_mem set_allocated set_live_allocations].
    unfold wrap. rewrite Zminus_mod_idemp_l. replace (live_allocations h + 1 - 1) with (live_allocations h) by lia.
    by apply Z.mod_small.
Qed.
