(* ===== verification/HeapRun.v ===== *)
(** * The heap over a whole run

    The allocator between its initialisation and any sequence of allocations,
    releases and writes by the owners of the blocks: the live blocks are
    aligned, disjoint and account, with the holes, for every byte. *)

From stdpp Require Import relations.
From S2P Require Import Prelude Bytes Heap HeapSpec.

#[local] Arguments Z.pow : simpl never.
#[local] Arguments load : simpl never.

(** A live block: the pointer handed out and the layout it was asked with. *)
Record Block := mkBlock { at_ : Z; size_of : Z; align_of : Z }.
Definition extent (b : Block) : Z := need (size_of b) (align_of b).
Definition within (b : Block) (x : Z) : Prop := at_ b <= x < at_ b + extent b.
#[export] Instance within_dec b x : Decision (within b x).
Proof. unfold within. apply _. Defined.

Record Run := mkRun { heap : Heap; blocks : list Block }.

(** The owners allocate, free what they hold, and write inside it. *)
Inductive step : Run -> Run -> Prop :=
| s_alloc h bs size align p h' :
    layout size align -> alloc size align h = Some (Ok p, h') ->
    step (mkRun h bs) (mkRun h' (if p =? 0 then bs else mkBlock p size align :: bs))
| s_dealloc h bs1 b bs2 h' :
    dealloc (at_ b) (size_of b) (align_of b) h = Some (Ok tt, h') ->
    step (mkRun h (bs1 ++ b :: bs2)) (mkRun h' (bs1 ++ bs2))
| s_write h bs b x v :
    b ∈ bs -> within b x ->
    step (mkRun h bs) (mkRun (h <| mem := put x [v] (mem h) |>) bs).

Definition reachable (r : Run) : Prop :=
  exists m h, init m = Some h /\ rtc step (mkRun h []) r.

(** How many live blocks hold the byte [x]. *)
Definition owners (x : Z) (bs : list Block) : Z := sum (fun b => if decide (within b x) then 1 else 0) bs.

Definition sound (b : Block) : Prop :=
  layout (size_of b) (align_of b) /\ good_block (at_ b) (extent b) /\ at_ b mod align_of b = 0 /\ size_of b <= extent b.

(** The accounts: every byte of the heap is free or has exactly one owner. *)
Record ledger (r : Run) (l : Holes) : Prop := {
  l_holds : holds (heap r) l;
  l_sound : Forall sound (blocks r);
  l_free x : free l x -> owners x (blocks r) = 0;
  l_owned x : HEAP_START <= x < HEAP_START + HEAP_SIZE -> ~ free l x -> owners x (blocks r) = 1;
  l_total : total l + sum extent (blocks r) = HEAP_SIZE;
  l_allocated : allocated (heap r) = sum extent (blocks r);
  l_live : live_allocations (heap r) = Z.of_nat (length (blocks r))
}.

Lemma sum_middle {A} (g : A -> Z) l1 x l2 : sum g (l1 ++ x :: l2) = g x + sum g (l1 ++ l2).
Proof. induction l1 as [|y l1 IH]; cbn; [done|]. rewrite IH. lia. Qed.

Lemma owners_nonneg x bs : 0 <= owners x bs.
Proof. apply sum_nonneg. intros b _. case_decide; lia. Qed.

Lemma owned_not_free x bs b l : (free l x -> owners x bs = 0) -> b ∈ bs -> within b x -> ~ free l x.
Proof.
  intros H Hb Hx Hf. specialize (H Hf). unfold owners in H.
  pose proof (sum_elem (fun b => if decide (within b x) then 1 else 0) bs b) as Hs.
  cbn beta in Hs. rewrite decide_True in Hs by done. specialize (Hs ltac:(intros; case_decide; lia) Hb). lia.
Qed.

Lemma total_nonneg lo l : placed lo l -> 0 <= total l.
Proof.
  intros Hp. apply sum_nonneg. intros [a s] Hin. destruct (placed_elem _ _ _ _ Hp Hin) as [_ Hg%good_block_pos].
  unfold HOLE_SIZE in *. cbn. lia.
Qed.

Lemma free_heap lo l x : placed lo l -> free l x -> HEAP_START <= x < HEAP_START + HEAP_SIZE.
Proof. intros Hp (a & s & Hin & Hx). destruct (placed_elem _ _ _ _ Hp Hin) as [_ (? & ? & _)]. lia. Qed.

Lemma live_bound bs : Forall sound bs -> 16 * Z.of_nat (length bs) <= sum extent bs.
Proof.
  induction 1 as [|b bs (_ & Hg & _) _ IH]; [done|]. apply good_block_pos in Hg.
  unfold HOLE_SIZE in *. cbn [length sum]. lia.
Qed.

#[export] Instance free_dec l x : Decision (free l x).
Proof.
  induction l as [|[a s] l IH]; [right; apply free_nil|].
  destruct (decide (a <= x < a + s)) as [Hx|Hx]; [left; apply free_cons; by left|].
  destruct IH as [Hf|Hf]; [left; apply free_cons; by right|].
  right. intros [?|?]%free_cons; done.
Defined.

(** ** The accounts are kept *)

Lemma ledger_counters r l : ledger r l -> in_u 64 (allocated (heap r)) /\ in_u 64 (live_allocations (heap r)).
Proof.
  intros [Hh Hs _ _ Ht Ha Hl]. pose proof (live_bound _ Hs). destruct Hh as [_ Hp].
  pose proof (total_nonneg _ _ Hp). rewrite Ha, Hl. unfold in_u, HEAP_SIZE in *. lia.
Qed.

Lemma ledger_init m h : init m = Some h -> ledger (mkRun h []) [(HEAP_START, HEAP_SIZE)].
Proof.
  intros E. unfold init in E.
  assert (Hg : good_block HEAP_START HEAP_SIZE) by (unfold good_block, HEAP_START, HEAP_SIZE, HOLE_SIZE; split_and!; (lia || done)).
  destruct (add_region_refines HEAP_START HEAP_SIZE (new m) []) as (h' & E' & Hh & Ha & Hl & _).
  - done.
  - done.
  - intros x _. apply free_nil.
  - rewrite E in E'. injection E' as <-. constructor; cbn [heap blocks]; try done.
    intros x Hx Hf. destruct Hf. apply free_cons. by left.
Qed.

Lemma ledger_alloc h bs l size align p h' :
  layout size align -> ledger (mkRun h bs) l -> alloc size align h = Some (Ok p, h') ->
  exists l', ledger (mkRun h' (if p =? 0 then bs else mkBlock p size align :: bs)) l'.
Proof.
  intros Hl Hled E. pose proof (ledger_counters _ _ Hled) as [Hca Hcl].
  destruct Hled as [Hh Hs Hf Ho Ht Ha Hlv]. cbn [heap blocks] in *.
  destruct (alloc_spec size align h l Hl Hh) as (res & h0 & E' & H).
  rewrite E in E'. injection E' as <- <-. destruct H as [(-> & -> & _)|(Hp0 & Hm & Hn & Hg & h1 & l' & Htk & ->)].
  { exists l. done. }
  rewrite (proj2 (Z.eqb_neq p 0)) by done. set (b := mkBlock p size align).
  destruct Htk as [Hh1 Hfree Hblock Htot [Hal Hll] _]. exists l'.
  assert (Hext : extent b = need size align) by done.
  assert (Hown : forall x, owners x (b :: bs) = (if decide (within b x) then 1 else 0) + owners x bs) by done.
  assert (Hw : forall x, within b x <-> p <= x < p + need size align) by done.
  pose proof Hh1 as [_ Hp1]. pose proof (total_nonneg _ _ Hp1).
  assert (Hs' : Forall sound (b :: bs)) by (constructor; done).
  pose proof (live_bound _ Hs') as Hlb. cbn [sum length] in Hlb. unfold HEAP_SIZE in *.
  constructor; cbn [heap blocks mem head allocated live_allocations set_field set_allocated set_live_allocations].
  - destruct Hh1 as [Hseg _]. by split.
  - done.
  - intros x Hx. apply Hfree in Hx as [Hx Hnx]. rewrite Hown, decide_False, (Hf x Hx) by (by rewrite Hw). done.
  - intros x Hx Hnf. rewrite Hown. destruct (decide (within b x)) as [Hin|Hout].
    + rewrite Hf; [done|]. by apply Hblock, Hw.
    + rewrite Ho; [done..|]. intros Hfx. apply Hnf, Hfree. split; [done|by rewrite <- Hw].
  - cbn [sum]. rewrite Hext. unfold HEAP_SIZE. lia.
  - cbn [sum]. rewrite Ha, Hext. rewrite wrap_small; [lia|]. unfold in_u. lia.
  - cbn [length]. rewrite Hlv. rewrite wrap_small; unfold in_u; lia.
Qed.

Lemma ledger_dealloc h bs1 b bs2 l :
  ledger (mkRun h (bs1 ++ b :: bs2)) l ->
  exists h' l', dealloc (at_ b) (size_of b) (align_of b) h = Some (Ok tt, h') /\ ledger (mkRun h' (bs1 ++ bs2)) l' /\
    (forall x, ~ free l x -> ~ within b x -> mem h' x = mem h x).
Proof.
  intros Hled. pose proof (ledger_counters _ _ Hled) as [Hca Hcl].
  destruct Hled as [Hh Hs Hf Ho Ht Ha Hlv]. cbn [heap blocks] in *.
  assert (Hsb : sound b /\ Forall sound (bs1 ++ bs2)).
  { apply Forall_app in Hs as [H1 [Hb H2]%Forall_cons]. split; [done|]. by apply Forall_app. }
  destruct Hsb as [(Hlay & Hg & Hm & Hn) Hs']. pose proof (good_block_pos _ _ Hg) as Hpos. unfold HOLE_SIZE in Hpos.
  destruct (need_adjust (size_of b) (align_of b)) as [al Ea]; [unfold extent in Hpos; lia|].
  assert (Hnf : forall x, at_ b <= x < at_ b + extent b -> ~ free l x).
  { intros x Hx. eapply owned_not_free; [apply Hf| |]; [|exact Hx]. apply elem_of_app. right. left. }
  destruct (dealloc_spec (at_ b) (size_of b) (align_of b) _ al h l Ea Hh Hg Hnf) as (h' & E & Hh' & Ha' & Hl' & Hmem).
  exists h', (release (at_ b) (extent b) l). split; [done|].
  assert (Hrf : forall x, free (release (at_ b) (extent b) l) x <-> within b x \/ free l x).
  { intros x. apply release_free; [lia|]. eapply placed_sized. apply Hh. }
  assert (Hown : forall x, owners x (bs1 ++ b :: bs2) = (if decide (within b x) then 1 else 0) + owners x (bs1 ++ bs2)).
  { intros x. apply sum_middle. }
  pose proof (live_bound _ Hs'). rewrite sum_middle in *. fold (extent b) in Ha'.
  split; [constructor; cbn [heap blocks]|done].
  - done.
  - done.
  - intros x [Hx|Hx]%Hrf.
    + pose proof (Ho x) as H1. destruct Hg as (? & ? & _). unfold within in Hx.
      specialize (H1 ltac:(lia) (Hnf x Hx)). rewrite Hown, decide_True in H1 by done. lia.
    + specialize (Hf x Hx). rewrite Hown in Hf. pose proof (owners_nonneg x (bs1 ++ bs2)). case_decide; lia.
  - intros x Hx Hnx. rewrite Hrf in Hnx. specialize (Ho x Hx ltac:(tauto)).
    rewrite Hown, decide_False in Ho by tauto. lia.
  - rewrite release_total. lia.
  - rewrite Ha', Ha. rewrite wrap_small; [lia|]. unfold in_u, HEAP_SIZE in *. lia.
  - rewrite Hl', Hlv. rewrite !length_app. cbn [length]. rewrite wrap_small; [lia|].
    rewrite Hlv, !length_app in Hcl. cbn [length] in Hcl. unfold in_u in *. lia.
Qed.

Lemma ledger_write h bs l b x v :
  ledger (mkRun h bs) l -> b ∈ bs -> within b x -> ledger (mkRun (h <| mem := put x [v] (mem h) |>) bs) l.
Proof.
  intros [Hh Hs Hf Ho Ht Ha Hlv] Hb Hx. constructor; try done.
  apply (holds_ext h); [done|done|]. intros y Hy. cbn [mem set_field set_mem].
  apply put_out. cbn [length]. intros ?. assert (y = x) as -> by lia.
  by apply (owned_not_free x bs b l (Hf x) Hb Hx).
Qed.

Lemma reachable_ledger r : reachable r -> exists l, ledger r l.
Proof.
  intros (m & h & E & Hr). pose proof (ledger_init m h E) as Hled.
  assert (H : exists l, ledger (mkRun h []) l) by eauto. clear Hled E.
  induction Hr as [|r1 r2 r3 Hst _ IH]; [done|]. apply IH. destruct H as [l Hled]. clear IH.
  destruct Hst as [h0 bs size align p h' Hl E|h0 bs1 b bs2 h' E|h0 bs b x v Hb Hx].
  - by eapply ledger_alloc.
  - destruct (ledger_dealloc _ _ _ _ _ Hled) as (h2 & l' & E2 & H & _). rewrite E in E2. injection E2 as <-. eauto.
  - exists l. by eapply ledger_write.
Qed.

(** ** What the accounts say *)

Lemma stats_loop_spec fuel m p l a b :
  segment m p 0 l -> placed 0 l -> (length l < fuel)%nat -> 0 <= a -> 0 <= b ->
  a + total l < 2 ^ 64 -> b + Z.of_nat (length l) < 2 ^ 64 ->
  stats_loop fuel m p a b = Some (a + total l, b + Z.of_nat (length l)).
Proof.
  revert p l a b. induction fuel as [|fuel IH]; intros p l a b Hseg Hp Hf Ha Hb Ht Hn; [lia|]. cbn [stats_loop].
  destruct l as [|[c s] l]; cbn in Hseg.
  - subst. cbn. by rewrite !Z.add_0_r.
  - destruct Hseg as (-> & Hs & Hseg), Hp as (_ & Hg & Hp).
    pose proof (good_block_pos _ _ Hg). unfold HOLE_SIZE in *. rewrite (proj2 (Z.eqb_neq c 0)) by lia.
    assert (Hp0 : placed 0 l) by (eapply placed_weaken; [|exact Hp]; lia).
    assert (E : total ((c, s) :: l) = s + total l) by done. pose proof (total_nonneg _ _ Hp).
    cbn [length] in *. rewrite E in *. rewrite Hs, !wrap_small by (unfold in_u; lia).
    rewrite (IH _ l); try (done || lia). f_equal. f_equal; lia.
Qed.

Lemma stats_spec r l :
  ledger r l -> stats (heap r) =
    Some (HEAP_SIZE - sum extent (blocks r), Z.of_nat (length l), Z.of_nat (length (blocks r))).
Proof.
  intros [Hh Hs _ _ Ht _ Hlv]. destruct Hh as [Hseg Hp]. pose proof (live_bound _ Hs).
  pose proof (holes_fuel l Hp) as Hf. pose proof (placed_length _ _ (placed_start l Hp) ltac:(lia)) as Hn.
  unfold stats. rewrite (stats_loop_spec HOLES (mem (heap r)) (head (heap r)) l 0 0); try done; try lia.
  - rewrite Hlv. do 3 f_equal. lia.
  - unfold HEAP_SIZE in *. lia.
  - unfold HEAP_SIZE, HEAP_START, HOLE_SIZE in *. lia.
Qed.

Lemma owners_twice bs1 b bs2 b' x :
  b' ∈ bs1 ++ bs2 -> within b x -> within b' x -> 2 <= owners x (bs1 ++ b :: bs2).
Proof.
  intros Hin Hb Hb'. unfold owners. rewrite sum_middle, decide_True by done.
  pose proof (sum_elem (fun b => if decide (within b x) then 1 else 0) (bs1 ++ bs2) b') as Hs.
  cbn beta in Hs. rewrite (decide_True (P := within b' x)) in Hs by done.
  specialize (Hs ltac:(intros; case_decide; lia) Hin). lia.
Qed.

Lemma owners_le_1 r l x : ledger r l -> owners x (blocks r) <= 1.
Proof.
  intros [Hh Hs Hf Ho _ _ _].
  destruct (decide (HEAP_START <= x < HEAP_START + HEAP_SIZE)) as [Hx|Hx].
  - destruct (decide (owners x (blocks r) = 1)) as [->|Hne]; [done|].
    destruct (decide (owners x (blocks r) = 0)) as [->|Hnz]; [done|].
    exfalso. apply Hne, Ho; [done|]. intros Hfx. by apply Hnz, Hf.
  - assert (owners x (blocks r) = 0) as ->; [|done]. clear -Hs Hx.
    induction Hs as [|b bs (_ & Hg & _) _ IH]; [done|]. unfold owners in *. cbn [sum]. rewrite IH.
    rewrite decide_False; [done|]. destruct Hg as (? & ? & _). unfold within. lia.
Qed.

(** C18: the blocks the allocator has out are what their owners asked for:
    inside the heap, at least as long as requested, aligned as requested, and
    no byte in two of them; the statistics count them, and the free bytes are
    exactly the rest of the heap.  With nothing out, the heap is one hole
    again, however it got there. *)
Theorem heap_blocks r :
  reachable r ->
  (forall b, b ∈ blocks r ->
     HEAP_START <= at_ b /\ size_of b <= extent b /\ at_ b + extent b <= HEAP_START + HEAP_SIZE /\
     at_ b mod align_of b = 0) /\
  (forall bs1 b bs2 b' x, blocks r = bs1 ++ b :: bs2 -> b' ∈ bs1 ++ bs2 -> within b x -> ~ within b' x) /\
  allocated (heap r) = sum extent (blocks r) /\
  (exists holes, stats (heap r) = Some (HEAP_SIZE - sum extent (blocks r), holes, Z.of_nat (length (blocks r)))) /\
  (blocks r = [] -> stats (heap r) = Some (HEAP_SIZE, 1, 0) /\ head (heap r) = HEAP_START).
Proof.
  intros [l Hled]%reachable_ledger. pose proof Hled as [Hh Hs Hf Ho Ht Ha _]. split_and!.
  - intros b Hb. rewrite Forall_forall in Hs. destruct (Hs b Hb) as (_ & (? & ? & _) & ? & ?). done.
  - intros bs1 b bs2 b' x E Hin Hb Hb'. pose proof (owners_le_1 _ _ x Hled) as Hle. rewrite E in Hle.
    pose proof (owners_twice bs1 b bs2 b' x Hin Hb Hb'). lia.
  - done.
  - exists (Z.of_nat (length l)). by apply stats_spec.
  - intros E. rewrite (stats_spec _ _ Hled), E. cbn [sum length]. destruct Hh as [Hseg Hp].
    assert (El : l = [(HEAP_START, HEAP_SIZE)]).
    { eapply placed_canonical; [exact Hp| |].
      - cbn. split_and!; [|unfold good_block, HEAP_START, HEAP_SIZE, HOLE_SIZE; split_and!; (lia || done)|done].
        unfold HEAP_START. instantiate (1 := 0). lia.
      - intros x. rewrite free_cons. split.
        + intros Hx. left. by eapply free_heap.
        + intros [Hx|Hx]; [|by apply free_nil in Hx].
          destruct (decide (owners x (blocks r) = 1)) as [H1|H1]; [rewrite E in H1; done|].
          apply dec_stable. intros Hn. by apply H1, Ho. }
    subst l. cbn in Hseg. destruct Hseg as (-> & _). done.
Qed.

(** C32: the allocator's walks end.  From every state it can reach, an
    allocation returns a pointer or null (or reports the overflow of the
    padded size, the only panic), and releasing any live block returns. *)
Theorem heap_terminates r :
  reachable r ->
  (forall size align, layout size align ->
     exists res h', alloc size align (heap r) = Some (res, h') /\
       match res with Ok _ => True | Err _ => False | Panic => adjust size align = Panic end) /\
  (forall b, b ∈ blocks r -> exists h', dealloc (at_ b) (size_of b) (align_of b) (heap r) = Some (Ok tt, h')).
Proof.
  intros [l Hled]%reachable_ledger. split.
  - intros size align Hl. destruct (alloc_spec size align (heap r) l Hl ltac:(apply Hled)) as (res & h' & E & H).
    exists res, h'. split; [done|]. destruct res; [done|done|]. apply H.
  - intros b Hb. apply list_elem_of_split in Hb as (bs1 & bs2 & E). destruct r as [h bs]. cbn in *. subst bs.
    destruct (ledger_dealloc _ _ _ _ _ Hled) as (h' & _ & -> & _). eauto.
Qed.

(** C33: the allocator never writes into a block it has handed out: an
    allocation leaves every byte of every live block, and a release every
    byte of every other one, although it keeps its list in the same memory. *)
Theorem heap_isolates r :
  reachable r ->
  (forall size align res h' b x, layout size align -> alloc size align (heap r) = Some (res, h') ->
     b ∈ blocks r -> within b x -> mem h' x = mem (heap r) x) /\
  (forall bs1 b bs2 h' b' x, blocks r = bs1 ++ b :: bs2 ->
     dealloc (at_ b) (size_of b) (align_of b) (heap r) = Some (Ok tt, h') ->
     b' ∈ bs1 ++ bs2 -> within b' x -> mem h' x = mem (heap r) x).
Proof.
  intros [l Hled]%reachable_ledger. pose proof Hled as [Hh _ Hf _ _ _ _]. split.
  - intros size align res h' b x Hl E Hb Hx. pose proof (owned_not_free x _ b l (Hf x) Hb Hx) as Hnf.
    destruct (alloc_spec size align (heap r) l Hl Hh) as (res' & h0 & E' & H). rewrite E in E'. injection E' as <- <-.
    destruct res as [p|e|]; [|done|by destruct H as [_ ->]].
    destruct H as [(_ & -> & _)|(_ & _ & _ & _ & h1 & l' & Htk & ->)]; [done|].
    by apply (t_mem _ _ _ _ _ _ Htk).
  - intros bs1 b bs2 h' b' x E Ed Hin Hx. destruct r as [h bs]. cbn [blocks heap] in *. subst bs.
    destruct (ledger_dealloc _ _ _ _ _ Hled) as (h2 & l' & E2 & _ & Hmem).
    rewrite Ed in E2. injection E2 as <-. apply Hmem.
    + eapply (owned_not_free x _ b' l (Hf x)); [|exact Hx]. apply elem_of_app. apply elem_of_app in Hin as [?|?]; [by left|right; by right].
    + intros Hb. pose proof (owners_le_1 _ _ x Hled) as Hle. cbn [blocks] in Hle.
      pose proof (owners_twice bs1 b bs2 b' x Hin Hb Hx). lia.
Qed.

(** ** A refusal

    [fits] tries a hole at its first aligned address only.  When that leaves
    eight bytes in front, too few for a hole, it gives the hole up, although a
    later aligned address would leave room for one. *)
Theorem sixteen_refused h l size :
  layout size 16 -> holds h l -> (forall a s, (a, s) ∈ l -> a mod 16 = 8) ->
  forall res h', alloc size 16 h = Some (res, h') -> h' = h /\ (res = Ok 0 \/ res = Panic).
Proof.
  intros Hl Hh Hm res h' E. destruct (alloc_spec size 16 h l Hl Hh) as (res' & h0 & E' & H).
  rewrite E in E'. injection E' as <- <-. destruct res as [p|e|]; [|done|split; [apply H|by right]].
  destruct H as [(-> & -> & _)|(_ & Hp & _ & Hg & h1 & l' & Htk & _)]; [split; [done|by left]|].
  exfalso. unfold alloc in E. assert (Ea : exists n, adjust size 16 = Ok (n, 16)).
  { destruct (adjust size 16) as [[n al]|e|] eqn:Ea; [|done|done]. exists n. unfold adjust in Ea.
    cbn zeta in Ea. change (Z.max 16 HOLE_ALIGN) with 16 in Ea. destruct (_ <? size); [done|]. by injection Ea as <- <-. }
  destruct Ea as [n Ea]. rewrite Ea in E. pose proof (adjust_spec _ _ _ _ Hl Ea) as (Hr & _).
  assert (Hnone : forall fuel l1 l2 previous current, l = l1 ++ l2 -> segment (mem h) current 0 l2 ->
            match take_loop fuel n 16 previous current h with Some (Some _, _) => False | _ => True end).
  { induction fuel as [|fuel IH]; intros l1 l2 previous current El Hseg0; [done|]. cbn [take_loop].
    destruct l2 as [|[a s] l2]; [cbn in Hseg0; by subst|]. destruct Hseg0 as (-> & Hs & Hseg).
    assert (Hin : (a, s) ∈ l) by (rewrite El; apply elem_of_app; right; left).
    destruct Hh as [_ Hpl]. destruct (placed_elem _ _ _ _ Hpl Hin) as [_ Hga]. specialize (Hm _ _ Hin).
    pose proof (good_block_pos _ _ Hga). rewrite (proj2 (Z.eqb_neq a 0)) by lia.
    assert (fits (mem h) a n 16 = None) as ->.
    { destruct (fits (mem h) a n 16) as [start|] eqn:Ef; [|done]. exfalso. unfold HOLE_SIZE in *.
      unfold fits in Ef. destruct (align_up_spec a 4 ltac:(lia) ltac:(lia)) as [Hb Hmod].
      change (2 ^ 4) with 16 in *.
      pose proof (Z.div_mod a 16 ltac:(lia)). pose proof (Z.div_mod (align_up a 16) 16 ltac:(lia)).
      assert (align_up a 16 = a + 8) as Eu by lia. rewrite Eu in Ef.
      replace (a + 8 - a) with 8 in Ef by lia. change (wrap 64 8) with 8 in Ef. unfold HOLE_SIZE in Ef.
      repeat case_match; done. }
    apply (IH (l1 ++ [(a, s)]) l2); [|done]. by rewrite <- app_assoc. }
  specialize (Hnone HOLES [] l 0 (head h) eq_refl ltac:(apply Hh)). unfold take_region in E.
  destruct (take_loop _ _ _ _ _ _) as [[[start|] h2]|]; [done| |done]. injection E as <- _.
  apply good_block_pos in Hg. lia.
Qed.

(** ** A run *)

Definition blank : memory := fun _ => 0.
Definition heap0 : Heap := default (new blank) (init blank).
Definition heap1 : Heap := match alloc 24 8 heap0 with Some (_, h) => h | None => heap0 end.
Definition run1 : Run := mkRun heap1 [mkBlock HEAP_START 24 8].

Lemma heap0_init : init blank = Some heap0.
Proof.
  assert (E : match init blank with Some _ => true | None => false end = true) by (vm_compute; reflexivity).
  unfold heap0. by destruct (init blank).
Qed.

Lemma heap1_alloc : alloc 24 8 heap0 = Some (Ok HEAP_START, heap1).
Proof.
  assert (E : match alloc 24 8 heap0 with Some (Ok p, _) => p =? HEAP_START | _ => false end = true) by (vm_compute; reflexivity).
  unfold heap1. destruct (alloc 24 8 heap0) as [[[p|e|] h]|]; [|done..]. by apply Z.eqb_eq in E as ->.
Qed.

Lemma layout_24_8 : layout 24 8.
Proof. split; [unfold ISIZE_MAX; lia|]. exists 3. split; [lia|done]. Qed.

Lemma run1_reachable : reachable run1.
Proof.
  exists blank, heap0. split; [exact heap0_init|]. eapply rtc_l; [|apply rtc_refl].
  apply (s_alloc heap0 [] 24 8 HEAP_START heap1 layout_24_8 heap1_alloc).
Qed.

(** Two megabytes free, in one hole, and sixteen bytes refused. *)
Example sixteen_refused_here :
  stats heap1 = Some (HEAP_SIZE - 24, 1, 1) /\
  match alloc 16 16 heap1 with Some (Ok p, _) => p = 0 | _ => False end /\
  match alloc 16 8 heap1 with Some (Ok p, _) => p = HEAP_START + 24 | _ => False end.
Proof. split_and!; vm_compute; reflexivity. Qed.

Lemma heap_blocks_witness :
  reachable run1 /\ extent (mkBlock HEAP_START 24 8) = 24 /\ allocated (heap run1) = 24.
Proof. split_and!; [exact run1_reachable|reflexivity|]. apply (heap_blocks run1 run1_reachable). Defined.

Lemma heap_terminates_witness :
  exists h', dealloc HEAP_START 24 8 heap1 = Some (Ok tt, h').
Proof. apply (proj2 (heap_terminates run1 run1_reachable) (mkBlock HEAP_START 24 8)). left. Defined.

Definition alloc1 : result Z * Heap := default (Panic, heap1) (alloc 24 8 heap1).
Lemma heap_isolates_witness : mem alloc1.2 (HEAP_START + 3) = mem heap1 (HEAP_START + 3).
Proof.
  assert (E : alloc 24 8 heap1 = Some alloc1).
  { assert (E : match alloc 24 8 heap1 with Some _ => true | None => false end = true) by (vm_compute; reflexivity).
    unfold alloc1. by destruct (alloc 24 8 heap1). }
  apply (proj1 (heap_isolates run1 run1_reachable) 24 8 alloc1.1 alloc1.2 (mkBlock HEAP_START 24 8));
    [exact layout_24_8|by rewrite <- surjective_pairing|left|]. vm_compute. by split.
Defined.

Lemma dealloc_restores_witness :
  exists h2, dealloc HEAP_START 24 8 (heap1 <| mem := put HEAP_START [65; 66; 67] (mem heap1) |>) = Some (Ok tt, h2) /\
    holds h2 [(HEAP_START, HEAP_SIZE)] /\ allocated h2 = 0 /\ live_allocations h2 = 0.
Proof.
  apply (dealloc_restores 24 8 heap0 [(HEAP_START, HEAP_SIZE)] HEAP_START heap1).
  - exact layout_24_8.
  - exact (l_holds _ _ (ledger_init blank heap0 heap0_init)).
  - vm_compute. by split.
  - vm_compute. by split.
  - exact heap1_alloc.
  - done.
  - intros x Hx. apply put_out. change (need 24 8) with 24 in Hx. cbn. lia.
Defined.
