(* ===== verification/Disk.v ===== *)
(** * The disk

    What the swap area and the file system ask of [kernel/src/ata.rs], and
    what it promises: an array of 512-byte sectors.  A transfer that fails may
    have moved some of the bytes. *)

From S2P Require Import Prelude Bytes.

Definition SECTOR_SIZE : Z := 512.
(** The addresses 28-bit LBA reaches. *)
Definition LBA_LIMIT : Z := 268435456.

(** [disk_read lba count] gives the bytes that arrived and how it ended. *)
Class Disk (D : Type) := {
  disk_present (d : D) : bool * D;
  disk_read (lba : Z) (count : nat) (d : D) : (list Z * result unit) * D;
  disk_write (lba : Z) (bytes : list Z) (d : D) : result unit * D
}.

(** [count] sectors from [lba], of a disk that holds [s]. *)
Definition sectors (s : Z -> list Z) (lba : Z) (count : nat) : list Z :=
  mjoin (map (fun i => s (lba + Z.of_nat i)) (seq 0 count)).

(** The bytes a disk holds, sector by sector. *)
Class DiskLaws (D : Type) `{!Disk D} := {
  sector (d : D) (lba : Z) : list Z;
  sector_length d lba : length (sector d lba) = 512%nat;
  sector_bytes d lba : Forall is_byte (sector d lba);
  present_sectors d lba : sector (disk_present d).2 lba = sector d lba;
  read_sectors lba count d bytes r d' :
    disk_read lba count d = ((bytes, r), d') ->
    (forall x, sector d' x = sector d x) /\ (length bytes <= 512 * count)%nat /\ Forall is_byte bytes /\
    (r = Ok tt -> 0 <= lba -> lba + Z.of_nat count <= LBA_LIMIT -> (0 < count <= 256)%nat ->
       bytes = sectors (sector d) lba count);
  read_never_panics lba count d : (disk_read lba count d).1.2 <> Panic;
  write_sectors lba count bytes d r d' :
    Forall is_byte bytes -> length bytes = (512 * count)%nat -> 0 <= lba -> lba + Z.of_nat count <= LBA_LIMIT ->
    (0 < count <= 256)%nat -> disk_write lba bytes d = (r, d') ->
    (forall x, 0 <= x < LBA_LIMIT -> ~ lba <= x < lba + Z.of_nat count -> sector d' x = sector d x) /\
    (r = Ok tt -> sectors (sector d') lba count = bytes);
  write_never_panics lba bytes d : (disk_write lba bytes d).1 <> Panic
}.

(** A disk that never fails. *)
Class Reliable (D : Type) `{!Disk D} := {
  reads_succeed lba count d : (0 < count <= 256)%nat -> (disk_read lba count d).1.2 = Ok tt;
  writes_succeed lba bytes d : (0 < length bytes)%nat -> (disk_write lba bytes d).1 = Ok tt
}.

Lemma sectors_cons s lba n : sectors s lba (S n) = s lba ++ sectors s (lba + 1) n.
Proof.
  unfold sectors. cbn [seq map mjoin list_join]. rewrite Z.add_0_r. f_equal. rewrite <- seq_shift, map_map.
  f_equal. apply map_ext. intros i. f_equal. lia.
Qed.

Lemma sectors_one s lba : sectors s lba 1 = s lba.
Proof. rewrite sectors_cons. apply app_nil_r. Qed.

Lemma sectors_length s lba n : (forall x, length (s x) = 512%nat) -> length (sectors s lba n) = (512 * n)%nat.
Proof.
  intros H. revert lba. induction n as [|n IH]; intros lba; [done|]. rewrite sectors_cons, length_app, H, IH. lia.
Qed.

Lemma sectors_ext s s' lba n : (forall x, lba <= x < lba + Z.of_nat n -> s' x = s x) -> sectors s' lba n = sectors s lba n.
Proof.
  intros H. unfold sectors. f_equal. apply map_ext_in. intros i Hi%in_seq. apply H. lia.
Qed.

Lemma sectors_bytes s lba n : (forall x, Forall is_byte (s x)) -> Forall is_byte (sectors s lba n).
Proof.
  intros H. revert lba. induction n as [|n IH]; intros lba; [by apply Forall_nil|]. rewrite sectors_cons. apply Forall_app. by split.
Qed.

(** The sectors of a buffer make up the buffer. *)
Lemma sectors_split s lba bytes n : length bytes = (512 * n)%nat ->
  (forall i, (i < n)%nat -> s (lba + Z.of_nat i) = take 512 (drop (512 * i) bytes)) -> sectors s lba n = bytes.
Proof.
  revert lba bytes. induction n as [|n IH]; intros lba bytes Hl Hs.
  - by destruct bytes.
  - rewrite sectors_cons. transitivity (take 512 bytes ++ drop 512 bytes); [|apply take_drop]. f_equal.
    + specialize (Hs 0%nat ltac:(lia)). rewrite Z.add_0_r, Nat.mul_0_r, drop_0 in Hs. done.
    + apply IH; [rewrite length_drop; lia|]. intros i Hi. specialize (Hs (S i) ltac:(lia)). rewrite drop_drop.
      replace (lba + 1 + Z.of_nat i) with (lba + Z.of_nat (S i)) by lia. rewrite Hs. do 2 f_equal. lia.
Qed.
