(* ===== verification/Ata.v ===== *)
(** * The disk driver: [kernel/src/ata.rs]

    Programmed I/O to the slave drive of the primary IDE bus.  The drive is
    not code: the ports are a parameter, and [Drive] states what the ATA
    protocol promises about them.  The driver is then a [Disk] with its laws,
    for a drive that is not in the middle of a transfer. *)

From stdpp Require Import functions.
From S2P Require Import Prelude Bytes Disk.

#[local] Arguments Z.mul : simpl never.
#[local] Arguments Z.add : simpl never.
#[local] Arguments Nat.mul : simpl never.
#[local] Arguments Nat.add : simpl never.

Definition DATA : Z := 496.
Definition SECTOR_COUNT : Z := 498.
Definition LBA_LOW : Z := 499.
Definition LBA_MID : Z := 500.
Definition LBA_HIGH : Z := 501.
Definition DRIVE : Z := 502.
Definition STATUS : Z := 503.
Definition COMMAND : Z := 503.
Definition ALT_STATUS : Z := 1014.

Definition STATUS_BUSY : Z := Z.shiftl 1 7.
Definition STATUS_READY : Z := Z.shiftl 1 6.
Definition STATUS_DRQ : Z := Z.shiftl 1 3.
Definition STATUS_ERROR : Z := Z.shiftl 1 0.

Definition COMMAND_READ_SECTORS : Z := 32.
Definition COMMAND_WRITE_SECTORS : Z := 48.
Definition COMMAND_FLUSH_CACHE : Z := 231.
Definition DISK : Z := 1.

(** How often [wait_ready] asks. *)
Definition POLLS : nat := Z.to_nat 1000000.

(** The instructions that reach a device, and what they do to it. *)
Inductive Access := In8 (port : Z) | Out8 (port value : Z) | In16 (port : Z) | Out16 (port value : Z).
Class Ports (D : Type) := access (a : Access) (d : D) : Z * D.

Section driver.
Context {D : Type} `{!Ports D}.

Definition inb (port : Z) : io D Z := fun d => let '(value, d) := access (In8 port) d in (Ok value, d).
Definition inw (port : Z) : io D Z := fun d => let '(value, d) := access (In16 port) d in (Ok value, d).
Definition outb (port value : Z) : io D unit := fun d => (Ok tt, (access (Out8 port value) d).2).
Definition outw (port value : Z) : io D unit := fun d => (Ok tt, (access (Out16 port value) d).2).

Definition settle : io D unit := for_each (seq 0 4) (fun _ => _ ← inb ALT_STATUS; mret tt).

Fixpoint wait_ready (polls : nat) : io D Z :=
  match polls with
  | O => throw "the drive never became ready"
  | S polls =>
      status ← inb STATUS;
      if status =? 255 then throw "no drive on this bus"
      else if negb (has status STATUS_BUSY) then
        if has status STATUS_ERROR then throw "the drive reported an error" else mret status
      else wait_ready polls
  end.

(** Select the drive, give it the address and the count, and the command. *)
Definition issue (lba : Z) (count : nat) (command : Z) : io D unit :=
  _ ← outb DRIVE (Z.lor (Z.lor 224 (Z.shiftl DISK 4)) (Z.land (Z.shiftr lba 24) 15));
  _ ← settle;
  _ ← outb SECTOR_COUNT (if (count =? 256)%nat then 0 else wrap 8 (Z.of_nat count));
  _ ← outb LBA_LOW (wrap 8 lba);
  _ ← outb LBA_MID (wrap 8 (Z.shiftr lba 8));
  _ ← outb LBA_HIGH (wrap 8 (Z.shiftr lba 16));
  outb COMMAND command.

(** One sector: 256 words, low byte first. *)
Definition read_words : io D (list Z) :=
  fold_io (fun bytes (_ : nat) =>
    value ← inw DATA; mret (bytes ++ [wrap 8 value; wrap 8 (Z.shiftr value 8)])) (seq 0 256) [].
Definition write_words (buffer : list Z) (sector : nat) : io D unit :=
  let base := (sector * 512)%nat in
  for_each (seq 0 256) (fun word =>
    let low := buffer !!! (base + word * 2)%nat in
    let high := buffer !!! (base + word * 2 + 1)%nat in
    outw DATA (Z.lor low (Z.shiftl high 8))).

(** The sectors that arrived and how it ended. *)
Fixpoint read_loop (count : nat) (buffer : list Z) (d : D) : (list Z * result unit) * D :=
  match count with
  | O => (buffer, Ok tt, d)
  | S count =>
      match (status ← wait_ready POLLS;
             if negb (has status STATUS_DRQ) then throw "the drive has no data to give" else read_words) d with
      | (Ok bytes, d) => read_loop count (buffer ++ bytes) d
      | (Err e, d) => (buffer, Err e, d)
      | (Panic, d) => (buffer, Panic, d)
      end
  end.

(** [read] of a buffer of [size] bytes. *)
Definition ata_read (lba : Z) (size : nat) (d : D) : (list Z * result unit) * D :=
  if negb (size mod 512 =? 0)%nat then ([], Err "buffer is not a whole number of sectors", d)
  else
    let count := (size / 512)%nat in
    if (count =? 0)%nat then ([], Ok tt, d)
    else if (256 <? count)%nat then ([], Err "too many sectors for one request", d)
    else let '(_, d) := issue lba count COMMAND_READ_SECTORS d in read_loop count [] d.

Definition present : io D bool :=
  _ ← outb DRIVE (Z.lor 224 (Z.shiftl DISK 4));
  _ ← settle;
  status ← inb STATUS;
  mret (negb (status =? 0) && negb (status =? 255) && has status STATUS_READY).

Definition ata_write (lba : Z) (buffer : list Z) : io D unit :=
  if negb (length buffer mod 512 =? 0)%nat then throw "buffer is not a whole number of sectors"
  else
    let count := (length buffer / 512)%nat in
    if (count =? 0)%nat then mret tt
    else if (256 <? count)%nat then throw "too many sectors for one request"
    else
      _ ← issue lba count COMMAND_WRITE_SECTORS;
      _ ← for_each (seq 0 count) (fun sector =>
        status ← wait_ready POLLS;
        if negb (has status STATUS_DRQ) then throw "the drive will not accept data" else write_words buffer sector);
      _ ← outb COMMAND COMMAND_FLUSH_CACHE;
      _ ← wait_ready POLLS;
      mret tt.
End driver.

(** ** What a drive promises *)

(** What the drive is doing: nothing; getting ready for the next sector, or
    the end of a flush, within a number of polls; moving a sector, some of
    whose bytes have passed; or it has gone and does not come back. *)
Inductive Transfer := Reading | Writing | Flushing.
Inductive Phase :=
  | Idle
  | Dead
  | Preparing (t : Transfer) (lba : Z) (left polls : nat)
  | Moving (t : Transfer) (lba : Z) (left : nat) (bytes : list Z).

Definition kind (command : Z) : option Transfer :=
  if command =? COMMAND_READ_SECTORS then Some Reading
  else if command =? COMMAND_WRITE_SECTORS then Some Writing
  else if command =? COMMAND_FLUSH_CACHE then Some Flushing else None.

Definition address_ports : list Z := [SECTOR_COUNT; LBA_LOW; LBA_MID; LBA_HIGH; DRIVE].
(** The 28-bit address and the count the registers spell; zero is 256. *)
Definition addressed (r : Z -> Z) : Z := r LBA_LOW + 256 * r LBA_MID + 65536 * r LBA_HIGH + 16777216 * (r DRIVE mod 16).
Definition counted (r : Z -> Z) : nat := if r SECTOR_COUNT =? 0 then 256%nat else Z.to_nat (r SECTOR_COUNT).
(** Addressing by block, the slave drive. *)
Definition selected (r : Z -> Z) : Prop := r DRIVE / 16 = 15.

(** After a sector: the next one, or rest. *)
Definition after_sector (t : Transfer) (lba : Z) (left : nat) (ph : Phase) : Prop :=
  ph = Dead \/ match left with
               | S (S n) => exists polls, (polls < POLLS)%nat /\ ph = Preparing t (lba + 1) (S n) polls
               | _ => ph = Idle
               end.

Class Drive (D : Type) `{!Ports D} := {
  phase : D -> Phase;
  reg : D -> Z -> Z;
  media : D -> Z -> list Z;
  media_length d x : length (media d x) = 512%nat;
  media_bytes d x : Forall is_byte (media d x);
  (** A drive that has gone answers nothing: the bus floats or stays busy. *)
  dead_access a d : phase d = Dead ->
    phase (access a d).2 = Dead /\ (forall x, media (access a d).2 x = media d x);
  dead_status d : phase d = Dead -> has (access (In8 STATUS) d).1 STATUS_BUSY = true;
  (** The alternate status has no effect; the status has none at rest. *)
  alt_status d : phase d = Idle -> let d' := (access (In8 ALT_STATUS) d).2 in
    phase d' = Idle /\ reg d' = reg d /\ forall x, media d' x = media d x;
  idle_status d : phase d = Idle -> let '(s, d') := access (In8 STATUS) d in
    has s STATUS_BUSY = false /\ has s STATUS_DRQ = false /\ phase d' = Idle /\ reg d' = reg d /\ forall x, media d' x = media d x;
  (** At rest the address registers keep what is written. *)
  set_register p v d : phase d = Idle -> p ∈ address_ports -> let d' := (access (Out8 p v) d).2 in
    phase d' = Idle /\ reg d' = <[p := v]> (reg d) /\ forall x, media d' x = media d x;
  (** A command to the selected drive starts, or is refused. *)
  start_command c t d : phase d = Idle -> selected (reg d) -> kind c = Some t -> let d' := (access (Out8 COMMAND c) d).2 in
    (forall x, media d' x = media d x) /\ reg d' = reg d /\
    (phase d' = Idle \/ phase d' = Dead \/
     exists polls, (polls < POLLS)%nat /\ phase d' = Preparing t (addressed (reg d)) (counted (reg d)) polls);
  (** While it prepares it is busy, for so many polls; then it offers the
      sector, reports an error, or is done. *)
  prepare t lba left polls d : phase d = Preparing t lba left polls -> let '(s, d') := access (In8 STATUS) d in
    (forall x, media d' x = media d x) /\ reg d' = reg d /\
    ((has s STATUS_BUSY = true /\ phase d' = Dead) \/
     (has s STATUS_BUSY = true /\ s <> 255 /\ exists n, (n < polls)%nat /\ phase d' = Preparing t lba left n) \/
     (has s STATUS_BUSY = false /\ (has s STATUS_ERROR = true \/ has s STATUS_DRQ = false) /\ phase d' = Idle) \/
     (has s STATUS_BUSY = false /\ has s STATUS_ERROR = false /\ has s STATUS_DRQ = true /\ t <> Flushing /\ phase d' = Moving t lba left []));
  (** Words in order, low byte first; after the last sector the drive takes a
      command at once. *)
  data_in lba left bytes d : phase d = Moving Reading lba left bytes -> (length bytes + 2 <= 512)%nat ->
    let '(v, d') := access (In16 DATA) d in
    v = word 2 (media d lba) (Z.of_nat (length bytes)) /\ (forall x, media d' x = media d x) /\ reg d' = reg d /\
    (if (length bytes + 2 <? 512)%nat then phase d' = Moving Reading lba left (bytes ++ le 2 v)
     else after_sector Reading lba left (phase d'));
  data_out lba left bytes v d : phase d = Moving Writing lba left bytes -> (length bytes + 2 <= 512)%nat -> Forall is_byte bytes ->
    let d' := (access (Out16 DATA v) d).2 in
    (forall x, x <> lba -> media d' x = media d x) /\ reg d' = reg d /\
    (if (length bytes + 2 <? 512)%nat then phase d' = Moving Writing lba left (bytes ++ le 2 v)
     else media d' lba = bytes ++ le 2 v /\ after_sector Writing lba left (phase d'))
}.

(** ** The driver on such a drive *)

Section drive.
Context {D : Type} `{HD : Drive D}.

Definition quiet (d : D) : Prop := phase d = Idle \/ phase d = Dead.
Definition same (d d' : D) : Prop := forall x, media d' x = media d x.

(** At rest with the registers [r], or the command [t] is under way and the
    driver waits long enough. *)
Definition rests (r : Z -> Z) (d : D) : Prop := phase d = Dead \/ (phase d = Idle /\ reg d = r).
Definition awaits (r : Z -> Z) (t : Transfer) (lba : Z) (left n : nat) (d : D) : Prop :=
  rests r d \/ exists polls, (polls < n)%nat /\ phase d = Preparing t lba left polls /\ reg d = r.

Lemma rests_quiet r d : rests r d -> quiet d.
Proof using Type. intros [?|[? _]]; [by right|by left]. Qed.

Lemma wait_ready_safe r t lba left n : forall d, awaits r t lba left n d ->
  safe (wait_ready n)
    (fun s d' => same d d' /\ reg d' = r /\ if has s STATUS_DRQ then t <> Flushing /\ phase d' = Moving t lba left [] else phase d' = Idle)
    (fun d' => same d d' /\ rests r d') d.
Proof using Type.
  induction n as [|n IH]; intros d Hd; cbn [wait_ready].
  - apply safe_throw. split; [done|]. destruct Hd as [?|(p & Hp & _)]; [done|lia].
  - assert (Hnext : forall d1, same d d1 -> awaits r t lba left n d1 ->
      safe (wait_ready n)
        (fun s d' => same d d' /\ reg d' = r /\ if has s STATUS_DRQ then t <> Flushing /\ phase d' = Moving t lba left [] else phase d' = Idle)
        (fun d' => same d d' /\ rests r d') d1).
    { intros d1 Hs1 Ha. eapply safe_mono; [by apply IH| |].
      - intros s d' [Hs2 H]. split; [|done]. intros x. by rewrite Hs2.
      - intros d' [Hs2 H]. split; [|done]. intros x. by rewrite Hs2. }
    assert (H255 : has 255 STATUS_BUSY = true) by done.
    destruct Hd as [[Hdead|[Hi Hreg]]|(p & Hp & Hph & Hreg)].
    + pose proof (dead_access (In8 STATUS) d Hdead) as [Hd' Hm]. pose proof (dead_status d Hdead) as Hb.
      unfold safe, mbind, io_bind, inb. destruct (access (In8 STATUS) d) as [s d']. cbn [fst snd] in *.
      destruct (s =? 255); [by split; [|left]|]. rewrite Hb. cbn [negb]. apply Hnext; [done|]. by left; left.
    + pose proof (idle_status d Hi) as Hs. unfold safe, mbind, io_bind, inb. destruct (access (In8 STATUS) d) as [s d'].
      destruct Hs as (Hb & Hq & Hi' & Hr' & Hm). destruct (Z.eqb_spec s 255) as [->|_]; [congruence|]. rewrite Hb. cbn [negb].
      destruct (has s STATUS_ERROR); [by split; [|right; split; [|congruence]]|]. cbn. rewrite Hq. split_and!; (done || congruence).
    + pose proof (prepare t lba left p d Hph) as Hs. unfold safe, mbind, io_bind, inb. destruct (access (In8 STATUS) d) as [s d'].
      destruct Hs as (Hm & Hr' & [[Hb Hd']|[(Hb & Hne & q & Hq & Hd')|[(Hb & He & Hd')|(Hb & He & Hdrq & Ht & Hd')]]]).
      * destruct (s =? 255); [by split; [|left]|]. rewrite Hb. cbn [negb]. apply Hnext; [done|]. by left; left.
      * destruct (Z.eqb_spec s 255); [done|]. rewrite Hb. cbn [negb]. apply Hnext; [done|]. right. exists q. split_and!; [lia|done|congruence].
      * destruct (Z.eqb_spec s 255) as [->|_]; [congruence|]. rewrite Hb. cbn [negb].
        destruct (has s STATUS_ERROR); [split; [done|right; split; [done|congruence]]|]. destruct He as [|He]; [done|]. cbn. rewrite He. split_and!; (done || congruence).
      * destruct (Z.eqb_spec s 255) as [->|_]; [congruence|]. rewrite Hb, He. cbn. rewrite Hdrq. split_and!; (done || congruence).
Qed.

(** ** Registers *)

Lemma settle_safe d : quiet d ->
  exists d', settle d = (Ok tt, d') /\ same d d' /\ ((phase d = Idle /\ phase d' = Idle /\ reg d' = reg d) \/ (phase d = Dead /\ phase d' = Dead)).
Proof using Type.
  unfold settle. generalize (seq 0 4). intros l. revert d. induction l as [|x l IH]; intros d Hd.
  - exists d. split; [done|]. split; [done|]. destruct Hd; [by left|by right].
  - cbn [for_each]. unfold mbind, io_bind, inb. destruct (access (In8 ALT_STATUS) d) as [v d1] eqn:E. cbn [mret io_ret].
    destruct Hd as [Hi|Hdead].
    + pose proof (alt_status d Hi) as Ha. rewrite E in Ha. cbn in Ha. destruct Ha as (H1 & H2 & H3).
      destruct (IH d1 ltac:(by left)) as (d' & E' & Hs & [(_ & Hp & Hr)|[? ?]]); [|congruence]. exists d'. split; [exact E'|].
      split; [intros y; by rewrite Hs|]. left. by rewrite Hr.
    + pose proof (dead_access (In8 ALT_STATUS) d Hdead) as Ha. rewrite E in Ha. cbn in Ha. destruct Ha as [H1 H2].
      destruct (IH d1 ltac:(by right)) as (d' & E' & Hs & [(? & _)|[_ Hp]]); [congruence|]. exists d'. split; [exact E'|].
      split; [intros y; by rewrite Hs|]. by right.
Qed.

(** The registers as a program of writes leaves them. *)
Definition registers_are (d0 d : D) (r : Z -> Z) : Prop := same d0 d /\ ((phase d = Idle /\ reg d = r) \/ phase d = Dead).

Lemma register_written d0 d r p v : registers_are d0 d r -> p ∈ address_ports -> registers_are d0 (access (Out8 p v) d).2 (<[p := v]> r).
Proof using Type.
  intros [Hs [[Hi Hr]|Hd]] Hp.
  - pose proof (set_register p v d Hi Hp) as (H1 & H2 & H3). split; [intros x; by rewrite H3|]. left. by rewrite H2, Hr.
  - pose proof (dead_access (Out8 p v) d Hd) as [H1 H2]. split; [intros x; by rewrite H2|]. by right.
Qed.

Lemma drive_byte lba : let b := Z.lor (Z.lor 224 (Z.shiftl DISK 4)) (Z.land (Z.shiftr lba 24) 15) in
  b / 16 = 15 /\ b mod 16 = (lba / 16777216) mod 16.
Proof using Type.
  cbv zeta. change (Z.lor 224 (Z.shiftl DISK 4)) with 240. rewrite Z.shiftr_div_pow2 by done. change (2 ^ 24) with 16777216.
  change 15 with (Z.ones 4). rewrite Z.land_ones by done. change (2 ^ 4) with 16. set (n := (_ / _) mod 16).
  assert (Hn : 0 <= n < 16) by (apply Z.mod_pos_bound; lia). clearbody n.
  assert (G : Forall (fun k => Z.lor 240 k / 16 = 15 /\ Z.lor 240 k mod 16 = k) (seqZ 0 16)) by (repeat constructor; done).
  rewrite Forall_forall in G. apply G, elem_of_seqZ. lia.
Qed.

Lemma address_bytes lba : 0 <= lba < LBA_LIMIT ->
  lba mod 256 + 256 * ((lba / 256) mod 256) + 65536 * ((lba / 65536) mod 256) + 16777216 * ((lba / 16777216) mod 16) = lba.
Proof using Type.
  intros H. unfold LBA_LIMIT in H.
  replace (lba / 16777216) with (lba / 256 / 256 / 256) by (rewrite !Z.div_div by lia; done).
  replace (lba / 65536) with (lba / 256 / 256) by (rewrite Z.div_div by lia; done).
  assert (lba / 256 / 256 / 256 < 16) by (rewrite !Z.div_div by lia; apply Z.div_lt_upper_bound; lia).
  assert (0 <= lba / 256 / 256 / 256) by (repeat apply Z.div_pos; lia).
  rewrite (Z.mod_small (lba / 256 / 256 / 256) 16) by lia.
  pose proof (Z.div_mod lba 256). pose proof (Z.div_mod (lba / 256) 256). pose proof (Z.div_mod (lba / 256 / 256) 256). lia.
Qed.

(** The command goes to the slave, for the block and the count asked for. *)
Lemma issue_safe lba count c t d : quiet d -> (0 < count <= 256)%nat -> kind c = Some t ->
  exists d', issue lba count c d = (Ok tt, d') /\ same d d' /\
    exists a r, selected r /\ awaits r t a count POLLS d' /\ (0 <= lba < LBA_LIMIT -> a = lba).
Proof using Type.
  intros Hq Hc Hk. unfold issue. set (b := Z.lor (Z.lor 224 _) _).
  pose proof (drive_byte lba) as [Hb1 Hb2]. fold b in Hb1, Hb2.
  assert (H0 : registers_are d (access (Out8 DRIVE b) d).2 (<[DRIVE := b]> (reg d))).
  { apply register_written; [|by repeat constructor]. split; [done|]. destruct Hq; [by left|by right]. }
  set (d1 := (access (Out8 DRIVE b) d).2) in H0.
  assert (Hq1 : quiet d1) by (destruct H0 as [_ [[? _]|?]]; [by left|by right]).
  destruct (settle_safe d1 Hq1) as (d2 & E2 & Hs2 & Hp2).
  assert (H2 : registers_are d d2 (<[DRIVE := b]> (reg d))).
  { destruct H0 as [Hs Hr]. split; [intros x; by rewrite Hs2|]. destruct Hp2 as [(? & ? & E)|[? ?]]; [|by right].
    left. split; [done|]. rewrite E. destruct Hr as [[_ ?]|?]; [done|congruence]. }
  pose proof (register_written _ _ _ SECTOR_COUNT (if (count =? 256)%nat then 0 else wrap 8 (Z.of_nat count)) H2 ltac:(by repeat constructor)) as H3.
  pose proof (register_written _ _ _ LBA_LOW (wrap 8 lba) H3 ltac:(by repeat constructor)) as H4.
  pose proof (register_written _ _ _ LBA_MID (wrap 8 (Z.shiftr lba 8)) H4 ltac:(by repeat constructor)) as H5.
  pose proof (register_written _ _ _ LBA_HIGH (wrap 8 (Z.shiftr lba 16)) H5 ltac:(by repeat constructor)) as H6.
  set (d6 := (access (Out8 LBA_HIGH _) _).2) in H6. set (r := <[LBA_HIGH := _]> _) in H6.
  exists (access (Out8 COMMAND c) d6).2. split.
  { unfold mbind, io_bind at 1, outb at 1. fold d1. unfold io_bind at 1. rewrite E2. done. }
  destruct H6 as [Hs6 [[Hi6 Hr6]|Hd6]].
  - assert (Hsel : selected (reg d6)) by (rewrite Hr6; exact Hb1).
    pose proof (start_command c t d6 Hi6 Hsel Hk) as (Hm & Hr' & Hst). split; [intros x; by rewrite Hm|].
    exists (addressed r), r. rewrite Hr6 in Hst, Hr', Hsel. split; [exact Hsel|]. assert (Ecount : counted r = count).
    { change (counted r) with (if (if (count =? 256)%nat then 0 else wrap 8 (Z.of_nat count)) =? 0 then 256%nat
        else Z.to_nat (if (count =? 256)%nat then 0 else wrap 8 (Z.of_nat count))).
      destruct (Nat.eqb_spec count 256) as [->|Hne]; [done|]. rewrite wrap_small by (unfold in_u; change (2 ^ 8) with 256; lia).
      destruct (Z.eqb_spec (Z.of_nat count) 0); lia. }
    rewrite Ecount in Hst. split.
    + destruct Hst as [?|[?|(q & Hq' & ?)]]; [by left; right|by left; left|]. right. by exists q.
    + intros Hl. change (addressed r) with (wrap 8 lba + 256 * wrap 8 (Z.shiftr lba 8) + 65536 * wrap 8 (Z.shiftr lba 16) + 16777216 * (b mod 16)).
      rewrite Hb2, !Z.shiftr_div_pow2 by done. by apply address_bytes.
  - pose proof (dead_access (Out8 COMMAND c) d6 Hd6) as [H1 Hm]. split; [intros x; by rewrite Hm|]. exists lba, (fun _ => 240). split; [done|]. split; [|done]. by left; left.
Qed.

(** ** Reading *)

Lemma same_trans d d1 d2 : same d d1 -> same d1 d2 -> same d d2.
Proof using Type. intros H1 H2 x. by rewrite H2. Qed.

Lemma awaits_after r t lba left d : reg d = r -> after_sector t lba (S left) (phase d) ->
  awaits r t (lba + 1) left POLLS d /\ (left = 0%nat -> rests r d).
Proof using Type.
  intros Hr [H|H]; [by split; [left|]; left|]. destruct left as [|left]; [by split; [left|]; right|].
  destruct H as (q & ? & ?). split; [|done]. right. by exists q.
Qed.

Lemma next_word m i : length m = 512%nat -> Forall is_byte m -> (i < 256)%nat ->
  take (2 * i) m ++ le 2 (word 2 m (Z.of_nat (2 * i))) = take (2 * (i + 1)) m.
Proof using Type.
  intros Hl Hb Hi. unfold word. rewrite Nat2Z.id. set (w := take 2 (drop (2 * i) m)).
  assert (Hw : length w = 2%nat) by (unfold w; rewrite length_take, length_drop; lia).
  assert (E : le 2 (unle w) = w) by (rewrite <- Hw at 1; apply le_unle; by apply Forall_take, Forall_drop). rewrite E.
  replace (2 * (i + 1))%nat with (2 * i + 2)%nat by lia. by rewrite <- take_take_drop.
Qed.

Lemma two_bytes v : [wrap 8 v; wrap 8 (Z.shiftr v 8)] = le 2 v.
Proof using Type. rewrite Z.shiftr_div_pow2 by done. done. Qed.

Lemma read_words_safe lba left d : phase d = Moving Reading lba (S left) [] ->
  exists d', read_words d = (Ok (media d lba), d') /\ same d d' /\ reg d' = reg d /\ after_sector Reading lba (S left) (phase d').
Proof using Type.
  intros Hp. set (body := fun (bytes : list Z) (_ : nat) => value ← inw DATA; mret (bytes ++ [wrap 8 value; wrap 8 (Z.shiftr value 8)])).
  assert (G : forall n i d1, (i + n = 256)%nat -> (0 < n)%nat -> same d d1 -> reg d1 = reg d -> phase d1 = Moving Reading lba (S left) (take (2 * i) (media d lba)) ->
    exists d', fold_io (S := D) body (seq i n) (take (2 * i) (media d lba)) d1 = (Ok (media d lba), d') /\ same d d' /\ reg d' = reg d /\
      after_sector Reading lba (S left) (phase d')).
  { induction n as [|n IH]; intros i d1 Hi Hn Hs Hr1 Hp1; [lia|]. cbn [seq fold_io].
    assert (Hlen : length (take (2 * i) (media d lba)) = (2 * i)%nat) by (rewrite length_take, media_length; lia).
    pose proof (data_in lba (S left) _ d1 Hp1 ltac:(lia)) as Hd. destruct (access (In16 DATA) d1) as [v d2] eqn:Eacc.
    destruct Hd as (Hv & Hm & Hr2 & Hph). rewrite Hlen, Hs in Hv. rewrite Hlen in Hph.
    assert (Hs2 : same d d2) by (eapply same_trans; [exact Hs|exact Hm]).
    assert (Eb : body (take (2 * i) (media d lba)) i d1 = (Ok (take (2 * (i + 1)) (media d lba)), d2)).
    { unfold body, mbind, io_bind, inw. rewrite Eacc. cbn [mret io_ret]. unfold mret, io_ret. by rewrite two_bytes, Hv, next_word by (apply media_length || apply media_bytes || lia). }
    rewrite Hv, next_word in Hph by (apply media_length || apply media_bytes || lia).
    unfold mbind, io_bind. rewrite Eb.
    destruct (Nat.ltb_spec (2 * i + 2) 512).
    - replace (i + 1)%nat with (S i) in * by lia. apply IH; (done || lia || congruence).
    - assert (n = 0)%nat as -> by lia. exists d2. cbn [seq fold_io]. rewrite (take_ge (media d lba)) by (rewrite media_length; lia).
      split_and!; (done || congruence). }
  apply (G 256%nat 0%nat d); (done || lia).
Qed.

Lemma read_loop_safe r0 n : forall lba buffer d, awaits r0 Reading lba n POLLS d -> (n = 0%nat -> rests r0 d) ->
  let '((bytes, r), d') := read_loop n buffer d in
  same d d' /\ quiet d' /\ r <> Panic /\
  exists k, (k <= n)%nat /\ bytes = buffer ++ sectors (media d) lba k /\ (r = Ok tt -> k = n).
Proof using Type.
  induction n as [|n IH]; intros lba buffer d Hd Hz; cbn [read_loop].
  - split_and!; try done; [by eapply rests_quiet, Hz|]. exists 0%nat. by rewrite app_nil_r.
  - pose proof (wait_ready_safe r0 Reading lba (S n) POLLS d Hd) as Hw. unfold safe in Hw. unfold mbind, io_bind.
    assert (Hstop : forall (e : string) d', same d d' /\ quiet d' -> same d d' /\ quiet d' /\ Err (A := unit) e <> Panic /\
      exists k, (k <= S n)%nat /\ buffer = buffer ++ sectors (media d) lba k /\ (Err (A := unit) e = Ok tt -> k = S n)).
    { intros e d' [? ?]. split_and!; try done. exists 0%nat. split; [lia|]. split; [|done]. symmetry. apply app_nil_r. }
    destruct (wait_ready POLLS d) as [[s|e|] d1]; [|apply Hstop; split; [apply Hw|by eapply rests_quiet, Hw]|done].
    destruct Hw as (Hs & Hr1 & Hph). destruct (has s STATUS_DRQ); cbn [negb]; [|apply Hstop; split; [done|by left]].
    destruct Hph as [_ Hph]. destruct (read_words_safe lba n d1 Hph) as (d2 & E & Hs2 & Hr2 & Ha). rewrite E.
    destruct (awaits_after r0 Reading lba n d2 ltac:(congruence) Ha) as [Haw Hq]. pose proof (IH (lba + 1) (buffer ++ media d1 lba) d2 Haw Hq) as H.
    assert (Hs12 : same d d2) by (eapply same_trans; [exact Hs|exact Hs2]).
    destruct (read_loop n _ d2) as [[bytes r] d']. destruct H as (H1 & H2 & H3 & k & Hk & Hb & Hr).
    split; [by eapply same_trans|]. split_and!; try done. exists (S k). split; [lia|]. split.
    + rewrite Hb, sectors_cons, <- app_assoc, Hs. do 2 f_equal. apply sectors_ext. intros x _. apply Hs12.
    + intros Hr'. by rewrite (Hr Hr').
Qed.

Lemma ata_read_safe lba size d : quiet d ->
  let '((bytes, r), d') := ata_read lba size d in
  same d d' /\ quiet d' /\ r <> Panic /\ exists a k, (512 * k <= size)%nat /\ bytes = sectors (media d) a k /\
    (r = Ok tt -> (512 * k = size)%nat) /\ (0 <= lba < LBA_LIMIT -> a = lba).
Proof using Type.
  intros Hq. unfold ata_read.
  assert (Hno : forall e, same d d /\ quiet d /\ Err (A := unit) e <> Panic /\ exists a k, (512 * k <= size)%nat /\ [] = sectors (media d) a k /\
    (Err e = Ok tt -> (512 * k = size)%nat) /\ (0 <= lba < LBA_LIMIT -> a = lba)).
  { intros e. split_and!; try done. exists lba, 0%nat. split_and!; try done. lia. }
  destruct (Nat.eqb_spec (size mod 512) 0) as [Hm|]; cbn [negb]; [|apply Hno].
  pose proof (Nat.div_mod_eq size 512) as Hdiv. rewrite Hm in Hdiv. set (count := (size / 512)%nat) in *.
  destruct (Nat.eqb_spec count 0) as [Hz|Hz].
  { split_and!; try done. exists lba, 0%nat. split_and!; try done; lia. }
  destruct (Nat.ltb_spec 256 count) as [|Hc]; [apply Hno|].
  destruct (issue_safe lba count COMMAND_READ_SECTORS Reading d Hq ltac:(lia) eq_refl) as (d1 & E & Hs & a & r0 & _ & Ha & Hla). rewrite E.
  pose proof (read_loop_safe r0 count a [] d1 Ha ltac:(lia)) as H. destruct (read_loop count [] d1) as [[bytes r] d'].
  destruct H as (H1 & H2 & H3 & k & Hk & Hb & Hr). split; [by eapply same_trans|]. split_and!; try done.
  exists a, k. split_and!; [lia| |intros Hr'; specialize (Hr Hr'); lia|done]. rewrite Hb. cbn [app]. apply sectors_ext. intros x _. apply Hs.
Qed.

(** ** Writing *)

Lemma le_pair low high : is_byte low -> is_byte high -> le 2 (Z.lor low (Z.shiftl high 8)) = [low; high].
Proof using Type.
  intros Hl Hh. unfold is_byte in *. assert (E : Z.lor low (Z.shiftl high 8) = unle [low; high]).
  { cbn [unle]. rewrite Z.mul_0_r, Z.add_0_r. pose proof (Z.add_lor_land low (Z.shiftl high 8)) as E.
    assert (El : Z.land low (Z.shiftl high 8) = 0).
    { apply Z.bits_inj'. intros n Hn. rewrite Z.land_spec, Z.bits_0. destruct (Z.ltb_spec n 8).
      - rewrite Z.shiftl_spec_low by done. apply andb_false_r.
      - rewrite (in_u_high 8 low n); [done| |lia]. unfold in_u. change (2 ^ 8) with 256. lia. }
    rewrite El, Z.shiftl_mul_pow2 in E by done. change (2 ^ 8) with 256 in E. rewrite Z.shiftl_mul_pow2 by done. change (2 ^ 8) with 256. lia. }
  rewrite E. change 2%nat with (length [low; high]). apply le_unle. repeat constructor; unfold is_byte; lia.
Qed.

Lemma next_pair (buffer : list Z) base i : (base + 2 * i + 2 <= length buffer)%nat ->
  take (2 * i) (drop base buffer) ++ [buffer !!! (base + i * 2)%nat; buffer !!! (base + i * 2 + 1)%nat] = take (2 * (i + 1)) (drop base buffer).
Proof using Type.
  intros H. replace (2 * (i + 1))%nat with (2 * i + 2)%nat by lia. rewrite <- take_take_drop. f_equal. rewrite drop_drop.
  replace (base + i * 2)%nat with (base + 2 * i)%nat by lia. set (n := (base + 2 * i)%nat).
  rewrite (drop_S buffer (buffer !!! n) n) by (apply list_lookup_lookup_total_lt; lia).
  rewrite (drop_S buffer (buffer !!! (n + 1)%nat) (S n)) by (replace (n + 1)%nat with (S n) by lia; apply list_lookup_lookup_total_lt; lia).
  done.
Qed.

Lemma total_byte buffer (i : nat) : Forall is_byte buffer -> (i < length buffer)%nat -> is_byte (buffer !!! i).
Proof using Type. intros Hb Hi. rewrite Forall_lookup in Hb. by apply (Hb i), list_lookup_lookup_total_lt. Qed.

(** Only the sectors [P] change. *)
Definition same_but (P : Z -> Prop) (d d' : D) : Prop := forall x, ~ P x -> media d' x = media d x.

Lemma write_words_safe buffer sector lba left d : (512 * (sector + 1) <= length buffer)%nat -> phase d = Moving Writing lba (S left) [] ->
  exists d', write_words buffer sector d = (Ok tt, d') /\ same_but (fun x => x = lba) d d' /\
    (Forall is_byte buffer -> media d' lba = take 512 (drop (512 * sector) buffer)) /\ reg d' = reg d /\
    after_sector Writing lba (S left) (phase d').
Proof using Type.
  intros Hlen Hp. unfold write_words. cbv zeta. replace (sector * 512)%nat with (512 * sector)%nat by lia. set (base := (512 * sector)%nat).
  set (body := fun word : nat => outw DATA (Z.lor (buffer !!! (base + word * 2)%nat) (Z.shiftl (buffer !!! (base + word * 2 + 1)%nat) 8))).
  assert (G : forall n i d1 b, (i + n = 256)%nat -> (0 < n)%nat -> same_but (fun x => x = lba) d d1 -> reg d1 = reg d ->
    phase d1 = Moving Writing lba (S left) b -> length b = (2 * i)%nat -> Forall is_byte b -> (Forall is_byte buffer -> b = take (2 * i) (drop base buffer)) ->
    exists d', for_each (seq i n) body d1 = (Ok tt, d') /\ same_but (fun x => x = lba) d d' /\
      (Forall is_byte buffer -> media d' lba = take 512 (drop base buffer)) /\ reg d' = reg d /\ after_sector Writing lba (S left) (phase d')).
  { induction n as [|n IH]; intros i d1 b Hi Hn Hs Hr1 Hp1 Hl Hbb Hbuf; [lia|]. cbn [seq for_each]. unfold mbind, io_bind. unfold body at 1. unfold outw.
    set (v := Z.lor _ (Z.shiftl _ 8)).
    pose proof (data_out lba (S left) b v d1 Hp1 ltac:(lia) Hbb) as (Hm & Hr2 & Hph). set (d2 := (access _ d1).2) in *. rewrite Hl in Hph.
    assert (Hs2 : same_but (fun x => x = lba) d d2) by (intros x Hx; rewrite Hm by done; by apply Hs).
    assert (Hnext : Forall is_byte buffer -> b ++ le 2 v = take (2 * (i + 1)) (drop base buffer)).
    { intros Hb. rewrite (Hbuf Hb). unfold v. rewrite le_pair, next_pair; [done|lia|apply total_byte; [done|lia]..]. }
    destruct (Nat.ltb_spec (2 * i + 2) 512).
    - replace (i + 1)%nat with (S i) in * by lia. apply (IH (S i) d2 (b ++ le 2 v)); try done; try lia; try congruence.
      + rewrite length_app, le_length. lia.
      + apply Forall_app. split; [done|apply le_bytes].
    - assert (n = 0)%nat as -> by lia. exists d2. cbn [seq for_each]. replace (2 * (i + 1))%nat with 512%nat in Hnext by lia. destruct Hph as [Hw Ha].
      split_and!; try done; try congruence. intros Hb. rewrite Hw. by apply Hnext. }
  apply (G 256%nat 0%nat d []); (done || lia || by apply Forall_nil).
Qed.

Lemma write_loop_safe r buffer n : forall first lba d, (512 * (first + n) <= length buffer)%nat ->
  awaits r Writing lba n POLLS d -> (n = 0%nat -> rests r d) ->
  safe (for_each (seq first n) (fun sector =>
         status ← wait_ready POLLS;
         if negb (has status STATUS_DRQ) then throw "the drive will not accept data" else write_words buffer sector))
    (fun _ d' => same_but (fun x => lba <= x < lba + Z.of_nat n) d d' /\ rests r d' /\
       (Forall is_byte buffer -> forall i, (i < n)%nat -> media d' (lba + Z.of_nat i) = take 512 (drop (512 * (first + i)) buffer)))
    (fun d' => same_but (fun x => lba <= x < lba + Z.of_nat n) d d' /\ rests r d') d.
Proof using Type.
  induction n as [|n IH]; intros first lba d Hlen Hd Hz; cbn [seq for_each].
  - apply safe_ret. split_and!; [done|by apply Hz|lia].
  - eapply (safe_bind _ _ (fun _ d2 => same_but (fun x => x = lba) d d2 /\ reg d2 = r /\
        (Forall is_byte buffer -> media d2 lba = take 512 (drop (512 * first) buffer)) /\ after_sector Writing lba (S n) (phase d2))).
    + eapply safe_bind; [eapply safe_mono; [by apply (wait_ready_safe r Writing lba (S n) POLLS d)|intros s d' H; exact H|]|].
      { intros d' [Hs Hq]. split; [|done]. intros x _. apply Hs. }
      intros s d1 (Hs & Hr1 & Hph). cbv beta. destruct (has s STATUS_DRQ); cbn [negb].
      * destruct Hph as [_ Hph]. destruct (write_words_safe buffer first lba n d1 ltac:(lia) Hph) as (d2 & E & Hs2 & Hw & Hr2 & Ha).
        unfold safe. rewrite E. split_and!; try done; [|congruence]. intros x Hx. by rewrite Hs2, Hs.
      * apply safe_throw. split; [intros x _; apply Hs|by right].
    + intros u d2 (Hs2 & Hr2 & Hw & Ha). destruct (awaits_after r Writing lba n d2 Hr2 Ha) as [Haw Hq].
      assert (Hout : forall d3, same_but (fun x => lba + 1 <= x < lba + 1 + Z.of_nat n) d2 d3 -> same_but (fun x => lba <= x < lba + Z.of_nat (S n)) d d3)
        by (intros d3 Hs3 x Hx; rewrite Hs3 by lia; apply Hs2; lia).
      eapply safe_mono; [apply (IH (S first) (lba + 1) d2 ltac:(lia) Haw Hq)| |].
      * intros u' d3 (Hs3 & Hq3 & Hm3). split_and!; [by apply Hout|done|]. intros Hb i Hi. destruct i as [|i].
        -- rewrite Z.add_0_r, Nat.add_0_r, Hs3 by lia. by apply Hw.
        -- replace (lba + Z.of_nat (S i)) with (lba + 1 + Z.of_nat i) by lia. rewrite Hm3 by (done || lia). do 2 f_equal. lia.
      * intros d3 [Hs3 Hq3]. split; [by apply Hout|done].
Qed.

(** The flush at the end. *)
Lemma flush_safe r d : selected r -> rests r d ->
  safe (_ ← outb COMMAND COMMAND_FLUSH_CACHE; _ ← wait_ready POLLS; mret tt)
    (fun _ d' => same d d' /\ quiet d') (fun d' => same d d' /\ quiet d') d.
Proof using Type.
  intros Hsel Hq. set (d1 := (access (Out8 COMMAND COMMAND_FLUSH_CACHE) d).2).
  assert (H1 : same d d1 /\ exists a c, awaits r Flushing a c POLLS d1).
  { destruct Hq as [Hdead|[Hi Hr]].
    - destruct (dead_access (Out8 COMMAND COMMAND_FLUSH_CACHE) d Hdead) as [H1 H2]. split; [done|]. exists 0, 0%nat. by left; left.
    - rewrite <- Hr in Hsel. destruct (start_command COMMAND_FLUSH_CACHE Flushing d Hi Hsel eq_refl) as (Hm & Hr' & Hst). fold d1 in Hm, Hr', Hst.
      split; [done|]. exists (addressed (reg d)), (counted (reg d)).
      destruct Hst as [?|[?|(q & ? & ?)]]; [left; right; split; [done|congruence]|by left; left|right; exists q; split_and!; (done || congruence)]. }
  destruct H1 as (Hs1 & a & c & Ha). unfold safe. rewrite (io_bind_run _ _ d tt d1) by done.
  change (safe (_ ← wait_ready POLLS; mret tt) (fun _ d' => same d d' /\ quiet d') (fun d' => same d d' /\ quiet d') d1).
  eapply safe_bind; [eapply safe_mono; [by apply (wait_ready_safe r Flushing a c POLLS d1)|intros s d' H; exact H|]|].
  - intros d2 [Hs2 Hq2]. split; [by eapply same_trans|by eapply rests_quiet].
  - intros s d2 (Hs2 & _ & Hph). apply safe_ret. split; [by eapply same_trans|]. left. destruct (has s STATUS_DRQ); [by destruct Hph|done].
Qed.

(** What a write leaves when it may have failed, and when it says it has not. *)
Definition framed (lba : Z) (bytes : list Z) (d d' : D) : Prop := quiet d' /\
  (0 <= lba < LBA_LIMIT -> same_but (fun x => lba <= x < lba + Z.of_nat (length bytes / 512)) d d').
Definition wrote (lba : Z) (bytes : list Z) (d' : D) : Prop := 0 <= lba < LBA_LIMIT -> Forall is_byte bytes ->
  forall i, (i < length bytes / 512)%nat -> media d' (lba + Z.of_nat i) = take 512 (drop (512 * i) bytes).

(** Any write stops, with the drive at rest. *)
Lemma ata_write_safe lba bytes d : quiet d ->
  safe (ata_write lba bytes) (fun _ d' => framed lba bytes d d' /\ wrote lba bytes d') (framed lba bytes d) d.
Proof using Type.
  intros Hq. assert (Hno : framed lba bytes d d) by done. unfold ata_write.
  destruct (Nat.eqb_spec (length bytes mod 512) 0) as [Hm|]; cbn [negb]; [|by apply safe_throw].
  pose proof (Nat.div_mod_eq (length bytes) 512) as Hdiv. rewrite Hm in Hdiv. unfold framed, wrote in *. set (count := (length bytes / 512)%nat) in *.
  destruct (Nat.eqb_spec count 0) as [Hz|Hz]; [apply safe_ret; split; [done|]; lia|].
  destruct (Nat.ltb_spec 256 count) as [|Hc]; [by apply safe_throw|].
  destruct (issue_safe lba count COMMAND_WRITE_SECTORS Writing d Hq ltac:(lia) eq_refl) as (d1 & E & Hs & a & r & Hsel & Ha & Hla).
  eapply (safe_bind _ _ (fun _ d' => d' = d1)); [unfold safe; by rewrite E|]. intros u ? ->.
  eapply safe_bind; [eapply safe_mono; [apply (write_loop_safe r bytes count 0 a d1); (done || lia)|intros u' s H; exact H|]|].
  - intros d2 [Hs2 Hq2]. split; [by eapply rests_quiet|]. intros Hl x Hx. rewrite (Hla Hl) in Hs2. by rewrite Hs2, Hs.
  - intros u' d2 (Hs2 & Hq2 & Hm2). assert (Hframe : 0 <= lba < LBA_LIMIT -> same_but (fun x => lba <= x < lba + Z.of_nat count) d d2)
      by (intros Hl x Hx; rewrite (Hla Hl) in Hs2; by rewrite Hs2, Hs).
    eapply safe_mono; [by apply (flush_safe r d2)| |].
    + intros u'' d3 [Hs3 Hq3]. split; [split; [done|]|].
      * intros Hl x Hx. rewrite Hs3. by apply Hframe.
      * intros Hl Hb i Hi. rewrite <- (Hla Hl), Hs3. rewrite (Hm2 Hb i Hi). done.
    + intros d3 [Hs3 Hq3]. split; [done|]. intros Hl x Hx. rewrite Hs3. by apply Hframe.
Qed.

Lemma present_safe d : quiet d -> exists b d', present d = (Ok b, d') /\ same d d' /\ quiet d'.
Proof using Type.
  intros Hq. unfold present. set (b := Z.lor 224 _).
  assert (H0 : registers_are d (access (Out8 DRIVE b) d).2 (<[DRIVE := b]> (reg d))).
  { apply register_written; [|by repeat constructor]. split; [done|]. destruct Hq; [by left|by right]. }
  set (d1 := (access (Out8 DRIVE b) d).2) in H0. destruct H0 as [Hs1 Hp1].
  assert (Hq1 : quiet d1) by (destruct Hp1 as [[? _]|?]; [by left|by right]).
  destruct (settle_safe d1 Hq1) as (d2 & E2 & Hs2 & Hp2).
  assert (Hq2 : quiet d2) by (destruct Hp2 as [(_ & ? & _)|[_ ?]]; [by left|by right]).
  assert (H3 : same d2 (access (In8 STATUS) d2).2 /\ quiet (access (In8 STATUS) d2).2).
  { destruct Hq2 as [Hi|Hd].
    - pose proof (idle_status d2 Hi) as H. destruct (access (In8 STATUS) d2) as [s d3]. destruct H as (_ & _ & Hi3 & _ & Hm). split; [done|by left].
    - destruct (dead_access (In8 STATUS) d2 Hd) as [? ?]. split; [done|by right]. }
  unfold mbind, io_bind at 1, outb at 1. fold d1. unfold io_bind at 1. rewrite E2. unfold io_bind, inb.
  destruct (access (In8 STATUS) d2) as [s d3]. cbn [snd] in H3. destruct H3 as [Hs3 Hq3]. eexists _, d3. split; [reflexivity|]. split; [|done].
  intros x. by rewrite Hs3, Hs2, Hs1.
Qed.

Lemma whole_sectors (bytes : list Z) count : length bytes = (512 * count)%nat -> (length bytes / 512 = count)%nat.
Proof using Type. intros ->. rewrite Nat.mul_comm. by apply Nat.div_mul. Qed.


End drive.

(** ** The driver is a disk *)

(** A drive between two requests. *)
Record AtaDisk (D : Type) `{Drive D} := mkAtaDisk { drive : D; at_rest : quiet drive }.
Arguments mkAtaDisk {_ _ _} _ _.
Arguments drive {_ _ _} _.
Arguments at_rest {_ _ _} _.

Section disk.
Context {D : Type} `{HD : Drive D}.

Lemma read_rests lba size (d : AtaDisk D) : quiet (ata_read lba size (drive d)).2.
Proof.
  pose proof (ata_read_safe lba size (drive d) (at_rest d)) as H. destruct (ata_read lba size (drive d)) as [[bytes r] d']. by destruct H as (_ & ? & _).
Qed.

Lemma write_rests lba bytes (d : AtaDisk D) : quiet (ata_write lba bytes (drive d)).2.
Proof.
  pose proof (ata_write_safe lba bytes (drive d) (at_rest d)) as H. unfold safe, framed in H.
  destruct (ata_write lba bytes (drive d)) as [[u|e|] d']; [by destruct H as [[? _] _]|by destruct H|done].
Qed.

Lemma present_rests (d : AtaDisk D) : quiet (present (drive d)).2.
Proof. destruct (present_safe (drive d) (at_rest d)) as (b & d' & -> & _ & H). done. Qed.

#[export] Instance ata_disk : Disk (AtaDisk D) := {
  disk_present d := (match (present (drive d)).1 with Ok b => b | _ => false end, mkAtaDisk _ (present_rests d));
  disk_read lba count d := ((ata_read lba (512 * count) (drive d)).1, mkAtaDisk _ (read_rests lba (512 * count) d));
  disk_write lba bytes d := ((ata_write lba bytes (drive d)).1, mkAtaDisk _ (write_rests lba bytes d))
}.

#[export] Instance ata_disk_laws : DiskLaws (AtaDisk D).
Proof.
  refine {| sector := fun d => media (drive d) |}.
  - intros. apply media_length.
  - intros. apply media_bytes.
  - intros d lba. cbn. destruct (present_safe (drive d) (at_rest d)) as (b & d' & -> & H & _). apply H.
  - intros lba count d bytes r d' E. cbn in E. injection E as E <-. cbn [drive].
    pose proof (ata_read_safe lba (512 * count) (drive d) (at_rest d)) as H. destruct (ata_read lba (512 * count) (drive d)) as [[b r'] d1].
    cbn in E. injection E as -> ->. destruct H as (H1 & H2 & H3 & a & k & Hk & -> & Hr & Ha). split_and!; [done| | |].
    + rewrite sectors_length; [done|]. apply media_length.
    + apply sectors_bytes, media_bytes.
    + intros Hr' H0 Hl Hc. rewrite Ha by lia. specialize (Hr Hr'). f_equal. lia.
  - intros lba count d. cbn. pose proof (ata_read_safe lba (512 * count) (drive d) (at_rest d)) as H.
    destruct (ata_read lba (512 * count) (drive d)) as [[b r'] d1]. by destruct H as (_ & _ & ? & _).
  - intros lba count bytes d r d' Hb Hlen H0 Hl Hc E. cbn in E. injection E as E <-. cbn [drive].
    pose proof (ata_write_safe lba bytes (drive d) (at_rest d)) as H. unfold safe, framed, wrote in H. rewrite (whole_sectors _ _ Hlen) in H.
    destruct (ata_write lba bytes (drive d)) as [r' d1]. cbn in E. subst r'. destruct r as [[]|e|]; [|split; [|done]|done].
    + destruct H as [[_ H1] H2]. split; [intros x _; apply H1; lia|]. intros _. apply sectors_split; [done|]. apply H2; (done || lia).
    + destruct H as [_ H1]. intros x _. apply H1. lia.
  - intros lba bytes d. cbn. pose proof (ata_write_safe lba bytes (drive d) (at_rest d)) as H. unfold safe in H.
    by destruct (ata_write lba bytes (drive d)) as [[u|e|] d1].
Qed.
End disk.
