(* ===== verification/Memory.v ===== *)
(** * Physical memory and page tables: [kernel/src/memory.rs]

    Physical memory is a memory of bytes; the direct map that the kernel
    reaches it through is the identity here.  The frame allocator keeps its
    list in the free frames, the page tables are 512 words in a frame, and a
    user page is its leaf entry. *)

From S2P Require Import Prelude Bytes Disk Pages Replace Swap.

Definition HUGE : Z := 128.
Definition USER_SPACE_END : Z := 549755813888.

(** [FrameAllocator]. *)
Record FrameAllocator := mkFrames { head : Z; free : Z; total : Z }.

(** The statics of the module, physical memory, and the parts it drives. *)
Record Mem {D : Type} := mkMem {
  ram : memory;
  ALLOCATOR : FrameAllocator;
  SHARED : list (Z * Z);
  CR3 : Z;
  NO_EXECUTE_ACTIVE : bool;
  REPLACE : Registry.t;
  SWAP : Swap;
  DISK : D
}.
#[global] Arguments Mem : clear implicits.
Definition Mem_eta {D} (r : Mem D) : Mem D :=
  mkMem D (ram r) (ALLOCATOR r) (SHARED r) (CR3 r) (NO_EXECUTE_ACTIVE r) (REPLACE r) (SWAP r) (DISK r).
Ltac mem_setter D proj v r :=
  let t := eval cbv beta delta [Mem_eta] in (@Mem_eta D r) in
  let p := eval pattern (proj r) in t in
  match p with ?F _ => let x := eval cbv beta in (F v) in exact x end.
#[export] Instance set_ram {D} : Setter (@ram D) := fun v r => ltac:(mem_setter D (@ram D) v r).
#[export] Instance set_ALLOCATOR {D} : Setter (@ALLOCATOR D) := fun v r => ltac:(mem_setter D (@ALLOCATOR D) v r).
#[export] Instance set_SHARED {D} : Setter (@SHARED D) := fun v r => ltac:(mem_setter D (@SHARED D) v r).
#[export] Instance set_CR3 {D} : Setter (@CR3 D) := fun v r => ltac:(mem_setter D (@CR3 D) v r).
#[export] Instance set_REPLACE {D} : Setter (@REPLACE D) := fun v r => ltac:(mem_setter D (@REPLACE D) v r).
#[export] Instance set_SWAP {D} : Setter (@SWAP D) := fun v r => ltac:(mem_setter D (@SWAP D) v r).
#[export] Instance set_DISK {D} : Setter (@DISK D) := fun v r => ltac:(mem_setter D (@DISK D) v r).

(** A table's entries, and an address rounded down to its page. *)
Definition get (m : memory) (table index : Z) : Z := load 8 m (table + 8 * index).
Definition set (table index v : Z) (m : memory) : memory := store 8 (table + 8 * index) v m.
Definition page_of (address : Z) : Z := clear address (PAGE_SIZE - 1).
Definition frame_of (e : Z) : Z := Z.land e ADDRESS_MASK.
Definition flags_of (e : Z) : Z := Z.ldiff e ADDRESS_MASK.

Section memory.
Context {D : Type}.
Implicit Types k : Mem D.

Definition read_cr3 k : Z := Z.land (CR3 k) ADDRESS_MASK.
Definition update_ram (f : memory -> memory) k : Mem D := k <| ram := f (ram k) |>.

(** ** The frame allocator *)

Definition allocate k : option Z * Mem D :=
  let a := ALLOCATOR k in
  if head a =? 0 then (None, k)
  else
    let frame := head a in
    (Some frame, k <| ALLOCATOR := mkFrames (load 8 (ram k) frame) (free a -₆₄ 1) (total a) |>).

Definition deallocate (frame : Z) k : Mem D :=
  let a := ALLOCATOR k in
  update_ram (store 8 frame (head a)) k
    <| ALLOCATOR := mkFrames frame (free a +₆₄ 1) (total a) |>.

Definition stats k : Z * Z := (free (ALLOCATOR k), total (ALLOCATOR k)).

(** One region of the firmware's map: usable, start, end. *)
Definition Region : Type := bool * Z * Z.

Fixpoint free_region (fuel : nat) (frame end_ : Z) k : option (Mem D) :=
  match fuel with
  | O => None
  | S fuel =>
      if frame +₆₄ PAGE_SIZE <=? end_ then
        let k :=
          if 1048576 <=? frame
          then let k := deallocate frame k in
               k <| ALLOCATOR := mkFrames (head (ALLOCATOR k)) (free (ALLOCATOR k)) (total (ALLOCATOR k) +₆₄ 1) |>
          else k in
        free_region fuel (frame +₆₄ PAGE_SIZE) end_ k
      else Some k
  end.

Fixpoint init (fuel : nat) (regions : list Region) k : option (Mem D) :=
  match regions with
  | [] => Some k
  | (usable, start, end_) :: regions =>
      if negb usable then init fuel regions k
      else
        let start := Z.ldiff (start +₆₄ PAGE_SIZE -₆₄ 1) (PAGE_SIZE - 1) in
        let end_ := Z.ldiff end_ (PAGE_SIZE - 1) in
        match free_region fuel start end_ k with
        | Some k => init fuel regions k
        | None => None
        end
  end.

(** ** Page tables *)

Definition indexes (address : Z) : list Z :=
  [Z.land (Z.shiftr address 39) 511; Z.land (Z.shiftr address 30) 511;
   Z.land (Z.shiftr address 21) 511; Z.land (Z.shiftr address 12) 511].

(** Levels 4, 3 and 2 of [map_page_in]: create what is missing. *)
Fixpoint descend (user table : Z) (path : list Z) : io (Mem D) Z :=
  match path with
  | [] => mret table
  | i :: path => fun k =>
      let e := get (ram k) table i in
      if has e PRESENT then
        let k := if negb (user =? 0) && negb (has e USER)
                 then update_ram (set table i (Z.lor e USER)) k else k in
        descend user (frame_of e) path k
      else
        match allocate k with
        | (None, k) => (Err "out of physical memory", k)
        | (Some new, k) =>
            let k := update_ram (fill new PAGE_SIZE 0) k in
            let k := update_ram (set table i (Z.lor (Z.lor (Z.lor new PRESENT) WRITABLE) user)) k in
            descend user new path k
        end
  end.

Definition map_leaf (user table index virtual_address frame flags : Z) : io (Mem D) unit := fun k =>
  if has (get (ram k) table index) PRESENT then (Err "that address is already mapped", k)
  else
    let k := update_ram (set table index (Z.lor (Z.lor (frame_of frame) flags) PRESENT)) k in
    let k := if negb (user =? 0) && (virtual_address <? USER_SPACE_END)
             then k <| REPLACE := Registry.note_resident (page_of virtual_address) (REPLACE k) |> else k in
    (Ok tt, k).

Definition map_page_in (root virtual_address frame flags : Z) : io (Mem D) unit :=
  let ix := indexes virtual_address in
  let user := Z.land flags USER in
  mbind (M := io (Mem D))
    (fun table => map_leaf user table (ix !!! 3%nat) virtual_address frame flags)
    (descend user root (take 3 ix)).

Definition map_page (virtual_address frame flags : Z) : io (Mem D) unit := fun k =>
  map_page_in (read_cr3 k) virtual_address frame flags k.

(** The physical address, and the entries met on the way. *)
Fixpoint translate_walk (m : memory) (virtual_address table : Z) (level : nat) (path entries : list Z)
  : option (Z * list Z) :=
  match path with
  | [] => Some (table +₆₄ Z.land virtual_address 4095, entries)
  | i :: path =>
      let e := get m table i in
      let entries := <[level := e]> entries in
      if negb (has e PRESENT) then None
      else if (level <? 3)%nat && has e HUGE then
        let size := if (level =? 1)%nat then 1073741824 else 2097152 in
        Some (frame_of e +₆₄ Z.land virtual_address (size - 1), entries)
      else translate_walk m virtual_address (frame_of e) (S level) path entries
  end.
Definition translate_in k (root virtual_address : Z) : option (Z * list Z) :=
  translate_walk (ram k) virtual_address root 0 (indexes virtual_address) [0; 0; 0; 0].
Definition translate k (virtual_address : Z) : option (Z * list Z) :=
  translate_in k (read_cr3 k) virtual_address.

Definition table_is_empty (m : memory) (table : Z) : bool :=
  forallb (fun i => negb (has (get m table (Z.of_nat i)) PRESENT)) (seq 0 512).

(** The tables on the way down, when every entry is present. *)
Fixpoint path_tables (m : memory) (table : Z) (path : list Z) : option (list Z) :=
  match path with
  | [] => Some []
  | i :: path =>
      let e := get m table i in
      if negb (has e PRESENT) then None
      else match path_tables m (frame_of e) path with
           | Some tables => Some (table :: tables)
           | None => None
           end
  end.

(** [for level in (1..4).rev()]: free the tables that emptied, deepest first.
    [ups] pairs a table with its parent and the parent's index. *)
Fixpoint prune (ups : list (Z * Z * Z)) k : Mem D :=
  match ups with
  | [] => k
  | (table, parent, index) :: ups =>
      if negb (table_is_empty (ram k) table) then k
      else prune ups (deallocate table (update_ram (set parent index 0) k))
  end.

Definition unmap_page (virtual_address : Z) k : option Z * Mem D :=
  let ix := indexes virtual_address in
  match path_tables (ram k) (read_cr3 k) ix with
  | None => (None, k)
  | Some tables =>
      let e := get (ram k) (tables !!! 3%nat) (ix !!! 3%nat) in
      let k := update_ram (set (tables !!! 3%nat) (ix !!! 3%nat) 0) k in
      let k := prune (map (fun level => (tables !!! level, tables !!! (level - 1)%nat, ix !!! (level - 1)%nat))
                        [3%nat; 2%nat; 1%nat]) k in
      (Some (frame_of e), k)
  end.

Fixpoint release (pages : list Z) (freed : Z) k : Z * Mem D :=
  match pages with
  | [] => (freed, k)
  | page :: pages =>
      match unmap_page page k with
      | (Some frame, k) => release pages (freed +₆₄ 1) (deallocate frame k)
      | (None, k) => release pages freed k
      end
  end.

Definition top_level_map k : list (Z * Z * Z) :=
  map (fun i => (Z.of_nat i, get (ram k) (read_cr3 k) (Z.of_nat i), Z.shiftl (Z.of_nat i) 39)) (seq 0 512).

(** The last table of a walk that stops only at an absent entry. *)
Fixpoint last_table (m : memory) (table : Z) (path : list Z) : option Z :=
  match path with
  | [] => Some table
  | i :: path =>
      let e := get m table i in
      if negb (has e PRESENT) then None else last_table m (frame_of e) path
  end.

Definition set_flags (virtual_address flags : Z) : io (Mem D) unit := fun k =>
  let ix := indexes virtual_address in
  match last_table (ram k) (read_cr3 k) (take 3 ix) with
  | None => (Err "not mapped", k)
  | Some table =>
      let e := get (ram k) table (ix !!! 3%nat) in
      if negb (has e PRESENT) then (Err "not mapped", k)
      else (Ok tt, update_ram (set table (ix !!! 3%nat) (Z.lor (Z.lor (frame_of e) flags) PRESENT)) k)
  end.

Fixpoint user_walk (m : memory) (table : Z) (level : nat) (path : list Z) : bool :=
  match path with
  | [] => true
  | i :: path =>
      let e := get m table i in
      if negb (has e PRESENT) || negb (has e USER) then false
      else if (level <? 3)%nat && has e HUGE then true
      else user_walk m (frame_of e) (S level) path
  end.
Fixpoint accessible_loop (fuel : nat) k (page end_ : Z) : option bool :=
  match fuel with
  | O => None
  | S fuel =>
      if page <? end_ then
        if user_walk (ram k) (read_cr3 k) 0 (indexes page)
        then accessible_loop fuel k (page +₆₄ PAGE_SIZE) end_
        else Some false
      else Some true
  end.
Definition is_user_accessible (fuel : nat) k (address len : Z) : option bool :=
  if u64_max <? address + len then Some false
  else accessible_loop fuel k (page_of address) (address + len).

Definition leaf_entry k (root address : Z) : option Z :=
  let ix := indexes address in
  match last_table (ram k) root (take 3 ix) with
  | Some table => Some (get (ram k) table (ix !!! 3%nat))
  | None => None
  end.

Definition is_swapped_entry (e : Z) : bool := negb (has e PRESENT) && has e SWAPPED.

(** ** Sharing *)

Definition find_share (frame : Z) (l : list (Z * Z)) : option nat :=
  range_find 0 (length l) (fun i => (l !!! i).1 =? frame).

Definition share (frame : Z) k : Mem D :=
  let l := SHARED k in
  k <| SHARED := match find_share frame l with
                 | Some i => <[i := (frame, (l !!! i).2 +₃₂ 1)]> l
                 | None => l ++ [(frame, 2)]
                 end |>.

(** [Vec::swap_remove]. *)
Definition swap_remove (i : nat) (l : list (Z * Z)) : list (Z * Z) :=
  match last l with
  | Some x => removelast (<[i := x]> l)
  | None => l
  end.

(** How many owners are left. *)
Definition unshare (frame : Z) k : Z * Mem D :=
  let l := SHARED k in
  match find_share frame l with
  | Some i =>
      let left := wrap 32 ((l !!! i).2 - 1) in
      let l := <[i := (frame, left)]> l in
      (left, k <| SHARED := if left <=? 1 then swap_remove i l else l |>)
  | None => (1, k)
  end.

Definition share_count k (frame : Z) : Z :=
  match find_share frame (SHARED k) with
  | Some i => (SHARED k !!! i).2
  | None => 1
  end.
Definition is_shared k (frame : Z) : bool := 1 <? share_count k frame.

(** ** Address spaces *)

(** [for slot in 1..512 { new[slot] = current[slot] }]. *)
Definition copy_slots (current new : Z) (m : memory) : memory :=
  fold_left (fun m slot => set new (Z.of_nat slot) (get m current (Z.of_nat slot)) m) (seq 1 511) m.

Definition AddressSpace_new k : option Z * Mem D :=
  match allocate k with
  | (None, k) => (None, k)
  | (Some root, k) =>
      let k := update_ram (fill root PAGE_SIZE 0) k in
      (Some root, update_ram (copy_slots (read_cr3 k) root) k)
  end.

Definition AddressSpace_map (root virtual_address frame flags : Z) : io (Mem D) unit := fun k =>
  if USER_SPACE_END <=? virtual_address then (Err "that address belongs to the kernel", k)
  else map_page_in root virtual_address frame flags k.

(** [free_subtree]: a table of [level] (3, 2 or 1), entry by entry. *)
Fixpoint free_subtree (level : nat) (table : Z) k : Z * Mem D :=
  let step '(freed, k) index :=
    let e := get (ram k) table (Z.of_nat index) in
    if negb (has e PRESENT) then (freed, k)
    else if (level =? 1)%nat || ((1 <? level)%nat && has e HUGE) then
      let frame := frame_of e in
      if 1 <? share_count k frame then (freed, (unshare frame k).2)
      else (freed +₆₄ 1, deallocate frame k)
    else
      match level with
      | O => (freed, k)
      | S level => let '(n, k) := free_subtree level (frame_of e) k in (freed +₆₄ n, k)
      end in
  let '(freed, k) := fold_left step (seq 0 512) (0, k) in
  (freed +₆₄ 1, deallocate table k).

Definition destroy (root : Z) k : Z * Mem D :=
  let slot0 := get (ram k) root 0 in
  let '(freed, k) :=
    if has slot0 PRESENT
    then let '(freed, k) := free_subtree 3 (frame_of slot0) k in (freed, update_ram (set root 0 0) k)
    else (0, k) in
  (freed +₆₄ 1, deallocate root k).

(** The present entries of a table, with what [body] makes of each. *)
Definition table_entries {A} (m : memory) (table : Z) (skip : Z -> bool) (body : Z -> Z -> list A) : list A :=
  mjoin (map (fun i => let e := get m table (Z.of_nat i) in
                       if negb (has e PRESENT) || skip e then [] else body (Z.of_nat i) e) (seq 0 512)).

(** (address, entry, pointer) of every present page of the user half. *)
Definition user_pages (m : memory) (root : Z) : list (Z * Z * Z) :=
  let slot0 := get m root 0 in
  if negb (has slot0 PRESENT) then []
  else
    table_entries m (frame_of slot0) (fun e => has e HUGE) (fun i3 e3 =>
      table_entries m (frame_of e3) (fun e => has e HUGE) (fun i2 e2 =>
        table_entries m (frame_of e2) (fun _ => false) (fun i1 e =>
          [(Z.lor (Z.lor (Z.shiftl i3 30) (Z.shiftl i2 21)) (Z.shiftl i1 12), e, frame_of e2 + 8 * i1)]))).

(** One page of [fork]: share it, copy-on-write if it was writable. *)
Definition fork_page (child : Z) (page : Z * Z * Z) : io (Mem D) unit := fun k =>
  let '(address, e, pointer) := page in
  let frame := frame_of e in
  let flags := flags_of e in
  let shared_flags := Z.lor (clear flags WRITABLE) COW in
  let '(child_flags, k) :=
    if has flags WRITABLE
    then (shared_flags, update_ram (store 8 pointer (Z.lor frame shared_flags)) k)
    else (flags, k) in
  match map_page_in child address frame (clear child_flags PRESENT) k with
  | (Ok _, k) => (Ok tt, share frame k)
  | (Err e, k) => (Err e, k)
  | (Panic, k) => (Panic, k)
  end.

Definition fork (root : Z) k : option Z * Mem D :=
  match AddressSpace_new k with
  | (None, k) => (None, k)
  | (Some child, k) =>
      match for_each (user_pages (ram k) root) (fork_page child) k with
      | (Ok _, k) => (Some child, k)
      | (_, k) => (None, k)
      end
  end.

(** ** Swapping *)

Context `{!Disk D}.

Definition write_out (slot : nat) (frame : Z) k : result unit * Mem D :=
  let '(r, d) := disk_write (slot_lba slot) (bytes_at 4096 (ram k) frame) (DISK k) in
  let k := k <| DISK := d |> in
  match r with
  | Ok _ => (Ok tt, k <| SWAP := mkSwap (USED (SWAP k)) (EVICTIONS (SWAP k) +₆₄ 1) (FAULTS_IN (SWAP k)) |>)
  | r => (r, k)
  end.

Definition read_in (slot : nat) (frame : Z) k : result unit * Mem D :=
  let '(bytes, r, d) := disk_read (slot_lba slot) 8 (DISK k) in
  let k := update_ram (put frame bytes) (k <| DISK := d |>) in
  match r with
  | Ok _ => (Ok tt, k <| SWAP := mkSwap (USED (SWAP k)) (EVICTIONS (SWAP k)) (FAULTS_IN (SWAP k) +₆₄ 1) |>)
  | r => (r, k)
  end.

(** The set a policy sees, and the accessed bits it cleared written back. *)
Definition page_set (m : memory) (pages : list (Z * Z * Z)) : PageSet :=
  map (fun '(address, _, pointer) => (address, load 8 m pointer)) pages.
Definition write_back (pages : list (Z * Z * Z)) (set : PageSet) (m : memory) : memory :=
  fold_left (fun m '((_, _, pointer), (_, e)) => store 8 pointer e m) (zip pages set) m.

Definition evict_one (root : Z) k : option Z * Mem D :=
  let pages := user_pages (ram k) root in
  if (length pages =? 0)%nat then (None, k)
  else
    let '(victim, (set, policy)) :=
      Registry.choose_victim (is_shared k) (page_set (ram k) pages) (REPLACE k) in
    let k := update_ram (write_back pages set) (k <| REPLACE := policy |>) in
    match victim with
    | None => (None, k)
    | Some index =>
        if (length pages <=? index)%nat || negb (eligible (is_shared k) (page_set (ram k) pages) index)
        then (None, k)
        else
          let '(address, _, pointer) := pages !!! index in
          let e := load 8 (ram k) pointer in
          let frame := frame_of e in
          match allocate_slot (SWAP k) with
          | (None, swap) => (None, k <| SWAP := swap |>)
          | (Some slot, swap) =>
              match write_out slot frame (k <| SWAP := swap |>) with
              | (Ok _, k) =>
                  let out := Z.lor (Z.lor (wrap 64 (Z.shiftl (Z.of_nat slot) 12)) (clear (flags_of e) PRESENT)) SWAPPED in
                  (Some frame, update_ram (store 8 pointer out) k
                                 <| REPLACE := Registry.note_evicted address (REPLACE k) |>)
              | (_, k) => (None, k <| SWAP := free_slot slot (SWAP k) |>)
              end
          end
    end.

Definition allocate_or_evict k : option Z * Mem D :=
  match allocate k with
  | (Some frame, k) => (Some frame, k)
  | (None, k) => evict_one (read_cr3 k) k
  end.

(** ** Page faults *)

(** Levels 4 to 2 of [cow_fault] and [swap_in]. *)
Fixpoint leaf_table (m : memory) (table : Z) (path : list Z) : option Z :=
  match path with
  | [] => Some table
  | i :: path =>
      let e := get m table i in
      if negb (has e PRESENT) || has e HUGE then None else leaf_table m (frame_of e) path
  end.

Definition cow_fault (address : Z) k : bool * Mem D :=
  let page := page_of address in
  if USER_SPACE_END <=? page then (false, k)
  else
    let ix := indexes page in
    match leaf_table (ram k) (read_cr3 k) (take 3 ix) with
    | None => (false, k)
    | Some table =>
        let i := ix !!! 3%nat in
        let e := get (ram k) table i in
        if negb (has e PRESENT) || negb (has e COW) || has e WRITABLE then (false, k)
        else
          let frame := frame_of e in
          if 1 <? share_count k frame then
            let k := (unshare frame k).2 in
            match allocate_or_evict k with
            | (None, k) => (false, k)
            | (Some fresh, k) =>
                let k := update_ram (copy frame fresh PAGE_SIZE) k in
                (true, update_ram (set table i (Z.lor fresh (clear (Z.lor (flags_of e) WRITABLE) COW))) k)
            end
          else (true, update_ram (set table i (clear (Z.lor e WRITABLE) COW)) k)
    end.

(** [region] is [task::stack_region] of the current task. *)
Definition demand_fault (region : Z * Z) (address : Z) k : option Z * Mem D :=
  let '(top, limit) := region in
  if (top =? 0) || (top <=? address) then (None, k)
  else
    let page := page_of address in
    if page <? limit then (None, k)
    else
      match translate k page with
      | Some _ => (None, k)
      | None =>
          match allocate_or_evict k with
          | (None, k) => (None, k)
          | (Some frame, k) =>
              match map_page page frame (Z.lor USER WRITABLE) k with
              | (Ok _, k) =>
                  (Some page, match translate k page with
                              | Some (physical, _) => update_ram (fill physical PAGE_SIZE 0) k
                              | None => k
                              end)
              | (_, k) => (None, k)
              end
          end
      end.

Definition swap_in (address : Z) k : bool * Mem D :=
  let page := page_of address in
  let ix := indexes page in
  match leaf_table (ram k) (read_cr3 k) (take 3 ix) with
  | None => (false, k)
  | Some table =>
      let i := ix !!! 3%nat in
      let e := get (ram k) table i in
      if has e PRESENT || negb (has e SWAPPED) then (false, k)
      else
        let slot := Z.to_nat (Z.shiftr (frame_of e) 12) in
        match allocate_or_evict k with
        | (None, k) => (false, k)
        | (Some frame, k) =>
            match read_in slot frame k with
            | (Ok _, k) =>
                let k := k <| SWAP := free_slot slot (SWAP k) |> in
                let k := update_ram (set table i (Z.lor (Z.lor frame (clear (flags_of e) SWAPPED)) PRESENT)) k in
                (true, k <| REPLACE := Registry.note_resident page (REPLACE k) |>)
            | (_, k) => (false, deallocate frame k)
            end
        end
  end.

(** The part of the page-fault handler that returns to the program: is the
    fault dealt with? *)
Definition page_fault (region : Z * Z) (address error : Z) k : bool * Mem D :=
  let '(handled, k) :=
    if has error 1 && has error 2 then cow_fault address k else (false, k) in
  if handled then (true, k)
  else if negb (has error 1) then
    let '(handled, k) := swap_in address k in
    if handled then (true, k)
    else
      match demand_fault region address k with
      | (Some _, k) => (true, k)
      | (None, k) => (false, k)
      end
  else (false, k).
End memory.
