(* ===== verification/PageTables.v ===== *)
(** * The trees behind the page tables

    A walk follows present entries from a root; [shape] says that the tables
    of the user halves are reached one way each, that no free frame and no
    user page is a table, and that the free list is a list.  [map_page_in] is
    shown to do on the trees what it does to one leaf. *)

From S2P Require Import Prelude Bytes Disk Pages Replace Swap Memory.

#[local] Arguments Z.pow : simpl never.
#[local] Arguments load : simpl never.

(** ** Words of frames *)

Definition aligned (t : Z) : Prop := t mod 4096 = 0.
Definition index (i : Z) : Prop := 0 <= i < 512.
Definition u64 (v : Z) : Prop := 0 <= v < 2 ^ 64.

Lemma aligned_apart t t' : aligned t -> aligned t' -> t <> t' -> t + 4096 <= t' \/ t' + 4096 <= t.
Proof. unfold aligned. intros H H' Hne. pose proof (Z.div_mod t 4096). pose proof (Z.div_mod t' 4096). lia. Qed.

Lemma get_set m t i v t' j :
  aligned t -> aligned t' -> index i -> index j -> u64 v ->
  get (set t i v m) t' j = if decide (t = t' /\ i = j) then v else get m t' j.
Proof.
  intros Ht Ht' Hi Hj Hv. unfold get, set, index in *. case_decide as E.
  - destruct E as [-> ->]. by apply load_store.
  - apply load_store_out. destruct (decide (t = t')) as [->|Hne].
    + assert (i <> j) by tauto. lia.
    + pose proof (aligned_apart t t' Ht Ht' Hne). lia.
Qed.

Lemma get_fill m f t j :
  aligned f -> aligned t -> index j ->
  get (fill f PAGE_SIZE 0 m) t j = if decide (f = t) then 0 else get m t j.
Proof.
  intros Hf Ht Hj. unfold get, index, PAGE_SIZE in *. case_decide as E.
  - subst. apply load_fill_zero; lia.
  - apply load_ext. intros x Hx. apply fill_out. pose proof (aligned_apart f t Hf Ht E). lia.
Qed.

Lemma get_ext m m' t i :
  aligned t -> index i -> (forall x, t <= x < t + 4096 -> m' x = m x) -> get m' t i = get m t i.
Proof. intros Ht Hi H. apply load_ext. intros x Hx. apply H. unfold index in Hi. lia. Qed.

Lemma get_u64 m t i : bytes_ok m -> u64 (get m t i).
Proof. intros H. apply load_bound. done. Qed.

Lemma set_out t i v m x : index i -> ~ t <= x < t + 4096 -> set t i v m x = m x.
Proof. intros Hi Hx. apply store_out. unfold index in Hi. lia. Qed.

Lemma get_store_word m f v t j :
  aligned f -> aligned t -> index j -> u64 v ->
  get (store 8 f v m) t j = if decide (f = t /\ j = 0) then v else get m t j.
Proof.
  intros Hf Ht Hj Hv. replace (store 8 f v m) with (set f 0 v m) by (unfold set; by rewrite Z.mul_0_r, Z.add_0_r).
  rewrite get_set by (done || (unfold index; lia)). repeat case_decide; intuition congruence.
Qed.

(** ** Entries *)

Lemma land_mask_testbit e i :
  Z.testbit (frame_of e) i = Z.testbit e i && bool_decide (12 <= i < 52).
Proof.
  unfold frame_of. rewrite Z.land_spec. f_equal.
  destruct (Z.lt_ge_cases i 0); [rewrite Z.testbit_neg_r by done; symmetry; apply bool_decide_false; lia|].
  change ADDRESS_MASK with (Z.shiftl (Z.ones 40) 12). rewrite Z.shiftl_spec by done.
  destruct (Z.lt_ge_cases i 12).
  - rewrite Z.testbit_neg_r by lia. symmetry. apply bool_decide_false. lia.
  - destruct (Z.lt_ge_cases i 52).
    + rewrite Z.ones_spec_low by lia. symmetry. apply bool_decide_true. lia.
    + rewrite Z.ones_spec_high by lia. symmetry. apply bool_decide_false. lia.
Qed.

Lemma frame_of_low e : frame_of e mod 4096 = 0.
Proof.
  change 4096 with (2 ^ 12). apply Z.bits_inj'. intros i Hi. rewrite Z.bits_0.
  destruct (Z.lt_ge_cases i 12).
  - rewrite Z.mod_pow2_bits_low by done. rewrite land_mask_testbit, bool_decide_false by lia. apply andb_false_r.
  - by apply Z.mod_pow2_bits_high.
Qed.

Lemma frame_of_bound e : 0 <= frame_of e < 2 ^ 52.
Proof.
  apply in_u_bits; [lia|]. intros i Hi. rewrite land_mask_testbit, bool_decide_false by lia. apply andb_false_r.
Qed.

Lemma frame_of_aligned e : aligned (frame_of e).
Proof. apply frame_of_low. Qed.

Lemma frame_of_id f : aligned f -> 0 <= f < 2 ^ 52 -> frame_of f = f.
Proof.
  intros Ha Hb. apply Z.bits_inj'. intros i Hi. rewrite land_mask_testbit.
  destruct (decide (12 <= i < 52)); [by rewrite bool_decide_true, andb_true_r|].
  rewrite bool_decide_false, andb_false_r by done. symmetry. destruct (Z.lt_ge_cases i 12).
  - rewrite <- (Z.mod_pow2_bits_low f 12) by lia. unfold aligned in Ha. change (2 ^ 12) with 4096.
    rewrite Ha. apply Z.bits_0.
  - apply (in_u_high 52); [done|lia].
Qed.

Lemma frame_of_lor a b : frame_of (Z.lor a b) = Z.lor (frame_of a) (frame_of b).
Proof. unfold frame_of. apply Z.land_lor_distr_l. Qed.

Lemma has_lor a b f : has (Z.lor a b) f = has a f || has b f.
Proof.
  unfold has. rewrite Z.land_lor_distr_l.
  apply eq_true_iff_eq. rewrite orb_true_iff, !negb_true_iff, !Z.eqb_neq, Z.lor_eq_0_iff.
  destruct (Z.eq_dec (Z.land a f) 0); tauto.
Qed.

(** An address has no bit below twelve. *)
Lemma has_frame f b : aligned f -> 0 <= b < 12 -> has f (2 ^ b) = false.
Proof.
  intros Ha Hb. unfold has. apply negb_false_iff, Z.eqb_eq. apply Z.bits_inj'. intros i Hi.
  rewrite Z.land_spec, Z.bits_0. destruct (decide (i = b)) as [->|Hne].
  - rewrite <- (Z.mod_pow2_bits_low f 12) by lia. unfold aligned in Ha. change (2 ^ 12) with 4096.
    by rewrite Ha, Z.bits_0.
  - rewrite Z.pow2_bits_false by done. apply andb_false_r.
Qed.

Lemma has_bit e b : 0 <= b -> has e (2 ^ b) = Z.testbit e b.
Proof.
  intros Hb. unfold has. destruct (Z.testbit e b) eqn:E.
  - apply negb_true_iff, Z.eqb_neq. intros H. apply (f_equal (fun z => Z.testbit z b)) in H.
    by rewrite Z.land_spec, Z.pow2_bits_true, E, Z.bits_0 in H.
  - apply negb_false_iff, Z.eqb_eq. apply Z.bits_inj'. intros i Hi. rewrite Z.land_spec, Z.bits_0.
    destruct (decide (i = b)) as [->|Hne]; [by rewrite E|]. by rewrite Z.pow2_bits_false, andb_false_r by done.
Qed.

Lemma flags_of_testbit e i : Z.testbit (flags_of e) i = Z.testbit e i && negb (bool_decide (12 <= i < 52)).
Proof.
  destruct (Z.lt_ge_cases i 0) as [Hneg|Hi]; [by rewrite !Z.testbit_neg_r by done|].
  unfold flags_of. rewrite Z.ldiff_spec. pose proof (land_mask_testbit (Z.ones 64) i) as H. unfold frame_of in H.
  rewrite Z.land_spec in H. destruct (Z.lt_ge_cases i 64).
  - rewrite Z.ones_spec_low in H by lia. cbn [andb] in H. by rewrite H.
  - rewrite bool_decide_false by lia. rewrite (in_u_high 52 ADDRESS_MASK i); [done|unfold in_u, ADDRESS_MASK; lia|lia].
Qed.

Lemma frame_of_flags e : frame_of (flags_of e) = 0.
Proof.
  apply Z.bits_inj'. intros i Hi. rewrite land_mask_testbit, flags_of_testbit, Z.bits_0.
  by destruct (Z.testbit e i), (bool_decide _).
Qed.

Lemma frame_of_clear e b : frame_of e = 0 -> frame_of (clear e b) = 0.
Proof.
  intros H. apply Z.bits_inj'. intros i Hi. apply (f_equal (fun z => Z.testbit z i)) in H.
  rewrite land_mask_testbit, Z.bits_0 in *. unfold clear. rewrite Z.ldiff_spec.
  by destruct (Z.testbit e i), (bool_decide _), (Z.testbit b i).
Qed.

(** An entry is its frame and its flags. *)
Lemma entry_split e : Z.lor (frame_of e) (flags_of e) = e.
Proof.
  apply Z.bits_inj'. intros i Hi. rewrite Z.lor_spec, land_mask_testbit, flags_of_testbit.
  by destruct (Z.testbit e i), (bool_decide _).
Qed.

Lemma u64_lor a b : u64 a -> u64 b -> u64 (Z.lor a b).
Proof.
  intros Ha Hb. apply in_u_bits; [lia|]. intros i Hi.
  rewrite Z.lor_spec, (in_u_high 64 a i), (in_u_high 64 b i) by (done || lia). done.
Qed.

Lemma u64_land a b : u64 a -> u64 (Z.land a b).
Proof.
  intros Ha. apply in_u_bits; [lia|]. intros i Hi. by rewrite Z.land_spec, (in_u_high 64 a i) by (done || lia).
Qed.

Lemma u64_ldiff a b : u64 a -> u64 (Z.ldiff a b).
Proof.
  intros Ha. apply in_u_bits; [lia|]. intros i Hi. by rewrite Z.ldiff_spec, (in_u_high 64 a i) by (done || lia).
Qed.

Lemma u64_frame_of e : u64 (frame_of e).
Proof. pose proof (frame_of_bound e). unfold u64. lia. Qed.

(** ** Indexes *)

Lemma land_511 x : 0 <= Z.land x 511 < 512.
Proof. change 511 with (Z.ones 9). rewrite Z.land_ones by lia. apply Z.mod_pos_bound. lia. Qed.

Lemma indexes_index va : Forall index (indexes va).
Proof. repeat constructor; apply land_511. Qed.

Lemma page_of_bits va i : Z.testbit (page_of va) i = Z.testbit va i && bool_decide (~ 0 <= i < 12).
Proof.
  unfold page_of, clear. rewrite Z.ldiff_spec. f_equal. change (PAGE_SIZE - 1) with (Z.ones 12).
  destruct (Z.lt_ge_cases i 0); [rewrite Z.testbit_neg_r by done; symmetry; apply (bool_decide_true (~ 0 <= i < 12)); lia|].
  destruct (Z.lt_ge_cases i 12).
  - rewrite Z.ones_spec_low by lia. symmetry. apply bool_decide_false. lia.
  - rewrite Z.ones_spec_high by lia. symmetry. apply bool_decide_true. lia.
Qed.

(** The four indexes name the page. *)
Lemma indexes_page va va' :
  0 <= va < 2 ^ 48 -> 0 <= va' < 2 ^ 48 -> indexes va = indexes va' -> page_of va = page_of va'.
Proof.
  intros Hv Hv' [= E1 E2 E3 E4]. apply Z.bits_inj'. intros i Hi. rewrite !page_of_bits.
  destruct (decide (12 <= i)) as [Hlo|]; [|by rewrite bool_decide_false, !andb_false_r by lia].
  f_equal. destruct (Z.lt_ge_cases i 48) as [Hhi|Hhi];
    [|by rewrite (in_u_high 48 va i), (in_u_high 48 va' i) by (done || lia)].
  assert (Hb : forall s, Z.land (Z.shiftr va s) 511 = Z.land (Z.shiftr va' s) 511 -> 0 <= s -> s <= i < s + 9 ->
             Z.testbit va i = Z.testbit va' i).
  { intros s E Hs Hr. change 511 with (Z.ones 9) in E.
    pose proof (f_equal (fun z => Z.testbit z (i - s)) E) as E'. cbn beta in E'.
    rewrite !Z.land_spec, !Z.ones_spec_low, !andb_true_r, !Z.shiftr_spec in E' by lia.
    by replace (i - s + s) with i in E' by lia. }
  destruct (Z.lt_ge_cases i 21); [apply (Hb 12); [done|lia|lia]|].
  destruct (Z.lt_ge_cases i 30); [apply (Hb 21); [done|lia|lia]|].
  destruct (Z.lt_ge_cases i 39); [apply (Hb 30); [done|lia|lia]|apply (Hb 39); [done|lia|lia]].
Qed.

Lemma indexes_page_of va : 0 <= va -> indexes (page_of va) = indexes va.
Proof.
  intros Hv. unfold indexes.
  assert (E : forall s, 12 <= s -> Z.shiftr (page_of va) s = Z.shiftr va s).
  { intros s Hs. apply Z.bits_inj'. intros i Hi. rewrite !Z.shiftr_spec, page_of_bits by done.
    rewrite bool_decide_true by lia. apply andb_true_r. }
  by rewrite !E by lia.
Qed.

Lemma page_of_div va : page_of va = 4096 * (va / 4096).
Proof.
  unfold page_of, clear. change (PAGE_SIZE - 1) with (Z.ones 12).
  rewrite Z.ldiff_ones_r, Z.shiftl_mul_pow2, Z.shiftr_div_pow2 by lia. change (2 ^ 12) with 4096. lia.
Qed.

Lemma page_of_bound va : page_of va <= va < page_of va + 4096.
Proof. rewrite page_of_div. pose proof (Z.div_mod va 4096). pose proof (Z.mod_pos_bound va 4096). lia. Qed.

Lemma page_of_aligned va : aligned (page_of va).
Proof. unfold aligned. rewrite page_of_div, Z.mul_comm. by apply Z.mod_mul. Qed.

(** ** Walks *)

Definition link (e : Z) : option Z := if has e PRESENT && negb (has e HUGE) then Some (frame_of e) else None.

(** The table a path of indexes leads to. *)
Fixpoint walk (m : memory) (t : Z) (p : list Z) : option Z :=
  match p with
  | [] => Some t
  | i :: p => match link (get m t i) with Some t => walk m t p | None => None end
  end.

Lemma walk_app m t p q : walk m t (p ++ q) = match walk m t p with Some t => walk m t q | None => None end.
Proof. revert t. induction p as [|i p IH]; intros t; cbn; [done|]. destruct (link _); [apply IH|done]. Qed.

Lemma walk_snoc m t p i t' :
  walk m t (p ++ [i]) = Some t' <-> exists u, walk m t p = Some u /\ link (get m u i) = Some t'.
Proof.
  rewrite walk_app. destruct (walk m t p) as [u|]; cbn.
  - destruct (link (get m u i)) eqn:E; split; [intros [= <-]; eauto|intros (? & [= <-] & ?); congruence|done|intros (? & [= <-] & ?); congruence].
  - split; [done|by intros (? & ? & _)].
Qed.

(** Walks that meet the same links agree. *)
Lemma walk_ext m m' t p :
  (forall q i s u, p = q ++ i :: s -> walk m t q = Some u -> link (get m' u i) = link (get m u i)) ->
  walk m' t p = walk m t p.
Proof.
  revert t. induction p as [|i p IH]; intros t H; [done|]. cbn.
  rewrite (H [] i p t) by done. destruct (link (get m t i)) as [u|] eqn:E; [|done].
  apply IH. intros q j s v -> Hv. apply (H (i :: q) j s v); [done|]. cbn. by rewrite E.
Qed.

(** ** User halves *)

(** Paths to the tables of a user half: slot 0 of the root, and below. *)
Definition private (p : list Z) : Prop :=
  Forall index p /\ (length p <= 3)%nat /\ match p with i :: _ => i = 0 | [] => True end.

Definition user (va : Z) : Prop := 0 <= va < USER_SPACE_END.
Definition path (va : Z) : list Z := take 3 (indexes va).
Definition slot (va : Z) : Z := indexes va !!! 3%nat.

Lemma slot_index va : index (slot va).
Proof. apply land_511. Qed.

Lemma path_private va : user va -> private (path va).
Proof.
  intros Hv. split_and!; [|done|].
  - apply Forall_take, indexes_index.
  - cbn. unfold user, USER_SPACE_END in Hv. rewrite Z.shiftr_div_pow2 by lia.
    rewrite Z.div_small by (change (2 ^ 39) with 549755813888; lia). done.
Qed.

Lemma path_length va : length (path va) = 3%nat.
Proof. done. Qed.

Lemma path_slot va va' : user va -> user va' -> path va = path va' -> slot va = slot va' -> page_of va = page_of va'.
Proof.
  intros Hv Hv' [= E1 E2 E3] E4. unfold user, USER_SPACE_END in *.
  apply indexes_page; [change (2 ^ 48) with 281474976710656; lia..|].
  unfold slot in E4. cbn in E4. unfold indexes. by rewrite E1, E2, E3, E4.
Qed.

(** The leaf entry of a user page: zero where there is no table. *)
Definition leaf (m : memory) (r va : Z) : Z :=
  match walk m r (path va) with Some t => get m t (slot va) | None => 0 end.

(** Any path of indexes: the kernel half too. *)
Definition valid (p : list Z) : Prop := Forall index p /\ (length p <= 3)%nat.

Lemma private_valid p : private p -> valid p.
Proof. intros (H1 & H2 & _). done. Qed.

Lemma valid_snoc p i : valid (p ++ [i]) <-> valid p /\ index i /\ (length p < 3)%nat.
Proof.
  unfold valid. rewrite Forall_app, Forall_singleton, length_app. cbn.
  split; [intros ([? ?] & ?)|intros ((? & ?) & ? & ?)]; split_and!; (done || lia).
Qed.

Lemma private_init p i : private (p ++ [i]) -> private p.
Proof.
  intros (H1 & H2 & H3). rewrite length_app in H2. apply Forall_app in H1 as [H1 _].
  split_and!; [done|lia|]. by destruct p.
Qed.

Lemma path_valid va : valid (path va).
Proof. split; [apply Forall_take, indexes_index|done]. Qed.

Definition framelike (f : Z) : Prop := aligned f /\ 0 < f < 2 ^ 52.

(** [roots] are the level-4 tables in use, [fl] the free frames. *)
Record shape (m : memory) (roots fl : list Z) : Prop := {
  sh_bytes : bytes_ok m;
  sh_roots r : r ∈ roots -> framelike r;
  sh_inj r r' p q t : r ∈ roots -> r' ∈ roots -> private p -> valid q ->
    walk m r p = Some t -> walk m r' q = Some t -> r = r' /\ p = q;
  sh_small r p i t : r ∈ roots -> private (p ++ [i]) -> walk m r p = Some t ->
    has (get m t i) PRESENT = true -> has (get m t i) HUGE = false;
  sh_nodup : NoDup fl;
  sh_free f : f ∈ fl -> framelike f;
  sh_free_walk f r p : f ∈ fl -> r ∈ roots -> valid p -> walk m r p <> Some f;
  sh_leaf r va : r ∈ roots -> user va -> has (leaf m r va) PRESENT = true ->
    (frame_of (leaf m r va) ∉ fl) /\
    forall r' q, r' ∈ roots -> valid q -> walk m r' q <> Some (frame_of (leaf m r va));
  sh_pos r p t : r ∈ roots -> private p -> walk m r p = Some t -> 0 < t
}.

Lemma link_aligned e t : link e = Some t -> aligned t.
Proof. unfold link. destruct (_ && _); [|done]. intros [= <-]. apply frame_of_aligned. Qed.

Lemma walk_aligned m t p u : aligned t -> walk m t p = Some u -> aligned u.
Proof.
  revert t. induction p as [|i p IH]; intros t Ht; cbn; [by intros [= <-]|].
  destruct (link _) as [v|] eqn:E; [|done]. apply IH. by apply (link_aligned _ _ E).
Qed.

Lemma shape_walk_aligned m roots fl r p t : shape m roots fl -> r ∈ roots -> walk m r p = Some t -> aligned t.
Proof. intros Hs Hr. apply walk_aligned. apply (sh_roots _ _ _ Hs r Hr). Qed.

(** The free list. *)
Fixpoint chain (m : memory) (h : Z) (fl : list Z) : Prop :=
  match fl with
  | [] => h = 0
  | f :: fl => h = f /\ chain m (load 8 m f) fl
  end.

Lemma chain_ext m m' h fl :
  (forall f, f ∈ fl -> load 8 m' f = load 8 m f) -> chain m h fl -> chain m' h fl.
Proof.
  revert h. induction fl as [|f fl IH]; intros h H; [done|]. intros [-> Hc]. split; [done|].
  rewrite H by left. apply IH; [|done]. intros g Hg. apply H. by right.
Qed.

(** *** Setting a leaf *)

Section set_leaf.
Context (m : memory) (roots fl : list Z) (r0 va0 t0 v : Z).
Context (Hs : shape m roots fl) (Hr0 : r0 ∈ roots) (Hu : user va0).
Context (Hw : walk m r0 (path va0) = Some t0) (Hv : u64 v).

Let m' := set t0 (slot va0) v m.

Lemma t0_aligned : aligned t0.
Proof using Hs Hr0 Hw. by apply (shape_walk_aligned m roots fl r0 (path va0)). Qed.

Lemma set_leaf_get t i :
  aligned t -> index i -> get m' t i = if decide (t0 = t /\ slot va0 = i) then v else get m t i.
Proof using Hs Hr0 Hw Hv. intros Ht Hi. apply get_set; [apply t0_aligned|done|apply slot_index|done|done]. Qed.

Lemma set_leaf_walk r p : r ∈ roots -> valid p -> walk m' r p = walk m r p.
Proof using Hs Hr0 Hw Hv Hu.
  intros Hr Hp. apply walk_ext. intros q i s u -> Hq. f_equal.
  destruct Hp as [Hi Hl]. apply Forall_app in Hi as [Hiq [Hi _]%Forall_cons].
  rewrite length_app in Hl. cbn in Hl.
  rewrite set_leaf_get by (done || by apply (shape_walk_aligned m roots fl r q)).
  rewrite decide_False; [done|]. intros [-> _].
  destruct (sh_inj _ _ _ Hs r0 r (path va0) q u Hr0 Hr (path_private _ Hu)) as [_ E]; [split; [done|lia]|done|done|].
  subst q. cbn in Hl. lia.
Qed.

Lemma set_leaf_same : leaf m' r0 va0 = v.
Proof using Hs Hr0 Hw Hv Hu.
  unfold leaf. rewrite set_leaf_walk by (done || apply path_valid). rewrite Hw.
  rewrite set_leaf_get by (apply t0_aligned || apply slot_index). by rewrite decide_True.
Qed.

Lemma set_leaf_other r va : r ∈ roots -> user va -> ~ (r = r0 /\ page_of va = page_of va0) -> leaf m' r va = leaf m r va.
Proof using Hs Hr0 Hw Hv Hu.
  intros Hr Hva Hne. unfold leaf. rewrite set_leaf_walk by (done || apply path_valid).
  destruct (walk m r (path va)) as [t|] eqn:E; [|done].
  rewrite set_leaf_get by (apply slot_index || by apply (shape_walk_aligned m roots fl r (path va))).
  rewrite decide_False; [done|]. intros [-> Hsl]. apply Hne.
  destruct (sh_inj _ _ _ Hs r0 r (path va0) (path va) t Hr0 Hr (path_private _ Hu) (path_valid _) Hw E) as [-> Ep].
  split; [done|]. symmetry. by apply path_slot.
Qed.

Lemma set_leaf_shape :
  (has v PRESENT = true -> (frame_of v ∉ fl) /\ forall r q, r ∈ roots -> valid q -> walk m r q <> Some (frame_of v)) ->
  shape m' roots fl.
Proof using Hs Hr0 Hw Hv Hu.
  intros Hdata. pose proof Hs as []. constructor; try done.
  - by apply store_ok.
  - intros r r' p q t Hr Hr' Hp Hq. rewrite !set_leaf_walk by (done || by apply private_valid). by apply sh_inj0.
  - intros r p i t Hr Hp. rewrite set_leaf_walk by (done || by apply private_valid, (private_init p i)).
    intros E. rewrite set_leaf_get.
    + rewrite decide_False; [by apply (sh_small0 r p)|]. intros [-> _].
      pose proof (private_valid _ (private_init _ _ Hp)) as Hpv.
      destruct (sh_inj0 r0 r (path va0) p t Hr0 Hr (path_private _ Hu) Hpv Hw E) as [_ <-].
      destruct Hp as (_ & Hl & _). rewrite length_app in Hl. cbn in Hl. lia.
    + by apply (shape_walk_aligned m roots fl r p).
    + apply private_valid, valid_snoc in Hp. tauto.
  - intros f r p Hf Hr Hp. rewrite set_leaf_walk by done. by apply sh_free_walk0.
  - intros r va Hr Hva. destruct (decide (r = r0 /\ page_of va = page_of va0)) as [[-> Epg]|Hne].
    + assert (leaf m' r0 va = v) as ->.
      { rewrite <- set_leaf_same. unfold leaf, path, slot.
        rewrite <- (indexes_page_of va), <- (indexes_page_of va0), Epg by (unfold user in *; lia). done. }
      intros Hpres. destruct (Hdata Hpres) as [H1 H2]. split; [done|]. intros r' q Hr' Hq.
      rewrite set_leaf_walk by done. by apply H2.
    + rewrite set_leaf_other by done. intros Hpres. destruct (sh_leaf0 r va Hr Hva Hpres) as [H1 H2].
      split; [done|]. intros r' q Hr' Hq. rewrite set_leaf_walk by done. by apply H2.
  - intros r p t Hr Hp. rewrite set_leaf_walk by (done || by apply private_valid). by apply sh_pos0.
Qed.
End set_leaf.

(** *** Widening a link *)

Section relink.
Context (m : memory) (roots fl : list Z) (r0 : Z) (q0 : list Z) (i0 t0 v : Z).
Context (Hs : shape m roots fl) (Hr0 : r0 ∈ roots) (Hp0 : private (q0 ++ [i0])).
Context (Hw : walk m r0 q0 = Some t0) (Hv : u64 v).
Context (Hlink : link v = link (get m t0 i0)).
Context (Hhuge : has v HUGE = false).

Let m' := set t0 i0 v m.

Lemma relink_get t i :
  aligned t -> index i -> get m' t i = if decide (t0 = t /\ i0 = i) then v else get m t i.
Proof using Hs Hr0 Hw Hv Hp0.
  intros Ht Hi. apply get_set; try done; [by apply (shape_walk_aligned m roots fl r0 q0)|].
  apply private_valid, valid_snoc in Hp0. tauto.
Qed.

Lemma relink_walk r p : r ∈ roots -> valid p -> walk m' r p = walk m r p.
Proof using Hs Hr0 Hw Hv Hp0 Hlink.
  intros Hr [Hp _]. apply walk_ext. intros q i s u -> Hq.
  apply Forall_app in Hp as [_ [Hi _]%Forall_cons].
  rewrite relink_get by (done || by apply (shape_walk_aligned m roots fl r q)).
  case_decide as E; [|done]. destruct E as [-> ->]. done.
Qed.

Lemma relink_leaf r va : r ∈ roots -> user va -> leaf m' r va = leaf m r va.
Proof using Hs Hr0 Hw Hv Hp0 Hlink.
  intros Hr Hva. unfold leaf. rewrite relink_walk by (done || apply path_valid).
  destruct (walk m r (path va)) as [t|] eqn:E; [|done].
  rewrite relink_get by (apply slot_index || by apply (shape_walk_aligned m roots fl r (path va))).
  rewrite decide_False; [done|]. intros [-> _].
  destruct (sh_inj _ _ _ Hs r0 r q0 (path va) t Hr0 Hr (private_init _ _ Hp0) (path_valid _) Hw E) as [_ ->].
  destruct Hp0 as (_ & Hl & _). rewrite length_app in Hl. cbn in Hl. lia.
Qed.

Lemma relink_shape : shape m' roots fl.
Proof using Hs Hr0 Hw Hv Hp0 Hlink Hhuge.
  pose proof Hs as []. constructor; try done.
  - by apply store_ok.
  - intros r r' p q t Hr Hr' Hp Hq. rewrite !relink_walk by (done || by apply private_valid). by apply sh_inj0.
  - intros r p i t Hr Hp. rewrite relink_walk by (done || by apply private_valid, (private_init p i)).
    intros E. rewrite relink_get.
    + case_decide; [done|]. by apply (sh_small0 r p).
    + by apply (shape_walk_aligned m roots fl r p).
    + apply private_valid, valid_snoc in Hp. tauto.
  - intros f r p Hf Hr Hp. rewrite relink_walk by done. by apply sh_free_walk0.
  - intros r va Hr Hva. rewrite relink_leaf by done. intros H. destruct (sh_leaf0 r va Hr Hva H) as [H1 H2].
    split; [done|]. intros r' q Hr' Hq. rewrite relink_walk by done. by apply H2.
  - intros r p t Hr Hp. rewrite relink_walk by (done || by apply private_valid). by apply sh_pos0.
Qed.
End relink.

(** *** Adding a table *)

Section install.
Context (m : memory) (roots fl : list Z) (r0 : Z) (q0 : list Z) (i0 t0 v new : Z).
Context (Hs : shape m roots (new :: fl)) (Hr0 : r0 ∈ roots) (Hp0 : private (q0 ++ [i0])).
Context (Hw : walk m r0 q0 = Some t0) (Hv : u64 v).
Context (Habs : has (get m t0 i0) PRESENT = false) (Hlink : link v = Some new).
Context (Hhuge : has v HUGE = false).

Let m' := set t0 i0 v (fill new PAGE_SIZE 0 m).

Lemma install_new : framelike new.
Proof using Hs. apply (sh_free _ _ _ Hs). left. Qed.

Lemma install_get t i :
  aligned t -> index i ->
  get m' t i = if decide (t0 = t /\ i0 = i) then v else if decide (new = t) then 0 else get m t i.
Proof using Hs Hr0 Hw Hv Hp0.
  intros Ht Hi. unfold m'. rewrite get_set; try done.
  - case_decide; [done|]. apply get_fill; [apply install_new|done|done].
  - by apply (shape_walk_aligned m roots (new :: fl) r0 q0).
  - apply private_valid, valid_snoc in Hp0. tauto.
Qed.

Lemma install_not_new r p t : r ∈ roots -> valid p -> walk m r p = Some t -> new <> t.
Proof using Hs.
  intros Hr Hp E <-. apply (sh_free_walk _ _ _ Hs new r p); [left|done..].
Qed.

(** Walks only grow, and only by the new table. *)
Lemma install_walk_old r p t : r ∈ roots -> valid p -> walk m r p = Some t -> walk m' r p = Some t.
Proof using Hs Hr0 Hw Hv Hp0 Habs.
  intros Hr. revert t. induction p as [|i p IH] using rev_ind; intros t Hp; [done|].
  apply valid_snoc in Hp as (Hp & Hi & _). intros (u & Hu & El)%walk_snoc. apply walk_snoc.
  exists u. split; [by apply IH|]. rewrite install_get; [|by apply (shape_walk_aligned m roots (new :: fl) r p)|done].
  rewrite decide_False.
  - by rewrite decide_False by (by eapply install_not_new).
  - intros [-> ->]. unfold link in El. by rewrite Habs in El.
Qed.

Lemma install_walk r p t : r ∈ roots -> valid p -> walk m' r p = Some t ->
  walk m r p = Some t \/ (r = r0 /\ p = q0 ++ [i0] /\ t = new).
Proof using Hs Hr0 Hw Hv Hp0 Habs Hlink.
  intros Hr. revert t. induction p as [|i p IH] using rev_ind; intros t Hp; [by left|].
  apply valid_snoc in Hp as (Hp & Hi & _). intros (u & Hu & El)%walk_snoc.
  assert (Hua : aligned u) by (eapply walk_aligned; [|exact Hu]; apply (sh_roots _ _ _ Hs r Hr)).
  rewrite install_get in El by done. destruct (IH u Hp Hu) as [E|(-> & -> & ->)].
  - case_decide as E0.
    + destruct E0 as [-> ->]. rewrite Hlink in El. injection El as <-. right.
      destruct (sh_inj _ _ _ Hs r0 r q0 p u Hr0 Hr (private_init _ _ Hp0) Hp Hw E) as [-> ->]. done.
    + rewrite decide_False in El by (by eapply install_not_new). left. apply walk_snoc. eauto.
  - exfalso. rewrite decide_False in El.
    + by rewrite decide_True in El.
    + intros [E _]. apply (install_not_new r0 q0 t0 Hr0 (private_valid _ (private_init _ _ Hp0)) Hw). done.
Qed.

Lemma install_walk_new : walk m' r0 (q0 ++ [i0]) = Some new.
Proof using Hs Hr0 Hw Hv Hp0 Habs Hlink.
  pose proof (proj1 (valid_snoc _ _) (private_valid _ Hp0)) as (Hq & Hi & _).
  apply walk_snoc. exists t0. split; [by apply install_walk_old|].
  rewrite install_get by (done || by apply (shape_walk_aligned m roots (new :: fl) r0 q0)). by rewrite decide_True.
Qed.

Lemma install_leaf r va : r ∈ roots -> user va -> leaf m' r va = leaf m r va.
Proof using Hs Hr0 Hw Hv Hp0 Habs Hlink.
  intros Hr Hva. unfold leaf. destruct (walk m r (path va)) as [t|] eqn:E.
  - rewrite (install_walk_old r (path va) t) by (done || apply path_valid).
    rewrite install_get by (apply slot_index || by apply (shape_walk_aligned m roots (new :: fl) r (path va))).
    rewrite !decide_False; [done|by eapply install_not_new; [|apply path_valid|]|].
    intros [-> _]. destruct (sh_inj _ _ _ Hs r0 r q0 (path va) t Hr0 Hr (private_init _ _ Hp0) (path_valid _) Hw E) as [_ ->].
    destruct Hp0 as (_ & Hl & _). rewrite length_app in Hl. cbn in Hl. lia.
  - destruct (walk m' r (path va)) as [t|] eqn:E'; [|done].
    destruct (install_walk r (path va) t Hr (path_valid _) E') as [E2|(-> & Ep & ->)]; [congruence|].
    rewrite install_get by (apply slot_index || apply install_new).
    rewrite decide_False; [by rewrite decide_True|]. intros [E2 _].
    apply (install_not_new r0 q0 t0 Hr0 (private_valid _ (private_init _ _ Hp0)) Hw). done.
Qed.

Lemma install_shape : shape m' roots fl.
Proof using Hs Hr0 Hw Hv Hp0 Habs Hlink Hhuge.
  pose proof Hs as []. apply NoDup_cons in sh_nodup0 as [Hnin Hnd]. constructor; try done.
  - apply store_ok, fill_ok; [unfold is_byte; lia|done].
  - intros r r' p q t Hr Hr' Hp Hq E E'.
    apply install_walk in E as [E|(-> & -> & ->)]; [| |done|by apply private_valid];
      (apply install_walk in E' as [E'|(-> & -> & ?)]; [| |done|done]).
    + by apply (sh_inj0 r r' p q t).
    + subst t. exfalso. eapply install_not_new; [exact Hr|by apply private_valid|exact E|done].
    + exfalso. eapply install_not_new; [exact Hr'|exact Hq|exact E'|done].
    + done.
  - intros r p i t Hr Hp E. pose proof (proj1 (valid_snoc _ _) (private_valid _ Hp)) as (Hpv & Hi & _).
    rewrite install_get; [|eapply walk_aligned; [|exact E]; by apply sh_roots0|done].
    apply install_walk in E as [E|(-> & -> & ->)]; [| |done|done].
    + case_decide; [done|]. case_decide; [done|]. by apply (sh_small0 r p).
    + case_decide; [done|]. by rewrite decide_True.
  - intros f Hf. apply sh_free0. by right.
  - intros f r p Hf Hr Hp E. apply install_walk in E as [E|(-> & -> & ->)]; [| |done|done].
    + apply (sh_free_walk0 f r p); [by right|done..].
    + done.
  - intros r va Hr Hva. rewrite install_leaf by done. intros H. destruct (sh_leaf0 r va Hr Hva H) as [H1 H2].
    apply not_elem_of_cons in H1 as [H1 H3]. split; [done|].
    intros r' q Hr' Hq E. apply install_walk in E as [E|(-> & -> & E)]; [| |done|done].
    + by apply (H2 r' q).
    + done.
  - intros r p t Hr Hp E. apply install_walk in E as [E|(_ & _ & ->)]; [by apply (sh_pos0 r p)|apply install_new|done|by apply private_valid].
Qed.
End install.

(** ** Growing the trees *)

Definition table_byte (m : memory) (roots : list Z) (x : Z) : Prop :=
  exists r p t, r ∈ roots /\ private p /\ walk m r p = Some t /\ t <= x < t + 4096.
Definition free_byte (fl : list Z) (x : Z) : Prop := exists f, f ∈ fl /\ f <= x < f + 4096.

Section grow.
Context {D : Type}.
Implicit Types k : Mem D.

(** The state with its trees and its free list. *)
Record sound k (roots fl : list Z) : Prop := {
  so_shape : shape (ram k) roots fl;
  so_chain : chain (ram k) (head (ALLOCATOR k)) fl;
  so_count : free (ALLOCATOR k) = Z.of_nat (length fl) /\ Z.of_nat (length fl) < 2 ^ 52
}.

(** What the page tables and the allocator are not. *)
Definition rest k := (SHARED k, CR3 k, NO_EXECUTE_ACTIVE k, REPLACE k, SWAP k, DISK k).

(** From [k] to [k'], tables were added out of the free list. *)
Record grows (roots : list Z) k fl k' fl' : Prop := {
  g_sound : sound k' roots fl';
  g_used : exists used, fl = used ++ fl';
  g_leaf r va : r ∈ roots -> user va -> leaf (ram k') r va = leaf (ram k) r va;
  g_walk r p t : r ∈ roots -> valid p -> walk (ram k) r p = Some t -> walk (ram k') r p = Some t;
  g_ram x : ~ table_byte (ram k) roots x -> ~ free_byte fl x -> ram k' x = ram k x;
  g_back r p t : r ∈ roots -> valid p -> walk (ram k') r p = Some t -> walk (ram k) r p = Some t \/ t ∈ fl;
  g_rest : rest k' = rest k
}.

Lemma g_table roots k fl k' fl' x :
  grows roots k fl k' fl' -> table_byte (ram k') roots x -> table_byte (ram k) roots x \/ free_byte fl x.
Proof.
  intros Hg (r & p & t & Hr & Hp & E & Hx).
  destruct (g_back _ _ _ _ _ Hg r p t Hr (private_valid _ Hp) E); [left; by exists r, p, t|right; by exists t].
Qed.

Lemma grows_refl roots k fl : sound k roots fl -> grows roots k fl k fl.
Proof. intros H. constructor; try done; [by exists []|by left]. Qed.

Lemma free_byte_app l1 l2 x : free_byte (l1 ++ l2) x <-> free_byte l1 x \/ free_byte l2 x.
Proof.
  unfold free_byte. setoid_rewrite elem_of_app. split; [intros (f & [?|?] & ?); [left|right]; eauto|].
  intros [(f & ? & ?)|(f & ? & ?)]; exists f; tauto.
Qed.

Lemma grows_trans roots k fl k1 fl1 k2 fl2 :
  grows roots k fl k1 fl1 -> grows roots k1 fl1 k2 fl2 -> grows roots k fl k2 fl2.
Proof.
  intros G1 G2. pose proof (fun x => g_table _ _ _ _ _ x G1) as T1.
  destruct G1 as [S1 [u1 ->] L1 W1 R1 B1 E1], G2 as [S2 [u2 ->] L2 W2 R2 B2 E2]. constructor.
  - done.
  - exists (u1 ++ u2). by rewrite app_assoc.
  - intros r va Hr Hva. by rewrite L2, L1.
  - intros r p t Hr Hp E. by apply W2, W1.
  - intros x Hx Hf. rewrite R2, R1; [done|done|done| |].
    + intros Ht. destruct (T1 x Ht); tauto.
    + intros Hf'. apply Hf. rewrite free_byte_app. tauto.
  - intros r p t Hr Hp E. destruct (B2 r p t Hr Hp E) as [E'|Hf]; [by apply B1|]. right. apply elem_of_app. by right.
  - by rewrite E2.
Qed.

Lemma chain_head_word m h fl : Forall framelike fl -> chain m h fl -> u64 h.
Proof. intros Hf. destruct fl as [|f fl]; [intros ->; unfold u64; lia|]. intros [-> _]. apply Forall_cons in Hf as [[_ ?] _]. unfold u64. lia. Qed.

Lemma sound_chain_nonzero k roots f fl : sound k roots (f :: fl) -> head (ALLOCATOR k) = f /\ f <> 0.
Proof.
  intros [Hs [E _] _]. split; [done|]. destruct (sh_free _ _ _ Hs f) as [_ ?]; [left|lia].
Qed.

Lemma allocate_None k roots : sound k roots [] -> allocate k = (None, k).
Proof. intros [_ Hc _]. cbn in Hc. unfold allocate. by rewrite Hc. Qed.

Lemma allocate_Some k roots f fl :
  sound k roots (f :: fl) ->
  exists k', allocate k = (Some f, k') /\ ram k' = ram k /\ rest k' = rest k /\
    chain (ram k') (head (ALLOCATOR k')) fl /\ free (ALLOCATOR k') = Z.of_nat (length fl).
Proof.
  intros Hs. pose proof (sound_chain_nonzero _ _ _ _ Hs) as [E Hne]. destruct Hs as [_ [_ Hc] [Hn Hb]].
  unfold allocate. rewrite E. rewrite (proj2 (Z.eqb_neq f 0)) by done. eexists. split_and!; try done.
  cbn [ALLOCATOR free set_field set_ALLOCATOR]. rewrite Hn. cbn [length] in *.
  rewrite wrap_small by (unfold in_u; lia). lia.
Qed.

Lemma framelike_word f : framelike f -> u64 f.
Proof. intros [_ ?]. unfold u64. lia. Qed.

Lemma free_list_ext k k' roots fl :
  shape (ram k') roots fl -> chain (ram k) (head (ALLOCATOR k)) fl -> ALLOCATOR k' = ALLOCATOR k ->
  free (ALLOCATOR k) = Z.of_nat (length fl) -> Z.of_nat (length fl) < 2 ^ 52 ->
  (forall f, f ∈ fl -> load 8 (ram k') f = load 8 (ram k) f) -> sound k' roots fl.
Proof.
  intros Hs Hc E Hn Hb Hm. constructor; [done| |by rewrite E]. rewrite E. by apply (chain_ext (ram k)).
Qed.

(** Writing a word of a table leaves the free list alone. *)
Lemma load_free_set m roots fl r p t i v f :
  shape m roots fl -> r ∈ roots -> valid p -> walk m r p = Some t -> index i -> f ∈ fl ->
  load 8 (set t i v m) f = load 8 m f.
Proof.
  intros Hs Hr Hp E Hi Hf. apply load_ext. intros x Hx. apply set_out; [done|].
  pose proof (sh_free _ _ _ Hs f Hf) as [Hfa _]. pose proof (shape_walk_aligned _ _ _ _ _ _ Hs Hr E) as Hta.
  assert (t <> f) by (intros ->; by apply (sh_free_walk _ _ _ Hs f r p)).
  pose proof (aligned_apart t f Hta Hfa ltac:(done)). lia.
Qed.

Lemma new_table_link new u :
  framelike new -> u = 0 \/ u = USER ->
  let v := Z.lor (Z.lor (Z.lor new PRESENT) WRITABLE) u in u64 v /\ link v = Some new /\ has v HUGE = false.
Proof.
  intros [Ha Hb] Hu. cbn zeta. split.
  { repeat apply u64_lor; [unfold u64; lia|unfold u64, PRESENT; lia|unfold u64, WRITABLE; lia|].
    destruct Hu as [->| ->]; unfold u64, USER; lia. }
  assert (Hh : has (Z.lor (Z.lor (Z.lor new PRESENT) WRITABLE) u) HUGE = false).
  { rewrite !has_lor. change HUGE with (2 ^ 7). rewrite has_frame by (done || lia). by destruct Hu as [->| ->]. }
  split; [|done]. unfold link. rewrite Hh. rewrite !has_lor.
  assert (has PRESENT PRESENT = true) as -> by done. rewrite orb_true_r. cbn [orb andb negb].
  f_equal. rewrite !frame_of_lor, (frame_of_id new) by (done || lia).
  assert (frame_of PRESENT = 0) as -> by done. assert (frame_of WRITABLE = 0) as -> by done.
  assert (frame_of u = 0) as -> by (by destruct Hu as [->| ->]). by rewrite !Z.lor_0_r.
Qed.

Lemma widen_link e : has e PRESENT = true -> u64 e ->
  link (Z.lor e USER) = link e /\ has (Z.lor e USER) HUGE = has e HUGE /\ u64 (Z.lor e USER).
Proof.
  intros Hp Hu. split_and!.
  - unfold link. rewrite !has_lor. assert (has USER PRESENT = false) as -> by done.
    assert (has USER HUGE = false) as -> by done. rewrite !orb_false_r, frame_of_lor.
    assert (frame_of USER = 0) as -> by done. by rewrite Z.lor_0_r.
  - rewrite has_lor. assert (has USER HUGE = false) as -> by done. by rewrite orb_false_r.
  - apply u64_lor; [done|unfold u64, USER; lia].
Qed.

Lemma table_bytes m roots r p t x :
  r ∈ roots -> private p -> walk m r p = Some t -> t <= x < t + 4096 -> table_byte m roots x.
Proof. intros. by exists r, p, t. Qed.

Lemma grow_widen k roots fl r q i t :
  sound k roots fl -> r ∈ roots -> private (q ++ [i]) -> (walk (ram k) r q = Some t) ->
  has (get (ram k) t i) PRESENT = true ->
  grows roots k fl (update_ram (set t i (Z.lor (get (ram k) t i) USER)) k) fl.
Proof.
  intros Hso Hr Hp Hw Hpr. pose proof Hso as [Hs Hc [Hn Hb]].
  pose proof (get_u64 (ram k) t i (sh_bytes _ _ _ Hs)) as Hu.
  destruct (widen_link _ Hpr Hu) as (Hl & Hh & Hu').
  assert (Hhuge : has (Z.lor (get (ram k) t i) USER) HUGE = false) by (rewrite Hh; by apply (sh_small _ _ _ Hs r q)).
  pose proof (proj1 (valid_snoc _ _) (private_valid _ Hp)) as (Hq & Hi & _).
  pose proof (relink_shape (ram k) roots fl r q i t _ Hs Hr Hp Hw Hu' Hl Hhuge) as Hs'.
  constructor; cbn [ram update_ram set_field set_ram].
  - eapply (free_list_ext k); try done. intros f Hf. by apply (load_free_set (ram k) roots fl r q).
  - by exists [].
  - intros r' va Hr' Hva. by apply (relink_leaf (ram k) roots fl r q).
  - intros r' p t' Hr' Hp' E. by rewrite (relink_walk (ram k) roots fl r q).
  - intros x Hx _. apply set_out; [done|]. intros Ht. apply Hx. eapply table_bytes; [exact Hr|by eapply private_init|exact Hw|done].
  - intros r' p t' Hr' Hp' E. left. rewrite <- E. symmetry. by apply (relink_walk (ram k) roots fl r q).
  - done.
Qed.

Lemma grow_install k roots new fl r q i t u k1 :
  sound k roots (new :: fl) -> r ∈ roots -> private (q ++ [i]) -> walk (ram k) r q = Some t ->
  has (get (ram k) t i) PRESENT = false -> u = 0 \/ u = USER -> allocate k = (Some new, k1) ->
  let v := Z.lor (Z.lor (Z.lor new PRESENT) WRITABLE) u in
  let k' := update_ram (set t i v) (update_ram (fill new PAGE_SIZE 0) k1) in
  grows roots k (new :: fl) k' fl /\ walk (ram k') r (q ++ [i]) = Some new.
Proof.
  intros Hso Hr Hp Hw Habs Hu Ea v k'. pose proof Hso as [Hs Hc [Hn Hb]].
  destruct (allocate_Some _ _ _ _ Hso) as (k2 & Ea' & Eram & Erest & Hc2 & Hn2).
  rewrite Ea in Ea'. injection Ea' as <-.
  pose proof (sh_free _ _ _ Hs new ltac:(left)) as Hnew.
  destruct (new_table_link new u Hnew Hu) as (Hv & Hl & Hh).
  pose proof (proj1 (valid_snoc _ _) (private_valid _ Hp)) as (Hq & Hi & _).
  assert (Er : ram k' = set t i v (fill new PAGE_SIZE 0 (ram k))) by (unfold k'; cbn [ram update_ram set_field set_ram]; by rewrite Eram).
  pose proof (install_shape (ram k) roots fl r q i t v new Hs Hr Hp Hw Hv Habs Hl Hh) as Hs'. rewrite <- Er in Hs'.
  pose proof (shape_walk_aligned _ _ _ _ _ _ Hs Hr Hw) as Hta.
  split; [constructor|].
  - eapply (free_list_ext k1); try done; [cbn [length] in Hb; lia|].
    intros f Hf. rewrite Er, Eram. pose proof (sh_free _ _ _ Hs f ltac:(by right)) as [Hfa _].
    apply load_ext. intros x Hx. rewrite set_out, fill_out; [done| |done|].
    + assert (new <> f) by (intros ->; pose proof (sh_nodup _ _ _ Hs) as [Hnin _]%NoDup_cons; by apply Hnin).
      pose proof (aligned_apart new f (proj1 Hnew) Hfa ltac:(done)). unfold PAGE_SIZE. lia.
    + assert (t <> f) by (intros ->; apply (sh_free_walk _ _ _ Hs f r q); [by right|done..]).
      pose proof (aligned_apart t f Hta Hfa ltac:(done)). lia.
  - by exists [new].
  - intros r' va Hr' Hva. rewrite Er. by apply (install_leaf (ram k) roots fl r q).
  - intros r' p t' Hr' Hp' E. rewrite Er. by apply (install_walk_old (ram k) roots fl r q).
  - intros x Hx Hf. rewrite Er, set_out, fill_out; [done| |done|].
    + intros H. apply Hf. exists new. split; [left|exact H].
    + intros H. apply Hx. eapply table_bytes; [exact Hr|by eapply private_init|exact Hw|done].
  - intros r' p t' Hr' Hp' E. rewrite Er in E.
    apply (install_walk (ram k) roots fl r q i t v new) in E as [E|(-> & -> & ->)]; try done; [by left|right; left].
  - unfold rest in *. by rewrite <- Erest.
  - rewrite Er. by apply (install_walk_new (ram k) roots fl r q).
Qed.

Lemma user_flag flags : Z.land flags USER = 0 \/ Z.land flags USER = USER.
Proof.
  change USER with (2 ^ 2). destruct (Z.testbit flags 2) eqn:E; [right|left]; apply Z.bits_inj'; intros i Hi;
    rewrite Z.land_spec; destruct (decide (i = 2)) as [->|]; rewrite ?Z.pow2_bits_true, ?E, ?Z.bits_0 by lia; try done;
    rewrite Z.pow2_bits_false by done; apply andb_false_r.
Qed.

Lemma descend_spec flags k roots fl r q s t :
  sound k roots fl -> r ∈ roots -> private (q ++ s) -> walk (ram k) r q = Some t ->
  exists res k' fl', descend (Z.land flags USER) t s k = (res, k') /\ grows roots k fl k' fl' /\
    match res with
    | Ok t' => walk (ram k') r (q ++ s) = Some t'
    | Err e => e = "out of physical memory"%string /\ fl' = []
    | Panic => False
    end.
Proof.
  intros Hso Hr. revert k fl q t Hso. induction s as [|i s IH]; intros k fl q t Hso Hp Hw.
  { exists (Ok t), k, fl. split; [done|]. split; [by apply grows_refl|]. by rewrite app_nil_r. }
  assert (Eq : q ++ i :: s = (q ++ [i]) ++ s) by (by rewrite <- app_assoc). rewrite Eq in *.
  assert (Hpi : private (q ++ [i])).
  { destruct Hp as (H1 & H2 & H3). rewrite length_app in H2. apply Forall_app in H1 as [H1 _]. split_and!; [done|lia|].
    by destruct q. }
  pose proof (user_flag flags) as Hu. cbn [descend].
  destruct (has (get (ram k) t i) PRESENT) eqn:Epr.
  - set (k1 := if _ && _ then _ else k).
    assert (Hg : grows roots k fl k1 fl).
    { unfold k1. case_match; [by apply (grow_widen k roots fl r q)|by apply grows_refl]. }
    assert (Hw1 : walk (ram k1) r (q ++ [i]) = Some (frame_of (get (ram k) t i))).
    { apply (g_walk _ _ _ _ _ Hg); [done|by apply private_valid|]. apply walk_snoc. exists t. split; [done|].
      unfold link. rewrite Epr. by rewrite (sh_small _ _ _ (so_shape _ _ _ Hso) r q). }
    destruct (IH k1 fl (q ++ [i]) _ (g_sound _ _ _ _ _ Hg) Hp Hw1) as (res & k' & fl' & E & Hg' & Hres).
    exists res, k', fl'. split; [done|]. split; [by eapply grows_trans|done].
  - destruct fl as [|new fl].
    + rewrite (allocate_None k roots) by done. exists (Err "out of physical memory"), k, [].
      split; [done|]. split; [by apply grows_refl|done].
    + destruct (allocate_Some _ _ _ _ Hso) as (k1 & Ea & _). rewrite Ea.
      destruct (grow_install k roots new fl r q i t _ k1 Hso Hr Hpi Hw Epr Hu Ea) as [Hg Hw1].
      destruct (IH _ fl (q ++ [i]) new (g_sound _ _ _ _ _ Hg) Hp Hw1) as (res & k' & fl' & E & Hg' & Hres).
      exists res, k', fl'. split; [done|]. split; [by eapply grows_trans|done].
Qed.

(** ** What mapping does *)

(** A frame that may be mapped: neither free nor a table. *)
Definition mappable (m : memory) (roots fl : list Z) (f : Z) : Prop :=
  (f ∉ fl) /\ forall r p, r ∈ roots -> valid p -> walk m r p <> Some f.

Lemma grows_mappable roots k fl k' fl' f :
  grows roots k fl k' fl' -> mappable (ram k) roots fl f -> mappable (ram k') roots fl' f.
Proof.
  intros Hg [H1 H2]. destruct (g_used _ _ _ _ _ Hg) as [used ->]. rewrite elem_of_app in H1. split; [tauto|].
  intros r p Hr Hp E. destruct (g_back _ _ _ _ _ Hg r p f Hr Hp E) as [E'|Hf]; [by apply (H2 r p)|].
  apply elem_of_app in Hf. tauto.
Qed.

Lemma indexes_split va : indexes va = path va ++ [slot va].
Proof. done. Qed.

(** Only the leaf of one user page differs. *)
Record remapped (roots : list Z) (r va v : Z) k k' fl fl' : Prop := {
  rm_sound : sound k' roots fl';
  rm_used : exists used, fl = used ++ fl';
  rm_leaf : leaf (ram k') r va = v;
  rm_other r' va' : r' ∈ roots -> user va' -> ~ (r' = r /\ page_of va' = page_of va) ->
    leaf (ram k') r' va' = leaf (ram k) r' va';
  rm_ram x : ~ table_byte (ram k) roots x -> ~ free_byte fl x -> ram k' x = ram k x;
  rm_walk r' p t : r' ∈ roots -> valid p -> walk (ram k) r' p = Some t -> walk (ram k') r' p = Some t;
  rm_back r' p t : r' ∈ roots -> valid p -> walk (ram k') r' p = Some t -> walk (ram k) r' p = Some t \/ t ∈ fl
}.

Lemma set_leaf_remapped roots r va v t k fl :
  sound k roots fl -> r ∈ roots -> user va -> walk (ram k) r (path va) = Some t -> u64 v ->
  (has v PRESENT = true -> mappable (ram k) roots fl (frame_of v)) ->
  remapped roots r va v k (update_ram (set t (slot va) v) k) fl fl.
Proof.
  intros Hso Hr Hva Hw Hv Hmap. pose proof Hso as [Hs Hc [Hn Hb]].
  constructor; cbn [ram update_ram set_field set_ram].
  - eapply (free_list_ext k); try done.
    + by apply (set_leaf_shape _ _ _ r va).
    + intros f Hf. apply (load_free_set (ram k) roots fl r (path va)); (done || apply path_valid || apply slot_index).
  - by exists [].
  - by apply (set_leaf_same _ roots fl).
  - intros. by apply (set_leaf_other _ roots fl r va).
  - intros x Hx _. apply set_out; [apply slot_index|]. intros H. apply Hx.
    eapply table_bytes; [exact Hr|by apply path_private|exact Hw|done].
  - intros r' p t' Hr' Hp E. rewrite <- E. by apply (set_leaf_walk _ roots fl r va).
  - intros r' p t' Hr' Hp E. left. rewrite <- E. symmetry. by apply (set_leaf_walk _ roots fl r va).
Qed.

Lemma grows_remapped roots r va v k fl k1 fl1 k2 fl2 :
  grows roots k fl k1 fl1 -> remapped roots r va v k1 k2 fl1 fl2 -> remapped roots r va v k k2 fl fl2.
Proof.
  intros G [S2 [u2 E2] L2 O2 R2 W2 B2]. pose proof (fun x => g_table _ _ _ _ _ x G) as T1.
  destruct G as [S1 [u1 ->] L1 W1 R1 B1 _]. subst fl1. constructor.
  - done.
  - exists (u1 ++ u2). by rewrite app_assoc.
  - done.
  - intros r' va' Hr Hva Hne. by rewrite O2, L1.
  - intros x Hx Hf. rewrite free_byte_app in Hf. rewrite R2, R1; [done|done|rewrite free_byte_app; tauto| |tauto].
    intros Ht. destruct (T1 x Ht) as [?|H]; [tauto|]. rewrite free_byte_app in H. tauto.
  - intros r' p t Hr' Hp E. by apply W2, W1.
  - intros r' p t Hr' Hp E. destruct (B2 r' p t Hr' Hp E) as [E'|Hf]; [by apply B1|]. right. apply elem_of_app. by right.
Qed.

(** The entry [map_page_in] writes. *)
Definition new_leaf (frame flags : Z) : Z := Z.lor (Z.lor (frame_of frame) flags) PRESENT.

Lemma new_leaf_u64 frame flags : u64 flags -> u64 (new_leaf frame flags).
Proof. intros H. repeat apply u64_lor; [apply u64_frame_of|done|unfold u64, PRESENT; lia]. Qed.

Lemma new_leaf_present frame flags : has (new_leaf frame flags) PRESENT = true.
Proof. unfold new_leaf. rewrite has_lor. apply orb_true_r. Qed.

Lemma frame_of_idem e : frame_of (frame_of e) = frame_of e.
Proof. apply frame_of_id; [apply frame_of_aligned|apply frame_of_bound]. Qed.

Lemma new_leaf_frame frame flags : frame_of flags = 0 -> frame_of (new_leaf frame flags) = frame_of frame.
Proof.
  intros H. unfold new_leaf. rewrite !frame_of_lor, H, frame_of_idem.
  assert (frame_of PRESENT = 0) as -> by done. by rewrite !Z.lor_0_r.
Qed.

Lemma map_page_spec r va frame flags k roots fl :
  sound k roots fl -> r ∈ roots -> user va -> u64 flags -> frame_of flags = 0 ->
  mappable (ram k) roots fl (frame_of frame) ->
  exists res k' fl', map_page_in r va frame flags k = (res, k') /\
    match res with
    | Ok _ => has (leaf (ram k) r va) PRESENT = false /\
        remapped roots r va (new_leaf frame flags) k k' fl fl' /\
        SHARED k' = SHARED k /\ CR3 k' = CR3 k /\ NO_EXECUTE_ACTIVE k' = NO_EXECUTE_ACTIVE k
    | Err e => grows roots k fl k' fl' /\
        (e = "that address is already mapped"%string /\ has (leaf (ram k) r va) PRESENT = true \/
         e = "out of physical memory"%string /\ fl' = [])
    | Panic => False
    end.
Proof.
  intros Hso Hr Hva Hf Hff Hmap. unfold map_page_in.
  change (take 3 (indexes va)) with (path va). change (indexes va !!! 3%nat) with (slot va).
  destruct (descend_spec flags k roots fl r [] (path va) r Hso Hr (path_private va Hva) eq_refl)
    as (res & k1 & fl1 & E & Hg & Hres). cbn [app] in Hres.
  unfold mbind, io_bind. rewrite E. destruct res as [t|e|]; [|exists (Err e), k1, fl1; split; [done|]; split; [done|by right]|done].
  pose proof (g_sound _ _ _ _ _ Hg) as Hso1. unfold map_leaf.
  assert (El : leaf (ram k1) r va = get (ram k1) t (slot va)) by (unfold leaf; by rewrite Hres).
  rewrite <- El, (g_leaf _ _ _ _ _ Hg) by done.
  destruct (has (leaf (ram k) r va) PRESENT) eqn:Ep.
  { exists (Err "that address is already mapped"%string), k1, fl1. split; [done|]. split; [done|by left]. }
  pose proof (g_rest _ _ _ _ _ Hg) as Er. unfold rest in Er. injection Er as Esh Ecr Enx _ _ _.
  assert (Hrm : remapped roots r va (new_leaf frame flags) k (update_ram (set t (slot va) (new_leaf frame flags)) k1) fl fl1).
  { eapply grows_remapped; [exact Hg|]. apply set_leaf_remapped; try done; [by apply new_leaf_u64|].
    intros _. rewrite new_leaf_frame by done. by eapply grows_mappable. }
  eexists (Ok tt), _, fl1. split; [done|]. split; [done|]. fold (new_leaf frame flags).
  case_match; [|done]. split; [|done]. destruct Hrm as [[] ? ? ? ? ? ?]. by constructor.
Qed.

(** ** Translation *)

Lemma low_bits va : Z.land va 4095 = va mod 4096.
Proof. change 4095 with (Z.ones 12). by rewrite Z.land_ones by lia. Qed.

(** A user address translates by its leaf. *)
Lemma translate_leaf k roots fl r va :
  sound k roots fl -> r ∈ roots -> user va ->
  fst <$> translate_in k r va =
    if has (leaf (ram k) r va) PRESENT then Some (frame_of (leaf (ram k) r va) + va mod 4096) else None.
Proof.
  intros [Hs _ _] Hr Hva. unfold translate_in. rewrite indexes_split.
  assert (Hg : forall q s t level entries,
    path va = q ++ s -> walk (ram k) r q = Some t -> (level + length s = 3)%nat ->
    fst <$> translate_walk (ram k) va t level (s ++ [slot va]) entries =
      match walk (ram k) t s with
      | Some t => if has (get (ram k) t (slot va)) PRESENT
                  then Some (frame_of (get (ram k) t (slot va)) + va mod 4096) else None
      | None => None
      end).
  { intros q s. revert q. induction s as [|i s IH]; intros q t level entries Ep Hw Hl; cbn [app translate_walk walk].
    - destruct (has (get _ _ _) PRESENT) eqn:E; cbn [negb]; [|done].
      cbn in Hl. rewrite (proj2 (Nat.ltb_ge level 3)) by lia. cbn [andb fmap option_fmap option_map fst].
      rewrite low_bits. f_equal. apply wrap_small. pose proof (frame_of_bound (get (ram k) t (slot va))).
      pose proof (Z.mod_pos_bound va 4096). unfold in_u. lia.
    - pose proof (path_private va Hva) as Hp. rewrite Ep in Hp.
      assert (Hpi : private (q ++ [i])).
      { rewrite (cons_middle i q s), app_assoc in Hp. destruct Hp as (H1 & H2 & H3). rewrite length_app in H2.
        apply Forall_app in H1 as [H1 _]. split_and!; [done|lia|]. by destruct q. }
      unfold link. destruct (has (get (ram k) t i) PRESENT) eqn:E; cbn [negb andb]; [|done].
      assert (Hh : has (get (ram k) t i) HUGE = false) by (by apply (sh_small _ _ _ Hs r q)).
      rewrite Hh, andb_false_r. cbn [negb]. apply (IH (q ++ [i])).
      + by rewrite <- app_assoc.
      + apply walk_snoc. exists t. split; [done|]. unfold link. by rewrite E, Hh.
      + cbn in Hl. lia. }
  rewrite (Hg [] (path va) r 0%nat) by done. unfold leaf. destruct (walk (ram k) r (path va)); [done|].
  by assert (has 0 PRESENT = false) as -> by done.
Qed.

Lemma leaf_page m r va va' : 0 <= va -> 0 <= va' -> page_of va = page_of va' -> leaf m r va = leaf m r va'.
Proof.
  intros H H' E. unfold leaf, path, slot. rewrite <- (indexes_page_of va), <- (indexes_page_of va'), E by done. done.
Qed.
End grow.

(** C19: mapping a page maps that page and nothing else.  On success every
    address of the page translates into the frame and the entry is the one
    asked for; on every outcome all other user pages, of this address space
    and of every other one, translate as before, the free list is still a
    list disjoint from the tables, and a refusal changes no translation. *)
Theorem map_page_maps_one_page {D} (k : Mem D) roots fl r va frame flags :
  sound k roots fl -> r ∈ roots -> user va -> u64 flags -> frame_of flags = 0 ->
  mappable (ram k) roots fl (frame_of frame) ->
  exists res k' fl', map_page_in r va frame flags k = (res, k') /\ sound k' roots fl' /\
    (forall r' va', r' ∈ roots -> user va' -> ~ (r' = r /\ page_of va' = page_of va) ->
       fst <$> translate_in k' r' va' = fst <$> translate_in k r' va') /\
    match res with
    | Ok _ => leaf (ram k') r va = Z.lor (Z.lor (frame_of frame) flags) PRESENT /\
        forall va', user va' -> page_of va' = page_of va ->
          fst <$> translate_in k' r va' = Some (frame_of frame + va' mod 4096)
    | Err e =>
        (forall va', user va' -> fst <$> translate_in k' r va' = fst <$> translate_in k r va') /\
        (e = "that address is already mapped"%string /\ has (leaf (ram k) r va) PRESENT = true \/
         e = "out of physical memory"%string /\ fl' = [])
    | Panic => False
    end.
Proof.
  intros Hso Hr Hva Hf Hff Hmap.
  destruct (map_page_spec r va frame flags k roots fl Hso Hr Hva Hf Hff Hmap) as (res & k' & fl' & E & Hres).
  exists res, k', fl'. split; [done|]. destruct res as [u|e|]; [|destruct Hres as [Hg He]|done].
  - destruct Hres as (_ & Hrm & _). pose proof (rm_sound _ _ _ _ _ _ _ _ Hrm) as Hso'.
    pose proof (rm_leaf _ _ _ _ _ _ _ _ Hrm) as Hl. split_and!; try done.
    + intros r' va' Hr' Hva' Hne. rewrite (translate_leaf k' roots fl'), (translate_leaf k roots fl) by done.
      by rewrite (rm_other _ _ _ _ _ _ _ _ Hrm).
    + intros va' Hva' Epg. rewrite (translate_leaf k' roots fl') by done. unfold user in *.
      rewrite (leaf_page (ram k') r va' va), Hl, new_leaf_present, new_leaf_frame by (done || lia). done.
  - pose proof (g_sound _ _ _ _ _ Hg) as Hso'.
    assert (Ht : forall r' va', r' ∈ roots -> user va' -> fst <$> translate_in k' r' va' = fst <$> translate_in k r' va').
    { intros r' va' Hr' Hva'. rewrite (translate_leaf k' roots fl'), (translate_leaf k roots fl) by done.
      by rewrite (g_leaf _ _ _ _ _ Hg). }
    split_and!; [done|by intros; apply Ht| |done]. intros va' Hva'. by apply Ht.
Qed.
