(* ===== verification/Spaces.v ===== *)
(** * Address spaces: making one, reading and writing through one

    [AddressSpace::new] adds a root with an empty user half; what a program
    sees of its space is a function of the leaves and of the bytes of the
    frames they name; [user_pages] lists the leaves that are present. *)

From S2P Require Import Prelude Bytes Disk Pages Replace Swap Memory PageTables.

#[local] Arguments Z.pow : simpl never.
#[local] Arguments load : simpl never.

(** ** Writing to memory that is neither table nor free *)

(** The bytes of every table, the kernel's too. *)
Definition any_table_byte (m : memory) (roots : list Z) (x : Z) : Prop :=
  exists r p t, r ∈ roots /\ valid p /\ walk m r p = Some t /\ t <= x < t + 4096.

Section data.
Context (m m' : memory) (roots fl : list Z).
Context (Hs : shape m roots fl) (Hok : bytes_ok m').
Context (Htab : forall x, any_table_byte m roots x -> m' x = m x).

Lemma data_get r p t i : r ∈ roots -> valid p -> walk m r p = Some t -> index i -> get m' t i = get m t i.
Proof using Hs Htab.
  intros Hr Hp E Hi. apply get_ext; [by eapply shape_walk_aligned|done|].
  intros x Hx. apply Htab. by exists r, p, t.
Qed.

Lemma data_walk r p : r ∈ roots -> valid p -> walk m' r p = walk m r p.
Proof using Hs Htab.
  intros Hr Hp. apply walk_ext. intros q i s u -> Hq. f_equal.
  destruct Hp as [Hi Hl]. apply Forall_app in Hi as [Hiq [Hi _]%Forall_cons].
  rewrite length_app in Hl. cbn in Hl. apply (data_get r q); try done. split; [done|lia].
Qed.

Lemma data_leaf r va : r ∈ roots -> leaf m' r va = leaf m r va.
Proof using Hs Htab.
  intros Hr. unfold leaf. rewrite data_walk by (done || apply path_valid).
  destruct (walk m r (path va)) as [t|] eqn:E; [|done].
  apply (data_get r (path va)); [done|apply path_valid|done|apply slot_index].
Qed.

Lemma data_shape : shape m' roots fl.
Proof using Hs Htab Hok.
  pose proof Hs as []. constructor; try done.
  - intros r r' p q t Hr Hr' Hp Hq. rewrite !data_walk by (done || by apply private_valid). by apply sh_inj.
  - intros r p i t Hr Hp. pose proof (proj1 (valid_snoc _ _) (private_valid _ Hp)) as (Hpv & Hi & _).
    rewrite data_walk by done. intros E. rewrite (data_get r p t i) by done. by apply (sh_small r p).
  - intros f r p Hf Hr Hp. rewrite data_walk by done. by apply sh_free_walk.
  - intros r va Hr Hva. rewrite data_leaf by done. intros H. destruct (sh_leaf r va Hr Hva H) as [H1 H2].
    split; [done|]. intros r' q Hr' Hq. rewrite data_walk by done. by apply H2.
  - intros r p t Hr Hp. rewrite data_walk by (done || by apply private_valid). by apply sh_pos.
Qed.
End data.

(** A frame that is not a table has none of its bytes in one. *)
Lemma not_table_byte m roots fl f x :
  shape m roots fl -> aligned f -> (forall r p, r ∈ roots -> valid p -> walk m r p <> Some f) ->
  f <= x < f + 4096 -> ~ any_table_byte m roots x.
Proof.
  intros Hs Hf Hn Hx (r & p & t & Hr & Hp & E & Ht).
  assert (t <> f) by (intros ->; by apply (Hn r p)).
  pose proof (aligned_apart t f (shape_walk_aligned _ _ _ _ _ _ Hs Hr E) Hf ltac:(done)). lia.
Qed.

Lemma private_any m roots x : table_byte m roots x -> any_table_byte m roots x.
Proof. intros (r & p & t & Hr & Hp & E & Hx). exists r, p, t. split_and!; try done; [by apply private_valid|lia|lia]. Qed.

Lemma not_free_byte m roots fl f x :
  shape m roots fl -> aligned f -> f ∉ fl -> f <= x < f + 4096 -> ~ free_byte fl x.
Proof.
  intros Hs Hf Hn Hx (g & Hg & Hgx). assert (g <> f) by (intros ->; done).
  pose proof (aligned_apart g f (proj1 (sh_free _ _ _ Hs g Hg)) Hf ltac:(done)). lia.
Qed.

(** ** What a program sees *)

Section view.
Context {D : Type}.
Implicit Types k : Mem D.

Definition view k (r va : Z) : option Z :=
  let e := leaf (ram k) r va in
  if has e PRESENT then Some (ram k (frame_of e + va mod 4096)) else None.

Lemma leaf_mappable k roots fl r va :
  shape (ram k) roots fl -> r ∈ roots -> user va -> has (leaf (ram k) r va) PRESENT = true ->
  mappable (ram k) roots fl (frame_of (leaf (ram k) r va)).
Proof. intros Hs Hr Hva Hp. by apply (sh_leaf _ _ _ Hs). Qed.

(** A page whose leaf stays, and whose frame is not written, looks the same. *)
Lemma view_ext k k' r va :
  leaf (ram k') r va = leaf (ram k) r va ->
  (has (leaf (ram k) r va) PRESENT = true ->
     ram k' (frame_of (leaf (ram k) r va) + va mod 4096) = ram k (frame_of (leaf (ram k) r va) + va mod 4096)) ->
  view k' r va = view k r va.
Proof. intros E H. unfold view. rewrite E. case_match; [by rewrite H|done]. Qed.

Lemma page_byte f va : f <= f + va mod 4096 < f + 4096.
Proof. pose proof (Z.mod_pos_bound va 4096). lia. Qed.

Lemma remapped_view roots r va v k k' fl fl' r' va' :
  remapped roots r va v k k' fl fl' -> shape (ram k) roots fl ->
  r' ∈ roots -> user va' -> ~ (r' = r /\ page_of va' = page_of va) -> view k' r' va' = view k r' va'.
Proof.
  intros Hrm Hs Hr Hva Hne. apply view_ext; [by apply (rm_other _ _ _ _ _ _ _ _ Hrm)|]. intros Hp.
  pose proof (leaf_mappable k roots fl r' va' Hs Hr Hva Hp) as [Hf Hw].
  pose proof (page_byte (frame_of (leaf (ram k) r' va')) va') as Hx.
  apply (rm_ram _ _ _ _ _ _ _ _ Hrm).
  - intros Ht. by apply (not_table_byte _ _ _ _ _ Hs (frame_of_aligned _) Hw Hx), private_any.
  - by apply (not_free_byte (ram k) roots fl (frame_of (leaf (ram k) r' va'))); [|apply frame_of_aligned|..].
Qed.

(** ** A new space *)

Lemma copy_slots_get cur new m t j :
  aligned cur -> aligned new -> cur <> new -> aligned t -> index j -> bytes_ok m ->
  get (copy_slots cur new m) t j = if decide (t = new /\ 1 <= j) then get m cur j else get m t j.
Proof.
  intros Hc Hn Hne Ht Hj Hb. unfold copy_slots.
  assert (H : forall n, (n <= 511)%nat ->
    let m' := fold_left (fun m slot => set new (Z.of_nat slot) (get m cur (Z.of_nat slot)) m) (seq 1 n) m in
    bytes_ok m' /\ forall t j, aligned t -> index j ->
      get m' t j = if decide (t = new /\ 1 <= j < 1 + Z.of_nat n) then get m cur j else get m t j).
  { induction n as [|n IH]; intros Hle m'.
    - split; [done|]. intros u i Hu Hi. rewrite decide_False by lia. done.
    - destruct (IH ltac:(lia)) as [Hb' IHg]. unfold m' in *. rewrite seq_S, fold_left_app. cbn [fold_left].
      set (m1 := fold_left _ (seq 1 n) m) in *. split; [by apply store_ok|]. intros u i Hu Hi.
      assert (Hin : index (Z.of_nat (1 + n))) by (unfold index; lia).
      rewrite get_set by (done || by apply get_u64). rewrite !IHg by done.
      rewrite (decide_False (P := cur = new /\ _)) by tauto.
      destruct (decide (new = u /\ Z.of_nat (1 + n) = i)) as [[<- <-]|Hd].
      + rewrite decide_True by lia. done.
      + repeat case_decide; try done; exfalso; [|lia].
        apply Hd. split; [by destruct H|]. lia. }
  destruct (H 511%nat ltac:(lia)) as [_ Hg]. rewrite Hg by done. unfold index in Hj.
  repeat case_decide; (done || lia).
Qed.

Lemma copy_slots_ok cur new m : bytes_ok m -> bytes_ok (copy_slots cur new m).
Proof.
  unfold copy_slots. generalize (seq 1 511). intros l. revert m.
  induction l as [|i l IH]; intros m Hb; [done|]. cbn. apply IH. by apply store_ok.
Qed.

Lemma copy_slots_out cur new m x : ~ new <= x < new + 4096 -> copy_slots cur new m x = m x.
Proof.
  intros Hx. unfold copy_slots.
  assert (Hl : forall i, i ∈ seq 1 511 -> index (Z.of_nat i)) by (intros i [? ?]%elem_of_seq; unfold index; lia).
  revert Hl. generalize (seq 1 511). intros l. revert m. induction l as [|i l IH]; intros m Hl; [done|]. cbn.
  rewrite IH by (intros j Hj; apply Hl; by right). apply set_out; [apply Hl; left|done].
Qed.

End view.

#[local] Opaque copy_slots.

(** *** The tree of a new space

    [r] is a free frame, zeroed and given the kernel half of [c]. *)
Section new_space.
Context (m : memory) (roots fl : list Z) (r c : Z).
Context (Hs : shape m roots (r :: fl)) (Hc : c ∈ roots).

Let m' := copy_slots c r (fill r PAGE_SIZE 0 m).

Lemma new_root : framelike r.
Proof using Hs. apply (sh_free _ _ _ Hs). left. Qed.

Lemma new_root_fresh r' p : r' ∈ roots -> valid p -> walk m r' p <> Some r.
Proof using Hs. intros Hr Hp. apply (sh_free_walk _ _ _ Hs); [left|done..]. Qed.

Lemma new_root_not_in : r ∉ roots.
Proof using Hs. intros Hin. by apply (new_root_fresh r [] Hin); [split; [constructor|cbn; lia]|]. Qed.

Lemma new_get t i : aligned t -> index i ->
  get m' t i = if decide (t = r) then (if decide (1 <= i) then get m c i else 0) else get m t i.
Proof using Hs Hc.
  intros Ht Hi. pose proof new_root as [Hra _]. pose proof (sh_roots _ _ _ Hs c Hc) as [Hca _].
  assert (Hcr : c <> r) by (intros ->; by apply new_root_not_in).
  assert (Hb : bytes_ok (fill r PAGE_SIZE 0 m)) by (apply fill_ok; [unfold is_byte; lia|apply Hs]).
  unfold m'. rewrite (copy_slots_get c r _ t i Hca Hra Hcr Ht Hi Hb).
  rewrite (get_fill m r c i Hra Hca Hi), (get_fill m r t i Hra Ht Hi).
  rewrite (decide_False (P := r = c)) by congruence.
  destruct (decide (t = r)) as [->|Hne].
  - destruct (decide (1 <= i)); [by rewrite decide_True|]. rewrite decide_False by tauto. by rewrite decide_True.
  - rewrite decide_False by tauto. by rewrite decide_False by congruence.
Qed.

Lemma new_out x : ~ r <= x < r + 4096 -> m' x = m x.
Proof using Type. intros Hx. unfold m'. rewrite copy_slots_out by exact Hx. by apply fill_out. Qed.

Lemma new_walk_old r' p : r' ∈ roots -> valid p -> walk m' r' p = walk m r' p.
Proof using Hs Hc.
  intros Hr' Hp. apply walk_ext. intros q i s u -> Hq. f_equal.
  destruct Hp as [Hi Hl]. apply Forall_app in Hi as [Hiq [Hi _]%Forall_cons].
  rewrite length_app in Hl. cbn in Hl. rewrite new_get; [|by eapply shape_walk_aligned|done].
  rewrite decide_False; [done|]. intros ->. apply (new_root_fresh r' q); [done|split; [done|lia]|done].
Qed.

Lemma new_leaf_old r' va : r' ∈ roots -> user va -> leaf m' r' va = leaf m r' va.
Proof using Hs Hc.
  intros Hr' Hva. unfold leaf. rewrite new_walk_old by (done || apply path_valid).
  destruct (walk m r' (path va)) as [t|] eqn:E; [|done].
  rewrite new_get; [|by eapply shape_walk_aligned|apply slot_index]. rewrite decide_False; [done|].
  intros ->. apply (new_root_fresh r' (path va)); [done|apply path_valid|done].
Qed.

(** From the new root, the walks are those of [c] through the kernel half. *)
Lemma new_walk_new p t : valid p -> walk m' r p = Some t ->
  (p = [] /\ t = r) \/ (exists i p', p = i :: p' /\ 1 <= i /\ walk m c p = Some t).
Proof using Hs Hc.
  destruct p as [|i p]; intros Hv; [by intros [= <-]; left|]. pose proof Hv as [Hp Hl].
  apply Forall_cons in Hp as [Hi Hp]. cbn [walk].
  pose proof new_root as [Hra _]. pose proof (sh_roots _ _ _ Hs c Hc) as [Hca _].
  rewrite (new_get r i Hra Hi), decide_True by done. case_decide as H1; [|done].
  destruct (link (get m c i)) as [u|] eqn:El; [|done]. intros E. right. exists i, p. split_and!; [done|done|].
  pose proof (new_walk_old c (i :: p) Hc Hv) as E2. cbn [walk] in E2. rewrite (new_get c i Hca Hi) in E2.
  rewrite decide_False in E2 by (intros ->; by apply new_root_not_in). rewrite El in E2. by rewrite <- E2.
Qed.

Lemma new_walk_private p t : private p -> walk m' r p = Some t -> p = [] /\ t = r.
Proof using Hs Hc.
  intros Hp E. destruct (new_walk_new p t (private_valid _ Hp) E) as [?|(i & p' & -> & Hi & _)]; [done|].
  destruct Hp as (_ & _ & ->). lia.
Qed.

Lemma new_leaf_new va : user va -> leaf m' r va = 0.
Proof using Hs Hc.
  intros Hva. unfold leaf. destruct (walk m' r (path va)) as [t|] eqn:E; [|done].
  destruct (new_walk_private _ _ (path_private va Hva) E) as [Ep _]. by apply (f_equal length) in Ep.
Qed.

Lemma new_walk_not_root r' q : r' ∈ roots -> valid q -> walk m' r' q <> Some r.
Proof using Hs Hc. intros Hr' Hq. rewrite new_walk_old by done. by apply new_root_fresh. Qed.

Lemma new_inj r1 r2 p q t : r1 ∈ r :: roots -> r2 ∈ r :: roots -> private p -> valid q ->
  walk m' r1 p = Some t -> walk m' r2 q = Some t -> r1 = r2 /\ p = q.
Proof using Hs Hc.
  intros H1 H2 Hp Hq E1 E2. pose proof (private_valid _ Hp) as Hpv.
  apply elem_of_cons in H1 as [->|H1]; [destruct (new_walk_private p t Hp E1) as [-> ->]|].
  - apply elem_of_cons in H2 as [->|H2]; [|by destruct (new_walk_not_root r2 q H2 Hq)].
    destruct (new_walk_new q r Hq E2) as [[-> _]|(i & q' & _ & _ & E)]; [done|]. by destruct (new_root_fresh c q Hc Hq).
  - rewrite new_walk_old in E1 by done. apply elem_of_cons in H2 as [->|H2].
    + destruct (new_walk_new q t Hq E2) as [[-> ->]|(i & q' & Eq & Hi & E)]; [by destruct (new_root_fresh r1 p H1 Hpv)|].
      destruct (sh_inj _ _ _ Hs r1 c p q t H1 Hc Hp Hq E1 E) as [_ ->]. subst q. destruct Hp as (_ & _ & ->). lia.
    + rewrite new_walk_old in E2 by done. by apply (sh_inj _ _ _ Hs r1 r2 p q t).
Qed.

Lemma new_walk_elim (P : Z -> Prop) r1 q t :
  r1 ∈ r :: roots -> valid q -> walk m' r1 q = Some t ->
  P r -> (forall r2, r2 ∈ roots -> walk m r2 q = Some t -> P t) -> P t.
Proof using Hs Hc.
  intros H1 Hq E Hr Hold. apply elem_of_cons in H1 as [->|H1].
  - destruct (new_walk_new q t Hq E) as [[_ ->]|(i & q' & _ & _ & E')]; [done|by apply (Hold c)].
  - rewrite new_walk_old in E by done. by apply (Hold r1).
Qed.

Lemma new_shape : shape m' (r :: roots) fl.
Proof using Hs Hc.
  pose proof (sh_nodup _ _ _ Hs) as [Hrfl Hnd]%NoDup_cons. constructor.
  - apply copy_slots_ok, fill_ok; [unfold is_byte; lia|apply Hs].
  - intros r' [->|Hr']%elem_of_cons; [apply new_root|by apply (sh_roots _ _ _ Hs)].
  - apply new_inj.
  - intros r1 p i t H1 Hp E. pose proof (proj1 (valid_snoc _ _) (private_valid _ Hp)) as (Hpv & Hi & _).
    apply elem_of_cons in H1 as [->|H1].
    + destruct (new_walk_private p t (private_init _ _ Hp) E) as [-> ->].
      destruct Hp as (_ & _ & ->). rewrite new_get; [|apply new_root|done].
      rewrite decide_True, decide_False by (done || lia). done.
    + rewrite new_walk_old in E by done. rewrite new_get; [|by eapply shape_walk_aligned|done].
      rewrite decide_False; [by apply (sh_small _ _ _ Hs r1 p)|]. intros ->. by destruct (new_root_fresh r1 p H1 Hpv).
  - done.
  - intros f Hf. apply (sh_free _ _ _ Hs). by right.
  - intros f r1 p Hf H1 Hp E. apply (new_walk_elim (fun t => t ∉ fl) r1 p f H1 Hp E); [done| |done].
    intros r2 H2 E2 _. apply (sh_free_walk _ _ _ Hs f r2 p); [by right|done..].
  - intros r1 va H1 Hva. apply elem_of_cons in H1 as [->|H1]; [by rewrite new_leaf_new|].
    rewrite new_leaf_old by done. intros Hp. destruct (sh_leaf _ _ _ Hs r1 va H1 Hva Hp) as [Hnf Hnw].
    apply not_elem_of_cons in Hnf as [Hnr Hnf]. split; [done|]. intros r2 q H2 Hq E.
    apply (new_walk_elim (fun t => t <> frame_of (leaf m r1 va)) r2 q _ H2 Hq E); [congruence| |done].
    intros r3 H3 E3 _. by apply (Hnw r3 q).
  - intros r1 p t [->|H1]%elem_of_cons Hp E; [destruct (new_walk_private p t Hp E) as [_ ->]; apply new_root|].
    rewrite new_walk_old in E by (done || by apply private_valid). by apply (sh_pos _ _ _ Hs r1 p).
Qed.
End new_space.

Lemma ram_update {D} f (k : Mem D) : ram (update_ram f k) = f (ram k).
Proof. done. Qed.
Lemma allocator_update {D} f (k : Mem D) : ALLOCATOR (update_ram f k) = ALLOCATOR k.
Proof. done. Qed.
Lemma rest_update {D} f (k : Mem D) : rest (update_ram f k) = rest k.
Proof. done. Qed.
Lemma read_cr3_update {D} f (k : Mem D) : read_cr3 (update_ram f k) = read_cr3 k.
Proof. done. Qed.

Lemma new_space_spec {D} (k : Mem D) roots fl :
  sound k roots fl -> read_cr3 k ∈ roots ->
  match AddressSpace_new k with
  | (None, k') => fl = [] /\ k' = k
  | (Some r, k') => exists fl', fl = r :: fl' /\ (r ∉ roots) /\ sound k' (r :: roots) fl' /\ rest k' = rest k /\
      (forall va, user va -> leaf (ram k') r va = 0) /\
      (forall r' va, r' ∈ roots -> user va -> leaf (ram k') r' va = leaf (ram k) r' va) /\
      (forall x, ~ free_byte fl x -> ram k' x = ram k x) /\
      (forall i, index i -> 1 <= i -> get (ram k') r i = get (ram k) (read_cr3 k) i)
  end.
Proof.
  intros Hso Hc. unfold AddressSpace_new. destruct fl as [|r fl].
  { by rewrite (allocate_None k roots). }
  destruct (allocate_Some _ _ _ _ Hso) as (k1 & -> & Eram & Erest & Hch & Hn).
  pose proof Hso as [Hs _ [_ Hlen]]. pose proof (new_root _ _ _ _ Hs) as Hr.
  pose proof (sh_nodup _ _ _ Hs) as [Hrfl Hnd]%NoDup_cons.
  assert (Ecr : read_cr3 k1 = read_cr3 k) by (unfold read_cr3; unfold rest in Erest; by injection Erest as _ -> _).
  exists fl. split; [done|]. split; [by eapply new_root_not_in|].
  set (k' := update_ram _ _).
  assert (Er : ram k' = copy_slots (read_cr3 k) r (fill r PAGE_SIZE 0 (ram k))).
  { unfold k'. by rewrite !ram_update, read_cr3_update, Eram, Ecr. }
  assert (Ea : ALLOCATOR k' = ALLOCATOR k1) by (unfold k'; by rewrite !allocator_update).
  assert (Erest' : rest k' = rest k) by (unfold k'; by rewrite !rest_update).
  clearbody k'. split; [|split; [done|rewrite Er; split_and!]].
  - constructor; [rewrite Er; by apply new_shape|rewrite Ea|rewrite Ea; split; [exact Hn|clear -Hlen; cbn [length] in *; lia]].
    apply (chain_ext (ram k1) (ram k')); [|exact Hch]. intros f Hf. rewrite Eram, Er.
    pose proof (sh_free _ _ _ Hs f ltac:(by right)) as [Hfa _].
    assert (r <> f) by (intros ->; done). pose proof (aligned_apart r f (proj1 Hr) Hfa ltac:(done)).
    apply load_ext. intros x Hx. apply new_out. lia.
  - intros va Hva. by apply (new_leaf_new (ram k) roots fl).
  - intros r' va Hr' Hva. by apply (new_leaf_old (ram k) roots fl).
  - intros x Hx. apply new_out. intros H. apply Hx. exists r. split; [left|done].
  - intros i Hi H1. rewrite (new_get (ram k) roots fl) by (done || apply Hr). by rewrite !decide_True.
Qed.
