(* ===== verification/UserPages.v ===== *)
(** * The pages of a user half

    [user_pages] lists each present leaf of a space once, with its address,
    its entry and where the entry is. *)

From S2P Require Import Prelude Bytes Disk Pages Replace Swap Memory PageTables Spaces.

#[local] Arguments Z.pow : simpl never.
#[local] Arguments load : simpl never.

(** ** Addresses from indexes *)

Definition address_of (i3 i2 i1 : Z) : Z := Z.lor (Z.lor (Z.shiftl i3 30) (Z.shiftl i2 21)) (Z.shiftl i1 12).

Lemma address_of_sum i3 i2 i1 : index i2 -> index i1 ->
  address_of i3 i2 i1 = i3 * 1073741824 + i2 * 2097152 + i1 * 4096.
Proof.
  intros H2 H1. unfold address_of, index in *. rewrite <- Z.lor_assoc.
  rewrite (Z.shiftl_mul_pow2 i1 12) by lia.
  assert (E12 : 2 ^ 12 = 4096) by done. assert (E21 : 2 ^ 21 = 2097152) by done. assert (E30 : 2 ^ 30 = 1073741824) by done.
  rewrite (shiftl_lor i2), (shiftl_lor i3) by lia. lia.
Qed.

Lemma shift_index v s : 0 <= s -> Z.land (Z.shiftr v s) 511 = v / 2 ^ s mod 512.
Proof. intros. change 511 with (Z.ones 9). by rewrite Z.land_ones, Z.shiftr_div_pow2 by lia. Qed.

Lemma indexes_sum va : indexes va = [va / 2 ^ 39 mod 512; va / 2 ^ 30 mod 512; va / 2 ^ 21 mod 512; va / 2 ^ 12 mod 512].
Proof. unfold indexes. by rewrite !shift_index by lia. Qed.

Lemma address_of_indexes i3 i2 i1 : index i3 -> index i2 -> index i1 ->
  indexes (address_of i3 i2 i1) = [0; i3; i2; i1] /\ user (address_of i3 i2 i1) /\ aligned (address_of i3 i2 i1).
Proof.
  intros H3 H2 H1. rewrite address_of_sum by done. unfold index, user, USER_SPACE_END, aligned in *.
  rewrite indexes_sum. change (2 ^ 39) with 549755813888. change (2 ^ 30) with 1073741824.
  change (2 ^ 21) with 2097152. change (2 ^ 12) with 4096.
  set (v := i3 * 1073741824 + i2 * 2097152 + i1 * 4096).
  assert (E3 : v / 1073741824 = i3) by (symmetry; apply (Z.div_unique v _ i3 (i2 * 2097152 + i1 * 4096)); lia).
  assert (E2 : v / 2097152 = i3 * 512 + i2) by (symmetry; apply (Z.div_unique v _ _ (i1 * 4096)); lia).
  assert (E1 : v / 4096 = (i3 * 512 + i2) * 512 + i1) by (symmetry; apply (Z.div_unique v _ _ 0); lia).
  split_and!; try (unfold v; lia).
  - rewrite (Z.div_small v) by lia. rewrite E3, E2, E1.
    rewrite (Z.mod_small i3) by lia. rewrite (Z.add_comm (i3 * 512)), Z.mod_add, (Z.mod_small i2) by lia.
    rewrite (Z.add_comm (_ * 512)), Z.mod_add, (Z.mod_small i1) by lia. done.
  - apply Z.mod_divide; [done|]. exists ((i3 * 512 + i2) * 512 + i1). unfold v. lia.
Qed.

Lemma user_48 va : user va -> 0 <= va < 2 ^ 48.
Proof. unfold user, USER_SPACE_END. change (2 ^ 48) with 281474976710656. lia. Qed.

Lemma page_of_id a : aligned a -> page_of a = a.
Proof. unfold aligned. intros H. rewrite page_of_div. pose proof (Z.div_mod a 4096). lia. Qed.

(** Every page has its address. *)
Lemma indexes_address va : user va -> exists i3 i2 i1,
  index i3 /\ index i2 /\ index i1 /\ path va = [0; i3; i2] /\ slot va = i1 /\ page_of va = address_of i3 i2 i1.
Proof.
  intros Hva. pose proof (path_private va Hva) as (_ & _ & H0). cbn in H0.
  exists (indexes va !!! 1%nat), (indexes va !!! 2%nat), (indexes va !!! 3%nat).
  cbn [indexes lookup_total list_lookup_total]. pose proof (land_511 (Z.shiftr va 30)) as H3.
  pose proof (land_511 (Z.shiftr va 21)) as H2. pose proof (land_511 (Z.shiftr va 12)) as H1.
  destruct (address_of_indexes _ _ _ H3 H2 H1) as (E & Hu & Ha).
  split_and!; try done; [unfold path; cbn; by rewrite H0|].
  rewrite <- (page_of_id _ Ha). apply indexes_page; [by apply user_48..|]. rewrite E. unfold indexes at 1. by rewrite <- H0.
Qed.

Lemma address_path i3 i2 i1 : index i3 -> index i2 -> index i1 ->
  path (address_of i3 i2 i1) = [0; i3; i2] /\ slot (address_of i3 i2 i1) = i1.
Proof. intros H3 H2 H1. destruct (address_of_indexes _ _ _ H3 H2 H1) as [E _]. unfold path, slot. by rewrite E. Qed.

(** ** Tables as lists *)

Lemma elem_of_table_entries {A} m t skip (body : Z -> Z -> list A) x :
  x ∈ table_entries m t skip body <->
  exists i, index i /\ has (get m t i) PRESENT = true /\ skip (get m t i) = false /\ x ∈ body i (get m t i).
Proof.
  unfold table_entries. rewrite list_elem_of_join. split.
  - intros (l & Hx & (n & -> & Hn%elem_of_seq)%list_elem_of_fmap). exists (Z.of_nat n).
    cbv zeta in Hx. destruct (negb _ || skip _) eqn:E; [by apply not_elem_of_nil in Hx|].
    apply orb_false_iff in E as [E1%negb_false_iff E2]. split_and!; try done; unfold index; lia.
  - intros (i & Hi & Hp & Hs & Hx). unfold index in Hi. eexists. split; [|apply list_elem_of_fmap; exists (Z.to_nat i)].
    2: split; [reflexivity|apply elem_of_seq; lia]. cbv zeta. rewrite Z2Nat.id by lia. by rewrite Hp, Hs.
Qed.

Lemma NoDup_mjoin {A B} (g : B -> A) (l : list nat) (f : nat -> list B) :
  NoDup l -> (forall i, i ∈ l -> NoDup (map g (f i))) ->
  (forall i j x y, i ∈ l -> j ∈ l -> x ∈ f i -> y ∈ f j -> g x = g y -> i = j) ->
  NoDup (map g (mjoin (map f l))).
Proof.
  induction 1 as [|i l Hi _ IH]; intros Hf Hd; [constructor|]. cbn. rewrite map_app. apply NoDup_app. split_and!.
  - apply Hf. left.
  - intros a (x & -> & Hx)%list_elem_of_fmap (y & E & Hy)%list_elem_of_fmap.
    apply list_elem_of_join in Hy as (u & Hy & (j & -> & Hj)%list_elem_of_fmap). apply Hi.
    assert (i = j) as ->; [|done]. apply (Hd i j x y); [left|by right|done..].
  - apply IH; [intros; apply Hf; by right|]. intros a b x y Ha Hb. apply Hd; by right.
Qed.

Lemma NoDup_table_entries {A B} (g : B -> A) m t skip (body : Z -> Z -> list B) :
  (forall i, index i -> has (get m t i) PRESENT = true -> skip (get m t i) = false -> NoDup (map g (body i (get m t i)))) ->
  (forall i j x y, index i -> index j -> x ∈ body i (get m t i) -> y ∈ body j (get m t j) -> g x = g y -> i = j) ->
  NoDup (map g (table_entries m t skip body)).
Proof.
  intros Hb Hd. unfold table_entries. apply NoDup_mjoin; [apply NoDup_seq| |].
  - intros n Hn%elem_of_seq. cbv zeta. case_match eqn:E; [constructor|]. apply orb_false_iff in E as [E1%negb_false_iff E2].
    apply Hb; [unfold index; lia|done|done].
  - intros n n' x y Hn%elem_of_seq Hn'%elem_of_seq. cbv zeta.
    case_match; [by intros ?%not_elem_of_nil|]. case_match; [by intros _ ?%not_elem_of_nil|].
    intros Hx Hy E. apply Nat2Z.inj. apply (Hd _ _ x y); (done || unfold index; lia).
Qed.

(** ** The list is the leaves *)

Section pages.
Context (m : memory) (roots fl : list Z) (r : Z) (Hs : shape m roots fl) (Hr : r ∈ roots).

Lemma slot0_link : has (get m r 0) PRESENT = true -> link (get m r 0) = Some (frame_of (get m r 0)).
Proof using Hs Hr.
  intros Hp. unfold link. rewrite Hp. rewrite (sh_small _ _ _ Hs r [] 0 r); [done|done| |done|done].
  split_and!; [repeat constructor; lia|cbn; lia|done].
Qed.

Lemma elem_of_user_pages x :
  x ∈ user_pages m r <->
  exists va t, user va /\ aligned va /\ has (leaf m r va) PRESENT = true /\ walk m r (path va) = Some t /\
    x = (va, leaf m r va, t + 8 * slot va).
Proof using Hs Hr.
  unfold user_pages. split.
  - destruct (has (get m r 0) PRESENT) eqn:E0; cbn [negb]; [|by intros ?%not_elem_of_nil].
    intros (i3 & H3 & P3 & S3 & Hx)%elem_of_table_entries.
    apply elem_of_table_entries in Hx as (i2 & H2 & P2 & S2 & Hx).
    apply elem_of_table_entries in Hx as (i1 & H1 & P1 & _ & ->%list_elem_of_singleton).
    destruct (address_of_indexes i3 i2 i1 H3 H2 H1) as (_ & Hu & Ha). destruct (address_path i3 i2 i1 H3 H2 H1) as [Ep Es].
    set (t := frame_of (get m (frame_of (get m (frame_of (get m r 0)) i3)) i2)) in *.
    assert (Hw : walk m r (path (address_of i3 i2 i1)) = Some t).
    { rewrite Ep. cbn [walk]. rewrite slot0_link by done. unfold link at 1. rewrite P3, S3. cbn [negb andb].
      unfold link. by rewrite P2, S2. }
    exists (address_of i3 i2 i1), t. assert (El : leaf m r (address_of i3 i2 i1) = get m t i1) by (unfold leaf; by rewrite Hw, Es).
    rewrite El, Es. done.
  - intros (va & t & Hu & Ha & Hp & Hw & ->).
    destruct (indexes_address va Hu) as (i3 & i2 & i1 & H3 & H2 & H1 & Ep & Es & Epg).
    rewrite page_of_id in Epg by done. unfold leaf in *. rewrite Hw, Es in *.
    rewrite Ep in Hw. cbn [walk] in Hw. unfold link in Hw.
    destruct (has (get m r 0) PRESENT); cbn [negb andb] in *; [|done].
    destruct (has (get m r 0) HUGE); cbn [negb] in *; [done|].
    apply elem_of_table_entries. exists i3. set (t3 := frame_of (get m r 0)) in *.
    destruct (has (get m t3 i3) PRESENT); cbn [negb andb] in *; [|done].
    destruct (has (get m t3 i3) HUGE); cbn [negb] in *; [done|]. split_and!; [done..|].
    apply elem_of_table_entries. exists i2. set (t2 := frame_of (get m t3 i3)) in *.
    destruct (has (get m t2 i2) PRESENT); cbn [negb andb] in *; [|done].
    destruct (has (get m t2 i2) HUGE); cbn [negb] in *; [done|]. injection Hw as Et. rewrite Et. split_and!; [done..|].
    apply elem_of_table_entries. exists i1. split_and!; try done. apply list_elem_of_singleton.
    f_equal. f_equal. exact Epg.
Qed.

Lemma body_address i3 i2 t (x : Z * Z * Z) i1 e :
  x ∈ [(address_of i3 i2 i1, e, t + 8 * i1)] -> x.1.1 = address_of i3 i2 i1.
Proof using Type. by intros ->%list_elem_of_singleton. Qed.

Lemma address_of_inj i3 i2 i1 j3 j2 j1 :
  index i3 -> index i2 -> index i1 -> index j3 -> index j2 -> index j1 ->
  address_of i3 i2 i1 = address_of j3 j2 j1 -> i3 = j3 /\ i2 = j2 /\ i1 = j1.
Proof using Type.
  intros H3 H2 H1 J3 J2 J1 E. destruct (address_of_indexes _ _ _ H3 H2 H1) as [E1 _].
  destruct (address_of_indexes _ _ _ J3 J2 J1) as [E2 _]. rewrite E, E2 in E1. by injection E1 as -> -> ->.
Qed.

Lemma user_pages_NoDup : NoDup (map (fun x => x.1.1) (user_pages m r)).
Proof using Type.
  unfold user_pages. case_match; [constructor|].
  assert (Hin : forall i3 i2 t (x : Z * Z * Z),
    x ∈ table_entries m t (fun _ => false) (fun i1 e => [(address_of i3 i2 i1, e, t + 8 * i1)]) ->
    exists i1, index i1 /\ x.1.1 = address_of i3 i2 i1).
  { intros i3 i2 t x (i1 & H1 & _ & _ & Hx)%elem_of_table_entries. exists i1. by apply body_address in Hx. }
  assert (Hin2 : forall i3 t (x : Z * Z * Z),
    x ∈ table_entries m t (fun e => has e HUGE) (fun i2 e2 =>
          table_entries m (frame_of e2) (fun _ => false) (fun i1 e => [(address_of i3 i2 i1, e, frame_of e2 + 8 * i1)])) ->
    exists i2 i1, index i2 /\ index i1 /\ x.1.1 = address_of i3 i2 i1).
  { intros i3 t x (i2 & H2 & _ & _ & Hx)%elem_of_table_entries. destruct (Hin _ _ _ _ Hx) as (i1 & H1 & E). eauto. }
  apply NoDup_table_entries.
  - intros i3 H3 _ _. apply NoDup_table_entries.
    + intros i2 H2 _ _. apply NoDup_table_entries; [intros; apply NoDup_singleton|].
      intros i1 j1 x y H1 J1 Hx%body_address Hy%body_address E. rewrite Hx, Hy in E. apply address_of_inj in E; [tauto|done..].
    + intros i2 j2 x y H2 J2 Hx Hy E. destruct (Hin _ _ _ _ Hx) as (i1 & H1 & Ex), (Hin _ _ _ _ Hy) as (j1 & J1 & Ey).
      rewrite Ex, Ey in E. apply address_of_inj in E; [tauto|done..].
  - intros i3 j3 x y H3 J3 Hx Hy E. destruct (Hin2 _ _ _ Hx) as (i2 & i1 & H2 & H1 & Ex), (Hin2 _ _ _ Hy) as (j2 & j1 & J2 & J1 & Ey).
    rewrite Ex, Ey in E. apply address_of_inj in E; [tauto|done..].
Qed.
End pages.
