(* ===== verification/Sharing.v ===== *)
(** * Who owns a shared frame

    [SHARED] is a table from frames to owner counts, kept in a vector:
    [share] and [unshare] are insertion and removal in that table.  The
    invariant [shares] says that the count of a frame is the number of
    address spaces whose pages name it, and that a writable page has its
    frame to itself. *)

From S2P Require Import Prelude Bytes Disk Pages Replace Swap Memory PageTables Spaces UserPages.

#[local] Arguments Z.pow : simpl never.
#[local] Arguments load : simpl never.

(** ** The vector as a table *)

Abbreviation Counts := (list (Z * Z)).

Definition owners (l : Counts) (f : Z) : option Z :=
  match find_share f l with Some i => Some (l !!! i).2 | None => None end.

Lemma find_share_Some f l i : find_share f l = Some i -> (i < length l)%nat /\ (l !!! i).1 = f.
Proof. intros (H1 & H2%Z.eqb_eq & _)%range_find_Some. split; [lia|done]. Qed.

Lemma find_share_None f l : find_share f l = None -> f ∉ map fst l.
Proof.
  intros H Hin. unfold find_share in H. rewrite range_find_None in H.
  apply list_elem_of_fmap in Hin as (x & -> & [i Hi]%list_elem_of_lookup).
  specialize (H i). rewrite (list_lookup_total_correct _ _ _ Hi), Z.eqb_refl in H.
  apply lookup_lt_Some in Hi. discriminate H. lia.
Qed.

(** With distinct keys, the table holds what the vector lists. *)
Lemma owners_elem l f c : NoDup (map fst l) -> owners l f = Some c <-> (f, c) ∈ l.
Proof.
  intros Hnd. unfold owners. destruct (find_share f l) as [i|] eqn:E.
  - apply find_share_Some in E as [Hi Hf].
    assert (Hl : l !! i = Some (l !!! i)) by (by apply list_lookup_lookup_total_lt).
    split.
    + intros [= <-]. apply list_elem_of_lookup. exists i. rewrite Hl, <- Hf. by rewrite <- surjective_pairing.
    + intros [j Hj]%list_elem_of_lookup. f_equal.
      assert (i = j) as ->; [|by rewrite (list_lookup_total_correct _ _ _ Hj)].
      apply (NoDup_lookup (map fst l) i j f Hnd); change (map fst l) with (fst <$> l); rewrite list_lookup_fmap.
      * rewrite Hl. exact (f_equal Some Hf).
      * by rewrite Hj.
  - apply find_share_None in E. split; [done|]. intros Hin. destruct E. apply list_elem_of_fmap. by exists (f, c).
Qed.

Lemma owners_None l f : owners l f = None <-> f ∉ map fst l.
Proof.
  unfold owners. destruct (find_share f l) as [i|] eqn:E.
  - apply find_share_Some in E as [Hi Hf]. split; [done|]. intros Hn. destruct Hn.
    apply list_elem_of_fmap. exists (l !!! i). split; [done|]. apply list_elem_of_lookup. exists i.
    by apply list_lookup_lookup_total_lt.
  - apply find_share_None in E. done.
Qed.

(** Two tables with the same rows are the same table. *)
Lemma owners_ext l l' f g c :
  NoDup (map fst l) -> NoDup (map fst l') ->
  (forall g d, g <> f -> (g, d) ∈ l' <-> (g, d) ∈ l) ->
  match c with Some c => (f, c) ∈ l' | None => f ∉ map fst l' end ->
  owners l' g = if decide (g = f) then c else owners l g.
Proof.
  intros Hl Hl' Hrest Hf. case_decide as E; [subst|].
  - destruct c; [by apply owners_elem|by apply owners_None].
  - destruct (owners l g) as [d|] eqn:Eo.
    + apply owners_elem; [done|]. apply Hrest; [done|]. by apply owners_elem.
    + apply owners_None. apply owners_None in Eo. intros ([h d] & Eg & Hin)%list_elem_of_fmap. cbn in Eg. subst h.
      apply Eo, list_elem_of_fmap. exists (g, d). split; [done|]. by apply Hrest.
Qed.

Lemma insert_keys (l : Counts) i f c : (i < length l)%nat -> (l !!! i).1 = f -> map fst (<[i := (f, c)]> l) = map fst l.
Proof.
  intros Hi Hf. change (map fst ?x) with (fst <$> x). rewrite list_fmap_insert. cbn [fst]. apply list_insert_id.
  rewrite list_lookup_fmap, (list_lookup_lookup_total_lt l i) by done. exact (f_equal Some Hf).
Qed.

Lemma elem_of_insert_key (l : Counts) i f c g d :
  NoDup (map fst l) -> (i < length l)%nat -> (l !!! i).1 = f ->
  (g, d) ∈ <[i := (f, c)]> l <-> (g = f /\ d = c) \/ (g <> f /\ (g, d) ∈ l).
Proof.
  intros Hnd Hi Hf. rewrite <- !owners_elem by (by rewrite ?insert_keys).
  assert (Hfi : forall g, find_share g (<[i := (f, c)]> l) = find_share g l).
  { intros h. unfold find_share, range_find. rewrite length_insert.
    assert (Hp : forall j, ((<[i := (f, c)]> l !!! j).1 =? h) = ((l !!! j).1 =? h)).
    { intros j. rewrite list_insert_total by done. case_decide; [subst|done]. cbn. done. }
    induction (seq 0 (length l - 0)) as [|j s IH]; [done|]. cbn [List.find]. rewrite Hp. by rewrite IH. }
  unfold owners. rewrite Hfi. destruct (find_share g l) as [j|] eqn:E.
  - apply find_share_Some in E as [Hj Hg]. rewrite list_insert_total by done. case_decide as Eij.
    + subst j. assert (g = f) by congruence. subst g. cbn. split; [intros [= <-]; by left|].
      intros [[_ ->]|[Hne _]]; [done|by destruct Hne].
    + destruct (decide (g = f)) as [->|]; [|tauto]. exfalso. apply Eij.
      apply (NoDup_lookup (map fst l) i j f Hnd); change (map fst l) with (fst <$> l); rewrite list_lookup_fmap.
      * rewrite (list_lookup_lookup_total_lt l i) by done. exact (f_equal Some Hf).
      * rewrite (list_lookup_lookup_total_lt l j) by done. exact (f_equal Some Hg).
  - split; [done|]. intros [[-> _]|[_ ?]]; [|done]. apply find_share_None in E. destruct E.
    apply list_elem_of_fmap. exists (l !!! i). split; [done|]. apply list_elem_of_lookup. exists i.
    by apply list_lookup_lookup_total_lt.
Qed.

Lemma swap_remove_perm (l : Counts) i : (i < length l)%nat -> swap_remove i l ≡ₚ delete i l.
Proof.
  intros Hi. unfold swap_remove. destruct (last l) as [x|] eqn:E; [|by apply last_None in E; subst].
  apply last_Some in E as [l' ->]. rewrite length_app in Hi. cbn in Hi.
  destruct (decide (i = length l')) as [->|Hne].
  - rewrite insert_app_r_alt, Nat.sub_diag by lia. change (<[0%nat:=x]> [x]) with [x]. rewrite removelast_last.
    by rewrite delete_middle, app_nil_r.
  - rewrite insert_app_l, removelast_last by lia.
    rewrite delete_take_drop, take_app_le, drop_app_le by lia.
    rewrite insert_take_drop by lia. rewrite app_assoc, <- Permutation_cons_append. symmetry. apply Permutation_middle.
Qed.

Lemma swap_remove_NoDup (l : Counts) i : (i < length l)%nat -> NoDup (map fst l) -> NoDup (map fst (swap_remove i l)).
Proof.
  intros Hi Hnd. change (map fst ?x) with (fst <$> x) in *. rewrite (swap_remove_perm l i Hi).
  rewrite <- (take_drop_middle l i (l !!! i)) in Hnd by (by apply list_lookup_lookup_total_lt).
  rewrite delete_take_drop, !fmap_app in *. cbn [fmap list_fmap] in Hnd.
  rewrite <- Permutation_middle in Hnd. by apply NoDup_cons in Hnd as [_ ?].
Qed.

Lemma elem_of_swap_remove (l : Counts) i f g d :
  NoDup (map fst l) -> (i < length l)%nat -> (l !!! i).1 = f ->
  (g, d) ∈ swap_remove i l <-> g <> f /\ (g, d) ∈ l.
Proof.
  intros Hnd Hi Hf. rewrite (swap_remove_perm l i Hi), delete_take_drop.
  pose proof (take_drop_middle l i (l !!! i) (list_lookup_lookup_total_lt _ _ Hi)) as E.
  rewrite <- E in Hnd. change (map fst ?x) with (fst <$> x) in Hnd. rewrite fmap_app in Hnd. cbn [fmap list_fmap] in Hnd.
  rewrite <- Permutation_middle, <- fmap_app in Hnd. apply NoDup_cons in Hnd as [Hn _]. rewrite Hf in Hn.
  rewrite <- E at 3. rewrite !elem_of_app, elem_of_cons. split.
  - intros Hin. split; [|tauto]. intros ->. apply Hn. apply list_elem_of_fmap. exists (f, d). split; [done|].
    by apply elem_of_app.
  - intros [Hne [?|[Eg|?]]]; [by left| |by right]. by rewrite <- Eg in Hf.
Qed.

(** ** [share] and [unshare] *)

Section counts.
Context {D : Type}.
Implicit Types k : Mem D.

Lemma share_count_owners k f : share_count k f = default 1 (owners (SHARED k) f).
Proof. unfold share_count, owners. by destruct (find_share f (SHARED k)). Qed.

Lemma share_spec k f :
  NoDup (map fst (SHARED k)) ->
  NoDup (map fst (SHARED (share f k))) /\
  forall g, owners (SHARED (share f k)) g =
    if decide (g = f) then Some (match owners (SHARED k) f with Some c => c +₃₂ 1 | None => 2 end)
    else owners (SHARED k) g.
Proof.
  intros Hnd. unfold share. cbv zeta. cbn [SHARED set_field set_SHARED]. set (l := SHARED k) in *.
  unfold owners at 2. destruct (find_share f l) as [i|] eqn:E.
  - apply find_share_Some in E as [Hi Hf]. assert (Hnd' : NoDup (map fst (<[i := (f, (l !!! i).2 +₃₂ 1)]> l))) by (by rewrite insert_keys).
    split; [done|]. intros g. apply (owners_ext l _ f g (Some _)); [done|done| |].
    + intros h d Hne. rewrite elem_of_insert_key by done. tauto.
    + apply elem_of_insert_key; [done..|]. by left.
  - apply find_share_None in E. assert (Hnd' : NoDup (map fst (l ++ [(f, 2)]))).
    { rewrite map_app. cbn. apply NoDup_app. split_and!; [done| |apply NoDup_singleton].
      intros g Hg ->%list_elem_of_singleton. done. }
    split; [done|]. intros g. apply (owners_ext l _ f g (Some 2)); [done|done| |].
    + intros h d Hne. rewrite elem_of_app, list_elem_of_singleton. split; [intros [?|[= -> ->]]; done|by left].
    + apply elem_of_app. right. by apply list_elem_of_singleton.
Qed.

Lemma unshare_spec k f c :
  NoDup (map fst (SHARED k)) -> owners (SHARED k) f = Some c -> 2 <= c < 2 ^ 32 ->
  let k' := (unshare f k).2 in
  (unshare f k).1 = c - 1 /\ NoDup (map fst (SHARED k')) /\
  forall g, owners (SHARED k') g =
    if decide (g = f) then (if decide (c = 2) then None else Some (c - 1)) else owners (SHARED k) g.
Proof.
  intros Hnd Hc Hb k'. unfold k', unshare. cbv zeta. set (l := SHARED k) in *. unfold owners in Hc.
  destruct (find_share f l) as [i|] eqn:E; [|done]. apply (inj Some) in Hc. apply find_share_Some in E as [Hi Hf].
  rewrite Hc. cbn [fst snd SHARED set_field set_SHARED]. unfold wrap at 1. rewrite Z.mod_small by lia.
  split; [done|]. set (l1 := <[i := (f, wrap 32 (c - 1))]> l).
  assert (Ew : wrap 32 (c - 1) = c - 1) by (apply Z.mod_small; lia).
  assert (Hk1 : map fst l1 = map fst l) by (by apply insert_keys).
  assert (Hnd1 : NoDup (map fst l1)) by (by rewrite Hk1).
  assert (Hi1 : (i < length l1)%nat) by (unfold l1; by rewrite length_insert).
  assert (Hf1 : (l1 !!! i).1 = f) by (unfold l1; rewrite list_insert_total by done; by rewrite decide_True).
  assert (Hin1 : forall h d, (h, d) ∈ l1 <-> (h = f /\ d = c - 1) \/ (h <> f /\ (h, d) ∈ l)).
  { intros h d. unfold l1. rewrite elem_of_insert_key by done. by rewrite Ew. }
  rewrite Ew. case_decide as E2.
  - rewrite E2. change (2 - 1 <=? 1) with true. cbv iota.
    pose proof (swap_remove_NoDup l1 i Hi1 Hnd1) as Hnd2. split; [done|]. intros g.
    apply (owners_ext l _ f g None); [done|done| |].
    + intros h d Hne. rewrite (elem_of_swap_remove l1 i f) by done. rewrite Hin1. tauto.
    + intros ([h d] & Eh & Hin)%list_elem_of_fmap. cbn in Eh. subst h.
      by apply (elem_of_swap_remove l1 i f) in Hin as [? _].
  - rewrite (proj2 (Z.leb_gt (c - 1) 1)) by lia. split; [done|]. intros g.
    apply (owners_ext l _ f g (Some (c - 1))); [done|done| |].
    + intros h d Hne. rewrite Hin1. tauto.
    + apply Hin1. by left.
Qed.

(** ** The invariant *)

(** The space [r] has a present page in the frame [f]. *)
Definition maps (m : memory) (r f : Z) : Prop :=
  exists va, user va /\ has (leaf m r va) PRESENT = true /\ frame_of (leaf m r va) = f.

Record shares k (roots : list Z) : Prop := {
  sa_keys : NoDup (map fst (SHARED k));
  sa_few : Z.of_nat (length roots) < 2 ^ 32;
  (** A space maps a frame once. *)
  sa_once r va va' : r ∈ roots -> user va -> user va' ->
    has (leaf (ram k) r va) PRESENT = true -> has (leaf (ram k) r va') PRESENT = true ->
    frame_of (leaf (ram k) r va) = frame_of (leaf (ram k) r va') -> page_of va = page_of va';
  (** The table counts the spaces that map a frame, when there are several. *)
  sa_owners f : exists rs, NoDup rs /\ (forall r, r ∈ rs <-> r ∈ roots /\ maps (ram k) r f) /\
    match owners (SHARED k) f with
    | Some c => 2 <= c /\ c = Z.of_nat (length rs)
    | None => (length rs <= 1)%nat
    end;
  (** What is writable is private. *)
  sa_private r r' va : r ∈ roots -> r' ∈ roots -> user va ->
    has (leaf (ram k) r va) PRESENT = true -> has (leaf (ram k) r va) WRITABLE = true ->
    maps (ram k) r' (frame_of (leaf (ram k) r va)) -> r' = r;
  (** Frame 0 is nobody's: its number ends the free list. *)
  sa_zero r : r ∈ roots -> ~ maps (ram k) r 0
}.

Lemma owners_bound k roots f c : shares k roots -> owners (SHARED k) f = Some c -> 2 <= c < 2 ^ 32.
Proof.
  intros Hsh Hc. destruct (sa_owners _ _ Hsh f) as (rs & Hnd & Hrs & Hcount). rewrite Hc in Hcount.
  destruct Hcount as [H2 ->]. split; [done|].
  assert (Hle : (length rs <= length roots)%nat) by (apply submseteq_length, NoDup_submseteq; [done|]; intros r Hr; by apply Hrs).
  pose proof (sa_few _ _ Hsh). lia.
Qed.

(** A frame the table does not list is mapped by one space at most. *)
Lemma not_shared_unique k roots f r r' :
  shares k roots -> ~ 1 < share_count k f -> r ∈ roots -> r' ∈ roots -> maps (ram k) r f -> maps (ram k) r' f -> r = r'.
Proof.
  intros Hsh Hn Hr Hr' Hm Hm'. rewrite share_count_owners in Hn.
  destruct (sa_owners _ _ Hsh f) as (rs & Hnd & Hrs & Hcount).
  destruct (owners (SHARED k) f) as [c|]; [cbn in Hn; lia|].
  destruct rs as [|a [|b rs]]; cbn in Hcount; [|  |lia].
  - exfalso. apply (not_elem_of_nil r), Hrs. done.
  - assert (r ∈ [a]) as ->%list_elem_of_singleton by (by apply Hrs).
    assert (r' ∈ [a]) as ->%list_elem_of_singleton by (by apply Hrs). done.
Qed.
End counts.
