(* ===== verification/Cow.v ===== *)
(** * Copy on write

    [fork] shares frames and [cow_fault] copies them when they are written;
    the theorem is that no program can tell: every space reads as if it had
    its own memory, copied at the fork. *)

From stdpp Require Import relations.
From S2P Require Import Prelude Bytes Disk Pages Replace Swap Memory PageTables Spaces UserPages Sharing.

#[local] Arguments Z.pow : simpl never.
#[local] Arguments load : simpl never.

Section cow.
Context {D : Type}.
Implicit Types k : Mem D.

Record space k (roots fl : list Z) : Prop := { sp_sound : sound k roots fl; sp_shares : shares k roots }.

Lemma sp_shape k roots fl : space k roots fl -> shape (ram k) roots fl.
Proof. intros [[] _]. done. Qed.

(** Pages are the same page, or different ones. *)
Lemma same_page_leaf m r va va' : user va -> user va' -> page_of va = page_of va' -> leaf m r va = leaf m r va'.
Proof. intros [] []. by apply leaf_page. Qed.

Lemma maps_ext m m' r f :
  (forall va, user va -> has (leaf m' r va) PRESENT = has (leaf m r va) PRESENT /\
     (has (leaf m r va) PRESENT = true -> frame_of (leaf m' r va) = frame_of (leaf m r va))) ->
  maps m' r f <-> maps m r f.
Proof.
  intros H. split; intros (va & Hva & Hp & Hf); exists va; destruct (H va Hva) as [E1 E2].
  - rewrite E1 in Hp. rewrite E2 in Hf by done. done.
  - rewrite E1, E2 by done. done.
Qed.

(** ** Only tables change *)

Lemma grows_view k k' roots fl fl' r va :
  grows roots k fl k' fl' -> shape (ram k) roots fl -> r ∈ roots -> user va -> view k' r va = view k r va.
Proof.
  intros Hg Hs Hr U. apply view_ext; [by apply (g_leaf _ _ _ _ _ Hg)|]. intros P.
  pose proof (leaf_mappable k roots fl r va Hs Hr U P) as [Hnf Hnw].
  pose proof (page_byte (frame_of (leaf (ram k) r va)) va) as Hx. apply (g_ram _ _ _ _ _ Hg).
  - intros Ht. by apply (not_table_byte _ _ _ _ _ Hs (frame_of_aligned _) Hnw Hx), private_any.
  - by apply (not_free_byte (ram k) roots fl (frame_of (leaf (ram k) r va))); [|apply frame_of_aligned|..].
Qed.

(** The same leaves and counts. *)
Lemma shares_ext k k' roots :
  (forall r va, r ∈ roots -> user va -> leaf (ram k') r va = leaf (ram k) r va) -> SHARED k' = SHARED k -> shares k roots -> shares k' roots.
Proof.
  intros Hl Hse Hsh. assert (Hm : forall r f, r ∈ roots -> maps (ram k') r f <-> maps (ram k) r f).
  { intros r f Hr. apply maps_ext. intros va U. by rewrite Hl. }
  destruct Hsh. constructor; rewrite ?Hse; try done.
  - intros r v1 v2 H1 U1 U2. rewrite !Hl by done. by apply sa_once.
  - intros f. destruct (sa_owners f) as (rs & Hnd & Hrs & Hct). exists rs. split_and!; try done.
    intros r. rewrite Hrs. split; intros [H1 H2]; (split; [done|]); by apply Hm.
  - intros r1 r2 v1 H1 H2 U1. rewrite !Hl by done. intros P1 W1 M%Hm; [|done]. by apply (sa_private r1 r2 v1).
  - intros r Hr M%Hm; [|done]. by apply (sa_zero r).
Qed.

Lemma grows_space k k' roots fl fl' :
  grows roots k fl k' fl' -> SHARED k' = SHARED k -> space k roots fl -> space k' roots fl'.
Proof. intros Hg Hse [_ Hsh]. split; [apply (g_sound _ _ _ _ _ Hg)|]. by apply (shares_ext k); [apply (g_leaf _ _ _ _ _ Hg)|..]. Qed.

(** Bytes of a mapped frame are neither table nor free. *)
Lemma data_sound k m' roots fl f :
  sound k roots fl -> mappable (ram k) roots fl f -> aligned f -> bytes_ok m' ->
  (forall x, ~ f <= x < f + 4096 -> m' x = ram k x) ->
  sound (k <| ram := m' |>) roots fl /\
  (forall r va, r ∈ roots -> leaf m' r va = leaf (ram k) r va) /\
  (forall r p, r ∈ roots -> valid p -> walk m' r p = walk (ram k) r p).
Proof.
  intros [Hs Hch Hn] [Hnf Hnw] Ha Hok Hout.
  assert (Htab : forall x, any_table_byte (ram k) roots x -> m' x = ram k x).
  { intros x Hx. apply Hout. intros Hin. by apply (not_table_byte _ _ _ f x Hs Ha Hnw Hin). }
  split_and!.
  - constructor; [by apply (data_shape (ram k))| |done]. apply (chain_ext (ram k)); [|done].
    intros g Hg. assert (f <> g) by (intros ->; done).
    pose proof (aligned_apart f g Ha (proj1 (sh_free _ _ _ Hs g Hg)) ltac:(done)).
    apply load_ext. intros x Hx. apply Hout. lia.
  - intros r va Hr. by apply (data_leaf (ram k) m' roots fl).
  - intros r p Hr Hp. by apply (data_walk (ram k) m' roots fl).
Qed.

(** ** One leaf changes its flags *)

Section flags.
Context (k k' : Mem D) (roots fl fl' : list Z) (r va v : Z).
Context (Hsp : space k roots fl) (Hr : r ∈ roots) (Hva : user va).
Context (Hrm : remapped roots r va v k k' fl fl') (Hse : SHARED k' = SHARED k).
Context (Hp : has (leaf (ram k) r va) PRESENT = true) (Hv : has v PRESENT = true).
Context (Hf : frame_of v = frame_of (leaf (ram k) r va)).

Lemma flags_leaf r' va' : r' ∈ roots -> user va' ->
  has (leaf (ram k') r' va') PRESENT = has (leaf (ram k) r' va') PRESENT /\
  frame_of (leaf (ram k') r' va') = frame_of (leaf (ram k) r' va').
Proof using Hva Hrm Hp Hv Hf.
  intros Hr' Hva'. destruct (decide (r' = r /\ page_of va' = page_of va)) as [[-> E]|Hne].
  - rewrite !(same_page_leaf _ r va' va Hva' Hva E), (rm_leaf _ _ _ _ _ _ _ _ Hrm). by rewrite Hv, Hp.
  - by rewrite (rm_other _ _ _ _ _ _ _ _ Hrm).
Qed.

Lemma flags_view r' va' : r' ∈ roots -> user va' -> view k' r' va' = view k r' va'.
Proof using Hva Hrm Hp Hv Hf Hsp.
  intros Hr' Hva'. pose proof (sp_shape _ _ _ Hsp) as Hs. destruct (flags_leaf r' va' Hr' Hva') as [E1 E2].
  unfold view. rewrite E1, E2. case_match eqn:Epr; [|done]. f_equal.
  pose proof (leaf_mappable k roots fl r' va' Hs Hr' Hva' Epr) as [Hnf Hw].
  pose proof (page_byte (frame_of (leaf (ram k) r' va')) va') as Hx.
  apply (rm_ram _ _ _ _ _ _ _ _ Hrm).
  - intros Ht. by apply (not_table_byte _ _ _ _ _ Hs (frame_of_aligned _) Hw Hx), private_any.
  - by apply (not_free_byte (ram k) roots fl (frame_of (leaf (ram k) r' va'))); [|apply frame_of_aligned|..].
Qed.

Lemma flags_maps r' f : r' ∈ roots -> maps (ram k') r' f <-> maps (ram k) r' f.
Proof using Hva Hrm Hp Hv Hf.
  intros Hr'. apply maps_ext. intros va' Hva'. by destruct (flags_leaf r' va' Hr' Hva') as [-> ->].
Qed.

Lemma flags_space :
  (has v WRITABLE = true -> forall r', r' ∈ roots -> maps (ram k) r' (frame_of (leaf (ram k) r va)) -> r' = r) ->
  space k' roots fl'.
Proof using Hva Hrm Hp Hv Hf Hsp Hse Hr.
  intros Hw. split; [apply (rm_sound _ _ _ _ _ _ _ _ Hrm)|]. destruct Hsp as [Hso []]. constructor.
  - by rewrite Hse.
  - done.
  - intros r1 v1 v2 H1 U1 U2. destruct (flags_leaf r1 v1 H1 U1) as [-> ->], (flags_leaf r1 v2 H1 U2) as [-> ->].
    by apply sa_once.
  - intros f. rewrite Hse. destruct (sa_owners f) as (rs & Hnd & Hrs & Hc). exists rs. split_and!; try done.
    intros r'. rewrite Hrs. split; intros [H1 H2]; (split; [done|]); by apply flags_maps.
  - intros r1 r2 v1 H1 H2 U1. destruct (flags_leaf r1 v1 H1 U1) as [-> ->]. intros P1 W1 M.
    apply flags_maps in M; [|done].
    destruct (decide (r1 = r /\ page_of v1 = page_of va)) as [[-> E]|Hne].
    + rewrite (same_page_leaf (ram k') r v1 va U1 Hva E) in W1. rewrite (same_page_leaf (ram k) r v1 va U1 Hva E) in M.
      rewrite (rm_leaf _ _ _ _ _ _ _ _ Hrm) in W1. by apply Hw.
    + rewrite (rm_other _ _ _ _ _ _ _ _ Hrm) in W1 by done. by apply (sa_private r1 r2 v1).
  - intros r1 H1 M. apply flags_maps in M; [|done]. by apply (sa_zero r1).
Qed.
End flags.

(** ** A second space maps a frame *)

Section second.
Context (k k' : Mem D) (roots fl fl' : list Z) (r child va v f : Z).
Context (Hsp : space k roots fl) (Hr : r ∈ roots) (Hc : child ∈ roots) (Hva : user va).
Context (Hrm : remapped roots child va v k k' fl fl') (Hse : SHARED k' = SHARED k).
Context (Hp : has (leaf (ram k) child va) PRESENT = false) (Hv : has v PRESENT = true) (Hf : frame_of v = f).
Context (Hparent : maps (ram k) r f) (Hchild : ~ maps (ram k) child f).
Context (Hro : has v WRITABLE = false).
Context (Hro' : forall r' va', r' ∈ roots -> user va' -> has (leaf (ram k) r' va') PRESENT = true ->
           frame_of (leaf (ram k) r' va') = f -> has (leaf (ram k) r' va') WRITABLE = false).

Lemma second_maps r' g : r' ∈ roots -> maps (ram k') r' g <-> maps (ram k) r' g \/ (r' = child /\ g = f).
Proof using Hva Hrm Hp Hv Hf.
  intros Hr'. split.
  - intros (va' & U & P & E). destruct (decide (r' = child /\ page_of va' = page_of va)) as [[-> Epg]|Hne].
    + right. split; [done|]. rewrite <- E, (same_page_leaf _ child va' va U Hva Epg). by rewrite (rm_leaf _ _ _ _ _ _ _ _ Hrm).
    + rewrite (rm_other _ _ _ _ _ _ _ _ Hrm) in P, E by done. left. by exists va'.
  - intros [(va' & U & P & E)|[-> ->]].
    + exists va'. split; [done|]. rewrite (rm_other _ _ _ _ _ _ _ _ Hrm); try done.
      intros [-> Epg]. by rewrite (same_page_leaf _ child va' va U Hva Epg), Hp in P.
    + exists va. by rewrite (rm_leaf _ _ _ _ _ _ _ _ Hrm).
Qed.

Lemma second_leaf r' va' : r' ∈ roots -> user va' ->
  leaf (ram k') r' va' = (if decide (r' = child /\ page_of va' = page_of va) then v else leaf (ram k) r' va').
Proof using Hva Hrm.
  intros Hr' U. case_decide as E; [destruct E as [-> E]|].
  - by rewrite (same_page_leaf _ child va' va U Hva E), (rm_leaf _ _ _ _ _ _ _ _ Hrm).
  - by apply (rm_other _ _ _ _ _ _ _ _ Hrm).
Qed.

Lemma second_space : space (share f k') roots fl'.
Proof using All.
  destruct Hsp as [Hso Hsh]. pose proof Hsh as []. pose proof (rm_sound _ _ _ _ _ _ _ _ Hrm) as Hso'.
  assert (Hkeys : NoDup (map fst (SHARED k'))) by (by rewrite Hse).
  destruct (share_spec k' f Hkeys) as [Hk2 Hown]. rewrite Hse in Hown.
  assert (Hram : ram (share f k') = ram k') by done.
  split; [destruct Hso'; by constructor|]. constructor; rewrite ?Hram.
  - done.
  - done.
  - intros r1 v1 v2 H1 U1 U2. rewrite !second_leaf by done.
    destruct (decide (r1 = child /\ page_of v1 = page_of va)) as [[-> E1]|N1],
      (decide (_ /\ page_of v2 = page_of va)) as [[E0 E2]|N2]; intros P1 P2 E; try congruence.
    + exfalso. apply Hchild. exists v2. by rewrite <- E.
    + exfalso. apply Hchild. subst r1. exists v1. by rewrite E.
    + by apply (sa_once r1).
  - intros g. rewrite Hown. destruct (sa_owners g) as (rs & Hnd & Hrs & Hcount). case_decide as Eg.
    + subst g. exists (child :: rs). assert (Hnin : child ∉ rs) by (by intros [_ ?]%Hrs).
      assert (Hin : r ∈ rs) by (by apply Hrs).
      split; [by constructor|]. split.
      * intros r'. rewrite elem_of_cons, Hrs. split.
        -- intros [->|[H1 H2]]; (split; [done|]); apply second_maps; auto.
        -- intros [H1 H2]. apply second_maps in H2 as [?|[? _]]; auto.
      * assert (Hle : (length (child :: rs) <= length roots)%nat).
        { apply submseteq_length, NoDup_submseteq; [by constructor|]. intros r' [->|Hr']%elem_of_cons; [done|by apply Hrs]. }
        destruct (owners (SHARED k) f) as [c|]; cbn [length] in *.
        -- destruct Hcount as [? ->]. rewrite wrap_small by (unfold in_u; lia). lia.
        -- destruct rs as [|? [|? ?]]; [by apply not_elem_of_nil in Hin| |cbn in Hcount; lia]. cbn. lia.
    + exists rs. split_and!; try done. intros r'. rewrite Hrs. split; intros [H1 H2]; (split; [done|]).
      * apply second_maps; auto.
      * apply second_maps in H2 as [?|[_ ?]]; done.
  - intros r1 r2 v1 H1 H2 U1. rewrite second_leaf by done. case_decide as E1; [by rewrite Hro|].
    intros P1 W1 M. apply second_maps in M as [M|[-> Eg]]; [by apply (sa_private r1 r2 v1)| |done].
    rewrite (Hro' r1 v1) in W1 by done. done.
  - intros r1 H1 M. apply second_maps in M as [M|[-> E]]; [by apply (sa_zero r1)| |done]. apply (sa_zero r Hr). by rewrite E.
Qed.
End second.

(** ** The entries fork and the fault handler write *)

Ltac bits :=
  rewrite ?Z.lor_spec, ?Z.ldiff_spec, ?flags_of_testbit, ?land_mask_testbit; cbn; rewrite ?orb_false_r, ?andb_true_r, ?andb_false_r; try done.

(** What [fork] leaves in both spaces for a writable page. *)
Definition shared_flags (e : Z) : Z := Z.lor (clear (flags_of e) WRITABLE) COW.

Lemma shared_flags_spec e : u64 e ->
  u64 (shared_flags e) /\ frame_of (shared_flags e) = 0 /\ has (shared_flags e) PRESENT = has e PRESENT /\
  has (shared_flags e) WRITABLE = false.
Proof.
  intros Hu. unfold shared_flags. split_and!.
  - apply u64_lor; [apply u64_ldiff, u64_ldiff, Hu|unfold u64, COW; lia].
  - rewrite frame_of_lor, frame_of_clear by apply frame_of_flags. done.
  - change PRESENT with (2 ^ 0). rewrite !has_bit by done. unfold clear. by bits.
  - change WRITABLE with (2 ^ 1). rewrite has_bit by done. unfold clear. by bits.
Qed.

Lemma fork_flags_spec e flags : u64 flags -> frame_of flags = 0 -> has flags WRITABLE = false ->
  let v := new_leaf (frame_of e) (clear flags PRESENT) in
  frame_of v = frame_of e /\ has v PRESENT = true /\ has v WRITABLE = false /\ u64 (clear flags PRESENT) /\
  frame_of (clear flags PRESENT) = 0.
Proof.
  intros Hu Hf Hw v. assert (Hfc : frame_of (clear flags PRESENT) = 0) by (by apply frame_of_clear). split_and!.
  - unfold v. by rewrite new_leaf_frame, frame_of_idem.
  - apply new_leaf_present.
  - unfold v, new_leaf. change WRITABLE with (2 ^ 1) in *. rewrite has_bit in * by done. unfold clear.
    rewrite !Z.lor_spec, Z.ldiff_spec, Hw, !land_mask_testbit. cbn. by rewrite andb_false_r.
  - by apply u64_ldiff.
  - done.
Qed.

(** ** One page of a fork *)

(** A row of [user_pages], still true of the state. *)
Definition listed k (r : Z) (x : Z * Z * Z) : Prop :=
  let '(va, e, pointer) := x in
  user va /\ aligned va /\ has e PRESENT = true /\ e = leaf (ram k) r va /\
  exists t, walk (ram k) r (path va) = Some t /\ pointer = t + 8 * slot va.

Definition but (child va : Z) (k k' : Mem D) (roots : list Z) : Prop :=
  forall r' va', r' ∈ roots -> user va' -> ~ (r' = child /\ page_of va' = page_of va) -> view k' r' va' = view k r' va'.

(** The parent's half of [fork_page]. *)
Definition protect (x : Z * Z * Z) k : Z * Mem D :=
  let '(_, e, pointer) := x in
  if has (flags_of e) WRITABLE
  then (shared_flags e, update_ram (store 8 pointer (Z.lor (frame_of e) (shared_flags e))) k)
  else (flags_of e, k).

Lemma protect_spec k roots fl r va e pointer :
  space k roots fl -> r ∈ roots -> listed k r (va, e, pointer) ->
  let '(flags, k1) := protect (va, e, pointer) k in
  space k1 roots fl /\ (forall r' va', r' ∈ roots -> user va' -> view k1 r' va' = view k r' va') /\
  (forall r' va', r' ∈ roots -> user va' -> ~ (r' = r /\ page_of va' = page_of va) ->
     leaf (ram k1) r' va' = leaf (ram k) r' va') /\
  (forall r' f, r' ∈ roots -> maps (ram k1) r' f <-> maps (ram k) r' f) /\
  (forall r' p, r' ∈ roots -> valid p -> walk (ram k1) r' p = walk (ram k) r' p) /\
  frame_of (leaf (ram k1) r va) = frame_of e /\ has (leaf (ram k1) r va) PRESENT = true /\
  has (leaf (ram k1) r va) WRITABLE = false /\
  u64 flags /\ frame_of flags = 0 /\ has flags WRITABLE = false /\ rest k1 = rest k.
Proof.
  intros Hsp Hr (Hu & Ha & Hp & He & t & Hw & Hptr). pose proof (sp_shape _ _ _ Hsp) as Hs.
  assert (Hue : u64 e).
  { rewrite He. unfold leaf. rewrite Hw. apply get_u64, Hs. }
  unfold protect. assert (Ew : has (flags_of e) WRITABLE = has e WRITABLE).
  { change WRITABLE with (2 ^ 1). rewrite !has_bit by done. by bits. }
  destruct (has (flags_of e) WRITABLE) eqn:E.
  - destruct (shared_flags_spec e Hue) as (Hsu & Hsf & Hsp' & Hsw). set (v := Z.lor (frame_of e) (shared_flags e)).
    assert (Hv : u64 v) by (apply u64_lor; [apply u64_frame_of|done]).
    assert (Hvp : has v PRESENT = true) by (unfold v; rewrite has_lor, Hsp', Hp; apply orb_true_r).
    assert (Hvf : frame_of v = frame_of (leaf (ram k) r va)).
    { unfold v. by rewrite frame_of_lor, frame_of_idem, Hsf, Z.lor_0_r, He. }
    assert (Hvw : has v WRITABLE = false).
    { unfold v. rewrite has_lor, Hsw, orb_false_r. apply (has_frame _ 1); [apply frame_of_aligned|lia]. }
    rewrite Hptr. change (store 8 (t + 8 * slot va) v) with (set t (slot va) v).
    rewrite He in Hp. pose proof (leaf_mappable k roots fl r va Hs Hr Hu Hp) as Hmap.
    assert (Hrm : remapped roots r va v k (update_ram (set t (slot va) v) k) fl fl).
    { apply set_leaf_remapped; try done; [apply Hsp|]. intros _. by rewrite Hvf. }
    split_and!; try done.
    + eapply flags_space; [exact Hsp|exact Hr|exact Hu|exact Hrm|done|done|done|done|]. by rewrite Hvw.
    + intros r' va' Hr' Hva'. eapply flags_view; [exact Hsp|exact Hu|exact Hrm|done..].
    + intros r' va' Hr' Hva' Hne. by apply (rm_other _ _ _ _ _ _ _ _ Hrm).
    + intros r' f Hr'. eapply flags_maps; [exact Hu|exact Hrm|done..].
    + intros r' p Hr' Hvp'. by apply (set_leaf_walk _ roots fl r va).
    + by rewrite (rm_leaf _ _ _ _ _ _ _ _ Hrm), Hvf, <- He.
    + by rewrite (rm_leaf _ _ _ _ _ _ _ _ Hrm).
    + by rewrite (rm_leaf _ _ _ _ _ _ _ _ Hrm).
  - rewrite <- He. split_and!; try done; [by apply u64_ldiff|apply frame_of_flags].
Qed.

Lemma fork_page_protect child va e pointer k :
  fork_page child (va, e, pointer) k =
    let '(flags, k1) := protect (va, e, pointer) k in
    match map_page_in child va (frame_of e) (clear flags PRESENT) k1 with
    | (Ok _, k) => (Ok tt, share (frame_of e) k)
    | (Err e, k) => (Err e, k)
    | (Panic, k) => (Panic, k)
    end.
Proof. done. Qed.

Lemma present_dec_view k r va : has (leaf (ram k) r va) PRESENT = true <-> view k r va <> None.
Proof. unfold view. by case_match. Qed.

Lemma fork_page_spec k roots fl r child va e pointer :
  space k roots fl -> r ∈ roots -> child ∈ roots -> r <> child -> listed k r (va, e, pointer) ->
  has (leaf (ram k) child va) PRESENT = false -> ~ maps (ram k) child (frame_of e) ->
  exists res k' fl', fork_page child (va, e, pointer) k = (res, k') /\ space k' roots fl' /\
    but child va k k' roots /\ CR3 k' = CR3 k /\
    match res with
    | Ok _ =>
        (forall va', user va' -> page_of va' = page_of va -> view k' child va' = view k r va') /\
        has (leaf (ram k') child va) PRESENT = true /\ frame_of (leaf (ram k') child va) = frame_of e /\
        frame_of (leaf (ram k') r va) = frame_of e /\
        (forall r' va', r' ∈ roots -> user va' -> page_of va' <> page_of va -> leaf (ram k') r' va' = leaf (ram k) r' va') /\
        (forall r' p t, r' ∈ roots -> valid p -> walk (ram k) r' p = Some t -> walk (ram k') r' p = Some t)
    | Err _ => True
    | Panic => False
    end.
Proof.
  intros Hsp Hr Hc Hrc Hx Hcp Hcm. rewrite fork_page_protect.
  pose proof (protect_spec k roots fl r va e pointer Hsp Hr Hx) as H.
  destruct (protect _ _) as [flags k1]. destruct H as (Hsp1 & Hv1 & Hl1 & Hm1 & Hw1 & Hf1 & Hp1 & Hro1 & Hfu & Hff & Hfw & Hrest).
  destruct Hx as (Hu & Ha & Hp & He & t & Hw & _).
  assert (Hcp1 : has (leaf (ram k1) child va) PRESENT = false) by (rewrite Hl1; [done|done|done|intros [? _]; congruence]).
  assert (Hcm1 : ~ maps (ram k1) child (frame_of e)) by (by rewrite Hm1).
  destruct (fork_flags_spec e flags Hfu Hff Hfw) as (Hnf & Hnp & Hnw & Hcu & Hcf).
  pose proof (sp_shape _ _ _ Hsp1) as Hs1.
  assert (Hmap : mappable (ram k1) roots fl (frame_of (frame_of e))).
  { rewrite frame_of_idem, <- Hf1. by apply leaf_mappable. }
  destruct (map_page_spec child va (frame_of e) _ k1 roots fl (sp_sound _ _ _ Hsp1) Hc Hu Hcu Hcf Hmap) as (res & k2 & fl2 & -> & Hres).
  assert (Hcr : CR3 k1 = CR3 k) by (unfold rest in Hrest; by injection Hrest).
  destruct res as [u|err|]; [| |done].
  2:{ destruct Hres as [Hg _]. exists (Err err), k2, fl2. split; [done|].
      pose proof (g_rest _ _ _ _ _ Hg) as Hr2. unfold rest in Hr2. injection Hr2 as Hsh2 Hcr2 _ _ _ _.
      split; [by eapply grows_space|]. split; [|split; [congruence|done]].
      intros r' va' Hr' U' Hne. rewrite <- Hv1 by done. by apply (grows_view k1 k2 roots fl fl2). }
  destruct Hres as (_ & Hrm & Hsh2 & Hcr2 & _).
  assert (Hmr : maps (ram k1) r (frame_of e)) by (by exists va).
  exists (Ok tt), (share (frame_of e) k2), fl2. split; [done|].
  assert (Hview : forall r' va', r' ∈ roots -> user va' -> ~ (r' = child /\ page_of va' = page_of va) -> view k2 r' va' = view k r' va').
  { intros r' va' Hr' U' Hne. rewrite <- Hv1 by done. eapply remapped_view; [exact Hrm|done..]. }
  split; [|split; [exact Hview|split; [cbn; congruence|split_and!]]].
  - eapply (second_space k1 k2 roots fl fl2 r child va); try done.
    intros r' va' Hr' U' P' E'. destruct (has (leaf (ram k1) r' va') WRITABLE) eqn:Ew; [|done]. exfalso.
    assert (Hrr : r = r').
    { apply (sa_private _ _ (sp_shares _ _ _ Hsp1) r' r va'); try done. by rewrite E'. }
    subst r'. assert (Epg : page_of va' = page_of va).
    { apply (sa_once _ _ (sp_shares _ _ _ Hsp1) r); try done. by rewrite E', Hf1. }
    rewrite (same_page_leaf _ r va' va U' Hu Epg) in Ew. congruence.
  - intros va' U' Epg. rewrite <- (Hview r va' Hr U') by (intros [? _]; congruence). unfold view. cbn [ram share set_field set_SHARED].
    rewrite (same_page_leaf (ram k2) child va' va U' Hu Epg), (rm_leaf _ _ _ _ _ _ _ _ Hrm), Hnp, Hnf.
    rewrite (rm_other _ _ _ _ _ _ _ _ Hrm) by (done || intros [? _]; congruence).
    rewrite (same_page_leaf (ram k1) r va' va U' Hu Epg), Hp1, Hf1. done.
  - cbn [ram share set_field set_SHARED]. by rewrite (rm_leaf _ _ _ _ _ _ _ _ Hrm).
  - cbn [ram share set_field set_SHARED]. by rewrite (rm_leaf _ _ _ _ _ _ _ _ Hrm).
  - cbn [ram share set_field set_SHARED]. rewrite (rm_other _ _ _ _ _ _ _ _ Hrm) by (done || intros [? _]; congruence). done.
  - intros r' va' Hr' U' Hne. cbn [ram share set_field set_SHARED]. rewrite (rm_other _ _ _ _ _ _ _ _ Hrm) by tauto.
    apply Hl1; tauto.
  - intros r' p t' Hr' Hvp E. apply (rm_walk _ _ _ _ _ _ _ _ Hrm); [done..|]. by rewrite Hw1.
Qed.

(** ** The whole fork *)

Definition page_addr (x : Z * Z * Z) : Z := x.1.1.

(** After the pages [finished], with [todo] to go; [k0] is the start. *)
Record forking k0 k roots fl (r child : Z) (finished todo : list (Z * Z * Z)) : Prop := {
  fk_space : space k roots fl;
  fk_others r' va : r' ∈ roots -> r' <> child -> user va -> view k r' va = view k0 r' va;
  fk_cr3 : CR3 k = CR3 k0;
  fk_listed x : x ∈ todo -> listed k r x;
  fk_nodup : NoDup (map page_addr (finished ++ todo));
  fk_child va : user va -> has (leaf (ram k) child va) PRESENT = true ->
    (page_of va ∈ map page_addr finished) /\ has (leaf (ram k) r va) PRESENT = true /\
    frame_of (leaf (ram k) child va) = frame_of (leaf (ram k) r va);
  fk_done va : user va -> page_of va ∈ map page_addr finished -> view k child va = view k0 r va
}.

Lemma listed_addr k r x : listed k r x -> user (page_addr x) /\ page_of (page_addr x) = page_addr x.
Proof. destruct x as [[va e] p]. intros (Hu & Ha & _). split; [done|]. by apply page_of_id. Qed.

Lemma fork_step k0 k roots fl r child finished x todo :
  forking k0 k roots fl r child finished (x :: todo) -> r ∈ roots -> child ∈ roots -> r <> child ->
  exists res k' fl', fork_page child x k = (res, k') /\
    match res with
    | Ok _ => forking k0 k' roots fl' r child (finished ++ [x]) todo
    | Err _ => space k' roots fl' /\ CR3 k' = CR3 k0 /\
        forall r' va, r' ∈ roots -> r' <> child -> user va -> view k' r' va = view k0 r' va
    | Panic => False
    end.
Proof.
  intros [Hsp Hoth Hcr Hlist Hnd Hch Hdone] Hr Hc Hrc.
  pose proof (Hlist x ltac:(left)) as Hx. destruct (listed_addr _ _ _ Hx) as [Hxu Hxp].
  destruct x as [[va e] ptr]. cbn [page_addr fst] in Hxu, Hxp. pose proof Hx as (_ & _ & Hp & He & _).
  assert (Hfresh : va ∉ map page_addr finished).
  { rewrite map_app in Hnd. apply NoDup_app in Hnd as (_ & Hd & _). intros Hin. apply (Hd va Hin). left. }
  assert (Hcp : has (leaf (ram k) child va) PRESENT = false).
  { destruct (has (leaf (ram k) child va) PRESENT) eqn:E; [|done]. apply Hch in E as [Hin _]; [|done]. by rewrite Hxp in Hin. }
  assert (Hcm : ~ maps (ram k) child (frame_of e)).
  { intros (va' & U' & P' & F'). destruct (Hch va' U' P') as (Hin & Pr & Fr). apply Hfresh.
    rewrite <- Hxp. rewrite <- (sa_once _ _ (sp_shares _ _ _ Hsp) r va' va); [done..| |]; rewrite <- He; [done|]. by rewrite <- Fr. }
  destruct (fork_page_spec k roots fl r child va e ptr Hsp Hr Hc Hrc Hx Hcp Hcm) as (res & k' & fl' & -> & Hsp' & Hbut & Hcr' & Hres).
  exists res, k', fl'. split; [done|].
  assert (Hoth' : forall r' va', r' ∈ roots -> r' <> child -> user va' -> view k' r' va' = view k0 r' va').
  { intros r' va' Hr' Hne U'. rewrite Hbut by (done || intros [? _]; done). by apply Hoth. }
  destruct res as [u|err|]; [|split_and!; [done|congruence|done]|done].
  destruct Hres as (Hview & Hcp' & Hcf' & Hrf' & Hleaf & Hwalk).
  assert (Hrp' : has (leaf (ram k') r va) PRESENT = true).
  { apply present_dec_view. rewrite Hoth', <- Hoth, <- present_dec_view by done. by rewrite <- He. }
  constructor; try done; [congruence|..].
  - intros y Hy. pose proof (Hlist y ltac:(by right)) as Hly. destruct (listed_addr _ _ _ Hly) as [Hyu Hyp].
    destruct y as [[vy ey] py]. cbn [page_addr fst] in Hyu, Hyp. destruct Hly as (U & A & P & E & t & W & Ept).
    split_and!; try done.
    + rewrite Hleaf; [done|done|done|]. rewrite Hyp, Hxp. intros ->.
      rewrite map_app in Hnd. apply NoDup_app in Hnd as (_ & _ & Hnd). cbn in Hnd. apply NoDup_cons in Hnd as [Hnd _].
      apply Hnd, list_elem_of_fmap. by exists (va, ey, py).
    + exists t. split; [|done]. apply Hwalk; [done|apply path_valid|done].
  - by rewrite <- app_assoc.
  - intros va' U' P'. rewrite map_app, elem_of_app. cbn. destruct (decide (page_of va' = page_of va)) as [E|E].
    + split_and!; [right; rewrite E, Hxp; left| |]; rewrite !(same_page_leaf (ram k') _ va' va U' Hxu E); congruence.
    + rewrite !Hleaf in * by done. destruct (Hch va' U' P') as (? & ? & ?). split_and!; [by left|done|done].
  - intros va' U' Hin. rewrite map_app, elem_of_app in Hin. cbn in Hin. rewrite list_elem_of_singleton in Hin.
    destruct (decide (page_of va' = page_of va)) as [E|E].
    + rewrite Hview by done. by apply Hoth.
    + rewrite Hbut by (done || intros [_ ?]; done). apply Hdone; [done|]. destruct Hin as [?|Hin]; [done|]. congruence.
Qed.

Lemma fork_loop k0 roots r child todo : r ∈ roots -> child ∈ roots -> r <> child ->
  forall finished k fl, forking k0 k roots fl r child finished todo ->
  exists res k' fl', for_each todo (fork_page child) k = (res, k') /\
    match res with
    | Ok _ => forking k0 k' roots fl' r child (finished ++ todo) []
    | Err _ => space k' roots fl' /\ CR3 k' = CR3 k0 /\
        forall r' va, r' ∈ roots -> r' <> child -> user va -> view k' r' va = view k0 r' va
    | Panic => False
    end.
Proof.
  intros Hr Hc Hrc. induction todo as [|x todo IH]; intros finished k fl Hf.
  - exists (Ok tt), k, fl. split; [done|]. by rewrite app_nil_r.
  - destruct (fork_step _ _ _ _ _ _ _ _ _ Hf Hr Hc Hrc) as (res & k1 & fl1 & E & Hres).
    cbn [for_each]. unfold mbind, io_bind. rewrite E. destruct res as [u|err|]; [|by exists (Err err), k1, fl1|done].
    destruct (IH _ _ _ Hres) as (res & k2 & fl2 & E2 & Hres2). exists res, k2, fl2. split; [done|].
    by rewrite <- app_assoc in Hres2.
Qed.

(** A space with an empty user half, beside the others. *)
Lemma new_space_space k roots fl : space k roots fl -> read_cr3 k ∈ roots -> Z.of_nat (length roots) + 1 < 2 ^ 32 ->
  match AddressSpace_new k with
  | (None, k') => fl = [] /\ k' = k
  | (Some child, k') => exists fl', (child ∉ roots) /\ space k' (child :: roots) fl' /\ rest k' = rest k /\
      (forall va, user va -> leaf (ram k') child va = 0) /\
      forall r va, r ∈ roots -> user va -> view k' r va = view k r va /\ leaf (ram k') r va = leaf (ram k) r va
  end.
Proof.
  intros Hsp Hc Hlen. pose proof (new_space_spec k roots fl (sp_sound _ _ _ Hsp) Hc) as H.
  destruct (AddressSpace_new k) as [[child|] k1]; [|done].
  destruct H as (fl1 & -> & Hnin & Hso1 & Hrest & Hl0 & Hlr & Hram & _). pose proof Hrest as Hrest0.
  unfold rest in Hrest. injection Hrest as Hsh Hcr _ _ _ _. pose proof (sp_shape _ _ _ Hsp) as Hs.
  assert (Hm : forall r' f, r' ∈ roots -> maps (ram k1) r' f <-> maps (ram k) r' f).
  { intros r' f Hr'. apply maps_ext. intros va U. by rewrite Hlr. }
  assert (Hm0 : forall f, ~ maps (ram k1) child f).
  { intros f (va & U & P & _). by rewrite Hl0 in P. }
  assert (Hsp1 : space k1 (child :: roots) fl1).
  { split; [done|]. destruct Hsp as [_ []]. constructor; rewrite ?Hsh; try done.
    - cbn [length]. lia.
    - intros r1 v1 v2 [->|H1]%elem_of_cons U1 U2; [by rewrite Hl0|]. rewrite !Hlr by done. by apply sa_once.
    - intros f. destruct (sa_owners f) as (rs & Hnd & Hrs & Hct). exists rs. split_and!; try done.
      intros r'. rewrite Hrs, elem_of_cons. split.
      + intros [H1 H2]. split; [by right|]. by apply Hm.
      + intros [[->|H1] H2]; [by apply Hm0 in H2|]. split; [done|]. by apply Hm.
    - intros r1 r2 v1 [->|H1]%elem_of_cons H2 U1; [by rewrite Hl0|]. rewrite !Hlr by done. intros P1 W1 M.
      apply elem_of_cons in H2 as [->|H2]; [by apply Hm0 in M|]. apply Hm in M; [|done]. by apply (sa_private r1 r2 v1).
    - intros r1 [->|H1]%elem_of_cons M; [by apply Hm0 in M|]. apply Hm in M; [|done]. by apply (sa_zero r1). }
  assert (Hv1 : forall r' va, r' ∈ roots -> user va -> view k1 r' va = view k r' va).
  { intros r' va Hr' U. apply view_ext; [by apply Hlr|]. intros P. apply Hram.
    pose proof (leaf_mappable k roots _ r' va Hs Hr' U P) as [Hnf Hnw].
    eapply not_free_byte; [exact Hs|apply frame_of_aligned|exact Hnf|apply page_byte]. }
  exists fl1. split_and!; try done. intros r va Hr U. split; [by apply Hv1|by apply Hlr].
Qed.

Lemma fork_spec k roots fl r :
  space k roots fl -> r ∈ roots -> read_cr3 k ∈ roots -> Z.of_nat (length roots) + 1 < 2 ^ 32 ->
  exists res k' fl', fork r k = (res, k') /\ CR3 k' = CR3 k /\
    match res with
    | Some child => (child ∉ roots) /\ space k' (child :: roots) fl' /\
        (forall va, user va -> view k' child va = view k r va) /\
        (forall r' va, r' ∈ roots -> user va -> view k' r' va = view k r' va)
    | None => (forall r' va, r' ∈ roots -> user va -> view k' r' va = view k r' va) /\
        exists lost, (length lost <= 1)%nat /\ (forall c, c ∈ lost -> c ∉ roots) /\ space k' (lost ++ roots) fl'
    end.
Proof.
  intros Hsp Hr Hc Hlen. unfold fork. pose proof (new_space_space k roots fl Hsp Hc Hlen) as H.
  destruct (AddressSpace_new k) as [[child|] k1]; [|destruct H as [_ ->]; exists None, k, fl; split_and!; try done; exists []; split_and!; [cbn; lia|by intros ? ?%not_elem_of_nil|done]].
  destruct H as (fl1 & Hnin & Hsp1 & Hrest & Hl0 & Hvl). unfold rest in Hrest. injection Hrest as Hsh Hcr _ _ _ _.
  assert (Hv1 : forall r' va, r' ∈ roots -> user va -> view k1 r' va = view k r' va) by (intros; by apply Hvl).
  assert (Hrc : r <> child) by (intros ->; done).
  assert (Hf : forking k1 k1 (child :: roots) fl1 r child [] (user_pages (ram k1) r)).
  { pose proof (sp_shape _ _ _ Hsp1) as Hs1. constructor; try done.
    - intros x Hx. apply (elem_of_user_pages _ (child :: roots) fl1) in Hx; [|done|by right].
      destruct Hx as (va & t & U & A & P & W & ->). split_and!; try done. by exists t.
    - apply user_pages_NoDup.
    - intros va U P. by rewrite Hl0 in P.
    - intros va U Hin. by apply not_elem_of_nil in Hin. }
  destruct (fork_loop k1 (child :: roots) r child (user_pages (ram k1) r) ltac:(by right) ltac:(left) Hrc [] k1 fl1 Hf)
    as (res & k2 & fl2 & -> & Hres).
  destruct res as [u|err|]; [| |done].
  - destruct Hres as [Hsp2 Hoth Hcr2 _ _ Hch Hdone]. exists (Some child), k2, fl2. split_and!; try done; [congruence| |].
    + intros va U. rewrite <- Hv1 by done. destruct (decide (page_of va ∈ map page_addr (user_pages (ram k1) r))) as [Hin|Hout].
      { by apply Hdone. }
      transitivity (@None Z).
      * destruct (has (leaf (ram k2) child va) PRESENT) eqn:E; [|unfold view; by rewrite E].
        apply Hch in E as [Hin _]; [|done]. done.
      * destruct (has (leaf (ram k1) r va) PRESENT) eqn:E; [|unfold view; by rewrite E]. exfalso. apply Hout.
        pose proof (page_of_bound va) as Hb. assert (Up : user (page_of va)).
        { unfold user in *. rewrite page_of_div in *. pose proof (Z.div_pos va 4096). lia. }
        assert (Epp : page_of (page_of va) = page_of va) by (apply page_of_id, page_of_aligned).
        assert (El : leaf (ram k1) r (page_of va) = leaf (ram k1) r va) by (by apply same_page_leaf).
        assert (Hw : exists t, walk (ram k1) r (path (page_of va)) = Some t).
        { unfold leaf in El, E. rewrite <- El in E. destruct (walk (ram k1) r (path (page_of va))); [eauto|done]. }
        destruct Hw as [t Hw]. apply list_elem_of_fmap. exists (page_of va, leaf (ram k1) r (page_of va), t + 8 * slot (page_of va)).
        split; [done|]. apply (elem_of_user_pages _ (child :: roots) fl1); [apply (sp_shape _ _ _ Hsp1)|by right|].
        exists (page_of va), t. split_and!; try done; [apply page_of_aligned|by rewrite El].
    + intros r' va Hr' U. rewrite <- Hv1 by done. apply Hoth; [by right| |done]. intros ->. done.
  - destruct Hres as (Hsp2 & Hcr2 & Hoth). exists None, k2, fl2.
    split_and!; [done|congruence| |exists [child]; split_and!; [cbn; lia|by intros c ->%list_elem_of_singleton|done]].
    intros r' va Hr' U. rewrite <- Hv1 by done. apply Hoth; [by right| |done]. intros ->. done.
Qed.

(** ** A page gets a frame of its own *)

Lemma shape_weaken m roots f fl : shape m roots (f :: fl) -> shape m roots fl.
Proof.
  intros []. apply NoDup_cons in sh_nodup as [_ Hnd]. constructor; try done.
  - intros g Hg. apply sh_free. by right.
  - intros g r p Hg. apply sh_free_walk. by right.
  - intros r va Hr U P. destruct (sh_leaf r va Hr U P) as [H1 H2]. apply not_elem_of_cons in H1 as [_ H1]. done.
Qed.

Section fresh.
Context (k k' : Mem D) (roots fl fl' : list Z) (r va v fresh : Z).
Context (Hsp : space k roots (fresh :: fl)) (Hr : r ∈ roots) (Hva : user va).
Context (Hp : has (leaf (ram k) r va) PRESENT = true) (Hv : has v PRESENT = true) (Hf : frame_of v = fresh).
Context (Hso' : sound k' roots fl').
Context (Hleaf : forall r' va', r' ∈ roots -> user va' ->
           leaf (ram k') r' va' = if decide (r' = r /\ page_of va' = page_of va) then v else leaf (ram k) r' va').
Let f := frame_of (leaf (ram k) r va).
Context (Hkeys : NoDup (map fst (SHARED k'))).
Context (Hown : forall g, owners (SHARED k') g =
           if decide (g = f) then match owners (SHARED k) f with
                                  | Some c => if decide (c = 2) then None else Some (c - 1)
                                  | None => None end
           else owners (SHARED k) g).

Lemma fresh_unmapped r' : r' ∈ roots -> ~ maps (ram k) r' fresh.
Proof using All.
  intros Hr' (va' & U & P & E). destruct (sh_leaf _ _ _ (sp_shape _ _ _ Hsp) r' va' Hr' U P) as [Hn _].
  apply Hn. rewrite E. left.
Qed.

Lemma fresh_not_f : fresh <> f.
Proof using All. intros E. apply (fresh_unmapped r Hr). exists va. split_and!; done. Qed.

Lemma fresh_maps r' g : r' ∈ roots ->
  maps (ram k') r' g <-> (maps (ram k) r' g /\ ~ (r' = r /\ g = f)) \/ (r' = r /\ g = fresh).
Proof using All.
  intros Hr'. split.
  - intros (va' & U & P & E). rewrite Hleaf in P, E by done. case_decide as Hd.
    + destruct Hd as [-> _]. right. by rewrite <- E.
    + left. split; [by exists va'|]. intros [-> ->]. apply Hd. split; [done|].
      by apply (sa_once _ _ (sp_shares _ _ _ Hsp) r).
  - intros [[(va' & U & P & E) Hn]|[-> ->]].
    + exists va'. rewrite Hleaf by done. rewrite decide_False; [done|]. intros [-> Epg]. apply Hn. split; [done|].
      unfold f. by rewrite <- E, (same_page_leaf _ r va' va U Hva Epg).
    + exists va. rewrite Hleaf by done. by rewrite decide_True.
Qed.

Lemma fresh_owners : owners (SHARED k) fresh = None.
Proof using All.
  destruct (sa_owners _ _ (sp_shares _ _ _ Hsp) fresh) as (rs & _ & Hrs & Hc).
  destruct (owners (SHARED k) fresh) as [c|]; [|done]. exfalso.
  destruct rs as [|r' rs]; [cbn in Hc; lia|]. assert (Hin : r' ∈ r' :: rs) by left.
  apply Hrs in Hin as [Hr' Hm]. by apply (fresh_unmapped r').
Qed.

Lemma fresh_space : space k' roots fl'.
Proof using All.
  split; [done|]. pose proof (sp_shares _ _ _ Hsp) as Hsh. pose proof Hsh as []. constructor; try done.
  - intros r1 v1 v2 H1 U1 U2. rewrite !Hleaf by done.
    destruct (decide (r1 = r /\ page_of v1 = page_of va)) as [[-> E1]|N1],
      (decide (_ /\ page_of v2 = page_of va)) as [[E0 E2]|N2]; intros P1 P2 E; try congruence.
    + exfalso. apply (fresh_unmapped r Hr). exists v2. by rewrite <- E.
    + exfalso. subst r1. apply (fresh_unmapped r Hr). exists v1. by rewrite E.
    + by apply (sa_once r1).
  - intros g. rewrite Hown. destruct (sa_owners g) as (rs & Hnd & Hrs & Hc). case_decide as Eg.
    + subst g. assert (Hin : r ∈ rs) by (apply Hrs; split; [done|by exists va]).
      apply list_elem_of_split in Hin as (rs1 & rs2 & ->). exists (rs1 ++ rs2).
      rewrite <- Permutation_middle in Hnd. apply NoDup_cons in Hnd as [Hnin Hnd].
      assert (Hlen : length (rs1 ++ r :: rs2) = S (length (rs1 ++ rs2))) by (rewrite !length_app; cbn; lia).
      rewrite Hlen in Hc. split; [done|]. split.
      * intros r'. specialize (Hrs r'). rewrite elem_of_app, elem_of_cons in Hrs.
        assert (Hrr : r' ∈ rs1 ++ rs2 -> r' <> r) by (intros Hin ->; done). rewrite elem_of_app in *.
        split; intros H.
        -- destruct Hrs as [Hrs _]. destruct Hrs as [H1 H2]; [tauto|]. split; [done|]. apply fresh_maps; [done|].
           left. split; [done|]. intros [? _]. by apply Hrr.
        -- destruct H as [H1 H2]. apply fresh_maps in H2 as [[H2 Hn]|[_ E]]; [|by destruct fresh_not_f|done].
           assert (r' <> r) by tauto. tauto.
      * destruct (owners (SHARED k) f) as [c|]; [|lia]. destruct Hc as [H2 ->]. case_decide; lia.
    + destruct (decide (g = fresh)) as [->|Ef].
      * rewrite fresh_owners. exists [r]. split; [apply NoDup_singleton|]. split; [|cbn; lia].
        intros r'. rewrite list_elem_of_singleton. split.
        -- intros ->. split; [done|]. apply fresh_maps; auto.
        -- intros [H1 H2]. apply fresh_maps in H2 as [[H2 _]|[? _]]; [by destruct (fresh_unmapped r' H1)|done..].
      * exists rs. split_and!; try done. intros r'. rewrite Hrs. split; intros [H1 H2]; (split; [done|]).
        -- apply fresh_maps; [done|]. left. split; [done|tauto].
        -- apply fresh_maps in H2 as [[? _]|[_ ?]]; done.
  - intros r1 r2 v1 H1 H2 U1. rewrite Hleaf by done. case_decide as Hd.
    + destruct Hd as [-> _]. rewrite Hf. intros _ _ M. apply fresh_maps in M as [[M _]|[? _]]; [|done|done].
      by destruct (fresh_unmapped r2 H2).
    + intros P1 W1 M. apply fresh_maps in M as [[M _]|[-> E]]; [by apply (sa_private r1 r2 v1)| |done].
      destruct (fresh_unmapped r1 H1). exists v1. by rewrite E.
  - intros r1 H1 M. apply fresh_maps in M as [[M _]|[_ E]]; [by apply (sa_zero r1)| |done].
    destruct (sh_free _ _ _ (sp_shape _ _ _ Hsp) fresh ltac:(left)) as [_ ?]. lia.
Qed.
End fresh.

(** ** The fault handler *)

Lemma leaf_table_walk m t p : leaf_table m t p = walk m t p.
Proof.
  revert t. induction p as [|i p IH]; intros t; [done|]. cbn. unfold link.
  destruct (has (get m t i) PRESENT), (has (get m t i) HUGE); cbn; (apply IH || done).
Qed.

(** The entry that makes a copied, or sole, page writable again. *)
Lemma private_entry fresh e : framelike fresh -> u64 e -> has e PRESENT = true ->
  let v := Z.lor fresh (clear (Z.lor (flags_of e) WRITABLE) COW) in
  u64 v /\ frame_of v = fresh /\ has v PRESENT = true /\ has v WRITABLE = true.
Proof.
  intros [Ha Hb] Hu Hp v.
  assert (E0 : frame_of (Z.lor (flags_of e) WRITABLE) = 0) by (by rewrite frame_of_lor, frame_of_flags).
  split_and!.
  - apply u64_lor; [by apply framelike_word|]. apply u64_ldiff, u64_lor; [by apply u64_ldiff|unfold u64, WRITABLE; lia].
  - unfold v. rewrite frame_of_lor, frame_of_clear, Z.lor_0_r by done. apply frame_of_id; [done|lia].
  - unfold v. rewrite has_lor. change PRESENT with (2 ^ 0) in *. rewrite !has_bit in * by done. unfold clear.
    rewrite Z.ldiff_spec, Z.lor_spec, flags_of_testbit, Hp. cbn. by rewrite orb_true_r.
  - unfold v. rewrite has_lor. change WRITABLE with (2 ^ 1). rewrite !has_bit by done. unfold clear.
    rewrite Z.ldiff_spec, Z.lor_spec. cbn. by rewrite !orb_true_r.
Qed.

Lemma sole_entry e : u64 e -> has e PRESENT = true ->
  let v := clear (Z.lor e WRITABLE) COW in
  u64 v /\ frame_of v = frame_of e /\ has v PRESENT = true /\ has v WRITABLE = true.
Proof.
  intros Hu Hp v. split_and!.
  - apply u64_ldiff, u64_lor; [done|unfold u64, WRITABLE; lia].
  - apply Z.bits_inj'. intros i Hi. rewrite !land_mask_testbit. unfold v, clear. rewrite Z.ldiff_spec, Z.lor_spec.
    destruct (bool_decide (12 <= i < 52)) eqn:Eb; [|by rewrite !andb_false_r]. apply bool_decide_eq_true in Eb.
    change WRITABLE with (2 ^ 1). change COW with (2 ^ 9). rewrite !Z.pow2_bits_false by lia.
    by rewrite orb_false_r, !andb_true_r.
  - unfold v, clear. change PRESENT with (2 ^ 0) in *. rewrite !has_bit in * by done. by rewrite Z.ldiff_spec, Z.lor_spec, Hp.
  - unfold v, clear. change WRITABLE with (2 ^ 1). rewrite !has_bit by done. rewrite Z.ldiff_spec, Z.lor_spec. cbn.
    by rewrite orb_true_r.
Qed.

(** Copying a page into a free frame is seen by nobody. *)
Lemma copy_fresh k k2 roots fl r va fresh :
  space k roots (fresh :: fl) -> r ∈ roots -> user va -> has (leaf (ram k) r va) PRESENT = true ->
  ram k2 = ram k -> chain (ram k2) (head (ALLOCATOR k2)) fl -> free (ALLOCATOR k2) = Z.of_nat (length fl) ->
  let k3 := update_ram (copy (frame_of (leaf (ram k) r va)) fresh PAGE_SIZE) k2 in
  sound k3 roots fl /\ mappable (ram k3) roots fl fresh /\
  (forall r' p, r' ∈ roots -> valid p -> walk (ram k3) r' p = walk (ram k) r' p) /\
  (forall r' va', r' ∈ roots -> leaf (ram k3) r' va' = leaf (ram k) r' va') /\
  (forall r' va', r' ∈ roots -> user va' -> view k3 r' va' = view k r' va') /\
  (forall o, 0 <= o < 4096 -> ram k3 (fresh + o) = ram k (frame_of (leaf (ram k) r va) + o)).
Proof.
  intros Hsp Hr Hva Hp Eram Hch Hn k3. pose proof (sp_shape _ _ _ Hsp) as Hs.
  pose proof (sh_free _ _ _ Hs fresh ltac:(left)) as Hfr. set (f := frame_of (leaf (ram k) r va)) in *.
  assert (Er : ram k3 = copy f fresh PAGE_SIZE (ram k)) by (unfold k3; cbn [ram update_ram set_field set_ram]; by rewrite Eram).
  assert (Hout : forall x, ~ fresh <= x < fresh + 4096 -> ram k3 x = ram k x).
  { intros x Hx. rewrite Er. by apply copy_out. }
  assert (Htab : forall x, any_table_byte (ram k) roots x -> ram k3 x = ram k x).
  { intros x Hx. apply Hout. intros Hin. eapply (not_table_byte _ _ _ fresh x Hs); [apply Hfr| |done|done].
    intros r' p Hr' Hvp. apply (sh_free_walk _ _ _ Hs); [left|done..]. }
  assert (Hok : bytes_ok (ram k3)) by (rewrite Er; apply copy_ok, Hs).
  pose proof (shape_weaken _ _ _ _ Hs) as Hs'. pose proof (sh_nodup _ _ _ Hs) as [Hnin Hnd]%NoDup_cons.
  assert (Hw : forall r' p, r' ∈ roots -> valid p -> walk (ram k3) r' p = walk (ram k) r' p) by (intros; by apply (data_walk _ _ _ _ Hs' Htab)).
  assert (Hl : forall r' va', r' ∈ roots -> leaf (ram k3) r' va' = leaf (ram k) r' va') by (intros; by apply (data_leaf _ _ _ _ Hs' Htab)).
  split_and!; try done.
  - pose proof (so_count _ _ _ (sp_sound _ _ _ Hsp)) as [_ Hlen].
    constructor; [by apply (data_shape (ram k))| |split; [exact Hn|cbn [length] in Hlen; lia]].
    apply (chain_ext (ram k2)); [|exact Hch]. intros g Hg. rewrite Eram.
    pose proof (sh_free _ _ _ Hs g ltac:(by right)) as [Hga _]. assert (fresh <> g) by (intros ->; done).
    pose proof (aligned_apart fresh g (proj1 Hfr) Hga ltac:(done)). apply load_ext. intros x Hx. apply Hout. lia.
  - split; [done|]. intros r' p Hr' Hvp. rewrite Hw by done. apply (sh_free_walk _ _ _ Hs); [left|done..].
  - intros r' va' Hr' U. apply view_ext; [by apply Hl|]. intros P. apply Hout.
    destruct (leaf_mappable k roots _ r' va' Hs Hr' U P) as [[Hnf _]%not_elem_of_cons _].
    pose proof (page_byte (frame_of (leaf (ram k) r' va')) va').
    pose proof (aligned_apart fresh _ (proj1 Hfr) (frame_of_aligned (leaf (ram k) r' va')) ltac:(done)). lia.
  - intros o Ho. rewrite Er. unfold PAGE_SIZE. rewrite copy_in by lia. f_equal. lia.
Qed.

Lemma head_free k roots fl : sound k roots fl -> head (ALLOCATOR k) <> 0 -> exists f fl', fl = f :: fl'.
Proof. intros [_ Hc _]. destruct fl as [|f fl]; [by rewrite Hc|eauto]. Qed.

Context `{!Disk D}.

Lemma cow_fault_spec k roots fl va :
  space k roots fl -> read_cr3 k ∈ roots -> user va -> head (ALLOCATOR k) <> 0 ->
  let e := leaf (ram k) (read_cr3 k) va in
  has e PRESENT = true -> has e COW = true -> has e WRITABLE = false ->
  exists k' fl', cow_fault va k = (true, k') /\ space k' roots fl' /\ CR3 k' = CR3 k /\
    (forall r' va', r' ∈ roots -> user va' -> view k' r' va' = view k r' va') /\
    has (leaf (ram k') (read_cr3 k) va) PRESENT = true /\ has (leaf (ram k') (read_cr3 k) va) WRITABLE = true /\
    (length fl <= S (length fl'))%nat /\
    (forall r' va', r' ∈ roots -> user va' -> ~ (r' = read_cr3 k /\ page_of va' = page_of va) -> leaf (ram k') r' va' = leaf (ram k) r' va').
Proof.
  intros Hsp Hc Hva Hhead e Hp Hcow Hro. pose proof (sp_shape _ _ _ Hsp) as Hs.
  unfold cow_fault. pose proof (page_of_bound va). unfold user in Hva.
  rewrite (proj2 (Z.leb_gt USER_SPACE_END (page_of va))) by lia. rewrite indexes_page_of by lia.
  change (take 3 (indexes va)) with (path va). change (indexes va !!! 3%nat) with (slot va). rewrite leaf_table_walk.
  fold (user va) in Hva. set (r := read_cr3 k) in *.
  assert (Hw : exists t, walk (ram k) r (path va) = Some t /\ get (ram k) t (slot va) = e).
  { unfold e, leaf in *. destruct (walk (ram k) r (path va)) as [t|]; [eauto|done]. }
  destruct Hw as (t & Hw & Ee). rewrite Hw, Ee, Hp, Hcow, Hro. cbn [negb orb].
  assert (Hue : u64 e) by (rewrite <- Ee; apply get_u64, Hs).
  destruct (Z.ltb_spec 1 (share_count k (frame_of e))) as [Hsh|Hsole].
  - destruct (head_free _ _ _ (sp_sound _ _ _ Hsp) Hhead) as (fresh & fl' & ->).
    assert (Hown : exists c, owners (SHARED k) (frame_of e) = Some c).
    { rewrite share_count_owners in Hsh. destruct (owners (SHARED k) (frame_of e)) as [c|]; [eauto|cbn in Hsh; lia]. }
    destruct Hown as [c Hown]. pose proof (owners_bound k roots _ c (sp_shares _ _ _ Hsp) Hown) as Hcb.
    pose proof (unshare_spec k (frame_of e) c (sa_keys _ _ (sp_shares _ _ _ Hsp)) Hown Hcb) as (_ & Hk1 & Ho1).
    set (k1 := (unshare (frame_of e) k).2) in *.
    assert (Hrest1 : ram k1 = ram k /\ ALLOCATOR k1 = ALLOCATOR k /\ CR3 k1 = CR3 k).
    { unfold k1, unshare. cbv zeta. destruct (find_share (frame_of e) (SHARED k)); done. }
    destruct Hrest1 as (Eram1 & Eal1 & Ecr1).
    assert (Hso1 : sound k1 roots (fresh :: fl')).
    { destruct (sp_sound _ _ _ Hsp). constructor; by rewrite ?Eram1, ?Eal1. }
    destruct (allocate_Some _ _ _ _ Hso1) as (k2 & Ea & Eram2 & Erest2 & Hch2 & Hn2).
    unfold allocate_or_evict. rewrite Ea. unfold rest in Erest2. injection Erest2 as Esh2 Ecr2 _ _ _ _.
    destruct (copy_fresh k k2 roots fl' r va fresh Hsp Hc Hva Hp ltac:(congruence) Hch2 Hn2) as (Hso3 & Hmap3 & Hw3 & Hl3 & Hv3 & Hb3).
    fold e in Hso3, Hmap3, Hw3, Hl3, Hv3, Hb3. set (k3 := update_ram (copy (frame_of e) fresh PAGE_SIZE) k2) in *.
    pose proof (sh_free _ _ _ Hs fresh ltac:(left)) as Hfr.
    destruct (private_entry fresh e Hfr Hue Hp) as (Hvu & Hvf & Hvp & Hvw).
    set (v := Z.lor fresh _) in *.
    assert (Hrm : remapped roots r va v k3 (update_ram (set t (slot va) v) k3) fl' fl').
    { apply set_leaf_remapped; try done; [by rewrite Hw3 by (done || apply path_valid)|]. intros _. by rewrite Hvf. }
    set (k4 := update_ram (set t (slot va) v) k3) in *.
    assert (Hleaf : forall r' va', r' ∈ roots -> user va' ->
              leaf (ram k4) r' va' = if decide (r' = r /\ page_of va' = page_of va) then v else leaf (ram k) r' va').
    { intros r' va' Hr' U. destruct (decide (r' = r /\ page_of va' = page_of va)) as [[-> E]|Hd].
      - by rewrite (same_page_leaf _ r va' va U Hva E), (rm_leaf _ _ _ _ _ _ _ _ Hrm).
      - by rewrite (rm_other _ _ _ _ _ _ _ _ Hrm), Hl3. }
    exists k4, fl'. split; [done|]. split; [|split; [|split; [|split; [|split; [|split]]]]].
    + eapply (fresh_space k k4 roots fl' fl' r va v fresh); try done.
      * apply (rm_sound _ _ _ _ _ _ _ _ Hrm).
      * change (SHARED k4) with (SHARED k2). by rewrite Esh2.
      * intros g. change (SHARED k4) with (SHARED k2). rewrite Esh2. fold e. rewrite Ho1, Hown. done.
    + change (CR3 k4) with (CR3 k2). congruence.
    + intros r' va' Hr' U. destruct (decide (r' = r /\ page_of va' = page_of va)) as [[-> E]|Hne].
      * unfold view. rewrite Hleaf, decide_True, Hvp, Hvf by done. rewrite (same_page_leaf (ram k) r va' va U Hva E).
        fold e. rewrite Hp. f_equal. rewrite <- Hb3 by (apply Z.mod_pos_bound; lia).
        apply (rm_ram _ _ _ _ _ _ _ _ Hrm).
        -- intros Ht%private_any. destruct Hmap3 as [_ Hmw].
           apply (not_table_byte _ _ _ _ _ (so_shape _ _ _ Hso3) (proj1 Hfr) Hmw (page_byte fresh va')). done.
        -- eapply not_free_byte; [apply Hso3|apply Hfr|apply Hmap3|apply page_byte].
      * rewrite <- Hv3 by done. eapply remapped_view; [exact Hrm|apply Hso3|done..].
    + by rewrite (rm_leaf _ _ _ _ _ _ _ _ Hrm).
    + by rewrite (rm_leaf _ _ _ _ _ _ _ _ Hrm).
    + done.
    + intros r' va' Hr' U Hd. by rewrite Hleaf, decide_False.
  - destruct (sole_entry e Hue Hp) as (Hvu & Hvf & Hvp & Hvw). set (v := clear _ COW) in *.
    assert (Hrm : remapped roots r va v k (update_ram (set t (slot va) v) k) fl fl).
    { apply set_leaf_remapped; try done; [apply Hsp|]. intros _. rewrite Hvf. by apply leaf_mappable. }
    exists (update_ram (set t (slot va) v) k), fl. split; [done|]. split; [|split; [done|split; [|split; [|split; [|split; [lia|]]]]]].
    + eapply flags_space; [exact Hsp|exact Hc|exact Hva|exact Hrm|done|done|done|done|]. fold e. intros _ r' Hr' Hm.
      apply (not_shared_unique k roots (frame_of e)); try done; [apply Hsp|lia|]. by exists va.
    + intros r' va' Hr' U. eapply flags_view; [exact Hsp|exact Hva|exact Hrm|done..].
    + by rewrite (rm_leaf _ _ _ _ _ _ _ _ Hrm).
    + by rewrite (rm_leaf _ _ _ _ _ _ _ _ Hrm).
    + intros r' va' Hr' U Hd. by rewrite (rm_other _ _ _ _ _ _ _ _ Hrm).
Qed.
End cow.
