(* ===== verification/Destroy.v ===== *)
(** * Tearing an address space down

    [destroy] walks the user half of a space and gives back what only it
    used: the pages nobody shares, and its tables.  The walk is flattened to
    the list of what it meets, in order; every item taken from the list
    leaves the other spaces whole. *)

From S2P Require Import Prelude Bytes Disk Pages Replace Swap Memory PageTables Spaces UserPages Sharing Cow.

#[local] Arguments Z.pow : simpl never.
#[local] Arguments load : simpl never.
#[local] Arguments Z.mul : simpl never.
#[local] Arguments Z.add : simpl never.

(** ** Giving one frame back *)

Section dealloc.
Context {D : Type}.
Implicit Types k : Mem D.

(** The free list, by itself. *)
Record free_list k (fl : list Z) : Prop := {
  fr_chain : chain (ram k) (head (ALLOCATOR k)) fl;
  fr_nodup : NoDup fl;
  fr_frames : Forall framelike fl;
  fr_count : free (ALLOCATOR k) = Z.of_nat (length fl);
  fr_bytes : bytes_ok (ram k)
}.

(** There are fewer than 2^40 frames. *)
Lemma frames_bound fl : NoDup fl -> Forall framelike fl -> Z.of_nat (length fl) < 2 ^ 40.
Proof.
  intros Hnd Hf. set (frames := map (fun i => i * 4096) (seqZ 1 (2 ^ 40 - 1))).
  assert (Hlen : (length fl <= length frames)%nat).
  { apply submseteq_length, NoDup_submseteq; [done|]. intros f Hin. rewrite Forall_forall in Hf.
    destruct (Hf f Hin) as [Ha Hb]. unfold aligned in Ha. apply list_elem_of_fmap. exists (f / 4096).
    pose proof (Z.div_mod f 4096 ltac:(lia)). assert (E : 2 ^ 52 = 4096 * 2 ^ 40) by done. split; [lia|].
    apply elem_of_seqZ. lia. }
  unfold frames in Hlen. rewrite length_map, length_seqZ in Hlen.
  assert (0 < 2 ^ 40) by (apply Z.pow_pos_nonneg; lia). lia.
Qed.

Lemma deallocate_free_list k fl f :
  free_list k fl -> framelike f -> f ∉ fl ->
  let k' := deallocate f k in
  free_list k' (f :: fl) /\ (forall x, ~ f <= x < f + 8 -> ram k' x = ram k x) /\
  total (ALLOCATOR k') = total (ALLOCATOR k) /\ rest k' = rest k.
Proof.
  intros [Hc Hnd Hf Hn Hb] Hff Hnin k'.
  assert (Hout : forall x, ~ f <= x < f + 8 -> ram k' x = ram k x) by (intros x Hx; by apply store_out).
  assert (Hu : u64 (head (ALLOCATOR k))) by (by apply (chain_head_word (ram k) _ fl)).
  split; [|done]. pose proof (frames_bound fl Hnd Hf) as Hlen.
  assert (E40 : 2 ^ 40 < 2 ^ 64) by (by apply Z.pow_lt_mono_r).
  constructor.
  - split; [done|]. cbn [ram k' deallocate update_ram set_field set_ram set_ALLOCATOR ALLOCATOR head].
    rewrite load_store by exact Hu. apply (chain_ext (ram k)); [|done]. intros g Hg.
    rewrite Forall_forall in Hf. assert (f <> g) by (intros ->; done).
    pose proof (aligned_apart f g (proj1 Hff) (proj1 (Hf g Hg)) ltac:(done)). apply load_ext. intros x Hx. apply Hout. lia.
  - by constructor.
  - by constructor.
  - cbn [k' deallocate update_ram set_field set_ram set_ALLOCATOR ALLOCATOR free length]. rewrite Hn.
    rewrite wrap_small; [lia|]. unfold in_u. lia.
  - by apply store_ok.
Qed.

Lemma sound_free_list k roots fl : sound k roots fl -> free_list k fl.
Proof. intros [Hs Hc [Hn _]]. constructor; try done; [apply (sh_nodup _ _ _ Hs)|apply Forall_forall, (sh_free _ _ _ Hs)|apply (sh_bytes _ _ _ Hs)]. Qed.

Lemma shape_cons m roots fl f : shape m roots fl -> framelike f -> f ∉ fl ->
  (forall r p, r ∈ roots -> valid p -> walk m r p <> Some f) -> (forall r, r ∈ roots -> ~ maps m r f) -> shape m roots (f :: fl).
Proof.
  intros [] Hf Hnin Hw Hm. constructor; try done.
  - by constructor.
  - by intros g [->|?]%elem_of_cons; [|apply sh_free].
  - intros g r p [->|?]%elem_of_cons; [by apply Hw|by apply sh_free_walk].
  - intros r va Hr U P. destruct (sh_leaf r va Hr U P) as [H1 H2]. split; [|done].
    apply not_elem_of_cons. split; [|done]. intros E. apply (Hm r Hr). by exists va.
Qed.

(** A frame that no space uses goes back to the list, and no space notices. *)
Lemma deallocate_sound k roots fl f : sound k roots fl -> framelike f -> f ∉ fl ->
  (forall r p, r ∈ roots -> valid p -> walk (ram k) r p <> Some f) -> (forall r, r ∈ roots -> ~ maps (ram k) r f) ->
  let k' := deallocate f k in
  sound k' roots (f :: fl) /\ rest k' = rest k /\ (forall x, ~ f <= x < f + 8 -> ram k' x = ram k x) /\
  (forall r va, r ∈ roots -> leaf (ram k') r va = leaf (ram k) r va) /\
  (forall r va, r ∈ roots -> user va -> view k' r va = view k r va).
Proof.
  intros Hso Hf Hnin Hw Hm k'. pose proof (so_shape _ _ _ Hso) as Hs.
  destruct (deallocate_free_list k fl f (sound_free_list _ _ _ Hso) Hf Hnin) as (Hfl & Hout & _ & Hrest). fold k' in Hfl, Hout, Hrest.
  assert (Htab : forall x, any_table_byte (ram k) roots x -> ram k' x = ram k x).
  { intros x Hx. apply Hout. intros Hb. apply (not_table_byte (ram k) roots fl f x Hs (proj1 Hf) Hw); [lia|done]. }
  assert (Hs' : shape (ram k') roots fl) by (apply (data_shape (ram k)); [done|apply Hfl|done]).
  assert (Hleaf : forall r va, r ∈ roots -> leaf (ram k') r va = leaf (ram k) r va) by (intros; by apply (data_leaf (ram k) _ roots fl)).
  split_and!; try done.
  - split.
    + apply shape_cons; try done.
      * intros r p Hr Hp. rewrite (data_walk (ram k) _ roots fl) by done. by apply Hw.
      * intros r Hr Hmap. apply (Hm r Hr). revert Hmap. apply maps_ext. intros va U. by rewrite Hleaf.
    + apply Hfl.
    + split; [apply Hfl|]. pose proof (frames_bound _ (fr_nodup _ _ Hfl) (fr_frames _ _ Hfl)).
      assert (2 ^ 40 < 2 ^ 52) by (by apply Z.pow_lt_mono_r). lia.
  - intros r va Hr U. apply view_ext; [by apply Hleaf|]. intros P. apply Hout. intros Hb.
    pose proof (page_byte (frame_of (leaf (ram k) r va)) va) as Hx.
    assert (frame_of (leaf (ram k) r va) <> f) by (intros E; apply (Hm r Hr); by exists va).
    pose proof (aligned_apart _ _ (frame_of_aligned (leaf (ram k) r va)) (proj1 Hf) ltac:(done)). lia.
Qed.
End dealloc.

(** ** What the walk meets *)

Inductive item := Leaf (f : Z) | Tab (t : Z).
Definition item_frame (x : item) : Z := match x with Leaf f | Tab f => f end.

Definition is_leaf (level : nat) (e : Z) : bool := (level =? 1)%nat || ((1 <? level)%nat && has e HUGE).

Fixpoint items (m : memory) (level : nat) (t : Z) : list item :=
  mjoin (map (fun n => let e := get m t (Z.of_nat n) in
    if negb (has e PRESENT) then []
    else if is_leaf level e then [Leaf (frame_of e)]
    else match level with O => [] | S level => items m level (frame_of e) end) (seq 0 512)) ++ [Tab t].

(** What one entry adds. *)
Definition under (m : memory) (level : nat) (t : Z) (n : nat) : list item :=
  let e := get m t (Z.of_nat n) in
  if negb (has e PRESENT) then []
  else if is_leaf level e then [Leaf (frame_of e)]
  else match level with O => [] | S level => items m level (frame_of e) end.

Lemma items_unfold m level t : items m level t = mjoin (map (under m level t) (seq 0 512)) ++ [Tab t].
Proof. by destruct level. Qed.

Section flat.
Context {D : Type}.
Implicit Types k : Mem D.

Definition give (x : item) k : Z * Mem D :=
  match x with
  | Leaf f => if 1 <? share_count k f then (0, (unshare f k).2) else (1, deallocate f k)
  | Tab t => (1, deallocate t k)
  end.

Fixpoint give_all (l : list item) k : Z * Mem D :=
  match l with
  | [] => (0, k)
  | x :: l => let '(a, k) := give x k in let '(b, k) := give_all l k in (a + b, k)
  end.

Lemma give_all_app l1 l2 k : give_all (l1 ++ l2) k = ((give_all l1 k).1 + (give_all l2 (give_all l1 k).2).1, (give_all l2 (give_all l1 k).2).2).
Proof.
  revert k. induction l1 as [|x l1 IH]; intros k; cbn [app give_all]; [cbn [fst snd]; rewrite Z.add_0_l; by destruct (give_all l2 k)|].
  destruct (give x k) as [a k1]. rewrite IH. destruct (give_all l1 k1) as [b k2]. cbn. f_equal. lia.
Qed.

Lemma give_all_one x k : give_all [x] k = give x k.
Proof. cbn. destruct (give x k) as [a k1]. f_equal. lia. Qed.

Lemma give_ram x k y : ~ item_frame x <= y < item_frame x + 8 -> ram (give x k).2 y = ram k y.
Proof.
  intros Hy. destruct x as [f|t]; cbn [give item_frame] in *.
  - destruct (1 <? _); [|by apply store_out]. unfold unshare. destruct (find_share f _); [|done]. cbv zeta. by case_match.
  - by apply store_out.
Qed.

Lemma give_all_ram l k y : (forall x, x ∈ l -> ~ item_frame x <= y < item_frame x + 8) -> ram (give_all l k).2 y = ram k y.
Proof.
  revert k. induction l as [|x l IH]; intros k Hy; [done|]. cbn [give_all]. pose proof (give_ram x k y (Hy x ltac:(left))) as Hx.
  destruct (give x k) as [a k1]. specialize (IH k1 ltac:(intros; apply Hy; by right)). destruct (give_all l k1) as [b k2]. cbn in *. congruence.
Qed.

(** Entries of tables that are not dropped stay. *)
Lemma give_all_get l k t i : aligned t -> Forall (fun x => aligned (item_frame x)) l -> t ∉ map item_frame l -> index i ->
  get (ram (give_all l k).2) t i = get (ram k) t i.
Proof.
  intros Ht Hl Hnin Hi. apply get_ext; [done|done|]. intros x Hx. apply give_all_ram. intros y Hy Hin. rewrite Forall_forall in Hl.
  assert (t <> item_frame y) by (intros ->; by apply Hnin, list_elem_of_fmap_2).
  pose proof (aligned_apart t (item_frame y) Ht (Hl y Hy) ltac:(done)). lia.
Qed.
End flat.

(** ** The walk is that list *)

Lemma under_in m level t n x : (n < 512)%nat -> x ∈ under m level t n -> x ∈ items m level t.
Proof.
  intros Hn Hx. rewrite items_unfold. apply elem_of_app. left. apply list_elem_of_join. exists (under m level t n).
  split; [done|]. apply list_elem_of_fmap_2, elem_of_seq. lia.
Qed.

Lemma table_in m level t : Tab t ∈ items m level t.
Proof. rewrite items_unfold. apply elem_of_app. right. by apply list_elem_of_singleton. Qed.

(** Memories that agree on a tree's tables have the same list. *)
Definition same_tables (m m' : memory) (l : list item) : Prop :=
  forall u i, Tab u ∈ l -> index i -> get m' u i = get m u i.

Lemma same_tables_sub m m' l l' : same_tables m m' l -> l' ⊆ l -> same_tables m m' l'.
Proof. intros H Hs u i Hu. apply H. by apply Hs. Qed.

Lemma index_nat n : (n < 512)%nat -> index (Z.of_nat n).
Proof. unfold index. lia. Qed.

Lemma items_ext m m' level : forall t, same_tables m m' (items m level t) -> items m' level t = items m level t.
Proof.
  induction level as [|level IH]; intros t H; rewrite !items_unfold; do 2 f_equal; apply map_ext_in; intros n Hn%in_seq;
    unfold under; rewrite (H t (Z.of_nat n)) by (apply table_in || (apply index_nat; lia)); [done|].
  destruct (has (get m t (Z.of_nat n)) PRESENT) eqn:E1, (is_leaf (S level) (get m t (Z.of_nat n))) eqn:E2; try done. cbn [negb].
  apply IH. eapply same_tables_sub; [exact H|]. intros x Hx. apply (under_in m (S level) t n); [lia|]. unfold under. by rewrite E1, E2.
Qed.

Section walk.
Context {D : Type}.
Implicit Types k : Mem D.

Lemma wrap_add a b : wrap 64 (wrap 64 a + b) = wrap 64 (a + b).
Proof. unfold wrap. apply Zplus_mod_idemp_l. Qed.

Lemma fold_under (step : Z * Mem D -> nat -> Z * Mem D) m level t ns :
  (forall n k freed, n ∈ ns -> same_tables m (ram k) (Tab t :: under m level t n) -> NoDup (map item_frame (under m level t n)) ->
     Forall (fun x => aligned (item_frame x)) (under m level t n) -> wrap 64 freed = freed ->
     step (freed, k) n = (freed +₆₄ (give_all (under m level t n) k).1, (give_all (under m level t n) k).2)) ->
  forall k freed, let l := mjoin (map (under m level t) ns) in
  same_tables m (ram k) (Tab t :: l) -> NoDup (map item_frame (Tab t :: l)) ->
  Forall (fun x => aligned (item_frame x)) (Tab t :: l) -> wrap 64 freed = freed ->
  fold_left step ns (freed, k) = (freed +₆₄ (give_all l k).1, (give_all l k).2).
Proof.
  induction ns as [|n ns IH]; intros Hstep k freed l Hm Hnd Hal Hfr; [cbn; rewrite Z.add_0_r; by rewrite Hfr|].
  assert (El : l = under m level t n ++ mjoin (map (under m level t) ns)) by done. clearbody l. subst l.
  set (l1 := under m level t n) in *. set (l2 := mjoin _) in *. cbn [map] in Hnd. rewrite map_app in Hnd.
  apply NoDup_cons in Hnd as [Ht Hnd]. apply NoDup_app in Hnd as (Hnd1 & Hdis & Hnd2). rewrite elem_of_app in Ht.
  apply Forall_cons in Hal as [Hta [Hal1 Hal2]%Forall_app]. cbn [fold_left]. rewrite (Hstep n k freed); [|by left| |done..].
  2: { eapply same_tables_sub; [exact Hm|]. intros x [->|Hx]%elem_of_cons; [left|right; apply elem_of_app; by left]. }
  fold l1. rewrite give_all_app. rewrite IH; cbn [fst snd].
  - f_equal. rewrite wrap_add. f_equal. lia.
  - intros; apply Hstep; try done. by right.
  - intros u i Hu Hi. rewrite give_all_get; [|..|done]. 3: done.
    + apply Hm; [|done]. apply elem_of_cons in Hu as [Hu|Hu]; [rewrite Hu; left|right; apply elem_of_app; by right].
    + apply elem_of_cons in Hu as [[= ->]|Hu]; [done|]. rewrite Forall_forall in Hal2. apply (Hal2 (Tab u) Hu).
    + apply elem_of_cons in Hu as [[= ->]|Hu]; [tauto|]. intros H1. apply (Hdis u H1). by apply (list_elem_of_fmap_2 item_frame l2 (Tab u)).
  - cbn [map]. apply NoDup_cons. tauto.
  - by constructor.
  - unfold wrap. by rewrite Z.mod_mod.
Qed.

Lemma tab_first l x : NoDup (map item_frame (l ++ [x])) -> Forall (fun y => aligned (item_frame y)) (l ++ [x]) ->
  NoDup (map item_frame (x :: l)) /\ Forall (fun y => aligned (item_frame y)) (x :: l).
Proof.
  intros Hnd [Hl Hx%Forall_inv]%Forall_app. split; [by rewrite map_app, Permutation_app_comm in Hnd|]. apply Forall_cons. split; [exact Hx|exact Hl].
Qed.

Lemma free_subtree_items level : forall t k, let l := items (ram k) level t in
  NoDup (map item_frame l) -> Forall (fun x => aligned (item_frame x)) l ->
  free_subtree level t k = (wrap 64 (give_all l k).1, (give_all l k).2).
Proof.
  induction level as [|level IH]; intros t k l Hnd Hal; unfold l in *; clear l; rewrite items_unfold in *.
  all: destruct (tab_first _ _ Hnd Hal) as [Hnd' Hal'].
  all: rewrite give_all_app, give_all_one; cbn [free_subtree give fst snd].
  - rewrite (fold_under _ (ram k) 0 t); [|clear Hnd Hal|done|exact Hnd'|exact Hal'|done]; [cbn [fst snd]; by rewrite wrap_add|].
    intros n k1 freed Hn%elem_of_seq Hm _ _ Hfr. rewrite (Hm t (Z.of_nat n)) by (left || (apply index_nat; lia)).
    unfold under. destruct (has _ PRESENT); cbn [negb is_leaf Nat.eqb Nat.ltb Nat.leb andb orb give_all fst snd]; by rewrite Z.add_0_r, Hfr.
  - rewrite (fold_under _ (ram k) (S level) t); [|clear Hnd Hal|done|exact Hnd'|exact Hal'|done]; [cbn [fst snd]; by rewrite wrap_add|].
    intros n k1 freed Hn%elem_of_seq Hm Hnd1 Hal1 Hfr. rewrite (Hm t (Z.of_nat n)) by (left || (apply index_nat; lia)).
    assert (Hm1 : same_tables (ram k) (ram k1) (under (ram k) (S level) t n)) by (eapply same_tables_sub; [exact Hm|]; by right).
    revert Hnd1 Hal1 Hm1. unfold under. destruct (has _ PRESENT); cbn [negb]; [|intros; cbn; by rewrite Z.add_0_r, Hfr].

    set (e := get (ram k) t (Z.of_nat n)). change (((S level =? 1)%nat || _)) with (is_leaf (S level) e).
    destruct (is_leaf (S level) e); intros Hnd1 Hal1 Hm1.
    + rewrite give_all_one. cbn [give]. destruct (1 <? _); cbn [fst snd]; by rewrite ?Z.add_0_r, ?Hfr.
    + rewrite <- (items_ext (ram k) (ram k1) level (frame_of e) Hm1) in Hnd1, Hal1 |- *.
      rewrite (IH (frame_of e) k1 Hnd1 Hal1). f_equal. unfold wrap. by rewrite Zplus_mod_idemp_r.
Qed.
End walk.

(** ** What the list is *)

(** The path of indexes that leads to an item of the space [r]. *)
Definition at_path (m : memory) (r : Z) (q : list Z) (x : item) : Prop :=
  match x with
  | Tab u => private q /\ walk m r q = Some u
  | Leaf f => exists va, user va /\ q = indexes va /\ has (leaf m r va) PRESENT = true /\ f = frame_of (leaf m r va)
  end.

Definition owned_items (m : memory) (r : Z) : list item :=
  (if has (get m r 0) PRESENT then items m 3 (frame_of (get m r 0)) else []) ++ [Tab r].

Lemma private_snoc p n : private p -> p <> [] -> (length p < 3)%nat -> (n < 512)%nat -> private (p ++ [Z.of_nat n]).
Proof.
  intros (H1 & H2 & H3) Hne Hl Hn. split_and!; [|rewrite length_app; cbn; lia|by destruct p].
  apply Forall_app. split; [done|]. constructor; [by apply index_nat|done].
Qed.

Section owned.
Context (m : memory) (roots fl : list Z) (r : Z) (Hs : shape m roots fl) (Hr : r ∈ roots).

Lemma under_at level t p n x :
  (forall t p x, private p -> p <> [] -> (length p + level = 4)%nat -> walk m r p = Some t -> x ∈ items m level t -> exists q, at_path m r (p ++ q) x) ->
  private p -> p <> [] -> (length p + S level = 4)%nat -> walk m r p = Some t -> (n < 512)%nat -> x ∈ under m (S level) t n ->
  exists q, at_path m r (p ++ Z.of_nat n :: q) x.
Proof using Hs Hr.
  intros IH Hp Hne Hlen Hw Hn. unfold under. set (e := get m t (Z.of_nat n)).
  destruct (has e PRESENT) eqn:Ep; cbn [negb]; [|by intros ?%not_elem_of_nil]. pose proof (index_nat n Hn) as Hi.
  destruct level as [|level]; cbn [is_leaf Nat.eqb orb].
  - intros ->%list_elem_of_singleton. exists []. destruct p as [|i0 [|i3 [|i2 [|]]]]; cbn in Hlen; try lia.
    destruct Hp as (H & _ & ->). apply Forall_cons in H as [_ [H3 [H2 _]%Forall_cons]%Forall_cons].
    destruct (address_of_indexes i3 i2 (Z.of_nat n) H3 H2 Hi) as (E & U & _). destruct (address_path i3 i2 _ H3 H2 Hi) as [E1 E2].
    exists (address_of i3 i2 (Z.of_nat n)). assert (El : leaf m r (address_of i3 i2 (Z.of_nat n)) = e) by (unfold leaf; by rewrite E1, E2, Hw).
    by rewrite El, E.
  - assert (Hp' : private (p ++ [Z.of_nat n])) by (apply private_snoc; (done || lia)).
    assert (Eh : has e HUGE = false) by (by apply (sh_small m roots fl Hs r p)).
    change ((1 <? S (S level))%nat) with true. rewrite Eh. cbn [andb]. intros Hx.
    destruct (IH (frame_of e) (p ++ [Z.of_nat n]) x) as (q & Hq); try done.
    + by destruct p.
    + rewrite length_app. cbn. lia.
    + apply walk_snoc. exists t. split; [done|]. unfold link. fold e. by rewrite Ep, Eh.
    + exists q. by rewrite <- app_assoc in Hq.
Qed.

Lemma items_at level : forall t p x, private p -> p <> [] -> (length p + level = 4)%nat -> walk m r p = Some t ->
  x ∈ items m level t -> exists q, at_path m r (p ++ q) x.
Proof using Hs Hr.
  induction level as [|level IH]; intros t p x Hp Hne Hlen Hw; [destruct Hp as (_ & ? & _); lia|].
  rewrite items_unfold, elem_of_app, list_elem_of_join, list_elem_of_singleton.
  intros [(l & Hx & (n & -> & Hn%elem_of_seq)%list_elem_of_fmap)| ->].
  - destruct (under_at level t p n x IH Hp Hne Hlen Hw ltac:(lia) Hx) as (q & Hq). by exists (Z.of_nat n :: q).
  - exists []. by rewrite app_nil_r.
Qed.

Lemma walk_items q : Forall index q -> forall t u level, walk m t q = Some u -> (length q < level)%nat ->
  items m (level - length q) u ⊆ items m level t.
Proof using Type.
  induction 1 as [|i q Hi _ IH]; intros t u level Hw Hl; [injection Hw as ->; by rewrite Nat.sub_0_r|]. cbn [walk length] in *.
  destruct (link (get m t i)) as [v|] eqn:El; [|done]. destruct level as [|[|level]]; [lia|lia|].
  intros x Hx. specialize (IH v u (S level) Hw ltac:(lia) x Hx). unfold index in Hi. apply (under_in m (S (S level)) t (Z.to_nat i)); [lia|].
  unfold under. rewrite Z2Nat.id by lia. unfold link in El. destruct (has _ PRESENT); [|done]. cbn [negb andb is_leaf Nat.eqb orb Nat.ltb Nat.leb] in *.
  destruct (has _ HUGE); [done|]. by injection El as ->.
Qed.

Lemma leaf_item va t : user va -> walk m r (path va) = Some t -> has (leaf m r va) PRESENT = true ->
  Leaf (frame_of (leaf m r va)) ∈ items m 1 t.
Proof using Type.
  unfold leaf. intros U Hw. rewrite Hw. intros P. pose proof (slot_index va) as Hi. unfold index in Hi.
  apply (under_in m 1 t (Z.to_nat (slot va))); [lia|]. unfold under. rewrite Z2Nat.id by lia. rewrite P. by apply list_elem_of_singleton.
Qed.

Lemma private_nil : private [].
Proof using Type. split_and!; [constructor|cbn; lia|done]. Qed.

Lemma private_0 : private [0].
Proof using Type. split_and!; [by repeat constructor|cbn; lia|done]. Qed.

Lemma owned_at x : x ∈ owned_items m r -> exists q, at_path m r q x.
Proof using Hs Hr.
  unfold owned_items. rewrite elem_of_app, list_elem_of_singleton. intros [Hx| ->]; [|by exists []; split; [apply private_nil|]].
  destruct (has (get m r 0) PRESENT) eqn:P; [|by apply not_elem_of_nil in Hx].
  destruct (items_at 3 (frame_of (get m r 0)) [0] x private_0 ltac:(done) eq_refl) as (q & Hq); [|done|by exists ([0] ++ q)].
  cbn [walk]. by rewrite (slot0_link m roots fl r Hs Hr P).
Qed.

Lemma owned_complete q x : at_path m r q x -> x ∈ owned_items m r.
Proof using Hs Hr.
  assert (Hsub : forall p u, private (0 :: p) -> walk m r (0 :: p) = Some u -> items m (3 - length p) u ⊆ owned_items m r).
  { intros p u (Hp & Hl & _) Hw y Hy. unfold owned_items. apply elem_of_app. left. cbn [walk] in Hw. unfold link in Hw.
    destruct (has (get m r 0) PRESENT); [|done]. destruct (negb _); [|done]. apply Forall_cons in Hp as [_ Hp]. cbn in Hl.
    by apply (walk_items p Hp (frame_of (get m r 0)) u 3 Hw ltac:(lia)). }
  destruct x as [f|u]; cbn.
  - intros (va & U & _ & P & ->). destruct (walk m r (path va)) as [t|] eqn:Hw; [|by unfold leaf in P; rewrite Hw in P].
    destruct (indexes_address va U) as (i3 & i2 & i1 & _ & _ & _ & E & _). pose proof (path_private va U) as Hp.
    pose proof Hw as Hw'. rewrite E in Hp, Hw'. apply (Hsub [i3; i2] t Hp Hw'). by apply leaf_item.
  - intros [Hp Hw]. destruct q as [|i q]; [injection Hw as <-; apply elem_of_app; right; by apply list_elem_of_singleton|].
    pose proof Hp as (_ & _ & E). cbn in E. subst i. apply (Hsub q u Hp Hw), table_in.
Qed.

(** Two items have frames of their own. *)
Context (Honce : forall va va', user va -> user va' -> has (leaf m r va) PRESENT = true -> has (leaf m r va') PRESENT = true ->
  frame_of (leaf m r va) = frame_of (leaf m r va') -> page_of va = page_of va').

Lemma at_path_inj q q' x y : at_path m r q x -> at_path m r q' y -> item_frame x = item_frame y -> q = q'.
Proof using Hs Hr Honce.
  destruct x as [f|u], y as [g|v]; cbn.
  - intros (va & U & -> & P & ->) (va' & U' & -> & P' & ->) E. pose proof (Honce va va' U U' P P' E) as Epage.
    rewrite <- (indexes_page_of va), <- (indexes_page_of va'), Epage; [done|apply U'|apply U].
  - intros (va & U & -> & P & ->) [Hp Hw] E. exfalso.
    apply (proj2 (sh_leaf m roots fl Hs r va Hr U P) r q' Hr (private_valid _ Hp)). by rewrite E.
  - intros [Hp Hw] (va & U & -> & P & ->) E. exfalso.
    apply (proj2 (sh_leaf m roots fl Hs r va Hr U P) r q Hr (private_valid _ Hp)). by rewrite <- E.
  - intros [Hp Hw] [Hp' Hw'] ->. by destruct (sh_inj m roots fl Hs r r q q' v Hr Hr Hp (private_valid _ Hp') Hw Hw').
Qed.

Lemma items_NoDup level : forall t p, private p -> p <> [] -> (length p + level = 4)%nat -> walk m r p = Some t ->
  NoDup (map item_frame (items m level t)).
Proof using Hs Hr Honce.
  induction level as [|level IH]; intros t p Hp Hne Hlen Hw; [destruct Hp as (_ & ? & _); lia|].
  assert (Hat : forall n x, (n < 512)%nat -> x ∈ under m (S level) t n -> exists q, at_path m r (p ++ Z.of_nat n :: q) x).
  { intros n x. apply under_at; try done. apply items_at. }
  rewrite items_unfold, map_app. apply NoDup_app. split_and!; [| |apply NoDup_singleton].
  - apply NoDup_mjoin; [apply NoDup_seq| |].
    + intros n Hn%elem_of_seq. unfold under. destruct (has _ PRESENT) eqn:P; cbn [negb]; [|constructor].
      destruct (is_leaf _ _) eqn:El; [apply NoDup_singleton|]. unfold is_leaf in El. apply orb_false_iff in El as [E1%Nat.eqb_neq E2].
      assert (El : (1 <? S level)%nat = true) by (apply Nat.ltb_lt; lia). rewrite El in E2. cbn [andb] in E2.
      apply (IH _ (p ++ [Z.of_nat n])); [apply private_snoc; (done || lia)|by destruct p|rewrite length_app; cbn; lia|].
      apply walk_snoc. exists t. split; [done|]. unfold link. by rewrite P, E2.
    + intros n n' x y Hn%elem_of_seq Hn'%elem_of_seq Hx Hy E.
      destruct (Hat n x ltac:(lia) Hx) as (q & Hq), (Hat n' y ltac:(lia) Hy) as (q' & Hq').
      pose proof (at_path_inj _ _ x y Hq Hq' E) as Eq. apply app_inv_head in Eq. injection Eq. lia.
  - intros a (x & -> & Hx)%list_elem_of_fmap. cbn [map]. intros E%list_elem_of_singleton.
    apply list_elem_of_join in Hx as (l & Hx & (n & -> & Hn%elem_of_seq)%list_elem_of_fmap).
    destruct (Hat n x ltac:(lia) Hx) as (q & Hq). pose proof (at_path_inj _ p x (Tab t) Hq (conj Hp Hw) E) as Eq.
    apply (f_equal length) in Eq. rewrite length_app in Eq. cbn in Eq. lia.
Qed.

Lemma owned_NoDup : NoDup (map item_frame (owned_items m r)).
Proof using Hs Hr Honce.
  unfold owned_items. rewrite map_app. destruct (has (get m r 0) PRESENT) eqn:P; [|apply NoDup_singleton].
  assert (Hw : walk m r [0] = Some (frame_of (get m r 0))) by (cbn [walk]; by rewrite (slot0_link m roots fl r Hs Hr P)).
  apply NoDup_app. split_and!; [by apply (items_NoDup 3 _ [0] private_0)| |apply NoDup_singleton].
  intros a (x & -> & Hx)%list_elem_of_fmap. cbn [map]. intros E%list_elem_of_singleton.
  destruct (items_at 3 _ [0] x private_0 ltac:(done) eq_refl Hw Hx) as (q & Hq).
  by pose proof (at_path_inj _ [] x (Tab r) Hq (conj private_nil eq_refl) E).
Qed.
End owned.

(** ** Half way through *)

#[export] Instance item_eq_dec : EqDecision item.
Proof. solve_decision. Defined.

Definition pending (f : Z) (todo : list item) : nat := if decide (Leaf f ∈ todo) then 1%nat else 0%nat.

Section tearing.
Context {D : Type} (roots : list Z).
Implicit Types k : Mem D.

(** [roots] survive; what is still on the list is nobody else's table, and
    the counts of shared frames include the pages still on it. *)
Record tearing k (todo : list item) (fl : list Z) : Prop := {
  te_sound : sound k roots fl;
  te_nodup : NoDup (map item_frame todo);
  te_frames x : x ∈ todo -> framelike (item_frame x) /\ (item_frame x ∉ fl) /\
    forall r p, r ∈ roots -> valid p -> walk (ram k) r p <> Some (item_frame x);
  te_tab t r : Tab t ∈ todo -> r ∈ roots -> ~ maps (ram k) r t;
  te_keys : NoDup (map fst (SHARED k));
  te_owners f : exists rs, NoDup rs /\ (forall r, r ∈ rs <-> r ∈ roots /\ maps (ram k) r f) /\
    match owners (SHARED k) f with
    | Some c => 2 <= c < 2 ^ 32 /\ c = Z.of_nat (length rs + pending f todo)
    | None => (length rs + pending f todo <= 1)%nat
    end
}.

(** Nobody else maps it. *)
Definition alone k (f : Z) : Prop := forall r, r ∈ roots -> ~ maps (ram k) r f.
(** What one item gives back. *)
Definition gives k (x : item) : Prop := match x with Leaf f => alone k f | Tab _ => True end.

(** What the survivors keep through it. *)
Record kept k k' : Prop := {
  kp_leaf r va : r ∈ roots -> leaf (ram k') r va = leaf (ram k) r va;
  kp_view r va : r ∈ roots -> user va -> view k' r va = view k r va;
  kp_rest : (CR3 k', NO_EXECUTE_ACTIVE k', REPLACE k', SWAP k', DISK k') = (CR3 k, NO_EXECUTE_ACTIVE k, REPLACE k, SWAP k, DISK k)
}.

Lemma kept_refl k : kept k k.
Proof using Type. done. Qed.

Lemma kept_trans k1 k2 k3 : kept k1 k2 -> kept k2 k3 -> kept k1 k3.
Proof using Type.
  intros [L1 V1 R1] [L2 V2 R2]. constructor; [|intros; by rewrite V2, V1|by rewrite R2].
  intros r va Hr. by rewrite L2, L1.
Qed.

Lemma kept_maps k k' r f : kept k k' -> r ∈ roots -> maps (ram k') r f <-> maps (ram k) r f.
Proof using Type. intros Hk Hr. apply maps_ext. intros va U. by rewrite (kp_leaf _ _ Hk). Qed.

Lemma pending_cons f x todo : NoDup (map item_frame (x :: todo)) -> pending f (x :: todo) = if decide (x = Leaf f) then 1%nat else pending f todo.
Proof using Type.
  intros [Hn _]%NoDup_cons. unfold pending. destruct (decide (x = Leaf f)) as [->|Hne].
  - rewrite decide_True; [done|left].
  - destruct (decide (Leaf f ∈ todo)) as [Hin|Hin]; [by rewrite decide_True by (by right)|].
    rewrite decide_False; [done|]. by intros [?|?]%elem_of_cons.
Qed.

Lemma pending_next f todo : NoDup (map item_frame (Leaf f :: todo)) -> pending f todo = 0%nat.
Proof using Type.
  intros [Hn _]%NoDup_cons. unfold pending. rewrite decide_False; [done|]. intros Hin. by apply Hn, (list_elem_of_fmap_2 item_frame todo (Leaf f)).
Qed.

(** An item's frame back on the list. *)
Lemma tearing_free k x todo fl : tearing k (x :: todo) fl -> alone k (item_frame x) ->
  (forall f, x = Leaf f -> owners (SHARED k) f = None) ->
  tearing (deallocate (item_frame x) k) todo (item_frame x :: fl) /\ kept k (deallocate (item_frame x) k).
Proof using Type.
  intros [Hso Hnd Hfr Htab Hkeys Hown] Hal Hno. destruct (Hfr x ltac:(left)) as (Hf & Hnin & Hw).
  destruct (deallocate_sound k roots fl (item_frame x) Hso Hf Hnin Hw Hal) as (Hso' & Hrest & Hout & Hleaf & Hview).
  set (k' := deallocate (item_frame x) k) in *. assert (Esh : SHARED k' = SHARED k) by done.
  assert (Hk : kept k k') by (constructor; done). split; [|done].
  pose proof Hnd as Hnd0. cbn [map] in Hnd. apply NoDup_cons in Hnd as [Hx Hnd].
  assert (Hwalk : forall r p, r ∈ roots -> valid p -> walk (ram k') r p = walk (ram k) r p).
  { intros r p Hr Hp. apply (data_walk (ram k) _ roots fl); [apply Hso| |done..]. intros y Hy. apply Hout. intros Hb.
    apply (not_table_byte (ram k) roots fl (item_frame x) y (so_shape _ _ _ Hso) (proj1 Hf) Hw); [lia|done]. }
  constructor; try done.
  - intros y Hy. destruct (Hfr y ltac:(by right)) as (H1 & H2 & H3). split_and!; [done| |].
    + apply not_elem_of_cons. split; [|done]. intros E. apply Hx. rewrite <- E. by apply list_elem_of_fmap_2.
    + intros r p Hr Hp. rewrite Hwalk by done. by apply H3.
  - intros t r Ht Hr M. apply (kept_maps k k' r t Hk Hr) in M. by apply (Htab t r ltac:(by right)).
  - intros f. rewrite Esh. destruct (Hown f) as (rs & Hrn & Hrs & Hc). exists rs. split; [done|]. split.
    + intros r. rewrite Hrs. split; intros [H1 H2]; (split; [done|]); by apply (kept_maps k k' r f Hk H1).
    + rewrite (pending_cons f x todo Hnd0) in Hc. destruct (decide (x = Leaf f)) as [->|_]; [|done].
      rewrite (Hno f eq_refl) in *. rewrite (pending_next f todo Hnd0). lia.
Qed.

(** A page somebody else has too loses an owner. *)
Lemma tearing_unshare k f todo fl c : tearing k (Leaf f :: todo) fl -> owners (SHARED k) f = Some c ->
  tearing (unshare f k).2 todo fl /\ kept k (unshare f k).2 /\ ~ alone k f.
Proof using Type.
  intros [Hso Hnd Hfr Htab Hkeys Hown] Hc. destruct (Hown f) as (rs & Hrn & Hrs & Hcount). rewrite Hc in Hcount.
  destruct Hcount as [Hb Ec]. destruct (unshare_spec k f c Hkeys Hc Hb) as (_ & Hk' & Ho').
  set (k' := (unshare f k).2) in *.
  assert (Er : ram k' = ram k /\ ALLOCATOR k' = ALLOCATOR k /\ kept k k').
  { unfold k', unshare. destruct (find_share f _); [|done]. cbv zeta. by case_match. }
  destruct Er as (Er & Ea & Hk). rewrite (pending_cons f) in Ec by done. rewrite decide_True in Ec by done.
  split; [|split; [done|]].
  - constructor.
    + destruct Hso. constructor; rewrite ?Er, ?Ea; done.
    + by apply NoDup_cons in Hnd as [_ ?].
    + intros y Hy. rewrite Er. apply Hfr. by right.
    + intros t r Ht. rewrite Er. apply Htab. by right.
    + done.
    + intros g. rewrite Er, Ho'. destruct (Hown g) as (rs' & Hrn' & Hrs' & Hcount). destruct (decide (g = f)) as [->|Eg].
      * exists rs. split; [done|]. split; [done|]. rewrite (pending_next f todo Hnd). case_decide; lia.
      * exists rs'. split; [done|]. split; [done|]. rewrite (pending_cons g) in Hcount by done.
        rewrite decide_False in Hcount; [done|]. intros [= ->]. done.
  - intros Hal. destruct rs as [|r rs]; [cbn in Ec; lia|]. assert (Hr : r ∈ r :: rs) by left. apply Hrs in Hr as [H1 H2]. by apply (Hal r).
Qed.

Lemma give_spec k x todo fl : tearing k (x :: todo) fl ->
  exists k' fl', (give x k).2 = k' /\ tearing k' todo fl' /\ kept k k' /\ (give x k).1 = Z.of_nat (length fl') - Z.of_nat (length fl) /\
    forall f, f ∈ fl' <-> f ∈ fl \/ (f = item_frame x /\ gives k x).
Proof using Type.
  intros Ht. destruct x as [f|t]; cbn [give item_frame gives].
  - rewrite share_count_owners. destruct (te_owners _ _ _ Ht f) as (rs & Hrn & Hrs & Hc).
    destruct (owners (SHARED k) f) as [c|] eqn:Eo; cbn [from_option id].
    + destruct Hc as [Hb _]. rewrite (proj2 (Z.ltb_lt 1 c)) by lia. destruct (tearing_unshare k f todo fl c Ht Eo) as (H1 & H2 & H3).
      exists (unshare f k).2, fl. split_and!; try done; [cbn; lia|]. intros g. tauto.
    + change (1 <? 1) with false. cbn [fst snd].
      assert (Hal : alone k f).
      { intros r Hr M. rewrite (pending_cons f) in Hc by apply Ht. rewrite decide_True in Hc by done.
        destruct rs as [|? ?]; [|cbn in Hc; lia]. by apply (not_elem_of_nil r), Hrs. }
      destruct (tearing_free k (Leaf f) todo fl Ht Hal) as [H1 H2]; [intros g E; by injection E as <-|].
      exists (deallocate f k), (f :: fl). split_and!; try done; [cbn [length]; lia|]. intros g. rewrite elem_of_cons. tauto.
  - assert (Hal : alone k t) by (intros r Hr; apply (te_tab _ _ _ Ht); [left|done]).
    destruct (tearing_free k (Tab t) todo fl Ht Hal) as [H1 H2]; [done|].
    exists (deallocate t k), (t :: fl). split_and!; try done; [cbn [length fst]; lia|]. intros g. rewrite elem_of_cons. tauto.
Qed.

Lemma give_all_spec todo : forall k later fl, tearing k (todo ++ later) fl ->
  exists k' fl', (give_all todo k).2 = k' /\ tearing k' later fl' /\ kept k k' /\ (give_all todo k).1 = Z.of_nat (length fl') - Z.of_nat (length fl) /\
    forall f, f ∈ fl' <-> f ∈ fl \/ exists x, x ∈ todo /\ f = item_frame x /\ gives k x.
Proof using Type.
  induction todo as [|x todo IH]; intros k later fl Ht.
  - exists k, fl. split_and!; try done; [cbn; lia|]. intros f. split; [by left|]. intros [?|(x & Hx & _)]; [done|by apply not_elem_of_nil in Hx].
  - destruct (give_spec k x (todo ++ later) fl Ht) as (k1 & fl1 & E1 & H1 & K1 & N1 & F1). cbn [give_all].
    destruct (give x k) as [a k1'] eqn:Ex. cbn [fst snd] in *. subst k1'.
    destruct (IH k1 later fl1 H1) as (k2 & fl2 & E2 & H2 & K2 & N2 & F2).
    destruct (give_all todo k1) as [b k2'] eqn:Ed. cbn [fst snd] in *. subst k2'.
    exists k2, fl2. split_and!; try done; [by eapply kept_trans|lia|].
    assert (Hg : forall y, gives k1 y <-> gives k y).
    { intros [g|g]; [|done]. unfold gives, alone. split; intros H r Hr M; apply (H r Hr); by apply (kept_maps k k1 r g K1 Hr). }
    intros f. rewrite F2, F1. split.
    + intros [[?|[-> ?]]|(y & Hy & -> & Gy)]; [by left|right; exists x; split; [left|done]|].
      right. exists y. split_and!; [by right|done|by apply Hg].
    + intros [?|(y & [->|Hy]%elem_of_cons & -> & Gy)]; [by left; left|by left; right|].
      right. exists y. split_and!; [done|done|by apply Hg].
Qed.
End tearing.

(** ** The whole *)

(** What only the space [r] uses: its tables, and the pages nobody shares. *)
Definition only (m : memory) (roots : list Z) (r f : Z) : Prop :=
  (exists p, private p /\ walk m r p = Some f) \/ (maps m r f /\ forall r', r' ∈ roots -> maps m r' f -> r' = r).

Section destroy.
Context {D : Type}.
Implicit Types k : Mem D.

Lemma shape_sub m roots roots' fl : shape m roots fl -> roots' ⊆ roots -> shape m roots' fl.
Proof. intros [] Hsub. constructor; try (intros; eauto; done). intros r va Hr U P. destruct (sh_leaf r va (Hsub _ Hr) U P). eauto. Qed.

Lemma elem_of_but (roots : list Z) (r x : Z) : x ∈ filter (fun y => y <> r) roots <-> x ∈ roots /\ x <> r.
Proof. rewrite list_elem_of_filter. tauto. Qed.

Lemma tearing_start k roots fl r : space k roots fl -> r ∈ roots ->
  tearing (filter (fun x => x <> r) roots) k (owned_items (ram k) r) fl.
Proof.
  intros Hsp Hr. pose proof (sp_shape _ _ _ Hsp) as Hs. pose proof (sp_shares _ _ _ Hsp) as Hsh.
  set (roots' := filter _ roots). assert (Hsub : roots' ⊆ roots) by (intros x; unfold roots'; rewrite elem_of_but; tauto).
  constructor.
  - destruct Hsp as [[_ Hc Hn] _]. constructor; [by eapply shape_sub|done..].
  - apply (owned_NoDup (ram k) roots fl r Hs Hr). intros va va'. by apply (sa_once _ _ Hsh).
  - intros x Hx. destruct (owned_at _ roots fl r Hs Hr x Hx) as (q & Hq). destruct x as [f|t]; cbn in *.
    + destruct Hq as (va & U & _ & P & ->). destruct (sh_leaf _ _ _ Hs r va Hr U P) as [H1 H2]. split_and!; [|done|].
      * pose proof (frame_of_bound (leaf (ram k) r va)). split; [apply frame_of_aligned|]. split; [|lia].
        assert (frame_of (leaf (ram k) r va) <> 0); [|lia]. intros E. apply (sa_zero _ _ Hsh r Hr). by exists va.
      * intros r' p Hr'. apply H2. by apply Hsub.
    + destruct Hq as [Hp Hw]. split_and!.
      * split; [by eapply shape_walk_aligned; [|exact Hr|exact Hw]|]. split; [by apply (sh_pos _ _ _ Hs r q)|].
        destruct q as [|i q] using rev_ind; [injection Hw as <-; apply (sh_roots _ _ _ Hs r Hr)|].
        apply walk_snoc in Hw as (u & _ & Hl). unfold link in Hl. destruct (_ && _); [|done]. injection Hl as <-. apply frame_of_bound.
      * intros Hin. by apply (sh_free_walk _ _ _ Hs t r q Hin Hr (private_valid _ Hp)).
      * intros r' p Hr' Hv Hw'. apply elem_of_but in Hr' as [Hr' Hne].
        by destruct (sh_inj _ _ _ Hs r r' q p t Hr Hr' Hp Hv Hw Hw') as [<- _].
  - intros t r' Ht Hr' (va & U & P & E). destruct (owned_at _ roots fl r Hs Hr _ Ht) as (q & Hp & Hw).
    apply (proj2 (sh_leaf _ _ _ Hs r' va (Hsub _ Hr') U P) r q Hr (private_valid _ Hp)). by rewrite E.
  - apply Hsh.
  - intros f. destruct (sa_owners _ _ Hsh f) as (rs & Hnd & Hrs & Hc). exists (filter (fun x => x <> r) rs).
    assert (Hlen : length rs = (length (filter (fun x => x <> r) rs) + pending f (owned_items (ram k) r))%nat).
    { assert (Hpend : pending f (owned_items (ram k) r) = if decide (r ∈ rs) then 1%nat else 0%nat).
      { unfold pending. destruct (decide (r ∈ rs)) as [Hin|Hin].
        - apply Hrs in Hin as [_ (va & U & P & <-)]. rewrite decide_True; [done|].
          apply (owned_complete _ roots fl r Hs Hr (indexes va)). by exists va.
        - rewrite decide_False; [done|]. intros Hf. apply Hin, Hrs. split; [done|].
          destruct (owned_at _ roots fl r Hs Hr _ Hf) as (q & va & U & _ & P & ->). by exists va. }
      rewrite Hpend. clear - Hnd. induction Hnd as [|x rs Hx Hnd IH]; [done|]. rewrite filter_cons. cbn [length]. rewrite IH.
      destruct (decide (x <> r)) as [Hne|He].
      - cbn [length]. destruct (decide (r ∈ rs)) as [Hin|Hin]; [rewrite decide_True by (by right); lia|].
        rewrite decide_False; [lia|]. by intros [?|?]%elem_of_cons.
      - apply dec_stable in He. subst x. rewrite decide_False by done. rewrite decide_True by left. lia. }
    split; [by apply NoDup_filter|]. split.
    + intros r'. rewrite elem_of_but, Hrs. unfold roots'. rewrite elem_of_but. tauto.
    + rewrite <- Hlen. destruct (owners (SHARED k) f) as [c|] eqn:Eo; [|done].
      pose proof (owners_bound k roots f c Hsh Eo). destruct Hc. lia.
Qed.

Lemma tearing_done k roots fl : tearing roots k [] fl -> Z.of_nat (length roots) < 2 ^ 32 ->
  (forall r va va', r ∈ roots -> user va -> user va' -> has (leaf (ram k) r va) PRESENT = true -> has (leaf (ram k) r va') PRESENT = true ->
    frame_of (leaf (ram k) r va) = frame_of (leaf (ram k) r va') -> page_of va = page_of va') ->
  (forall r r' va, r ∈ roots -> r' ∈ roots -> user va -> has (leaf (ram k) r va) PRESENT = true -> has (leaf (ram k) r va) WRITABLE = true ->
    maps (ram k) r' (frame_of (leaf (ram k) r va)) -> r' = r) ->
  (forall r, r ∈ roots -> ~ maps (ram k) r 0) -> space k roots fl.
Proof.
  intros [Hso _ _ _ Hkeys Hown] Hl H1 H2 H3. split; [done|]. constructor; try done. intros f.
  destruct (Hown f) as (rs & Hnd & Hrs & Hc). exists rs. split_and!; try done. replace (pending f []) with 0%nat in Hc.
  - rewrite Nat.add_0_r in Hc. destruct (owners (SHARED k) f); [|done]. destruct Hc. lia.
  - unfold pending. rewrite decide_False; [done|]. apply not_elem_of_nil.
Qed.

(** The slot of the root that is cleared on the way. *)
Lemma tearing_clear roots k fl r : tearing roots k [Tab r] fl -> let k' := update_ram (set r 0 0) k in
  tearing roots k' [Tab r] fl /\ kept roots k k'.
Proof.
  intros [Hso Hnd Hfr Htab Hkeys Hown] k'. destruct (Hfr (Tab r) ltac:(left)) as (Hf & Hnin & Hw). cbn [item_frame] in *.
  assert (Hout : forall x, ~ r <= x < r + 4096 -> ram k' x = ram k x) by (intros x Hx; apply set_out; [unfold index|]; lia).
  assert (Hok : bytes_ok (ram k')) by (apply store_ok, (sh_bytes _ _ _ (so_shape _ _ _ Hso))).
  destruct (data_sound k (ram k') roots fl r Hso (conj Hnin Hw) (proj1 Hf) Hok Hout) as (Hso' & Hleaf & Hwalk).
  assert (Hk : kept roots k k').
  { constructor; [done| |done]. intros r' va Hr' U. apply view_ext; [by apply Hleaf|]. intros P. apply Hout. intros Hb.
    assert (frame_of (leaf (ram k) r' va) <> r) by (intros E; apply (Htab r r' ltac:(left) Hr'); by exists va).
    pose proof (page_byte (frame_of (leaf (ram k) r' va)) va).
    pose proof (aligned_apart _ _ (frame_of_aligned (leaf (ram k) r' va)) (proj1 Hf) ltac:(done)). lia. }
  split; [|done]. constructor; try done.
  - intros x Hx. destruct (Hfr x Hx) as (H1 & H2 & H3). split_and!; try done. intros r' p Hr' Hp. rewrite Hwalk by done. by apply H3.
  - intros t r' Ht Hr' M. apply (kept_maps _ k k' r' t Hk Hr') in M. by apply (Htab t r').
  - intros f. destruct (Hown f) as (rs & Hrn & Hrs & Hc). exists rs. split; [done|]. split; [|done].
    intros r'. rewrite Hrs. split; intros [H1 H2]; (split; [done|]); by apply (kept_maps _ k k' r' f Hk H1).
Qed.

Lemma only_gives k roots fl r f : space k roots fl -> r ∈ roots ->
  only (ram k) roots r f <-> exists x, x ∈ owned_items (ram k) r /\ f = item_frame x /\ gives (filter (fun x => x <> r) roots) k x.
Proof.
  intros Hsp Hr. pose proof (sp_shape _ _ _ Hsp) as Hs. split.
  - intros [(p & Hp & Hw)|((va & U & P & E) & Hal)].
    + exists (Tab f). split_and!; [|done|done]. by apply (owned_complete _ roots fl r Hs Hr p).
    + exists (Leaf f). split_and!; [|done|].
      * apply (owned_complete _ roots fl r Hs Hr (indexes va)). by exists va.
      * intros r' Hr' M. apply elem_of_but in Hr' as [Hr' Hne]. by apply Hne, Hal.
  - intros (x & Hx & -> & Hg). destruct (owned_at _ roots fl r Hs Hr x Hx) as (q & Hq). destruct x as [g|t]; cbn in *.
    + destruct Hq as (va & U & _ & P & ->). right. split; [by exists va|]. intros r' Hr' M.
      destruct (decide (r' = r)); [done|]. destruct (Hg r'); [by apply elem_of_but|done].
    + left. by exists q.
Qed.

(** The root itself, at the end. *)
Lemma destroy_last k (its : list item) k1 k2 roots (fl fl1 : list Z) r : tearing roots k2 [Tab r] fl1 -> kept roots k k1 -> kept roots k1 k2 ->
  (forall f, f ∈ fl1 <-> f ∈ fl \/ exists x, x ∈ its /\ f = item_frame x /\ gives roots k x) ->
  exists k', deallocate r k2 = k' /\ tearing roots k' [] (r :: fl1) /\ kept roots k k' /\
    forall f, f ∈ r :: fl1 <-> f ∈ fl \/ exists x, x ∈ its ++ [Tab r] /\ f = item_frame x /\ gives roots k x.
Proof.
  intros Ht K1 K2 Hfl. destruct (tearing_free roots k2 (Tab r) [] fl1 Ht) as [Ht' K3]; [|done|].
  { intros r' Hr'. apply (te_tab _ _ _ _ Ht); [left|done]. }
  exists (deallocate r k2). split_and!; [done|exact Ht'|by eapply kept_trans; [exact K1|eapply kept_trans]|].
  intros f. rewrite elem_of_cons, Hfl. setoid_rewrite elem_of_app. setoid_rewrite list_elem_of_singleton. split.
  - intros [->|[?|(x & Hx & ?)]]; [right; exists (Tab r); split_and!; [by right|done..]|by left|right; exists x; auto].
  - intros [?|(x & [Hx| ->] & -> & Hg)]; [by right; left|right; right; by exists x|by left].
Qed.

Lemma destroy_gives k roots fl r : space k roots fl -> r ∈ roots -> let roots' := filter (fun x => x <> r) roots in
  exists k' fl', destroy r k = (wrap 64 (Z.of_nat (length fl') - Z.of_nat (length fl)), k') /\ tearing roots' k' [] fl' /\ kept roots' k k' /\
    forall f, f ∈ fl' <-> f ∈ fl \/ only (ram k) roots r f.
Proof.
  intros Hsp Hr roots'. pose proof (tearing_start k roots fl r Hsp Hr) as Ht. pose proof (fun f => only_gives k roots fl r f Hsp Hr) as Honly.
  fold roots' in Ht, Honly. unfold destroy. unfold owned_items in Ht, Honly. destruct (has (get (ram k) r 0) PRESENT) eqn:P.
  - set (its := items (ram k) 3 (frame_of (get (ram k) r 0))) in *.
    pose proof (te_nodup _ _ _ _ Ht) as Hnd. rewrite map_app in Hnd. apply NoDup_app in Hnd as (Hnd & _ & _).
    assert (Hal : Forall (fun x => aligned (item_frame x)) its).
    { apply Forall_forall. intros x Hx. apply (te_frames _ _ _ _ Ht). apply elem_of_app. by left. }
    rewrite (free_subtree_items 3 _ k Hnd Hal). fold its.
    destruct (give_all_spec roots' its k [Tab r] fl Ht) as (k1 & fl1 & E1 & H1 & K1 & N1 & F1). rewrite E1, N1.
    destruct (tearing_clear roots' k1 fl1 r H1) as [H2 K2].
    destruct (destroy_last k its k1 _ roots' fl fl1 r H2 K1 K2 F1) as (k' & -> & H3 & K3 & F3).
    exists k', (r :: fl1). split_and!; [|done|done|intros f; by rewrite F3, Honly]. f_equal. rewrite wrap_add. f_equal. cbn [length]. lia.
  - destruct (destroy_last k [] k k roots' fl fl r Ht (kept_refl _ k) (kept_refl _ k)) as (k' & E & H3 & K3 & F3).
    { intros f. split; [by left|]. intros [?|(x & Hx & _)]; [done|by apply not_elem_of_nil in Hx]. }
    exists k', (r :: fl). split_and!; [|done|done|intros f; by rewrite F3, Honly]. cbn [length]. rewrite E. do 2 f_equal. lia.
Qed.

Lemma destroy_spec k roots fl r : space k roots fl -> r ∈ roots -> let roots' := filter (fun x => x <> r) roots in
  exists k' fl', destroy r k = (Z.of_nat (length fl') - Z.of_nat (length fl), k') /\ space k' roots' fl' /\ kept roots' k k' /\
    forall f, f ∈ fl' <-> f ∈ fl \/ only (ram k) roots r f.
Proof.
  intros Hsp Hr roots'. destruct (destroy_gives k roots fl r Hsp Hr) as (k' & fl' & -> & Ht & Hk & Hfl). fold roots' in Ht, Hk.
  pose proof (sp_shares _ _ _ Hsp) as Hsh. assert (Hsub : forall x, x ∈ roots' -> x ∈ roots) by (intros x; unfold roots'; rewrite elem_of_but; tauto).
  exists k', fl'. split_and!; try done.
  - f_equal. apply wrap_small. pose proof (so_shape _ _ _ (te_sound _ _ _ _ Ht)) as Hs'.
    pose proof (frames_bound fl' (sh_nodup _ _ _ Hs') (proj2 (Forall_forall _ _) (sh_free _ _ _ Hs'))) as Hb.
    assert (2 ^ 40 < 2 ^ 64) by (by apply Z.pow_lt_mono_r).
    assert (length fl <= length fl')%nat; [|unfold in_u; lia].
    apply submseteq_length, NoDup_submseteq; [apply (sh_nodup _ _ _ (sp_shape _ _ _ Hsp))|]. intros f Hf. apply Hfl. by left.
  - apply tearing_done; [done| |intros r1 v1 v2 H1 U1 U2|intros r1 r2 v1 H1 H2 U1|intros r1 H1 M].
    + assert (length roots' <= length roots)%nat by (apply length_filter). pose proof (sa_few _ _ Hsh). lia.
    + rewrite !(kp_leaf _ _ _ Hk) by done. apply (sa_once _ _ Hsh); auto.
    + rewrite !(kp_leaf _ _ _ Hk) by done. intros P W M. apply (kept_maps roots' k k') in M; [|done|done].
      by apply (sa_private _ _ Hsh r1 r2 v1); auto.
    + apply (kept_maps roots' k k') in M; [|done|done]. by apply (sa_zero _ _ Hsh r1); auto.
Qed.
End destroy.

