(* ===== verification/Access.v ===== *)
(** * What [is_user_accessible] establishes

    Inside the user half an accepted range is mapped and marked for ring 3;
    above it the check looks only at 48 bits of the address. *)

From S2P Require Import Prelude Bytes Disk Pages Replace Swap Memory PageTables Spaces UserPages Sharing Cow.

#[local] Arguments Z.pow : simpl never.
#[local] Arguments Z.mul : simpl never.
#[local] Arguments Z.add : simpl never.

(** The processor takes only addresses whose upper bits are a sign extension;
    any other is a general protection fault. *)
Definition canonical (va : Z) : bool := (va <? 2 ^ 47) || (2 ^ 64 - 2 ^ 47 <=? va).

Lemma user_canonical va : user va -> canonical va = true.
Proof.
  unfold user, USER_SPACE_END, canonical. intros [_ H]. assert (549755813888 < 2 ^ 47) by done.
  by rewrite (proj2 (Z.ltb_lt va (2 ^ 47))) by lia.
Qed.

Section access.
Context {D : Type}.
Implicit Types k : Mem D.

Lemma user_walk_leaf m roots fl r va : shape m roots fl -> r ∈ roots -> user va -> user_walk m r 0 (indexes va) = true ->
  has (leaf m r va) PRESENT = true /\ has (leaf m r va) USER = true.
Proof.
  intros Hs Hr U. rewrite indexes_split. pose proof (path_private va U) as Hp. unfold leaf. destruct (path va) as [|i0 [|i1 [|i2 [|]]]] eqn:Epath;
    try (pose proof (path_length va) as Hl; rewrite Epath in Hl; done).
  assert (Hstep : forall p i t, (length p < 3)%nat -> private (p ++ [i]) -> walk m r p = Some t -> has (get m t i) PRESENT = true ->
    has (get m t i) HUGE = false /\ link (get m t i) = Some (frame_of (get m t i))).
  { intros p i t _ Hpi Hw P. pose proof (sh_small m roots fl Hs r p i t Hr Hpi Hw P) as Hh. split; [done|]. unfold link. by rewrite P, Hh. }
  cbn [app user_walk Nat.ltb Nat.leb andb].
  pose proof (private_init [i0; i1] i2 Hp) as Hp2. pose proof (private_init [i0] i1 Hp2) as Hp1.
  destruct (has (get m r i0) PRESENT) eqn:P0; cbn [negb orb]; [|done]. destruct (Hstep [] i0 r ltac:(cbn; lia) Hp1 eq_refl P0) as [-> L0].
  destruct (has (get m r i0) USER); cbn [negb orb]; [|done]. set (t1 := frame_of (get m r i0)) in *.
  assert (W1 : walk m r [i0] = Some t1) by (cbn [walk]; by rewrite L0).
  destruct (has (get m t1 i1) PRESENT) eqn:P1; cbn [negb orb]; [|done]. destruct (Hstep [i0] i1 t1 ltac:(cbn; lia) Hp2 W1 P1) as [-> L1].
  destruct (has (get m t1 i1) USER); cbn [negb orb]; [|done]. set (t2 := frame_of (get m t1 i1)) in *.
  assert (W2 : walk m r [i0; i1] = Some t2) by (cbn [walk]; by rewrite L0, L1).
  destruct (has (get m t2 i2) PRESENT) eqn:P2; cbn [negb orb]; [|done]. destruct (Hstep [i0; i1] i2 t2 ltac:(cbn; lia) Hp W2 P2) as [-> L2].
  destruct (has (get m t2 i2) USER); cbn [negb orb]; [|done]. cbn [walk]. rewrite L0, L1, L2. set (t3 := frame_of (get m t2 i2)).
  destruct (has (get m t3 (slot va)) PRESENT); cbn [negb orb]; [|done]. by destruct (has (get m t3 (slot va)) USER).
Qed.

Lemma next_page page : aligned page -> 0 <= page < 2 ^ 50 -> page +₆₄ PAGE_SIZE = page + 4096 /\ aligned (page + 4096).
Proof.
  intros Ha Hp. split.
  - apply wrap_small. unfold in_u, PAGE_SIZE. assert (2 ^ 50 + 4096 < 2 ^ 64) by done. lia.
  - unfold aligned in *. rewrite <- Z.add_mod_idemp_l, Ha by done. done.
Qed.

Lemma accessible_loop_true fuel k : forall page end_, aligned page -> 0 <= page -> end_ <= 2 ^ 49 ->
  accessible_loop fuel k page end_ = Some true ->
  forall x, page <= x < end_ -> user_walk (ram k) (read_cr3 k) 0 (indexes (page_of x)) = true.
Proof.
  induction fuel as [|fuel IH]; intros page end_ Ha H0 He; cbn [accessible_loop]; [done|].
  destruct (Z.ltb_spec page end_) as [Hlt|]; [|intros _ x Hx; lia]. destruct (user_walk _ _ _ _) eqn:Eu; [|done].
  assert (2 ^ 49 < 2 ^ 50) by done. destruct (next_page page Ha) as [-> Ha']; [lia|]. intros Hl x Hx.
  destruct (Z.lt_ge_cases x (page + 4096)) as [Hin|Hout]; [|by apply (IH (page + 4096) end_); (done || lia)].
  assert (page_of x = page) as ->; [|done]. unfold aligned in Ha. rewrite page_of_div.
  pose proof (Z.div_mod page 4096). assert (x / 4096 = page / 4096) by (symmetry; apply (Z.div_unique x 4096 _ (x - page)); lia). lia.
Qed.

Lemma accessible_loop_enough fuel k : forall page end_, aligned page -> 0 <= page -> end_ <= 2 ^ 49 ->
  end_ - page <= 4096 * Z.of_nat fuel -> accessible_loop (S fuel) k page end_ <> None.
Proof.
  induction fuel as [|fuel IH]; intros page end_ Ha H0 He Hf; cbn [accessible_loop].
  - destruct (Z.ltb_spec page end_); [lia|done].
  - destruct (Z.ltb_spec page end_) as [Hlt|]; [|done]. destruct (user_walk _ _ _ _); [|done].
    assert (2 ^ 49 < 2 ^ 50) by done. destruct (next_page page Ha) as [-> Ha']; [lia|]. apply (IH (page + 4096) end_); (done || lia).
Qed.

Lemma in_user_half a len : a + len <= USER_SPACE_END -> a + len <= 2 ^ 49 /\ (u64_max <? a + len) = false.
Proof. unfold USER_SPACE_END, u64_max. intros H. assert (549755813888 < 2 ^ 49 < 2 ^ 64 - 1) by done. split; [lia|]. apply Z.ltb_ge. lia. Qed.

Lemma accessible_mapped fuel k roots fl a len : space k roots fl -> read_cr3 k ∈ roots -> 0 <= a -> a + len <= USER_SPACE_END ->
  is_user_accessible fuel k a len = Some true ->
  forall x, a <= x < a + len -> has (leaf (ram k) (read_cr3 k) x) PRESENT = true /\ has (leaf (ram k) (read_cr3 k) x) USER = true.
Proof.
  intros Hsp Hr Ha He. destruct (in_user_half a len He) as [He' Eu]. unfold is_user_accessible. rewrite Eu. intros Hl x Hx.
  pose proof (page_of_bound a) as Hb. assert (0 <= page_of a) by (rewrite page_of_div; pose proof (Z.div_pos a 4096); lia).
  pose proof (accessible_loop_true fuel k _ _ (page_of_aligned a) ltac:(lia) He' Hl x ltac:(lia)) as Hw.
  assert (U : user x) by (unfold user; lia). assert (0 <= x) by lia. pose proof (page_of_bound x).
  assert (Up : user (page_of x)) by (unfold user; rewrite page_of_div in *; pose proof (Z.div_pos x 4096); lia).
  rewrite (same_page_leaf (ram k) _ x (page_of x) U Up) by (symmetry; apply page_of_id, page_of_aligned).
  by apply (user_walk_leaf _ roots fl); [apply (sp_shape _ _ _ Hsp)|..].
Qed.

(** The range has a page more than its length in pages, two at the edges. *)
Lemma accessible_enough fuel k a len : 0 <= a -> 0 <= len -> a + len <= USER_SPACE_END -> len / 4096 + 3 <= Z.of_nat fuel ->
  is_user_accessible fuel k a len <> None.
Proof.
  intros Ha Hlen He Hf. destruct (in_user_half a len He) as [He' Eu]. unfold is_user_accessible. rewrite Eu.
  pose proof (Z.div_pos len 4096). destruct fuel as [|fuel]; [lia|]. pose proof (page_of_bound a).
  assert (0 <= page_of a) by (rewrite page_of_div; pose proof (Z.div_pos a 4096); lia).
  apply accessible_loop_enough; [apply page_of_aligned|lia|done|]. pose proof (Z.div_mod len 4096). pose proof (Z.mod_pos_bound len 4096). lia.
Qed.

(** ** The upper bits *)

Lemma indexes_alias va : 0 <= va -> indexes (va + 2 ^ 48) = indexes va.
Proof.
  intros Hva. rewrite !indexes_sum. assert (E : forall n, 0 <= n <= 39 -> (va + 2 ^ 48) / 2 ^ n mod 512 = va / 2 ^ n mod 512); [|rewrite !E by lia; done].
  intros n Hn. replace (2 ^ 48) with (2 ^ (39 - n) * 512 * 2 ^ n).
  - rewrite Z.div_add by (apply Z.pow_nonzero; lia). by rewrite Z.mod_add.
  - change 512 with (2 ^ 9). rewrite <- !Z.pow_add_r by lia. f_equal. lia.
Qed.

Lemma page_of_alias va : page_of (va + 2 ^ 48) = page_of va + 2 ^ 48.
Proof. rewrite !page_of_div. change (2 ^ 48) with (2 ^ 36 * 4096). rewrite Z.div_add by done. lia. Qed.

Lemma accessible_loop_alias fuel k : forall page end_, aligned page -> 0 <= page -> end_ <= 2 ^ 49 ->
  accessible_loop fuel k (page + 2 ^ 48) (end_ + 2 ^ 48) = accessible_loop fuel k page end_.
Proof.
  induction fuel as [|fuel IH]; intros page end_ Ha H0 He; cbn [accessible_loop]; [done|].
  replace (page + 2 ^ 48 <? end_ + 2 ^ 48) with (page <? end_) by (destruct (Z.ltb_spec page end_), (Z.ltb_spec (page + 2 ^ 48) (end_ + 2 ^ 48)); (done || lia)).
  rewrite indexes_alias by done. destruct (Z.ltb_spec page end_); [|done]. destruct (user_walk _ _ _ _); [|done].
  assert (2 ^ 49 + 2 ^ 48 < 2 ^ 50) by done. assert (Ha48 : aligned (page + 2 ^ 48)) by (unfold aligned in *; rewrite <- Z.add_mod_idemp_l, Ha by done; done).
  assert (0 < 2 ^ 48) by done. destruct (next_page page Ha) as [-> Ha']; [lia|]. destruct (next_page (page + 2 ^ 48) Ha48) as [-> _]; [lia|].
  replace (page + 2 ^ 48 + 4096) with (page + 4096 + 2 ^ 48) by lia. apply IH; (done || lia).
Qed.

Lemma accessible_alias fuel k a len : 0 <= a -> a + len <= USER_SPACE_END ->
  is_user_accessible fuel k (a + 2 ^ 48) len = is_user_accessible fuel k a len.
Proof.
  intros Ha He. destruct (in_user_half a len He) as [He' Eu]. unfold is_user_accessible. rewrite Eu.
  assert (2 ^ 49 + 2 ^ 48 < 2 ^ 64 - 1) by done. rewrite (proj2 (Z.ltb_ge _ _)) by (unfold u64_max; lia).
  rewrite page_of_alias. replace (a + 2 ^ 48 + len) with (a + len + 2 ^ 48) by lia.
  pose proof (page_of_bound a). assert (0 <= page_of a) by (rewrite page_of_div; pose proof (Z.div_pos a 4096); lia).
  apply accessible_loop_alias; [apply page_of_aligned|lia|done].
Qed.
End access.
