(* ===== verification/CowRun.v ===== *)
(** * Programs over copy-on-write memory

    Address spaces that grow, fork, are written and are torn down, through the page-fault
    handlers of [kernel/src/memory.rs]; compared with spaces that are simply
    copied. *)

From S2P Require Import Prelude Bytes Disk Pages Replace Swap Memory PageTables Spaces UserPages Sharing Cow Destroy.

#[local] Arguments Z.pow : simpl never.
#[local] Arguments load : simpl never.

Section run.
Context {D : Type} `{!Disk D}.
Implicit Types k : Mem D.

(** ** The processor's write *)

(** A store to [va] in the current space: through a present writable entry,
    or, after a fault on a present one, once more. *)
Definition cpu_write (va b : Z) k : option (Mem D) :=
  let e := leaf (ram k) (read_cr3 k) va in
  if has e PRESENT && has e WRITABLE then Some (update_ram (put (frame_of e + va mod 4096) [b]) k) else None.
Definition write (va b : Z) k : option (Mem D) :=
  match cpu_write va b k with
  | Some k => Some k
  | None =>
      if has (leaf (ram k) (read_cr3 k) va) PRESENT
      then match page_fault (0, 0) va 3 k with
           | (true, k) => cpu_write va b k
           | (false, _) => None
           end
      else None
  end.

Lemma cpu_write_spec k roots fl va b k' :
  space k roots fl -> read_cr3 k ∈ roots -> user va -> is_byte b -> cpu_write va b k = Some k' ->
  space k' roots fl /\ CR3 k' = CR3 k /\ view k' (read_cr3 k) va = Some b /\
  forall r' va', r' ∈ roots -> user va' -> ~ (r' = read_cr3 k /\ va' = va) -> view k' r' va' = view k r' va'.
Proof.
  intros Hsp Hr Hva Hb. unfold cpu_write. set (r := read_cr3 k) in *. set (e := leaf (ram k) r va).
  destruct (has e PRESENT) eqn:Hp; [|done]. destruct (has e WRITABLE) eqn:Hw; [|done]. cbn [andb]. intros [= <-].
  pose proof (sp_shape _ _ _ Hsp) as Hs. pose proof (leaf_mappable k roots fl r va Hs Hr Hva Hp) as Hmap. fold e in Hmap.
  set (x := frame_of e + va mod 4096). pose proof (page_byte (frame_of e) va) as Hx. fold x in Hx.
  assert (Hok : bytes_ok (put x [b] (ram k))) by (apply put_ok; [by constructor|apply Hs]).
  assert (Hput : forall y, y <> x -> put x [b] (ram k) y = ram k y) by (intros y Hy; apply put_out; cbn [length]; lia).
  destruct (data_sound k (put x [b] (ram k)) roots fl (frame_of e) (sp_sound _ _ _ Hsp) Hmap (frame_of_aligned e) Hok)
    as (Hso & Hl & _); [intros y Hy; apply Hput; lia|].
  split; [|split; [done|split]].
  - split; [exact Hso|]. apply (shares_ext k); [intros; by apply Hl|done|apply Hsp].
  - unfold view. cbn [ram update_ram set_field set_ram]. rewrite Hl by done. fold e. rewrite Hp. fold x. f_equal.
    pose proof (put_in x [b] (ram k) 0) as E. rewrite Z.add_0_r in E. apply E. cbn. lia.
  - intros r' va' Hr' U Hne. apply view_ext; [by apply Hl|]. intros P. apply Hput. intros E. apply Hne.
    pose proof (page_byte (frame_of (leaf (ram k) r' va')) va') as Hx'. rewrite E in Hx'.
    assert (Ef : frame_of (leaf (ram k) r' va') = frame_of e).
    { destruct (decide (frame_of (leaf (ram k) r' va') = frame_of e)) as [?|Hn]; [done|].
      pose proof (aligned_apart _ _ (frame_of_aligned _) (frame_of_aligned _) Hn). lia. }
    assert (r' = r) as -> by (apply (sa_private _ _ (sp_shares _ _ _ Hsp) r r' va); try done; by exists va').
    split; [done|]. pose proof (sa_once _ _ (sp_shares _ _ _ Hsp) r va' va Hr U Hva P Hp Ef) as Epg.
    rewrite !page_of_div in Epg. unfold x in E. rewrite Ef in E.
    pose proof (Z.div_mod va 4096). pose proof (Z.div_mod va' 4096). lia.
Qed.

Lemma cpu_write_leaf k roots fl va b k' : space k roots fl -> read_cr3 k ∈ roots -> user va -> is_byte b -> cpu_write va b k = Some k' ->
  NO_EXECUTE_ACTIVE k' = NO_EXECUTE_ACTIVE k /\ forall r' va', r' ∈ roots -> leaf (ram k') r' va' = leaf (ram k) r' va'.
Proof.
  intros Hsp Hr' U Hb. unfold cpu_write. set (e := leaf (ram k) (read_cr3 k) va).
  destruct (has e PRESENT) eqn:Hp; [|done]. destruct (has e WRITABLE); [|done]. cbn [andb]. intros [= <-]. split; [done|].
  pose proof (leaf_mappable k roots fl _ va (sp_shape _ _ _ Hsp) Hr' U Hp) as Hmap. fold e in Hmap.
  pose proof (page_byte (frame_of e) va) as Hx.
  apply (data_sound k _ roots fl (frame_of e) (sp_sound _ _ _ Hsp) Hmap (frame_of_aligned e)).
  - apply put_ok; [by constructor|apply (sp_shape _ _ _ Hsp)].
  - intros y Hy. apply put_out. cbn [length]. lia.
Qed.

Lemma write_spec k roots fl va b k' :
  space k roots fl -> read_cr3 k ∈ roots -> user va -> is_byte b -> head (ALLOCATOR k) <> 0 -> write va b k = Some k' ->
  exists fl', space k' roots fl' /\ CR3 k' = CR3 k /\ view k' (read_cr3 k) va = Some b /\
  forall r' va', r' ∈ roots -> user va' -> ~ (r' = read_cr3 k /\ va' = va) -> view k' r' va' = view k r' va'.
Proof.
  intros Hsp Hr Hva Hb Hhead. unfold write. destruct (cpu_write va b k) as [k1|] eqn:E.
  { intros [= <-]. exists fl. by apply cpu_write_spec. }
  destruct (has (leaf (ram k) (read_cr3 k) va) PRESENT) eqn:Hp; [|done].
  unfold page_fault. change (has 3 1 && has 3 2) with true. change (negb (has 3 1)) with false. cbv iota.
  destruct (has (leaf (ram k) (read_cr3 k) va) COW && negb (has (leaf (ram k) (read_cr3 k) va) WRITABLE)) eqn:Hcow.
  - apply andb_true_iff in Hcow as [Hc Hw%negb_true_iff].
    destruct (cow_fault_spec k roots fl va Hsp Hr Hva Hhead Hp Hc Hw) as (k1 & fl1 & -> & Hsp1 & Hcr1 & Hv1 & _).
    cbv iota. intros E1. assert (Er : read_cr3 k1 = read_cr3 k) by (unfold read_cr3; by rewrite Hcr1).
    destruct (cpu_write_spec k1 roots fl1 va b k') as (Hsp2 & Hcr2 & Hb2 & Ho2); [done|by rewrite Er|done..|].
    exists fl1. split; [done|]. split; [congruence|]. rewrite Er in *. split; [done|].
    intros r' va' Hr' U Hne. by rewrite Ho2, Hv1.
  - (* not a page the handler knows *)
    assert (Ef : cow_fault va k = (false, k)).
    { unfold cow_fault. destruct (USER_SPACE_END <=? page_of va); [done|]. unfold user in Hva. rewrite indexes_page_of by lia.
      change (take 3 (indexes va)) with (path va). change (indexes va !!! 3%nat) with (slot va). rewrite leaf_table_walk.
      unfold leaf in *. destruct (walk (ram k) (read_cr3 k) (path va)) as [t|]; [|done]. rewrite Hp. cbn [negb orb].
      apply andb_false_iff in Hcow as [->|Hw%negb_false_iff]; [done|]. rewrite Hw. by rewrite orb_true_r. }
    rewrite Ef. done.
Qed.

(** ** A page appears *)

Lemma new_mapping_shares k k' roots r va v f fl fl' :
  remapped roots r va v k k' fl fl' -> shares k roots -> SHARED k' = SHARED k -> r ∈ roots -> user va ->
  has (leaf (ram k) r va) PRESENT = false -> has v PRESENT = true -> frame_of v = f ->
  (forall r', r' ∈ roots -> ~ maps (ram k) r' f) -> f <> 0 -> shares k' roots.
Proof.
  intros Hrm Hsh Hse Hr Hva Hp Hv Hf Hnone Hf0.
  assert (Hleaf : forall r' va', r' ∈ roots -> user va' ->
            leaf (ram k') r' va' = if decide (r' = r /\ page_of va' = page_of va) then v else leaf (ram k) r' va').
  { intros r' va' Hr' U. destruct (decide (r' = r /\ page_of va' = page_of va)) as [[-> E]|Hd].
    - by rewrite (same_page_leaf _ r va' va U Hva E), (rm_leaf _ _ _ _ _ _ _ _ Hrm).
    - by rewrite (rm_other _ _ _ _ _ _ _ _ Hrm). }
  assert (Hm : forall r' g, r' ∈ roots -> maps (ram k') r' g <-> maps (ram k) r' g \/ (r' = r /\ g = f)).
  { intros r' g Hr'. split.
    - intros (va' & U & P & E). rewrite Hleaf in P, E by done. case_decide as Hd; [right|left; by exists va'].
      destruct Hd as [-> _]. by rewrite <- E.
    - intros [(va' & U & P & E)|[-> ->]].
      + exists va'. rewrite Hleaf by done. rewrite decide_False; [done|]. intros [-> Epg].
        by rewrite (same_page_leaf _ r va' va U Hva Epg), Hp in P.
      + exists va. rewrite Hleaf by done. by rewrite decide_True. }
  pose proof Hsh as []. constructor; rewrite ?Hse; try done.
  - intros r1 v1 v2 H1 U1 U2. rewrite !Hleaf by done.
    destruct (decide (r1 = r /\ page_of v1 = page_of va)) as [[-> E1]|N1],
      (decide (_ /\ page_of v2 = page_of va)) as [[E0 E2]|N2]; intros P1 P2 E; try congruence.
    + exfalso. apply (Hnone r Hr). exists v2. by rewrite <- E.
    + exfalso. subst r1. apply (Hnone r Hr). exists v1. by rewrite E.
    + by apply (sa_once r1).
  - intros g. destruct (sa_owners g) as (rs & Hnd & Hrs & Hct). destruct (decide (g = f)) as [->|Eg].
    + assert (rs = []) as ->.
      { destruct rs as [|r' rs]; [done|]. exfalso. assert (Hin : r' ∈ r' :: rs) by left.
        apply Hrs in Hin as [H1 H2]. by apply (Hnone r'). }
      exists [r]. split; [apply NoDup_singleton|]. split.
      * intros r'. rewrite list_elem_of_singleton. split; [intros ->; split; [done|apply Hm; auto]|].
        intros [H1 H2]. apply Hm in H2 as [H2|[? _]]; [by destruct (Hnone r' H1)|done..].
      * destruct (owners (SHARED k) f); [cbn in Hct; lia|cbn; lia].
    + exists rs. split_and!; try done. intros r'. rewrite Hrs. split; intros [H1 H2]; (split; [done|]).
      * apply Hm; auto.
      * apply Hm in H2 as [?|[_ ?]]; done.
  - intros r1 r2 v1 H1 H2 U1. rewrite Hleaf by done. case_decide as Hd.
    + destruct Hd as [-> _]. rewrite Hf. intros _ _ M. apply Hm in M as [M|[? _]]; [by destruct (Hnone r2 H2)|done..].
    + intros P1 W1 M. apply Hm in M as [M|[-> E]]; [by apply (sa_private r1 r2 v1)| |done].
      destruct (Hnone r1 H1). by exists v1.
  - intros r1 H1 M. apply Hm in M as [M|[_ ?]]; [by apply (sa_zero r1)|done..].
Qed.

(** What the allocator hands out is a frame off the free list. *)
Lemma sound_head_frame k roots fl f k1 : sound k roots fl -> allocate k = (Some f, k1) ->
  framelike f /\ exists fl1, fl = f :: fl1.
Proof.
  intros Hso Ea. destruct fl as [|g fl1]; [by rewrite (allocate_None _ _ Hso) in Ea|].
  destruct (allocate_Some _ _ _ _ Hso) as (k' & E & _). rewrite E in Ea. injection Ea as <- <-.
  split; [apply (sh_free _ _ _ (so_shape _ _ _ Hso)); left|by exists fl1].
Qed.

(** A frame off the free list, mapped at a page of the current space and
    zeroed: the page reads as zeroes and nothing else is seen to change. *)
Lemma new_page_spec k roots fl f k1 page flags :
  space k roots fl -> read_cr3 k ∈ roots -> user page -> aligned page -> u64 flags -> frame_of flags = 0 ->
  allocate k = (Some f, k1) ->
  exists res k2 fl2, map_page page f flags k1 = (res, k2) /\
    CR3 k2 = CR3 k /\ NO_EXECUTE_ACTIVE k2 = NO_EXECUTE_ACTIVE k /\
    match res with
    | Ok _ =>
        let k' := update_ram (fill f PAGE_SIZE 0) k2 in
        sound k2 roots fl2 /\ leaf (ram k2) (read_cr3 k) page = new_leaf f flags /\ space k' roots fl2 /\
        (forall va', user va' -> page_of va' = page ->
           view k (read_cr3 k) va' = None /\ view k' (read_cr3 k) va' = Some 0 /\
           leaf (ram k') (read_cr3 k) va' = new_leaf f flags) /\
        forall r' va', r' ∈ roots -> user va' -> ~ (r' = read_cr3 k /\ page_of va' = page) ->
          view k' r' va' = view k r' va' /\ leaf (ram k') r' va' = leaf (ram k) r' va'
    | Err _ => space k2 roots fl2 /\
        forall r' va', r' ∈ roots -> user va' -> view k2 r' va' = view k r' va' /\ leaf (ram k2) r' va' = leaf (ram k) r' va'
    | Panic => False
    end.
Proof.
  intros Hsp Hr Hup Hal Hfl Hff Ea.
  destruct (sound_head_frame k roots fl f k1 (sp_sound _ _ _ Hsp) Ea) as (_ & fl1 & ->).
  destruct (allocate_Some _ _ _ _ (sp_sound _ _ _ Hsp)) as (k1' & Ea' & Eram & Erest & Hch & Hn).
  rewrite Ea in Ea'. injection Ea' as <-. unfold rest in Erest. injection Erest as Esh Ecr Enx _ _ _.
  pose proof (sp_shape _ _ _ Hsp) as Hs. pose proof (sh_free _ _ _ Hs f ltac:(left)) as Hf.
  pose proof (sh_nodup _ _ _ Hs) as [Hnin _]%NoDup_cons.
  assert (Ef : frame_of f = f) by (apply frame_of_id; [apply Hf|destruct Hf; lia]).
  assert (Hso1 : sound k1 roots fl1).
  { constructor; [rewrite Eram; by eapply shape_weaken|done|]. pose proof (so_count _ _ _ (sp_sound _ _ _ Hsp)) as [_ Hlen].
    cbn [length] in Hlen. split; [done|lia]. }
  assert (Hsh1 : shares k1 roots) by (apply (shares_ext k); [intros; by rewrite Eram|done|apply Hsp]).
  assert (Hmap : mappable (ram k1) roots fl1 (frame_of f)).
  { rewrite Ef, Eram. split; [done|]. intros r p Hr' Hp. apply (sh_free_walk _ _ _ Hs); [left|done..]. }
  assert (Er : read_cr3 k1 = read_cr3 k) by (unfold read_cr3; by rewrite Ecr).
  assert (Hv1 : forall r' va', view k1 r' va' = view k r' va') by (intros; unfold view; by rewrite Eram).
  assert (Epp : page_of page = page) by (by apply page_of_id).
  unfold map_page. rewrite Er. set (r := read_cr3 k) in *.
  destruct (map_page_spec r page f flags k1 roots fl1 Hso1 Hr Hup Hfl Hff Hmap) as (res & k2 & fl2 & -> & Hres).
  exists res, k2, fl2. split; [done|]. destruct res as [u|err|]; [| |done].
  2:{ destruct Hres as [Hg _]. pose proof (g_rest _ _ _ _ _ Hg) as Erest. unfold rest in Erest.
      injection Erest as Es2 Ec2 En2 _ _ _. split; [congruence|]. split; [congruence|]. split.
      - by apply (grows_space k1 k2 roots fl1 fl2); [| |split].
      - intros r' va' Hr' U. rewrite <- Hv1, <- Eram. split; [|by apply (g_leaf _ _ _ _ _ Hg)].
        eapply grows_view; [exact Hg|apply Hso1|done..]. }
  destruct Hres as (Hp0 & Hrm & Hsh2 & Hcr2 & Hnx2). split; [congruence|]. split; [congruence|].
  set (v := new_leaf f flags) in *.
  assert (Hvp : has v PRESENT = true) by apply new_leaf_present.
  assert (Hvf : frame_of v = f) by (unfold v; by rewrite new_leaf_frame).
  pose proof (rm_sound _ _ _ _ _ _ _ _ Hrm) as Hso2. pose proof (rm_leaf _ _ _ _ _ _ _ _ Hrm) as Hl2.
  assert (Hnone : forall r', r' ∈ roots -> ~ maps (ram k) r' f).
  { intros r' Hr' (va' & U & P & E). destruct (sh_leaf _ _ _ Hs r' va' Hr' U P) as [Hn' _]. apply Hn'. rewrite E. left. }
  assert (Hsh : shares k2 roots).
  { eapply (new_mapping_shares k1 k2 roots r page v f); try done; [|destruct Hf; lia]. intros r' Hr'. rewrite Eram. by apply Hnone. }
  assert (Hmap2 : mappable (ram k2) roots fl2 f) by (rewrite <- Hvf, <- Hl2; apply leaf_mappable; [apply Hso2|done|done|by rewrite Hl2]).
  assert (Hok2 : bytes_ok (fill f PAGE_SIZE 0 (ram k2))) by (apply fill_ok; [unfold is_byte; lia|apply Hso2]).
  destruct (data_sound k2 (fill f PAGE_SIZE 0 (ram k2)) roots fl2 f Hso2 Hmap2 (proj1 Hf) Hok2) as (Hso3 & Hl3 & _).
  { intros x Hx. by apply fill_out. }
  assert (Hl4 : forall va', user va' -> page_of va' = page -> leaf (fill f PAGE_SIZE 0 (ram k2)) r va' = v).
  { intros va' U E. rewrite Hl3 by done. by rewrite (same_page_leaf (ram k2) r va' page U Hup) by (by rewrite Epp). }
  split; [exact Hso2|]. split; [exact Hl2|]. split; [|split].
  - split; [exact Hso3|]. apply (shares_ext k2); [intros; by apply Hl3|done..].
  - intros va' U E. assert (Epg : page_of va' = page_of page) by (by rewrite Epp). split_and!.
    + unfold view. rewrite (same_page_leaf (ram k) r va' page U Hup Epg), <- Eram. by rewrite Hp0.
    + unfold view. cbn [ram update_ram set_field set_ram]. rewrite Hl4 by done.
      rewrite Hvp, Hvf. f_equal. apply fill_in. apply page_byte.
    + by apply Hl4.
  - intros r' va' Hr' U Hne.
    assert (Hv2 : view k2 r' va' = view k1 r' va').
    { eapply remapped_view; [exact Hrm|apply Hso1|done|done|by rewrite Epp]. }
    assert (Hlo : leaf (ram k2) r' va' = leaf (ram k) r' va').
    { rewrite (rm_other _ _ _ _ _ _ _ _ Hrm) by (done || by rewrite Epp). by rewrite Eram. }
    split; [|by rewrite ram_update, Hl3]. rewrite <- Hv1, <- Hv2.
    apply view_ext; [by apply Hl3|]. intros P. apply fill_out. intros Hin.
    pose proof (page_byte (frame_of (leaf (ram k2) r' va')) va') as Hx.
    assert (Ef' : frame_of (leaf (ram k2) r' va') = f).
    { destruct (decide (frame_of (leaf (ram k2) r' va') = f)) as [?|Hn']; [done|].
      pose proof (aligned_apart _ _ (frame_of_aligned (leaf (ram k2) r' va')) (proj1 Hf) Hn'). unfold PAGE_SIZE in *. lia. }
    rewrite Hlo in P, Ef'. apply (Hnone r' Hr'). by exists va'.
Qed.

(** The address translates to the page's frame. *)
Lemma translate_page k roots fl r va v : sound k roots fl -> r ∈ roots -> user va -> read_cr3 k = r ->
  leaf (ram k) r va = v -> 
  match translate k va with
  | Some (physical, _) => has v PRESENT = true /\ physical = frame_of v + va mod 4096
  | None => has v PRESENT = false
  end.
Proof.
  intros Hso Hr Hva Er <-. unfold translate. rewrite Er. pose proof (translate_leaf k roots fl r va Hso Hr Hva) as H.
  destruct (translate_in k r va) as [[p es]|], (has (leaf (ram k) r va) PRESENT); cbn in H; try done.
  by injection H as ->.
Qed.

Lemma demand_fault_spec k roots fl region va page k' :
  space k roots fl -> read_cr3 k ∈ roots -> user va -> head (ALLOCATOR k) <> 0 ->
  demand_fault region va k = (Some page, k') ->
  page = page_of va /\ region.2 <= page /\ va < region.1 /\
  exists fl', space k' roots fl' /\ CR3 k' = CR3 k /\
    (forall va', user va' -> page_of va' = page -> view k (read_cr3 k) va' = None /\ view k' (read_cr3 k) va' = Some 0) /\
    forall r' va', r' ∈ roots -> user va' -> ~ (r' = read_cr3 k /\ page_of va' = page) -> view k' r' va' = view k r' va'.
Proof.
  intros Hsp Hr Hva Hhead. unfold demand_fault. destruct region as [top limit]. cbn [fst snd].
  destruct ((top =? 0) || (top <=? va)) eqn:Et; [done|]. apply orb_false_iff in Et as [_ Et%Z.leb_gt].
  destruct (Z.ltb_spec (page_of va) limit) as [|Hlim]; [done|]. destruct (translate k (page_of va)); [done|].
  unfold allocate_or_evict. destruct (allocate k) as [[f|] k1] eqn:Ea;
    [|unfold allocate in Ea; by rewrite (proj2 (Z.eqb_neq _ _) Hhead) in Ea].
  assert (Hup : user (page_of va)).
  { unfold user in *. rewrite page_of_div in *. pose proof (Z.div_pos va 4096). pose proof (page_of_bound va).
    rewrite page_of_div in *. lia. }
  destruct (new_page_spec k roots fl f k1 (page_of va) (Z.lor USER WRITABLE) Hsp Hr Hup (page_of_aligned va))
    as (res & k2 & fl2 & -> & Hcr & _ & Hres); [done..|].
  destruct res as [u|err|]; [|done|done]. destruct Hres as (Hso2 & Hl & Hsp2 & Hnew & Hold).
  assert (Er : read_cr3 k2 = read_cr3 k) by (unfold read_cr3; by rewrite Hcr).
  assert (Hf : framelike f).
  { by destruct (sound_head_frame k roots fl f k1 (sp_sound _ _ _ Hsp) Ea). }
  assert (Htr := translate_page k2 roots fl2 (read_cr3 k) (page_of va) _ Hso2 Hr Hup Er Hl).
  destruct (translate k2 (page_of va)) as [[physical es]|]; [|by rewrite new_leaf_present in Htr].
  destruct Htr as [_ ->]. intros [= <- <-].
  rewrite (new_leaf_frame f (Z.lor USER WRITABLE)) by done.
  assert (Ef : frame_of f = f) by (apply frame_of_id; [apply Hf|destruct Hf; lia]).
  assert (E0 : page_of va mod 4096 = 0) by apply page_of_aligned. rewrite Ef, E0, Z.add_0_r.
  split_and!; try done. exists fl2. split_and!; try done.
  - intros va' U E. by destruct (Hnew va' U E) as (? & ? & _).
  - intros r' va' Hr' U Hne. by apply Hold.
Qed.

(** ** Runs *)

(** What the programs of the machine do: [r] is the space that acts, or that
    the kernel, in the space [kernel], tears down. *)
Inductive Action :=
| Write (r va b : Z)
| Grow (r : Z) (region : Z * Z) (va : Z)
| Fork (r : Z)
| Exit (r kernel : Z).
Definition takes_frames (a : Action) : bool := match a with Exit _ _ => false | _ => true end.

Definition act (a : Action) (s : Mem D * list Z) : option (Mem D * list Z) :=
  let '(k, roots) := s in
  if takes_frames a && (head (ALLOCATOR k) =? 0) then None
  else
    match a with
    | Write r va b =>
        if decide (r ∈ roots /\ user va /\ is_byte b)
        then match write va b (k <| CR3 := r |>) with Some k => Some (k, roots) | None => None end
        else None
    | Grow r region va =>
        if decide (r ∈ roots /\ user va)
        then match demand_fault region va (k <| CR3 := r |>) with (Some _, k) => Some (k, roots) | (None, _) => None end
        else None
    | Fork r =>
        if decide (r ∈ roots)
        then match fork r (k <| CR3 := r |>) with (Some child, k) => Some (k, child :: roots) | (None, _) => None end
        else None
    | Exit r kernel =>
        if decide (r ∈ roots /\ kernel <> r)
        then Some ((destroy r (k <| CR3 := kernel |>)).2, filter (fun r' => r' <> r) roots)
        else None
    end.

(** Memory that is copied: each space has its own bytes. *)
Definition Private := Z -> Z -> option Z.
Definition private_act (a : Action) (child : Z) (A : Private) : Private := fun r' va' =>
  match a with
  | Write r va b => if decide (r' = r /\ va' = va) then Some b else A r' va'
  | Grow r _ va => if decide (r' = r /\ page_of va' = page_of va) then Some 0 else A r' va'
  | Fork r => if decide (r' = child) then A r va' else A r' va'
  | Exit _ _ => A r' va'
  end.

(** Both at once; a fork's child is the newest root. *)
Fixpoint run (l : list Action) (s : Mem D * list Z) (A : Private) : option ((Mem D * list Z) * Private) :=
  match l with
  | [] => Some (s, A)
  | a :: l =>
      match act a s with
      | Some s' => run l s' (private_act a (hd 0 s'.2) A)
      | None => None
      end
  end.

Definition agree k (roots : list Z) (A : Private) : Prop :=
  forall r va, r ∈ roots -> user va -> view k r va = A r va.

Lemma space_CR3 k roots fl r : space k roots fl -> r ∈ roots ->
  space (k <| CR3 := r |>) roots fl /\ read_cr3 (k <| CR3 := r |>) = r.
Proof.
  intros [[Hs Hc Hn] []] Hr. split; [split; by constructor|].
  destruct (sh_roots _ _ _ Hs r Hr) as [Ha Hb]. apply (frame_of_id r Ha). lia.
Qed.

Lemma act_spec a k roots fl A k' roots' :
  space k roots fl -> Z.of_nat (length roots) + 1 < 2 ^ 32 -> agree k roots A -> act a (k, roots) = Some (k', roots') ->
  exists fl', space k' roots' fl' /\ agree k' roots' (private_act a (hd 0 roots') A) /\
    (length roots' <= S (length roots))%nat.
Proof.
  intros Hsp Hlen HA. unfold act. destruct a as [r va b|r region va|r|r kernel]; cbn [takes_frames andb].
  1-3: destruct (Z.eqb_spec (head (ALLOCATOR k)) 0) as [|Hhead]; [done|].
  - case_decide as Hd; [|done]. destruct Hd as (Hr & U & Hb). destruct (space_CR3 k roots fl r Hsp Hr) as [Hsp1 Er].
    destruct (write va b _) as [k1|] eqn:E; [|done]. intros [= <- <-].
    destruct (write_spec _ roots fl va b k1 Hsp1 ltac:(by rewrite Er) U Hb Hhead E) as (fl' & Hsp' & _ & Hv & Ho).
    rewrite Er in Hv, Ho. exists fl'. split; [done|]. split; [|lia]. intros r' va' Hr' U'. cbn [private_act]. case_decide as Hd.
    + by destruct Hd as [-> ->].
    + rewrite Ho by done. by apply HA.
  - case_decide as Hd; [|done]. destruct Hd as (Hr & U). destruct (space_CR3 k roots fl r Hsp Hr) as [Hsp1 Er].
    destruct (demand_fault region va _) as [[page|] k1] eqn:E; [|done]. intros [= <- <-].
    destruct (demand_fault_spec _ roots fl region va page k1 Hsp1 ltac:(by rewrite Er) U Hhead E)
      as (-> & _ & _ & fl' & Hsp' & _ & Hv & Ho).
    rewrite Er in Hv, Ho. exists fl'. split; [done|]. split; [|lia]. intros r' va' Hr' U'. cbn [private_act]. case_decide as Hd.
    + destruct Hd as [-> Epg]. by apply Hv.
    + rewrite Ho by done. by apply HA.
  - case_decide as Hr; [|done]. destruct (space_CR3 k roots fl r Hsp Hr) as [Hsp1 Er].
    destruct (fork_spec _ roots fl r Hsp1 Hr ltac:(by rewrite Er) Hlen) as (res & k1 & fl' & -> & _ & Hres).
    destruct res as [child|]; [|done]. intros [= <- <-]. destruct Hres as (Hnin & Hsp' & Hc & Ho).
    exists fl'. split; [done|]. split; [|cbn; lia]. intros r' va' Hr' U'. cbn [private_act hd].
    case_decide as Hd.
    + subst r'. rewrite Hc by done. by apply HA.
    + apply elem_of_cons in Hr' as [?|Hr']; [done|]. rewrite Ho by done. by apply HA.
  - case_decide as Hd; [|done]. destruct Hd as (Hr & _).
    destruct (destroy_spec (k <| CR3 := kernel |>) roots fl r) as (k1 & fl' & -> & Hsp' & Hk & _); [|done|].
    { destruct Hsp as [[] []]. split; by constructor. }
    intros [= <- <-]. exists fl'. split; [done|]. split.
    + intros r' va' Hr' U. cbn [private_act]. rewrite (kp_view _ _ _ Hk) by done. apply elem_of_but in Hr' as [Hr' _]. by apply HA.
    + pose proof (length_filter (fun x => x <> r) roots). lia.
Qed.

Lemma run_spec l : forall k roots fl A k' roots' A', space k roots fl -> Z.of_nat (length roots + length l) < 2 ^ 32 -> agree k roots A ->
  run l (k, roots) A = Some ((k', roots'), A') -> agree k' roots' A' /\ exists fl', space k' roots' fl'.
Proof.
  induction l as [|a l IH]; intros k roots fl A k' roots' A' Hsp Hlen HA; cbn [run].
  - intros [= <- <- <-]. split; [done|]. by exists fl.
  - cbn [length] in Hlen. destruct (act a (k, roots)) as [[k1 roots1]|] eqn:E; [|done].
    destruct (act_spec a k roots fl A k1 roots1 Hsp ltac:(lia) HA E) as (fl1 & Hsp1 & HA1 & Hle).
    apply (IH k1 roots1 fl1); [done|lia|done].
Qed.
End run.

(** C1: copy-on-write is copying.  Whatever sequence of stores, stack
    growth, forks and exits the programs of the machine make, through the
    page-fault handlers and while a frame is free at each step that takes one,
    every byte each of them reads is the byte it would read if every fork had
    copied its parent's memory; and the counts of shared frames, the page tables and the free
    list stay consistent. *)
Theorem copy_on_write_is_copying {D} `{!Disk D} (l : list Action) (k : Mem D) roots fl A k' roots' A' :
  space k roots fl -> Z.of_nat (length roots + length l) < 2 ^ 32 -> agree k roots A ->
  run l (k, roots) A = Some ((k', roots'), A') ->
  agree k' roots' A' /\ exists fl', space k' roots' fl'.
Proof. apply run_spec. Qed.
