(* ===== verification/Boot.v ===== *)
(** * From the firmware's map to the first address space

    [init] turns the usable regions into the free list; a zeroed frame is an
    address space with nothing in it.  The runs of the development start
    here, over a disk kept in memory. *)

From S2P Require Import Prelude Bytes Disk Pages Replace Swap Memory PageTables Spaces UserPages Sharing Cow Destroy CowRun.

#[local] Arguments Z.pow : simpl never.
#[local] Arguments load : simpl never.

Section init.
Context {D : Type}.
Implicit Types k : Mem D.

(** The frames of a region from [frame] on. *)
Definition usable (frame end_ g : Z) : Prop := aligned g /\ 1048576 <= g /\ frame <= g /\ g + 4096 <= end_.

Lemma usable_next frame end_ g : aligned frame -> aligned end_ ->
  usable frame end_ g <-> usable (frame + 4096) end_ g \/ (g = frame /\ usable frame end_ frame).
Proof.
  intros Hf He. unfold usable. split.
  - intros (Ha & H1 & H2 & H3). destruct (decide (g = frame)) as [->|Hne]; [by right|left].
    pose proof (aligned_apart frame g Hf Ha ltac:(done)). split_and!; (done || lia).
  - intros [(Ha & H1 & H2 & H3)|[-> H]]; [|done]. split_and!; (done || lia).
Qed.

Lemma free_region_spec fuel frame end_ k fl :
  aligned frame -> aligned end_ -> 0 <= frame <= 2 ^ 52 -> end_ < 2 ^ 52 ->
  (forall g, g ∈ fl -> g < frame \/ end_ <= g) -> free_list k fl -> total (ALLOCATOR k) = free (ALLOCATOR k) ->
  (Z.to_nat ((end_ - frame) / 4096) < fuel)%nat ->
  exists k' fl', free_region fuel frame end_ k = Some k' /\ free_list k' fl' /\
    total (ALLOCATOR k') = free (ALLOCATOR k') /\ rest k' = rest k /\
    (forall g, g ∈ fl' <-> g ∈ fl \/ usable frame end_ g) /\
    (forall x, ~ frame <= x < end_ -> ram k' x = ram k x).
Proof.
  revert frame k fl. induction fuel as [|fuel IH]; intros frame k fl Hf He H0 Hhi Hsep Hfl Htot Hfuel; [lia|].
  cbn [free_region]. unfold PAGE_SIZE. assert (E52 : 2 ^ 52 + 4096 < 2 ^ 64) by done.
  rewrite (wrap_small 64 (frame + 4096)) by (unfold in_u; lia).
  assert (Hf' : aligned (frame + 4096)) by (unfold aligned in *; rewrite <- Z.add_mod_idemp_l, Hf by lia; done).
  destruct (Z.leb_spec (frame + 4096) end_) as [Hle|Hgt].
  2:{ exists k, fl. split_and!; try done. intros g. split; [by left|]. intros [?|(_ & _ & ? & ?)]; [done|lia]. }
  assert (Hdiv : (end_ - frame) / 4096 = (end_ - (frame + 4096)) / 4096 + 1).
  { replace (end_ - frame) with (end_ - (frame + 4096) + 1 * 4096) by lia. rewrite Z.div_add by lia. done. }
  assert (Hdiv0 : 0 <= (end_ - (frame + 4096)) / 4096) by (apply Z.div_pos; lia).
  assert (Hfuel' : (Z.to_nat ((end_ - (frame + 4096)) / 4096) < fuel)%nat) by lia.
  destruct (Z.leb_spec 1048576 frame) as [Hmib|Hlow].
  - assert (Hff : framelike frame) by (split; [done|lia]).
    assert (Hnin : frame ∉ fl) by (intros Hin; destruct (Hsep frame Hin); lia).
    destruct (deallocate_free_list k fl frame Hfl Hff Hnin) as (Hfl1 & Hout1 & Htot1 & Hrest1).
    cbn zeta in *. set (k1 := deallocate frame k) in *.
    set (k2 := k1 <| ALLOCATOR := _ |>).
    assert (Hfl2 : free_list k2 (frame :: fl)) by (destruct Hfl1; by constructor).
    assert (Htot2 : total (ALLOCATOR k2) = free (ALLOCATOR k2)).
    { unfold k2. cbn [ALLOCATOR set_field set_ALLOCATOR total free]. rewrite Htot1, Htot, (fr_count _ _ Hfl), (fr_count _ _ Hfl1).
      cbn [length]. pose proof (frames_bound fl (fr_nodup _ _ Hfl) (fr_frames _ _ Hfl)).
      assert (E40 : 2 ^ 40 + 1 < 2 ^ 64) by done. rewrite wrap_small; [lia|unfold in_u; lia]. }
    destruct (IH (frame + 4096) k2 (frame :: fl)) as (k' & fl' & -> & Hfl' & Htot' & Hrest' & Hin' & Hout'); try done; [lia| |].
    { intros g [->|Hg]%elem_of_cons; [lia|]. destruct (Hsep g Hg); lia. }
    exists k', fl'. split_and!; try done.
    + intros g. rewrite Hin', elem_of_cons, (usable_next frame end_ g Hf He). split.
      * intros [[->|?]|?]; [right; right|by left|by right; left]. split; [done|]. split_and!; (done || lia).
      * intros [?|[?|[-> _]]]; [left; by right|by right|left; by left].
    + intros x Hx. rewrite Hout' by lia. apply Hout1. lia.
  - destruct (IH (frame + 4096) k fl) as (k' & fl' & -> & Hfl' & Htot' & Hrest' & Hin' & Hout'); try done; [lia| |].
    { intros g Hg. destruct (Hsep g Hg); lia. }
    exists k', fl'. split_and!; try done.
    + intros g. rewrite Hin', (usable_next frame end_ g Hf He). split; [intros [?|?]; auto|].
      intros [?|[?|[-> (_ & ? & _)]]]; [by left|by right|lia].
    + intros x Hx. apply Hout'. lia.
Qed.

(** ** The whole map *)

(** What the firmware says: regions in 52 bits that do not overlap. *)
Fixpoint apart (regions : list Region) : Prop :=
  match regions with
  | [] => True
  | (_, s, e) :: regions =>
      0 <= s <= e /\ e < 2 ^ 52 - 4096 /\
      (forall b s' e', (b, s', e') ∈ regions -> e <= s' \/ e' <= s) /\ apart regions
  end.

Definition in_region (regions : list Region) (g : Z) : Prop :=
  exists s e, (true, s, e) ∈ regions /\ s <= g /\ g + 4096 <= e.

(** Rounding inward keeps the frames that lie inside. *)
Lemma usable_round s e g : 0 <= s <= e -> e < 2 ^ 52 - 4096 ->
  let s' := Z.ldiff (s +₆₄ PAGE_SIZE -₆₄ 1) (PAGE_SIZE - 1) in
  let e' := Z.ldiff e (PAGE_SIZE - 1) in
  (usable s' e' g <-> aligned g /\ 1048576 <= g /\ s <= g /\ g + 4096 <= e) /\
  aligned s' /\ aligned e' /\ s <= s' <= 2 ^ 52 /\ e' <= e.
Proof.
  intros Hs He s' e'. assert (E52 : 2 ^ 52 + 4096 < 2 ^ 64) by done.
  assert (Es : s' = page_of (s + 4095)).
  { unfold s', page_of, clear, PAGE_SIZE. rewrite (wrap_small 64 (s + 4096)), wrap_small by (unfold in_u; lia).
    f_equal. lia. }
  assert (Ee : e' = page_of e) by done. rewrite Es, Ee. unfold usable, aligned. rewrite !page_of_div.
  pose proof (Z.div_mod (s + 4095) 4096 ltac:(lia)). pose proof (Z.mod_pos_bound (s + 4095) 4096 ltac:(lia)).
  pose proof (Z.div_mod e 4096 ltac:(lia)). pose proof (Z.mod_pos_bound e 4096 ltac:(lia)).
  split_and!; try (rewrite Z.mul_comm; by apply Z.mod_mul); try lia.
  split; [intros (? & ? & ? & ?); split_and!; (done || lia)|]. intros (Hg & ? & ? & ?).
  pose proof (Z.div_mod g 4096 ltac:(lia)). split_and!; (done || nia).
Qed.

Lemma init_spec fuel regions k fl :
  apart regions -> Forall (fun '(_, s, e) => (Z.to_nat (e / 4096) < fuel)%nat) regions ->
  (forall g s e b, g ∈ fl -> (b, s, e) ∈ regions -> g + 4096 <= s \/ e <= g) ->
  free_list k fl -> total (ALLOCATOR k) = free (ALLOCATOR k) ->
  exists k' fl', init fuel regions k = Some k' /\ free_list k' fl' /\ total (ALLOCATOR k') = free (ALLOCATOR k') /\
    rest k' = rest k /\
    (forall g, g ∈ fl' <-> g ∈ fl \/ (aligned g /\ 1048576 <= g /\ in_region regions g)) /\
    (forall x, (forall b s e, (b, s, e) ∈ regions -> ~ s <= x < e) -> ram k' x = ram k x).
Proof.
  revert k fl. induction regions as [|[[b s] e] regions IH]; intros k fl Hap Hfuel Hsep Hfl Htot; cbn [init].
  { exists k, fl. split_and!; try done. intros g. split; [by left|]. intros [?|(_ & _ & ? & ? & H & _)]; [done|by apply not_elem_of_nil in H]. }
  destruct Hap as (Hse & He & Hd & Hap). apply Forall_cons in Hfuel as [Hfu Hfuel].
  assert (Hreg : forall g, in_region ((b, s, e) :: regions) g <-> (b = true /\ s <= g /\ g + 4096 <= e) \/ in_region regions g).
  { intros g. unfold in_region. split.
    - intros (s1 & e1 & [[= <- -> ->]|Hin]%elem_of_cons & ?); [by left|right; eauto].
    - intros [(-> & ?)|(s1 & e1 & Hin & ?)]; [exists s, e; split; [left|done]|exists s1, e1; split; [by right|done]]. }
  destruct b; cbn [negb].
  2:{ destruct (IH k fl) as (k' & fl' & -> & H1 & H2 & H3 & H4 & H5); try done.
      { intros g s1 e1 b Hg Hin. apply (Hsep g s1 e1 b); [done|by right]. }
      exists k', fl'. split_and!; try done.
      - intros g. rewrite H4, Hreg. split; [tauto|]. intros [?|(? & ? & [[? _]|?])]; [tauto|done|tauto].
      - intros x Hx. apply H5. intros b s1 e1 Hin. apply (Hx b s1 e1). by right. }
  destruct (usable_round s e 0 Hse He) as (_ & Has & Hae & Hs' & He').
  set (s' := Z.ldiff (s +₆₄ PAGE_SIZE -₆₄ 1) _) in *. set (e' := Z.ldiff e _) in *.
  destruct (free_region_spec fuel s' e' k fl) as (k1 & fl1 & -> & Hfl1 & Htot1 & Hrest1 & Hin1 & Hout1); try done; [lia|lia| |  |].
  { intros g Hg. destruct (Hsep g s e true Hg ltac:(left)); lia. }
  { assert ((e' - s') / 4096 <= e / 4096) by (apply Z.div_le_mono; lia). lia. }
  destruct (IH k1 fl1) as (k' & fl' & -> & H1 & H2 & H3 & H4 & H5); try done.
  { intros g s1 e1 b Hg Hin. apply Hin1 in Hg as [Hg|Hg]; [apply (Hsep g s1 e1 b); [done|by right]|].
    apply (usable_round s e g Hse He) in Hg as (_ & _ & ? & ?). destruct (Hd b s1 e1 Hin); lia. }
  exists k', fl'. split_and!; try done; [congruence| |].
  - intros g. rewrite H4, Hin1, Hreg. assert (Hu := proj1 (usable_round s e g Hse He)). fold s' e' in Hu.
    rewrite Hu. tauto.
  - intros x Hx. rewrite H5, Hout1; [done| |].
    + intros ?. apply (Hx true s e); [left|lia].
    + intros b s1 e1 Hin. apply (Hx b s1 e1). by right.
Qed.
End init.

(** The free list is exactly the machine's usable memory.  From the
    firmware's map of disjoint regions, [init] ends, and every whole frame of
    a usable region at or above the first megabyte, and no other, is on the
    list, once; both counters say how many; and nothing outside the regions
    is written. *)
Theorem init_frees_usable_frames {D} fuel regions (k : Mem D) :
  apart regions -> Forall (fun '(_, s, e) => (Z.to_nat (e / 4096) < fuel)%nat) regions ->
  ALLOCATOR k = mkFrames 0 0 0 -> bytes_ok (ram k) ->
  exists k' fl, init fuel regions k = Some k' /\ chain (ram k') (head (ALLOCATOR k')) fl /\ NoDup fl /\
    (forall f, f ∈ fl <-> aligned f /\ 1048576 <= f /\ in_region regions f) /\
    stats k' = (Z.of_nat (length fl), Z.of_nat (length fl)) /\
    (forall x, (forall b s e, (b, s, e) ∈ regions -> ~ s <= x < e) -> ram k' x = ram k x).
Proof.
  intros Hap Hfuel Ha Hb.
  destruct (init_spec fuel regions k [] Hap Hfuel) as (k' & fl & E & Hfl & Htot & _ & Hin & Hout).
  - intros g s e b Hg. by apply not_elem_of_nil in Hg.
  - constructor; rewrite ?Ha; try done; constructor.
  - by rewrite Ha.
  - exists k', fl. split_and!; try done; [apply Hfl|apply Hfl| |].
    + intros f. rewrite Hin. split; [intros [H|H]; [by apply not_elem_of_nil in H|done]|by right].
    + unfold stats. by rewrite Htot, (fr_count _ _ Hfl).
Qed.

(** ** The first space *)

Lemma bare_get m root i : aligned root -> index i -> (forall x, root <= x < root + 4096 -> m x = 0) -> get m root i = 0.
Proof.
  intros Ha Hi H. rewrite <- (load_fill_zero 8 root 4096 m (root + 8 * i)) by (unfold index in Hi; lia).
  symmetry. apply load_ext. intros x Hx. unfold index in Hi. rewrite fill_in, H by lia. done.
Qed.

Lemma bare_walk m root p t : aligned root -> (forall x, root <= x < root + 4096 -> m x = 0) ->
  valid p -> walk m root p = Some t -> p = [] /\ t = root.
Proof.
  intros Ha H0. destruct p as [|i p]; intros [Hi _]; [by intros [= <-]|]. apply Forall_cons in Hi as [Hi _]. cbn [walk].
  by rewrite (bare_get m root i Ha Hi H0).
Qed.

Lemma bare_space {D} (k : Mem D) root fl :
  free_list k fl -> framelike root -> root ∉ fl -> (forall x, root <= x < root + 4096 -> ram k x = 0) -> SHARED k = [] ->
  space k [root] fl.
Proof.
  intros [Hc Hnd Hf Hn Hb] Hr Hnin H0 Hse.
  assert (Hw : forall p t, valid p -> walk (ram k) root p = Some t -> p = [] /\ t = root).
  { intros p t Hp. exact (bare_walk (ram k) root p t (proj1 Hr) H0 Hp). }
  assert (Hl : forall r va, r ∈ [root] -> leaf (ram k) r va = 0).
  { intros r va ->%list_elem_of_singleton. unfold leaf. destruct (walk (ram k) root (path va)) as [t|] eqn:E; [|done].
    destruct (Hw _ _ (path_valid va) E) as [Ep _]. by apply (f_equal length) in Ep. }
  assert (Hm : forall r f, r ∈ [root] -> ~ maps (ram k) r f).
  { intros r f Hrr (va & _ & P & _). by rewrite Hl in P. }
  split.
  - constructor; [|done|split; [done|]].
    + constructor; try done.
      * by intros r ->%list_elem_of_singleton.
      * intros r r' p q t ->%list_elem_of_singleton ->%list_elem_of_singleton Hp Hq E E'.
        destruct (Hw p t (private_valid _ Hp) E) as [-> _], (Hw q t Hq E') as [-> _]. done.
      * intros r p i t ->%list_elem_of_singleton Hp E.
        destruct (Hw p t (private_valid _ (private_init _ _ Hp)) E) as [-> ->].
        apply private_valid, (valid_snoc [] i) in Hp as (_ & Hi & _). by rewrite (bare_get _ root i (proj1 Hr) Hi H0).
      * intros f Hin. rewrite Forall_forall in Hf. by apply Hf.
      * intros f r p Hin ->%list_elem_of_singleton Hp E. destruct (Hw p f Hp E) as [_ ->]. done.
      * intros r va Hrr _ P. by rewrite Hl in P.
      * intros r p t ->%list_elem_of_singleton Hp E. destruct (Hw p t (private_valid _ Hp) E) as [_ ->]. apply Hr.
    + pose proof (frames_bound fl Hnd Hf). assert (2 ^ 40 < 2 ^ 52) by (by apply Z.pow_lt_mono_r). lia.
  - constructor; rewrite ?Hse; try done; try constructor.
    + intros r va va' Hrr _ _ P. by rewrite Hl in P.
    + intros f. exists []. split_and!; [constructor| |cbn; lia]. intros r. split; [by intros ?%not_elem_of_nil|].
      intros [Hrr M]. by apply Hm in M.
    + intros r r' va Hrr _ _ P. by rewrite Hl in P.
    + intros r Hrr. by apply Hm.
Qed.

(** ** A machine *)

(** A disk kept in memory, which never fails. *)
Definition RamDisk : Type := Z -> list Z.
#[export] Instance ram_disk : Disk RamDisk := {
  disk_present d := (true, d);
  disk_read lba count d := (mjoin (map (fun i => d (lba + Z.of_nat i)) (seq 0 count)), Ok tt, d);
  disk_write lba bytes d :=
    (Ok tt, fun x => if (lba <=? x) && (x <? lba + Z.of_nat (length bytes) / 512)
                     then take 512 (drop (Z.to_nat (512 * (x - lba))) bytes) else d x)
}.

Definition ROOT : Z := 2097152.
Definition off : Mem RamDisk :=
  mkMem RamDisk (fun _ => 0) (mkFrames 0 0 0) [] ROOT true Registry.init Swap_init (fun _ => replicate 512 0).

(** [n] frames from 1 MiB, and a zeroed table above them. *)
Definition map_of (n : Z) : list Region := [(true, 1048576, 1048576 + n * 4096)].
Definition machine (n : Z) : Mem RamDisk := default off (init 1000 (map_of n) off).

Lemma map_of_apart n : 0 <= n <= 200 -> apart (map_of n).
Proof.
  intros Hn. cbn. split_and!; try lia.
  - intros b s e H. by apply not_elem_of_nil in H.
Qed.

Lemma machine_space n : 0 <= n <= 200 ->
  exists fl, space (machine n) [ROOT] fl /\ forall g, g ∈ fl -> g < 1048576 + n * 4096.
Proof.
  intros Hn. destruct (init_spec 1000 (map_of n) off []) as (k & fl & E & Hfl & _ & Hrest & Hin & Hout).
  - by apply map_of_apart.
  - constructor; [|constructor]. change 1048576 with (256 * 4096). rewrite <- Z.mul_add_distr_r, Z.div_mul by lia. lia.
  - intros g s e b H. by apply not_elem_of_nil in H.
  - constructor; first [done | constructor | intros x; unfold is_byte; cbn; lia].
  - done.
  - exists fl. unfold machine. rewrite E. change (default off (Some k)) with k.
    split; [|intros g H; apply Hin in H as [H|(_ & _ & s & e & H & ?)]; [by apply not_elem_of_nil in H|];
             apply list_elem_of_singleton in H as [= -> ->]; lia].
    apply bare_space; try done.
    + intros H. apply Hin in H as [H|(_ & _ & s & e & H & ?)]; [by apply not_elem_of_nil in H|].
      apply list_elem_of_singleton in H as [= -> ->]. unfold ROOT in *. lia.
    + intros x Hx. rewrite Hout; [done|]. intros b s e H. apply list_elem_of_singleton in H as [= -> -> ->]. unfold ROOT in *. lia.
    + unfold rest in Hrest. by injection Hrest.
Qed.

Lemma init_frees_usable_frames_witness :
  exists k fl, init 1000 (map_of 3) off = Some k /\ stats k = (3, 3) /\ length fl = 3%nat /\ 1052672 ∈ fl.
Proof.
  destruct (init_frees_usable_frames 1000 (map_of 3) off) as (k & fl & E & _ & _ & Hin & Hs & _).
  - by apply map_of_apart.
  - constructor; [vm_compute; lia|constructor].
  - done.
  - intros x. unfold is_byte. cbn. lia.
  - assert (Es : stats (machine 3) = (3, 3)) by (vm_compute; reflexivity).
    unfold machine in Es. rewrite E in Es. change (default off (Some k)) with k in Es. exists k, fl. split_and!; [done|done| |].
    + rewrite Es in Hs. injection Hs as Hs. lia.
    + apply Hin. split_and!; [done|lia|]. exists 1048576, 1060864. split; [left|lia].
Defined.

(** *** A run *)

Definition blank_private : Private := fun _ _ => None.
Definition deal : list Action := [Grow ROOT (32768, 4096) 32760; Write ROOT 32760 65; Write ROOT 32760 66].

Lemma machine_root n : 0 <= n <= 200 -> forall x, ROOT <= x < ROOT + 4096 -> ram (machine n) x = 0.
Proof.
  intros Hn x Hx. destruct (init_spec 1000 (map_of n) off []) as (k & fl & E & _ & _ & _ & _ & Hout).
  - by apply map_of_apart.
  - constructor; [|constructor]. change 1048576 with (256 * 4096). rewrite <- Z.mul_add_distr_r, Z.div_mul by lia. lia.
  - intros g s e b H. by apply not_elem_of_nil in H.
  - constructor; first [done | constructor | intros y; unfold is_byte; cbn; lia].
  - done.
  - unfold machine. rewrite E. change (default off (Some k)) with k. rewrite Hout; [done|].
    intros b s e H. apply list_elem_of_singleton in H as [= -> -> ->]. unfold ROOT in *. lia.
Qed.

Lemma machine_blank n va : 0 <= n <= 200 -> user va -> view (machine n) ROOT va = None.
Proof.
  intros Hn U. unfold view. assert (E : has (leaf (ram (machine n)) ROOT va) PRESENT = false); [|by rewrite E].
  unfold leaf. destruct (indexes_address va U) as (i3 & i2 & i1 & _ & _ & _ & -> & _). cbn [walk].
  rewrite (bare_get _ ROOT 0); [done|done|unfold index; lia|]. by apply machine_root.
Qed.

Lemma machine_8 : exists fl, space (machine 8) [ROOT] fl /\ agree (machine 8) [ROOT] blank_private.
Proof.
  destruct (machine_space 8) as (fl & Hsp & _); [lia|]. exists fl. split; [exact Hsp|].
  intros r va ->%list_elem_of_singleton U. apply (machine_blank 8); [lia|exact U].
Qed.

Lemma copy_on_write_is_copying_witness :
  exists k roots A, run deal (machine 8, [ROOT]) blank_private = Some ((k, roots), A) /\ agree k roots A /\
    A ROOT 32760 = Some 66 /\ A ROOT 32761 = Some 0.
Proof.
  assert (G : forall d, run deal (machine 8, [ROOT]) blank_private = d ->
            match d with
            | Some ((_, [r]), A) => r = ROOT /\ A ROOT 32760 = Some 66 /\ A ROOT 32761 = Some 0
            | _ => False end ->
            exists k roots A, d = Some ((k, roots), A) /\ agree k roots A /\ A ROOT 32760 = Some 66 /\ A ROOT 32761 = Some 0).
  { intros d Ed E. destruct d as [[[k [|r [|? ?]]] A]|]; [destruct E| |destruct E..].
    destruct E as (-> & E1 & E2). exists k, [ROOT], A. split; [reflexivity|]. split; [|by split].
    destruct machine_8 as (fl & Hsp & Hag).
    apply (copy_on_write_is_copying deal (machine 8) [ROOT] fl blank_private k [ROOT] A Hsp eq_refl Hag Ed). }
  refine (G _ eq_refl _). vm_compute. done.
Defined.

(** One page grown into the empty space: its frame, three tables, the root. *)
Definition grown : Mem RamDisk := default off (fst <$> act (Grow ROOT (32768, 4096) 32760) (machine 8, [ROOT])).

Lemma grown_space : exists fl, space grown [ROOT] fl.
Proof.
  destruct machine_8 as (fl & Hsp & Hag). unfold grown.
  assert (H : snd <$> act (Grow ROOT (32768, 4096) 32760) (machine 8, [ROOT]) = Some [ROOT]) by (vm_compute; reflexivity).
  destruct (act _ _) as [[k roots]|] eqn:E; [|done]. injection H as ->.
  destruct (act_spec (Grow ROOT (32768, 4096) 32760) (machine 8) [ROOT] fl blank_private k [ROOT] Hsp eq_refl Hag E) as (fl' & Hsp' & _).
  by exists fl'.
Qed.


Lemma map_page_maps_one_page_witness :
  exists k', map_page_in ROOT 8192 5242880 6 (machine 8) = (Ok tt, k') /\
    fst <$> translate_in k' ROOT 8200 = Some 5242888 /\ fst <$> translate_in k' ROOT 12288 = None.
Proof.
  destruct (machine_space 8) as (fl & Hsp & Hfl); [lia|].
  assert (Hmap : mappable (ram (machine 8)) [ROOT] fl 5242880).
  { split; [intros H%Hfl; lia|]. intros r p Hr Hp E. apply list_elem_of_singleton in Hr as ->.
    by destruct (bare_walk _ ROOT _ _ eq_refl (machine_root 8 ltac:(lia)) Hp E). }
  assert (U1 : user 8192) by (unfold user, USER_SPACE_END; lia).
  destruct (map_page_maps_one_page (machine 8) [ROOT] fl ROOT 8192 5242880 6) as (res & k' & fl' & E & _ & Ho & Hres);
    [apply Hsp|left|done|unfold u64; split; [lia|done]|done|done|].
  assert (Er : (map_page_in ROOT 8192 5242880 6 (machine 8)).1 = Ok tt) by (vm_compute; reflexivity).
  rewrite E in Er. cbn [fst] in Er. subst res. exists k'. split; [exact E|]. destruct Hres as [_ Ht]. split.
  - rewrite (Ht 8200); [done|unfold user, USER_SPACE_END; lia|done].
  - rewrite (Ho ROOT 12288); [vm_compute; reflexivity|left|unfold user, USER_SPACE_END; lia|]. by intros [_ H].
Defined.

(** ** When no frame is free

    Two spaces share the frame [SHARED_FRAME] copy-on-write, as after a fork,
    and the free list is empty. *)

Definition link_to (table : Z) : Z := table + 7.
Definition space_at (root frame : Z) (m : memory) : memory :=
  set root 0 (link_to (root + 4096)) (set (root + 4096) 0 (link_to (root + 8192))
    (set (root + 8192) 0 (link_to (root + 12288)) (set (root + 12288) 8 (frame + PRESENT + USER + COW) m))).
Definition SHARED_FRAME : Z := 4194304.
Definition OTHER : Z := 3145728.
Definition full : Mem RamDisk :=
  mkMem RamDisk (space_at ROOT SHARED_FRAME (space_at OTHER SHARED_FRAME (fun _ => 0))) (mkFrames 0 0 24)
    [(SHARED_FRAME, 2)] ROOT true Registry.init Swap_init (fun _ => replicate 512 0).

(** The handler drops its owner first, which makes the page itself the
    victim: it is written to a swap slot that nothing names, and the same
    frame comes back as the "fresh" one.  The page ends writable in a frame
    the other space still maps: a store by one is read by the other. *)
Theorem cow_without_frames_is_not_private :
  let '(handled, k) := cow_fault 32768 full in
  handled = true /\ frame_of (leaf (ram k) ROOT 32768) = SHARED_FRAME /\ frame_of (leaf (ram k) OTHER 32768) = SHARED_FRAME /\
  has (leaf (ram k) ROOT 32768) WRITABLE = true /\ Swap.stats (SWAP k) = (1%nat, 1, 0) /\
  match write 32768 65 full with Some k => view k OTHER 32768 = Some 65 | None => False end.
Proof. vm_compute. done. Qed.
