(* ===== verification/Elf.v ===== *)
(** * The program loader: [kernel/src/elf.rs]

    [elf_load] is [elf::load]: it checks the file's header, maps and fills the
    pages each loadable segment asks for in the current address space, then
    sets the permissions.  Stores to user addresses go through the page tables
    ([CowRun.write]). *)

From S2P Require Import Prelude Bytes Disk Pages Replace Swap Memory PageTables Spaces UserPages Sharing Cow CowRun.

#[local] Arguments Z.pow : simpl never.
#[local] Arguments load : simpl never.

Definition MAGIC : list Z := [127; 69; 76; 70].
Definition CLASS_64 : Z := 2.
Definition LITTLE_ENDIAN : Z := 1.
Definition TYPE_EXECUTABLE : Z := 2.
Definition MACHINE_X86_64 : Z := 62.
Definition PT_LOAD : Z := 1.
Definition PF_X : Z := 1.
Definition PF_W : Z := 2.
Definition USER_ADDRESS_LIMIT : Z := 2147483648.

(** [size_of::<ProgramHeader>()]. *)
Definition PROGRAM_HEADER_SIZE : Z := 56.

Record Loaded := mkLoaded { entry : Z; segments : Z; bytes_zeroed : Z; pages : list Z }.

Record ProgramHeader := mkProgramHeader {
  kind : Z; flags : Z; offset : Z; virtual_address : Z;
  physical_address : Z; file_size : Z; memory_size : Z; align : Z
}.

Definition read_u16 : list Z -> Z -> result Z := read_le 2.
Definition read_u32 : list Z -> Z -> result Z := read_le 4.
Definition read_u64 : list Z -> Z -> result Z := read_le 8.

Definition read_header (data : list Z) (at_ : Z) : result ProgramHeader :=
  kind ← read_u32 data at_;
  flags ← read_u32 data (at_ + 4);
  offset ← read_u64 data (at_ + 8);
  virtual_address ← read_u64 data (at_ + 16);
  physical_address ← read_u64 data (at_ + 24);
  file_size ← read_u64 data (at_ + 32);
  memory_size ← read_u64 data (at_ + 40);
  align ← read_u64 data (at_ + 48);
  mret (mkProgramHeader kind flags offset virtual_address physical_address file_size memory_size align).

(** [page = first; while page <= last { ..; page += PAGE_SIZE }].  Both are
    page addresses below [USER_ADDRESS_LIMIT], so [page] does not wrap. *)
Definition pages_between (first last : Z) : list Z :=
  map (fun i => first + PAGE_SIZE * Z.of_nat i) (seq 0 (Z.to_nat ((last - first) / PAGE_SIZE + 1))).

(** The locals of [load] that its first loop updates. *)
Record Progress := mkProgress { done_segments : Z; done_zeroed : Z; done_pages : list Z }.

Section elf.
Context {D : Type} `{!Disk D}.
Implicit Types k : Mem D.

(** A store by the kernel to a user address; one that faults for good stops
    the machine. *)
Definition store_byte (va b : Z) : io (Mem D) unit := fun k =>
  match write va b k with Some k => (Ok tt, k) | None => (Panic, k) end.
Fixpoint copy_bytes (va : Z) (bytes : list Z) : io (Mem D) unit :=
  match bytes with
  | [] => mret tt
  | b :: bytes => store_byte va b ≫= fun _ => copy_bytes (va + 1) bytes
  end.

(** [write_bytes(page, 0, PAGE_SIZE)]: one page, so one translation. *)
Definition zero_page (page : Z) : io (Mem D) unit := fun k =>
  let e := leaf (ram k) (read_cr3 k) page in
  if has e PRESENT && has e WRITABLE
  then (Ok tt, update_ram (fill (frame_of e) PAGE_SIZE 0) k) else (Panic, k).

Definition load_page (p : Progress) (page : Z) : io (Mem D) Progress := fun k =>
  match translate k page with
  | Some _ => (Ok p, k)
  | None =>
      match allocate k with
      | (None, k) => (Err "out of physical memory", k)
      | (Some frame, k) =>
          (_ ← map_page page frame (Z.lor USER WRITABLE);
           _ ← zero_page page;
           mret (mkProgress (done_segments p) (done_zeroed p +₆₄ PAGE_SIZE) (done_pages p ++ [page]))) k
      end
  end.

Definition load_segment (data : list Z) (h : ProgramHeader) (p : Progress) : io (Mem D) Progress :=
  if negb (kind h =? PT_LOAD) || (memory_size h =? 0) then mret p
  else if memory_size h <? file_size h then throw "segment claims more file bytes than memory"
  else
    let file_end := offset h + file_size h in
    if u64_max <? file_end then throw "segment offset overflows"
    else if Z.of_nat (length data) <? file_end then throw "segment runs past the end of the file"
    else
      let memory_end := virtual_address h + memory_size h in
      if u64_max <? memory_end then throw "segment address overflows"
      else if USER_ADDRESS_LIMIT <? memory_end then throw "segment wants an address outside userspace"
      else
        let first_page := page_of (virtual_address h) in
        let last_page := page_of (memory_end - 1) in
        p ← fold_io load_page (pages_between first_page last_page) p;
        _ ← (if 0 <? file_size h
             then bytes ← lift (slice data (offset h) file_end); copy_bytes (virtual_address h) bytes
             else mret tt);
        mret (mkProgress (done_segments p + 1) (done_zeroed p) (done_pages p)).

(** The permissions a segment asks for. *)
Definition page_flags (no_execute : bool) (flags : Z) : Z :=
  let page_flags := USER in
  let page_flags := if has flags PF_W then Z.lor page_flags WRITABLE else page_flags in
  if negb (has flags PF_X) && no_execute then Z.lor page_flags NO_EXECUTE else page_flags.

Definition protect_segment (data : list Z) (at_ : Z) : io (Mem D) unit :=
  kind ← lift (read_u32 data at_);
  flags ← lift (read_u32 data (at_ + 4));
  virtual_address ← lift (read_u64 data (at_ + 16));
  memory_size ← lift (read_u64 data (at_ + 40));
  if negb (kind =? PT_LOAD) || (memory_size =? 0) then mret tt
  else fun k =>
    for_each (pages_between (page_of virtual_address) (page_of (virtual_address +₆₄ memory_size -₆₄ 1)))
      (fun page => set_flags page (page_flags (NO_EXECUTE_ACTIVE k) flags)) k.

Definition check_entry (entry : Z) (p : Progress) : io (Mem D) Loaded := fun k =>
  if (USER_ADDRESS_LIMIT <? entry) || bool_decide (translate k entry = None)
  then (Err "entry point is not inside anything we loaded", k)
  else (Ok (mkLoaded entry (done_segments p) (done_zeroed p) (done_pages p)), k).

(** From the program headers on; [header_offset], [header_size] and
    [header_count] describe a table inside the file. *)
Definition load_table (data : list Z) (entry header_offset header_size header_count : Z) : io (Mem D) Loaded :=
  let at_ (index : nat) := header_offset + Z.of_nat index * header_size in
  let indexes := seq 0 (Z.to_nat header_count) in
  p ← fold_io (fun p index => header ← lift (read_header data (at_ index)); load_segment data header p)
        indexes (mkProgress 0 0 []);
  if done_segments p =? 0 then throw "nothing to load: no PT_LOAD segments"
  else
    _ ← for_each indexes (fun index => protect_segment data (at_ index));
    check_entry entry p.

Definition elf_load (data : list Z) : io (Mem D) Loaded :=
  if Z.of_nat (length data) <? 64 then throw "too small to be an ELF header"
  else if negb (bool_decide (take 4 data = MAGIC)) then throw "not an ELF file (bad magic)"
  else if negb (data !!! 4%nat =? CLASS_64) then throw "not a 64-bit ELF"
  else if negb (data !!! 5%nat =? LITTLE_ENDIAN) then throw "not little-endian"
  else
    kind ← lift (read_u16 data 16);
    if negb (kind =? TYPE_EXECUTABLE) then throw "not a fixed-address executable (ET_EXEC)"
    else
      machine ← lift (read_u16 data 18);
      if negb (machine =? MACHINE_X86_64) then throw "not compiled for x86_64"
      else
        entry ← lift (read_u64 data 24);
        header_offset ← lift (read_u64 data 32);
        header_size ← lift (read_u16 data 54);
        header_count ← lift (read_u16 data 56);
        if header_size <? PROGRAM_HEADER_SIZE then throw "program headers are too small"
        else
          let table_end := header_offset + header_size * header_count in
          if u64_max <? table_end then throw "program header table overflows"
          else if Z.of_nat (length data) <? table_end
          then throw "program header table runs past the end of the file"
          else load_table data entry header_offset header_size header_count.
End elf.
