(* ===== verification/ElfSpec.v ===== *)
(** * What loading a program makes of an address space

    The image a file describes, and the proof that [elf_load] builds it, gives
    each page the permissions of the last segment that covers it, and does
    not panic on any file whatever. *)

From S2P Require Import Prelude Bytes Disk Pages Replace Swap Memory PageTables Spaces UserPages Sharing Cow CowRun Elf.

#[local] Arguments Z.pow : simpl never.
#[local] Arguments load : simpl never.

(** ** The file *)

Definition header_of (data : list Z) (at_ : Z) : ProgramHeader :=
  mkProgramHeader (word 4 data at_) (word 4 data (at_ + 4)) (word 8 data (at_ + 8)) (word 8 data (at_ + 16))
    (word 8 data (at_ + 24)) (word 8 data (at_ + 32)) (word 8 data (at_ + 40)) (word 8 data (at_ + 48)).

(** The segments to load: the [PT_LOAD] headers with memory to them. *)
Definition loadable (h : ProgramHeader) : bool := (kind h =? PT_LOAD) && negb (memory_size h =? 0).
Definition table (data : list Z) (header_offset header_size header_count : Z) : list ProgramHeader :=
  map (fun index => header_of data (header_offset + Z.of_nat index * header_size)) (seq 0 (Z.to_nat header_count)).
Definition program_headers (data : list Z) : list ProgramHeader :=
  table data (word 8 data 32) (word 2 data 54) (word 2 data 56).

(** What the checks on a segment establish. *)
Record accepted (data : list Z) (h : ProgramHeader) : Prop := {
  ac_file : 0 <= file_size h <= memory_size h;
  ac_end : 0 <= offset h /\ offset h + file_size h <= Z.of_nat (length data);
  ac_memory : 0 <= virtual_address h /\ 0 < memory_size h /\
    virtual_address h + memory_size h <= USER_ADDRESS_LIMIT
}.

(** ** The image *)

(** Bytes by address; [None] where nothing is mapped. *)
Definition Image : Type := Z -> option Z.

(** [va] is in a page of the segment. *)
Definition covers (h : ProgramHeader) (va : Z) : bool :=
  (page_of (virtual_address h) <=? va) && (va <? page_of (virtual_address h + memory_size h - 1) + PAGE_SIZE).
Definition in_file (h : ProgramHeader) (va : Z) : bool :=
  (virtual_address h <=? va) && (va <? virtual_address h + file_size h).

(** A segment's file bytes go where it says; the rest of its pages read as
    they did, as zero where there was nothing. *)
Definition place (data : list Z) (A : Image) (h : ProgramHeader) : Image := fun va =>
  if in_file h va then Some (data !!! Z.to_nat (offset h + (va - virtual_address h)))
  else if covers h va then Some (default 0 (A va)) else A va.
Definition image (data : list Z) (hs : list ProgramHeader) (A : Image) : Image :=
  fold_left (place data) (filter loadable hs) A.

(** The flags of the last segment that covers a page. *)
Definition paint (no_execute : bool) (P : Image) (h : ProgramHeader) : Image := fun va =>
  if covers h va then Some (page_flags no_execute (flags h)) else P va.
Definition permissions (no_execute : bool) (hs : list ProgramHeader) : Image :=
  fold_left (paint no_execute) (filter loadable hs) (fun _ => None).

Lemma in_file_covers data h va : accepted data h -> in_file h va = true -> covers h va = true.
Proof.
  intros [? ? ?]. unfold in_file, covers, PAGE_SIZE. rewrite !andb_true_iff, !Z.leb_le, !Z.ltb_lt.
  pose proof (page_of_bound (virtual_address h)). pose proof (page_of_bound (virtual_address h + memory_size h - 1)). lia.
Qed.

Lemma image_snoc data hs h A :
  image data (hs ++ [h]) A = if loadable h then place data (image data hs A) h else image data hs A.
Proof.
  unfold image. rewrite filter_app, fold_left_app, filter_cons, filter_nil.
  destruct (loadable h); by rewrite ?decide_True, ?decide_False by done.
Qed.

Lemma permissions_snoc nx hs h :
  permissions nx (hs ++ [h]) = if loadable h then paint nx (permissions nx hs) h else permissions nx hs.
Proof.
  unfold permissions. rewrite filter_app, fold_left_app, filter_cons, filter_nil.
  destruct (loadable h); by rewrite ?decide_True, ?decide_False by done.
Qed.

Lemma image_covered data hs h A va : h ∈ hs -> loadable h = true -> covers h va = true -> is_Some (image data hs A va).
Proof.
  intros Hin Hl Hc. induction hs as [|g hs IH] using rev_ind; [by apply not_elem_of_nil in Hin|].
  rewrite image_snoc. apply elem_of_app in Hin as [Hin| ->%list_elem_of_singleton].
  - specialize (IH Hin). destruct (loadable g); [|done]. unfold place. repeat case_match; done.
  - rewrite Hl. unfold place. rewrite Hc. by case_match.
Qed.

Lemma image_ext data hs A A' va : A va = A' va -> image data hs A va = image data hs A' va.
Proof.
  intros E. induction hs as [|h hs IH] using rev_ind; [done|]. rewrite !image_snoc.
  destruct (loadable h); [|done]. unfold place. by rewrite IH.
Qed.

(** What is mapped has permissions. *)
Lemma image_permissions data nx hs va : Forall (fun h => loadable h = true -> accepted data h) hs ->
  is_Some (image data hs (fun _ => None) va) -> is_Some (permissions nx hs va).
Proof.
  induction hs as [|h hs IH] using rev_ind; [by intros _ []|]. rewrite image_snoc, permissions_snoc.
  intros [Hf [Hac _]%Forall_cons]%Forall_app. destruct (loadable h) eqn:El; [|by apply IH]. unfold place, paint.
  destruct (in_file h va) eqn:E; [by rewrite (in_file_covers data h va (Hac eq_refl) E)|]. destruct (covers h va); [done|by apply IH].
Qed.

(** ** Reading the headers *)

Lemma read_u16_Ok data at_ : 0 <= at_ -> at_ + 2 <= Z.of_nat (length data) -> read_u16 data at_ = Ok (word 2 data at_).
Proof. apply (read_le_Ok 2). Qed.
Lemma read_u32_Ok data at_ : 0 <= at_ -> at_ + 4 <= Z.of_nat (length data) -> read_u32 data at_ = Ok (word 4 data at_).
Proof. apply (read_le_Ok 4). Qed.
Lemma read_u64_Ok data at_ : 0 <= at_ -> at_ + 8 <= Z.of_nat (length data) -> read_u64 data at_ = Ok (word 8 data at_).
Proof. apply (read_le_Ok 8). Qed.

Lemma read_header_Ok data at_ : 0 <= at_ -> at_ + PROGRAM_HEADER_SIZE <= Z.of_nat (length data) ->
  read_header data at_ = Ok (header_of data at_).
Proof.
  unfold PROGRAM_HEADER_SIZE. intros H0 H1. unfold read_header. rewrite !read_u32_Ok, !read_u64_Ok by lia. done.
Qed.

(** ** The pages of a segment *)

Lemma elem_of_pages_between a b va : 0 <= a <= b ->
  page_of va ∈ pages_between (page_of a) (page_of b) <-> page_of a <= va < page_of b + PAGE_SIZE.
Proof.
  intros Hab. unfold pages_between, PAGE_SIZE. rewrite list_elem_of_fmap, !page_of_div.
  assert (E : (4096 * (b / 4096) - 4096 * (a / 4096)) / 4096 = b / 4096 - a / 4096).
  { replace (4096 * (b / 4096) - 4096 * (a / 4096)) with ((b / 4096 - a / 4096) * 4096) by lia. by apply Z.div_mul. }
  pose proof (Z.div_le_mono a b 4096). pose proof (Z.div_mod va 4096). pose proof (Z.mod_pos_bound va 4096).
  rewrite E. split.
  - intros (i & Ei & [_ Hi]%elem_of_seq). lia.
  - intros Hva. assert (a / 4096 <= va / 4096 <= b / 4096) by lia.
    exists (Z.to_nat (va / 4096 - a / 4096)). rewrite elem_of_seq. lia.
Qed.

Lemma pages_between_aligned a b p : 0 <= a <= b -> p ∈ pages_between (page_of a) (page_of b) ->
  aligned p /\ page_of a <= p <= page_of b.
Proof.
  intros Hab Hin. assert (Ha : aligned p).
  { unfold pages_between in Hin. apply list_elem_of_fmap in Hin as (i & -> & _). unfold aligned, PAGE_SIZE.
    rewrite page_of_div, <- Z.mul_add_distr_l, Z.mul_comm. by apply Z.mod_mul. }
  split; [done|]. rewrite <- (page_of_id p Ha) in Hin. apply elem_of_pages_between in Hin; [|done].
  unfold PAGE_SIZE, aligned in *. rewrite !page_of_div in *. pose proof (Z.div_mod p 4096). lia.
Qed.

Lemma covers_pages data h va : accepted data h ->
  covers h va = true <-> page_of va ∈ pages_between (page_of (virtual_address h)) (page_of (virtual_address h + memory_size h - 1)).
Proof.
  intros [_ _ ?]. rewrite elem_of_pages_between by lia. unfold covers. rewrite andb_true_iff, Z.leb_le, Z.ltb_lt. done.
Qed.

Lemma covers_page h va va' : page_of va = page_of va' -> covers h va = covers h va'.
Proof.
  unfold covers, PAGE_SIZE. rewrite !page_of_div. intros E. pose proof (Z.div_mod va 4096). pose proof (Z.mod_pos_bound va 4096).
  pose proof (Z.div_mod va' 4096). pose proof (Z.mod_pos_bound va' 4096).
  apply eq_true_iff_eq. rewrite !andb_true_iff, !Z.leb_le, !Z.ltb_lt. lia.
Qed.

Lemma page_flags_ok nx f : u64 (page_flags nx f) /\ frame_of (page_flags nx f) = 0.
Proof. unfold page_flags. destruct (has f PF_W), (has f PF_X), nx; (split; [by vm_compute|done]). Qed.

(** ** Bytes over an image *)

Definition stores (va : Z) (bytes : list Z) (A : Image) : Image := fun x =>
  if (va <=? x) && (x <? va + Z.of_nat (length bytes)) then Some (bytes !!! Z.to_nat (x - va)) else A x.

Lemma stores_nil va A x : stores va [] A x = A x.
Proof. unfold stores. cbn [length]. destruct (Z.leb_spec va x), (Z.ltb_spec x (va + Z.of_nat 0)); (done || lia). Qed.

Lemma stores_one va b A x : stores va [b] A x = if x =? va then Some b else A x.
Proof.
  unfold stores. cbn [length]. destruct (Z.eqb_spec x va) as [->|Hne].
  - rewrite (proj2 (Z.leb_le _ _)), (proj2 (Z.ltb_lt _ _)) by lia. cbn [andb]. by rewrite Z.sub_diag.
  - destruct (Z.leb_spec va x); [|done]. by rewrite (proj2 (Z.ltb_ge _ _)) by lia.
Qed.

Lemma stores_cons va b bytes A x : stores (va + 1) bytes (stores va [b] A) x = stores va (b :: bytes) A x.
Proof.
  unfold stores. cbn [length].
  destruct (Z.leb_spec va x), (Z.leb_spec (va + 1) x), (Z.ltb_spec x (va + 1 + Z.of_nat (length bytes))),
    (Z.ltb_spec x (va + Z.of_nat (S (length bytes)))), (Z.ltb_spec x (va + Z.of_nat 1)); cbn [andb]; try lia; try done; f_equal.
  - replace (Z.to_nat (x - va)) with (S (Z.to_nat (x - (va + 1)))) by lia. done.
  - replace x with va by lia. by rewrite Z.sub_diag.
Qed.

(** ** Building the image *)

Section build.
Context {D : Type} `{!Disk D}.
Implicit Types k : Mem D.
Context (k0 : Mem D) (roots : list Z).

Let r := read_cr3 k0.

(** What holds at every moment of a load, whether it succeeds or not. *)
Record kept k : Prop := {
  ke_space : exists fl, space k roots fl;
  ke_cr3 : CR3 k = CR3 k0;
  ke_nx : NO_EXECUTE_ACTIVE k = NO_EXECUTE_ACTIVE k0;
  ke_others r' va : r' ∈ roots -> r' <> r -> user va ->
    view k r' va = view k0 r' va /\ leaf (ram k) r' va = leaf (ram k0) r' va
}.

(** While segments are placed: the space reads as [A], and is writable. *)
Record loading (A : Image) k : Prop := {
  lo_kept : kept k;
  lo_view va : user va -> view k r va = A va;
  lo_grew va : user va -> A va = None -> view k0 r va = None;
  lo_writable va : user va -> has (leaf (ram k) r va) PRESENT = true -> has (leaf (ram k) r va) WRITABLE = true
}.

(** The list of pages mapped so far. *)
Record mapped (A : Image) (p : Progress) : Prop := {
  ma_nodup : NoDup (done_pages p);
  ma_pages x : x ∈ done_pages p <-> aligned x /\ user x /\ view k0 r x = None /\ is_Some (A x);
  ma_zeroed : done_zeroed p = wrap 64 (PAGE_SIZE * Z.of_nat (length (done_pages p)))
}.

Lemma kept_cr3 k : kept k -> read_cr3 k = r.
Proof using Type. intros H. unfold read_cr3, r. by rewrite (ke_cr3 _ H). Qed.

Lemma loading_ext A A' k : (forall va, user va -> A' va = A va) -> loading A k -> loading A' k.
Proof using Type.
  intros E [H1 H2 H3 H4]. constructor; [done| | |done]; intros va U; rewrite E by done; [by rewrite H2|by apply H3].
Qed.

Lemma mapped_ext A A' p : (forall va, user va -> is_Some (A' va) <-> is_Some (A va)) -> mapped A p -> mapped A' p.
Proof using Type.
  intros E [M1 M2 M3]. constructor; [done| |done]. intros x. rewrite M2. split; intros (? & ? & ? & ?); split_and!; try done; by apply E.
Qed.

Lemma view_present k va : is_Some (view k r va) <-> has (leaf (ram k) r va) PRESENT = true.
Proof using Type. unfold view. destruct (has (leaf (ram k) r va) PRESENT); split; intros Hs; try done; by destruct Hs. Qed.

Lemma loading_leaf A k va : loading A k -> user va -> is_Some (A va) ->
  has (leaf (ram k) r va) PRESENT = true /\ has (leaf (ram k) r va) WRITABLE = true.
Proof using Type.
  intros Hl U HA. rewrite <- (lo_view _ _ Hl va U) in HA. apply view_present in HA. split; [done|]. by apply (lo_writable _ _ Hl).
Qed.

Hypothesis Hr : r ∈ roots.

(** *** One page *)

Definition touch (page : Z) (A : Image) : Image := fun va =>
  if page_of va =? page then Some (default 0 (A va)) else A va.

Lemma same_page_some A k va va' : loading A k -> user va -> user va' -> page_of va = page_of va' -> is_Some (A va) -> is_Some (A va').
Proof using Type.
  intros Hl U U' E HA. rewrite <- (lo_view _ _ Hl va U) in HA. rewrite <- (lo_view _ _ Hl va' U').
  apply view_present. apply view_present in HA. by rewrite (same_page_leaf _ r va' va).
Qed.

Definition writable k va : Prop := has (leaf (ram k) r va) PRESENT = true /\ has (leaf (ram k) r va) WRITABLE = true.

(** A frame mapped writable and cleared, where there was no page. *)
Lemma map_zeroed_safe k page f k1 : kept k -> user page -> aligned page -> view k r page = None -> allocate k = (Some f, k1) ->
  safe (_ ← map_page page f (Z.lor USER WRITABLE); zero_page page)
    (fun _ k' => kept k' /\
       (forall va, user va -> page_of va = page -> view k r va = None /\ view k' r va = Some 0 /\ writable k' va) /\
       (forall va, user va -> page_of va <> page -> view k' r va = view k r va /\ leaf (ram k') r va = leaf (ram k) r va))
    kept k1.
Proof using Hr.
  intros Hk U Ha HA Ea. pose proof Hk as [[fl Hsp] Hc Hn Ho]. assert (Er := kept_cr3 _ Hk).
  assert (Hp : has (leaf (ram k) r page) PRESENT = false) by (unfold view in HA; by destruct (has (leaf (ram k) r page) PRESENT)).
  destruct (new_page_spec k roots fl f k1 page (Z.lor USER WRITABLE) Hsp ltac:(by rewrite Er) U Ha)
    as (res & k2 & fl2 & Em & Hcr & Hnx & Hres); [done..|]. rewrite Er in Hres.
  unfold safe, mbind, io_bind. rewrite Em. destruct res as [u|err|]; [| |done].
  2:{ destruct Hres as [Hsp2 Ho2]. constructor; [by exists fl2|congruence|congruence|].
      intros r' va Hr' Hne Uv. destruct (Ho2 r' va Hr' Uv) as [-> ->]. by apply Ho. }
  destruct Hres as (Hso2 & Hleaf & Hsp2 & Hnew & Hold). unfold zero_page.
  assert (Er2 : read_cr3 k2 = r) by (unfold read_cr3, r; by rewrite Hcr, Hc). rewrite Er2, Hleaf.
  assert (Hf : framelike f).
  { destruct (sound_head_frame k roots fl f k1 (sp_sound _ _ _ Hsp) Ea) as [? _]. done. }
  assert (Hpr : has (new_leaf f (Z.lor USER WRITABLE)) PRESENT = true) by apply new_leaf_present.
  assert (Hwr : has (new_leaf f (Z.lor USER WRITABLE)) WRITABLE = true) by (unfold new_leaf; by rewrite !has_lor, !orb_true_r).
  rewrite Hpr, Hwr. cbn [andb]. rewrite (new_leaf_frame f (Z.lor USER WRITABLE)) by done.
  rewrite (frame_of_id f) by (destruct Hf; (done || lia)). split; [|split].
  - constructor; [by exists fl2|cbn; congruence|cbn; congruence|]. intros r' va Hr' Hne Uv.
    destruct (Hold r' va Hr' Uv) as [-> ->]; [by intros [? _]|]. by apply Ho.
  - intros va Uv E. destruct (Hnew va Uv E) as (Hnone & Hz & Hl). split; [done|]. split; [done|]. split; by rewrite Hl.
  - intros va Uv E. by destruct (Hold r va Hr Uv) as [-> ->]; [by intros [_ ?]|].
Qed.

Lemma load_page_safe A p page k :
  loading A k -> mapped A p -> user page -> aligned page ->
  safe (load_page p page) (fun p' k' => loading (touch page A) k' /\ mapped (touch page A) p' /\ done_segments p' = done_segments p)
    kept k.
Proof using Hr.
  intros Hl Hm U Ha. pose proof Hl as [Hk Hv H0 Hw]. pose proof Hk as [[fl Hsp] Hc Hn Ho].
  assert (Er := kept_cr3 _ Hk). assert (Ep : page_of page = page) by (by apply page_of_id).
  unfold load_page, safe.
  assert (Htr := translate_page k roots fl r page _ (sp_sound _ _ _ Hsp) Hr U Er eq_refl).
  destruct (translate k page) as [[physical es]|].
  - destruct Htr as [Hp _]. assert (HA : is_Some (A page)) by (rewrite <- Hv by done; by apply view_present).
    assert (E : forall va, user va -> touch page A va = A va).
    { intros va Uv. unfold touch. destruct (Z.eqb_spec (page_of va) page) as [E|]; [|done].
      destruct (same_page_some A k page va Hl U Uv ltac:(congruence) HA) as [b ->]. done. }
    split; [by apply (loading_ext A)|]. split; [|done]. destruct Hm as [M1 M2 M3]. constructor; [done| |done].
    intros x. rewrite M2. split; intros (? & ? & ? & ?); by rewrite ?E in *.
  - assert (HA : A page = None).
    { rewrite <- Hv by done. destruct (view k r page) eqn:E; [|done].
      by rewrite (proj1 (view_present k page)) in Htr by by rewrite E. }
    destruct (allocate k) as [[f|] k1] eqn:Ea.
    2:{ unfold allocate in Ea. case_match; [by injection Ea as <-|done]. }
    pose proof (map_zeroed_safe k page f k1 Hk U Ha ltac:(by rewrite Hv) Ea) as Hz. unfold safe, mbind, io_bind, mret, io_ret in *.
    destruct (map_page _ _ _ k1) as [[u|err|] k2]; [|done..]. destruct (zero_page page k2) as [[u2|err|] k3]; [|done..].
    destruct Hz as (Hk3 & Hnew & Hold). split; [|split; [|done]].
    + constructor; [done|..]; intros va Uv.
      * unfold touch. destruct (Z.eqb_spec (page_of va) page) as [E|E].
        -- destruct (Hnew va Uv E) as (Hnone & -> & _). by rewrite <- Hv, Hnone.
        -- destruct (Hold va Uv E) as [-> _]. by apply Hv.
      * unfold touch. destruct (Z.eqb_spec (page_of va) page); [done|]. by apply H0.
      * destruct (decide (page_of va = page)) as [E|E].
        -- by destruct (Hnew va Uv E) as (_ & _ & _ & ?).
        -- destruct (Hold va Uv E) as [_ ->]. by apply Hw.
    + destruct Hm as [M1 M2 M3]. constructor; cbn [done_pages done_zeroed].
      * apply NoDup_app. split_and!; [done| |apply NoDup_singleton]. intros x Hx ->%list_elem_of_singleton.
        apply M2 in Hx as (_ & _ & _ & Hx). rewrite HA in Hx. by destruct Hx.
      * intros x. rewrite elem_of_app, list_elem_of_singleton, M2. unfold touch. split.
        -- intros [(? & ? & ? & ?)| -> ]; [split_and!; try done; by case_match|]. rewrite Ep, Z.eqb_refl.
           split_and!; try done. by apply H0.
        -- intros (Hx & Ux & Hx0 & HAx). destruct (Z.eqb_spec (page_of x) page) as [E|E]; [right|by left].
           by rewrite (page_of_id x Hx) in E.
      * rewrite M3, length_app. cbn [length]. unfold wrap. rewrite Z.add_mod_idemp_l by (by apply Z.pow_nonzero). f_equal. lia.
Qed.

(** *** The file's bytes *)

(** Since [k1] only bytes were written, in pages that stay as they are. *)
Record written k1 (A : Image) k : Prop := {
  wr_kept : kept k;
  wr_view va : user va -> view k r va = A va;
  wr_leaf va : user va -> leaf (ram k) r va = leaf (ram k1) r va
}.

Lemma written_ext k1 A A' k : (forall va, user va -> A' va = A va) -> written k1 A k -> written k1 A' k.
Proof using Type. intros E [H1 H2 H3]. constructor; [done| |done]. intros va U. rewrite E by done. by apply H2. Qed.

Lemma store_byte_written k1 A va b k : written k1 A k -> user va -> is_byte b -> writable k1 va ->
  safe (store_byte va b) (fun _ => written k1 (stores va [b] A)) (fun _ => False) k.
Proof using Hr.
  intros [Hk Hv Hl] U Hb [Hp Hw]. rewrite <- (Hl va U) in Hp, Hw.
  pose proof Hk as [[fl Hsp] Hc Hn Ho]. assert (Er := kept_cr3 _ Hk). unfold store_byte, safe, write.
  assert (Ew : exists k2, cpu_write va b k = Some k2).
  { unfold cpu_write. rewrite Er, Hp, Hw. by eexists. }
  destruct Ew as [k2 Ew]. rewrite Ew.
  destruct (cpu_write_spec k roots fl va b k2 Hsp ltac:(by rewrite Er) U Hb Ew) as (Hsp1 & Hcr1 & Hv1 & Ho1).
  destruct (cpu_write_leaf k roots fl va b k2 Hsp ltac:(by rewrite Er) U Hb Ew) as [Hn1 Hl1]. rewrite Er in Hv1, Ho1. constructor.
  - constructor; [by exists fl|congruence|congruence|]. intros r' x Hr' Hne Ux.
    rewrite Ho1, Hl1 by (done || by intros [? _]). by apply Ho.
  - intros x Ux. rewrite stores_one. destruct (Z.eqb_spec x va) as [->|Hne]; [done|]. rewrite Ho1 by (done || by intros [_ ?]). by apply Hv.
  - intros x Ux. rewrite Hl1 by done. by apply Hl.
Qed.

Lemma copy_bytes_written k1 bytes : forall A va k, written k1 A k -> 0 <= va -> va + Z.of_nat (length bytes) <= USER_SPACE_END ->
  Forall is_byte bytes -> (forall x, va <= x < va + Z.of_nat (length bytes) -> writable k1 x) ->
  safe (copy_bytes va bytes) (fun _ => written k1 (stores va bytes A)) (fun _ => False) k.
Proof using Hr.
  induction bytes as [|b bytes IH]; intros A va k Hl H0 H1 Hb HA; cbn [copy_bytes].
  - apply safe_ret. apply (written_ext k1 A); [|done]. intros x _. apply stores_nil.
  - apply Forall_cons in Hb as [Hb Hbs]. cbn [length] in *. eapply safe_bind.
    { apply (store_byte_written k1 A va b); [done|unfold user; lia|done|apply HA; lia]. }
    intros u k2 Hl1. eapply safe_mono; [apply (IH _ (va + 1) k2 Hl1); [lia|lia|done|]| |done].
    + intros x Hx. apply HA. lia.
    + intros u2 k3 Hl2. eapply written_ext; [|exact Hl2]. intros x _. by rewrite stores_cons.
Qed.

Lemma copy_bytes_safe bytes A va k : loading A k -> 0 <= va -> va + Z.of_nat (length bytes) <= USER_SPACE_END ->
  Forall is_byte bytes -> (forall x, va <= x < va + Z.of_nat (length bytes) -> is_Some (A x)) ->
  safe (copy_bytes va bytes) (fun _ => loading (stores va bytes A)) kept k.
Proof using Hr.
  intros Hl H0 H1 Hb HA. pose proof Hl as [Hk Hv Hg Hw]. eapply safe_mono.
  - apply (copy_bytes_written k bytes A va k); try done. intros x Hx. apply (loading_leaf A k x Hl); [unfold user; lia|by apply HA].
  - intros u k' [Hk' Hv' Hl']. constructor; [done|done| |intros x U; rewrite Hl' by done; by apply Hw].
    intros x U. unfold stores. case_match; [done|by apply Hg].
  - done.
Qed.
(** *** A segment *)

Record header_ok (h : ProgramHeader) : Prop := {
  ho_offset : 0 <= offset h; ho_address : 0 <= virtual_address h;
  ho_file : 0 <= file_size h; ho_memory : 0 <= memory_size h
}.

Definition touches (d : list Z) (A : Image) : Image := fun va =>
  if decide (page_of va ∈ d) then Some (default 0 (A va)) else A va.

Lemma touch_snoc d x A va : touch x (touches d A) va = touches (d ++ [x]) A va.
Proof using Type.
  unfold touch, touches. destruct (Z.eqb_spec (page_of va) x) as [E|E].
  - rewrite (decide_True (P := page_of va ∈ d ++ [x])) by (apply elem_of_app; right; by apply list_elem_of_singleton).
    by case_decide.
  - assert (Hd : page_of va ∈ d ++ [x] <-> page_of va ∈ d) by (rewrite elem_of_app, list_elem_of_singleton; tauto).
    destruct (decide (page_of va ∈ d)), (decide (page_of va ∈ d ++ [x])); tauto.
Qed.

Lemma load_pages_safe a b A p k : loading A k -> mapped A p -> 0 <= a <= b -> b < USER_SPACE_END ->
  safe (fold_io load_page (pages_between (page_of a) (page_of b)) p)
    (fun p' k' => let A' := touches (pages_between (page_of a) (page_of b)) A in
       loading A' k' /\ mapped A' p' /\ done_segments p' = done_segments p) kept k.
Proof using Hr.
  intros Hl Hm Hab Hb. apply (safe_fold_io load_page
    (fun d p' k' => loading (touches d A) k' /\ mapped (touches d A) p' /\ done_segments p' = done_segments p)); [|done].
  intros d x l p1 k1 E (Hl1 & Hm1 & Hs1).
  assert (Hin : x ∈ pages_between (page_of a) (page_of b)) by (rewrite E; set_solver).
  pose proof (pages_between_aligned a b x Hab Hin) as [Ha Hx].
  eapply safe_mono; [apply (load_page_safe _ _ x _ Hl1 Hm1)| |done].
  - pose proof (page_of_bound b). pose proof (page_of_div a). pose proof (Z.div_pos a 4096). unfold user. lia.
  - done.
  - intros p2 k2 (Hl2 & Hm2 & Hs2). split_and!; [| |congruence].
    + eapply loading_ext; [|exact Hl2]. intros. by rewrite touch_snoc.
    + eapply mapped_ext; [|exact Hm2]. intros. by rewrite touch_snoc.
Qed.

Lemma load_segment_safe data h A p k : Forall is_byte data -> header_ok h -> loading A k -> mapped A p ->
  safe (load_segment data h p)
    (fun p' k' => let A' := if loadable h then place data A h else A in
       loading A' k' /\ mapped A' p' /\ (loadable h = true -> accepted data h) /\
       done_segments p' = done_segments p + (if loadable h then 1 else 0)) kept k.
Proof using Hr.
  intros Hbytes [Ho Hva Hfs Hms] Hl Hm. unfold load_segment, loadable.
  destruct (kind h =? PT_LOAD); cbn [negb orb andb]; [|apply safe_ret; split_and!; (done || lia)].
  destruct (Z.eqb_spec (memory_size h) 0) as [|Hms0]; cbn [negb]; [apply safe_ret; split_and!; (done || lia)|].
  assert (Hk := lo_kept _ _ Hl). destruct (Z.ltb_spec (memory_size h) (file_size h)) as [|Hfm]; [done|].
  cbv zeta. destruct (u64_max <? offset h + file_size h); [done|].
  destruct (Z.ltb_spec (Z.of_nat (length data)) (offset h + file_size h)) as [|Hend]; [done|].
  destruct (u64_max <? virtual_address h + memory_size h); [done|].
  destruct (Z.ltb_spec USER_ADDRESS_LIMIT (virtual_address h + memory_size h)) as [|Hlim]; [done|].
  assert (Hac : accepted data h) by (constructor; lia). unfold USER_ADDRESS_LIMIT in *.
  set (last := virtual_address h + memory_size h - 1).
  assert (Hlast : 0 <= virtual_address h <= last) by lia.
  assert (Hcov : forall va, covers h va = true <-> page_of va ∈ pages_between (page_of (virtual_address h)) (page_of last))
    by (intros; by apply (covers_pages data)).
  eapply safe_bind; [apply (load_pages_safe _ _ _ _ _ Hl Hm Hlast); unfold USER_SPACE_END; lia|].
  intros p1 k1 (Hl1 & Hm1 & Hs1). set (A1 := touches _ A) in *.
  assert (EA1 : forall va, A1 va = if covers h va then Some (default 0 (A va)) else A va).
  { intros va. unfold A1, touches. specialize (Hcov va). destruct (covers h va).
    - rewrite decide_True; [done|]. by apply Hcov.
    - rewrite decide_False; [done|]. intros Hin. by apply Hcov in Hin. }
  assert (Hin : forall va, in_file h va = true -> covers h va = true).
  { intros va. by apply (in_file_covers data). }
  assert (Hm2 : mapped (place data A h) p1).
  { eapply mapped_ext; [|exact Hm1]. intros va _. unfold place. rewrite EA1.
    destruct (in_file h va) eqn:E; [by rewrite (Hin va E)|done]. }
  eapply (safe_bind _ _ (fun _ => loading (place data A h))).
  2:{ intros u k2 Hl2. apply safe_ret. split_and!; [done| |done|cbn; by rewrite Hs1]. destruct Hm2. by constructor. }
  destruct (Z.ltb_spec 0 (file_size h)) as [Hf|Hf].
  - rewrite slice_Ok by lia. unfold mbind, io_bind, lift.
    set (bytes := take _ _). assert (Hlen : Z.of_nat (length bytes) = file_size h).
    { unfold bytes. rewrite length_take, length_drop. lia. }
    eapply safe_mono; [apply (copy_bytes_safe bytes A1 _ k1 Hl1 Hva)| |done].
    + unfold USER_SPACE_END. lia.
    + by apply Forall_take, Forall_drop.
    + rewrite Hlen. intros x Hx. rewrite EA1, Hin; [done|]. unfold in_file. by rewrite (proj2 (Z.leb_le _ _)), (proj2 (Z.ltb_lt _ _)) by lia.
    + intros u k2 Hl2. eapply loading_ext; [|exact Hl2]. intros va _. unfold stores, place. rewrite Hlen, EA1.
      fold (in_file h va). destruct (in_file h va) eqn:E; [|done].
      unfold in_file in E. apply andb_true_iff in E as [E1%Z.leb_le E2%Z.ltb_lt]. f_equal. unfold bytes.
      rewrite !list_lookup_total_alt, lookup_take_lt, lookup_drop by lia. do 2 f_equal. lia.
  - apply safe_ret. eapply loading_ext; [|exact Hl1]. intros va _. unfold place. rewrite EA1.
    assert (in_file h va = false) as ->; [|done]. unfold in_file.
    destruct (Z.leb_spec (virtual_address h) va), (Z.ltb_spec va (virtual_address h + file_size h)); (done || lia).
Qed.
(** *** All segments *)

Lemma header_of_ok data at_ : Forall is_byte data -> header_ok (header_of data at_).
Proof using Type.
  intros Hb. constructor; cbn; apply (word_bound 8); done.
Qed.

Lemma first_pass_safe data (at_ : nat -> Z) n A p k : Forall is_byte data -> loading A k -> mapped A p ->
  (forall i, (i < n)%nat -> 0 <= at_ i /\ at_ i + PROGRAM_HEADER_SIZE <= Z.of_nat (length data)) ->
  safe (fold_io (fun p index => header ← lift (read_header data (at_ index)); load_segment data header p) (seq 0 n) p)
    (fun p' k' => let hs := map (fun i => header_of data (at_ i)) (seq 0 n) in
       loading (image data hs A) k' /\ mapped (image data hs A) p' /\
       (forall h, h ∈ hs -> loadable h = true -> accepted data h) /\
       done_segments p' = done_segments p + Z.of_nat (length (filter loadable hs))) kept k.
Proof using Hr.
  intros Hb Hl Hm Hat. set (H := fun d : list nat => map (fun i => header_of data (at_ i)) d).
  apply (safe_fold_io _ (fun d p' k' => loading (image data (H d) A) k' /\ mapped (image data (H d) A) p' /\
       (forall h, h ∈ H d -> loadable h = true -> accepted data h) /\
       done_segments p' = done_segments p + Z.of_nat (length (filter loadable (H d))))).
  2:{ split_and!; try done; [|cbn; lia]. intros h Hh. by apply not_elem_of_nil in Hh. }
  intros d i l p1 k1 E (Hl1 & Hm1 & Hac & Hs). assert (Hi : (i < n)%nat).
  { assert (Hin : i ∈ seq 0 n) by (rewrite E; set_solver). apply elem_of_seq in Hin. lia. }
  unfold lift. rewrite read_header_Ok by by apply Hat. unfold mbind, io_bind.
  eapply safe_mono; [apply (load_segment_safe data (header_of data (at_ i)) _ p1 k1 Hb (header_of_ok _ _ Hb) Hl1 Hm1)| |done].
  intros p2 k2 (Hl2 & Hm2 & Hac2 & Hs2). unfold H. rewrite map_app. cbn [map]. rewrite image_snoc, filter_app, length_app.
  fold (H d). set (h := header_of data (at_ i)) in *. split_and!; try done.
  - intros g [Hg| ->%list_elem_of_singleton]%elem_of_app; [by apply Hac|done].
  - rewrite Hs2, Hs, filter_cons, filter_nil. destruct (loadable h); [rewrite decide_True by done|rewrite decide_False by (intros [])];
      cbn [length]; lia.
Qed.

(** *** Permissions *)

(** The space reads as [A], alone in its frames; [P] are the permissions set
    so far. *)
Record sealed (P A : Image) k : Prop := {
  se_kept : kept k;
  se_view va : user va -> view k r va = A va;
  se_sole r' va : r' ∈ roots -> user va -> has (leaf (ram k) r va) PRESENT = true ->
    maps (ram k) r' (frame_of (leaf (ram k) r va)) -> r' = r;
  se_flags va f : user va -> P va = Some f -> leaf (ram k) r va = new_leaf (leaf (ram k) r va) f
}.

Lemma loading_sealed A k : loading A k -> sealed (fun _ => None) A k.
Proof using Hr.
  intros [Hk Hv _ Hw]. constructor; [done|done| |done]. intros r' va Hr' U P M.
  destruct (ke_space _ Hk) as [fl Hsp]. by apply (sa_private _ _ (sp_shares _ _ _ Hsp) r r' va); [..|apply Hw|].
Qed.

Lemma sealed_ext P P' A k : (forall va, user va -> P' va = P va) -> sealed P A k -> sealed P' A k.
Proof using Type. intros E [H1 H2 H3 H4]. constructor; try done. intros va f U. rewrite E by done. by apply H4. Qed.

Lemma last_table_walk m t p u : walk m t p = Some u -> last_table m t p = Some u.
Proof using Type.
  revert t. induction p as [|i p IH]; intros t; cbn; [done|]. unfold link.
  destruct (has (get m t i) PRESENT); cbn [negb andb]; [|done]. destruct (has _ HUGE); [done|]. apply IH.
Qed.

Lemma new_leaf_again e f : frame_of f = 0 -> new_leaf (new_leaf e f) f = new_leaf e f.
Proof using Type. intros H. unfold new_leaf at 1. by rewrite new_leaf_frame by done. Qed.

Lemma set_flags_safe P A k page f : sealed P A k -> user page -> aligned page -> is_Some (A page) -> u64 f -> frame_of f = 0 ->
  safe (set_flags page f) (fun _ => sealed (fun va => if page_of va =? page then Some f else P va) A) kept k.
Proof using Hr.
  intros [Hk Hv Hsole Hfl] U Ha HA Hf Hff. pose proof Hk as [[fl Hsp] Hc Hn Ho]. assert (Er := kept_cr3 _ Hk).
  assert (Ep : page_of page = page) by (by apply page_of_id).
  rewrite <- Hv in HA by done. apply view_present in HA.
  assert (Hw : exists t, walk (ram k) r (path page) = Some t).
  { unfold leaf in HA. destruct (walk (ram k) r (path page)) as [t|]; [by exists t|done]. }
  destruct Hw as [t Hw]. assert (El : leaf (ram k) r page = get (ram k) t (slot page)) by (unfold leaf; by rewrite Hw).
  unfold safe, set_flags. change (take 3 (indexes page)) with (path page). change (indexes page !!! 3%nat) with (slot page).
  rewrite Er, (last_table_walk _ _ _ _ Hw), <- El, HA. cbn [negb].
  set (e := leaf (ram k) r page) in *. fold (new_leaf e f). set (v := new_leaf e f).
  assert (Hvp : has v PRESENT = true) by apply new_leaf_present.
  assert (Hvf : frame_of v = frame_of e) by (unfold v; by rewrite new_leaf_frame).
  pose proof (leaf_mappable k roots fl r page (sp_shape _ _ _ Hsp) Hr U HA) as Hmap.
  assert (Hrm : remapped roots r page v k (update_ram (set t (slot page) v) k) fl fl).
  { apply set_leaf_remapped; try done; [apply Hsp|by apply new_leaf_u64|]. intros _. by rewrite Hvf. }
  set (k' := update_ram _ k) in *.
  assert (Hleaf := fun r' va => flags_leaf k k' roots fl fl r page v U Hrm HA Hvp Hvf r' va).
  assert (Hview := fun r' va => flags_view k k' roots fl fl r page v Hsp U Hrm HA Hvp Hvf r' va).
  assert (Hlv : forall va, user va -> leaf (ram k') r va = if page_of va =? page then v else leaf (ram k) r va).
  { intros va Uv. destruct (Z.eqb_spec (page_of va) page) as [E|E].
    - rewrite (same_page_leaf _ r va page Uv U) by congruence. apply (rm_leaf _ _ _ _ _ _ _ _ Hrm).
    - apply (rm_other _ _ _ _ _ _ _ _ Hrm); [done..|]. intros [_ E2]. congruence. }
  constructor.
  - constructor; [|done|done|].
    + exists fl. apply (flags_space k k' roots fl fl r page v Hsp Hr U Hrm eq_refl HA Hvp Hvf). intros _ r' Hr' M. by apply (Hsole r' page).
    + intros r' va Hr' Hne Uv. rewrite Hview by done. rewrite (rm_other _ _ _ _ _ _ _ _ Hrm) by (done || by intros [? _]).
      by apply Ho.
  - intros va Uv. rewrite Hview by done. by apply Hv.
  - intros r' va Hr' Uv. destruct (Hleaf r va Hr Uv) as [-> ->]. intros P1 M.
    apply (flags_maps k k' roots fl fl r page v U Hrm HA Hvp Hvf) in M; [|done]. by apply (Hsole r' va).
  - intros va g Uv. rewrite Hlv by done. destruct (Z.eqb_spec (page_of va) page) as [E|E]; [|by apply Hfl].
    intros [= <-]. unfold v. by rewrite new_leaf_again.
Qed.

Definition paints (d : list Z) (f : Z) (P : Image) : Image := fun va => if decide (page_of va ∈ d) then Some f else P va.

Lemma protect_segment_safe data at_ P A k : sealed P A k ->
  0 <= at_ -> at_ + PROGRAM_HEADER_SIZE <= Z.of_nat (length data) ->
  let h := header_of data at_ in
  (loadable h = true -> accepted data h /\ forall va, user va -> covers h va = true -> is_Some (A va)) ->
  safe (protect_segment data at_)
    (fun _ => sealed (if loadable h then paint (NO_EXECUTE_ACTIVE k0) P h else P) A) kept k.
Proof using Hr.
  intros Hse H0 H1 h Hld. unfold PROGRAM_HEADER_SIZE in *. unfold protect_segment.
  rewrite !read_u32_Ok, !read_u64_Ok by lia. unfold mbind, io_bind, lift. fold (kind h) (memory_size h).
  change (word 4 data at_) with (kind h). change (word 4 data (at_ + 4)) with (flags h).
  change (word 8 data (at_ + 16)) with (virtual_address h). change (word 8 data (at_ + 40)) with (memory_size h).
  unfold loadable in *. destruct (kind h =? PT_LOAD); cbn [negb orb andb] in *; [|by apply safe_ret].
  destruct (Z.eqb_spec (memory_size h) 0) as [|Hms]; cbn [negb] in *; [by apply safe_ret|].
  destruct (Hld eq_refl) as [Hac Hcov]. pose proof Hac as [_ _ (Hva & Hpos & Hlim)]. unfold USER_ADDRESS_LIMIT in *.
  rewrite (wrap_small 64 (virtual_address h + memory_size h)) by (unfold in_u; lia).
  rewrite wrap_small by (unfold in_u; lia).
  assert (Enx : NO_EXECUTE_ACTIVE k = NO_EXECUTE_ACTIVE k0) by (apply (ke_nx _ (se_kept _ _ _ Hse))).
  set (last := virtual_address h + memory_size h - 1) in *.
  assert (Hc : forall va, covers h va = true <-> page_of va ∈ pages_between (page_of (virtual_address h)) (page_of last))
    by (intros; by apply (covers_pages data)).
  destruct (page_flags_ok (NO_EXECUTE_ACTIVE k0) (flags h)) as [Hf Hff]. unfold safe. rewrite Enx.
  set (f := page_flags _ _) in *. set (l := pages_between _ _) in *.
  change (safe (for_each l (fun page => set_flags page f)) (fun _ => sealed (paint (NO_EXECUTE_ACTIVE k0) P h) A) kept k).
  eapply safe_mono; [apply (safe_for_each (fun page => set_flags page f) (fun d => sealed (paints d f P) A) kept l)| |done].
  - intros d x l' k1 E Hse1. assert (Hin : x ∈ l) by (rewrite E; set_solver).
    assert (Hab : 0 <= virtual_address h <= last) by lia.
    pose proof (pages_between_aligned _ _ x Hab Hin) as [Ha Hx].
    assert (Ux : user x).
    { pose proof (page_of_bound last). pose proof (page_of_div (virtual_address h)). pose proof (Z.div_pos (virtual_address h) 4096).
      unfold user, USER_SPACE_END. lia. }
    eapply safe_mono; [apply (set_flags_safe _ _ _ x f Hse1 Ux Ha); [|done..]| |done].
    + apply Hcov; [done|]. apply Hc. by rewrite (page_of_id x Ha).
    + intros u k2. apply sealed_ext. intros va _. unfold paints. destruct (Z.eqb_spec (page_of va) x) as [Ex|Ex].
      * rewrite decide_True; [done|]. rewrite elem_of_app, list_elem_of_singleton. auto.
      * destruct (decide (page_of va ∈ d)) as [Hd|Hd].
        -- rewrite decide_True; [done|]. rewrite elem_of_app. auto.
        -- rewrite decide_False; [done|]. rewrite elem_of_app, list_elem_of_singleton. tauto.
  - eapply sealed_ext; [|exact Hse]. intros va _. unfold paints. rewrite decide_False; [done|]. apply not_elem_of_nil.
  - intros u k1. apply sealed_ext. intros va _. unfold paint, paints. fold f. specialize (Hc va). destruct (covers h va).
    + rewrite decide_True; [done|by apply Hc].
    + rewrite decide_False; [done|]. intros Hin. by apply Hc in Hin.
Qed.
Lemma second_pass_safe data (at_ : nat -> Z) n A k : sealed (fun _ => None) A k ->
  (forall i, (i < n)%nat -> 0 <= at_ i /\ at_ i + PROGRAM_HEADER_SIZE <= Z.of_nat (length data)) ->
  let hs := map (fun i => header_of data (at_ i)) (seq 0 n) in
  (forall h, h ∈ hs -> loadable h = true -> accepted data h /\ forall va, user va -> covers h va = true -> is_Some (A va)) ->
  safe (for_each (seq 0 n) (fun index => protect_segment data (at_ index)))
    (fun _ => sealed (permissions (NO_EXECUTE_ACTIVE k0) hs) A) kept k.
Proof using Hr.
  intros Hse Hat hs Hld. set (H := fun d : list nat => map (fun i => header_of data (at_ i)) d).
  apply (safe_for_each _ (fun d => sealed (permissions (NO_EXECUTE_ACTIVE k0) (H d)) A) kept); [|done].
  intros d i l k1 E Hse1. assert (Hin : i ∈ seq 0 n) by (rewrite E; set_solver).
  assert (Hi : (i < n)%nat) by (apply elem_of_seq in Hin; lia). destruct (Hat i Hi) as [Ha0 Ha1].
  eapply safe_mono; [apply (protect_segment_safe data (at_ i) _ A k1 Hse1 Ha0 Ha1)| |done].
  - apply Hld. apply list_elem_of_fmap. by exists i.
  - intros u k2. unfold H. rewrite map_app. cbn [map]. rewrite permissions_snoc. by destruct (loadable _).
Qed.

(** ** The whole file *)

(** What a successful load leaves behind. *)
Record loaded (data : list Z) (hs : list ProgramHeader) (entry0 : Z) (l : Loaded) k : Prop := {
  ld_kept : kept k;
  ld_view va : user va -> view k r va = image data hs (view k0 r) va;
  ld_flags va f : user va -> permissions (NO_EXECUTE_ACTIVE k0) hs va = Some f -> leaf (ram k) r va = new_leaf (leaf (ram k) r va) f;
  ld_entry : entry l = entry0 /\ user entry0 /\ is_Some (image data hs (view k0 r) entry0);
  ld_accepted h : h ∈ hs -> loadable h = true -> accepted data h;
  ld_segments : segments l = Z.of_nat (length (filter loadable hs)) /\ 0 < segments l;
  ld_mapped : mapped (image data hs (view k0 r)) (mkProgress (segments l) (bytes_zeroed l) (pages l))
}.

Hypothesis Hwritable : loading (view k0 r) k0.

Lemma load_table_safe data entry0 off size count : Forall is_byte data -> 0 <= entry0 -> 0 <= off -> PROGRAM_HEADER_SIZE <= size ->
  0 <= count -> off + size * count <= Z.of_nat (length data) ->
  safe (load_table data entry0 off size count) (loaded data (table data off size count) entry0) kept k0.
Proof using Hr Hwritable.
  intros Hb Hen H0 Hsz Hct Hend. unfold load_table, PROGRAM_HEADER_SIZE in *. set (at_ := fun index : nat => off + Z.of_nat index * size).
  assert (Hat : forall i, (i < Z.to_nat count)%nat -> 0 <= at_ i /\ at_ i + PROGRAM_HEADER_SIZE <= Z.of_nat (length data)).
  { intros i Hi. unfold at_, PROGRAM_HEADER_SIZE. nia. }
  assert (Hm0 : mapped (view k0 r) (mkProgress 0 0 [])).
  { constructor; [constructor| |done]. intros x. cbn. split; [by intros ?%not_elem_of_nil|]. intros (_ & _ & -> & []). done. }
  eapply safe_bind; [apply (first_pass_safe data at_ (Z.to_nat count) _ _ k0 Hb Hwritable Hm0 Hat)|].
  intros p k1 (Hl1 & Hm1 & Hac & Hs1). fold (table data off size count) in *. set (hs := table data off size count) in *.
  destruct (Z.eqb_spec (done_segments p) 0) as [|Hs0]; [by apply (lo_kept _ _ Hl1)|].
  eapply safe_bind; [apply (second_pass_safe data at_ (Z.to_nat count) _ k1 (loading_sealed _ _ Hl1) Hat)|].
  { intros h Hh Hlh. split; [by apply Hac|]. intros va _ Hc. by apply (image_covered data hs h). }
  intros u k2 Hse. fold (table data off size count) in Hse. fold hs in Hse. set (A := image data hs (view k0 r)) in *.
  unfold safe, check_entry. pose proof (se_kept _ _ _ Hse) as Hk. pose proof Hk as [[fl Hsp] Hc _ _].
  destruct (Z.ltb_spec USER_ADDRESS_LIMIT entry0) as [|He]; [exact Hk|]. cbn [orb].
  assert (Ue : user entry0) by (unfold user, USER_ADDRESS_LIMIT, USER_SPACE_END in *; lia).
  assert (Htr := translate_page k2 roots fl r entry0 _ (sp_sound _ _ _ Hsp) Hr Ue (kept_cr3 _ Hk) eq_refl).
  destruct (bool_decide (translate k2 entry0 = None)) eqn:Eb; [exact Hk|]. apply bool_decide_eq_false in Eb.
  destruct (translate k2 entry0) as [[ph es]|]; [|done]. destruct Htr as [Hp _]. cbn [done_segments] in Hs1.
  change (map (fun i => header_of data (at_ i)) (seq 0 (Z.to_nat count))) with hs in Hs1. constructor; try done.
  - intros va U. by apply (se_view _ _ _ Hse).
  - intros va f U. by apply (se_flags _ _ _ Hse).
  - split; [done|]. split; [done|]. rewrite <- (se_view _ _ _ Hse) by done. by apply view_present.
  - cbn [segments]. split; lia.
  - destruct p. exact Hm1.
Qed.

Lemma elf_load_safe data : Forall is_byte data ->
  safe (elf_load data) (loaded data (program_headers data) (word 8 data 24)) kept k0.
Proof using Hr Hwritable.
  intros Hb. unfold elf_load. pose proof (lo_kept _ _ Hwritable) as Hk.
  destruct (Z.ltb_spec (Z.of_nat (length data)) 64) as [|Hlen]; [done|].
  destruct (negb (bool_decide _)); [done|]. destruct (negb _); [done|]. destruct (negb _); [done|].
  rewrite !read_u16_Ok, !read_u64_Ok by lia. unfold mbind, io_bind, lift.
  pose proof (word_bound 8 data 24 Hb). pose proof (word_bound 8 data 32 Hb). pose proof (word_bound 2 data 56 Hb).
  destruct (negb _); [done|]. destruct (negb _); [done|].
  destruct (Z.ltb_spec (word 2 data 54) PROGRAM_HEADER_SIZE) as [|Hsz]; [done|]. cbv zeta.
  destruct (u64_max <? _); [done|]. destruct (Z.ltb_spec (Z.of_nat (length data)) (word 8 data 32 + word 2 data 54 * word 2 data 56)) as [|Hend]; [done|].
  apply load_table_safe; (done || lia).
Qed.
End build.

(** Where every mapped page is writable, loading can start. *)
Lemma loading_start {D} (k : Mem D) roots fl : space k roots fl ->
  (forall va, user va -> has (leaf (ram k) (read_cr3 k) va) PRESENT = true -> has (leaf (ram k) (read_cr3 k) va) WRITABLE = true) ->
  loading k roots (view k (read_cr3 k)) k.
Proof. intros Hsp Hw. constructor; [|done|done|done]. constructor; (done || by exists fl). Qed.


(** C11: a loaded program is what its file says.  In an empty user half a
    successful [load] leaves exactly the image of the file's loadable
    segments: each byte is the file byte of the last segment that has one for
    that address, and zero elsewhere in the segments' pages; every page has
    the permissions of the last segment that covers it; the entry point is
    inside the image; and the pages reported are those mapped, once each. *)
Theorem load_builds_image {D} `{!Disk D} (k : Mem D) roots fl data l k' :
  space k roots fl -> read_cr3 k ∈ roots -> (forall va, user va -> view k (read_cr3 k) va = None) -> Forall is_byte data ->
  elf_load data k = (Ok l, k') ->
  let A := image data (program_headers data) (fun _ => None) in
  (forall va, user va -> view k' (read_cr3 k) va = A va) /\
  (forall va, user va -> is_Some (A va) ->
     exists f, permissions (NO_EXECUTE_ACTIVE k) (program_headers data) va = Some f /\
       leaf (ram k') (read_cr3 k) va = new_leaf (leaf (ram k') (read_cr3 k) va) f) /\
  entry l = word 8 data 24 /\ is_Some (A (entry l)) /\
  NoDup (pages l) /\ (forall x, x ∈ pages l <-> aligned x /\ user x /\ is_Some (A x)) /\
  bytes_zeroed l = wrap 64 (PAGE_SIZE * Z.of_nat (length (pages l))).
Proof.
  intros Hsp Hr H0 Hb E A.
  assert (Hw : forall va, user va -> has (leaf (ram k) (read_cr3 k) va) PRESENT = true -> has (leaf (ram k) (read_cr3 k) va) WRITABLE = true).
  { intros va U P. apply view_present in P. rewrite (H0 va U) in P. by destruct P. }
  pose proof (elf_load_safe k roots Hr (loading_start k roots fl Hsp Hw) data Hb) as H. unfold safe in H. rewrite E in H.
  destruct H as [_ Hv Hf (He & Ue & HAe) Hac _ [M1 M2 M3]]. set (hs := program_headers data) in *.
  assert (EA : forall va, user va -> image data hs (view k (read_cr3 k)) va = A va).
  { intros va U. by apply image_ext, H0. }
  rewrite EA in HAe by done. split_and!; try done.
  - intros va U. rewrite Hv by done. by apply EA.
  - intros va U HA. destruct (image_permissions data (NO_EXECUTE_ACTIVE k) hs va) as [f Ep]; [by apply Forall_forall|done|]. exists f. split; [done|]. by apply Hf.
  - by rewrite He.
  - intros x. rewrite M2. split; intros H; destruct_and?; split_and!; try done; [by rewrite <- EA|by apply H0|by rewrite EA].
Qed.
