(* ===== verification/ElfRun.v ===== *)
(** * Loading a program

    A small executable on the machine of [Boot]: two segments that share a
    page, the second with more memory than file. *)

From S2P Require Import Prelude Bytes Disk Pages Replace Swap Memory PageTables Spaces UserPages Sharing Cow CowRun Boot Elf ElfSpec.

Definition header_bytes (flags offset va file_size memory_size : Z) : list Z :=
  le 4 PT_LOAD ++ le 4 flags ++ le 8 offset ++ le 8 va ++ le 8 va ++ le 8 file_size ++ le 8 memory_size ++ le 8 4096.

(** Code at [4194304], executable; data right after it, writable, its last
    four bytes not in the file. *)
Definition hello : list Z :=
  MAGIC ++ [CLASS_64; LITTLE_ENDIAN; 1; 0] ++ replicate 8 0 ++
  le 2 TYPE_EXECUTABLE ++ le 2 MACHINE_X86_64 ++ le 4 1 ++ le 8 4194304 ++ le 8 64 ++ le 8 0 ++ le 4 0 ++
  le 2 64 ++ le 2 56 ++ le 2 2 ++ replicate 6 0 ++
  header_bytes 5 176 4194304 4 4 ++ header_bytes 6 180 4194308 2 6 ++
  [205; 128; 235; 252; 104; 105].

Lemma hello_bytes : Forall is_byte hello.
Proof. unfold hello, header_bytes. repeat (apply Forall_app; split); try apply le_bytes; repeat constructor; by vm_compute. Qed.

Lemma load_builds_image_witness :
  exists l k', elf_load hello (machine 8) = (Ok l, k') /\ entry l = 4194304 /\ segments l = 2 /\ pages l = [4194304] /\
    view k' ROOT 4194308 = Some 104 /\ view k' ROOT 4194310 = Some 0 /\ view k' ROOT 4198400 = None.
Proof.
  assert (G : forall d, elf_load hello (machine 8) = d ->
            match d.1 with Ok l => entry l = 4194304 /\ segments l = 2 /\ pages l = [4194304] | _ => False end ->
            exists l k', d = (Ok l, k') /\ entry l = 4194304 /\ segments l = 2 /\ pages l = [4194304] /\
              view k' ROOT 4194308 = Some 104 /\ view k' ROOT 4194310 = Some 0 /\ view k' ROOT 4198400 = None).
  { intros [res k'] Ed E. destruct res as [l|e|]; [|destruct E..]. destruct E as (E1 & E2 & E3).
    exists l, k'. split; [reflexivity|]. split; [exact E1|]. split; [exact E2|]. split; [exact E3|].
    destruct machine_8 as (fl & Hsp & Hag).
    assert (H0 : forall va, user va -> view (machine 8) ROOT va = None) by (intros va U; apply (machine_blank 8); [lia|exact U]).
    assert (Hr : ROOT ∈ [ROOT]) by left.
    destruct (load_builds_image (machine 8) [ROOT] fl hello l k' Hsp Hr H0 hello_bytes Ed) as (Hv & _).
    change (read_cr3 (machine 8)) with ROOT in Hv.
    rewrite !Hv by (unfold user, USER_SPACE_END; lia). split; [|split]; vm_compute; reflexivity. }
  refine (G _ eq_refl _). vm_compute. done.
Defined.

