(* ===== verification/Fat.v ===== *)
(** * The file system: [kernel/src/fat.rs]

    FAT16 over the disk interface.  Names are the bytes of a [&str]; a buffer
    that is read into starts as zeroes, so a transfer that claims success but
    brings too little leaves zeroes behind. *)

From S2P Require Import Prelude Bytes Disk.

Definition DIRECTORY_ENTRY_SIZE : Z := 32.
Definition ATTRIBUTE_VOLUME_LABEL : Z := 8.
Definition ATTRIBUTE_DIRECTORY : Z := 16.
Definition ENTRY_FREE : Z := 0.
Definition ENTRY_DELETED : Z := 229.
Definition END_OF_CHAIN : Z := 65528.

Record Volume := mkVolume {
  bytes_per_sector : Z; fat_count : Z; sectors_per_cluster : Z; fat_start : Z; sectors_per_fat : Z;
  root_start : Z; root_entries : Z; data_start : Z; clusters : Z
}.

Record Entry := mkEntry { name : list Z; size : Z; first_cluster : Z }.

Definition read_u16 : list Z -> Z -> result Z := read_le 2.
Definition read_u32 : list Z -> Z -> result Z := read_le 4.

Definition div_ceil (a b : Z) : Z := (a + b - 1) / b.
Definition is_power_of_two (n : Z) : bool := negb (n =? 0) && (Z.land n (n - 1) =? 0).

(** Text: one byte of a directory entry as a character, and comparison
    without case. *)
Definition push_char (byte : Z) : list Z := if byte <? 128 then [byte] else [192 + byte / 64; 128 + byte mod 64].
Definition to_ascii_uppercase (b : Z) : Z := if (97 <=? b) && (b <=? 122) then b - 32 else b.
Definition eq_ignore_ascii_case (a b : list Z) : bool :=
  bool_decide (map to_ascii_uppercase a = map to_ascii_uppercase b).

Definition decode_name (slot : list Z) : list Z :=
  let letters (bytes : list Z) := mjoin (map push_char (filter (fun b => b <> 32) bytes)) in
  let extension := letters (take 3 (drop 8 slot)) in
  letters (take 8 slot) ++ (if bool_decide (extension = []) then [] else 46 :: extension).

(** [name.rsplit_once('.')]. *)
Fixpoint rsplit_once (dot : Z) (name : list Z) : option (list Z * list Z) :=
  match name with
  | [] => None
  | b :: name =>
      match rsplit_once dot name with
      | Some (stem, extension) => Some (b :: stem, extension)
      | None => if b =? dot then Some ([], name) else None
      end
  end.

(** [buffer[at..at + bytes.len()].copy_from_slice(bytes)], in range. *)
Definition splice (at_ : Z) (bytes buffer : list Z) : list Z :=
  take (Z.to_nat at_) buffer ++ bytes ++ drop (Z.to_nat at_ + length bytes) buffer.
Definition copy_into (at_ : Z) (bytes buffer : list Z) : result (list Z) :=
  if (0 <=? at_) && (at_ + Z.of_nat (length bytes) <=? Z.of_nat (length buffer))
  then Ok (splice at_ bytes buffer) else Panic.

(** [buffer.chunks_exact(32)]. *)
Definition slots (buffer : list Z) : list (list Z) :=
  map (fun i => take 32 (drop (32 * i) buffer)) (seq 0 (length buffer / 32)).

Definition entry_of (slot : list Z) : result Entry :=
  first_cluster ← read_u16 slot 26;
  size ← read_u32 slot 28;
  mret (mkEntry (decode_name slot) size first_cluster).

(** The slots of one sector of [list]: the entries so far, and whether the
    directory ended. *)
Fixpoint list_slots (slots : list (list Z)) (entries : list Entry) : result (list Entry * bool) :=
  match slots with
  | [] => mret (entries, false)
  | slot :: slots =>
      if slot !!! 0%nat =? ENTRY_FREE then mret (entries, true)
      else if slot !!! 0%nat =? ENTRY_DELETED then list_slots slots entries
      else if has (slot !!! 11%nat) ATTRIBUTE_VOLUME_LABEL then list_slots slots entries
      else if has (slot !!! 11%nat) ATTRIBUTE_DIRECTORY then list_slots slots entries
      else entry ← entry_of slot; list_slots slots (entries ++ [entry])
  end.

Section fat.
Context {D : Type} `{!Disk D}.

(** [ata::read] into a zeroed buffer of [count] sectors; [ata::write]. *)
Definition read (lba : Z) (count : nat) : io D (list Z) := fun d =>
  let '(bytes, r, d) := disk_read lba count d in
  match r with
  | Ok _ => (Ok (take (512 * count) (bytes ++ replicate (512 * count) 0)), d)
  | Err e => (Err e, d)
  | Panic => (Panic, d)
  end.
Definition write (lba : Z) (bytes : list Z) : io D unit := disk_write lba bytes.

Definition parse_bpb (sector : list Z) : result Volume :=
  if negb (sector !!! 510%nat =? 85) || negb (sector !!! 511%nat =? 170) then Err "sector 0 is not a boot sector"
  else
    bytes_per_sector ← read_u16 sector 11;
    if negb (bytes_per_sector =? SECTOR_SIZE) then Err "this reader only handles 512-byte sectors"
    else
      let sectors_per_cluster := sector !!! 13%nat in
      if (sectors_per_cluster =? 0) || negb (is_power_of_two sectors_per_cluster)
      then Err "sectors per cluster must be a power of two"
      else
        reserved ← read_u16 sector 14;
        let fat_count := sector !!! 16%nat in
        root_entries ← read_u16 sector 17;
        sectors_per_fat ← read_u16 sector 22;
        small ← read_u16 sector 19;
        total_sectors ← (if small =? 0 then read_u32 sector 32 else mret small);
        if (reserved =? 0) || (fat_count =? 0) || (sectors_per_fat =? 0) || (total_sectors =? 0)
        then Err "the BPB has a zero where it must not"
        else
          let fat_start := reserved in
          let root_start := fat_start + fat_count * sectors_per_fat in
          let root_sectors := div_ceil (root_entries * DIRECTORY_ENTRY_SIZE) bytes_per_sector in
          let data_start := root_start + root_sectors in
          if total_sectors <=? data_start then Err "the data region starts past the end of the volume"
          else
            let clusters := (total_sectors - data_start) / sectors_per_cluster in
            if negb ((4085 <=? clusters) && (clusters <? 65525)) then Err "cluster count is not in the FAT16 range"
            else Ok (mkVolume bytes_per_sector fat_count sectors_per_cluster fat_start sectors_per_fat
                       root_start root_entries data_start clusters).

Definition mount : io D Volume := fun d =>
  let '(present, d) := disk_present d in
  if negb present then (Err "no disk on the primary slave (did run.sh attach fs.img?)", d)
  else (sector ← read 0 1; lift (parse_bpb sector)) d.

Definition cluster_to_sector (v : Volume) (cluster : Z) : Z :=
  wrap 32 (data_start v + wrap 32 (wrap 32 (cluster - 2) * sectors_per_cluster v)).
Definition cluster_bytes (v : Volume) : Z := sectors_per_cluster v * bytes_per_sector v.

(** The sector of a table entry and where in it. *)
Definition fat_entry_location (v : Volume) (cluster : Z) : Z * Z :=
  let offset := cluster * 2 in
  (fat_start v + offset / bytes_per_sector v, offset mod bytes_per_sector v).

Definition next_cluster (v : Volume) (cluster : Z) : io D Z :=
  let '(sector, within) := fat_entry_location v cluster in
  buffer ← read sector 1;
  lift (read_u16 buffer within).

Definition root_sectors (v : Volume) : nat :=
  Z.to_nat (div_ceil (root_entries v * DIRECTORY_ENTRY_SIZE) (bytes_per_sector v)).

Fixpoint list_root (v : Volume) (indexes : list nat) (entries : list Entry) : io D (list Entry) :=
  match indexes with
  | [] => mret entries
  | index :: indexes =>
      buffer ← read (root_start v + Z.of_nat index) 1;
      r ← lift (list_slots (slots buffer) entries);
      let '(entries, ended) := r in
      if (ended : bool) then mret entries else list_root v indexes entries
  end.
Definition list_entries (v : Volume) : io D (list Entry) := list_root v (seq 0 (root_sectors v)) [].

Definition find (v : Volume) (name_ : list Z) : io D Entry :=
  entries ← list_entries v;
  match List.find (fun entry => eq_ignore_ascii_case (name entry) name_) entries with
  | Some entry => mret entry
  | None => throw "no such file"
  end.

(** The loop of [read_file]; [budget] is [clusters - visited]. *)
Fixpoint read_chain (v : Volume) (budget : nat) (cluster written : Z) (data : list Z) : io D (list Z) :=
  if (cluster <? 2) || (clusters v + 2 <=? cluster) then throw "chain left the volume"
  else
    match budget with
    | O => throw "cluster chain loops"
    | S budget =>
        buffer ← read (cluster_to_sector v cluster) (Z.to_nat (sectors_per_cluster v));
        let wanted := Z.min (Z.of_nat (length data) - written) (Z.of_nat (length buffer)) in
        part ← lift (slice buffer 0 wanted);
        data ← lift (copy_into written part data);
        let written := written + wanted in
        if Z.of_nat (length data) <=? written then mret data
        else
          cluster ← next_cluster v cluster;
          if END_OF_CHAIN <=? cluster then throw "chain ended before the file did"
          else read_chain v budget cluster written data
    end.
Definition read_file (v : Volume) (entry : Entry) : io D (list Z) :=
  let data := replicate (Z.to_nat (size entry)) 0 in
  if size entry =? 0 then mret data
  else read_chain v (Z.to_nat (clusters v)) (first_cluster entry) 0 data.

(** [volume.find(name).and_then(|entry| volume.read_file(&entry))]. *)
Definition load_file (v : Volume) (name_ : list Z) : io D (list Z) :=
  entry ← find v name_; read_file v entry.

(** ** Writing *)

Definition set_fat_entry (v : Volume) (cluster value : Z) : io D unit :=
  let '(sector, within) := fat_entry_location v cluster in
  for_each (seq 0 (Z.to_nat (fat_count v))) (fun copy =>
    let target := sector + Z.of_nat copy * sectors_per_fat v in
    buffer ← read target 1;
    buffer ← lift (copy_into within (le 2 value) buffer);
    write target buffer).

(** [for cluster in from..to { .. }] with the loop's remaining length. *)
Fixpoint free_from (v : Volume) (count : nat) (cluster : Z) : io D Z :=
  match count with
  | O => throw "the volume is full"
  | S count =>
      next ← next_cluster v cluster;
      if next =? 0 then mret cluster else free_from v count (cluster + 1)
  end.
Definition find_free_cluster (v : Volume) (after : Z) : io D Z :=
  let from := Z.max after 2 in
  free_from v (Z.to_nat (wrap 16 (clusters v + 2) - from)) from.

(** Claim [needed] clusters. *)
Fixpoint claim (v : Volume) (needed : nat) (search_from : Z) (chain : list Z) : io D (list Z) :=
  match needed with
  | O => mret chain
  | S needed =>
      cluster ← find_free_cluster v search_from;
      _ ← set_fat_entry v cluster 65535;
      claim v needed (wrap 16 (cluster + 1)) (chain ++ [cluster])
  end.

(** The bytes of the [index]th cluster of a file, padded with zeroes. *)
Definition piece (v : Volume) (data : list Z) (index : nat) : list Z :=
  let size := Z.to_nat (cluster_bytes v) in
  let part := take size (drop (index * size) data) in
  part ++ replicate (size - length part) 0.

Definition write_chain (v : Volume) (data : list Z) : io D Z :=
  let needed := Z.max (div_ceil (Z.of_nat (length data)) (cluster_bytes v)) 1 in
  chain ← claim v (Z.to_nat needed) 2 [];
  _ ← for_each (imap pair chain) (fun '(index, cluster) => write (cluster_to_sector v cluster) (piece v data index));
  _ ← for_each (rev (seq 0 (length chain))) (fun index =>
    let value := if (index + 1 =? length chain)%nat then 65535 else chain !!! (index + 1)%nat in
    set_fat_entry v (chain !!! index) value);
  match chain with first :: _ => mret first | [] => panic end.

Fixpoint count_from (v : Volume) (count : nat) (cluster free : Z) : io D Z :=
  match count with
  | O => mret free
  | S count =>
      next ← next_cluster v cluster;
      count_from v count (cluster + 1) (if next =? 0 then free + 1 else free)
  end.
Definition count_free (v : Volume) : io D Z := count_from v (Z.to_nat (wrap 16 (clusters v + 2) - 2)) 2 0.

(** [budget] is [clusters + 1 - visited]. *)
Fixpoint free_loop (v : Volume) (budget : nat) (cluster : Z) : io D unit :=
  if (2 <=? cluster) && (cluster <? END_OF_CHAIN) then
    match budget with
    | O => throw "cluster chain loops"
    | S budget =>
        next ← next_cluster v cluster;
        _ ← set_fat_entry v cluster 0;
        free_loop v budget next
    end
  else mret tt.
Definition free_chain (v : Volume) (first : Z) : io D unit := free_loop v (S (Z.to_nat (clusters v))) first.

(** What [directory_slot] finds: where, and the entry if the name is there. *)
Definition Place : Type := Z * Z * option Entry.

(** One sector of the search: a place, or the first empty slot so far. *)
Fixpoint search_slots (name_ : list Z) (sector : Z) (index : nat) (slots : list (list Z)) (first_empty : option (Z * Z))
  : result (Place + option (Z * Z)) :=
  match slots with
  | [] => mret (inr first_empty)
  | slot :: slots =>
      let offset := Z.of_nat index * DIRECTORY_ENTRY_SIZE in
      if (slot !!! 0%nat =? ENTRY_FREE) || (slot !!! 0%nat =? ENTRY_DELETED) then
        let '(s, o) := default (sector, offset) first_empty in
        if slot !!! 0%nat =? ENTRY_FREE then mret (inl (s, o, None))
        else search_slots name_ sector (S index) slots (Some (s, o))
      else if has (slot !!! 11%nat) (Z.lor ATTRIBUTE_VOLUME_LABEL ATTRIBUTE_DIRECTORY)
      then search_slots name_ sector (S index) slots first_empty
      else if eq_ignore_ascii_case (decode_name slot) name_
      then entry ← entry_of slot; mret (inl (sector, offset, Some entry))
      else search_slots name_ sector (S index) slots first_empty
  end.

Fixpoint search_root (v : Volume) (name_ : list Z) (indexes : list nat) (first_empty : option (Z * Z)) : io D Place :=
  match indexes with
  | [] =>
      match first_empty with
      | Some (sector, offset) => mret (sector, offset, None)
      | None => throw "the root directory is full"
      end
  | index :: indexes =>
      let sector := root_start v + Z.of_nat index in
      buffer ← read sector 1;
      r ← lift (search_slots name_ sector 0 (slots buffer) first_empty);
      match r with
      | inl place => mret place
      | inr first_empty => search_root v name_ indexes first_empty
      end
  end.
Definition directory_slot (v : Volume) (name_ : list Z) : io D Place :=
  search_root v name_ (seq 0 (root_sectors v)) None.

Definition split_name (name_ : list Z) : list Z * list Z :=
  match rsplit_once 46 name_ with Some parts => parts | None => (name_, []) end.

(** The thirty-two bytes of a directory entry. *)
Definition encode_slot (stem extension : list Z) (first_cluster size : Z) : list Z :=
  let text (n : nat) (bytes : list Z) := map to_ascii_uppercase bytes ++ replicate (n - length bytes) 32 in
  text 8%nat stem ++ text 3%nat extension ++ [32] ++ replicate 14 0 ++ le 2 first_cluster ++ le 4 (wrap 32 size).

(** Rewrite part of a directory sector. *)
Definition patch (sector offset : Z) (bytes : list Z) : io D unit :=
  buffer ← read sector 1;
  buffer ← lift (copy_into offset bytes buffer);
  write sector buffer.

Definition create (v : Volume) (name_ data : list Z) : io D unit :=
  let '(stem, extension) := split_name name_ in
  if bool_decide (stem = []) || (8 <? length stem)%nat || (3 <? length extension)%nat then throw "name must fit 8.3"
  else
    place ← directory_slot v name_;
    let '(sector, offset, existing) := place in
    first ← (if bool_decide (data = []) then mret 0 else write_chain v data);
    _ ← match existing with
        | Some old => if 2 <=? first_cluster old then free_chain v (first_cluster old) else mret tt
        | None => mret tt
        end;
    patch sector offset (encode_slot stem extension first (Z.of_nat (length data))).

Definition remove (v : Volume) (name_ : list Z) : io D unit :=
  place ← directory_slot v name_;
  let '(sector, offset, existing) := place in
  match existing with
  | None => throw "no such file"
  | Some entry =>
      _ ← patch sector offset [ENTRY_DELETED];
      if 2 <=? first_cluster entry then free_chain v (first_cluster entry) else mret tt
  end.
End fat.
