(* ===== verification/FatTable.v ===== *)
(** * The parts of a FAT volume

    What a volume holds: the table, the clusters and the directory slots, as
    functions of the sectors; and what each transfer of [kernel/src/fat.rs]
    does to them.  [flaky] says that the disk may fail: with it every result
    holds when the operation succeeds, without it the errors left are those
    of the file system itself. *)

From stdpp Require Import functions.
From S2P Require Import Prelude Bytes Disk Fat.

#[local] Arguments Z.mul : simpl never.
#[local] Arguments Z.add : simpl never.
#[local] Arguments Nat.mul : simpl never.
#[local] Arguments sectors : simpl never.

(** ** Splicing a buffer *)

Lemma splice_length at_ bytes b : 0 <= at_ -> at_ + Z.of_nat (length bytes) <= Z.of_nat (length b) ->
  length (splice at_ bytes b) = length b.
Proof. intros H0 H1. unfold splice. rewrite !length_app, length_take, length_drop. lia. Qed.

Lemma splice_bytes at_ bytes b : Forall is_byte bytes -> Forall is_byte b -> Forall is_byte (splice at_ bytes b).
Proof. intros H1 H2. unfold splice. repeat apply Forall_app_2; [by apply Forall_take|done|by apply Forall_drop]. Qed.

Lemma splice_lookup at_ bytes b (i : nat) : 0 <= at_ -> at_ + Z.of_nat (length bytes) <= Z.of_nat (length b) ->
  splice at_ bytes b !! i =
    if decide (at_ <= Z.of_nat i < at_ + Z.of_nat (length bytes)) then bytes !! (i - Z.to_nat at_)%nat else b !! i.
Proof.
  intros H0 H1. unfold splice. set (a := Z.to_nat at_). assert (Ea : at_ = Z.of_nat a) by lia.
  assert (Hl : length (take a b) = a) by (rewrite length_take; lia). case_decide as Hd.
  - rewrite lookup_app_r, lookup_app_l by lia. by rewrite Hl.
  - destruct (decide (i < a)%nat).
    + rewrite lookup_app_l, lookup_take_lt by lia. done.
    + rewrite !lookup_app_r by lia. rewrite lookup_drop. f_equal. lia.
Qed.

(** A word depends on its bytes only. *)
Lemma word_ext n b b' at_ : 0 <= at_ ->
  (forall i : nat, at_ <= Z.of_nat i < at_ + Z.of_nat n -> b' !! i = b !! i) -> word n b' at_ = word n b at_.
Proof.
  intros H0 H. unfold word. f_equal. apply list_eq. intros i. destruct (decide (i < n)%nat).
  - rewrite !lookup_take_lt, !lookup_drop by done. apply H. lia.
  - rewrite !lookup_take_ge by lia. done.
Qed.

Lemma word_splice n at_ value b : 0 <= at_ -> at_ + Z.of_nat n <= Z.of_nat (length b) -> 0 <= value < 256 ^ Z.of_nat n ->
  word n (splice at_ (le n value) b) at_ = value.
Proof.
  intros H0 H1 Hv. unfold word, splice. assert (Hl : length (take (Z.to_nat at_) b) = Z.to_nat at_) by (rewrite length_take; lia).
  rewrite drop_app_length' by done. rewrite take_app_length' by (by rewrite le_length). by apply unle_le.
Qed.

Lemma word_splice_other n at_ bytes b other : 0 <= at_ -> at_ + Z.of_nat (length bytes) <= Z.of_nat (length b) -> 0 <= other ->
  other + Z.of_nat n <= at_ \/ at_ + Z.of_nat (length bytes) <= other -> word n (splice at_ bytes b) other = word n b other.
Proof.
  intros H0 H1 H2 H. apply word_ext; [done|]. intros i Hi. rewrite splice_lookup by done. by rewrite decide_False by lia.
Qed.

(** ** Geometry *)

(** What [mount] establishes. *)
Record geometry (v : Volume) : Prop := {
  ge_bytes : bytes_per_sector v = 512;
  ge_cluster : 0 < sectors_per_cluster v <= 255;
  ge_copies : 0 < fat_count v <= 255;
  ge_table : 0 < sectors_per_fat v < 65536;
  ge_start : 0 < fat_start v < 65536;
  ge_root : root_start v = fat_start v + fat_count v * sectors_per_fat v;
  ge_entries : 0 <= root_entries v < 65536;
  ge_data : data_start v = root_start v + Z.of_nat (root_sectors v);
  ge_clusters : 4085 <= clusters v < 65525
}.

Lemma root_sectors_bound v : geometry v -> (root_sectors v <= 4096)%nat.
Proof.
  intros [Hb _ _ _ _ _ He _ _]. unfold root_sectors, div_ceil, DIRECTORY_ENTRY_SIZE. rewrite Hb.
  assert ((root_entries v * 32 + 512 - 1) / 512 <= 4096); [|lia].
  transitivity ((65535 * 32 + 512 - 1) / 512); [apply Z.div_le_mono; lia|done].
Qed.

Lemma data_start_bound v : geometry v -> 0 < root_start v /\ 0 < data_start v <= 17000000.
Proof.
  intros Hg. pose proof (root_sectors_bound v Hg). destruct Hg as [_ ? ? ? ? ? _ ? ?].
  assert (0 <= fat_count v * sectors_per_fat v <= 255 * 65536) by nia. lia.
Qed.

(** What it does not: the table has an entry for every cluster. *)
Definition table_fits (v : Volume) : Prop := 2 * (clusters v + 2) <= 512 * sectors_per_fat v.

Definition valid (v : Volume) (c : Z) : Prop := 2 <= c < clusters v + 2.

Lemma cluster_to_sector_eq v c : geometry v -> valid v c ->
  cluster_to_sector v c = data_start v + (c - 2) * sectors_per_cluster v /\
  cluster_to_sector v c + sectors_per_cluster v <= LBA_LIMIT.
Proof.
  intros Hg Hc. pose proof (root_sectors_bound v Hg). destruct Hg as [_ ? ? ? ? ? _ ? ?]. unfold valid in Hc.
  assert (Hq : 0 <= (c - 2) * sectors_per_cluster v <= 65525 * 255) by nia.
  assert (fat_count v * sectors_per_fat v <= 255 * 65536) by nia.
  assert (0 <= fat_count v * sectors_per_fat v) by nia.
  assert (in_u 32 (c - 2) /\ in_u 32 ((c - 2) * sectors_per_cluster v) /\ in_u 32 (data_start v + (c - 2) * sectors_per_cluster v))
    as (I1 & I2 & I3) by (unfold in_u; change (2 ^ 32) with 4294967296; lia).
  unfold cluster_to_sector, LBA_LIMIT. rewrite (wrap_small _ _ I1), (wrap_small _ _ I2), (wrap_small _ _ I3). lia.
Qed.

Section table.
Context {D : Type} `{HL : DiskLaws D}.
Context (flaky : Prop) (Hflaky : flaky \/ Reliable D).
Context (v : Volume) (Hg : geometry v).

(** An error: the disk's, or [P]. *)
Definition fails (P : D -> Prop) : D -> Prop := fun d => flaky \/ P d.
Definition never : D -> Prop := fun _ => False.

(** ** Reading and writing sectors *)

Lemma read_safe lba count d : 0 <= lba -> lba + Z.of_nat count <= LBA_LIMIT -> (0 < count <= 256)%nat ->
  safe (read lba count) (fun b d' => b = sectors (sector d) lba count /\ forall x, sector d' x = sector d x) (fails never) d.
Proof using Hflaky HL.
  intros H0 H1 Hc. unfold safe, read. destruct (disk_read lba count d) as [[bytes r] d'] eqn:E.
  destruct (read_sectors _ _ _ _ _ _ E) as (Hs & Hlen & _ & Hok). destruct r as [[]|e|].
  - split; [|done]. rewrite (Hok eq_refl H0 H1 Hc). apply take_app_length'. symmetry. apply sectors_length, sector_length.
  - destruct Hflaky as [?|Hrel]; [by left|]. pose proof (reads_succeed lba count d Hc) as H. by rewrite E in H.
  - pose proof (read_never_panics lba count d) as H. by rewrite E in H.
Qed.

Lemma write_safe lba count bytes d : Forall is_byte bytes -> length bytes = (512 * count)%nat -> 0 <= lba ->
  lba + Z.of_nat count <= LBA_LIMIT -> (0 < count <= 256)%nat ->
  safe (write lba bytes)
    (fun _ d' => sectors (sector d') lba count = bytes /\
       forall x, 0 <= x < LBA_LIMIT -> ~ lba <= x < lba + Z.of_nat count -> sector d' x = sector d x) (fails never) d.
Proof using Hflaky HL.
  intros Hb Hl H0 H1 Hc. unfold safe, write. destruct (disk_write lba bytes d) as [r d'] eqn:E.
  destruct (write_sectors lba count bytes d r d' Hb Hl H0 H1 Hc E) as [Hs Hok]. destruct r as [[]|e|].
  - split; [by apply Hok|done].
  - destruct Hflaky as [?|Hrel]; [by left|]. pose proof (writes_succeed lba bytes d ltac:(lia)) as H. by rewrite E in H.
  - pose proof (write_never_panics lba bytes d) as H. by rewrite E in H.
Qed.

(** ** What a volume holds *)

Definition fat_sector (c : Z) : Z := fat_start v + c * 2 / 512.
Definition fat_at (d : D) (c : Z) : Z := word 2 (sector d (fat_sector c)) (c * 2 mod 512).
Definition cluster_at (d : D) (c : Z) : list Z := sectors (sector d) (cluster_to_sector v c) (Z.to_nat (sectors_per_cluster v)).
Definition slots_at (d : D) (i : nat) : list (list Z) := slots (sector d (root_start v + Z.of_nat i)).
Definition directory_at (d : D) : list (list Z) := mjoin (map (slots_at d) (seq 0 (root_sectors v))).

(** The table [F], the clusters [C] and the directory [L]. *)
Record holds (d : D) (F : Z -> Z) (C : Z -> list Z) (L : list (list Z)) : Prop := {
  ho_fat c : valid v c -> fat_at d c = F c;
  ho_cluster c : valid v c -> cluster_at d c = C c;
  ho_directory : directory_at d = L
}.

Lemma holds_start d : holds d (fat_at d) (cluster_at d) (directory_at d).
Proof using Type. done. Qed.

(** Each part is where the geometry says. *)
Lemma fat_sector_bound c : table_fits v -> valid v c -> fat_start v <= fat_sector c < fat_start v + sectors_per_fat v.
Proof using Type.
  intros Hf Hc. unfold fat_sector, valid, table_fits in *.
  pose proof (Z.div_mod (c * 2) 512). pose proof (Z.mod_pos_bound (c * 2) 512). lia.
Qed.

Lemma cluster_same d d' c : valid v c -> (forall x, data_start v <= x < LBA_LIMIT -> sector d' x = sector d x) ->
  cluster_at d' c = cluster_at d c.
Proof using Hg.
  intros Hc Hs. destruct (cluster_to_sector_eq v c Hg Hc) as [E Hb]. pose proof (ge_cluster _ Hg). unfold valid in Hc.
  apply sectors_ext. intros x Hx. apply Hs. nia.
Qed.

Lemma directory_same d d' : (forall x, root_start v <= x < data_start v -> sector d' x = sector d x) -> directory_at d' = directory_at d.
Proof using Hg.
  intros Hs. unfold directory_at. f_equal. apply map_ext_in. intros i Hi%in_seq. unfold slots_at. rewrite Hs; [done|].
  rewrite (ge_data _ Hg). lia.
Qed.

Lemma holds_same d d' F C L : (forall x, 0 <= x < LBA_LIMIT -> sector d' x = sector d x) -> holds d F C L -> holds d' F C L.
Proof using Hg.
  intros Hs [HF HC HLd]. pose proof (data_start_bound v Hg). unfold LBA_LIMIT in *. constructor.
  - intros c Hc. rewrite <- HF by done. unfold fat_at. rewrite Hs; [done|]. unfold fat_sector, valid in *.
    pose proof (Z.div_mod (c * 2) 512). pose proof (Z.mod_pos_bound (c * 2) 512). pose proof (ge_start _ Hg).
    pose proof (ge_clusters _ Hg). lia.
  - intros c Hc. rewrite <- HC by done. apply cluster_same; [done|]. intros x Hx. apply Hs. unfold LBA_LIMIT in Hx. lia.
  - rewrite <- HLd. apply directory_same. intros x Hx. apply Hs. lia.
Qed.

(** ** The table *)

Lemma fat_within c : 0 <= c * 2 mod 512 /\ c * 2 mod 512 + 2 <= 512.
Proof using Type.
  pose proof (Z.mod_pos_bound (c * 2) 512). split; [lia|]. rewrite Z.mul_comm. change 512 with (2 * 256).
  rewrite Z.mul_mod_distr_l by done. pose proof (Z.mod_pos_bound c 256). lia.
Qed.

Lemma next_cluster_safe c d F C L : holds d F C L -> valid v c ->
  safe (next_cluster v c) (fun n d' => n = F c /\ 0 <= n < 65536 /\ holds d' F C L) (fails never) d.
Proof using Hflaky HL Hg.
  intros Hh Hc. unfold next_cluster, fat_entry_location. rewrite (ge_bytes _ Hg). fold (fat_sector c).
  pose proof Hg as [_ ? ? ? ? ? _ ? ?]. pose proof (Z.div_mod (c * 2) 512). pose proof (Z.mod_pos_bound (c * 2) 512).
  eapply safe_bind; [apply read_safe; unfold fat_sector, valid, LBA_LIMIT in *; lia|].
  intros b d' [-> Hs]. rewrite sectors_one. pose proof (fat_within c) as [Hw0 Hw1]. unfold safe, lift, read_u16.
  rewrite (read_le_Ok 2) by (rewrite ?sector_length; lia). split; [|split].
  - rewrite <- (ho_fat _ _ _ _ Hh c Hc). done.
  - apply (word_bound 2), sector_bytes.
  - apply (holds_same d); [|done]. intros x _. apply Hs.
Qed.

(** *** Writing an entry, in every copy *)

Definition spliced (c value : Z) (copies : list nat) (d d' : D) : Prop := forall x, 0 <= x < LBA_LIMIT ->
  sector d' x = if bool_decide (Exists (fun copy => x = fat_sector c + Z.of_nat copy * sectors_per_fat v) copies)
                then splice (c * 2 mod 512) (le 2 value) (sector d x) else sector d x.

Lemma set_copy_safe c value d0 done_ copy d : table_fits v -> valid v c -> (copy < Z.to_nat (fat_count v))%nat ->
  copy ∉ done_ -> spliced c value done_ d0 d ->
  safe (let target := fat_sector c + Z.of_nat copy * sectors_per_fat v in
        buffer ← read target 1;
        buffer ← lift (copy_into (c * 2 mod 512) (le 2 value) buffer);
        write target buffer)
    (fun _ => spliced c value (done_ ++ [copy]) d0) (fails never) d.
Proof using Hflaky HL Hg.
  intros Hf Hc Hcopy Hnin Hsp. pose proof (fat_sector_bound c Hf Hc) as Hfs. pose proof (data_start_bound v Hg) as [_ Hds].
  pose proof (fat_within c) as [Hw0 Hw1]. set (target := fat_sector c + Z.of_nat copy * sectors_per_fat v).
  assert (Ht : 0 <= target < LBA_LIMIT - 1).
  { pose proof Hg as [_ ? ? ? ? ? _ ? _]. unfold target, LBA_LIMIT.
    assert (Z.of_nat copy * sectors_per_fat v <= (fat_count v - 1) * sectors_per_fat v) by nia. nia. }
  cbv zeta. eapply safe_bind; [apply read_safe; lia|]. intros b d1 [-> Hs1]. rewrite sectors_one.
  unfold lift, copy_into. assert (Hlen := sector_length d target). rewrite le_length.
  rewrite (proj2 (Z.leb_le 0 _)), (proj2 (Z.leb_le _ (Z.of_nat (length _)))) by lia. cbn [andb].
  unfold mbind, io_bind. eapply safe_mono; [apply (write_safe target 1)| |done].
  - apply splice_bytes; [apply le_bytes|apply sector_bytes].
  - rewrite splice_length; rewrite ?le_length; lia.
  - lia.
  - lia.
  - lia.
  - intros _ d2 [Hw Ho]. rewrite sectors_one in Hw. intros x Hx.
    assert (E : sector d target = sector d0 target).
    { rewrite Hsp by lia. rewrite bool_decide_false; [done|]. rewrite Exists_exists. intros (copy' & Hin & E).
      assert (copy' = copy) as -> by (unfold target in E; pose proof (ge_table _ Hg); nia). done. }
    destruct (decide (x = target)) as [->|Hne].
    + rewrite bool_decide_true; [by rewrite Hw, E|]. apply Exists_app. right. constructor. done.
    + rewrite Ho, Hs1, Hsp by lia. erewrite (bool_decide_ext (Exists _ (done_ ++ [copy]))); [done|].
      rewrite Exists_app, Exists_cons, Exists_nil. fold target. tauto.
Qed.

Lemma set_fat_entry_safe c value d F C L : table_fits v -> holds d F C L -> valid v c -> 0 <= value < 65536 ->
  safe (set_fat_entry v c value) (fun _ d' => holds d' (<[c := value]> F) C L) (fails never) d.
Proof using Hflaky HL Hg.
  intros Hf Hh Hc Hv. unfold set_fat_entry, fat_entry_location. rewrite (ge_bytes _ Hg). fold (fat_sector c).
  eapply safe_mono; [apply (safe_for_each _ (fun done_ d' => spliced c value done_ d d'))| |done].
  - intros done_ copy l d1 E Hsp. assert (Hin : copy ∈ seq 0 (Z.to_nat (fat_count v))) by (rewrite E; set_solver).
    apply elem_of_seq in Hin. apply (set_copy_safe c value d done_ copy d1 Hf Hc); [lia| |done].
    pose proof (NoDup_seq 0 (Z.to_nat (fat_count v))) as Hnd. rewrite E in Hnd. apply NoDup_app in Hnd as (_ & Hnd & _).
    intros Hin'. apply (Hnd copy Hin'). left.
  - intros x Hx. rewrite bool_decide_false; [done|]. by intros ?%Exists_nil.
  - intros u d' Hsp. destruct Hh as [HF HC HLd]. pose proof (data_start_bound v Hg) as [_ Hds]. unfold LBA_LIMIT in *.
    assert (Hcopies : forall x, root_start v <= x < LBA_LIMIT -> sector d' x = sector d x).
    { intros x Hx. pose proof Hg as [_ ? ? ? ? ? _ ? _]. rewrite Hsp by nia. rewrite bool_decide_false; [done|].
      rewrite Exists_exists. intros (copy & Hin%elem_of_seq & ->). pose proof (fat_sector_bound c Hf Hc).
      assert (Z.of_nat copy * sectors_per_fat v <= (fat_count v - 1) * sectors_per_fat v) by nia. nia. }
    constructor.
    + intros c' Hc'. pose proof (fat_sector_bound c Hf Hc) as Hb. pose proof (fat_sector_bound c' Hf Hc') as Hb'.
      pose proof Hg as [_ ? ? ? ? ? _ ? _]. pose proof (fat_within c) as [Hw0 Hw1]. pose proof (fat_within c') as [Hw0' Hw1'].
      unfold fat_at. rewrite Hsp by (unfold LBA_LIMIT; nia).
      destruct (decide (fat_sector c' = fat_sector c)) as [Es|Es].
      * rewrite bool_decide_true; [|apply Exists_exists; exists 0%nat; split; [apply elem_of_seq; lia|lia]].
        rewrite Es. destruct (decide (c' = c)) as [->|Hne].
        -- rewrite fn_lookup_insert. apply (word_splice 2); rewrite ?sector_length; lia.
        -- rewrite fn_lookup_insert_ne by done. rewrite <- HF by done. unfold fat_at. rewrite Es.
           apply word_splice_other; rewrite ?le_length, ?sector_length; try lia.
           unfold fat_sector in Es. pose proof (Z.div_mod (c * 2) 512). pose proof (Z.div_mod (c' * 2) 512).
           assert (Ev : forall z, z * 2 mod 512 = 2 * (z mod 256)).
           { intros z. rewrite Z.mul_comm. change 512 with (2 * 256). by rewrite Z.mul_mod_distr_l. }
           rewrite !Ev in *. lia.
      * rewrite bool_decide_false.
        -- rewrite fn_lookup_insert_ne by (by intros ->). by rewrite <- HF.
        -- rewrite Exists_exists. intros (copy & Hin%elem_of_seq & E). destruct copy as [|copy]; nia.
    + intros c' Hc'. rewrite <- HC by done. apply cluster_same; [done|]. intros x Hx. apply Hcopies.
      pose proof Hg as [_ ? ? ? ? ? _ ? _]. lia.
    + rewrite <- HLd. apply directory_same. intros x Hx. apply Hcopies. unfold LBA_LIMIT. lia.
Qed.

(** ** Clusters *)

Lemma cluster_count : (0 < Z.to_nat (sectors_per_cluster v) <= 256)%nat.
Proof using Hg. pose proof (ge_cluster _ Hg). lia. Qed.

Lemma read_cluster_safe c d F C L : holds d F C L -> valid v c ->
  safe (read (cluster_to_sector v c) (Z.to_nat (sectors_per_cluster v)))
    (fun b d' => b = C c /\ holds d' F C L) (fails never) d.
Proof using Hflaky HL Hg.
  intros Hh Hc. destruct (cluster_to_sector_eq v c Hg Hc) as [E Hb]. pose proof (data_start_bound v Hg). pose proof (ge_cluster _ Hg).
  eapply safe_mono; [apply read_safe; [unfold valid in Hc; nia|lia|apply cluster_count]| |done].
  intros b d' [-> Hs]. split; [apply (ho_cluster _ _ _ _ Hh c Hc)|]. apply (holds_same d); [|done]. intros x _. apply Hs.
Qed.

Lemma cluster_apart c c' x : valid v c -> valid v c' -> c <> c' ->
  cluster_to_sector v c' <= x < cluster_to_sector v c' + sectors_per_cluster v ->
  ~ cluster_to_sector v c <= x < cluster_to_sector v c + sectors_per_cluster v.
Proof using Hg.
  intros Hc Hc' Hne. rewrite (proj1 (cluster_to_sector_eq v c Hg Hc)), (proj1 (cluster_to_sector_eq v c' Hg Hc')).
  pose proof (ge_cluster _ Hg). intros H1 H2. apply Hne.
  assert (c - 2 < c' - 2 + 1 /\ c' - 2 < c - 2 + 1) by nia. lia.
Qed.

Lemma write_cluster_safe c bytes d F C L : table_fits v -> holds d F C L -> valid v c -> Forall is_byte bytes ->
  Z.of_nat (length bytes) = cluster_bytes v ->
  safe (write (cluster_to_sector v c) bytes) (fun _ d' => holds d' F (<[c := bytes]> C) L) (fails never) d.
Proof using Hflaky HL Hg.
  intros Hf Hh Hc Hb Hl. destruct (cluster_to_sector_eq v c Hg Hc) as [E Hlim]. pose proof (data_start_bound v Hg).
  pose proof (ge_cluster _ Hg). unfold cluster_bytes in Hl. rewrite (ge_bytes _ Hg) in Hl.
  assert (Hlo : data_start v <= cluster_to_sector v c) by (unfold valid in Hc; nia).
  eapply safe_mono; [apply (write_safe _ (Z.to_nat (sectors_per_cluster v))); [done|lia|lia|lia|apply cluster_count]| |done].
  intros u d' [Hw Ho]. destruct Hh as [HF HC HLd]. pose proof Hg as [_ _ ? ? ? ? _ ? _]. constructor.
  - intros c' Hc'. rewrite <- HF by done. unfold fat_at. rewrite Ho; [done|..];
      pose proof (fat_sector_bound c' Hf Hc'); unfold LBA_LIMIT; nia.
  - intros c' Hc'. destruct (decide (c' = c)) as [->|Hne]; [by rewrite fn_lookup_insert|].
    rewrite fn_lookup_insert_ne by done. rewrite <- HC by done. apply sectors_ext. intros x Hx.
    destruct (cluster_to_sector_eq v c' Hg Hc') as [E' Hlim']. apply Ho; [unfold valid in Hc'; nia|].
    pose proof (cluster_apart c c' x Hc Hc' ltac:(done)). lia.
  - rewrite <- HLd. apply directory_same. intros x Hx. apply Ho; unfold LBA_LIMIT; lia.
Qed.
End table.
