(* ===== verification/FatDir.v ===== *)
(** * The root directory

    The directory is a list of slots: [list_entries] and [directory_slot]
    compute what they say of that list, and rewriting part of a sector is
    rewriting one slot. *)

From stdpp Require Import functions.
From S2P Require Import Prelude Bytes Disk Fat FatTable.

#[local] Arguments Z.mul : simpl never.
#[local] Arguments Z.add : simpl never.
#[local] Arguments Nat.mul : simpl never.
#[local] Arguments Nat.div : simpl never.
#[local] Arguments sectors : simpl never.

Definition entry_at (slot : list Z) : Entry := mkEntry (decode_name slot) (word 4 slot 28) (word 2 slot 26).

Definition is_free (slot : list Z) : bool := slot !!! 0%nat =? ENTRY_FREE.
Definition is_empty (slot : list Z) : bool := is_free slot || (slot !!! 0%nat =? ENTRY_DELETED).
(** An ordinary file: neither empty, nor a label, nor a directory. *)
Definition is_file (slot : list Z) : bool :=
  negb (is_empty slot) && negb (has (slot !!! 11%nat) (Z.lor ATTRIBUTE_VOLUME_LABEL ATTRIBUTE_DIRECTORY)).
Definition named (name_ : list Z) (slot : list Z) : bool := eq_ignore_ascii_case (decode_name slot) name_.

Lemma has_either e a b : has e (Z.lor a b) = has e a || has e b.
Proof.
  unfold has. rewrite Z.land_lor_distr_r. apply eq_true_iff_eq. rewrite orb_true_iff, !negb_true_iff, !Z.eqb_neq, Z.lor_eq_0_iff.
  destruct (Z.eq_dec (Z.land e a) 0); tauto.
Qed.

Lemma entry_of_Ok slot : length slot = 32%nat -> entry_of slot = Ok (entry_at slot).
Proof. intros Hl. unfold entry_of, read_u16, read_u32. rewrite (read_le_Ok 2), (read_le_Ok 4) by lia. done. Qed.

(** ** Slots of a sector *)

Lemma slots_length b : length b = 512%nat -> length (slots b) = 16%nat.
Proof. intros Hl. unfold slots. by rewrite length_map, length_seq, Hl. Qed.

Lemma slots_lookup b j : length b = 512%nat -> (j < 16)%nat -> slots b !! j = Some (take 32 (drop (32 * j) b)).
Proof.
  intros Hl Hj. unfold slots. change (map ?f ?l) with (f <$> l). rewrite list_lookup_fmap, lookup_seq_lt; [done|].
  rewrite Hl. exact Hj.
Qed.

Lemma slots_size b : length b = 512%nat -> Forall (fun slot => length slot = 32%nat) (slots b).
Proof.
  intros Hl. apply Forall_lookup. intros j slot Hj. assert (Hj' : (j < 16)%nat).
  { rewrite <- (slots_length b Hl). by eapply lookup_lt_Some. }
  rewrite slots_lookup in Hj by done. injection Hj as <-. rewrite length_take, length_drop. lia.
Qed.

Lemma slots_bytes b : Forall is_byte b -> Forall (Forall is_byte) (slots b).
Proof.
  intros Hb. unfold slots. apply Forall_map. apply Forall_forall. intros i _. by apply Forall_take, Forall_drop.
Qed.

Lemma slots_splice b j bytes : length b = 512%nat -> (j < 16)%nat -> (length bytes <= 32)%nat ->
  slots (splice (Z.of_nat j * 32) bytes b) = <[j := splice 0 bytes (slots b !!! j)]> (slots b).
Proof.
  intros Hl Hj Hn. assert (Hl' : length (splice (Z.of_nat j * 32) bytes b) = 512%nat) by (rewrite splice_length; lia).
  apply list_eq. intros j'. destruct (decide (j' < 16)%nat) as [Hj'|Hj'].
  2:{ rewrite !lookup_ge_None_2; [done|rewrite length_insert, slots_length; (done || lia)|rewrite slots_length; (done || lia)]. }
  rewrite slots_lookup by done. destruct (decide (j = j')) as [<-|Hne].
  - rewrite list_lookup_insert_eq by by rewrite slots_length. rewrite list_lookup_total_alt, slots_lookup by done. cbn [default from_option id]. unfold id.
    f_equal. apply list_eq. intros i. assert (Hs : length (take 32 (drop (32 * j) b)) = 32%nat) by (rewrite length_take, length_drop; lia).
    rewrite (splice_lookup 0) by lia. destruct (decide (i < 32)%nat).
    + rewrite lookup_take_lt, lookup_drop, splice_lookup by lia. repeat case_decide; try lia; [f_equal; lia|].
      by rewrite lookup_take_lt, lookup_drop by lia.
    + rewrite lookup_take_ge by lia. rewrite decide_False by lia. by rewrite lookup_take_ge by lia.
  - rewrite list_lookup_insert_ne, slots_lookup by done. f_equal. apply list_eq. intros i. destruct (decide (i < 32)%nat).
    + rewrite !lookup_take_lt, !lookup_drop, splice_lookup by lia. rewrite decide_False by lia. done.
    + by rewrite !lookup_take_ge by lia.
Qed.

(** ** The search, over the whole list *)

Definition Found : Type := nat * option Entry.

(** [directory_slot] over a list of slots that starts at position [n]. *)
Fixpoint search (name_ : list Z) (n : nat) (slots : list (list Z)) (first_empty : option nat) : Found + option nat :=
  match slots with
  | [] => inr first_empty
  | slot :: slots =>
      if is_empty slot then
        let i := default n first_empty in
        if is_free slot then inl (i, None) else search name_ (S n) slots (Some i)
      else if negb (is_file slot) then search name_ (S n) slots first_empty
      else if named name_ slot then inl (n, Some (entry_at slot))
      else search name_ (S n) slots first_empty
  end.

Lemma search_app name_ n l1 l2 first_empty :
  search name_ n (l1 ++ l2) first_empty =
    match search name_ n l1 first_empty with inl r => inl r | inr e => search name_ (n + length l1) l2 e end.
Proof.
  revert n first_empty. induction l1 as [|slot l1 IH]; intros n e; cbn [search app length].
  - by rewrite Nat.add_0_r.
  - rewrite !IH. replace (S n + length l1)%nat with (n + S (length l1))%nat by lia. by repeat case_match.
Qed.

(** The files up to the first free slot, and whether there is one. *)
Fixpoint files (slots : list (list Z)) : list (list Z) * bool :=
  match slots with
  | [] => ([], false)
  | slot :: slots =>
      if is_free slot then ([], true)
      else let '(l, ended) := files slots in (if is_file slot then slot :: l else l, ended)
  end.

Lemma list_slots_files slots entries : Forall (fun slot => length slot = 32%nat) slots ->
  list_slots slots entries = Ok (entries ++ map entry_at (files slots).1, (files slots).2).
Proof.
  intros Hs. revert entries. induction Hs as [|slot slots Hl Hs IH]; intros entries; cbn [list_slots files].
  - by rewrite app_nil_r.
  - unfold is_file, is_empty. change (slot !!! 0%nat =? ENTRY_FREE) with (is_free slot). destruct (is_free slot); cbn [orb andb negb]; [cbn; by rewrite app_nil_r|].
    destruct (slot !!! 0%nat =? ENTRY_DELETED); cbn [orb andb negb]; [rewrite IH; by destruct (files slots)|].
    rewrite has_either. destruct (has _ ATTRIBUTE_VOLUME_LABEL); cbn [orb andb negb]; [rewrite IH; by destruct (files slots)|].
    destruct (has _ ATTRIBUTE_DIRECTORY); cbn [negb]; [rewrite IH; by destruct (files slots)|].
    rewrite entry_of_Ok by done. unfold mbind, result_bind. rewrite IH. destruct (files slots) as [l ended]. cbn [fst snd map].
    by rewrite <- app_assoc.
Qed.

Lemma files_app l1 l2 : files (l1 ++ l2) = if (files l1).2 then files l1 else ((files l1).1 ++ (files l2).1, (files l2).2).
Proof.
  induction l1 as [|slot l1 IH]; cbn [files app]; [by destruct (files l2)|]. destruct (is_free slot); [done|].
  rewrite IH. destruct (files l1) as [a ended]. destruct ended; cbn [fst snd]; [done|]. by destruct (is_file slot).
Qed.

Section directory.
Context {D : Type} `{HL : DiskLaws D}.
Context (flaky : Prop) (Hflaky : flaky \/ Reliable D).
Context (v : Volume) (Hg : geometry v).

(** Where the [n]th slot is. *)
Definition place_of (n : nat) : Z * Z := (root_start v + Z.of_nat (n / 16), Z.of_nat (n mod 16) * DIRECTORY_ENTRY_SIZE).
Definition located (r : Found) : Place := let '(n, e) := r in let '(s, o) := place_of n in (s, o, e).

(** The slots of the [i]th sector. *)
Definition slots_of (L : list (list Z)) (i : nat) : list (list Z) := take 16 (drop (16 * i) L).

Lemma slots_of_lookup L i p : (p / 16 = i)%nat -> slots_of L i !! (p mod 16)%nat = L !! p.
Proof using Type.
  intros <-. pose proof (Nat.div_mod p 16 ltac:(done)). pose proof (Nat.mod_upper_bound p 16 ltac:(done)).
  unfold slots_of. rewrite lookup_take_lt, lookup_drop by lia. f_equal. lia.
Qed.

Lemma slots_at_length d i : length (slots_at v d i) = 16%nat.
Proof using HL. apply slots_length, sector_length. Qed.

Lemma join_length (l : nat -> list (list Z)) a n : (forall j, length (l j) = 16%nat) -> length (mjoin (map l (seq a n))) = (16 * n)%nat.
Proof using Type.
  intros Hl. revert a. induction n as [|n IH]; intros a; [done|]. cbn. rewrite length_app, Hl, IH. lia.
Qed.

Lemma join_slots (l : nat -> list (list Z)) n i : (forall j, length (l j) = 16%nat) -> (i < n)%nat ->
  slots_of (mjoin (map l (seq 0 n))) i = l i.
Proof using Type.
  intros Hl Hi. unfold slots_of. replace n with (i + (1 + (n - i - 1)))%nat by lia.
  rewrite !seq_app, !map_app, !join_app. rewrite drop_app_length' by by rewrite join_length.
  cbn [seq map mjoin list_join]. rewrite app_nil_r. cbn. apply take_app_length'. by rewrite Hl.
Qed.

Lemma slots_of_join (L : list (list Z)) a b : (16 * (a + b) <= length L)%nat ->
  mjoin (map (slots_of L) (seq a b)) = take (16 * b) (drop (16 * a) L).
Proof using Type.
  revert a. induction b as [|b IH]; intros a Hb; [done|]. cbn [seq map mjoin list_join]. rewrite IH by lia. unfold slots_of.
  replace (16 * S a)%nat with (16 * a + 16)%nat by lia. rewrite <- drop_drop. set (X := drop (16 * a) L).
  assert (HX : (16 <= length X)%nat) by (unfold X; rewrite length_drop; lia).
  replace (16 * S b)%nat with (16 + 16 * b)%nat by lia. rewrite <- (take_drop 16 X) at 3.
  rewrite take_app_add' by (rewrite length_take; lia). done.
Qed.

Lemma directory_length d F C L : holds v d F C L -> length L = (16 * root_sectors v)%nat.
Proof using HL.
  intros Hh. rewrite <- (ho_directory _ _ _ _ _ Hh). apply join_length. intros. apply slots_at_length.
Qed.

Lemma holds_slots d F C L i : holds v d F C L -> (i < root_sectors v)%nat -> slots_at v d i = slots_of L i.
Proof using HL.
  intros Hh Hi. rewrite <- (ho_directory _ _ _ _ _ Hh). symmetry. apply join_slots; [|done]. intros j. apply slots_at_length.
Qed.

Lemma root_read_safe i d F C L : holds v d F C L -> (i < root_sectors v)%nat ->
  safe (read (root_start v + Z.of_nat i) 1)
    (fun b d' => b = sector d (root_start v + Z.of_nat i) /\ slots b = slots_of L i /\ holds v d' F C L) (fails flaky never) d.
Proof using Hflaky HL Hg.
  intros Hh Hi. pose proof (data_start_bound v Hg). pose proof (ge_data _ Hg).
  eapply safe_mono; [apply (read_safe flaky Hflaky); unfold LBA_LIMIT; lia| |done]. intros b d' [-> Hs]. rewrite sectors_one.
  split; [done|]. split; [by apply (holds_slots d F C)|]. by apply (holds_same v Hg d).
Qed.

Lemma directory_sizes d F C L : holds v d F C L -> Forall (fun slot => length slot = 32%nat) L.
Proof using HL.
  intros Hh. rewrite <- (ho_directory _ _ _ _ _ Hh). unfold directory_at. apply Forall_join, Forall_map, Forall_forall.
  intros i _. apply slots_size, sector_length.
Qed.

Lemma slots_of_sizes L i : Forall (fun slot => length slot = 32%nat) L -> Forall (fun slot => length slot = 32%nat) (slots_of L i).
Proof using Type. intros Hs. by apply Forall_take, Forall_drop. Qed.

Lemma slots_of_length (L : list (list Z)) i n : length L = (16 * n)%nat -> (i < n)%nat -> length (slots_of L i) = 16%nat.
Proof using Type. intros Hl Hi. unfold slots_of. rewrite length_take, length_drop. lia. Qed.

(** What one sector's search says, in positions of the whole list. *)
Lemma search_slots_search name_ i j slots_ e : Forall (fun slot => length slot = 32%nat) slots_ -> (j + length slots_ <= 16)%nat ->
  search_slots name_ (root_start v + Z.of_nat i) j slots_ (place_of <$> e) =
    Ok match search name_ (16 * i + j) slots_ e with inl r => inl (located r) | inr e' => inr (place_of <$> e') end.
Proof using Type.
  intros Hs. revert j e. induction Hs as [|slot slots_ Hl Hs IH]; intros j e Hj; cbn [search_slots search]; [done|]. cbn [length] in Hj.
  assert (Ep : place_of (16 * i + j) = (root_start v + Z.of_nat i, Z.of_nat j * DIRECTORY_ENTRY_SIZE)).
  { unfold place_of. rewrite (Nat.mul_comm 16 i), Nat.div_add_l, Nat.div_small, Nat.add_0_r by lia.
    by rewrite Nat.add_comm, Nat.Div0.mod_add, Nat.mod_small by lia. }
  assert (Ed : default (root_start v + Z.of_nat i, Z.of_nat j * DIRECTORY_ENTRY_SIZE) (place_of <$> e) = place_of (default (16 * i + j)%nat e)).
  { destruct e; [done|]. by rewrite <- Ep. }
  assert (En : (16 * i + S j)%nat = S (16 * i + j)) by lia.
  change ((slot !!! 0%nat =? ENTRY_FREE) || (slot !!! 0%nat =? ENTRY_DELETED)) with (is_empty slot). rewrite Ed.
  destruct (is_empty slot) eqn:Ee.
  - destruct (place_of (default _ e)) as [s o] eqn:Es. change (slot !!! 0%nat =? ENTRY_FREE) with (is_free slot).
    destruct (is_free slot); [cbn [located]; by rewrite Es|].
    rewrite <- Es. change (Some (place_of ?n)) with (place_of <$> Some n). rewrite IH by lia. by rewrite En.
  - unfold is_file. rewrite Ee. cbn [negb andb]. destruct (has _ _); cbn [negb]; [rewrite IH by lia; by rewrite En|].
    unfold named. destruct (eq_ignore_ascii_case _ _); [|rewrite IH by lia; by rewrite En].
    rewrite entry_of_Ok by done. cbn [located]. by rewrite Ep.
Qed.

Lemma search_root_safe name_ a b e d F C L : holds v d F C L -> (a + b <= root_sectors v)%nat ->
  let r := search name_ (16 * a) (mjoin (map (slots_of L) (seq a b))) e in
  safe (search_root v name_ (seq a b) (place_of <$> e))
    (fun p d' => holds v d' F C L /\
       match r with inl found => p = located found | inr (Some n) => p = located (n, None) | inr None => False end)
    (fails flaky (fun d' => r = inr None /\ holds v d' F C L)) d.
Proof using Hflaky HL Hg.
  revert a e d. induction b as [|b IH]; intros a e d Hh Hb; cbn zeta; cbn [search_root seq map mjoin list_join].
  - cbn [search]. destruct e as [n|]; cbn [fmap option_fmap option_map].
    + unfold located. destruct (place_of n) as [s o]. by apply safe_ret.
    + apply safe_throw. by right.
  - eapply safe_bind; [eapply safe_mono; [apply (root_read_safe a d F C L Hh); lia| |]|].
    { intros x s H. exact H. } { intros s [?|[]]. by left. }
    intros buf d1 (_ & Esl & Hh1). rewrite Esl. unfold lift, mbind, io_bind.
    pose proof (directory_length d F C L Hh) as Hlen. pose proof (slots_of_length L a _ Hlen ltac:(lia)) as Hl16.
    pose proof (search_slots_search name_ a 0 (slots_of L a) e (slots_of_sizes L a (directory_sizes _ _ _ _ Hh))) as Es.
    rewrite Nat.add_0_r in Es. rewrite Es by lia.
    rewrite search_app. destruct (search name_ (16 * a) (slots_of L a) e) as [r|e'].
    + by apply safe_ret.
    + rewrite Hl16. replace (16 * a + 16)%nat with (16 * S a)%nat by lia. apply (IH (S a) e' d1 Hh1). lia.
Qed.

Lemma directory_slot_safe name_ d F C L : holds v d F C L ->
  let r := search name_ 0 L None in
  safe (directory_slot v name_)
    (fun p d' => holds v d' F C L /\
       match r with inl found => p = located found | inr (Some n) => p = located (n, None) | inr None => False end)
    (fails flaky (fun d' => r = inr None /\ holds v d' F C L)) d.
Proof using Hflaky HL Hg.
  intros Hh. pose proof (search_root_safe name_ 0 (root_sectors v) None d F C L Hh ltac:(lia)) as H.
  rewrite slots_of_join in H by (rewrite (directory_length d F C L Hh); lia).
  rewrite Nat.mul_0_r, drop_0, <- (directory_length d F C L Hh), take_ge in H by done. exact H.
Qed.

Lemma list_root_safe a b entries d F C L : holds v d F C L -> (a + b <= root_sectors v)%nat ->
  safe (list_root v (seq a b) entries)
    (fun l d' => holds v d' F C L /\ l = entries ++ map entry_at (files (mjoin (map (slots_of L) (seq a b)))).1)
    (fails flaky never) d.
Proof using Hflaky HL Hg.
  revert a entries d. induction b as [|b IH]; intros a entries d Hh Hb; cbn [list_root seq map mjoin list_join].
  - apply safe_ret. cbn. by rewrite app_nil_r.
  - eapply safe_bind; [apply (root_read_safe a d F C L Hh); lia|]. intros buf d1 (_ & Esl & Hh1). rewrite Esl.
    unfold lift, mbind, io_bind.
    rewrite list_slots_files by (apply slots_of_sizes, (directory_sizes _ _ _ _ Hh)). rewrite files_app.
    destruct (files (slots_of L a)) as [l ended]. cbn [fst snd]. destruct ended.
    + by apply safe_ret.
    + eapply safe_mono; [apply (IH (S a) _ d1 Hh1); lia| |done]. intros l' d2 [Hh2 ->]. cbn [fst]. by rewrite map_app, app_assoc.
Qed.

Lemma list_entries_safe d F C L : holds v d F C L ->
  safe (list_entries v) (fun l d' => holds v d' F C L /\ l = map entry_at (files L).1) (fails flaky never) d.
Proof using Hflaky HL Hg.
  intros Hh. pose proof (list_root_safe 0 (root_sectors v) [] d F C L Hh ltac:(lia)) as H.
  rewrite slots_of_join in H by (rewrite (directory_length d F C L Hh); lia).
  rewrite Nat.mul_0_r, drop_0, <- (directory_length d F C L Hh), take_ge in H by done. exact H.
Qed.

(** ** Writing a slot *)

Lemma write_slot_safe n bytes d F C L : table_fits v -> holds v d F C L -> (n < 16 * root_sectors v)%nat ->
  (length bytes <= 32)%nat -> Forall is_byte bytes ->
  safe (patch (place_of n).1 (place_of n).2 bytes)
    (fun _ d' => holds v d' F C (<[n := splice 0 bytes (L !!! n)]> L)) (fails flaky never) d.
Proof using Hflaky HL Hg.
  intros Hf Hh Hn Hlen Hb. unfold patch. pose proof (Nat.div_mod n 16 ltac:(done)) as Enm. pose proof (Nat.mod_upper_bound n 16 ltac:(done)) as Hj.
  cbn [place_of fst snd]. remember (n / 16)%nat as i eqn:Ei. remember (n mod 16)%nat as j eqn:Ej.
  assert (Hi : (i < root_sectors v)%nat) by lia. unfold DIRECTORY_ENTRY_SIZE.
  eapply safe_bind; [apply (root_read_safe i d F C L Hh Hi)|]. intros b d1 (Eb & Esl & Hh1).
  set (s := root_start v + Z.of_nat i) in *. assert (Hl : length b = 512%nat) by (rewrite Eb; apply sector_length).
  unfold lift, copy_into. rewrite (proj2 (Z.leb_le 0 _)), (proj2 (Z.leb_le _ (Z.of_nat (length b)))) by lia. cbn [andb].
  unfold mbind, io_bind. pose proof (data_start_bound v Hg). pose proof (ge_data _ Hg).
  eapply safe_mono; [apply (write_safe flaky Hflaky s 1)| |done]; try (unfold LBA_LIMIT; lia).
  - apply splice_bytes; [done|]. rewrite Eb. apply sector_bytes.
  - rewrite splice_length; lia.
  - intros u d2 [Hw Ho]. rewrite sectors_one in Hw. pose proof Hg as [_ _ ? ? ? Hroot _ _ _].
    pose proof Hh1 as [HF HC HLd]. constructor.
    + intros c Hc. rewrite <- HF by done. unfold fat_at. rewrite Ho; [done|..]; pose proof (fat_sector_bound v c Hf Hc); unfold LBA_LIMIT; nia.
    + intros c Hc. rewrite <- HC by done. apply cluster_same; [done..|]. intros x Hx. apply Ho; lia.
    + pose proof (directory_length d F C L Hh) as HlL. apply list_eq. intros p.
      destruct (decide (p < 16 * root_sectors v)%nat) as [Hp|Hp].
      2:{ rewrite !lookup_ge_None_2; [done|rewrite length_insert; lia|]. unfold directory_at.
          rewrite join_length by (intros; apply slots_at_length). lia. }
      assert (Hpi : (p / 16 < root_sectors v)%nat) by by apply Nat.Div0.div_lt_upper_bound.
      rewrite <- (slots_of_lookup (directory_at v d2) (p / 16) p eq_refl). unfold directory_at.
      rewrite join_slots by (done || (intros; apply slots_at_length)). unfold slots_at.
      destruct (decide (p / 16 = i)%nat) as [Epi|Epi].
      * rewrite Epi. fold s. rewrite Hw, slots_splice, Esl by done. pose proof (Nat.div_mod p 16 ltac:(done)) as Epm.
        assert (Hx : slots_of L i !!! j = L !!! n) by (rewrite !list_lookup_total_alt; subst j; by rewrite slots_of_lookup).
        rewrite Hx. pose proof (slots_of_length L i _ HlL Hi) as Hl16.
        destruct (decide (p = n)) as [->|Hne].
        -- rewrite <- Ej. rewrite !list_lookup_insert_eq by lia. done.
        -- rewrite !list_lookup_insert_ne by (done || (intros E; apply Hne; lia)). by apply slots_of_lookup.
      * rewrite Ho by (unfold LBA_LIMIT; lia). rewrite list_lookup_insert_ne by (by intros <-).
        rewrite <- (slots_of_lookup L (p / 16) p eq_refl), <- (holds_slots d1 F C L _ Hh1 Hpi). done.
Qed.
End directory.
