(* ===== verification/FatFile.v ===== *)
(** * Chains of clusters

    Reading, claiming, writing, linking and freeing the clusters of a file:
    what each loop of [kernel/src/fat.rs] does to the table and the clusters. *)

From stdpp Require Import functions.
From S2P Require Import Prelude Bytes Disk Fat FatTable.

#[local] Arguments Z.mul : simpl never.
#[local] Arguments Z.add : simpl never.
#[local] Arguments Nat.mul : simpl never.

(** [l] is a chain of the table [F]: each cluster's entry is the next one,
    and the last one's says so. *)
Fixpoint linked (F : Z -> Z) (l : list Z) : Prop :=
  match l with
  | [] => True
  | x :: l => (match l with [] => END_OF_CHAIN <= F x < 65536 | y :: _ => F x = y end) /\ linked F l
  end.

Lemma linked_ext F F' l : (forall x, x ∈ l -> F' x = F x) -> linked F l -> linked F' l.
Proof.
  induction l as [|x l IH]; intros H; [done|]. cbn. intros [Hx Hl]. split.
  - rewrite H by left. done.
  - apply IH; [|done]. intros y Hy. apply H. by right.
Qed.

(** The entry of the [i]th cluster of a chain. *)
Definition link_value (l : list Z) (i : nat) : Z := if (i + 1 =? length l)%nat then 65535 else l !!! (i + 1)%nat.

Lemma linked_values F l : (forall i, (i < length l)%nat -> F (l !!! i) = link_value l i) -> linked F l.
Proof.
  induction l as [|x l IH]; intros H; [done|]. cbn [linked]. split.
  - pose proof (H 0%nat ltac:(cbn; lia)) as H0. change ((x :: l) !!! 0%nat) with x in H0. rewrite H0. unfold link_value.
    destruct l as [|y l]; [cbn; unfold END_OF_CHAIN; lia|]. done.
  - apply IH. intros i Hi. specialize (H (S i) ltac:(cbn; lia)). change ((x :: l) !!! S i) with (l !!! i) in H. rewrite H.
    unfold link_value. cbn [length Nat.add]. done.
Qed.

(** A file's bytes over its clusters. *)
Definition contents (C : Z -> list Z) (l : list Z) (n : Z) : list Z := take (Z.to_nat n) (mjoin (map C l)).

Definition all_clusters (v : Volume) : list Z := map (fun i => 2 + Z.of_nat i) (seq 0 (Z.to_nat (clusters v))).
Definition free_clusters (v : Volume) (F : Z -> Z) : list Z := filter (fun c => F c = 0) (all_clusters v).

Lemma elem_of_all_clusters v c : c ∈ all_clusters v <-> valid v c.
Proof.
  unfold all_clusters, valid. rewrite list_elem_of_fmap. split.
  - intros (i & -> & Hi%elem_of_seq). lia.
  - intros Hc. exists (Z.to_nat (c - 2)). rewrite elem_of_seq. lia.
Qed.

Lemma elem_of_free v F c : c ∈ free_clusters v F <-> valid v c /\ F c = 0.
Proof. unfold free_clusters. rewrite list_elem_of_filter, elem_of_all_clusters. tauto. Qed.

Lemma all_clusters_NoDup v : NoDup (all_clusters v).
Proof. unfold all_clusters. apply NoDup_fmap; [intros i j; lia|apply NoDup_seq]. Qed.

Lemma valid_length v l : Forall (valid v) l -> NoDup l -> Z.of_nat (length l) <= Z.max 0 (clusters v).
Proof.
  intros Hv Hnd. assert (Hle : (length l <= length (all_clusters v))%nat).
  { apply submseteq_length, NoDup_submseteq; [done|]. intros c Hc. rewrite Forall_forall in Hv. by apply elem_of_all_clusters, Hv. }
  unfold all_clusters in Hle. rewrite length_map, length_seq in Hle. lia.
Qed.

Section file.
Context {D : Type} `{HL : DiskLaws D}.
Context (flaky : Prop) (Hflaky : flaky \/ Reliable D).
Context (v : Volume) (Hg : geometry v).

Lemma volume_ext d F F' C C' L : (forall c, valid v c -> F' c = F c) -> (forall c, valid v c -> C' c = C c) ->
  holds v d F C L -> holds v d F' C' L.
Proof using Type. intros HF HC [H1 H2 H3]. constructor; [intros c Hc; rewrite HF by done; by apply H1|intros c Hc; rewrite HC by done; by apply H2|done]. Qed.

Lemma cluster_length d F C L c : holds v d F C L -> valid v c -> Z.of_nat (length (C c)) = cluster_bytes v.
Proof using HL Hg.
  intros Hh Hc. rewrite <- (ho_cluster _ _ _ _ _ Hh c Hc). unfold cluster_at. rewrite sectors_length by apply sector_length.
  unfold cluster_bytes. rewrite (ge_bytes _ Hg). pose proof (ge_cluster _ Hg). lia.
Qed.

Lemma cluster_bytes_pos : 0 < cluster_bytes v.
Proof using Hg. unfold cluster_bytes. rewrite (ge_bytes _ Hg). pose proof (ge_cluster _ Hg). lia. Qed.

(** ** Reading *)

Lemma read_chain_safe F C L l : forall budget d w data,
  holds v d F C L -> l <> [] -> linked F l -> Forall (valid v) l -> (length l <= budget)%nat ->
  0 <= w < Z.of_nat (length data) -> Z.of_nat (length data) - w <= cluster_bytes v * Z.of_nat (length l) ->
  safe (read_chain v budget (hd 0 l) w data)
    (fun r d' => r = take (Z.to_nat w) data ++ contents C l (Z.of_nat (length data) - w) /\ holds v d' F C L) (fails flaky never) d.
Proof using Hflaky HL Hg.
  induction l as [|x l IH]; intros budget d w data Hh Hne Hlk Hval Hbud Hw Hlen; [done|]. apply Forall_cons in Hval as [Hx Hval].
  destruct budget as [|budget]; [cbn in Hbud; lia|]. cbn [hd read_chain]. pose proof cluster_bytes_pos as Hcb.
  assert (Ev : (x <? 2) || (clusters v + 2 <=? x) = false).
  { unfold valid in Hx. apply orb_false_iff. split; [apply Z.ltb_ge; lia|apply Z.leb_gt; lia]. }
  rewrite Ev. eapply safe_bind; [by apply (read_cluster_safe flaky Hflaky v Hg x d F C L)|]. intros b d1 [-> Hh1].
  pose proof (cluster_length d F C L x Hh Hx) as HCx. rewrite HCx. cbv zeta.
  set (n := Z.of_nat (length data)) in *. set (wanted := Z.min (n - w) (cluster_bytes v)).
  unfold lift at 1. rewrite slice_Ok by lia. rewrite Z.sub_0_r. change (Z.to_nat 0) with 0%nat. rewrite drop_0.
  set (part := take (Z.to_nat wanted) (C x)). assert (Hpart : Z.of_nat (length part) = wanted) by (unfold part; rewrite length_take; lia).
  unfold mbind at 1, io_bind at 1. unfold lift at 1, copy_into.
  rewrite (proj2 (Z.leb_le 0 w)), (proj2 (Z.leb_le _ n)) by lia. cbn [andb]. unfold mbind at 1, io_bind at 1.
  assert (Hlen' : length (splice w part data) = length data) by (apply splice_length; lia).
  assert (Htake : take (Z.to_nat (w + wanted)) (splice w part data) = take (Z.to_nat w) data ++ part).
  { unfold splice. rewrite app_assoc, take_app_length'; [done|]. rewrite length_app, length_take. lia. }
  rewrite Hlen'. fold n. destruct (Z.leb_spec n (w + wanted)) as [Hend|Hend].
  - apply safe_ret. split; [|done]. unfold contents. cbn [map mjoin list_join].
    rewrite take_app_le by lia. replace (Z.to_nat (n - w)) with (Z.to_nat wanted) by lia. fold part. rewrite <- Htake.
    rewrite take_ge by (rewrite Hlen'; lia). done.
  - assert (Ew : wanted = cluster_bytes v) by lia.
    destruct l as [|y l]; [cbn [length] in Hlen; lia|]. cbn [linked] in Hlk. destruct Hlk as [Hxy Hlk].
    eapply safe_bind; [by apply (next_cluster_safe flaky Hflaky v Hg x d1 F C L)|]. intros nx d2 (-> & _ & Hh2).
    rewrite Hxy. pose proof (Forall_inv Hval) as Hy. assert (Ey : (END_OF_CHAIN <=? y) = false).
    { apply Z.leb_gt. unfold valid, END_OF_CHAIN in *. pose proof (ge_clusters _ Hg). lia. }
    rewrite Ey. change y with (hd 0 (y :: l)) at 1.
    eapply safe_mono; [apply (IH budget d2 (w + wanted) (splice w part data) Hh2); try done| |done].
    + cbn [length] in *. lia.
    + rewrite Hlen'. fold n. lia.
    + rewrite Hlen'. fold n. cbn [length] in *. lia.
    + intros r d3 [-> Hh3]. split; [|done]. rewrite Htake, Hlen'. fold n. rewrite <- app_assoc. f_equal.
      unfold contents. cbn [map mjoin list_join]. assert (Ep : part = C x) by (unfold part; apply take_ge; lia). rewrite Ep.
      replace (Z.to_nat (n - w)) with (length (C x) + Z.to_nat (n - (w + wanted)))%nat by lia. by rewrite take_app_add.
Qed.

(** ** Claiming clusters *)

Lemma free_from_safe F C L count : forall c d, holds v d F C L -> 2 <= c -> c + Z.of_nat count = clusters v + 2 ->
  safe (free_from v count c)
    (fun r d' => holds v d' F C L /\ c <= r < clusters v + 2 /\ F r = 0 /\ forall x, c <= x < r -> F x <> 0)
    (fails flaky (fun d' => (forall x, c <= x < clusters v + 2 -> F x <> 0) /\ holds v d' F C L)) d.
Proof using Hflaky HL Hg.
  induction count as [|count IH]; intros c d Hh H2 Hc; cbn [free_from].
  - apply safe_throw. right. split; [lia|done].
  - assert (Hv : valid v c) by (unfold valid; lia).
    eapply safe_bind; [eapply safe_mono; [by apply (next_cluster_safe flaky Hflaky v Hg c d F C L)| |]|].
    { intros n s H. exact H. } { intros s [?|[]]. by left. }
    intros n d1 (-> & _ & Hh1). destruct (Z.eqb_spec (F c) 0) as [E|E].
    + apply safe_ret. split_and!; try done; lia.
    + eapply safe_mono; [apply (IH (c + 1) d1 Hh1); lia| |].
      * intros r d2 (Hh2 & Hr & HF & Hlo). split_and!; try done; try lia. intros x Hx.
        destruct (decide (x = c)) as [->|]; [done|]. apply Hlo. lia.
      * intros s [?|[Hno Hs]]; [by left|]. right. split; [|done]. intros x Hx. destruct (decide (x = c)) as [->|]; [done|]. apply Hno. lia.
Qed.

(** The clusters claimed so far, and nothing free before the next search. *)
Record claimed (F : Z -> Z) (l : list Z) (from : Z) : Prop := {
  cl_valid : Forall (valid v) l;
  cl_nodup : NoDup l;
  cl_free x : x ∈ l -> F x = 0;
  cl_below x : valid v x -> x < from -> F x = 0 -> x ∈ l;
  cl_from : (forall x, x ∈ l -> x < from) /\ 2 <= from <= clusters v + 2
}.

Definition marked (l : list Z) (F : Z -> Z) : Z -> Z := fun c => if decide (c ∈ l) then 65535 else F c.

Lemma claim_safe F C L needed : forall from l d, table_fits v -> claimed F l from -> holds v d (marked l F) C L ->
  safe (claim v needed from l)
    (fun l' d' => holds v d' (marked l' F) C L /\ length l' = (length l + needed)%nat /\
       Forall (valid v) l' /\ NoDup l' /\ forall x, x ∈ l' -> F x = 0)
    (fails flaky (fun d' => (length (free_clusters v F) < length l + needed)%nat /\
       exists l', Forall (fun x => F x = 0) l' /\ holds v d' (marked l' F) C L)) d.
Proof using Hflaky HL Hg.
  induction needed as [|needed IH]; intros from l d Hf [Hval Hnd Hfr Hbel [Hlt Hfrom]] Hh; cbn [claim].
  - apply safe_ret. split_and!; try done; lia.
  - pose proof (ge_clusters _ Hg). unfold find_free_cluster. rewrite Z.max_l by lia.
    rewrite (wrap_small 16 (clusters v + 2)) by (unfold in_u; change (2 ^ 16) with 65536; lia).
    eapply safe_bind; [eapply safe_mono; [apply (free_from_safe (marked l F) C L _ from d Hh); lia| |]|].
    { intros r s H'. exact H'. }
    { intros s [?|[Hno Hs]]; [by left|]. right. split; [|exists l; split; [by apply Forall_forall|done]].
      assert (Hle : (length (free_clusters v F) <= length l)%nat); [|lia].
      apply submseteq_length, NoDup_submseteq; [apply NoDup_filter, all_clusters_NoDup|]. intros x [Hx HFx]%elem_of_free.
      destruct (decide (x < from)) as [|Hge]; [by apply Hbel|]. destruct (decide (x ∈ l)) as [|Hn]; [done|].
      exfalso. apply (Hno x); [unfold valid in Hx; lia|]. unfold marked. by rewrite decide_False. }
    intros r d1 (Hh1 & Hr & HFr & Hlo). assert (Hrl : r ∉ l) by (intros Hin; specialize (Hlt r Hin); lia).
    assert (Hrv : valid v r) by (unfold valid; lia). unfold marked in HFr. rewrite decide_False in HFr by done.
    eapply safe_bind; [eapply safe_mono; [apply (set_fat_entry_safe flaky Hflaky v Hg r 65535 d1 _ _ _ Hf Hh1 Hrv); lia| |]|].
    { intros u s H'. exact H'. } { intros s [?|[]]. by left. }
    intros u d2 Hh2. rewrite wrap_small by (unfold in_u; change (2 ^ 16) with 65536; lia).
    eapply safe_mono; [apply (IH (r + 1) (l ++ [r]) d2 Hf)| |].
    + constructor.
      * apply Forall_app. split; [done|]. by constructor.
      * apply NoDup_app. split_and!; [done| |apply NoDup_singleton]. by intros x Hx ->%list_elem_of_singleton.
      * intros x [Hx| ->%list_elem_of_singleton]%elem_of_app; [by apply Hfr|done].
      * intros x Hx Hxr HFx. apply elem_of_app. rewrite list_elem_of_singleton.
        destruct (decide (x ∈ l)) as [|Hn]; [by left|]. right.
        destruct (decide (x < from)) as [|Hge]; [by destruct Hn; apply Hbel|]. destruct (decide (x = r)) as [|Hne]; [done|].
        exfalso. apply (Hlo x); [lia|]. unfold marked. by rewrite decide_False.
      * split; [|lia]. intros x [Hx| ->%list_elem_of_singleton]%elem_of_app; [specialize (Hlt x Hx)|]; lia.
    + eapply volume_ext; [| |exact Hh2]; [|done]. intros c _. unfold marked. destruct (decide (c = r)) as [->|Hne].
      * rewrite fn_lookup_insert, decide_True; [done|]. apply elem_of_app. right. by apply list_elem_of_singleton.
      * rewrite fn_lookup_insert_ne by done. destruct (decide (c ∈ l)).
        -- rewrite decide_True; [done|]. apply elem_of_app. by left.
        -- rewrite decide_False; [done|]. by rewrite elem_of_app, list_elem_of_singleton; intros [?|?].
    + intros l' d3 (? & Hl & ? & ? & ?). split_and!; try done. rewrite Hl, length_app. cbn. lia.
    + intros s [?|[Hlt' ?]]; [by left|]. right. rewrite length_app in Hlt'. cbn in Hlt'. split; [lia|done].
Qed.

(** ** Writing a chain *)

Lemma piece_length data i : Z.of_nat (length (piece v data i)) = cluster_bytes v.
Proof using Hg.
  pose proof cluster_bytes_pos. unfold piece. rewrite length_app, length_replicate, length_take, length_drop. lia.
Qed.

Lemma piece_bytes data i : Forall is_byte data -> Forall is_byte (piece v data i).
Proof using Type.
  intros Hb. unfold piece. apply Forall_app. split; [by apply Forall_take, Forall_drop|].
  apply Forall_replicate. unfold is_byte. lia.
Qed.

(** The pieces make up the data, and zeroes. *)
Lemma pieces_join data a n : let size := Z.to_nat (cluster_bytes v) in
  mjoin (map (piece v data) (seq a n)) =
    take (n * size) (drop (a * size) data) ++ replicate (n * size - length (drop (a * size) data)) 0.
Proof using Hg.
  intros size. revert a. induction n as [|n IH]; intros a; [done|]. cbn [seq map mjoin list_join].
  rewrite IH. unfold piece. fold size. replace (S a * size)%nat with (a * size + size)%nat by lia. rewrite <- drop_drop.
  set (X := drop (a * size) data). replace (S n * size)%nat with (size + n * size)%nat by lia.
  rewrite !length_take, !length_drop. destruct (decide (length X < size)%nat) as [Hx|Hx].
  - rewrite (take_ge X size), (take_ge X (size + _)), (drop_ge X) by lia. rewrite take_nil. cbn [app].
    rewrite <- app_assoc, <- replicate_add. do 2 f_equal. lia.
  - rewrite Nat.min_l by lia. rewrite Nat.sub_diag. cbn [replicate]. rewrite app_nil_r, app_assoc. f_equal.
    + rewrite <- (take_drop size X) at 3. rewrite take_app_add' by (rewrite length_take; lia). done.
    + f_equal. lia.
Qed.

(** [write_chain] on a fresh chain: the pieces, in order, and the links. *)
Lemma write_pieces_safe F C L l data d : table_fits v -> Forall is_byte data -> Forall (valid v) l -> NoDup l -> holds v d F C L ->
  safe (for_each (imap pair l) (fun '(index, cluster) => write (cluster_to_sector v cluster) (piece v data index)))
    (fun _ d' => exists C', holds v d' F C' L /\ (forall i x, l !! i = Some x -> C' x = piece v data i) /\
       forall c, c ∉ l -> C' c = C c) (fails flaky never) d.
Proof using Hflaky HL Hg.
  intros Hf Hb Hval Hnd Hh.
  eapply safe_mono; [apply (safe_for_each _ (fun (done_ : list (nat * Z)) d' => exists C', holds v d' F C' L /\
      (forall i x, (i, x) ∈ done_ -> C' x = piece v data i) /\ forall c, c ∉ l -> C' c = C c))| |done].
  - intros done_ [i x] rest d1 E (C1 & Hh1 & Hp & Ho).
    assert (Hin : forall j y, (j, y) ∈ imap pair l <-> l !! j = Some y).
    { intros j y. rewrite list_elem_of_lookup. split.
      - intros (m & Hm). rewrite list_lookup_imap in Hm. destruct (l !! m) as [z|] eqn:Ez; [|done]. cbn in Hm. by injection Hm as <- <-.
      - intros Hy. exists j. by rewrite list_lookup_imap, Hy. }
    assert (Hix : l !! i = Some x) by (apply Hin; rewrite E; set_solver).
    assert (Hx : valid v x) by (rewrite Forall_forall in Hval; apply Hval; by eapply list_elem_of_lookup_2).
    eapply safe_mono; [apply (write_cluster_safe flaky Hflaky v Hg x _ d1 F C1 L Hf Hh1 Hx)| |done].
    + by apply piece_bytes.
    + apply piece_length.
    + intros u d2 Hh2. exists (<[x := piece v data i]> C1). split; [done|]. split.
      * intros j y [Hjy|[= -> ->]%list_elem_of_singleton]%elem_of_app; [|by rewrite fn_lookup_insert].
        assert (Hy : l !! j = Some y) by (apply Hin; rewrite E; set_solver).
        destruct (decide (y = x)) as [->|Hne]; [|rewrite fn_lookup_insert_ne by done; by apply Hp].
        rewrite fn_lookup_insert. f_equal. by eapply NoDup_lookup.
      * intros c Hc. rewrite fn_lookup_insert_ne; [by apply Ho|]. intros ->. apply Hc. by eapply list_elem_of_lookup_2.
  - exists C. split_and!; try done. intros i x Hx. by apply not_elem_of_nil in Hx.
  - intros u d' (C' & Hh' & Hp & Ho). exists C'. split_and!; try done. intros i x Hix. apply Hp.
    apply list_elem_of_lookup. exists i. by rewrite list_lookup_imap, Hix.
Qed.

Lemma link_value_bound l i : Forall (valid v) l -> (i < length l)%nat -> 0 <= link_value l i < 65536.
Proof using Hg.
  intros Hval Hi. unfold link_value. destruct (Nat.eqb_spec (i + 1) (length l)); [lia|].
  assert (Hv : valid v (l !!! (i + 1)%nat)).
  { rewrite Forall_forall in Hval. apply Hval. apply list_elem_of_lookup_2 with (i + 1)%nat. apply list_lookup_lookup_total_lt. lia. }
  unfold valid in Hv. pose proof (ge_clusters _ Hg). lia.
Qed.

Lemma link_chain_safe F C L l d : table_fits v -> Forall (valid v) l -> NoDup l -> holds v d F C L ->
  safe (for_each (rev (seq 0 (length l))) (fun index => set_fat_entry v (l !!! index) (link_value l index)))
    (fun _ d' => exists F', holds v d' F' C L /\ linked F' l /\ forall c, c ∉ l -> F' c = F c) (fails flaky never) d.
Proof using Hflaky HL Hg.
  intros Hf Hval Hnd Hh.
  assert (Hrange : forall i, i ∈ rev (seq 0 (length l)) <-> (i < length l)%nat).
  { intros i. rewrite list_elem_of_In, <- in_rev, in_seq. lia. }
  eapply safe_mono; [apply (safe_for_each _ (fun (done_ : list nat) d' => exists F', holds v d' F' C L /\
      (forall i, i ∈ done_ -> F' (l !!! i) = link_value l i) /\ forall c, c ∉ l -> F' c = F c))| |done].
  - intros done_ i rest d1 E (F1 & Hh1 & Hp & Ho).
    assert (Hi : (i < length l)%nat) by (apply Hrange; rewrite E; set_solver).
    assert (Hl : l !! i = Some (l !!! i)) by by apply list_lookup_lookup_total_lt.
    assert (Hx : valid v (l !!! i)) by (rewrite Forall_forall in Hval; apply Hval; by eapply list_elem_of_lookup_2).
    eapply safe_mono; [apply (set_fat_entry_safe flaky Hflaky v Hg _ _ d1 F1 C L Hf Hh1 Hx); by apply link_value_bound| |done].
    intros u d2 Hh2. eexists. split; [exact Hh2|]. split.
    + intros j Hj. apply elem_of_app in Hj as [Hj| ->%list_elem_of_singleton]; [|by rewrite fn_lookup_insert].
      assert (Hjl : (j < length l)%nat) by (apply Hrange; rewrite E; set_solver).
      destruct (decide (l !!! j = l !!! i)) as [Eji|Hne]; [|rewrite fn_lookup_insert_ne by done; by apply Hp].
      rewrite Eji, fn_lookup_insert. f_equal. apply (NoDup_lookup l _ _ (l !!! i) Hnd Hl). rewrite <- Eji.
      by apply list_lookup_lookup_total_lt.
    + intros c Hc. rewrite fn_lookup_insert_ne; [by apply Ho|]. intros <-. apply Hc. by eapply list_elem_of_lookup_2.
  - exists F. split_and!; try done. intros i Hi. by apply not_elem_of_nil in Hi.
  - intros u d' (F' & Hh' & Hp & Ho). exists F'. split_and!; try done. apply linked_values. intros i Hi. apply Hp. by apply Hrange.
Qed.

Definition needed (n : Z) : Z := Z.max (div_ceil n (cluster_bytes v)) 1.

(** A new chain that holds the data, made of clusters that were free. *)
Record written (F F' : Z -> Z) (C C' : Z -> list Z) (l data : list Z) : Prop := {
  wr_valid : Forall (valid v) l;
  wr_nodup : NoDup l;
  wr_free x : x ∈ l -> F x = 0;
  wr_linked : linked F' l;
  wr_length : Z.of_nat (length l) = needed (Z.of_nat (length data));
  wr_contents : contents C' l (Z.of_nat (length data)) = data;
  wr_table c : c ∉ l -> F' c = F c;
  wr_clusters c : c ∉ l -> C' c = C c
}.

Lemma needed_enough n : 0 <= n -> n <= cluster_bytes v * needed n /\ 1 <= needed n.
Proof using Hg.
  intros Hn. pose proof cluster_bytes_pos. unfold needed, div_ceil.
  pose proof (Z.div_mod (n + cluster_bytes v - 1) (cluster_bytes v)).
  pose proof (Z.mod_pos_bound (n + cluster_bytes v - 1) (cluster_bytes v)). nia.
Qed.

Lemma write_chain_safe F C L data d : table_fits v -> Forall is_byte data -> holds v d F C L ->
  safe (write_chain v data)
    (fun first d' => exists l F' C', holds v d' F' C' L /\ hd 0 l = first /\ written F F' C C' l data)
    (fails flaky (fun d' => Z.of_nat (length (free_clusters v F)) < needed (Z.of_nat (length data)) /\
       exists l', Forall (fun x => F x = 0) l' /\ holds v d' (marked l' F) C L)) d.
Proof using Hflaky HL Hg.
  intros Hf Hb Hh. unfold write_chain. fold (needed (Z.of_nat (length data))). set (n := needed _).
  destruct (needed_enough (Z.of_nat (length data)) ltac:(lia)) as [Hn1 Hn2]. fold n in Hn1, Hn2.
  eapply safe_bind; [eapply safe_mono; [apply (claim_safe F C L (Z.to_nat n) 2 [] d Hf)| |]|].
  - constructor; [constructor|constructor| | |].
    + intros x Hx. by apply not_elem_of_nil in Hx.
    + intros x Hx. unfold valid in Hx. lia.
    + split; [|pose proof (ge_clusters _ Hg); lia]. intros x Hx. by apply not_elem_of_nil in Hx.
  - eapply volume_ext; [| |exact Hh]; [|done]. intros c _. unfold marked. rewrite decide_False; [done|]. apply not_elem_of_nil.
  - intros l d1 H. exact H.
  - intros s [?|[Hlt ?]]; [by left|]. right. cbn in Hlt. split; [lia|done].
  - intros l d1 (Hh1 & Hlen & Hval & Hnd & Hfr). cbn in Hlen.
    eapply safe_bind; [eapply safe_mono; [by apply (write_pieces_safe _ C L l data d1 Hf Hb Hval Hnd Hh1)|intros u s H; exact H|]|].
    { intros s [?|[]]. by left. }
    intros u d2 (C2 & Hh2 & Hp & Ho).
    eapply safe_bind; [eapply safe_mono; [by apply (link_chain_safe _ C2 L l d2 Hf Hval Hnd Hh2)|intros u' s H; exact H|]|].
    { intros s [?|[]]. by left. }
    intros u' d3 (F3 & Hh3 & Hlk & HoF). destruct l as [|first l']; [cbn in Hlen; lia|]. apply safe_ret.
    exists (first :: l'), F3, C2. split; [done|]. split; [done|]. set (l := first :: l') in *. constructor; try done.
    + lia.
    + unfold contents. assert (Em : map C2 l = map (piece v data) (seq 0 (length l))).
      { apply list_eq. intros i. change (map ?f ?x) with (f <$> x). rewrite !list_lookup_fmap.
        destruct (l !! i) as [x|] eqn:Ei.
        - rewrite lookup_seq_lt by by eapply lookup_lt_Some. cbn. by rewrite (Hp i x).
        - rewrite lookup_seq_ge by by apply lookup_ge_None. done. }
      rewrite Em, pieces_join. rewrite Nat.mul_0_l, drop_0, Nat2Z.id. pose proof cluster_bytes_pos.
      rewrite (take_ge data) by nia. by rewrite take_app_length.
    + intros c Hc. rewrite HoF by done. unfold marked. by rewrite decide_False.
Qed.

(** ** Freeing *)

Definition freed (l : list Z) (F : Z -> Z) : Z -> Z := fun c => if decide (c ∈ l) then 0 else F c.

Lemma free_loop_safe C L l : forall F budget c d, table_fits v -> holds v d F C L -> linked F l -> Forall (valid v) l -> NoDup l ->
  (length l <= budget)%nat -> match l with [] => END_OF_CHAIN <= c | x :: _ => c = x end ->
  safe (free_loop v budget c) (fun _ d' => holds v d' (freed l F) C L) (fails flaky never) d.
Proof using Hflaky HL Hg.
  induction l as [|x l IH]; intros F budget c d Hf Hh Hlk Hval Hnd Hbud Hc.
  - assert (E : free_loop (D := D) v budget c = mret tt).
    { destruct budget; cbn [free_loop]; rewrite (proj2 (Z.ltb_ge c END_OF_CHAIN)) by done; by rewrite andb_false_r. }
    rewrite E. apply safe_ret. eapply volume_ext; [| |exact Hh]; [|done]. intros y _. unfold freed. rewrite decide_False; [done|].
    apply not_elem_of_nil.
  - subst c. destruct budget as [|budget]; [cbn in Hbud; lia|]. apply Forall_cons in Hval as [Hx Hval].
    apply NoDup_cons in Hnd as [Hxl Hnd]. destruct Hlk as [Hnext Hlk]. cbn [free_loop].
    assert (Ev : (2 <=? x) && (x <? END_OF_CHAIN) = true).
    { unfold valid, END_OF_CHAIN in *. pose proof (ge_clusters _ Hg). apply andb_true_iff. split; [apply Z.leb_le|apply Z.ltb_lt]; lia. }
    rewrite Ev. eapply safe_bind; [by apply (next_cluster_safe flaky Hflaky v Hg x d F C L)|]. intros n d1 (-> & _ & Hh1).
    eapply safe_bind; [apply (set_fat_entry_safe flaky Hflaky v Hg x 0 d1 F C L Hf Hh1 Hx); lia|]. intros u d2 Hh2.
    assert (Hother : forall y, y ∈ l -> (<[x := 0]> F) y = F y).
    { intros y Hy. rewrite fn_lookup_insert_ne; [done|]. by intros ->. }
    eapply safe_mono; [apply (IH (<[x := 0]> F) budget (F x) d2 Hf Hh2); try done| |done].
    + by apply (linked_ext F).
    + cbn [length] in Hbud. lia.
    + destruct l as [|y l]; [lia|done].
    + intros u' d3 Hh3. eapply volume_ext; [| |exact Hh3]; [|done]. intros c _. unfold freed.
      destruct (decide (c = x)) as [->|Hne].
      * rewrite (decide_False (P := x ∈ l)), decide_True by (done || left). by rewrite fn_lookup_insert.
      * rewrite fn_lookup_insert_ne by done. destruct (decide (c ∈ l)).
        -- rewrite decide_True by by right. done.
        -- rewrite decide_False; [done|]. by intros [?|?]%elem_of_cons.
Qed.
End file.
