(* ===== verification/FatSpec.v ===== *)
(** * A volume is a map from names to contents

    [represents v d m] says that the disk [d] holds a consistent volume whose
    files are the map [m].  [find] and [read_file] look names up in it,
    [create] is insertion and [remove] is deletion. *)

From stdpp Require Import functions.
From S2P Require Import Prelude Bytes Disk Fat FatTable FatDir FatFile.

#[local] Arguments Z.mul : simpl never.
#[local] Arguments Z.add : simpl never.
#[local] Arguments Nat.mul : simpl never.

(** ** Names *)

(** Names are compared without case. *)
Definition key (name_ : list Z) : list Z := map to_ascii_uppercase name_.

(** A name that fits a directory entry and comes back from it: printable
    characters, no trailing dot, 8.3. *)
Record plain (name_ : list Z) : Prop := {
  pl_bytes : Forall (fun b => 33 <= b <= 126) name_;
  pl_dot : last name_ <> Some 46;
  pl_stem : (split_name name_).1 <> [] /\ (length (split_name name_).1 <= 8)%nat;
  pl_extension : (length (split_name name_).2 <= 3)%nat
}.

Lemma eq_ignore_key a b : eq_ignore_ascii_case a b = true <-> key a = key b.
Proof. apply bool_decide_eq_true. Qed.

Lemma upper_plain b : 33 <= b <= 126 -> 33 <= to_ascii_uppercase b <= 126.
Proof. unfold to_ascii_uppercase. destruct (Z.leb_spec 97 b), (Z.leb_spec b 122); cbn [andb]; lia. Qed.

Lemma upper_upper b : to_ascii_uppercase (to_ascii_uppercase b) = to_ascii_uppercase b.
Proof.
  unfold to_ascii_uppercase at 2 3. destruct (Z.leb_spec 97 b), (Z.leb_spec b 122); cbn [andb]; unfold to_ascii_uppercase;
    [destruct (Z.leb_spec 97 (b - 32)); cbn [andb]; lia|..];
    destruct (Z.leb_spec 97 b), (Z.leb_spec b 122); cbn [andb]; lia.
Qed.

Lemma key_key a : key (key a) = key a.
Proof. unfold key. rewrite map_map. apply map_ext. intros. apply upper_upper. Qed.

Lemma rsplit_Some dot l a b : rsplit_once dot l = Some (a, b) -> l = a ++ dot :: b.
Proof.
  revert a b. induction l as [|x l IH]; intros a b; cbn; [done|]. destruct (rsplit_once dot l) as [[a' b']|].
  - intros [= <- <-]. cbn. f_equal. by apply IH.
  - destruct (Z.eqb_spec x dot) as [->|]; [|done]. by intros [= <- <-].
Qed.

(** A name is its parts. *)
Lemma split_join name_ : plain name_ ->
  let '(stem, extension) := split_name name_ in
  name_ = stem ++ (if bool_decide (extension = []) then [] else 46 :: extension) /\
  Forall (fun b => 33 <= b <= 126) stem /\ Forall (fun b => 33 <= b <= 126) extension.
Proof.
  intros [Hb Hd _ _]. unfold split_name. destruct (rsplit_once 46 name_) as [[stem extension]|] eqn:E.
  - pose proof (rsplit_Some _ _ _ _ E) as ->. apply Forall_app in Hb as [Hs [_ He]%Forall_cons]. split; [|done].
    case_bool_decide as Hx; [|done]. subst extension. by rewrite last_snoc in Hd.
  - rewrite bool_decide_true by done. by rewrite app_nil_r.
Qed.

Lemma filter_all {A} (P : A -> Prop) `{forall x, Decision (P x)} (l : list A) : Forall P l -> filter P l = l.
Proof. induction 1 as [|x l Hx _ IH]; [done|]. rewrite filter_cons, decide_True by done. by rewrite IH. Qed.

Lemma filter_none {A} (P : A -> Prop) `{forall x, Decision (P x)} (l : list A) : Forall (fun x => ~ P x) l -> filter P l = [].
Proof. induction 1 as [|x l Hx _ IH]; [done|]. by rewrite filter_cons, decide_False. Qed.

(** One field of the entry: padded with spaces, it reads back. *)
Lemma letters_padded l n : Forall (fun b => 33 <= b <= 126) l ->
  mjoin (map push_char (filter (fun b => b <> 32) (map to_ascii_uppercase l ++ replicate n 32))) = key l.
Proof.
  intros Hl. rewrite filter_app, filter_all, filter_none, app_nil_r.
  - induction Hl as [|b l Hb Hl IH]; [done|]. cbn [map mjoin list_join]. pose proof (upper_plain b Hb).
    unfold push_char at 1. rewrite (proj2 (Z.ltb_lt _ _)) by lia. cbn. f_equal. exact IH.
  - apply Forall_replicate. intros Hn. by apply Hn.
  - apply Forall_map. eapply Forall_impl; [exact Hl|]. intros b Hb. pose proof (upper_plain b Hb). lia.
Qed.

Section encoded.
Context (stem extension : list Z) (first size_ : Z).
Context (Hs : Forall (fun b => 33 <= b <= 126) stem) (He : Forall (fun b => 33 <= b <= 126) extension).
Context (Hne : stem <> []) (Hls : (length stem <= 8)%nat) (Hle : (length extension <= 3)%nat).
Context (Hfirst : 0 <= first < 65536) (Hsize : 0 <= size_ < 2 ^ 32).

Let slot := encode_slot stem extension first size_.

Lemma encoded_length : length slot = 32%nat.
Proof using All. unfold slot, encode_slot. rewrite !length_app, !length_map, !length_replicate, !le_length. cbn [length]. lia. Qed.

Lemma encoded_bytes : Forall is_byte slot.
Proof using All.
  assert (Hup : forall l, Forall (fun b => 33 <= b <= 126) l -> Forall is_byte (map to_ascii_uppercase l)).
  { intros l Hl. apply Forall_map. eapply Forall_impl; [exact Hl|]. intros b Hb. pose proof (upper_plain b Hb). unfold is_byte. lia. }
  unfold slot, encode_slot. repeat (apply Forall_app; split); try apply le_bytes; try (by apply Hup);
    try (apply Forall_replicate; unfold is_byte; lia). repeat constructor; unfold is_byte; lia.
Qed.

Lemma encoded_name : decode_name slot = key stem ++ (if bool_decide (extension = []) then [] else 46 :: key extension).
Proof using All.
  unfold decode_name, slot, encode_slot.
  assert (H8 : length (map to_ascii_uppercase stem ++ replicate (8 - length stem) 32) = 8%nat)
    by (rewrite length_app, length_map, length_replicate; lia).
  rewrite take_app_length' by done. rewrite drop_app_length' by done.
  rewrite (take_app_length' (map to_ascii_uppercase extension ++ _)) by (rewrite length_app, length_map, length_replicate; lia).
  rewrite !letters_padded by done. f_equal. destruct extension as [|b l]; [done|]. by rewrite !bool_decide_false.
Qed.

Lemma encoded_tail (n : nat) : drop (12 + n) slot = drop n (replicate 14 0 ++ le 2 first ++ le 4 (wrap 32 size_)).
Proof using All.
  unfold slot, encode_slot. rewrite <- drop_drop. f_equal. set (rest := replicate 14 0 ++ _ ++ _).
  rewrite (app_assoc _ _ ([32] ++ rest)), (app_assoc _ [32] rest). apply drop_app_length'.
  rewrite !length_app, !length_map, !length_replicate. cbn [length]. lia.
Qed.

Lemma encoded_words : word 2 slot 26 = first /\ word 4 slot 28 = size_.
Proof using All.
  unfold word. change (Z.to_nat 26) with (12 + 14)%nat. change (Z.to_nat 28) with (12 + 16)%nat. rewrite !encoded_tail. split.
  - rewrite drop_app_length' by done. rewrite take_app_length' by by rewrite le_length. by apply unle_le.
  - rewrite app_assoc, drop_app_length' by done. rewrite take_ge by by rewrite le_length.
    rewrite wrap_small by done. by apply unle_le.
Qed.

Lemma encoded_file : is_file slot = true.
Proof using All.
  assert (E0 : exists b, slot !! 0%nat = Some b /\ 33 <= b <= 126).
  { destruct stem as [|b l] eqn:E; [done|]. exists (to_ascii_uppercase b). split; [done|]. apply upper_plain. by apply Forall_inv in Hs. }
  assert (E11 : slot !! 11%nat = Some 32).
  { unfold slot, encode_slot. rewrite app_assoc. rewrite lookup_app_r by (rewrite !length_app, !length_map, !length_replicate; lia).
    rewrite !length_app, !length_map, !length_replicate. by replace (11 - _)%nat with 0%nat by lia. }
  destruct E0 as (b & E0 & Hb). unfold is_file, is_empty, is_free. rewrite !list_lookup_total_alt, E0, E11. cbn [default from_option].
  unfold id, ENTRY_FREE, ENTRY_DELETED. rewrite !(proj2 (Z.eqb_neq b _)) by lia. done.
Qed.
End encoded.

(** ** Consistency *)

Definition live (L : list (list Z)) (i : nat) (slot : list Z) : Prop := L !! i = Some slot /\ is_file slot = true.

(** The clusters [l] are those of a file that starts at [first]. *)
Record chain_ok (v : Volume) (F : Z -> Z) (first size_ : Z) (l : list Z) : Prop := {
  ch_linked : linked F l;
  ch_valid : Forall (valid v) l;
  ch_nodup : NoDup l;
  ch_size : 0 <= size_ <= cluster_bytes v * Z.of_nat (length l);
  ch_first : match l with [] => first < 2 | x :: _ => x = first end
}.

(** [ch] gives each file's clusters: chains of the table, each cluster in one
    of them; names differ; and the free slots are the last ones. *)
Record consistent (v : Volume) (F : Z -> Z) (L : list (list Z)) (ch : nat -> list Z) : Prop := {
  co_tail i j a b : (i <= j)%nat -> L !! i = Some a -> L !! j = Some b -> is_free a = true -> is_free b = true;
  co_chain i slot : live L i slot -> chain_ok v F (word 2 slot 26) (word 4 slot 28) (ch i);
  co_disjoint i j s t x : live L i s -> live L j t -> x ∈ ch i -> x ∈ ch j -> i = j;
  co_names i j s t : live L i s -> live L j t -> key (decode_name s) = key (decode_name t) -> i = j
}.

(** The map of the files. *)
Definition stored (C : Z -> list Z) (L : list (list Z)) (ch : nat -> list Z) (m : gmap (list Z) (list Z)) : Prop :=
  forall k data, m !! k = Some data <->
    exists i slot, live L i slot /\ key (decode_name slot) = k /\ contents C (ch i) (word 4 slot 28) = data.

Definition represents {D} `{DiskLaws D} (v : Volume) (d : D) (m : gmap (list Z) (list Z)) : Prop :=
  exists ch, consistent v (fat_at v d) (directory_at v d) ch /\ stored (cluster_at v d) (directory_at v d) ch m.

Lemma file_not_free slot : is_file slot = true -> is_free slot = false.
Proof. unfold is_file, is_empty. by destruct (is_free slot). Qed.

Lemma file_not_empty slot : is_file slot = true -> is_empty slot = false.
Proof. unfold is_file. by destruct (is_empty slot). Qed.

(** A cluster of a chain is not free. *)
Lemma chain_not_free v F first size_ l x : chain_ok v F first size_ l -> x ∈ l -> F x <> 0.
Proof.
  intros [Hlk Hval _ _ _] Hx. clear -Hlk Hval Hx. induction l as [|y l IH]; [by apply not_elem_of_nil in Hx|].
  apply Forall_cons in Hval as [_ Hval]. destruct Hlk as [Hy Hlk]. apply elem_of_cons in Hx as [->|Hx]; [|by apply IH].
  destruct l as [|z l]; [unfold END_OF_CHAIN in Hy; lia|]. apply Forall_inv in Hval. unfold valid in Hval. lia.
Qed.

(** ** The search *)

(** What [directory_slot] looks for. *)
Definition absent (name_ : list Z) (L : list (list Z)) : Prop := forall i slot, live L i slot -> key (decode_name slot) <> key name_.
Record vacant (name_ : list Z) (L : list (list Z)) (i : nat) : Prop := {
  va_absent : absent name_ L;
  va_empty : exists slot, L !! i = Some slot /\ is_empty slot = true;
  va_first j slot : (j < i)%nat -> L !! j = Some slot -> is_free slot = false
}.

Lemma search_suffix name_ L : (forall i j a b, (i <= j)%nat -> L !! i = Some a -> L !! j = Some b -> is_free a = true -> is_free b = true) ->
  forall l pre e, L = pre ++ l ->
  (forall j slot, (j < length pre)%nat -> L !! j = Some slot -> is_free slot = false) ->
  (forall j slot, (j < length pre)%nat -> live L j slot -> key (decode_name slot) <> key name_) ->
  (match e with Some i => (i < length pre)%nat /\ exists slot, L !! i = Some slot /\ is_empty slot = true
              | None => forall j slot, (j < length pre)%nat -> L !! j = Some slot -> is_empty slot = false end) ->
  match search name_ (length pre) l e with
  | inl (i, Some entry) => exists slot, live L i slot /\ key (decode_name slot) = key name_ /\ entry = entry_at slot
  | inl (i, None) | inr (Some i) => vacant name_ L i
  | inr None => absent name_ L /\ forall i slot, L !! i = Some slot -> is_empty slot = false
  end.
Proof.
  intros Htail. induction l as [|slot l IH]; intros pre e HL Hfree Hno He; cbn [search].
  - rewrite app_nil_r in HL. subst pre.
    assert (Hab : absent name_ L) by (intros j s Hj; apply (Hno j); [by eapply lookup_lt_Some, Hj|done]).
    destruct e as [i|].
    + destruct He as [Hi He]. constructor; [done|done|]. intros j s Hj. apply Hfree. lia.
    + split; [done|]. intros j s Hj. apply (He j); [by eapply lookup_lt_Some|done].
  - assert (Hslot : L !! length pre = Some slot) by (rewrite HL; by apply list_lookup_middle).
    assert (HL' : L = (pre ++ [slot]) ++ l) by by rewrite <- app_assoc.
    assert (Hlen : length (pre ++ [slot]) = S (length pre)) by (rewrite length_app; cbn; lia).
    assert (Hsplit : forall j, (j < length (pre ++ [slot]))%nat -> (j < length pre)%nat \/ j = length pre) by (intros; lia).
    assert (IH' := fun e => IH (pre ++ [slot]) e HL'). rewrite Hlen in IH'.
    destruct (is_empty slot) eqn:Ee.
    + destruct (is_free slot) eqn:Ef.
      * constructor.
        -- intros j s Hj. destruct (decide (j < length pre)%nat) as [Hlt|Hge]; [by apply (Hno j)|].
           pose proof (Htail (length pre) j slot s ltac:(lia) Hslot (proj1 Hj) Ef) as Hf. by rewrite (file_not_free _ (proj2 Hj)) in Hf.
        -- destruct e as [i|]; cbn [default from_option]; [apply He|]. by exists slot.
        -- intros j s Hj. apply Hfree. destruct e as [i|]; cbn [default from_option] in Hj; [destruct He|]; unfold id in Hj; lia.
      * apply IH'.
        -- intros j s Hj Hs. destruct (decide (j = length pre)) as [->|]; [congruence|]. apply (Hfree j); [lia|done].
        -- intros j s Hj [Hs Hfile]. destruct (decide (j = length pre)) as [->|]; [|apply (Hno j); [lia|done]].
           rewrite Hslot in Hs. injection Hs as <-. by rewrite (file_not_empty _ Hfile) in Ee.
        -- destruct e as [i|]; cbn [default from_option].
           ++ destruct He as [Hi He]. split; [unfold id; lia|done].
           ++ split; [lia|]. by exists slot.
    + assert (Hf : is_free slot = false) by (unfold is_empty in Ee; by destruct (is_free slot)).
      assert (Hfree' : forall j s, (j < S (length pre))%nat -> L !! j = Some s -> is_free s = false).
      { intros j s Hj Hs. destruct (decide (j = length pre)) as [->|]; [congruence|]. apply (Hfree j); [lia|done]. }
      assert (He' : match e with Some i => (i < S (length pre))%nat /\ exists slot, L !! i = Some slot /\ is_empty slot = true
              | None => forall j slot, (j < S (length pre))%nat -> L !! j = Some slot -> is_empty slot = false end).
      { destruct e as [i|]; [destruct He; split; [lia|done]|]. intros j s Hj Hs.
        destruct (decide (j = length pre)) as [->|]; [congruence|]. apply (He j); [lia|done]. }
      destruct (is_file slot) eqn:Efile; cbn [negb].
      * destruct (named name_ slot) eqn:En.
        -- exists slot. split; [done|]. split; [|done]. by apply eq_ignore_key.
        -- apply IH'; try done. intros j s Hj [Hs Hfile]. destruct (decide (j = length pre)) as [->|]; [|apply (Hno j); [lia|done]].
           rewrite Hslot in Hs. injection Hs as <-. intros Ek. apply eq_ignore_key in Ek. unfold named in En. congruence.
      * apply IH'; try done. intros j s Hj [Hs Hfile]. destruct (decide (j = length pre)) as [->|]; [congruence|]. apply (Hno j); [lia|done].
Qed.

Lemma search_spec v F name_ L ch : consistent v F L ch ->
  match search name_ 0 L None with
  | inl (i, Some entry) => exists slot, live L i slot /\ key (decode_name slot) = key name_ /\ entry = entry_at slot
  | inl (i, None) | inr (Some i) => vacant name_ L i
  | inr None => absent name_ L /\ forall i slot, L !! i = Some slot -> is_empty slot = false
  end.
Proof.
  intros Hc. apply (search_suffix name_ L (co_tail _ _ _ _ Hc) L [] None); try done; cbn; lia.
Qed.

(** [list] gives the live slots. *)
Lemma elem_of_files L slot : (forall i j a b, (i <= j)%nat -> L !! i = Some a -> L !! j = Some b -> is_free a = true -> is_free b = true) ->
  slot ∈ (files L).1 <-> exists i, live L i slot.
Proof.
  induction L as [|s L IH]; intros Htail; cbn [files].
  - split; [by intros ?%not_elem_of_nil|]. by intros (i & Hi & _).
  - assert (IH' : slot ∈ (files L).1 <-> exists i, live L i slot).
    { apply IH. intros i j a b Hij Ha Hb. apply (Htail (S i) (S j)); [lia|done|done]. }
    destruct (is_free s) eqn:Ef.
    + cbn. split; [by intros ?%not_elem_of_nil|]. intros (i & Hi & Hfile).
      pose proof (Htail 0%nat i s slot ltac:(lia) eq_refl Hi Ef) as H. by rewrite (file_not_free _ Hfile) in H.
    + destruct (files L) as [l ended]. cbn [fst] in *. destruct (is_file s) eqn:Es.
      * rewrite elem_of_cons, IH'. split.
        -- intros [->|(i & Hi)]; [by exists 0%nat|by exists (S i)].
        -- intros ([|i] & Hi & Hfile); [left; by injection Hi as ->|right; by exists i].
      * rewrite IH'. split; [intros (i & Hi); by exists (S i)|]. intros ([|i] & Hi & Hfile); [|by exists i].
        injection Hi as ->. congruence.
Qed.

(** ** One slot changes *)

Section put.
Context (v : Volume) (F F' : Z -> Z) (C C' : Z -> list Z) (L : list (list Z)) (ch : nat -> list Z) (m : gmap (list Z) (list Z)).
Context (Hc : consistent v F L ch) (Hst : stored C L ch m).
Context (n : nat) (old new_ : list Z) (Hold : L !! n = Some old).

Lemma put_live i s : live (<[n := new_]> L) i s <-> (i = n /\ s = new_ /\ is_file new_ = true) \/ (i <> n /\ live L i s).
Proof using Hold.
  unfold live. destruct (decide (i = n)) as [->|Hne].
  - rewrite list_lookup_insert_eq by by eapply lookup_lt_Some. split.
    + intros [[= <-] ?]. by left.
    + intros [(_ & -> & ?)|[? _]]; done.
  - rewrite list_lookup_insert_ne by done. split; [by right|]. by intros [[? _]|[_ ?]].
Qed.

(** The slot's old file, if it was one, gives its clusters up. *)
Definition released : list Z := if is_file old then ch n else [].

Lemma released_apart i s x : i <> n -> live L i s -> x ∈ ch i -> x ∉ released.
Proof using Hc Hold.
  intros Hne Hi Hx. unfold released. destruct (is_file old) eqn:E; [|apply not_elem_of_nil]. intros Hx'.
  apply Hne. by apply (co_disjoint _ _ _ _ Hc i n s old x Hi).
Qed.

Context (l : list Z) (Hfree : forall x, x ∈ l -> F x = 0).
Context (HF : forall c, c ∉ l -> c ∉ released -> F' c = F c) (HC : forall c, c ∉ l -> C' c = C c).
Context (Hbefore : forall j slot, (j < n)%nat -> L !! j = Some slot -> is_free slot = false).
Context (Hnot_free : is_free new_ = false).

Lemma put_apart i s x : live L i s -> x ∈ ch i -> x ∉ l.
Proof using Hc Hfree. intros Hi Hx Hl. by apply (chain_not_free _ _ _ _ _ x (co_chain _ _ _ _ Hc i s Hi) Hx), Hfree. Qed.

Lemma put_chain i s : i <> n -> live L i s -> chain_ok v F' (word 2 s 26) (word 4 s 28) (ch i).
Proof using Hc Hfree HF Hold.
  intros Hne Hi. destruct (co_chain _ _ _ _ Hc i s Hi) as [Hlk ? ? ? ?]. constructor; try done.
  apply (linked_ext F); [|done]. intros x Hx. apply HF; [by apply (put_apart i s)|by apply (released_apart i s)].
Qed.

Lemma put_contents i s k : i <> n -> live L i s -> contents C' (ch i) k = contents C (ch i) k.
Proof using Hc Hfree HC.
  intros Hne Hi. unfold contents. do 2 f_equal. apply map_ext_in. intros x Hx%list_elem_of_In. apply HC. by apply (put_apart i s).
Qed.

Lemma put_tail i j a b : (i <= j)%nat -> <[n := new_]> L !! i = Some a -> <[n := new_]> L !! j = Some b -> is_free a = true -> is_free b = true.
Proof using Hc Hold Hbefore Hnot_free.
  intros Hij Ha Hb Hf. assert (Hn : (n < length L)%nat) by by eapply lookup_lt_Some.
  destruct (decide (i = n)) as [->|Hi]; [rewrite list_lookup_insert_eq in Ha by done; injection Ha as <-; congruence|].
  rewrite list_lookup_insert_ne in Ha by done.
  destruct (decide (j = n)) as [->|Hj].
  - by rewrite (Hbefore i a ltac:(lia) Ha) in Hf.
  - rewrite list_lookup_insert_ne in Hb by done. by apply (co_tail _ _ _ _ Hc i j a b).
Qed.

(** A file in the slot, over the chain [l]. *)
Section file.
Context (Hfile : is_file new_ = true) (Hl : chain_ok v F' (word 2 new_ 26) (word 4 new_ 28) l).
Context (Hsole : forall i s, live L i s -> key (decode_name s) = key (decode_name new_) -> i = n).
Context (Hsame : is_file old = true -> key (decode_name old) = key (decode_name new_)).

Lemma put_consistent : consistent v F' (<[n := new_]> L) (<[n := l]> ch).
Proof using All.
  constructor.
  - apply put_tail.
  - intros i s [(-> & -> & _)|[Hne Hi]]%put_live; [by rewrite fn_lookup_insert|]. rewrite fn_lookup_insert_ne by done. by apply put_chain.
  - intros i j s t x [(-> & -> & _)|[Hi Hs]]%put_live [(-> & -> & _)|[Hj Ht]]%put_live; try done.
    + rewrite fn_lookup_insert, fn_lookup_insert_ne by done. intros Hx Hx'. by destruct (put_apart j t x Ht Hx').
    + rewrite fn_lookup_insert, fn_lookup_insert_ne by done. intros Hx Hx'. by destruct (put_apart i s x Hs Hx).
    + rewrite !fn_lookup_insert_ne by done. by apply (co_disjoint _ _ _ _ Hc i j s t).
  - intros i j s t [(-> & -> & _)|[Hi Hs]]%put_live [(-> & -> & _)|[Hj Ht]]%put_live; try done.
    + intros E. symmetry. by apply (Hsole j t).
    + intros E. by apply (Hsole i s).
    + by apply (co_names _ _ _ _ Hc i j s t).
Qed.

Lemma put_stored data : contents C' l (word 4 new_ 28) = data ->
  stored C' (<[n := new_]> L) (<[n := l]> ch) (<[key (decode_name new_) := data]> m).
Proof using All.
  intros Hd k data'. destruct (decide (k = key (decode_name new_))) as [->|Hk].
  - rewrite lookup_insert_eq. split.
    + intros [= <-]. exists n, new_. split; [apply put_live; by left|]. split; [done|]. by rewrite fn_lookup_insert.
    + intros (i & s & [(-> & -> & _)|[Hne Hi]]%put_live & Hk & E); [|by destruct (Hsole i s Hi Hk)].
      rewrite fn_lookup_insert in E. congruence.
  - rewrite lookup_insert_ne by done. rewrite (Hst k data'). split; intros (i & s & Hi & Ek & E).
    + assert (Hne : i <> n).
      { intros ->. destruct Hi as [Hi Hf]. rewrite Hold in Hi. injection Hi as <-. by rewrite (Hsame Hf) in Ek. }
      exists i, s. split; [apply put_live; by right|]. split; [done|]. rewrite fn_lookup_insert_ne by done. by rewrite (put_contents i s).
    + apply put_live in Hi as [(-> & -> & _)|[Hne Hi]]; [done|]. exists i, s. split; [done|]. split; [done|].
      rewrite fn_lookup_insert_ne in E by done. by rewrite (put_contents i s) in E.
Qed.
End file.

(** No file in the slot any more. *)
Section dead.
Context (Hdead : is_file new_ = false) (Hl : l = []).

Lemma drop_live i s : live (<[n := new_]> L) i s <-> i <> n /\ live L i s.
Proof using Hold Hdead. rewrite put_live, Hdead. split; [by intros [(_ & _ & ?)|?]|by right]. Qed.

Lemma drop_consistent : consistent v F' (<[n := new_]> L) ch.
Proof using All.
  constructor.
  - apply put_tail.
  - intros i s [Hne Hi]%drop_live. by apply put_chain.
  - intros i j s t x [Hi Hs]%drop_live [Hj Ht]%drop_live. by apply (co_disjoint _ _ _ _ Hc i j s t).
  - intros i j s t [Hi Hs]%drop_live [Hj Ht]%drop_live. by apply (co_names _ _ _ _ Hc i j s t).
Qed.

Lemma drop_stored : is_file old = true -> stored C' (<[n := new_]> L) ch (delete (key (decode_name old)) m).
Proof using All.
  intros Hf k data. assert (Hn : live L n old) by done. destruct (decide (k = key (decode_name old))) as [->|Hk].
  - rewrite lookup_delete_eq. split; [done|]. intros (i & s & [Hne Hi]%drop_live & Ek & _).
    by destruct Hne; apply (co_names _ _ _ _ Hc i n s old).
  - rewrite lookup_delete_ne by done. rewrite (Hst k data). split; intros (i & s & Hi & Ek & E).
    + assert (Hne : i <> n) by (intros ->; destruct Hi as [Hi _]; rewrite Hold in Hi; by injection Hi as <-).
      exists i, s. split; [by apply drop_live|]. split; [done|]. by rewrite (put_contents i s).
    + apply drop_live in Hi as [Hne Hi]. exists i, s. split; [done|]. split; [done|]. by rewrite (put_contents i s) in E.
Qed.
End dead.
End put.
