(* ===== verification/FatFiles.v ===== *)
(** * The operations of the file system

    [find], [read_file], [create], [remove] and [count_free] on a volume that
    represents a map from names to contents. *)

From stdpp Require Import functions.
From S2P Require Import Prelude Bytes Disk Fat FatTable FatDir FatFile FatSpec.

#[local] Arguments Z.mul : simpl never.
#[local] Arguments Z.add : simpl never.
#[local] Arguments Nat.mul : simpl never.

Section ops.
Context {D : Type} `{HL : DiskLaws D}.
Context (v : Volume) (Hg : geometry v).

Lemma chain_ok_ext F F' first size_ l : (forall c, valid v c -> F' c = F c) -> chain_ok v F first size_ l -> chain_ok v F' first size_ l.
Proof using Type.
  intros HF [H1 H2 H3 H4 H5]. constructor; try done. apply (linked_ext F); [|done]. intros x Hx. apply HF.
  rewrite Forall_forall in H2. by apply H2.
Qed.

Lemma file_contents_ext C C' l n : (forall c, c ∈ l -> C' c = C c) -> contents C' l n = contents C l n.
Proof using Type.
  intros HC. unfold contents. do 2 f_equal. apply map_ext_in. intros x Hx%list_elem_of_In. by apply HC.
Qed.

(** Any description of the volume will do. *)
Lemma represents_holds d F C L ch m : holds v d F C L -> consistent v F L ch -> stored C L ch m -> represents v d m.
Proof using Type.
  intros [HF HC HLd] Hc Hst. exists ch. rewrite HLd. destruct Hc as [H1 H2 H3 H4]. split.
  - constructor; try done. intros i s Hi. apply (chain_ok_ext F); [done|]. by apply H2.
  - intros k data. rewrite (Hst k data). split; intros (i & s & Hi & Ek & E); exists i, s; (split; [done|]); (split; [done|]);
      rewrite <- E; pose proof (ch_valid _ _ _ _ _ (H2 i s Hi)) as Hv; rewrite Forall_forall in Hv; apply file_contents_ext; intros c Hcc;
      [|symmetry]; by apply HC, Hv.
Qed.

Section flaky.
Context (flaky : Prop) (Hflaky : flaky \/ Reliable D).

(** ** Looking up *)

Lemma find_safe name_ d F C L ch : holds v d F C L -> consistent v F L ch ->
  safe (find v name_)
    (fun e d' => holds v d' F C L /\ exists i slot, live L i slot /\ key (decode_name slot) = key name_ /\ e = entry_at slot)
    (fails flaky (fun d' => absent name_ L /\ holds v d' F C L)) d.
Proof using Hflaky HL Hg.
  intros Hh Hc. unfold find. eapply safe_bind; [eapply safe_mono; [by apply (list_entries_safe flaky Hflaky v Hg d F C L)| |]|].
  { intros l s H. exact H. } { intros s [?|[]]. by left. }
  intros l d1 [Hh1 ->]. destruct (List.find _ _) as [e|] eqn:E.
  - apply safe_ret. split; [done|]. apply find_some in E as [Hin En]. apply list_elem_of_In, list_elem_of_fmap in Hin as (slot & -> & Hin).
    apply (elem_of_files L slot (co_tail _ _ _ _ Hc)) in Hin as (i & Hi). exists i, slot. split; [done|]. split; [|done].
    by apply eq_ignore_key in En.
  - apply safe_throw. right. split; [|done]. intros i slot Hi Ek.
    assert (Hin : In (entry_at slot) (map entry_at (files L).1)).
    { apply in_map, list_elem_of_In, (elem_of_files L slot (co_tail _ _ _ _ Hc)). by exists i. }
    pose proof (find_none _ _ E _ Hin) as En. cbv beta in En. apply eq_ignore_key in Ek.
    change (name (entry_at slot)) with (decode_name slot) in En. congruence.
Qed.

Lemma read_file_safe e d F C L l : holds v d F C L -> chain_ok v F (first_cluster e) (size e) l ->
  safe (read_file v e) (fun r d' => r = contents C l (size e) /\ holds v d' F C L) (fails flaky never) d.
Proof using Hflaky HL Hg.
  intros Hh [Hlk Hval Hnd [Hs0 Hsize] Hfirst]. unfold read_file. destruct (Z.eqb_spec (size e) 0) as [E|E].
  - apply safe_ret. split; [|done]. by rewrite E.
  - destruct l as [|x l]; [cbn in Hsize; lia|]. subst x. pose proof (valid_length v _ Hval Hnd). pose proof (ge_clusters _ Hg).
    change (first_cluster e) with (hd 0 (first_cluster e :: l)) at 1.
    eapply safe_mono; [apply (read_chain_safe flaky Hflaky v Hg F C L _ _ d 0 _ Hh); try done| |done].
    + lia.
    + rewrite length_replicate. lia.
    + rewrite length_replicate. lia.
    + intros r d' [-> Hh']. split; [|done]. rewrite take_0. cbn [app]. f_equal. rewrite length_replicate. lia.
Qed.

Lemma load_file_safe name_ d F C L ch m : holds v d F C L -> consistent v F L ch -> stored C L ch m ->
  safe (load_file v name_) (fun r d' => m !! key name_ = Some r /\ holds v d' F C L)
    (fails flaky (fun d' => m !! key name_ = None /\ holds v d' F C L)) d.
Proof using Hflaky HL Hg.
  intros Hh Hc Hst. unfold load_file. eapply safe_bind.
  - eapply safe_mono; [by apply (find_safe name_ d F C L ch)|intros e s H; exact H|]. intros s [?|[Hab Hs]]; [by left|]. right. split; [|done].
    destruct (m !! key name_) as [data|] eqn:E; [|done]. apply Hst in E as (i & slot & Hi & Ek & _). by destruct (Hab i slot Hi).
  - intros e d1 (Hh1 & i & slot & Hi & Ek & ->).
    eapply safe_mono; [apply (read_file_safe (entry_at slot) d1 F C L (ch i) Hh1), (co_chain _ _ _ _ Hc i slot Hi)| |].
    + intros r d2 [-> Hh2]. split; [|done]. apply Hst. by exists i, slot.
    + intros s [?|[]]. by left.
Qed.

(** ** Removing *)

Lemma dead_slot slot : length slot = 32%nat -> is_file (splice 0 [ENTRY_DELETED] slot) = false /\ is_free (splice 0 [ENTRY_DELETED] slot) = false.
Proof using Type.
  intros Hl. assert (E : splice 0 [ENTRY_DELETED] slot !!! 0%nat = ENTRY_DELETED).
  { rewrite list_lookup_total_alt, splice_lookup by (cbn; lia). by rewrite decide_True by (cbn; lia). }
  unfold is_file, is_empty, is_free. rewrite E. done.
Qed.

Lemma free_chain_safe first size_ l d F C L : table_fits v -> holds v d F C L -> chain_ok v F first size_ l ->
  safe (if 2 <=? first then free_chain v first else mret tt) (fun _ d' => holds v d' (freed l F) C L) (fails flaky never) d.
Proof using Hflaky HL Hg.
  intros Hf Hh [Hlk Hval Hnd _ Hfirst]. destruct l as [|x l].
  - rewrite (proj2 (Z.leb_gt 2 first)) by lia. apply safe_ret. eapply volume_ext; [| |exact Hh]; [|done].
    intros c _. unfold freed. rewrite decide_False; [done|]. apply not_elem_of_nil.
  - subst x. pose proof (Forall_inv Hval) as Hx. unfold valid in Hx. rewrite (proj2 (Z.leb_le 2 first)) by lia.
    unfold free_chain. pose proof (valid_length v _ Hval Hnd). pose proof (ge_clusters _ Hg).
    apply (free_loop_safe flaky Hflaky v Hg C L (first :: l)); (done || lia).
Qed.

Lemma remove_safe name_ d F C L ch m : table_fits v -> holds v d F C L -> consistent v F L ch -> stored C L ch m ->
  safe (remove v name_) (fun _ d' => represents v d' (delete (key name_) m) /\ is_Some (m !! key name_))
    (fails flaky (fun d' => m !! key name_ = None /\ represents v d' m)) d.
Proof using Hflaky HL Hg.
  intros Hf Hh Hc Hst. unfold remove. pose proof (search_spec v F name_ L ch Hc) as Hs.
  assert (Hgone : forall s, absent name_ L -> holds v s F C L -> m !! key name_ = None /\ represents v s m).
  { intros s Hab Hh'. split; [|by apply (represents_holds s F C L ch)].
    destruct (m !! key name_) as [data|] eqn:E; [|done]. apply Hst in E as (i & slot & Hi & Ek & _). by destruct (Hab i slot Hi). }
  assert (Hthere : forall i slot, live L i slot -> key (decode_name slot) = key name_ -> is_Some (m !! key name_)).
  { intros i slot Hi Ek. eexists. apply Hst. by exists i, slot. }
  eapply safe_bind; [eapply safe_mono; [by apply (directory_slot_safe flaky Hflaky v Hg name_ d F C L)|intros p s H; exact H|]|].
  { intros s [?|[Er Hh']]; [by left|]. right. rewrite Er in Hs. apply Hgone; [apply Hs|done]. }
  intros p d1 [Hh1 Hp]. cbn zeta in Hp. destruct (search name_ 0 L None) as [[n [e|]]|[n|]]; [| | |done]; subst p.
  - destruct Hs as (slot & Hn & Ek & ->). cbn [located]. rewrite (surjective_pairing (place_of v n)). cbn [first_cluster entry_at].
    assert (Hlen : (n < 16 * root_sectors v)%nat).
    { rewrite <- (directory_length v d F C L Hh). by eapply lookup_lt_Some, Hn. }
    pose proof (directory_sizes v d F C L Hh) as Hsz. rewrite Forall_lookup in Hsz. pose proof (Hsz n slot (proj1 Hn)) as Hl32.
    destruct (dead_slot slot Hl32) as [Hdf Hdfree].
    eapply safe_bind; [eapply safe_mono; [apply (write_slot_safe flaky Hflaky v Hg n [ENTRY_DELETED] d1 F C L Hf Hh1 Hlen)| |]|].
    + cbn. lia.
    + repeat constructor; unfold ENTRY_DELETED; lia.
    + intros u s H. exact H.
    + intros s [?|[]]. by left.
    + intros u d2 Hh2. pose proof (proj1 Hn) as HLn. rewrite (list_lookup_total_correct _ _ _ HLn) in Hh2.
      eapply safe_mono; [apply (free_chain_safe _ _ (ch n) d2 F C _ Hf Hh2 (co_chain _ _ _ _ Hc n slot Hn))| |].
      * intros u' d3 Hh3. split; [|by apply (Hthere n slot)]. rewrite <- Ek.
        assert (Hrel : released ch n slot = ch n) by (unfold released; by rewrite (proj2 Hn)).
        assert (HF : forall c, c ∉ ([] : list Z) -> c ∉ released ch n slot -> freed (ch n) F c = F c).
        { intros c _. rewrite Hrel. intros Hc'. unfold freed. by rewrite decide_False. }
        assert (Hbefore : forall j s, (j < n)%nat -> L !! j = Some s -> is_free s = false).
        { intros j s Hj Hs'. destruct (is_free s) eqn:Efr; [|done].
          pose proof (co_tail _ _ _ _ Hc j n s slot ltac:(lia) Hs' HLn Efr) as Hbad. by rewrite (file_not_free _ (proj2 Hn)) in Hbad. }
        eapply (represents_holds d3 _ C _ ch); [exact Hh3| |].
        -- eapply (drop_consistent v F _ C C L ch m Hc Hst n slot _ HLn []); try done. intros x Hx. by apply not_elem_of_nil in Hx.
        -- eapply (drop_stored v F _ C C L ch m Hc Hst n slot _ HLn []); try done; [|apply Hn].
           intros x Hx. by apply not_elem_of_nil in Hx.
      * intros s [?|[]]. by left.
  - apply safe_throw. right. apply Hgone; [apply (va_absent _ _ _ Hs)|done].
  - apply safe_throw. right. apply Hgone; [apply (va_absent _ _ _ Hs)|done].
Qed.
(** ** Creating *)

(** The new contents on disk, in clusters that were free. *)
Record fresh_chain (F F' : Z -> Z) (C C' : Z -> list Z) (first : Z) (l data : list Z) : Prop := {
  fr_free x : x ∈ l -> F x = 0;
  fr_table c : c ∉ l -> F' c = F c;
  fr_clusters c : c ∉ l -> C' c = C c;
  fr_chain : chain_ok v F' first (Z.of_nat (length data)) l;
  fr_contents : contents C' l (Z.of_nat (length data)) = data;
  fr_first : 0 <= first < 65536
}.

Definition no_room (F : Z -> Z) (data : list Z) : Prop :=
  Z.of_nat (length (free_clusters v F)) < needed v (Z.of_nat (length data)).

Lemma marked_consistent F L ch l : Forall (fun x => F x = 0) l -> consistent v F L ch -> consistent v (marked l F) L ch.
Proof using Type.
  intros Hl [H1 H2 H3 H4]. constructor; try done. intros i s Hi. destruct (H2 i s Hi) as [Hlk ? ? ? ?] eqn:E. constructor; try done.
  apply (linked_ext F); [|done]. intros x Hx. unfold marked. rewrite decide_False; [done|]. intros Hxl. rewrite Forall_forall in Hl.
  by apply (chain_not_free _ _ _ _ _ x (H2 i s Hi) Hx), Hl.
Qed.

Lemma fresh_chain_safe data d F C L ch m : table_fits v -> Forall is_byte data -> holds v d F C L -> consistent v F L ch -> stored C L ch m ->
  safe (if bool_decide (data = []) then mret 0 else write_chain v data)
    (fun first d' => exists l F' C', holds v d' F' C' L /\ fresh_chain F F' C C' first l data)
    (fails flaky (fun d' => no_room F data /\ represents v d' m)) d.
Proof using Hflaky HL Hg.
  intros Hf Hb Hh Hc Hst. case_bool_decide as Hd.
  - subst data. apply safe_ret. exists [], F, C. split; [done|]. constructor; try done.
    + intros x Hx. by apply not_elem_of_nil in Hx.
    + constructor; try done; [apply NoDup_nil_2|]. rewrite Z.mul_0_r. cbn. lia.
  - eapply safe_mono; [by apply (write_chain_safe flaky Hflaky v Hg F C L data d)| |].
    + intros first d' (l & F' & C' & Hh' & <- & [? ? ? ? Hlen ? ? ?]). exists l, F', C'. split; [done|].
      destruct (needed_enough v Hg (Z.of_nat (length data)) ltac:(lia)) as [Hn1 Hn2]. constructor; try done.
      * constructor; try done; [lia|]. destruct l; [cbn in Hlen; lia|done].
      * destruct l as [|x l]; [cbn; lia|]. assert (Hx : valid v x) by by apply Forall_inv in wr_valid.
        pose proof (ge_clusters _ Hg). unfold valid in Hx. cbn. lia.
    + intros s [?|[Hno (l' & Hl' & Hs)]]; [by left|]. right. split; [done|].
      apply (represents_holds s (marked l' F) C L ch); [done|by apply marked_consistent|done].
Qed.

Lemma create_at name_ data n old d F C L ch m : table_fits v -> plain name_ -> Forall is_byte data -> Z.of_nat (length data) < 2 ^ 32 ->
  holds v d F C L -> consistent v F L ch -> stored C L ch m -> L !! n = Some old ->
  (forall j slot, (j < n)%nat -> L !! j = Some slot -> is_free slot = false) ->
  (forall i s, live L i s -> key (decode_name s) = key name_ -> i = n) ->
  (is_file old = true -> key (decode_name old) = key name_) ->
  let '(stem, extension) := split_name name_ in
  safe (first ← (if bool_decide (data = []) then mret 0 else write_chain v data);
        _ ← match (if is_file old then Some (entry_at old) else None) with
            | Some old => if 2 <=? first_cluster old then free_chain v (first_cluster old) else mret tt
            | None => mret tt
            end;
        patch (place_of v n).1 (place_of v n).2 (encode_slot stem extension first (Z.of_nat (length data))))
    (fun _ d' => represents v d' (<[key name_ := data]> m))
    (fails flaky (fun d' => no_room F data /\ represents v d' m)) d.
Proof using Hflaky HL Hg.
  intros Hf Hpl Hb Hsz Hh Hc Hst Hold Hbefore Hsole Hsame. pose proof (split_join name_ Hpl) as Hsplit.
  destruct (split_name name_) as [stem ext] eqn:Esp. destruct Hsplit as (Hname & Hstem & Hext).
  destruct Hpl as [_ _ [Hne Hls] Hle]. rewrite Esp in Hne, Hls, Hle. cbn [fst snd] in Hne, Hls, Hle.
  eapply safe_bind; [by apply (fresh_chain_safe data d F C L ch m)|].
  intros first d1 (l & F1 & C1 & Hh1 & [Hfree HF1 HC1 Hchain Hcont Hfirst]). set (rel := released ch n old).
  assert (Hrel : forall x, x ∈ rel -> x ∉ l).
  { intros x. unfold rel, released. destruct (is_file old) eqn:E; [|by intros ?%not_elem_of_nil]. intros Hx Hl.
    by apply (chain_not_free _ _ _ _ _ x (co_chain _ _ _ _ Hc n old (conj Hold E)) Hx), Hfree. }
  eapply (safe_bind _ _ (fun _ d' => holds v d' (freed rel F1) C1 L)).
  { unfold rel, released in *. destruct (is_file old) eqn:E.
    - eapply safe_mono; [apply (free_chain_safe (first_cluster (entry_at old)) (word 4 old 28) (ch n) d1 F1 C1 L Hf Hh1)|done|].
      + destruct (co_chain _ _ _ _ Hc n old (conj Hold E)) as [? ? ? ? ?]. constructor; try done.
        apply (linked_ext F); [|done]. intros x Hx. apply HF1. by apply Hrel.
      + intros s [?|[]]. by left.
    - apply safe_ret. eapply volume_ext; [| |exact Hh1]; [|done]. intros c _. unfold freed. rewrite decide_False; [done|]. apply not_elem_of_nil. }
  intros u d2 Hh2. set (enc := encode_slot stem ext first (Z.of_nat (length data))).
  assert (Hn : (n < 16 * root_sectors v)%nat) by (rewrite <- (directory_length v d F C L Hh); by eapply lookup_lt_Some).
  assert (Hl32 : length enc = 32%nat) by (apply encoded_length; (done || lia)).
  assert (Hold32 : length old = 32%nat).
  { pose proof (directory_sizes v d F C L Hh) as Hs. rewrite Forall_lookup in Hs. by apply (Hs n). }
  assert (Henc : splice 0 enc (L !!! n) = enc).
  { rewrite (list_lookup_total_correct _ _ _ Hold). unfold splice. change (Z.to_nat 0) with 0%nat. rewrite take_0, drop_ge by lia.
    by rewrite app_nil_r. }
  assert (Hsz' : 0 <= Z.of_nat (length data) < 2 ^ 32) by lia.
  pose proof (encoded_name stem ext first (Z.of_nat (length data)) Hstem Hext Hne Hls Hle Hfirst Hsz') as En.
  destruct (encoded_words stem ext first (Z.of_nat (length data)) Hstem Hext Hne Hls Hle Hfirst Hsz') as [Ew1 Ew2].
  pose proof (encoded_file stem ext first (Z.of_nat (length data)) Hstem Hext Hne Hls Hle Hfirst Hsz') as Efile.
  fold enc in En, Ew1, Ew2, Efile.
  assert (Ek : key (decode_name enc) = key name_).
  { rewrite En, Hname. unfold key. rewrite !map_app. f_equal; [apply key_key|]. case_bool_decide; [done|]. cbn [map]. f_equal. apply key_key. }
  eapply safe_mono; [apply (write_slot_safe flaky Hflaky v Hg n enc d2 _ C1 L Hf Hh2 Hn)| |].
  - lia.
  - by apply encoded_bytes.
  - intros u' d3 Hh3. rewrite Henc in Hh3. rewrite <- Ek.
    assert (HF : forall c, c ∉ l -> c ∉ rel -> freed rel F1 c = F c).
    { intros c Hcl Hcr. unfold freed. rewrite decide_False by done. by apply HF1. }
    assert (Hok : chain_ok v (freed rel F1) (word 2 enc 26) (word 4 enc 28) l).
    { rewrite Ew1, Ew2. destruct Hchain as [? ? ? ? ?]. constructor; try done. apply (linked_ext F1); [|done].
      intros x Hx. unfold freed. rewrite decide_False; [done|]. intros Hxr. by apply (Hrel x). }
    assert (Hsole' : forall i s, live L i s -> key (decode_name s) = key (decode_name enc) -> i = n) by (rewrite Ek; done).
    assert (Hsame' : is_file old = true -> key (decode_name old) = key (decode_name enc)) by (rewrite Ek; done).
    pose proof (file_not_free enc Efile) as Hnf.
    apply (represents_holds d3 (freed rel F1) C1 (<[n := enc]> L) (<[n := l]> ch)); [done| |].
    + by apply (put_consistent v F _ C C1 L ch m Hc Hst n old enc Hold l Hfree HF HC1 Hbefore Hnf Efile Hok Hsole' Hsame').
    + apply (put_stored v F _ C C1 L ch m Hc Hst n old enc Hold l Hfree HF HC1 Hbefore Hnf Efile Hok Hsole' Hsame').
      by rewrite Ew2.
  - intros s [?|[]]. by left.
Qed.

(** No slot for a new name. *)
Definition directory_full (name_ : list Z) (L : list (list Z)) : Prop :=
  absent name_ L /\ forall i slot, L !! i = Some slot -> is_empty slot = false.

Lemma create_safe name_ data d F C L ch m : table_fits v -> plain name_ -> Forall is_byte data -> Z.of_nat (length data) < 2 ^ 32 ->
  holds v d F C L -> consistent v F L ch -> stored C L ch m ->
  safe (create v name_ data) (fun _ d' => represents v d' (<[key name_ := data]> m))
    (fails flaky (fun d' => (no_room F data \/ directory_full name_ L) /\ represents v d' m)) d.
Proof using Hflaky HL Hg.
  intros Hf Hpl Hb Hsz Hh Hc Hst. pose proof (search_spec v F name_ L ch Hc) as Hs.
  pose proof (fun n old d1 Hh1 => create_at name_ data n old d1 F C L ch m Hf Hpl Hb Hsz Hh1 Hc Hst) as Hat.
  pose proof Hpl as [_ _ [Hne Hls] Hle]. unfold create. destruct (split_name name_) as [stem ext].
  cbn [fst snd] in Hne, Hls, Hle. rewrite bool_decide_false by done.
  rewrite (proj2 (Nat.ltb_ge 8 _)), (proj2 (Nat.ltb_ge 3 _)) by done. cbn [orb].
  assert (Hgoal : forall n old e d1, holds v d1 F C L -> L !! n = Some old -> (forall j slot, (j < n)%nat -> L !! j = Some slot -> is_free slot = false) ->
            (forall i s, live L i s -> key (decode_name s) = key name_ -> i = n) ->
            (is_file old = true -> key (decode_name old) = key name_) -> e = (if is_file old then Some (entry_at old) else None) ->
            safe (let '(sector, offset, existing) := located v (n, e) in
                  first ← (if bool_decide (data = []) then mret 0 else write_chain v data);
                  _ ← match existing with
                      | Some old => if 2 <=? first_cluster old then free_chain v (first_cluster old) else mret tt
                      | None => mret tt
                      end;
                  patch sector offset (encode_slot stem ext first (Z.of_nat (length data))))
              (fun _ d' => represents v d' (<[key name_ := data]> m))
              (fails flaky (fun d' => (no_room F data \/ directory_full name_ L) /\ represents v d' m)) d1).
  { intros n old e d1 Hh1 Hold Hbefore Hsole Hsame ->. cbn [located]. rewrite (surjective_pairing (place_of v n)).
    eapply safe_mono; [by apply (Hat n old d1 Hh1)|done|]. intros s [?|[Hno Hr]]; [by left|]. right. split; [by left|done]. }
  assert (Hvacant : forall n, vacant name_ L n -> L !! n = Some (L !!! n) /\ is_file (L !!! n) = false).
  { intros n [_ (slot & Hn & He) _]. rewrite (list_lookup_total_correct _ _ _ Hn). split; [done|]. unfold is_file. by rewrite He. }
  eapply safe_bind; [eapply safe_mono; [by apply (directory_slot_safe flaky Hflaky v Hg name_ d F C L)|intros p s H; exact H|]|].
  { intros s [?|[Er Hh']]; [by left|]. right. rewrite Er in Hs. split; [by right|]. by apply (represents_holds s F C L ch). }
  intros p d1 [Hh1 Hp]. cbn zeta in Hp. destruct (search name_ 0 L None) as [[n [e|]]|[n|]]; [| | |done]; subst p.
  - destruct Hs as (slot & Hn & Ek & ->). apply (Hgoal n slot); try done.
    + apply Hn.
    + intros j s Hj Hs'. destruct (is_free s) eqn:Efr; [|done].
      pose proof (co_tail _ _ _ _ Hc j n s slot ltac:(lia) Hs' (proj1 Hn) Efr) as Hbad. by rewrite (file_not_free _ (proj2 Hn)) in Hbad.
    + intros i s Hi Eki. apply (co_names _ _ _ _ Hc i n s slot); (done || congruence).
    + by rewrite (proj2 Hn).
  - destruct (Hvacant n Hs) as [Hn Hnf]. destruct Hs as [Hab _ Hfirst]. apply (Hgoal n (L !!! n) None d1 Hh1); try done.
    + intros i s Hi Ek. by destruct (Hab i s Hi).
    + by rewrite Hnf.
    + by rewrite Hnf.
  - destruct (Hvacant n Hs) as [Hn Hnf]. destruct Hs as [Hab _ Hfirst]. apply (Hgoal n (L !!! n) None d1 Hh1); try done.
    + intros i s Hi Ek. by destruct (Hab i s Hi).
    + by rewrite Hnf.
    + by rewrite Hnf.
Qed.
End flaky.
End ops.
