(* ===== verification/FatProps.v ===== *)
(** * What the file system guarantees

    Mounting, the volume as a map, the space left, and no panic on any disk. *)

From stdpp Require Import functions.
From S2P Require Import Prelude Bytes Disk Fat FatTable FatDir FatFile FatSpec FatFiles.

#[local] Arguments Z.mul : simpl never.
#[local] Arguments Z.add : simpl never.
#[local] Arguments Nat.mul : simpl never.

(** ** Any disk *)

(** [m] never panics; its answers satisfy [P]. *)
Definition tame {D A} (m : io D A) (P : A -> Prop) : Prop := forall d, safe m (fun a _ => P a) (fun _ => True) d.

Lemma tame_ret {D A} (a : A) (P : A -> Prop) : P a -> tame (mret a : io D A) P.
Proof. intros H d. by apply safe_ret. Qed.

Lemma tame_throw {D A} e (P : A -> Prop) : tame (throw e : io D A) P.
Proof. intros d. by apply safe_throw. Qed.

Lemma tame_bind {D A B} (m : io D A) (f : A -> io D B) Q P : tame m Q -> (forall a, Q a -> tame (f a) P) -> tame (m ≫= f) P.
Proof. intros Hm Hf d. eapply safe_bind; [apply Hm|]. intros a d' Ha. by apply Hf. Qed.

Lemma tame_mono {D A} (m : io D A) (P P' : A -> Prop) : tame m P -> (forall a, P a -> P' a) -> tame m P'.
Proof. intros Hm HP d. eapply safe_mono; [apply Hm| |done]. intros a d'. apply HP. Qed.

Lemma tame_lift {D A} (r : result A) (P : A -> Prop) : match r with Ok a => P a | Err _ => True | Panic => False end -> tame (lift r : io D A) P.
Proof. intros H d. unfold safe, lift. by destruct r. Qed.

Lemma tame_for_each {D A} (body : A -> io D unit) l : (forall x, x ∈ l -> tame (body x) (fun _ => True)) -> tame (for_each l body) (fun _ => True).
Proof.
  induction l as [|x l IH]; intros H; cbn [for_each]; [by apply tame_ret|].
  eapply tame_bind; [apply H; left|]. intros _ _. apply IH. intros y Hy. apply H. by right.
Qed.

Lemma list_slots_tame l : forall acc, Forall (fun s => length s = 32%nat) l -> list_slots l acc <> Panic.
Proof.
  induction l as [|s l IH]; intros acc Hl; [done|]. apply Forall_cons in Hl as [Hs Hl]. cbn [list_slots].
  repeat case_match; try done; try by apply IH.
  rewrite entry_of_Ok by done. by apply IH.
Qed.

Lemma search_slots_tame name_ sector_ l : forall i e, Forall (fun s => length s = 32%nat) l -> search_slots name_ sector_ i l e <> Panic.
Proof.
  induction l as [|s l IH]; intros i e Hl; [done|]. apply Forall_cons in Hl as [Hs Hl]. cbn [search_slots].
  repeat case_match; try done; try by apply IH.
  by rewrite entry_of_Ok by done.
Qed.

(** Where a directory slot is. *)
Definition in_sector (e : option (Z * Z)) : Prop := match e with Some (_, o) => 0 <= o <= 480 | None => True end.

Lemma search_slots_where name_ sector_ l : forall i e r, (i + length l <= 16)%nat -> in_sector e -> search_slots name_ sector_ i l e = Ok r ->
  match r with inl (_, o, _) => 0 <= o <= 480 | inr e => in_sector e end.
Proof.
  induction l as [|s l IH]; intros i e r Hi He; cbn [search_slots length] in *; [by intros [= <-]|].
  unfold DIRECTORY_ENTRY_SIZE.
  destruct ((s !!! 0%nat =? ENTRY_FREE) || (s !!! 0%nat =? ENTRY_DELETED)).
  - destruct (default (sector_, Z.of_nat i * 32) e) as [s' o] eqn:Ed.
    assert (Ho : 0 <= o <= 480) by (destruct e as [[? ?]|]; cbn in Ed; unfold id in Ed; injection Ed as <- <-; cbn in He; lia).
    destruct (s !!! 0%nat =? ENTRY_FREE); [by intros [= <-]|]. apply IH; [lia|done].
  - destruct (has _ _); [apply IH; (done || lia)|]. destruct (eq_ignore_ascii_case _ _); [|apply IH; (done || lia)].
    destruct (entry_of s); cbn; [|done..]. intros [= <-]. lia.
Qed.

Section any_disk.
Context {D : Type} `{HL : DiskLaws D}.
Context (v : Volume) (Hb : bytes_per_sector v = 512).

Lemma read_tame lba count : tame (read lba count : io D _) (fun b => length b = (512 * count)%nat).
Proof using HL.
  intros d. unfold safe, read. pose proof (read_never_panics lba count d) as Hp. destruct (disk_read lba count d) as [[b r] d'].
  destruct r as [[]|e|]; [|done|by destruct Hp]. rewrite length_take, length_app, length_replicate. lia.
Qed.

Lemma read_bytes_tame lba count : tame (read lba count : io D _) (fun b => length b = (512 * count)%nat /\ Forall is_byte b).
Proof using HL.
  intros d. pose proof (read_tame lba count d) as Hl. unfold safe, read in *. pose proof (read_sectors lba count d) as Hr.
  destruct (disk_read lba count d) as [[b r] d']. destruct (Hr b r d' eq_refl) as (_ & _ & Hb' & _).
  destruct r as [[]|e|]; [|done..]. split; [exact Hl|]. apply Forall_take, Forall_app. split; [done|]. apply Forall_replicate. unfold is_byte. lia.
Qed.

Lemma write_tame lba bytes : tame (write lba bytes : io D unit) (fun _ => True).
Proof using HL.
  intros d. unfold safe, write. pose proof (write_never_panics lba bytes d) as Hp. destruct (disk_write lba bytes d) as [[[]|e|] d']; try done.
Qed.

Lemma next_cluster_tame c : tame (next_cluster v c : io D Z) (fun _ => True).
Proof using HL Hb.
  unfold next_cluster, fat_entry_location. rewrite Hb. pose proof (fat_within c).
  eapply tame_bind; [apply read_tame|]. intros b Hlen; cbv beta in Hlen. apply tame_lift. unfold read_u16. by rewrite (read_le_Ok 2) by lia.
Qed.

Lemma set_fat_entry_tame c value : tame (set_fat_entry v c value : io D unit) (fun _ => True).
Proof using HL Hb.
  unfold set_fat_entry, fat_entry_location. rewrite Hb. pose proof (fat_within c). apply tame_for_each. intros copy _. cbv zeta.
  eapply tame_bind; [apply read_tame|]. intros b Hlen; cbv beta in Hlen. eapply (tame_bind _ _ (fun _ => True)); [|intros b' _; apply write_tame].
  apply tame_lift. unfold copy_into. rewrite le_length. rewrite (proj2 (Z.leb_le 0 _)), (proj2 (Z.leb_le _ _)) by lia. done.
Qed.

Lemma slots_32 b : length b = (512 * 1)%nat -> Forall (fun s => length s = 32%nat) (slots b) /\ length (slots b) = 16%nat.
Proof using Type.
  intros Hl. unfold slots. rewrite length_map, length_seq, Hl. split; [|done]. apply Forall_forall. intros s Hs.
  apply list_elem_of_In, in_map_iff in Hs as (i & <- & Hi%in_seq). rewrite length_take, length_drop, Hl.
  change (512 * 1 / 32)%nat with 16%nat in Hi. lia.
Qed.

Lemma list_root_tame l : forall acc, tame (list_root v l acc : io D _) (fun _ => True).
Proof using HL.
  induction l as [|i l IH]; intros acc; cbn [list_root]; [by apply tame_ret|].
  eapply tame_bind; [apply read_tame|]. intros b Hlen; cbv beta in Hlen. destruct (slots_32 b Hlen) as [H32 _].
  eapply (tame_bind _ _ (fun _ => True)).
  - apply tame_lift. pose proof (list_slots_tame (slots b) acc H32). by destruct (list_slots _ _).
  - intros [acc' []] _; [by apply tame_ret|apply IH].
Qed.

(** What is read is bytes, whatever the chain. *)
Lemma read_chain_tame budget : forall c w data, 0 <= w <= Z.of_nat (length data) -> Forall is_byte data ->
  tame (read_chain v budget c w data : io D _) (Forall is_byte).
Proof using HL Hb.
  induction budget as [|budget IH]; intros c w data Hw Hd; cbn [read_chain]; destruct ((c <? 2) || (clusters v + 2 <=? c)); try apply tame_throw.
  eapply tame_bind; [apply read_bytes_tame|]. intros b [Hlen Hbb]. cbv zeta. set (wanted := Z.min _ _).
  eapply (tame_bind _ _ (fun p => Z.of_nat (length p) = wanted /\ Forall is_byte p)).
  - apply tame_lift. rewrite slice_Ok by lia. split; [rewrite length_take, length_drop; lia|by apply Forall_take, Forall_drop].
  - intros p [Hp Hpb]. eapply (tame_bind _ _ (fun d' => length d' = length data /\ Forall is_byte d')).
    + apply tame_lift. unfold copy_into. rewrite (proj2 (Z.leb_le 0 _)), (proj2 (Z.leb_le _ _)) by lia. cbn [andb].
      split; [apply splice_length; lia|]. unfold splice. apply Forall_app. split; [by apply Forall_take|]. apply Forall_app. split; [done|by apply Forall_drop].
    + intros data' [Hl Hd']. destruct (_ <=? _); [by apply tame_ret|]. eapply tame_bind; [apply next_cluster_tame|]. intros n _.
      destruct (END_OF_CHAIN <=? n); [apply tame_throw|]. apply IH; [lia|done].
Qed.

Lemma load_file_tame name_ : tame (load_file v name_ : io D _) (Forall is_byte).
Proof using HL Hb.
  unfold load_file, find. eapply (tame_bind _ _ (fun _ => True)).
  - eapply tame_bind; [apply list_root_tame|]. intros l _. case_match; [by apply tame_ret|apply tame_throw].
  - intros e _. assert (H0 : Forall is_byte (replicate (Z.to_nat (size e)) 0)) by (apply Forall_replicate; unfold is_byte; lia).
    unfold read_file. destruct (size e =? 0); [by apply tame_ret|]. apply read_chain_tame; [lia|done].
Qed.

Lemma free_from_tame n : forall c, tame (free_from v n c : io D Z) (fun _ => True).
Proof using HL Hb.
  induction n as [|n IH]; intros c; cbn [free_from]; [apply tame_throw|]. eapply tame_bind; [apply next_cluster_tame|]. intros x _.
  destruct (x =? 0); [by apply tame_ret|apply IH].
Qed.

Lemma claim_tame n : forall c l, tame (claim v n c l : io D _) (fun l' => length l' = (length l + n)%nat).
Proof using HL Hb.
  induction n as [|n IH]; intros c l; cbn [claim]; [apply tame_ret; lia|]. eapply tame_bind; [apply free_from_tame|]. intros x _.
  eapply tame_bind; [apply set_fat_entry_tame|]. intros _ _. eapply tame_mono; [apply IH|]. cbn. intros l'. rewrite length_app. cbn [length]. lia.
Qed.

Lemma write_chain_tame data : tame (write_chain v data : io D Z) (fun _ => True).
Proof using HL Hb.
  unfold write_chain. eapply tame_bind; [apply claim_tame|]. cbn. intros l Hl. eapply tame_bind; [|intros _ _; eapply tame_bind].
  - apply tame_for_each. intros [i c] _. apply write_tame.
  - apply tame_for_each. intros i _. apply set_fat_entry_tame.
  - intros _ _. destruct l; [cbn in Hl; lia|by apply tame_ret].
Qed.

Lemma free_loop_tame n : forall c, tame (free_loop v n c : io D unit) (fun _ => True).
Proof using HL Hb.
  induction n as [|n IH]; intros c; cbn [free_loop]; destruct ((2 <=? c) && (c <? END_OF_CHAIN)); try apply tame_throw; try by apply tame_ret.
  eapply tame_bind; [apply next_cluster_tame|]. intros x _. eapply tame_bind; [apply set_fat_entry_tame|]. intros _ _. apply IH.
Qed.

Lemma count_from_tame n : forall c a, tame (count_from v n c a : io D Z) (fun _ => True).
Proof using HL Hb.
  induction n as [|n IH]; intros c a; cbn [count_from]; [by apply tame_ret|]. eapply tame_bind; [apply next_cluster_tame|]. intros x _. apply IH.
Qed.

Lemma directory_slot_tame name_ : tame (directory_slot v name_ : io D Place) (fun p => 0 <= p.1.2 <= 480).
Proof using HL.
  unfold directory_slot. assert (He : in_sector None) by done. revert He. generalize (@None (Z * Z)). generalize (seq 0 (root_sectors v)) as l.
  induction l as [|i l IH]; intros e He; cbn [search_root].
  - destruct e as [[s o]|]; [by apply tame_ret|apply tame_throw].
  - eapply tame_bind; [apply read_tame|]. intros b Hlen; cbv beta in Hlen. destruct (slots_32 b Hlen) as [H32 H16].
    eapply (tame_bind _ _ (fun r => match r with inl p => 0 <= p.1.2 <= 480 | inr e => in_sector e end)).
    + apply tame_lift. set (s := root_start v + Z.of_nat i). pose proof (search_slots_tame name_ s (slots b) 0 e H32).
      pose proof (fun r => search_slots_where name_ s (slots b) 0 e r ltac:(lia) He) as Hw.
      destruct (search_slots _ _ _ _ _) as [r|x|]; try done. specialize (Hw r eq_refl). by destruct r as [[[? ?] ?]|?].
    + intros [p|e'] Hp; [by apply tame_ret|by apply IH].
Qed.

Lemma patch_tame sector_ o bytes : 0 <= o <= 480 -> (length bytes <= 32)%nat -> tame (patch sector_ o bytes : io D unit) (fun _ => True).
Proof using HL.
  intros Ho Hl. unfold patch. eapply tame_bind; [apply read_tame|]. intros b Hlen; cbv beta in Hlen. eapply (tame_bind _ _ (fun _ => True)); [|intros; apply write_tame].
  apply tame_lift. unfold copy_into. rewrite (proj2 (Z.leb_le 0 _)), (proj2 (Z.leb_le _ _)) by lia. done.
Qed.

Lemma release_tame c : tame (if 2 <=? c then free_chain v c else mret tt : io D unit) (fun _ => True).
Proof using HL Hb. destruct (2 <=? c); [apply free_loop_tame|by apply tame_ret]. Qed.

Lemma create_tame name_ data : tame (create v name_ data : io D unit) (fun _ => True).
Proof using HL Hb.
  unfold create. destruct (split_name name_) as [stem ext]. destruct (bool_decide (stem = []) || (8 <? length stem)%nat || (3 <? length ext)%nat) eqn:E;
    [apply tame_throw|]. rewrite !orb_false_iff, !Nat.ltb_ge in E. destruct E as [[_ E8] E3].
  eapply tame_bind; [apply directory_slot_tame|]. intros [[s o] old] Ho.
  eapply (tame_bind _ _ (fun _ => True)).
  - case_bool_decide; [by apply tame_ret|apply write_chain_tame].
  - intros first _. eapply (tame_bind _ _ (fun _ => True)).
    + destruct old; [apply release_tame|by apply tame_ret].
    + intros _ _. apply patch_tame; [done|]. unfold encode_slot. rewrite !length_app, !length_map, !length_replicate, !le_length. cbn [length]. lia.
Qed.

Lemma remove_tame name_ : tame (remove v name_ : io D unit) (fun _ => True).
Proof using HL Hb.
  unfold remove. eapply tame_bind; [apply directory_slot_tame|]. intros [[s o] [e|]] Ho; [|apply tame_throw].
  eapply tame_bind; [apply patch_tame; [done|cbn; lia]|]. intros _ _. apply release_tame.
Qed.
End any_disk.

(** ** The space left *)

Section counting.
Context {D : Type} `{HL : DiskLaws D}.
Context (flaky : Prop) (Hflaky : flaky \/ Reliable D).
Context (v : Volume) (Hg : geometry v).

Definition free_among (F : Z -> Z) (l : list Z) : Z := Z.of_nat (length (filter (fun c => F c = 0) l)).

Lemma count_from_safe F C L n : forall c a d, holds v d F C L -> 2 <= c -> c + Z.of_nat n = clusters v + 2 ->
  safe (count_from v n c a) (fun r d' => r = a + free_among F (map (fun i => c + Z.of_nat i) (seq 0 n)) /\ holds v d' F C L) (fails flaky never) d.
Proof using Hflaky HL Hg.
  induction n as [|n IH]; intros c a d Hh H2 Hc; cbn [count_from].
  - apply safe_ret. unfold free_among. cbn. split; [lia|done].
  - assert (Hv : valid v c) by (unfold valid; lia).
    eapply safe_bind; [by apply (next_cluster_safe flaky Hflaky v Hg c d F C L)|]. intros x d1 (-> & _ & Hh1).
    eapply safe_mono; [apply (IH (c + 1)); [done|lia..]| |done]. intros r d2 [-> Hh2]. split; [|done].
    cbn [seq map]. rewrite <- seq_shift, map_map, Z.add_0_r. unfold free_among. rewrite filter_cons.
    rewrite (map_ext (fun i => c + Z.of_nat (S i)) (fun i => c + 1 + Z.of_nat i)) by (intros; lia).
    destruct (Z.eqb_spec (F c) 0) as [E|E].
    + rewrite decide_True by done. cbn [length]. lia.
    + by rewrite decide_False.
Qed.

Lemma count_free_safe d F C L : holds v d F C L ->
  safe (count_free v) (fun r d' => r = Z.of_nat (length (free_clusters v F)) /\ holds v d' F C L) (fails flaky never) d.
Proof using Hflaky HL Hg.
  intros Hh. pose proof (ge_clusters _ Hg). unfold count_free.
  rewrite (wrap_small 16 (clusters v + 2)) by (unfold in_u; change (2 ^ 16) with 65536; lia).
  eapply safe_mono; [apply (count_from_safe F C L _ 2 0 d Hh); lia| |done]. intros r d' [-> Hh']. split; [|done].
  unfold free_among, free_clusters, all_clusters. by replace (clusters v + 2 - 2) with (clusters v) by lia.
Qed.
End counting.

(** ** Mounting *)

Lemma parse_bpb_geometry sector_ v : length sector_ = 512%nat -> Forall is_byte sector_ -> parse_bpb sector_ = Ok v -> geometry v.
Proof.
  intros Hl Hbytes. unfold parse_bpb, read_u16, read_u32.
  rewrite !(read_le_Ok 2 sector_), (read_le_Ok 4 sector_) by lia.
  assert (Hbyte : forall i : nat, 0 <= sector_ !!! i <= 255).
  { intros i. destruct (decide (i < 512)%nat) as [Hi|Hi].
    - pose proof (list_lookup_lookup_total_lt sector_ i ltac:(lia)) as E. rewrite Forall_lookup in Hbytes. specialize (Hbytes i _ E).
      unfold is_byte in Hbytes. lia.
    - rewrite list_lookup_total_alt, lookup_ge_None_2 by lia. cbn. lia. }
  pose proof (fun at_ => word_bound 2 sector_ at_ Hbytes) as Hw. change (256 ^ Z.of_nat 2) with 65536 in Hw.
  destruct (_ || _); [done|]. cbn [mbind result_bind].
  destruct (Z.eqb_spec (word 2 sector_ 11) SECTOR_SIZE) as [E1|]; cbn [negb]; [|done]. cbv zeta.
  destruct (Z.eqb_spec (sector_ !!! 13%nat) 0) as [|E2]; cbn [orb]; [done|]. destruct (negb (is_power_of_two _)); [done|].
  set (total := (if word 2 sector_ 19 =? 0 then _ else _)). destruct total as [t|e|]; [|done..]. cbn [mbind result_bind].
  destruct (Z.eqb_spec (word 2 sector_ 14) 0) as [|E3]; cbn [orb]; [done|].
  destruct (Z.eqb_spec (sector_ !!! 16%nat) 0) as [|E4]; cbn [orb]; [done|].
  destruct (Z.eqb_spec (word 2 sector_ 22) 0) as [|E5]; cbn [orb]; [done|].
  destruct (t =? 0); [done|]. destruct (t <=? _); [done|].
  set (n := (_ - _) / _). destruct (negb ((4085 <=? n) && (n <? 65525))) eqn:En; [done|].
  apply negb_false_iff, andb_true_iff in En as [En1%Z.leb_le En2%Z.ltb_lt]. intros [= <-].
  pose proof (Hbyte 13%nat). pose proof (Hbyte 16%nat). pose proof (Hw 14). pose proof (Hw 22). pose proof (Hw 17).
  unfold SECTOR_SIZE in E1. constructor; cbn; try lia. unfold root_sectors. cbn. rewrite Z2Nat.id; [done|].
  unfold div_ceil, DIRECTORY_ENTRY_SIZE. rewrite E1. apply Z.div_pos; lia.
Qed.

(** A property of an operation on a disk that may fail, and on one that never
    does, read off its [safe] statements. *)
Lemma outcome {D A} `{HL : DiskLaws D} (m : io D A) (P : A -> D -> Prop) (E : D -> Prop) d :
  (forall flaky, flaky \/ Reliable D -> safe m P (fails flaky E) d) ->
  match m d with
  | (Ok a, d') => P a d'
  | (Err _, d') => Reliable D -> E d'
  | (Panic, _) => False
  end.
Proof.
  intros H. pose proof (H True (or_introl I)) as H1. unfold safe in H1. destruct (m d) as [[a|e|] d'] eqn:Em; try done.
  intros Hr. pose proof (H False (or_intror Hr)) as H2. unfold safe in H2. rewrite Em in H2. by destruct H2.
Qed.

Lemma parse_bpb_safe sector_ : length sector_ = 512%nat -> parse_bpb sector_ <> Panic.
Proof.
  intros Hl. unfold parse_bpb, read_u16, read_u32. rewrite !(read_le_Ok 2 sector_), (read_le_Ok 4 sector_) by lia.
  cbn [mbind result_bind]. set (total := (if word 2 sector_ 19 =? 0 then _ else _)).
  assert (exists t, total = Ok t) as [t ->] by (unfold total; case_match; eauto). cbn [mbind result_bind]. repeat case_match; done.
Qed.

Section guarantees.
Context {D : Type} `{HL : DiskLaws D}.

Lemma mount_safe flaky d : flaky \/ Reliable D ->
  safe mount (fun v d' => parse_bpb (sector d 0) = Ok v /\ forall x, sector d' x = sector d x)
    (fails flaky (fun _ => (disk_present d).1 = false \/ exists e, parse_bpb (sector d 0) = Err e)) d.
Proof.
  intros Hflaky. unfold mount. pose proof (present_sectors d) as Hp. unfold safe. destruct (disk_present d) as [present d1].
  cbn [fst snd] in *. destruct present; cbn [negb]; [|by right; left].
  change (safe (sector_ ← read 0 1; lift (parse_bpb sector_)) (fun v d' => parse_bpb (sector d 0) = Ok v /\ forall x, sector d' x = sector d x)
    (fails flaky (fun _ => true = false \/ exists e, parse_bpb (sector d 0) = Err e)) d1).
  eapply safe_bind; [eapply safe_mono; [apply (read_safe flaky Hflaky 0 1 d1); unfold LBA_LIMIT; lia|intros b s H; exact H|]|].
  { intros s [?|[]]. by left. }
  intros b d2 [-> Hs]. rewrite sectors_one, Hp. unfold safe, lift.
  destruct (parse_bpb (sector d 0)) as [v|e|] eqn:E.
  - split; [done|]. intros x. by rewrite Hs.
  - right. right. by exists e.
  - destruct (parse_bpb_safe (sector d 0)); [apply sector_length|done].
Qed.


Context (v : Volume).

(** C6: looking a name up and reading the file gives the contents the volume
    has under that name (without regard to case), every byte over its whole
    chain of clusters, and keeps the volume; on a disk that does not fail it
    fails only for a name that is not there. *)
Theorem load_file_looks_up (d : D) m name_ : geometry v -> represents v d m ->
  match load_file v name_ d with
  | (Ok data, d') => m !! key name_ = Some data /\ represents v d' m
  | (Err _, d') => Reliable D -> m !! key name_ = None /\ represents v d' m
  | (Panic, _) => False
  end.
Proof.
  intros Hg (ch & Hc & Hst). apply outcome. intros flaky Hf.
  eapply safe_mono; [by apply (load_file_safe v Hg flaky Hf name_ d _ _ _ ch m (holds_start v d))| |].
  - intros data d' [Hm Hh]. split; [done|]. by apply (represents_holds v d' _ _ _ ch m Hh).
  - intros d' [?|[Hm Hh]]; [by left|]. right. split; [done|]. by apply (represents_holds v d' _ _ _ ch m Hh).
Qed.


(** C7: removing a file is deletion from the map of the volume; on a disk that
    does not fail it fails only for a name that is not there, and then the
    files are what they were. *)
Theorem remove_refines_delete (d : D) m name_ : geometry v -> table_fits v -> represents v d m ->
  match remove v name_ d with
  | (Ok _, d') => is_Some (m !! key name_) /\ represents v d' (delete (key name_) m)
  | (Err _, d') => Reliable D -> m !! key name_ = None /\ represents v d' m
  | (Panic, _) => False
  end.
Proof.
  intros Hg Hfit (ch & Hc & Hst).
  pose proof (outcome (remove v name_) (fun _ d' => represents v d' (delete (key name_) m) /\ is_Some (m !! key name_))
    (fun d' => m !! key name_ = None /\ represents v d' m) d) as H.
  specialize (H (fun flaky Hf => remove_safe v Hg flaky Hf name_ d _ _ _ ch m Hfit (holds_start v d) Hc Hst)).
  destruct (remove v name_ d) as [[u|e|] d']; [|done..]. by destruct H.
Qed.


(** [count_free] counts the free entries of the table, and keeps the
    volume. *)
Theorem count_free_counts (d : D) m : geometry v -> represents v d m ->
  match count_free v d with
  | (Ok n, d') => n = Z.of_nat (length (free_clusters v (fat_at v d))) /\ represents v d' m
  | (Err _, _) => Reliable D -> False
  | (Panic, _) => False
  end.
Proof.
  intros Hg (ch & Hc & Hst). 
  pose proof (outcome (count_free v) (fun n d' => n = Z.of_nat (length (free_clusters v (fat_at v d))) /\ represents v d' m) (fun _ => False) d) as H.
  apply H. intros flaky Hf. eapply safe_mono; [by apply (count_free_safe flaky Hf v Hg d _ _ _ (holds_start v d))| |done].
  intros n d' [-> Hh]. split; [done|]. by apply (represents_holds v d' _ _ _ ch m Hh).
Qed.
End guarantees.
