(* ===== verification/FatRun.v ===== *)
(** * The file system on a disk in memory

    A disk that obeys the laws and never fails, a formatted volume on it, and
    the operations run on that volume. *)

From stdpp Require Import functions.
From S2P Require Import Prelude Bytes Disk Fat FatTable FatDir FatFile FatSpec FatFiles FatProps.

(** ** The disk *)

(** Sectors; what is stored counts as 512 bytes whatever it is. *)
Record Platter := mkPlatter { stored_sector : Z -> list Z }.

Definition fit (l : list Z) : list Z := take 512 (map (wrap 8) l ++ replicate 512 0).
Definition platter_sector (d : Platter) (x : Z) : list Z := fit (stored_sector d x).
Definition platter_write (lba : Z) (bytes : list Z) (d : Platter) : Platter :=
  mkPlatter (fun x => if (lba <=? x) && (x <? lba + Z.of_nat (length bytes) / 512)
                      then take 512 (drop (Z.to_nat (512 * (x - lba))) bytes) else stored_sector d x).

#[export] Instance platter_disk : Disk Platter := {
  disk_present d := (true, d);
  disk_read lba count d := (sectors (platter_sector d) lba count, Ok tt, d);
  disk_write lba bytes d := (Ok tt, platter_write lba bytes d)
}.

Lemma fit_length l : length (fit l) = 512%nat.
Proof. unfold fit. rewrite length_take, length_app, length_map, length_replicate. lia. Qed.

Lemma fit_bytes l : Forall is_byte (fit l).
Proof.
  unfold fit. apply Forall_take, Forall_app. split.
  - apply Forall_map, Forall_forall. intros x _. unfold is_byte. pose proof (wrap_in_u 8 x). unfold in_u in *. change (2 ^ 8) with 256 in *. lia.
  - apply Forall_replicate. unfold is_byte. lia.
Qed.

Lemma fit_id l : length l = 512%nat -> Forall is_byte l -> fit l = l.
Proof.
  intros Hl Hb. unfold fit. rewrite take_app_length' by by rewrite length_map. clear Hl.
  induction Hb as [|b l Hb' _ IH]; [done|]. cbn [map]. f_equal; [|done]. apply wrap_small. unfold in_u, is_byte in *. change (2 ^ 8) with 256. lia.
Qed.

#[export] Instance platter_laws : DiskLaws Platter.
Proof.
  refine {| sector := platter_sector |}.
  - intros. apply fit_length.
  - intros. apply fit_bytes.
  - done.
  - intros lba count d bytes r d' [= <- <- <-]. split_and!; try done.
    + rewrite sectors_length; [lia|]. intros. apply fit_length.
    + apply sectors_bytes. intros. apply fit_bytes.
  - done.
  - intros lba count bytes d r d' Hb Hl H0 Hlim Hc [= <- <-].
    assert (Hdiv : Z.of_nat (length bytes) / 512 = Z.of_nat count) by (rewrite Hl; symmetry; apply Z.div_unique_exact; lia).
    unfold platter_sector, platter_write. cbn [stored_sector]. rewrite Hdiv. split.
    + intros x _ Hx. destruct (Z.leb_spec lba x), (Z.ltb_spec x (lba + Z.of_nat count)); cbn [andb]; try done. lia.
    + intros _. apply sectors_split; [done|]. intros i Hi. cbv beta.
      rewrite (proj2 (Z.leb_le _ _)), (proj2 (Z.ltb_lt _ _)) by lia. cbn [andb].
      replace (Z.to_nat (512 * (lba + Z.of_nat i - lba))) with (512 * i)%nat by lia. apply fit_id.
      * rewrite length_take, length_drop. lia.
      * by apply Forall_take, Forall_drop.
  - done.
Defined.

#[export] Instance platter_reliable : Reliable Platter.
Proof. by split. Qed.

(** ** A formatted volume *)

(** One reserved sector, two tables of 17 sectors, 16 directory entries, one
    sector per cluster. *)
Definition boot_sector : list Z :=
  replicate 11 0 ++ le 2 512 ++ [1] ++ le 2 1 ++ [2] ++ le 2 16 ++ le 2 4200 ++ [248] ++ le 2 17 ++ replicate 486 0 ++ [85; 170].
Definition blank_volume : Platter := mkPlatter (fun x => if x =? 0 then boot_sector else []).
Definition small_volume : Volume := mkVolume 512 2 1 1 17 35 16 36 4164.

Lemma small_geometry : geometry small_volume.
Proof. constructor; done. Qed.

Lemma small_fits : table_fits small_volume.
Proof. done. Qed.

Lemma blank_represents : represents small_volume blank_volume ∅.
Proof.
  assert (E : directory_at small_volume blank_volume = replicate 16 (replicate 32 0)) by (vm_compute; reflexivity).
  assert (Hdead : forall i slot, ~ live (directory_at small_volume blank_volume) i slot).
  { intros i slot [Hi Hf]. rewrite E in Hi. apply lookup_replicate in Hi as [-> _]. done. }
  exists (fun _ => []). split.
  - constructor.
    + intros i j a b _ Hi Hj _. rewrite E in Hj. by apply lookup_replicate in Hj as [-> _].
    + intros i slot Hi. by destruct (Hdead i slot).
    + intros i j s t x Hi. by destruct (Hdead i s).
    + intros i j s t Hi. by destruct (Hdead i s).
  - intros k data. split; [done|]. intros (i & slot & Hi & _). by destruct (Hdead i slot).
Qed.

(** ** Files *)

Definition hi_txt : list Z := [104; 105; 46; 116; 120; 116].
Definition text : list Z := replicate 600 7 ++ [33].

Lemma plain_bool name_ : forallb (fun b => (33 <=? b) && (b <=? 126)) name_ = true -> bool_decide (last name_ <> Some 46) = true ->
  negb (bool_decide ((split_name name_).1 = [])) && (length (split_name name_).1 <=? 8)%nat && (length (split_name name_).2 <=? 3)%nat = true ->
  plain name_.
Proof.
  intros H1 H2%bool_decide_eq_true [[H3 H4]%andb_true_iff H5]%andb_true_iff. constructor; try done.
  - apply Forall_forall. intros b Hb%list_elem_of_In. pose proof (proj1 (forallb_forall _ _) H1 b Hb) as [?%Z.leb_le ?%Z.leb_le]%andb_true_iff. lia.
  - apply negb_true_iff, bool_decide_eq_false in H3. apply Nat.leb_le in H4. done.
  - by apply Nat.leb_le.
Qed.

Lemma hi_plain : plain hi_txt.
Proof. by apply plain_bool. Qed.

Lemma text_bytes : Forall is_byte text.
Proof. apply Forall_app. split; [apply Forall_replicate; unfold is_byte; lia|]. repeat constructor; unfold is_byte; lia. Qed.

Definition volume_with_file : Platter := (create small_volume hi_txt text blank_volume).2.

(** The volume after one file. *)
Lemma one_file : represents small_volume volume_with_file {[key hi_txt := text]}.
Proof.
  pose proof blank_represents as (ch & Hc & Hst). unfold volume_with_file.
  pose proof (create_safe small_volume small_geometry False (or_intror platter_reliable) hi_txt text blank_volume _ _ _ ch ∅
    small_fits hi_plain text_bytes ltac:(vm_compute; reflexivity) (holds_start _ _) Hc Hst) as H.
  unfold safe in H. assert (E : exists u, (create small_volume hi_txt text blank_volume).1 = Ok u) by (eexists; vm_compute; reflexivity).
  destruct E as [u E]. destruct (create small_volume hi_txt text blank_volume) as [r d]. cbn [fst snd] in *. by subst r.
Qed.



(** The name in capitals finds the file. *)
Lemma load_file_looks_up_witness : exists d, load_file small_volume [72; 73; 46; 84; 88; 84] volume_with_file = (Ok text, d).
Proof.
  pose proof (load_file_looks_up small_volume volume_with_file _ [72; 73; 46; 84; 88; 84] small_geometry one_file) as H.
  destruct (load_file small_volume [72; 73; 46; 84; 88; 84] volume_with_file) as [[data|e|] d]; [|exfalso|destruct H].
  - exists d. destruct H as [H _]. rewrite lookup_singleton_eq in H. by injection H as ->.
  - destruct (H platter_reliable) as [Hn _]. by rewrite lookup_singleton_eq in Hn.
Defined.

(** Removing it leaves nothing; a second time it is not there. *)
Lemma remove_refines_delete_witness :
  exists d, remove small_volume hi_txt volume_with_file = (Ok tt, d) /\ represents small_volume d ∅ /\
    exists e d', remove small_volume hi_txt blank_volume = (Err e, d') /\ represents small_volume d' ∅.
Proof.
  pose proof (remove_refines_delete small_volume volume_with_file _ hi_txt small_geometry small_fits one_file) as H.
  pose proof (remove_refines_delete small_volume blank_volume _ hi_txt small_geometry small_fits blank_represents) as H0.
  destruct (remove small_volume hi_txt volume_with_file) as [[[]|e|] d].
  - exists d. destruct H as [_ H]. rewrite delete_singleton_eq in H. split; [done|]. split; [done|].
    destruct (remove small_volume hi_txt blank_volume) as [[u|e|] d'].
    + destruct H0 as [[? H0] _]. done.
    + exists e, d'. split; [done|]. by apply H0, platter_reliable.
    + destruct H0.
  - exfalso. destruct (H platter_reliable) as [Hn _]. by rewrite lookup_singleton_eq in Hn.
  - destruct H.
Defined.


Lemma count_free_counts_witness : (count_free small_volume blank_volume).1 = Ok 4164.
Proof.
  pose proof (count_free_counts small_volume blank_volume _ small_geometry blank_represents) as H.
  assert (Hf : length (free_clusters small_volume (fat_at small_volume blank_volume)) = 4164%nat) by (vm_compute; reflexivity).
  destruct (count_free small_volume blank_volume) as [[n|e|] d]; [|exfalso; by apply H, platter_reliable|destruct H].
  destruct H as [-> _]. rewrite Hf. reflexivity.
Defined.
