(* ===== verification/Mkfs.v ===== *)
(** * The image maker: [mkfs/src/main.rs]

    The tool that writes the volume the kernel mounts.  The image is a buffer
    of [IMAGE_SIZE] bytes; an index out of a buffer and a failed [assert!] are
    both a panic, which ends the tool before it writes anything. *)

From S2P Require Import Prelude Bytes Disk Fat.

#[local] Arguments Z.mul : simpl never.
#[local] Arguments Z.add : simpl never.
#[local] Arguments Z.sub : simpl never.
#[local] Arguments Nat.mul : simpl never.

Definition SECTOR : Z := 512.
Definition SECTORS_PER_CLUSTER : Z := 4.
Definition RESERVED_SECTORS : Z := 1.
Definition FAT_COUNT : nat := 2.
Definition ROOT_ENTRIES : Z := 512.
Definition TOTAL_SECTORS : Z := 32768.
Definition SWAP_SECTORS : Z := 16384.
Definition SECTORS_PER_FAT : Z := 32.
Definition ROOT_SECTORS : Z := ROOT_ENTRIES * 32 / SECTOR.
Definition FAT_START : Z := RESERVED_SECTORS.
Definition ROOT_START : Z := FAT_START + Z.of_nat FAT_COUNT * SECTORS_PER_FAT.
Definition DATA_START : Z := ROOT_START + ROOT_SECTORS.

Definition CLUSTERS : Z := (TOTAL_SECTORS - DATA_START) / SECTORS_PER_CLUSTER.
Definition IMAGE_SIZE : Z := (TOTAL_SECTORS + SWAP_SECTORS) * SECTOR.

(** A file to put on the volume; the name is a [String]'s bytes. *)
Record File := mkFile { file_name : list Z; file_data : list Z }.

(** [image[at..at + bytes.len()].copy_from_slice(bytes)]. *)
Definition write_image (at_ : Z) (bytes : list Z) (image : memory) : result memory :=
  if (0 <=? at_) && (at_ + Z.of_nat (length bytes) <=? IMAGE_SIZE) then Ok (put at_ bytes image) else Panic.

(** [list[index] = x]. *)
Definition set_at {A} (index : nat) (x : A) (l : list A) : result (list A) :=
  if (index <? length l)%nat then Ok (<[index := x]> l) else Panic.

Definition assert (b : bool) : result unit := if b then Ok tt else Panic.

(** [for x in l { .. }]. *)
Fixpoint fold_result {A B} (body : B -> A -> result B) (l : list A) (b : B) : result B :=
  match l with [] => Ok b | x :: l => b ← body b x; fold_result body l b end.

(** The fields of the boot sector, in the order they are written. *)
Definition boot_fields : list (Z * list Z) :=
  [(0, [235; 60; 144]);
   (3, [53; 65; 77; 79; 83; 49; 46; 48]);
   (11, le 2 SECTOR);
   (13, [SECTORS_PER_CLUSTER]);
   (14, le 2 RESERVED_SECTORS);
   (16, [Z.of_nat FAT_COUNT]);
   (17, le 2 ROOT_ENTRIES);
   (19, le 2 (wrap 16 TOTAL_SECTORS));
   (21, [248]);
   (22, le 2 SECTORS_PER_FAT);
   (24, le 2 32);
   (26, le 2 8);
   (28, le 4 0);
   (32, le 4 0);
   (36, [128]);
   (38, [41]);
   (39, le 4 1514997153);
   (43, [53; 65; 77; 79; 83; 32; 32; 32; 32; 32; 32]);
   (54, [70; 65; 84; 49; 54; 32; 32; 32]);
   (510, [85]);
   (511, [170])].

Definition write_boot_sector (image : memory) : result memory :=
  fold_result (fun image f => write_image f.1 f.2 image) boot_fields image.

(** The thirty-two bytes of [slot], rewritten. *)
Definition write_directory_entry (slot name_ : list Z) (first_cluster size : Z) : result (list Z) :=
  let '(stem, extension) := match rsplit_once 46 name_ with Some parts => parts | None => (name_, []) end in
  _ ← assert (length stem <=? 8)%nat;
  _ ← assert (length extension <=? 3)%nat;
  slot ← copy_into 0 (replicate 11 32) slot;
  slot ← copy_into 0 (map to_ascii_uppercase stem) slot;
  slot ← copy_into 8 (map to_ascii_uppercase extension) slot;
  slot ← copy_into 11 [32] slot;
  slot ← copy_into 26 (le 2 first_cluster) slot;
  copy_into 28 (le 4 size) slot.

(** What the loop over the files changes. *)
Record Build := mkBuild { image : memory; fat : list Z; next_cluster : Z; directory : list Z }.

Definition needed (data : list Z) : Z := Z.max (div_ceil (Z.of_nat (length data)) (SECTORS_PER_CLUSTER * SECTOR)) 1.

(** [for offset in 0..needed { .. }]. *)
Definition link_clusters (first : Z) (n : nat) (fat : list Z) : result (list Z) :=
  fold_result (fun fat offset =>
    let cluster := first + Z.of_nat offset in
    set_at (Z.to_nat cluster) (if (offset + 1 =? n)%nat then 65535 else wrap 16 (cluster + 1)) fat) (seq 0 n) fat.

Definition add_file (b : Build) (file : nat * File) : result Build :=
  let '(index, file) := file in
  _ ← assert (Z.of_nat index <? ROOT_ENTRIES);
  let needed := needed (file_data file) in
  let first := next_cluster b in
  _ ← assert (first + needed <? CLUSTERS + 2);
  fat ← link_clusters first (Z.to_nat needed) (fat b);
  let start := DATA_START * SECTOR + (first - 2) * SECTORS_PER_CLUSTER * SECTOR in
  image ← write_image start (file_data file) (image b);
  slot ← slice (directory b) (Z.of_nat index * 32) ((Z.of_nat index + 1) * 32);
  slot ← write_directory_entry slot (file_name file) (wrap 16 first) (wrap 32 (Z.of_nat (length (file_data file))));
  directory ← copy_into (Z.of_nat index * 32) slot (directory b);
  mret (mkBuild image fat (first + needed) directory).

(** One copy of the table. *)
Definition write_fat (fat : list Z) (image : memory) (copy : nat) : result memory :=
  let start := (FAT_START + Z.of_nat copy * SECTORS_PER_FAT) * SECTOR in
  fold_result (fun image e => write_image (start + Z.of_nat e.1 * 2) (le 2 e.2) image) (imap pair fat) image.

Definition blank : memory := fun _ => 0.

Definition build (files : list File) : result memory :=
  _ ← assert ((4085 <=? CLUSTERS) && (CLUSTERS <? 65525));
  image0 ← write_boot_sector blank;
  fat0 ← set_at 0 65528 (replicate (Z.to_nat (SECTORS_PER_FAT * SECTOR / 2)) 0);
  fat0 ← set_at 1 65535 fat0;
  b ← fold_result add_file (imap pair files) (mkBuild image0 fat0 2 (replicate (Z.to_nat (ROOT_ENTRIES * 32)) 0));
  image1 ← fold_result (write_fat (fat b)) (seq 0 FAT_COUNT) (image b);
  write_image (ROOT_START * SECTOR) (directory b) image1.
