(* ===== verification/MkfsSpec.v ===== *)
(** * What the image maker writes

    The image of [build] as a whole: the table, the directory and the
    clusters, file after file; and that the kernel's file system reads the
    files back from a disk that holds it. *)

From stdpp Require Import functions.
From S2P Require Import Prelude Bytes Disk Fat FatTable FatDir FatFile FatSpec FatFiles FatProps Mkfs.

#[local] Arguments Z.mul : simpl never.
#[local] Arguments Z.add : simpl never.
#[local] Arguments Z.sub : simpl never.
#[local] Arguments Nat.mul : simpl never.
#[local] Arguments le : simpl never.
#[local] Arguments replicate : simpl never.

(** ** Lists *)

Lemma fold_result_app {A B} (body : B -> A -> result B) l1 l2 b :
  fold_result body (l1 ++ l2) b = (b' ← fold_result body l1 b; fold_result body l2 b').
Proof. revert b. induction l1 as [|x l1 IH]; intros b; cbn [fold_result app]; [done|]. unfold mbind, result_bind in *. destruct (body b x); [apply IH|done..]. Qed.

Lemma imap_snoc {A B} (f : nat -> A -> B) l x : imap f (l ++ [x]) = imap f l ++ [f (length l) x].
Proof. rewrite imap_app. cbn. by rewrite Nat.add_0_r. Qed.

Lemma splice_mid at_ bytes pre old post : Z.of_nat (length pre) = at_ -> length old = length bytes ->
  splice at_ bytes (pre ++ old ++ post) = pre ++ bytes ++ post.
Proof.
  intros Hp Ho. unfold splice. replace (Z.to_nat at_) with (length pre) by lia. rewrite take_app_length. do 2 f_equal.
  rewrite app_assoc, <- Ho, <- length_app. apply drop_app_length.
Qed.

Lemma copy_mid at_ bytes pre old post : Z.of_nat (length pre) = at_ -> length old = length bytes ->
  copy_into at_ bytes (pre ++ old ++ post) = Ok (pre ++ bytes ++ post).
Proof.
  intros Hp Ho. unfold copy_into. rewrite (proj2 (Z.leb_le 0 at_)), (proj2 (Z.leb_le _ _)) by (rewrite ?length_app; lia). cbn [andb].
  by rewrite splice_mid.
Qed.

Lemma mjoin_app {A} (l1 l2 : list (list A)) : mjoin (l1 ++ l2) = mjoin l1 ++ mjoin l2.
Proof. induction l1 as [|l l1 IH]; [done|]. cbn. rewrite <- app_assoc. by f_equal. Qed.

Lemma mjoin_one {A} (l : list A) : mjoin [l] = l.
Proof. apply app_nil_r. Qed.

(** Piece [i] of a list of pieces of one length. *)
Lemma pieces_lookup (n : nat) (ls : list (list Z)) rest i piece : Forall (fun l => length l = n) ls -> ls !! i = Some piece ->
  take n (drop (n * i) (mjoin ls ++ rest)) = piece.
Proof.
  revert i. induction ls as [|l ls IH]; intros i Hl; [done|]. apply Forall_cons in Hl as [Hn Hl]. cbn [mjoin list_join]. rewrite <- app_assoc.
  destruct i as [|i]; cbn [lookup list_lookup].
  - intros [= ->]. rewrite Nat.mul_0_r, drop_0. by apply take_app_length'.
  - intros Hi. replace (n * S i)%nat with (length l + n * i)%nat by lia. rewrite <- drop_drop, drop_app_length. by apply IH.
Qed.

Lemma pieces_length (n : nat) (ls : list (list Z)) : Forall (fun l => length l = n) ls -> length (mjoin ls) = (n * length ls)%nat.
Proof. induction 1 as [|l ls Hl _ IH]; [cbn; lia|]. change (mjoin (l :: ls)) with (l ++ mjoin ls). rewrite length_app, IH. cbn [length]. lia. Qed.

(** ** Memories *)

Lemma bytes_at_app n k m a : bytes_at (n + k) m a = bytes_at n m a ++ bytes_at k m (a + Z.of_nat n).
Proof.
  unfold bytes_at. rewrite seq_app, map_app. f_equal. apply list_eq. intros i. change (map ?f ?l) with (f <$> l). rewrite !list_lookup_fmap.
  destruct (decide (i < k)%nat); [|by rewrite !lookup_seq_ge by lia]. rewrite !lookup_seq_lt by done. cbn. do 2 f_equal. lia.
Qed.

Lemma length_bytes_at n m a : length (bytes_at n m a) = n.
Proof. unfold bytes_at. by rewrite length_map, length_seq. Qed.

Lemma bytes_at_part n k o m a : (o + k <= n)%nat -> take k (drop o (bytes_at n m a)) = bytes_at k m (a + Z.of_nat o).
Proof.
  intros H. replace n with (o + (k + (n - o - k)))%nat by lia. rewrite bytes_at_app, drop_app_length' by (by rewrite length_bytes_at).
  rewrite bytes_at_app. by rewrite take_app_length' by (by rewrite length_bytes_at).
Qed.

Lemma bytes_at_chunks w m n : forall a, mjoin (map (fun i => bytes_at w m (a + Z.of_nat w * Z.of_nat i)) (seq 0 n)) = bytes_at (w * n) m a.
Proof.
  induction n as [|n IH]; intros a; [by rewrite Nat.mul_0_r|]. rewrite seq_S, map_app, mjoin_app, IH. cbn [map]. rewrite mjoin_one.
  replace (w * S n)%nat with (w * n + w)%nat by lia. rewrite bytes_at_app. f_equal. f_equal. lia.
Qed.

Lemma image_put_put a b1 b2 m x : put (a + Z.of_nat (length b1)) b2 (put a b1 m) x = put a (b1 ++ b2) m x.
Proof.
  unfold put. rewrite length_app. destruct (Z.leb_spec a x), (Z.ltb_spec x (a + Z.of_nat (length b1))), (Z.leb_spec (a + Z.of_nat (length b1)) x),
    (Z.ltb_spec x (a + Z.of_nat (length b1) + Z.of_nat (length b2))), (Z.ltb_spec x (a + Z.of_nat (length b1 + length b2))); cbn [andb]; try lia; try done.
  - by rewrite lookup_total_app_l by lia.
  - rewrite lookup_total_app_r by lia. f_equal. lia.
Qed.

Lemma put_ext a b m m' x : m' x = m x -> put a b m' x = put a b m x.
Proof. intros H. unfold put. by rewrite H. Qed.

(** ** The layout, file after file *)

Definition clusters_of (files : list File) : Z := fold_right (fun f n => needed (file_data f) + n) 0 files.

(** The entries of a file's chain, and the bytes of its clusters. *)
Definition links (first : Z) (n : nat) : list Z :=
  map (fun o => if (o + 1 =? n)%nat then 65535 else wrap 16 (first + Z.of_nat o + 1)) (seq 0 n).
Definition padded (data : list Z) : list Z := data ++ replicate (Z.to_nat (2048 * needed data) - length data) 0.
Definition slot_of (first : Z) (f : File) : list Z :=
  encode_slot (split_name (file_name f)).1 (split_name (file_name f)).2 (wrap 16 first) (Z.of_nat (length (file_data f))).

Fixpoint table_from (first : Z) (files : list File) : list Z :=
  match files with [] => [] | f :: files => links first (Z.to_nat (needed (file_data f))) ++ table_from (first + needed (file_data f)) files end.
Fixpoint slots_from (first : Z) (files : list File) : list (list Z) :=
  match files with [] => [] | f :: files => slot_of first f :: slots_from (first + needed (file_data f)) files end.
Definition area (files : list File) : list Z := mjoin (map (fun f => padded (file_data f)) files).

Lemma needed_bound data : 1 <= needed data /\ Z.of_nat (length data) <= 2048 * needed data.
Proof.
  unfold needed, div_ceil, SECTORS_PER_CLUSTER, SECTOR. change (4 * 512) with 2048.
  pose proof (Z.div_mod (Z.of_nat (length data) + 2048 - 1) 2048). pose proof (Z.mod_pos_bound (Z.of_nat (length data) + 2048 - 1) 2048). lia.
Qed.

Lemma clusters_of_app l1 l2 : clusters_of (l1 ++ l2) = clusters_of l1 + clusters_of l2.
Proof. unfold clusters_of. induction l1 as [|f l1 IH]; cbn [app fold_right]; lia. Qed.

Lemma clusters_of_one f : clusters_of [f] = needed (file_data f).
Proof. cbn. lia. Qed.

Lemma clusters_of_nonneg l : 0 <= clusters_of l.
Proof. unfold clusters_of. induction l as [|f l IH]; cbn [fold_right]; [lia|]. pose proof (needed_bound (file_data f)). lia. Qed.

Lemma links_length first n : length (links first n) = n.
Proof. unfold links. by rewrite length_map, length_seq. Qed.

Lemma padded_length data : length (padded data) = Z.to_nat (2048 * needed data).
Proof. unfold padded. rewrite length_app, length_replicate. pose proof (needed_bound data). lia. Qed.

Lemma table_from_app l1 : forall first l2, table_from first (l1 ++ l2) = table_from first l1 ++ table_from (first + clusters_of l1) l2.
Proof.
  induction l1 as [|f l1 IH]; intros first l2; cbn [table_from app]; [f_equal; cbn; lia|]. rewrite IH, <- app_assoc. do 3 f_equal.
  unfold clusters_of. cbn [fold_right]. lia.
Qed.

Lemma slots_from_app l1 : forall first l2, slots_from first (l1 ++ l2) = slots_from first l1 ++ slots_from (first + clusters_of l1) l2.
Proof.
  induction l1 as [|f l1 IH]; intros first l2; cbn [slots_from app]; [f_equal; cbn; lia|]. rewrite IH. do 3 f_equal.
  unfold clusters_of. cbn [fold_right]. lia.
Qed.

Lemma table_from_length l : forall first, Z.of_nat (length (table_from first l)) = clusters_of l.
Proof.
  unfold clusters_of. induction l as [|f l IH]; intros first; cbn [table_from fold_right]; [done|]. rewrite length_app, links_length, Nat2Z.inj_add, IH.
  pose proof (needed_bound (file_data f)). lia.
Qed.

Lemma slots_from_length l : forall first, length (slots_from first l) = length l.
Proof. induction l as [|f l IH]; intros first; cbn [slots_from length]; [done|]. by rewrite IH. Qed.

Lemma area_app l1 l2 : area (l1 ++ l2) = area l1 ++ area l2.
Proof. unfold area. by rewrite map_app, mjoin_app. Qed.

Lemma area_one f : area [f] = padded (file_data f).
Proof. apply mjoin_one. Qed.

Lemma area_length l : Z.of_nat (length (area l)) = 2048 * clusters_of l.
Proof.
  unfold clusters_of. induction l as [|f l IH]; [done|]. change (f :: l) with ([f] ++ l). rewrite area_app, length_app, area_one, padded_length. cbn [app fold_right].
  rewrite Nat2Z.inj_add, IH. pose proof (needed_bound (file_data f)). lia.
Qed.

(** ** The steps *)

Lemma set_at_Ok {A} i (x : A) l : (i < length l)%nat -> set_at i x l = Ok (<[i := x]> l).
Proof. intros H. unfold set_at. by rewrite (proj2 (Nat.ltb_lt _ _)). Qed.

Lemma link_clusters_spec first n pre olds post : 0 <= first -> length pre = Z.to_nat first -> length olds = n ->
  link_clusters first n (pre ++ olds ++ post) = Ok (pre ++ links first n ++ post).
Proof.
  intros H0 Hp Ho. unfold link_clusters.
  assert (G : forall k news, length news = k -> forall olds', length olds' = (n - k)%nat -> (k <= n)%nat ->
    fold_result (fun fat offset => let cluster := first + Z.of_nat offset in
      set_at (Z.to_nat cluster) (if (offset + 1 =? n)%nat then 65535 else wrap 16 (cluster + 1)) fat) (seq k (n - k)) (pre ++ (news ++ olds') ++ post) =
    Ok (pre ++ (news ++ map (fun o => if (o + 1 =? n)%nat then 65535 else wrap 16 (first + Z.of_nat o + 1)) (seq k (n - k))) ++ post)).
  { intros k. remember (n - k)%nat as left_ eqn:El. revert k El. induction left_ as [|left_ IH]; intros k El news Hn olds' Ho' Hk; cbn [seq fold_result map].
    - destruct olds'; [done|done].
    - destruct olds' as [|x olds']; [done|]. cbn [length] in Ho'. cbv zeta. rewrite set_at_Ok by (rewrite !length_app; cbn [length]; lia).
      unfold mbind at 1, result_bind at 1. set (y := if (k + 1 =? n)%nat then _ else _).
      replace (Z.to_nat (first + Z.of_nat k)) with (length pre + (length news + 0))%nat by lia. rewrite insert_app_r, <- app_assoc, insert_app_r. cbn [app insert list_insert].
      replace (news ++ y :: olds' ++ post) with (((news ++ [y]) ++ olds') ++ post) by (by rewrite <- !app_assoc).
      rewrite (IH (S k)); [|lia|rewrite length_app; cbn [length]; lia|lia|lia]. by rewrite <- !app_assoc. }
  pose proof (G 0%nat [] eq_refl olds ltac:(lia) ltac:(lia)) as H. rewrite Nat.sub_0_r in H. exact H.
Qed.

Lemma write_image_Ok at_ bytes m : 0 <= at_ -> at_ + Z.of_nat (length bytes) <= IMAGE_SIZE -> write_image at_ bytes m = Ok (put at_ bytes m).
Proof. intros H0 H1. unfold write_image. by rewrite (proj2 (Z.leb_le 0 _)), (proj2 (Z.leb_le _ IMAGE_SIZE)) by lia. Qed.

Lemma replicate_split {A} (n k : nat) (x : A) : (k <= n)%nat -> replicate n x = replicate k x ++ replicate (n - k) x.
Proof. intros H. rewrite <- replicate_add. f_equal. lia. Qed.

(** On an empty slot the entry is the one [create] would write. *)
Lemma write_directory_entry_spec name_ first size_ :
  let '(stem, extension) := split_name name_ in
  write_directory_entry (replicate 32 0) name_ first size_ =
    if (length stem <=? 8)%nat && (length extension <=? 3)%nat
    then Ok (map to_ascii_uppercase stem ++ replicate (8 - length stem) 32 ++ map to_ascii_uppercase extension ++ replicate (3 - length extension) 32 ++
             [32] ++ replicate 14 0 ++ le 2 first ++ le 4 size_)
    else Panic.
Proof.
  unfold split_name, write_directory_entry. destruct (match rsplit_once 46 name_ with Some parts => parts | None => (name_, []) end) as [stem ext].
  unfold mbind, result_bind, assert. destruct (Nat.leb_spec (length stem) 8); cbn [andb]; [|done]. destruct (Nat.leb_spec (length ext) 3); [|done].
  set (S_ := map to_ascii_uppercase stem). set (E_ := map to_ascii_uppercase ext).
  assert (HS : length S_ = length stem) by apply length_map. assert (HE : length E_ = length ext) by apply length_map.
  change (replicate 32 0) with ([] ++ replicate 11 0 ++ replicate 21 (0 : Z)). rewrite copy_mid by done. cbn [app].
  replace (replicate 11 32 ++ replicate 21 0) with ([] ++ replicate (length stem) 32 ++ (replicate (8 - length stem) 32 ++ replicate 3 32) ++ replicate 21 (0 : Z)).
  2:{ cbn [app]. rewrite <- replicate_add, app_assoc, <- replicate_add. do 2 f_equal. lia. }
  rewrite copy_mid by (rewrite ?length_replicate; done). cbn [app].
  replace (S_ ++ (replicate (8 - length stem) 32 ++ replicate 3 32) ++ replicate 21 0)
    with ((S_ ++ replicate (8 - length stem) 32) ++ replicate (length ext) 32 ++ replicate (3 - length ext) 32 ++ replicate 21 (0 : Z)).
  2:{ rewrite (app_assoc (replicate (length ext) 32)), <- replicate_add. replace (length ext + (3 - length ext))%nat with 3%nat by lia. by rewrite <- !app_assoc. }
  rewrite copy_mid by (rewrite ?length_app, ?length_replicate; lia).
  assert (H11 : length ((S_ ++ replicate (8 - length stem) 32) ++ E_ ++ replicate (3 - length ext) 32) = 11%nat) by (rewrite !length_app, !length_replicate; lia).
  set (N := (S_ ++ replicate (8 - length stem) 32) ++ E_ ++ replicate (3 - length ext) 32) in *.
  replace ((S_ ++ replicate (8 - length stem) 32) ++ E_ ++ replicate (3 - length ext) 32 ++ replicate 21 0) with (N ++ [0] ++ replicate 20 0) by (unfold N; by rewrite <- !app_assoc).
  rewrite copy_mid by (rewrite ?H11; done).
  replace (N ++ [32] ++ replicate 20 0) with ((N ++ [32] ++ replicate 14 0) ++ replicate 2 0 ++ replicate 4 (0 : Z)) by (by rewrite <- !app_assoc).
  assert (H26 : length (N ++ [32] ++ replicate 14 0) = 26%nat) by (rewrite !length_app, H11; done).
  rewrite copy_mid by (rewrite ?H26; done).
  replace ((N ++ [32] ++ replicate 14 0) ++ le 2 first ++ replicate 4 0) with ((N ++ [32] ++ replicate 14 0 ++ le 2 first) ++ replicate 4 (0 : Z) ++ []) by (by rewrite app_nil_r, <- !app_assoc).
  rewrite copy_mid; [|rewrite !length_app, le_length, H11; done|done]. unfold N. by rewrite app_nil_r, <- !app_assoc.
Qed.

(** ** The loop *)

Definition AREA_START : Z := DATA_START * SECTOR.
Definition short_name (f : File) : Prop := (length (split_name (file_name f)).1 <= 8)%nat /\ (length (split_name (file_name f)).2 <= 3)%nat.
(** The files fit the volume. *)
Definition room (files : list File) : Prop := (length files <= 512)%nat /\ clusters_of files < CLUSTERS.

Record built (image0 : memory) (files : list File) (b : Build) : Prop := {
  bu_next : next_cluster b = 2 + clusters_of files;
  bu_fat : fat b = [65528; 65535] ++ table_from 2 files ++ replicate (Z.to_nat (8190 - clusters_of files)) 0;
  bu_directory : directory b = mjoin (slots_from 2 files) ++ replicate (32 * (512 - length files)) 0;
  bu_area x : AREA_START <= x -> image b x = default 0 (area files !! Z.to_nat (x - AREA_START));
  bu_rest x : x < AREA_START -> image b x = image0 x;
  bu_room : room files
}.

Lemma slot_of_length first f : short_name f -> length (slot_of first f) = 32%nat.
Proof. intros [H1 H2]. unfold slot_of, encode_slot. rewrite !length_app, !length_map, !length_replicate, !le_length. cbn [length]. lia. Qed.

Lemma slots_from_32 files : forall first, Forall short_name files -> Forall (fun l => length l = 32%nat) (slots_from first files).
Proof. induction files as [|f files IH]; intros first Hs; cbn [slots_from]; [constructor|]. apply Forall_cons in Hs as [Hf Hs]. constructor; [by apply slot_of_length|by apply IH]. Qed.

(** A directory entry put after the others. *)
Lemma place_slot files f b image0 : built image0 files b -> Forall short_name files -> (length files < 512)%nat ->
  (slot ← slice (directory b) (Z.of_nat (length files) * 32) ((Z.of_nat (length files) + 1) * 32);
   slot ← write_directory_entry slot (file_name f) (wrap 16 (next_cluster b)) (wrap 32 (Z.of_nat (length (file_data f))));
   copy_into (Z.of_nat (length files) * 32) slot (directory b)) =
  if (length (split_name (file_name f)).1 <=? 8)%nat && (length (split_name (file_name f)).2 <=? 3)%nat
  then Ok (mjoin (slots_from 2 (files ++ [f])) ++ replicate (32 * (512 - length (files ++ [f]))) 0) else Panic.
Proof.
  intros Hb Hs Hn. rewrite (bu_directory _ _ _ Hb), (bu_next _ _ _ Hb). set (n := length files) in *.
  assert (Hl : length (mjoin (slots_from 2 files)) = (32 * n)%nat) by (rewrite (pieces_length 32), slots_from_length; [done|by apply slots_from_32]).
  rewrite (replicate_split (32 * (512 - n)) 32) by lia. rewrite slice_Ok by (rewrite ?length_app, ?length_replicate; lia).
  unfold mbind at 1, result_bind at 1. rewrite drop_app_length' by lia. rewrite take_app_length' by (rewrite length_replicate; lia).
  pose proof (write_directory_entry_spec (file_name f) (wrap 16 (2 + clusters_of files)) (wrap 32 (Z.of_nat (length (file_data f))))) as Hw.
  destruct (split_name (file_name f)) as [stem ext] eqn:En. cbn [fst snd]. rewrite Hw. clear Hw.
  destruct ((length stem <=? 8)%nat && (length ext <=? 3)%nat) eqn:Ef; [|done]. unfold mbind, result_bind.
  assert (Hsh : short_name f) by (unfold short_name; rewrite En; apply andb_true_iff in Ef as [?%Nat.leb_le ?%Nat.leb_le]; by split).
  pose proof (slot_of_length (2 + clusters_of files) f Hsh) as Hsl. unfold slot_of, encode_slot in Hsl. rewrite En in Hsl. cbn [fst snd] in Hsl.
  rewrite <- !app_assoc in Hsl. rewrite copy_mid; [|lia|rewrite Hsl; by rewrite length_replicate]. rewrite slots_from_app, mjoin_app. cbn [slots_from]. rewrite mjoin_one.
  unfold slot_of, encode_slot. rewrite En. cbn [fst snd]. f_equal. rewrite length_app. cbn [length]. fold n. rewrite <- !app_assoc. do 9 f_equal. f_equal. lia.
Qed.

Lemma add_file_spec image0 files f b : built image0 files b -> Forall short_name files ->
  match add_file b (length files, f) with
  | Ok b' => built image0 (files ++ [f]) b' /\ short_name f
  | Err _ => False
  | Panic => ~ (room (files ++ [f]) /\ short_name f)
  end.
Proof.
  intros Hb Hs. pose proof Hb as [Hnext Hfat Hdir Harea Hrest [Hn Hc]]. pose proof (clusters_of_nonneg files) as H0. pose proof (needed_bound (file_data f)) as [Hnb Hlen].
  unfold room, CLUSTERS, TOTAL_SECTORS, DATA_START, ROOT_START, FAT_START, RESERVED_SECTORS, SECTORS_PER_FAT, ROOT_SECTORS, ROOT_ENTRIES, SECTOR, SECTORS_PER_CLUSTER, FAT_COUNT in *.
  change ((32768 - (1 + Z.of_nat 2 * 32 + 512 * 32 / 512)) / 4) with 8167 in *.
  assert (Hroom : (length (files ++ [f]) <= 512)%nat /\ clusters_of (files ++ [f]) < 8167 <-> (length files < 512)%nat /\ clusters_of files + needed (file_data f) < 8167).
  { rewrite length_app, clusters_of_app, clusters_of_one. cbn [length]. lia. }
  unfold add_file, assert, mret, result_ret.
  unfold mbind at 1, result_bind at 1. destruct (Z.ltb_spec (Z.of_nat (length files)) ROOT_ENTRIES) as [Hl|Hl]; unfold ROOT_ENTRIES in Hl; [|intros [HR%Hroom _]; lia].
  unfold mbind at 1, result_bind at 1. rewrite Hnext. unfold CLUSTERS at 1. change ((TOTAL_SECTORS - DATA_START) / SECTORS_PER_CLUSTER) with 8167.
  destruct (Z.ltb_spec (2 + clusters_of files + needed (file_data f)) (8167 + 2)) as [Hcl|Hcl]; [|intros [HR%Hroom _]; lia].
  rewrite Hfat. set (N := needed (file_data f)) in *. set (c := clusters_of files) in *.
  rewrite (replicate_split (Z.to_nat (8190 - c)) (Z.to_nat N)) by lia. rewrite (app_assoc [65528; 65535]).
  rewrite link_clusters_spec; [|lia|rewrite length_app; cbn [length]; pose proof (table_from_length files 2); lia|apply length_replicate].
  unfold mbind at 1, result_bind at 1. change (DATA_START * SECTOR) with AREA_START. change ((2 + c - 2) * SECTORS_PER_CLUSTER * SECTOR) with ((2 + c - 2) * 4 * 512).
  assert (HA : AREA_START = 49664) by done. assert (HI : IMAGE_SIZE = 25165824) by done.
  rewrite write_image_Ok by (rewrite ?HA, ?HI; lia). unfold mbind at 1, result_bind at 1.
  pose proof (place_slot files f b image0 Hb Hs ltac:(lia)) as Hp. rewrite Hnext in Hp. fold c in Hp.
  unfold mbind, result_bind in *. destruct (slice _ _ _) as [slot|e|]; [|by case_match|].
  2:{ destruct ((length (split_name (file_name f)).1 <=? 8)%nat && (length (split_name (file_name f)).2 <=? 3)%nat) eqn:Ef; [done|].
      intros [_ [?%Nat.leb_le ?%Nat.leb_le]]. apply andb_false_iff in Ef as [?|?]; congruence. }
  destruct (write_directory_entry _ _ _ _) as [slot'|e|]; [|by case_match|].
  2:{ destruct ((length (split_name (file_name f)).1 <=? 8)%nat && (length (split_name (file_name f)).2 <=? 3)%nat) eqn:Ef; [done|].
      intros [_ [?%Nat.leb_le ?%Nat.leb_le]]. apply andb_false_iff in Ef as [?|?]; congruence. }
  rewrite Hp. destruct ((length (split_name (file_name f)).1 <=? 8)%nat && (length (split_name (file_name f)).2 <=? 3)%nat) eqn:Ef.
  2:{ intros [_ [?%Nat.leb_le ?%Nat.leb_le]]. apply andb_false_iff in Ef as [?|?]; congruence. }
  apply andb_true_iff in Ef as [E1%Nat.leb_le E2%Nat.leb_le]. split; [|by split].
  constructor; cbn [next_cluster fat directory image].
  - rewrite clusters_of_app, clusters_of_one. fold N c. lia.
  - rewrite table_from_app, clusters_of_app, clusters_of_one. cbn [table_from]. fold N c. rewrite app_nil_r, <- !app_assoc. do 4 f_equal. f_equal. lia.
  - done.
  - intros x Hx. rewrite area_app, area_one. pose proof (area_length files) as Hal. fold c in Hal.
    destruct (Z.lt_ge_cases x (AREA_START + 2048 * c)) as [Hlt|Hge].
    + rewrite put_out by lia. rewrite lookup_app_l by lia. by apply Harea.
    + rewrite lookup_app_r by lia. unfold padded. set (o := (Z.to_nat (x - AREA_START) - length (area files))%nat).
      destruct (decide (o < length (file_data f))%nat) as [Hin|Hout].
      * rewrite lookup_app_l by done. replace x with (AREA_START + (2 + c - 2) * 4 * 512 + Z.of_nat o) by lia. rewrite put_in by done.
        destruct (lookup_lt_is_Some_2 _ _ Hin) as [y Hy]. rewrite Hy. by apply list_lookup_total_correct.
      * rewrite lookup_app_r by lia. rewrite put_out by lia. rewrite Harea by done. rewrite lookup_ge_None_2 by lia. cbn [default from_option].
        destruct (replicate _ 0 !! _) as [y|] eqn:Ey; [|done]. by apply lookup_replicate in Ey as [-> _].
  - intros x Hx. rewrite put_out by lia. by apply Hrest.
  - exact (proj2 Hroom ltac:(lia)).
Qed.

Lemma add_files_spec image0 b0 files : built image0 [] b0 ->
  match fold_result add_file (imap pair files) b0 with
  | Ok b => built image0 files b /\ Forall short_name files
  | Err _ => False
  | Panic => ~ (room files /\ Forall short_name files)
  end.
Proof.
  intros Hb. induction files as [|f files IH] using rev_ind; [by split|].
  assert (Hmono : room (files ++ [f]) /\ Forall short_name (files ++ [f]) -> (room files /\ Forall short_name files) /\ short_name f).
  { intros [[H1 H2] [Hs Hf%Forall_inv]%Forall_app]. rewrite length_app in H1. rewrite clusters_of_app, clusters_of_one in H2. cbn [length] in H1.
    pose proof (needed_bound (file_data f)). repeat split; (done || lia || apply Hf). }
  rewrite imap_snoc, fold_result_app. unfold mbind, result_bind. destruct (fold_result add_file (imap pair files) b0) as [b|e|]; [|done|by intros [H _]%Hmono].
  destruct IH as [Hbu Hs]. cbn [fold_result]. pose proof (add_file_spec image0 files f b Hbu Hs) as Ha. unfold mbind, result_bind.
  destruct (add_file b (length files, f)) as [b'|e|]; [|done|].
  - destruct Ha as [Hbu' Hf]. split; [done|]. apply Forall_app. split; [done|by constructor].
  - intros H. apply Ha. split; [apply H|]. by apply Hmono in H as [_ ?].
Qed.

(** ** The tables *)

Lemma write_fat_spec fat copy m : (copy < 2)%nat -> Z.of_nat (length fat) <= 8192 ->
  exists m', write_fat fat m copy = Ok m' /\ forall x, m' x = put ((1 + Z.of_nat copy * 32) * 512) (mjoin (map (le 2) fat)) m x.
Proof.
  intros Hc Hl. unfold write_fat. change ((FAT_START + Z.of_nat copy * SECTORS_PER_FAT) * SECTOR) with ((1 + Z.of_nat copy * 32) * 512).
  set (start := (1 + Z.of_nat copy * 32) * 512). assert (Hs : 512 <= start <= 33 * 512) by lia. clearbody start.
  induction fat as [|v fat IH] using rev_ind.
  - exists m. split; [done|]. intros x. rewrite put_out; [done|]. cbn. lia.
  - rewrite length_app in Hl. cbn [length] in Hl. destruct IH as (m' & E & Hm'); [lia|]. rewrite imap_snoc, fold_result_app, E. unfold mbind, result_bind. cbn [fold_result fst snd].
    assert (HI : IMAGE_SIZE = 25165824) by done. rewrite write_image_Ok by (rewrite ?le_length, ?HI; lia). unfold mbind, result_bind. eexists. split; [reflexivity|].
    intros x. rewrite map_app, mjoin_app. cbn [map]. rewrite mjoin_one, <- image_put_put.
    assert (El : Z.of_nat (length (mjoin (map (le 2) fat))) = Z.of_nat (length fat) * 2).
    { rewrite (pieces_length 2); [rewrite length_map; lia|]. apply Forall_map, Forall_forall. intros. apply le_length. }
    rewrite El. apply put_ext, Hm'.
Qed.

(** ** The image as a whole *)

(** [m] is the image of [files], by region. *)
Record imaged (files : list File) (m : memory) : Prop := {
  im_boot : parse_bpb (bytes_at 512 m 0) = Ok (mkVolume 512 2 4 1 32 65 512 97 8167);
  im_fat i : Z.of_nat i < 8192 -> bytes_at 2 m (512 + 2 * Z.of_nat i) = le 2 (([65528; 65535] ++ table_from 2 files ++ replicate (Z.to_nat (8190 - clusters_of files)) 0) !!! i);
  im_directory : bytes_at (32 * 512) m (65 * 512) = mjoin (slots_from 2 files) ++ replicate (32 * (512 - length files)) 0;
  im_area x : AREA_START <= x -> m x = default 0 (area files !! Z.to_nat (x - AREA_START))
}.

Lemma put_bytes_at a bytes m n o b : (o + b <= n)%nat -> length bytes = n ->
  bytes_at b (put a bytes m) (a + Z.of_nat o) = take b (drop o bytes).
Proof. intros H Hl. pose proof (bytes_at_put a bytes m) as E. rewrite Hl in E. rewrite <- E at 2. by rewrite bytes_at_part. Qed.

Lemma write_fields_out fields : forall m m', fold_result (fun image f => write_image f.1 f.2 image) fields m = Ok m' ->
  Forall (fun f : Z * list Z => f.1 + Z.of_nat (length f.2) <= 512) fields -> forall x, 512 <= x -> m' x = m x.
Proof.
  induction fields as [|f fields IH]; intros m m'; cbn [fold_result]; [by intros [= <-]|]. unfold mbind, result_bind, write_image at 1.
  destruct (_ && _); [|done]. intros E [Hf Hl]%Forall_cons x Hx. rewrite (IH _ _ E Hl x Hx). apply put_out. lia.
Qed.

Lemma boot_parses image0 : write_boot_sector blank = Ok image0 -> parse_bpb (bytes_at 512 image0 0) = Ok (mkVolume 512 2 4 1 32 65 512 97 8167).
Proof.
  intros E. assert (H : match write_boot_sector blank with Ok m => parse_bpb (bytes_at 512 m 0) | _ => Panic end = Ok (mkVolume 512 2 4 1 32 65 512 97 8167)) by (vm_compute; reflexivity).
  by rewrite E in H.
Qed.

Lemma build_spec files :
  match build files with
  | Ok m => imaged files m /\ room files /\ Forall short_name files
  | Err _ => False
  | Panic => ~ (room files /\ Forall short_name files)
  end.
Proof.
  unfold build. change (assert ((4085 <=? CLUSTERS) && (CLUSTERS <? 65525))) with (Ok tt). unfold mbind at 1, result_bind at 1.
  destruct (write_boot_sector blank) as [image0|e|] eqn:Eboot; [|by exfalso; revert Eboot; vm_compute..].
  unfold mbind at 1, result_bind at 1. change (Z.to_nat (SECTORS_PER_FAT * SECTOR / 2)) with (2 + Z.to_nat 8190)%nat.
  rewrite set_at_Ok by (rewrite length_replicate; lia). unfold mbind at 1, result_bind at 1. rewrite set_at_Ok by (rewrite length_insert, length_replicate; lia).
  unfold mbind at 1, result_bind at 1. set (fat0 := <[1%nat := 65535]> _). set (b0 := mkBuild image0 fat0 2 _).
  assert (Hboot : forall x, 512 <= x -> image0 x = 0).
  { intros x Hx. apply (write_fields_out boot_fields blank image0 Eboot); [|done]. repeat constructor; done. }
  assert (Hb0 : built image0 [] b0).
  { constructor; try done.
    - intros x Hx. cbn [image b0]. rewrite Hboot; [done|]. change AREA_START with 49664 in Hx. lia.
    - split; [cbn; lia|done]. }
  pose proof (add_files_spec image0 b0 files Hb0) as Hf. unfold mbind, result_bind. destruct (fold_result add_file _ b0) as [b|e|]; [|done..].
  destruct Hf as [[Hn Hfat Hdir Harea Hrest [Hr1 Hr2]] Hs]. pose proof (clusters_of_nonneg files) as H0.
  change CLUSTERS with 8167 in Hr2.
  assert (Hfl : Z.of_nat (length (fat b)) = 8192).
  { rewrite Hfat, !length_app, length_replicate. pose proof (table_from_length files 2). cbn [length]. lia. }
  destruct (write_fat_spec (fat b) 0 (image b)) as (m1 & E1 & Hm1); [lia|lia|]. destruct (write_fat_spec (fat b) 1 m1) as (m2 & E2 & Hm2); [lia|lia|].
  change (seq 0 FAT_COUNT) with [0%nat; 1%nat]. cbn [fold_result]. unfold mbind, result_bind. rewrite E1, E2.
  change ((1 + Z.of_nat 0 * 32) * 512) with 512 in Hm1. change ((1 + Z.of_nat 1 * 32) * 512) with 16896 in Hm2. change (ROOT_START * SECTOR) with 33280.
  assert (Hl0 : length (mjoin (map (le 2) (fat b))) = (2 * length (fat b))%nat).
  { rewrite (pieces_length 2); [by rewrite length_map|]. apply Forall_map, Forall_forall. intros. apply le_length. }
  assert (Hdl : length (directory b) = (32 * 512)%nat).
  { rewrite Hdir, length_app, length_replicate, (pieces_length 32), slots_from_length by (by apply slots_from_32). lia. }
  assert (HI : IMAGE_SIZE = 25165824) by done. rewrite write_image_Ok by lia. split; [|done].
  assert (Hout : forall x, x < 512 \/ 49664 <= x -> put 33280 (directory b) m2 x = image b x).
  { intros x Hx. rewrite put_out, Hm2, put_out, Hm1, put_out by lia. done. }
  assert (HA : AREA_START = 49664) by done. constructor.
  - rewrite (bytes_at_ext 512 image0); [by apply boot_parses|]. intros x Hx. rewrite Hout by lia. apply Hrest. lia.
  - intros i Hi. rewrite (bytes_at_ext 2 (put 512 (mjoin (map (le 2) (fat b))) (image b))).
    2:{ intros x Hx. rewrite put_out, Hm2, put_out by lia. apply Hm1. }
    replace (512 + 2 * Z.of_nat i) with (512 + Z.of_nat (2 * i)) by lia. rewrite (put_bytes_at _ _ _ (2 * length (fat b))) by (done || lia).
    rewrite <- (app_nil_r (mjoin _)), (pieces_lookup 2 _ [] i (le 2 (fat b !!! i))); [by rewrite Hfat| |].
    + apply Forall_map, Forall_forall. intros. apply le_length.
    + change (map ?f ?l) with (f <$> l). rewrite list_lookup_fmap. destruct (lookup_lt_is_Some_2 (fat b) i ltac:(lia)) as [y Hy].
      rewrite Hy. by rewrite (list_lookup_total_correct _ _ _ Hy).
  - rewrite <- Hdir, <- Hdl. apply bytes_at_put.
  - intros x Hx. rewrite Hout by lia. by apply Harea.
Qed.

(** ** A disk that holds the image *)

Definition volume : Volume := mkVolume 512 2 4 1 32 65 512 97 8167.

Lemma volume_geometry : geometry volume.
Proof. by constructor. Qed.
Lemma volume_fits : table_fits volume.
Proof. done. Qed.

(** A file among the others: its number, its first cluster. *)
Lemma split_at (files : list File) i f : files !! i = Some f -> files = take i files ++ f :: drop (S i) files /\ length (take i files) = i.
Proof. intros H. split; [symmetry; by apply take_drop_middle|]. apply lookup_lt_Some in H. rewrite length_take. lia. Qed.

Definition first_of (files : list File) (i : nat) : Z := 2 + clusters_of (take i files).
Definition chain_of (files : list File) (i : nat) : list Z :=
  match files !! i with Some f => seqZ (first_of files i) (needed (file_data f)) | None => [] end.

Lemma first_of_bound files i f : files !! i = Some f -> clusters_of files < 8167 -> 2 <= first_of files i /\ first_of files i + needed (file_data f) < 8169.
Proof.
  intros Hi Hc. destruct (split_at files i f Hi) as [E _]. unfold first_of. pose proof (clusters_of_nonneg (take i files)). pose proof (clusters_of_nonneg (drop (S i) files)).
  rewrite E in Hc. change (f :: drop (S i) files) with ([f] ++ drop (S i) files) in Hc. rewrite !clusters_of_app, clusters_of_one in Hc. lia.
Qed.

Lemma first_of_apart files i j f : (i < j)%nat -> (j < length files)%nat -> files !! i = Some f -> first_of files i + needed (file_data f) <= first_of files j.
Proof.
  intros Hij Hj Hi. unfold first_of. replace (take j files) with (take i files ++ [f] ++ drop (S i) (take j files)).
  - rewrite !clusters_of_app, clusters_of_one. pose proof (clusters_of_nonneg (drop (S i) (take j files))). lia.
  - cbn [app]. assert (Hi' : take j files !! i = Some f) by (by rewrite lookup_take_lt). pose proof (take_drop_middle _ _ _ Hi') as E. by rewrite take_take, Nat.min_l in E by lia.
Qed.

Lemma chunk_map {A} (g : nat -> A) n : mjoin (map (fun i => map (fun j => g (16 * i + j)%nat) (seq 0 16)) (seq 0 n)) = map g (seq 0 (16 * n)).
Proof.
  induction n as [|n IH]; [done|]. rewrite (seq_S n 0), map_app, mjoin_app, IH. cbn [map]. rewrite mjoin_one. replace (16 * S n)%nat with (16 * n + 16)%nat by lia.
  rewrite seq_app, map_app. f_equal. apply list_eq. intros k. change (map ?f ?l) with (f <$> l). rewrite !list_lookup_fmap.
  destruct (decide (k < 16)%nat); [|by rewrite !lookup_seq_ge by lia]. by rewrite !lookup_seq_lt by done.
Qed.

Lemma slots_from_lookup l : forall first i f, l !! i = Some f -> slots_from first l !! i = Some (slot_of (first + clusters_of (take i l)) f).
Proof.
  induction l as [|g l IH]; intros first i f; [done|]. destruct i as [|i]; cbn [lookup list_lookup slots_from take].
  - intros [= ->]. do 2 f_equal. cbn. lia.
  - intros Hi. rewrite (IH _ _ _ Hi). do 2 f_equal. unfold clusters_of. cbn [fold_right]. lia.
Qed.

(** The directory entry of a file of a full name. *)
Lemma slot_facts first f : plain (file_name f) -> 0 <= first < 65536 -> 0 <= Z.of_nat (length (file_data f)) < 2 ^ 32 ->
  let slot := slot_of first f in
  is_file slot = true /\ word 2 slot 26 = first /\ word 4 slot 28 = Z.of_nat (length (file_data f)) /\ key (decode_name slot) = key (file_name f).
Proof.
  intros Hp Hf Hl slot. pose proof (split_join (file_name f) Hp) as Hsj. destruct Hp as [_ _ [Hne Hls] Hle]. unfold slot, slot_of.
  destruct (split_name (file_name f)) as [stem ext]. cbn [fst snd] in *. destruct Hsj as (Hname & Hstem & Hext).
  rewrite (wrap_small 16) by (unfold in_u; change (2 ^ 16) with 65536; lia).
  destruct (encoded_words stem ext first (Z.of_nat (length (file_data f)))) as [W1 W2]; try done.
  split_and!; [by apply encoded_file|done|done|]. rewrite encoded_name by done. rewrite Hname. unfold key. rewrite !map_app.
  f_equal; [apply key_key|]. case_bool_decide; [done|]. cbn [map]. f_equal. apply key_key.
Qed.

Section burned.
Context {D : Type} `{HL : DiskLaws D}.
Context (d : D) (m : memory) (files : list File).
Hypothesis Hd : forall x, 0 <= x < TOTAL_SECTORS -> sector d x = bytes_at 512 m (512 * x).
Hypothesis Him : imaged files m.
Hypothesis Hc : clusters_of files < 8167.
Hypothesis Hn : (length files <= 512)%nat.
Hypothesis Hs : Forall short_name files.

Lemma sectors_image lba n : 0 <= lba -> lba + Z.of_nat n <= TOTAL_SECTORS -> sectors (sector d) lba n = bytes_at (512 * n) m (512 * lba).
Proof using All.
  intros H0 H1. rewrite (sectors_ext (fun x => bytes_at 512 m (512 * x))) by (intros x Hx; apply Hd; lia). unfold sectors.
  rewrite <- bytes_at_chunks. f_equal. apply map_ext. intros i. f_equal. lia.
Qed.

(** The table. *)
Lemma image_table i f o : files !! i = Some f -> 0 <= o < needed (file_data f) ->
  fat_at volume d (first_of files i + o) = if o + 1 =? needed (file_data f) then 65535 else first_of files i + o + 1.
Proof using All.
  intros Hi Ho. destruct (first_of_bound files i f Hi Hc) as [Hb1 Hb2]. destruct (split_at files i f Hi) as [E Hlen]. set (s := first_of files i) in *.
  set (c := s + o) in *. unfold fat_at, fat_sector. cbn [fat_start volume].
  pose proof (Z.div_mod (c * 2) 512). pose proof (Z.mod_pos_bound (c * 2) 512). assert (Hq : 0 <= c * 2 / 512 < 32) by lia.
  rewrite Hd by (unfold TOTAL_SECTORS; lia). unfold word. rewrite bytes_at_part.
  2:{ pose proof (fat_within c). lia. }
  replace (512 * (1 + c * 2 / 512) + Z.of_nat (Z.to_nat (c * 2 mod 512))) with (512 + 2 * Z.of_nat (Z.to_nat c)) by lia.
  rewrite (im_fat _ _ Him) by lia.
  assert (Hlk : ([65528; 65535] ++ table_from 2 files ++ replicate (Z.to_nat (8190 - clusters_of files)) 0) !! Z.to_nat c =
                Some (if o + 1 =? needed (file_data f) then 65535 else s + o + 1)).
  { rewrite E, table_from_app. cbn [table_from]. set (tail := replicate _ _). pose proof (table_from_length (take i files) 2) as Hl.
    rewrite <- !app_assoc. rewrite (app_assoc [65528; 65535]). rewrite lookup_app_r by (rewrite length_app; cbn [length]; unfold c, s, first_of; lia).
    rewrite lookup_app_l by (rewrite links_length, length_app; cbn [length]; unfold c, s, first_of; lia).
    rewrite length_app. cbn [length]. replace (Z.to_nat c - _)%nat with (Z.to_nat o) by (unfold c, s, first_of; lia).
    unfold links. change (map ?g ?l) with (g <$> l). rewrite list_lookup_fmap, lookup_seq_lt by lia. cbn [fmap option_fmap option_map]. f_equal.
    change (2 + clusters_of (take i files)) with s. destruct (Nat.eqb_spec (0 + Z.to_nat o + 1) (Z.to_nat (needed (file_data f)))), (Z.eqb_spec (o + 1) (needed (file_data f))); try lia; try done.
    rewrite wrap_small; [lia|]. unfold in_u. change (2 ^ 16) with 65536. lia. }
  rewrite (list_lookup_total_correct _ _ _ Hlk), unle_le; [done|]. change (256 ^ Z.of_nat 2) with 65536. destruct (_ =? _); lia.
Qed.

(** The directory. *)
Lemma image_directory : directory_at volume d = slots_from 2 files ++ replicate (512 - length files) (replicate 32 0).
Proof using All.
  assert (E : directory_at volume d = map (fun p => bytes_at 32 m (33280 + 32 * Z.of_nat p)) (seq 0 512)).
  { unfold directory_at. change (root_sectors volume) with 32%nat. change 512%nat with (16 * 32)%nat. rewrite <- chunk_map. f_equal.
    apply map_ext_in. intros i Hi%in_seq. unfold slots_at. cbn [root_start volume]. rewrite Hd by (unfold TOTAL_SECTORS; lia). unfold slots. rewrite length_bytes_at.
    change (512 / 32)%nat with 16%nat. apply map_ext_in. intros j Hj%in_seq. rewrite bytes_at_part by lia. f_equal. lia. }
  rewrite E. apply list_eq. intros p. change (map ?f ?l) with (f <$> l). rewrite list_lookup_fmap.
  destruct (decide (p < 512)%nat) as [Hp|Hp].
  2:{ rewrite lookup_seq_ge by lia. symmetry. apply lookup_ge_None_2. rewrite length_app, length_replicate, slots_from_length. lia. }
  rewrite lookup_seq_lt by done. cbn [fmap option_fmap option_map]. rewrite Nat.add_0_l.
  replace (33280 + 32 * Z.of_nat p) with (65 * 512 + Z.of_nat (32 * p)) by lia. rewrite <- (bytes_at_part (32 * 512)) by lia.
  rewrite (im_directory _ _ Him).
  assert (Hz : replicate (32 * (512 - length files)) 0 = mjoin (replicate (512 - length files) (replicate 32 0))).
  { generalize (512 - length files)%nat as k. induction k as [|k IH]; [by rewrite Nat.mul_0_r|]. rewrite replicate_S. change (mjoin (?x :: ?l)) with (x ++ mjoin l).
    rewrite <- IH, <- replicate_add. f_equal. lia. }
  rewrite Hz, <- mjoin_app. set (L := slots_from 2 files ++ replicate (512 - length files) (replicate 32 0)).
  assert (HL32 : Forall (fun l => length l = 32%nat) L).
  { apply Forall_app. split; [by apply slots_from_32|]. by apply Forall_replicate. }
  assert (Hlen : length L = 512%nat) by (unfold L; rewrite length_app, length_replicate, slots_from_length; lia).
  destruct (lookup_lt_is_Some_2 L p ltac:(lia)) as [slot Hslot]. rewrite Hslot. f_equal. rewrite <- (app_nil_r (mjoin L)). by apply pieces_lookup.
Qed.

(** The clusters of a file. *)
Lemma image_clusters i f : files !! i = Some f -> mjoin (map (cluster_at volume d) (chain_of files i)) = padded (file_data f).
Proof using All.
  intros Hi. unfold chain_of. rewrite Hi. destruct (first_of_bound files i f Hi Hc) as [Hb1 Hb2]. set (s := first_of files i) in *. pose proof (needed_bound (file_data f)) as [Hnb _].
  transitivity (bytes_at (2048 * Z.to_nat (needed (file_data f))) m (49664 + 2048 * (s - 2))).
  - rewrite <- bytes_at_chunks. unfold seqZ. change (?f <$> ?l) with (map f l). rewrite map_map. f_equal. apply map_ext_in. intros k Hk%in_seq.
    unfold cluster_at. assert (Hv : valid volume (Z.of_nat k + s)) by (unfold valid; cbn [clusters volume]; lia).
    rewrite (proj1 (cluster_to_sector_eq volume _ volume_geometry Hv)). cbn [sectors_per_cluster data_start volume]. change (Z.to_nat 4) with 4%nat.
    rewrite sectors_image by (unfold TOTAL_SECTORS; lia). change (512 * 4)%nat with 2048%nat. f_equal. lia.
  - apply list_eq. intros k. destruct (decide (k < 2048 * Z.to_nat (needed (file_data f)))%nat) as [Hk|Hk].
    2:{ rewrite !lookup_ge_None_2; [done|rewrite padded_length; lia|rewrite length_bytes_at; lia]. }
    unfold bytes_at. change (map ?g ?l) with (g <$> l). rewrite list_lookup_fmap, lookup_seq_lt by done. cbn [fmap option_fmap option_map].
    assert (HA : AREA_START = 49664) by done. rewrite (im_area _ _ Him) by lia. destruct (split_at files i f Hi) as [E _].
    assert (Hlk : area files !! Z.to_nat (49664 + 2048 * (s - 2) + Z.of_nat (0 + k) - AREA_START) = padded (file_data f) !! k).
    { rewrite E. change (f :: drop (S i) files) with ([f] ++ drop (S i) files). rewrite !area_app, area_one. pose proof (area_length (take i files)) as Hal.
      rewrite lookup_app_r by (unfold s, first_of; lia). rewrite lookup_app_l by (rewrite padded_length; unfold s, first_of; lia). f_equal. unfold s, first_of. lia. }
    rewrite Hlk. destruct (lookup_lt_is_Some_2 (padded (file_data f)) k) as [y Hy]; [rewrite padded_length; lia|]. by rewrite Hy.
Qed.

(** ** The volume *)

Hypothesis Hplain : Forall (fun f => plain (file_name f)) files.
Hypothesis Hnames : NoDup (map (fun f => key (file_name f)) files).

Lemma image_live i slot : live (directory_at volume d) i slot <-> exists f, files !! i = Some f /\ slot = slot_of (first_of files i) f.
Proof using All.
  rewrite image_directory. unfold live. split.
  - intros [Hi Hf]. apply lookup_app_Some in Hi as [Hi|[Hge Hi]].
    + destruct (files !! i) as [f|] eqn:E; [|apply lookup_ge_None in E; apply lookup_lt_Some in Hi; rewrite slots_from_length in Hi; lia].
      exists f. split; [done|]. rewrite (slots_from_lookup files 2 i f E) in Hi. by injection Hi as <-.
    + apply lookup_replicate in Hi as [-> _]. done.
  - intros (f & Hi & ->). pose proof (first_of_bound files i f Hi Hc) as [H1 H2]. pose proof (needed_bound (file_data f)) as [H3 H4].
    split; [rewrite lookup_app_l by (rewrite slots_from_length; by eapply lookup_lt_Some); by apply (slots_from_lookup files 2)|].
    apply slot_facts; [by apply (proj1 (Forall_lookup _ _) Hplain i)|lia|]. change (2 ^ 32) with 4294967296. lia.
Qed.

Lemma file_facts i f : files !! i = Some f -> let slot := slot_of (first_of files i) f in
  word 2 slot 26 = first_of files i /\ word 4 slot 28 = Z.of_nat (length (file_data f)) /\ key (decode_name slot) = key (file_name f).
Proof using All.
  intros Hi slot. pose proof (first_of_bound files i f Hi Hc) as [H1 H2]. pose proof (needed_bound (file_data f)) as [H3 H4].
  apply slot_facts; [by apply (proj1 (Forall_lookup _ _) Hplain i)|lia|]. change (2 ^ 32) with 4294967296. lia.
Qed.

Lemma elem_of_chain i f x : files !! i = Some f -> x ∈ chain_of files i <-> first_of files i <= x < first_of files i + needed (file_data f).
Proof using Type. intros Hi. unfold chain_of. rewrite Hi. apply elem_of_seqZ. Qed.

Lemma image_chain i f : files !! i = Some f ->
  chain_ok volume (fat_at volume d) (first_of files i) (Z.of_nat (length (file_data f))) (chain_of files i).
Proof using All.
  intros Hi. pose proof (first_of_bound files i f Hi Hc) as [H1 H2]. pose proof (needed_bound (file_data f)) as [H3 H4].
  assert (Hl : length (chain_of files i) = Z.to_nat (needed (file_data f))) by (unfold chain_of; by rewrite Hi, length_seqZ).
  assert (Hlk : forall o, (o < Z.to_nat (needed (file_data f)))%nat -> chain_of files i !!! o = first_of files i + Z.of_nat o).
  { intros o Ho. apply list_lookup_total_correct. unfold chain_of. rewrite Hi. rewrite lookup_seqZ_lt by lia. done. }
  constructor.
  - apply linked_values. intros o Ho. rewrite Hl in Ho. rewrite Hlk by done. rewrite (image_table i f) by (done || lia). unfold link_value. rewrite Hl.
    destruct (Z.eqb_spec (Z.of_nat o + 1) (needed (file_data f))), (Nat.eqb_spec (o + 1) (Z.to_nat (needed (file_data f)))); [done|lia|lia|]. rewrite Hlk by lia. lia.
  - apply Forall_forall. intros x Hx%(elem_of_chain i f x Hi). unfold valid. cbn [clusters volume]. lia.
  - unfold chain_of. rewrite Hi. apply NoDup_seqZ.
  - rewrite Hl. change (cluster_bytes volume) with 2048. lia.
  - unfold chain_of. rewrite Hi. rewrite seqZ_cons by lia. done.
Qed.

Lemma image_consistent : consistent volume (fat_at volume d) (directory_at volume d) (chain_of files).
Proof using All.
  constructor.
  - intros i j a b Hij Ha Hb Hf. rewrite image_directory in Ha, Hb. apply lookup_app_Some in Ha as [Ha|[Hge Ha]].
    + exfalso. assert (Hlive : live (directory_at volume d) i a).
      { apply image_live. destruct (files !! i) as [f|] eqn:E; [|apply lookup_ge_None in E; apply lookup_lt_Some in Ha; rewrite slots_from_length in Ha; lia].
        exists f. split; [done|]. rewrite (slots_from_lookup files 2 i f E) in Ha. by injection Ha as <-. }
      by rewrite (file_not_free _ (proj2 Hlive)) in Hf.
    + rewrite lookup_app_r in Hb by lia. by apply lookup_replicate in Hb as [-> _].
  - intros i slot (f & Hi & ->)%image_live. destruct (file_facts i f Hi) as (-> & -> & _). by apply image_chain.
  - intros i j s t x (f & Hi & _)%image_live (g & Hj & _)%image_live Hx Hy. apply (elem_of_chain i f x Hi) in Hx. apply (elem_of_chain j g x Hj) in Hy.
    destruct (Nat.lt_trichotomy i j) as [Hlt|[?|Hlt]]; [exfalso|done|exfalso].
    + pose proof (first_of_apart files i j f Hlt (lookup_lt_Some _ _ _ Hj) Hi). lia.
    + pose proof (first_of_apart files j i g Hlt (lookup_lt_Some _ _ _ Hi) Hj). lia.
  - intros i j s t (f & Hi & ->)%image_live (g & Hj & ->)%image_live. destruct (file_facts i f Hi) as (_ & _ & ->). destruct (file_facts j g Hj) as (_ & _ & ->). intros E.
    apply (NoDup_lookup (map (fun f => key (file_name f)) files) i j (key (file_name f)) Hnames).
    + change (map ?h ?l) with (h <$> l). by rewrite list_lookup_fmap, Hi.
    + change (map ?h ?l) with (h <$> l). rewrite list_lookup_fmap, Hj. cbn. by rewrite E.
Qed.

Definition files_map : gmap (list Z) (list Z) := list_to_map (map (fun f => (key (file_name f), file_data f)) files).

Lemma image_stored : stored (cluster_at volume d) (directory_at volume d) (chain_of files) files_map.
Proof using All.
  assert (Hcont : forall i f, files !! i = Some f -> contents (cluster_at volume d) (chain_of files i) (Z.of_nat (length (file_data f))) = file_data f).
  { intros i f Hi. unfold contents. rewrite (image_clusters i f Hi), Nat2Z.id. apply take_app_length. }
  intros k data. unfold files_map. rewrite <- elem_of_list_to_map.
  2:{ change (?h <$> ?l) with (map h l). by rewrite map_map. }
  rewrite list_elem_of_fmap. split.
  - intros ([name_ bytes] & [= -> ->] & Hf). apply list_elem_of_lookup in Hf as [i Hi]. pose proof (file_facts i _ Hi) as (_ & Hw & Hk).
    eexists i, _. split; [apply image_live; eexists; split; [exact Hi|reflexivity]|]. split; [exact Hk|]. rewrite Hw. by apply (Hcont i (mkFile name_ bytes)).
  - intros (i & slot & (f & Hi & ->)%image_live & Hk & Hcn). destruct (file_facts i f Hi) as (_ & Hw & Hk'). rewrite Hk' in Hk. rewrite Hw, (Hcont i f Hi) in Hcn.
    exists f. split; [by rewrite Hk, Hcn|]. by eapply list_elem_of_lookup_2.
Qed.

Lemma image_represents : represents volume d files_map.
Proof using All. exists (chain_of files). split; [apply image_consistent|apply image_stored]. Qed.
End burned.

(** C8: what the image maker writes, the kernel reads. For files whose names
    fit the directory and differ, without regard to case, the tool stops if
    and only if there are more than 512 of them or their clusters are too
    many; otherwise, on any disk that holds the image, the kernel mounts the
    volume, the volume is consistent and holds exactly these files, and on a
    disk that does not fail every one of them is read back byte for byte. *)
Theorem image_reads_back {D} `{HL : DiskLaws D} files : Forall (fun f => plain (file_name f)) files ->
  NoDup (map (fun f => key (file_name f)) files) ->
  match build files with
  | Ok m => room files /\ forall d, (forall x, 0 <= x < TOTAL_SECTORS -> sector d x = bytes_at 512 m (512 * x)) ->
      represents volume d (files_map files) /\
      (Reliable D -> (disk_present d).1 = true -> forall f, f ∈ files ->
         ((v ← mount; load_file v (file_name f)) d).1 = Ok (file_data f))
  | Err _ => False
  | Panic => ~ room files
  end.
Proof.
  intros Hplain Hnames. assert (Hs : Forall short_name files).
  { eapply Forall_impl; [exact Hplain|]. intros f [_ _ [_ H1] H2]. by split. }
  pose proof (build_spec files) as H. destruct (build files) as [m|e|]; [|done|by intros ?; apply H].
  destruct H as (Him & [Hn Hc] & _). split; [done|]. intros d Hd.
  pose proof (image_represents d m files Hd Him Hc Hn Hs Hplain Hnames) as Hrep. split; [done|]. intros Hrel Hpres f Hf.
  pose proof (mount_safe False d (or_intror Hrel)) as Hm. unfold safe, mbind, io_bind in *. rewrite (Hd 0), Z.mul_0_r, (im_boot _ _ Him) in Hm by (unfold TOTAL_SECTORS; lia).
  destruct (mount d) as [[v|e|] d1]; [|exfalso; destruct Hm as [?|[Hp|[? ?]]]; [done|congruence|done]|done].
  destruct Hm as [[= <-] Hsec].
  pose proof (image_represents d1 m files (fun x Hx => eq_trans (Hsec x) (Hd x Hx)) Him Hc Hn Hs Hplain Hnames) as (ch & Hcons & Hst).
  pose proof (load_file_safe volume volume_geometry False (or_intror Hrel) (file_name f) d1 _ _ _ ch (files_map files) (holds_start volume d1) Hcons Hst) as Hl.
  assert (Hlk : files_map files !! key (file_name f) = Some (file_data f)).
  { unfold files_map. apply elem_of_list_to_map_1; [change (?h <$> ?l) with (map h l); by rewrite map_map|].
    apply list_elem_of_fmap. by exists f. }
  unfold safe, fails in Hl. change (mkVolume 512 2 4 1 32 65 512 97 8167) with volume. destruct (load_file volume (file_name f) d1) as [[data|e|] d2]; [|exfalso|done].
  - destruct Hl as [Hl _]. cbn [fst]. congruence.
  - destruct Hl as [?|[Hl _]]; [done|congruence].
Qed.
