(* ===== verification/MkfsRun.v ===== *)
(** * An image on a disk

    The image is bytes, so a disk in memory can hold it; two files are put on
    a volume and read back. *)

From S2P Require Import Prelude Bytes Disk Fat FatTable FatDir FatFile FatSpec FatFiles FatProps FatRun Mkfs MkfsSpec.

#[local] Arguments Z.mul : simpl never.
#[local] Arguments Z.add : simpl never.
#[local] Arguments Z.sub : simpl never.
#[local] Arguments Nat.mul : simpl never.
#[local] Arguments le : simpl never.
#[local] Arguments replicate : simpl never.

Lemma fold_result_inv {A B} (P : B -> Prop) (body : B -> A -> result B) l :
  (forall x b b', x ∈ l -> P b -> body b x = Ok b' -> P b') -> forall b b', P b -> fold_result body l b = Ok b' -> P b'.
Proof.
  induction l as [|x l IH]; intros Hb b b' HP; cbn [fold_result]; [by intros [= <-]|]. unfold mbind, result_bind.
  destruct (body b x) as [b1|e|] eqn:E; [|done..]. apply IH; [|by apply (Hb x b); [left|..]]. intros y c c' Hy. apply Hb. by right.
Qed.

Lemma bind_Ok {A B} (r : result A) (f : A -> result B) b : (r ≫= f) = Ok b -> exists a, r = Ok a /\ f a = Ok b.
Proof. destruct r as [a|e|]; cbn; [|done..]. by exists a. Qed.

Lemma write_image_bytes at_ bytes m m' : Forall is_byte bytes -> bytes_ok m -> write_image at_ bytes m = Ok m' -> bytes_ok m'.
Proof. unfold write_image. destruct (_ && _); [|done]. intros Hb Hm [= <-]. by apply put_ok. Qed.

Lemma copy_into_bytes at_ bytes buffer buffer' : Forall is_byte bytes -> Forall is_byte buffer -> copy_into at_ bytes buffer = Ok buffer' -> Forall is_byte buffer'.
Proof. unfold copy_into. destruct (_ && _); [|done]. intros Hb Hm [= <-]. by apply splice_bytes. Qed.

Definition name_bytes (f : File) : Prop := Forall is_byte (file_name f) /\ Forall is_byte (file_data f).

Lemma upper_bytes l : Forall is_byte l -> Forall is_byte (map to_ascii_uppercase l).
Proof.
  intros H. apply Forall_map. eapply Forall_impl; [exact H|]. intros b Hb. unfold is_byte, to_ascii_uppercase in *.
  destruct (Z.leb_spec 97 b), (Z.leb_spec b 122); cbn [andb]; lia.
Qed.

Lemma entry_bytes slot name_ first size_ slot' : Forall is_byte slot -> Forall is_byte name_ ->
  write_directory_entry slot name_ first size_ = Ok slot' -> Forall is_byte slot'.
Proof.
  intros Hs Hn. unfold write_directory_entry. destruct (match rsplit_once 46 name_ with Some parts => parts | None => (name_, []) end) as [stem ext] eqn:E.
  assert (Hp : Forall is_byte stem /\ Forall is_byte ext).
  { destruct (rsplit_once 46 name_) as [[a b]|] eqn:Er; injection E as <- <-; [|by split; [|constructor]].
    apply rsplit_Some in Er as ->. apply Forall_app in Hn as [H1 [_ H2]%Forall_cons]. by split. }
  destruct Hp as [H1 H2]. intros (_ & _ & H)%bind_Ok. apply bind_Ok in H as (_ & _ & H).
  apply bind_Ok in H as (s1 & E1 & H). apply copy_into_bytes in E1; [|apply Forall_replicate; unfold is_byte; lia|done].
  apply bind_Ok in H as (s2 & E2 & H). apply copy_into_bytes in E2; [|by apply upper_bytes|done].
  apply bind_Ok in H as (s3 & E3 & H). apply copy_into_bytes in E3; [|by apply upper_bytes|done].
  apply bind_Ok in H as (s4 & E4 & H). apply copy_into_bytes in E4; [|repeat constructor; unfold is_byte; lia|done].
  apply bind_Ok in H as (s5 & E5 & H). apply copy_into_bytes in E5; [|apply le_bytes|done].
  by apply copy_into_bytes in H; [|apply le_bytes|].
Qed.

Definition build_bytes (b : Build) : Prop := bytes_ok (image b) /\ Forall is_byte (directory b).

Lemma add_file_bytes b i f b' : name_bytes f -> build_bytes b -> add_file b (i, f) = Ok b' -> build_bytes b'.
Proof.
  intros [Hn Hd] [Hi Hdir]. unfold add_file. intros (_ & _ & H)%bind_Ok. cbv zeta in H. apply bind_Ok in H as (_ & _ & H). apply bind_Ok in H as (fat' & _ & H).
  apply bind_Ok in H as (m' & Em & H). apply bind_Ok in H as (slot & Es & H). apply bind_Ok in H as (slot' & Es' & H). apply bind_Ok in H as (dir' & Ed & [= <-]).
  split; cbn [image directory]; [by apply write_image_bytes in Em|]. apply copy_into_bytes in Ed; [done| |done]. apply entry_bytes in Es'; [done| |done].
  unfold slice in Es. case_match; [|done]. injection Es as <-. by apply Forall_take, Forall_drop.
Qed.

Lemma build_is_bytes files m : Forall name_bytes files -> build files = Ok m -> bytes_ok m.
Proof.
  intros Hf. unfold build. intros (_ & _ & H)%bind_Ok. apply bind_Ok in H as (m0 & E0 & H). apply bind_Ok in H as (fat0 & _ & H). apply bind_Ok in H as (fat1 & _ & H).
  apply bind_Ok in H as (b & Eb & H). apply bind_Ok in H as (m1 & E1 & H).
  assert (H0 : bytes_ok m0).
  { apply (fold_result_inv bytes_ok _ boot_fields) with (b := blank) in E0; [done| |intros x; unfold is_byte, blank; lia].
    intros [a l] c c' Hx Hc. apply write_image_bytes; [|done]. assert (Hall : Forall (fun p : Z * list Z => Forall is_byte p.2) boot_fields).
    { apply Forall_forall. intros p Hp. apply Forall_forall. intros v Hv. assert (Hv' : v ∈ mjoin (map snd boot_fields)) by (apply list_elem_of_join; exists p.2; split; [done|by apply list_elem_of_fmap_2]).
      assert (Hc' : forallb (fun b => (0 <=? b) && (b <? 256)) (mjoin (map snd boot_fields)) = true) by (vm_compute; reflexivity).
      rewrite forallb_forall in Hc'. apply list_elem_of_In, Hc' in Hv'. unfold is_byte. apply andb_true_iff in Hv' as [?%Z.leb_le ?%Z.ltb_lt]. lia. }
    rewrite Forall_forall in Hall. by apply (Hall (a, l)). }
  assert (Hb : build_bytes b).
  { apply (fold_result_inv build_bytes _ (imap pair files)) in Eb; [done| |split; [done|apply Forall_replicate; unfold is_byte; lia]].
    intros [i f] c c' Hx Hc. apply add_file_bytes; [|done]. apply elem_of_lookup_imap in Hx as (j & g & [= -> ->] & Hg). by apply (proj1 (Forall_lookup _ _) Hf j). }
  destruct Hb as [Hi Hd]. assert (H1 : bytes_ok m1).
  { apply (fold_result_inv bytes_ok _ (seq 0 FAT_COUNT)) in E1; [done| |done]. intros copy c c' _ Hc E. unfold write_fat in E.
    apply (fold_result_inv bytes_ok _ (imap pair (fat b))) in E; [done| |done]. intros [i v] x x' _ Hx. apply write_image_bytes; [apply le_bytes|done]. }
  by apply write_image_bytes in H.
Qed.

(** ** Two files *)

Definition burn (m : memory) : Platter := mkPlatter (fun x => bytes_at 512 m (512 * x)).

Lemma burn_sector m x : bytes_ok m -> platter_sector (burn m) x = bytes_at 512 m (512 * x).
Proof.
  intros Hm. unfold platter_sector, burn. cbn [stored_sector]. apply fit_id; [apply length_bytes_at|]. unfold bytes_at. apply Forall_map, Forall_forall. intros i _. apply Hm.
Qed.

Definition hi_file : File := mkFile hi_txt text.
Definition none_file : File := mkFile [78; 79; 78; 69] [].

Lemma none_plain : plain (file_name none_file).
Proof. by apply plain_bool. Qed.

Lemma image_reads_back_witness : exists m, build [hi_file; none_file] = Ok m /\
  ((v ← mount; load_file v hi_txt) (burn m)).1 = Ok text /\ ((v ← mount; load_file v [78; 79; 78; 69]) (burn m)).1 = Ok [].
Proof.
  assert (Hp : Forall (fun f => plain (file_name f)) [hi_file; none_file]) by (constructor; [apply hi_plain|constructor; [apply none_plain|constructor]]).
  assert (Hn : NoDup (map (fun f => key (file_name f)) [hi_file; none_file])) by (apply (bool_decide_eq_true_1 _); vm_compute; reflexivity).
  assert (Hroom : room [hi_file; none_file]) by (split; [cbn; lia|vm_compute; reflexivity]).
  assert (Hb : Forall name_bytes [hi_file; none_file]).
  { constructor; [split; [repeat constructor; unfold is_byte; lia|apply text_bytes]|]. constructor; [split; repeat constructor; unfold is_byte; lia|constructor]. }
  pose proof (image_reads_back (D := Platter) [hi_file; none_file] Hp Hn) as H. pose proof (build_is_bytes [hi_file; none_file]) as Hbytes.
  destruct (build [hi_file; none_file]) as [m|e|]; [|destruct H|destruct (H Hroom)].
  destruct H as [_ H]. destruct (H (burn m)) as [_ Hr]; [intros x _; apply burn_sector, (Hbytes m Hb eq_refl)|].
  exists m. split; [reflexivity|]. split.
  - apply (Hr platter_reliable eq_refl hi_file). left.
  - apply (Hr platter_reliable eq_refl none_file). right. left.
Defined.
