(* ===== verification/AtaRun.v ===== *)
(** * The driver on a simulated drive

    A drive that is busy for two polls before each sector and otherwise keeps
    the protocol, and the driver's two transfers on it. *)

From stdpp Require Import functions.
From S2P Require Import Prelude Bytes Disk Fat FatRun Ata.

Record Sim := mkSim { sim_phase : Phase; sim_reg : Z -> Z; sim_media : Z -> list Z }.

Definition with_phase (ph : Phase) (d : Sim) : Sim := mkSim ph (sim_reg d) (sim_media d).
Definition sim_sector (d : Sim) (x : Z) : list Z := fit (sim_media d x).

(** After a whole sector. *)
Definition sim_next (t : Transfer) (lba : Z) (todo : nat) : Phase :=
  match todo with S (S n) => Preparing t (lba + 1) (S n) 2 | _ => Idle end.

Definition sim_access (a : Access) (d : Sim) : Z * Sim :=
  match a, sim_phase d with
  | In8 p, Preparing t lba todo (S polls) => if p =? STATUS then (128, with_phase (Preparing t lba todo polls) d) else (0, d)
  | In8 p, Preparing Flushing lba todo O => if p =? STATUS then (64, with_phase Idle d) else (0, d)
  | In8 p, Preparing t lba todo O => if p =? STATUS then (72, with_phase (Moving t lba todo []) d) else (0, d)
  | In8 p, Idle => (64, d)
  | In8 p, Dead => (255, d)
  | Out8 p v, Idle =>
      if p =? COMMAND then
        match kind v with
        | Some t => (0, with_phase (Preparing t (addressed (sim_reg d)) (counted (sim_reg d)) 2) d)
        | None => (0, d)
        end
      else (0, mkSim Idle (<[p := v]> (sim_reg d)) (sim_media d))
  | In16 _, Moving Reading lba todo bytes =>
      let v := word 2 (sim_sector d lba) (Z.of_nat (length bytes)) in
      (v, with_phase (if (length bytes + 2 <? 512)%nat then Moving Reading lba todo (bytes ++ le 2 v) else sim_next Reading lba todo) d)
  | Out16 _ v, Moving Writing lba todo bytes =>
      (0, if (length bytes + 2 <? 512)%nat then with_phase (Moving Writing lba todo (bytes ++ le 2 v)) d
          else mkSim (sim_next Writing lba todo) (sim_reg d) (<[lba := bytes ++ le 2 v]> (sim_media d)))
  | _, _ => (0, d)
  end.

#[export] Instance sim_ports : Ports Sim := sim_access.

Lemma polls_many : (2 < POLLS)%nat.
Proof. unfold POLLS. lia. Qed.

Lemma sim_after t lba left : after_sector t lba left (sim_next t lba left).
Proof. right. destruct left as [|[|n]]; [done..|]. exists 2%nat. split; [apply polls_many|done]. Qed.

#[export] Instance sim_drive : Drive Sim.
Proof.
  refine {| phase := sim_phase; reg := sim_reg; media := sim_sector |}.
  - intros. apply fit_length.
  - intros. apply fit_bytes.
  - intros a d Hd. unfold access, sim_ports, sim_access. rewrite Hd. by destruct a.
  - intros d Hd. unfold access, sim_ports, sim_access. by rewrite Hd.
  - intros d Hd. unfold access, sim_ports, sim_access. by rewrite Hd.
  - intros d Hd. unfold access, sim_ports, sim_access. by rewrite Hd.
  - intros p v d Hd Hp. unfold access, sim_ports, sim_access. rewrite Hd.
    destruct (Z.eqb_spec p COMMAND) as [->|]; [|done]. exfalso. revert Hp. rewrite list_elem_of_In. cbn. unfold COMMAND, SECTOR_COUNT, LBA_LOW, LBA_MID, LBA_HIGH, DRIVE. lia.
  - intros c t d Hd _ Hk. unfold access, sim_ports, sim_access. rewrite Hd, Hk. split_and!; try done. right; right. exists 2%nat. split; [apply polls_many|done].
  - intros t lba left polls d Hd. unfold access, sim_ports, sim_access. rewrite Hd. destruct polls as [|polls].
    + destruct t; rewrite Z.eqb_refl; cbn; (split; [done|]; split; [done|]); right; right; [right|right|left]; split_and!; try done. by right.
    + destruct t; rewrite Z.eqb_refl; cbn; (split; [done|]; split; [done|]); right; left; split_and!; try done; exists polls; (split; [lia|done]).
  - intros lba left bytes d Hd Hl. unfold access, sim_ports, sim_access. rewrite Hd. split; [done|]. split; [done|]. split; [done|].
    destruct (length bytes + 2 <? 512)%nat; [done|]. apply sim_after.
  - intros lba left bytes v d Hd Hl Hb. unfold access, sim_ports, sim_access. rewrite Hd. cbn [snd].
    destruct (Nat.ltb_spec (length bytes + 2) 512) as [|Hfull]; [done|]. split; [|split; [done|]].
    + intros x Hx. unfold sim_sector. cbn. by rewrite fn_lookup_insert_ne.
    + split; [|apply sim_after]. unfold sim_sector. cbn [sim_media]. rewrite fn_lookup_insert. apply fit_id.
      * rewrite length_app, le_length. lia.
      * apply Forall_app. split; [done|apply le_bytes].
Defined.

(** ** Transfers *)

Definition disk_of (f : Z -> list Z) : Sim := mkSim Idle (fun _ => 0) f.
Definition numbered : Sim := disk_of (fun x => replicate 511 (x mod 256)).


