(* ===== verification/Semaphore.v ===== *)
(** * The semaphore of [kernel/src/sync.rs], interleaved

    Any number of tasks inside [wait], [try_wait] and [signal], cut where the
    code can be preempted: [wait] tests and parks with interrupts off
    ([task::block_until]), [try_wait] is a loop of compare-exchanges that may
    be interrupted between them, and [signal] raises the count before it
    enters the critical section that wakes the sleepers. *)

From stdpp Require Import relations.
From S2P Require Import Prelude TaskTable.

(** ** The counter *)

(** The loop of [try_take]: the value last seen, or how it ended. *)
Inductive Try := Running (current : Z) | Done (got : bool).

(** One turn of the loop; a weak exchange may fail for no reason. *)
Definition try_step (spurious : bool) (t : Try) (count : Z) : Try * Z :=
  match t with
  | Running current =>
      if current =? 0 then (Done false, count)
      else if (count =? current) && negb spurious then (Done true, count - 1)
      else (Running count, count)
  | Done _ => (t, count)
  end.

(** The loop run alone, against any failures of the exchange. *)
Fixpoint try_alone (spurious : list bool) (t : Try) (count : Z) : Try * Z :=
  match spurious with
  | [] => (t, count)
  | b :: spurious => let '(t, count) := try_step b t count in try_alone spurious t count
  end.

(** With nobody else running, as inside [block_until]. *)
Definition try_take (count : Z) : bool * Z := if count =? 0 then (false, count) else (true, count - 1).

(** However the exchange fails, the loop run alone does [try_take] or has not
    ended; and it ends at the first exchange that does not fail. *)
Lemma try_alone_atomic spurious count :
  match try_alone spurious (Running count) count with
  | (Done got, count') => (got, count') = try_take count
  | (Running current, count') => current = count /\ count' = count /\ Forall (fun b => b = true) spurious
  end.
Proof.
  assert (Hdone : forall l got c, try_alone l (Done got) c = (Done got, c)) by (induction l; intros; [done|]; cbn; auto).
  induction spurious as [|b spurious IH]; [by cbn|]. cbn [try_alone try_step]. unfold try_take in *.
  destruct (Z.eqb_spec count 0); [by rewrite Hdone|]. rewrite Z.eqb_refl. destruct b; cbn [andb negb].
  - destruct (try_alone spurious (Running count) count) as [[current|got] c']; [|done].
    destruct IH as (-> & -> & ?). split_and!; try done. by constructor.
  - by rewrite Hdone.
Qed.

(** ** The system *)

Inductive PC :=
| Idle
| Waiting                   (* in [wait]'s [block_until] *)
| Trying (current : Z)      (* in [try_wait], having seen [current] *)
| Signalled.                (* raised the count; wakes the sleepers next *)
#[export] Instance PC_inhabited : Inhabited PC := populate Idle.

(** [taken] and [given] count the permits handed out and handed back. *)
Record Sys := mkSys { count : Z; table : Table; pcs : list PC; taken : Z; given : Z }.

Definition Sys_eta (r : Sys) : Sys := mkSys (count r) (table r) (pcs r) (taken r) (given r).
#[export] Instance set_count : Setter count := fun v r => ltac:(setter Sys_eta count v r).
#[export] Instance set_table : Setter table := fun v r => ltac:(setter Sys_eta table v r).
#[export] Instance set_taken : Setter taken := fun v r => ltac:(setter Sys_eta taken v r).
#[export] Instance set_given : Setter given := fun v r => ltac:(setter Sys_eta given v r).

Definition goto (i : nat) (pc : PC) (s : Sys) : Sys := mkSys (count s) (table s) (<[i := pc]> (pcs s)) (taken s) (given s).

Section system.
(** The semaphore's address, its wait channel, and the count it starts with. *)
Context (channel initial : Z).

Definition take (s : Sys) : Sys := s <| count := count s - 1 |> <| taken := taken s + 1 |>.

(** [fetch_add], the first half of [signal]. *)
Definition raise (s : Sys) : Sys := s <| count := wrap 32 (count s + 1) |> <| given := given s + 1 |>.
(** [wake_all], the second. *)
Definition wake (s : Sys) : Sys := s <| table := (wake_all channel (table s)).2 |>.

(** Task [i] runs to its next scheduling point. *)
Definition turn (spurious : bool) (i : nat) (s : Sys) : Sys :=
  match pcs s !!! i with
  | Idle => s
  | Waiting =>
      let '(got, _) := try_take (count s) in
      if got then goto i Idle (take s) else s <| table := park i channel (table s) |>
  | Trying current =>
      match (try_step spurious (Running current) (count s)).1 with
      | Done got => goto i Idle (if got then take s else s)
      | Running current => goto i (Trying current) s
      end
  | Signalled => goto i Idle (wake s)
  end.

(** A runnable task runs; an idle one enters a call; the rest of the kernel
    does what it likes to the table, short of putting a task to sleep on this
    semaphore. *)
Inductive step : Sys -> Sys -> Prop :=
| step_turn spurious i s : (i < MAX_TASKS)%nat -> state (table s !!! i) = State.Ready -> step s (turn spurious i s)
| step_wait i s : (i < MAX_TASKS)%nat -> pcs s !!! i = Idle -> step s (goto i Waiting s)
| step_try_wait i s : (i < MAX_TASKS)%nat -> pcs s !!! i = Idle -> step s (goto i (Trying (count s)) s)
| step_signal i s : (i < MAX_TASKS)%nat -> pcs s !!! i = Idle -> step s (goto i Signalled (raise s))
| step_other ts s : table_wf ts ->
    (forall i, state (ts !!! i) = State.Blocked (Reason.Channel channel) ->
       state (table s !!! i) = State.Blocked (Reason.Channel channel)) ->
    step s (s <| table := ts |>).

Definition parked (s : Sys) (i : nat) : Prop := state (table s !!! i) = State.Blocked (Reason.Channel channel).

(** [Semaphore::new(initial)] among tasks that are not asleep on it. *)
Definition start (ts : Table) : Sys := mkSys initial ts (replicate MAX_TASKS Idle) 0 0.
Definition reachable (s : Sys) : Prop :=
  exists ts, table_wf ts /\ (forall i, (i < MAX_TASKS)%nat -> ~ parked (start ts) i) /\ rtc step (start ts) s.

Definition waking (s : Sys) : Prop := exists j, (j < MAX_TASKS)%nat /\ pcs s !!! j = Signalled.

(** ** The invariant *)

(** The count, but for the permits lost when [fetch_add] wraps. *)
Definition balanced (c tk gv : Z) : Prop := exists lost, 0 <= lost /\ c = initial + gv - tk - 2 ^ 32 * lost /\ 0 <= tk.

Record inv (s : Sys) : Prop := {
  inv_table : table_wf (table s);
  inv_pcs : length (pcs s) = MAX_TASKS;
  inv_u32 : in_u 32 (count s);
  inv_permits : balanced (count s) (taken s) (given s);
  inv_parked i : (i < MAX_TASKS)%nat -> parked s i -> pcs s !!! i = Waiting;
  inv_owed i : (i < MAX_TASKS)%nat -> parked s i -> 0 < count s -> waking s
}.

Lemma pcs_goto s i pc j : inv s -> (i < MAX_TASKS)%nat -> pcs (goto i pc s) !!! j = if decide (i = j) then pc else pcs s !!! j.
Proof using Type. intros H Hi. apply list_insert_total. by rewrite (inv_pcs s H). Qed.

(** [i], awake, moves on; the count may change if it still fits the permits
    and, when it is raised, [i] goes on to wake. *)
Lemma move_inv s i pc c tk gv : inv s -> (i < MAX_TASKS)%nat -> ~ parked s i -> in_u 32 c -> balanced c tk gv ->
  (0 < c -> 0 < count s \/ pc = Signalled) -> (pcs s !!! i = Signalled -> pc = Signalled) ->
  inv (mkSys c (table s) (<[i := pc]> (pcs s)) tk gv).
Proof using Type.
  intros Hinv Hi Hnp Hc Hp Hup Hkeep. constructor; try done; cbn [table pcs].
  - apply Hinv.
  - rewrite length_insert. apply Hinv.
  - intros j Hj Hpark. change (<[i:=pc]> (pcs s)) with (pcs (goto i pc s)). rewrite pcs_goto by done.
    case_decide; [by subst|]. by apply (inv_parked s Hinv).
  - intros j Hj Hpark Hc0. unfold waking. change (<[i:=pc]> (pcs s)) with (pcs (goto i pc s)). cbn [pcs].
    destruct (Hup Hc0) as [Hc1| ->].
    + destruct (inv_owed s Hinv j Hj Hpark Hc1) as (k & Hk & Hpk). exists k. split; [done|]. change (pcs (goto i pc s) !!! k = Signalled).
      rewrite pcs_goto by done. case_decide; [subst; auto|done].
    + exists i. split; [done|]. change (pcs (goto i Signalled s) !!! i = Signalled). rewrite pcs_goto by done. by rewrite decide_True.
Qed.

Lemma sem_goto_inv s i pc : inv s -> (i < MAX_TASKS)%nat -> ~ parked s i -> (pcs s !!! i = Signalled -> pc = Signalled) -> inv (goto i pc s).
Proof using Type. intros Hinv Hi Hnp Hk. apply move_inv; try done; try apply Hinv. by left. Qed.

Lemma take_goto_inv s i : inv s -> (i < MAX_TASKS)%nat -> ~ parked s i -> pcs s !!! i <> Signalled -> 0 < count s -> inv (goto i Idle (take s)).
Proof using Type.
  intros Hinv Hi Hnp Hs Hc. pose proof (inv_u32 s Hinv) as Hu. destruct (inv_permits s Hinv) as (lost & Hl & E & Ht).
  unfold in_u in Hu. change (2 ^ 32) with 4294967296 in *.
  apply (move_inv s i Idle (count s - 1) (taken s + 1) (given s)); try done; try (by intros; left).
  - unfold in_u. change (2 ^ 32) with 4294967296. lia.
  - exists lost. change (2 ^ 32) with 4294967296. lia.
Qed.

Lemma sem_table_inv s ts : inv s -> table_wf ts ->
  (forall i, (i < MAX_TASKS)%nat -> state (ts !!! i) = State.Blocked (Reason.Channel channel) -> parked s i) -> inv (s <| table := ts |>).
Proof using Type.
  intros Hinv Hts H. pose proof Hinv as []. constructor; try done; unfold parked; cbn [table set_field set_table].
  - intros i Hi Hp. apply inv_parked0; auto.
  - intros i Hi Hp. apply (inv_owed0 i); auto.
Qed.

Lemma sem_turn_inv spurious i s : inv s -> (i < MAX_TASKS)%nat -> state (table s !!! i) = State.Ready -> inv (turn spurious i s).
Proof using Type.
  intros Hinv Hi Hready. assert (Hnp : ~ parked s i) by (unfold parked; by rewrite Hready).
  pose proof (inv_u32 s Hinv) as Hu. unfold in_u in Hu. unfold turn. destruct (pcs s !!! i) as [| |current|] eqn:Epc; [done| | |].
  - unfold try_take. destruct (Z.eqb_spec (count s) 0) as [E|E]; cbn; [|apply take_goto_inv; (done || lia || by rewrite Epc)].
    pose proof Hinv as []. constructor; try done.
    + by apply park_wf.
    + intros j Hj Hp. unfold parked in Hp. cbn [table set_field set_table] in Hp. rewrite park_lookup in Hp by done.
      case_decide; [by subst|auto].
    + cbn. intros. lia.
  - cbn [try_step]. destruct (Z.eqb_spec current 0); cbn [fst]; [by apply sem_goto_inv; rewrite ?Epc|].
    destruct (Z.eqb_spec (count s) current); cbn [andb]; [|by apply sem_goto_inv; rewrite ?Epc].
    destruct spurious; cbn [negb fst]; [by apply sem_goto_inv; rewrite ?Epc|]. apply take_goto_inv; (done || lia || by rewrite Epc).
  - assert (Hwake : forall j, (j < MAX_TASKS)%nat -> ~ parked (goto i Idle (wake s)) j).
    { intros j Hj. unfold parked, wake. cbn [table goto set_field set_table]. rewrite wake_all_lookup, wake_one_state by (done || apply Hinv).
      by case_decide. }
    pose proof Hinv as []. constructor; try done; cbn [goto wake table pcs set_field set_table].
    + by apply wake_all_wf.
    + by rewrite length_insert.
    + intros j Hj Hp. by destruct (Hwake j Hj).
    + intros j Hj Hp. by destruct (Hwake j Hj).
Qed.

Lemma sem_step_inv s s' : inv s -> step s s' -> inv s'.
Proof using Type.
  intros Hinv Hs. assert (Hidle : forall i, (i < MAX_TASKS)%nat -> pcs s !!! i = Idle -> ~ parked s i).
  { intros i Hi Hpc Hp. apply (inv_parked s Hinv i Hi) in Hp. congruence. }
  destruct Hs as [spurious i s Hi Hr|i s Hi Hpc|i s Hi Hpc|i s Hi Hpc|ts s Hts Hother].
  - by apply sem_turn_inv.
  - apply sem_goto_inv; auto. congruence.
  - apply sem_goto_inv; auto. congruence.
  - destruct (inv_permits s Hinv) as (lost & Hl & E & Ht). pose proof (inv_u32 s Hinv) as Hu. unfold in_u in Hu.
    apply (move_inv s i Signalled (wrap 32 (count s + 1)) (taken s) (given s + 1)); auto.
    + by apply wrap_in_u.
    + destruct (decide (count s + 1 < 2 ^ 32)) as [Hlt|Hge].
      * exists lost. rewrite wrap_small by (unfold in_u; lia). lia.
      * exists (lost + 1). assert (Ec : count s + 1 = 2 ^ 32) by lia. rewrite Ec. change (wrap 32 (2 ^ 32)) with 0. lia.
  - apply sem_table_inv; [done..|]. intros i _ Hb. by apply Hother.
Qed.

Lemma rtc_inv s s' : inv s -> rtc step s s' -> inv s'.
Proof using Type. intros H. induction 1 as [|s1 s2 s3 Hs _ IH]; [done|]. apply IH. by eapply sem_step_inv. Qed.

Lemma sem_reachable_inv s : in_u 32 initial -> reachable s -> inv s.
Proof using Type.
  intros Hin (ts & Hts & Hnp & Hrtc). apply (rtc_inv (start ts)); [|done]. constructor; try done.
  - exists 0. cbn. change (2 ^ 32) with 4294967296. lia.
  - intros i Hi Hp. by destruct (Hnp i Hi).
  - intros i Hi Hp. by destruct (Hnp i Hi).
Qed.

(** C14: no wakeup of a semaphore is lost.  Under every interleaving of [wait],
    [try_wait] and [signal], a task that is asleep while a permit is free has
    somebody about to wake it: when nobody is between raising the count and
    [wake_all], every sleeper sleeps at count zero. *)
Theorem semaphore_no_lost_wakeup s i : in_u 32 initial -> reachable s -> (i < MAX_TASKS)%nat -> parked s i ->
  count s = 0 \/ exists j, (j < MAX_TASKS)%nat /\ pcs s !!! j = Signalled.
Proof using Type.
  intros Hin Hr Hi Hp. pose proof (sem_reachable_inv s Hin Hr) as Hinv. pose proof (inv_u32 s Hinv) as Hu. unfold in_u in Hu.
  destruct (decide (count s = 0)) as [|Hc]; [by left|]. right. apply (inv_owed s Hinv i); (done || lia).
Qed.

(** C35: permits are never invented.  Whatever the interleaving, and however
    often a compare-exchange fails, the permits out are at most the initial
    ones less the count - with one, the semaphore is a lock - and exactly that
    until the count itself has wrapped. *)
Theorem semaphore_conserves_permits s : in_u 32 initial -> reachable s ->
  0 <= count s /\ taken s - given s <= initial - count s /\ (initial + given s < 2 ^ 32 -> taken s - given s = initial - count s).
Proof using Type.
  intros Hin Hr. pose proof (sem_reachable_inv s Hin Hr) as Hinv. destruct (inv_permits s Hinv) as (lost & Hl & E & Ht).
  pose proof (inv_u32 s Hinv) as Hu. unfold in_u in Hu. change (2 ^ 32) with 4294967296 in *. split_and!; [lia..|]. intros Hlt.
  assert (lost = 0) as -> by lia. lia.
Qed.
End system.

(** ** Two tasks and a lock *)

(** Task 0 holds the only permit, task 1 sleeps for it, task 0 has raised the
    count and not yet woken it. *)
Definition ready_tasks : Table := test_table [(State.Ready, 0); (State.Ready, 8)].
Definition handing_over : Sys :=
  goto 0 Signalled (raise (turn 7 false 1 (goto 1 Waiting (turn 7 false 0 (goto 0 Waiting (start 1 ready_tasks)))))).

Lemma handing_over_reachable : reachable 7 1 handing_over.
Proof.
  exists ready_tasks. split; [|split].
  - apply test_table_wf; repeat constructor; cbn; unfold MAX_PRIORITY; lia.
  - intros i Hi. unfold MAX_TASKS in Hi. do 8 (destruct i as [|i]; [by vm_compute|]). lia.
  - unfold handing_over.
    eapply rtc_l; [apply (step_wait 7 0); [unfold MAX_TASKS; lia|by vm_compute]|].
    eapply rtc_l; [apply (step_turn 7 false 0); [unfold MAX_TASKS; lia|by vm_compute]|].
    eapply rtc_l; [apply (step_wait 7 1); [unfold MAX_TASKS; lia|by vm_compute]|].
    eapply rtc_l; [apply (step_turn 7 false 1); [unfold MAX_TASKS; lia|by vm_compute]|].
    eapply rtc_l; [apply (step_signal 7 0); [unfold MAX_TASKS; lia|by vm_compute]|].
    apply rtc_refl.
Qed.

Lemma semaphore_no_lost_wakeup_witness :
  parked 7 handing_over 1 /\ count handing_over = 1 /\ exists j, (j < MAX_TASKS)%nat /\ pcs handing_over !!! j = Signalled.
Proof.
  assert (Hp : parked 7 handing_over 1) by (vm_compute; reflexivity). assert (Hc : count handing_over = 1) by (vm_compute; reflexivity).
  split; [exact Hp|]. split; [exact Hc|].
  destruct (semaphore_no_lost_wakeup 7 1 handing_over 1) as [H|H]; [unfold in_u; lia|exact handing_over_reachable|unfold MAX_TASKS; lia|exact Hp| |exact H].
  rewrite Hc in H. discriminate H.
Defined.

Lemma semaphore_conserves_permits_witness : taken handing_over - given handing_over = 0.
Proof.
  destruct (semaphore_conserves_permits 7 1 handing_over) as (_ & _ & H); [unfold in_u; lia|exact handing_over_reachable|].
  rewrite H; vm_compute; reflexivity.
Defined.
