(* ===== verification/Sync.v ===== *)
(** * Locks and claims: [kernel/src/sync.rs]

    One core, its interrupt flag, any number of spin locks and claims, guards
    that are dropped where their scope ends, and an interrupt handler that may
    run wherever interrupts are on.  (The semaphore is in [Semaphore].) *)

From stdpp Require Import gmap.
From S2P Require Import Prelude.

(** [enabled] is the interrupt flag; [locked] and [taken] the locks and claims
    whose flag is set, by address. *)
Record Cpu := mkCpu { enabled : bool; locked : gset Z; taken : gset Z }.

Definition Cpu_eta (r : Cpu) : Cpu := mkCpu (enabled r) (locked r) (taken r).
#[export] Instance set_enabled : Setter enabled := fun v r => ltac:(setter Cpu_eta enabled v r).
#[export] Instance set_locked : Setter locked := fun v r => ltac:(setter Cpu_eta locked v r).
#[export] Instance set_taken : Setter taken := fun v r => ltac:(setter Cpu_eta taken v r).

Definition enable (c : Cpu) : Cpu := c <| enabled := true |>.
Definition disable (c : Cpu) : Cpu := c <| enabled := false |>.

Record Guard := mkGuard { lock_of : Z; interrupts_were_enabled : bool }.

(** ** Spin locks *)

Definition try_lock (lock : Z) (c : Cpu) : option Guard * Cpu :=
  let interrupts_were_enabled := enabled c in
  let c := disable c in
  if bool_decide (lock ∈ locked c) then (None, if interrupts_were_enabled then enable c else c)
  else (Some (mkGuard lock interrupts_were_enabled), c <| locked := {[lock]} ∪ locked c |>).

(** The spin, for as many turns as there is fuel. *)
Fixpoint lock (fuel : nat) (l : Z) (c : Cpu) : option Guard * Cpu :=
  match fuel with
  | O => (None, c)
  | S fuel =>
      match try_lock l c with
      | (Some guard, c) => (Some guard, c)
      | (None, c) => lock fuel l c
      end
  end.

(** [Drop for Guard]. *)
Definition drop_guard (g : Guard) (c : Cpu) : Cpu :=
  let c := c <| locked := locked c ∖ {[lock_of g]} |> in
  if interrupts_were_enabled g then enable c else c.

Definition force_unlock (lock : Z) (c : Cpu) : Cpu := c <| locked := locked c ∖ {[lock]} |>.

(** ** Claims *)

Definition claim_try_take (claim : Z) (c : Cpu) : bool * Cpu :=
  if bool_decide (claim ∈ taken c) then (false, c) else (true, c <| taken := {[claim]} ∪ taken c |>).
Definition is_taken (claim : Z) (c : Cpu) : bool := bool_decide (claim ∈ taken c).
(** [Drop for ClaimGuard]. *)
Definition drop_claim (claim : Z) (c : Cpu) : Cpu := c <| taken := taken c ∖ {[claim]} |>.

(** ** Critical sections *)

(** Code as its locking goes: a scope under a lock, under a claim, in
    [without_interrupts], and a point where the core may take an interrupt. *)
Inductive Code :=
| Skip
| Seq (p q : Code)
| Under (l : Z) (body : Code)
| Claiming (l : Z) (body : Code)
| Masked (body : Code)
| Point.

(** What happened: a lock was got, with the flag inside, or refused, a claim
    too; and whether it happened in the handler. *)
Inductive Event := Locked (l : Z) (interrupts : bool) | Busy (l : Z) | Claimed (l : Z) | Denied (l : Z).
Definition Trace : Type := list (bool * Event).

Section run.
(** What an interrupt does. *)
Context (irq : Cpu -> Trace * Cpu).

Fixpoint run (p : Code) (c : Cpu) : Trace * Cpu :=
  match p with
  | Skip => ([], c)
  | Seq p q =>
      let '(t, c) := run p c in
      let '(t', c) := run q c in (t ++ t', c)
  | Under l body =>
      match try_lock l c with
      | (Some guard, c) =>
          let flag := enabled c in
          let '(t, c) := run body c in ((false, Locked l flag) :: t, drop_guard guard c)
      | (None, c) => ([(false, Busy l)], c)
      end
  | Claiming l body =>
      match claim_try_take l c with
      | (true, c) => let '(t, c) := run body c in ((false, Claimed l) :: t, drop_claim l c)
      | (false, c) => ([(false, Denied l)], c)
      end
  | Masked body =>
      let was_enabled := enabled c in
      let '(t, c) := run body (disable c) in (t, if was_enabled then enable c else c)
  | Point => if enabled c then irq c else ([], c)
  end.
End run.

(** The gate clears the flag, [iretq] puts it back; nothing interrupts the
    handler. *)
Definition interrupted (handler : Code) (c : Cpu) : Trace * Cpu :=
  let '(t, c) := run (fun c => ([], c)) handler (disable c) in (map (fun e => (true, e.2)) t, enable c).
Definition execute (handler p : Code) (c : Cpu) : Trace * Cpu := run (interrupted handler) p c.

(** The handler takes no lock it already holds. *)
Fixpoint tidy (held : gset Z) (p : Code) : bool :=
  match p with
  | Skip | Point => true
  | Seq p q => tidy held p && tidy held q
  | Under l body => bool_decide (l ∉ held) && tidy ({[l]} ∪ held) body
  | Claiming _ body | Masked body => tidy held body
  end.

Definition not_busy (e : bool * Event) : bool := match e.2 with Busy _ => false | _ => true end.
Definition masked (e : bool * Event) : bool := match e.2 with Locked _ flag => negb flag | _ => true end.
(** Under a lock the interrupts are off; a handler is never refused a lock. *)
Definition proper (e : bool * Event) : bool := masked e && (negb e.1 || not_busy e).

(** Interrupts are on only when no lock is held. *)
Definition at_ease (c : Cpu) : Prop := enabled c = true -> locked c = ∅.

Lemma try_lock_free l c : l ∉ locked c ->
  try_lock l c = (Some (mkGuard l (enabled c)), mkCpu false ({[l]} ∪ locked c) (taken c)).
Proof. intros H. unfold try_lock. by rewrite bool_decide_false. Qed.

Lemma try_lock_held l c : l ∈ locked c -> try_lock l c = (None, c).
Proof. intros H. unfold try_lock. rewrite bool_decide_true by done. by destruct c as [[] ? ?]. Qed.

Lemma drop_restores l c : l ∉ locked c -> drop_guard (mkGuard l (enabled c)) (mkCpu false ({[l]} ∪ locked c) (taken c)) = c.
Proof.
  intros H. unfold drop_guard. cbn. assert (E : ({[l]} ∪ locked c) ∖ {[l]} = locked c) by set_solver. destruct c as [[] L T]; cbn in *; by rewrite E.
Qed.

Lemma claim_free l c : l ∉ taken c -> claim_try_take l c = (true, mkCpu (enabled c) (locked c) ({[l]} ∪ taken c)).
Proof. intros H. unfold claim_try_take. by rewrite bool_decide_false. Qed.

Lemma claim_held l c : l ∈ taken c -> claim_try_take l c = (false, c).
Proof. intros H. unfold claim_try_take. by rewrite bool_decide_true. Qed.

Lemma claim_restores l c : l ∉ taken c -> drop_claim l (mkCpu (enabled c) (locked c) ({[l]} ∪ taken c)) = c.
Proof. intros H. assert (E : ({[l]} ∪ taken c) ∖ {[l]} = taken c) by set_solver. destruct c as [e L T]. unfold drop_claim. cbn in *. by rewrite E. Qed.

(** Code ends as it began, whatever it was refused. *)
Lemma run_restores irq p : (forall c, enabled c = true -> at_ease c -> (irq c).2 = c) ->
  forall c, at_ease c -> (run irq p c).2 = c.
Proof.
  intros Hirq. induction p as [|p IHp q IHq|l p IH|l p IH|p IH|]; intros c Hc; cbn [run].
  - done.
  - pose proof (IHp c Hc) as Hp. destruct (run irq p c) as [t c1]. cbn in Hp. subst c1.
    pose proof (IHq c Hc) as Hq. by destruct (run irq q c) as [t' c1].
  - destruct (decide (l ∈ locked c)) as [Hl|Hl]; [by rewrite try_lock_held|]. rewrite try_lock_free by done. cbn [enabled].
    pose proof (IH (mkCpu false ({[l]} ∪ locked c) (taken c)) ltac:(done)) as Hb. destruct (run irq p _) as [t c1]. cbn in Hb. subst c1.
    by apply drop_restores.
  - destruct (decide (l ∈ taken c)) as [Hl|Hl]; [by rewrite claim_held|]. rewrite claim_free by done.
    pose proof (IH (mkCpu (enabled c) (locked c) ({[l]} ∪ taken c)) Hc) as Hb. destruct (run irq p _) as [t c1]. cbn in Hb. subst c1.
    exact (claim_restores l c Hl).
  - pose proof (IH (disable c) ltac:(done)) as Hb. destruct (run irq p (disable c)) as [t c1]. cbn in Hb. subst c1. by destruct c as [[] L T].
  - destruct (enabled c) eqn:E; [by apply Hirq|done].
Qed.

(** A tidy handler is never refused: at its start no lock is held. *)
Lemma handler_never_busy p : forall held c, tidy held p = true -> locked c ⊆ held ->
  let '(t, c') := run (fun c => ([], c)) p c in forallb (fun e => masked e && not_busy e) t = true /\ locked c' ⊆ locked c.
Proof.
  induction p as [|p IHp q IHq|l p IH|l p IH|p IH|]; intros held c Ht Hl; cbn [run tidy] in *.
  - done.
  - apply andb_true_iff in Ht as [Hp Hq]. pose proof (IHp held c Hp Hl) as H. destruct (run _ p c) as [t c1]. destruct H as [H1 H2].
    pose proof (IHq held c1 Hq ltac:(set_solver)) as H'. destruct (run _ q c1) as [t' c2]. destruct H' as [H3 H4].
    rewrite forallb_app, H1, H3. split; [done|set_solver].
  - apply andb_true_iff in Ht as [Hn%bool_decide_eq_true Ht]. rewrite try_lock_free by set_solver. cbn [enabled].
    pose proof (IH ({[l]} ∪ held) (mkCpu false ({[l]} ∪ locked c) (taken c)) Ht ltac:(cbn; set_solver)) as H.
    destruct (run _ p _) as [t c1]. destruct H as [H1 H2]. cbn. split; [done|].
    unfold drop_guard. cbn [lock_of interrupts_were_enabled]. cbn in H2. destruct (enabled c); cbn; set_solver.
  - destruct (decide (l ∈ taken c)); [by rewrite claim_held|]. rewrite claim_free by done.
    pose proof (IH held (mkCpu (enabled c) (locked c) ({[l]} ∪ taken c)) Ht Hl) as H.
    destruct (run _ p _) as [t c1]. exact H.
  - pose proof (IH held (disable c) Ht Hl) as H. destruct (run _ p _) as [t c1]. destruct (enabled c); exact H.
  - by destruct (enabled c).
Qed.

Lemma interrupted_restores h c : enabled c = true -> at_ease c -> (interrupted h c).2 = c.
Proof.
  intros He Hc. unfold interrupted. pose proof (run_restores (fun c => ([], c)) h (fun c _ _ => eq_refl) (disable c) ltac:(done)) as H.
  destruct (run _ h (disable c)) as [t c1]. cbn in H. subst c1. destruct c as [e L T]. cbn in *. by subst e.
Qed.


(** On one core a lock that is not free stays so: [lock] takes a free lock at
    once and never returns from a held one. *)
Lemma lock_spec fuel l c : lock (S fuel) l c =
  if bool_decide (l ∈ locked c) then (None, c) else (Some (mkGuard l (enabled c)), mkCpu false ({[l]} ∪ locked c) (taken c)).
Proof.
  revert c. induction fuel as [|fuel IH]; intros c; cbn [lock]; case_bool_decide as H.
  - by rewrite try_lock_held.
  - by rewrite try_lock_free.
  - rewrite try_lock_held by done. etransitivity; [apply IH|]. by rewrite bool_decide_true.
  - by rewrite try_lock_free.
Qed.

(** A print inside a print inside a masked section, under a timer that prints. *)
Definition printing : Code := Seq Point (Under 1 (Seq Point (Masked (Under 2 (Seq Point (Under 1 Skip)))))).
Definition ticking : Code := Seq (Under 1 Point) (Claiming 9 (Under 2 Skip)).

