(* ===== verification/Input.v ===== *)
(** * Typed input: [kernel/src/keyboard.rs] and the queue of [serial.rs]

    Two rings filled by interrupt handlers, the scancode decoder that empties
    one of them, and the console read that takes bytes from both.  Each
    operation runs with interrupts off, so they are interleaved whole. *)

From S2P Require Import Prelude.

Definition CAPACITY : nat := 128.
Definition INPUT_CAPACITY : nat := 256.

(** ** The rings *)

Record Queue := mkQueue { buffer : list Z; read : nat; write : nat }.

Definition empty_queue (capacity : nat) : Queue := mkQueue (replicate capacity 0) 0 0.

(** [push_scancode], [push_input]: a byte that does not fit is dropped. *)
Definition push (capacity : nat) (byte : Z) (q : Queue) : Queue :=
  let next := ((write q + 1) mod capacity)%nat in
  if (next =? read q)%nat then q else mkQueue (<[write q := byte]> (buffer q)) (read q) next.

(** [pop_scancode], [read_input]. *)
Definition pop (capacity : nat) (q : Queue) : option Z * Queue :=
  if (read q =? write q)%nat then (None, q)
  else (Some (buffer q !!! read q), mkQueue (buffer q) ((read q + 1) mod capacity)%nat (write q)).

Section ring.
Context (n : nat) (Hn : (1 < n)%nat).

Definition used (q : Queue) : nat := ((write q + n - read q) mod n)%nat.
Definition contents (q : Queue) : list Z := map (fun i => buffer q !!! ((read q + i) mod n)%nat) (seq 0 (used q)).
Record queue_wf (q : Queue) : Prop := { qw_buffer : length (buffer q) = n; qw_read : (read q < n)%nat; qw_write : (write q < n)%nat }.

Lemma empty_queue_wf : queue_wf (empty_queue n) /\ contents (empty_queue n) = [].
Proof using Hn.
  split; [split; cbn; [apply length_replicate|lia..]|]. unfold contents, used. cbn [read write empty_queue].
  replace (0 + n - 0)%nat with n by lia. by rewrite Nat.Div0.mod_same.
Qed.

Lemma used_cases q : queue_wf q -> used q = (if (read q <=? write q)%nat then (write q - read q)%nat else (write q + n - read q)%nat).
Proof using Hn.
  intros [_ Hr Hw]. unfold used. destruct (Nat.leb_spec (read q) (write q)).
  - replace (write q + n - read q)%nat with (write q - read q + 1 * n)%nat by lia. rewrite Nat.Div0.mod_add. apply Nat.mod_small. lia.
  - apply Nat.mod_small. lia.
Qed.

Lemma next_cases i : (i < n)%nat -> ((i + 1) mod n = if (i + 1 =? n) then 0 else i + 1)%nat.
Proof using Hn. intros Hi. destruct (Nat.eqb_spec (i + 1) n) as [->|]; [apply Nat.Div0.mod_same|apply Nat.mod_small; lia]. Qed.

Ltac ring_cases := repeat match goal with
  | |- context [(?a <=? ?b)%nat] => destruct (Nat.leb_spec a b)
  | |- context [(?a =? ?b)%nat] => destruct (Nat.eqb_spec a b)
  end; try lia.

Lemma queue_pop_spec q : queue_wf q ->
  match contents q with
  | [] => pop n q = (None, q)
  | byte :: rest => exists q', pop n q = (Some byte, q') /\ queue_wf q' /\ contents q' = rest
  end.
Proof using Hn.
  intros Hq. pose proof Hq as [Hb Hr Hw]. pose proof (used_cases q Hq) as Hu. unfold contents. unfold pop. destruct (Nat.eqb_spec (read q) (write q)) as [E|E].
  - assert (used q = 0%nat) as -> by (rewrite Hu; ring_cases). done.
  - assert (Hpos : (0 < used q)%nat) by (rewrite Hu; ring_cases). destruct (used q) as [|u] eqn:Eu; [lia|]. cbn [seq map].
    rewrite Nat.add_0_r, (Nat.mod_small (read q)) by done. eexists. split; [reflexivity|].
    assert (Hq' : queue_wf (mkQueue (buffer q) ((read q + 1) mod n)%nat (write q))).
    { split; cbn [buffer read write]; [done|apply Nat.mod_upper_bound; lia|done]. }
    split; [exact Hq'|]. assert (Eu' : used (mkQueue (buffer q) ((read q + 1) mod n)%nat (write q)) = u).
    { rewrite (used_cases _ Hq'). cbn [read write]. rewrite next_cases by done. revert Hu. ring_cases. }
    rewrite Eu'. cbn [buffer read]. rewrite <- seq_shift, map_map. apply map_ext. intros i. f_equal.
    rewrite Nat.Div0.add_mod_idemp_l. f_equal. lia.
Qed.

Lemma queue_push_spec byte q : queue_wf q -> queue_wf (push n byte q) /\
  contents (push n byte q) = (if (length (contents q) <? n - 1)%nat then contents q ++ [byte] else contents q).
Proof using Hn.
  intros Hq. pose proof Hq as [Hb Hr Hw]. pose proof (used_cases q Hq) as Hu.
  assert (Hlen : length (contents q) = used q) by (unfold contents; by rewrite length_map, length_seq). rewrite Hlen.
  unfold push. rewrite next_cases by done. set (next := (if (write q + 1 =? n)%nat then 0 else write q + 1)%nat).
  destruct (Nat.eqb_spec next (read q)) as [E|E].
  - split; [done|]. assert (used q = n - 1)%nat as -> by (rewrite Hu; revert E; unfold next; ring_cases). by rewrite (proj2 (Nat.ltb_ge _ _)).
  - assert (Hlt : (used q < n - 1)%nat) by (rewrite Hu; revert E; unfold next; ring_cases). rewrite (proj2 (Nat.ltb_lt _ _)) by done.
    assert (Hq' : queue_wf (mkQueue (<[write q := byte]> (buffer q)) (read q) next)).
    { split; cbn; [by rewrite length_insert|done|]. unfold next. ring_cases. }
    split; [done|]. unfold contents. assert (Eu : used (mkQueue (<[write q := byte]> (buffer q)) (read q) next) = S (used q)).
    { rewrite (used_cases _ Hq'), Hu. cbn [read write]. revert E. unfold next. ring_cases. }
    rewrite Eu, seq_S, map_app. cbn [map buffer read]. assert (Ew : ((read q + used q) mod n = write q)%nat).
    { rewrite Hu. ring_cases; [replace (read q + (write q - read q))%nat with (write q) by lia; by apply Nat.mod_small|].
      replace (read q + (write q + n - read q))%nat with (write q + 1 * n)%nat by lia. rewrite Nat.Div0.mod_add. by apply Nat.mod_small. }
    f_equal.
    + apply map_ext_in. intros i Hi%in_seq. rewrite list_insert_total by lia. rewrite decide_False; [done|]. rewrite <- Ew. apply not_eq_sym.
      apply ring_distinct; lia.
    + rewrite Nat.add_0_l, Ew. by rewrite list_insert_total, decide_True by lia.
Qed.
End ring.

(** ** Scancodes *)

Inductive Key := Char (c : Z) | Enter | Backspace.
#[export] Instance Key_eq_dec : EqDecision Key.
Proof. solve_decision. Defined.

Definition unshifted : list Z :=
  [0; 27; 49; 50; 51; 52; 53; 54; 55; 56; 57; 48; 45; 61; 8; 9; 113; 119; 101; 114; 116; 121; 117; 105; 111; 112; 91; 93; 10; 0;
   97; 115; 100; 102; 103; 104; 106; 107; 108; 59; 39; 96; 0; 92; 122; 120; 99; 118; 98; 110; 109; 44; 46; 47].
Definition shifted : list Z :=
  [0; 27; 33; 64; 35; 36; 37; 94; 38; 42; 40; 41; 95; 43; 8; 9; 81; 87; 69; 82; 84; 89; 85; 73; 79; 80; 123; 125; 10; 0;
   65; 83; 68; 70; 71; 72; 74; 75; 76; 58; 34; 126; 0; 124; 90; 88; 67; 86; 66; 78; 77; 60; 62; 63].

Definition translate (code : Z) (shift : bool) : option Z :=
  let table := if shift then shifted else unshifted in
  if code =? 57 then Some 32
  else if Z.of_nat (length table) <=? code then None
  else let byte := table !!! Z.to_nat code in if byte =? 0 then None else Some byte.

(** The keyboard and the serial line as their handlers leave them. *)
Record Console := mkConsole { scancodes : Queue; input : Queue; shift : bool }.
Definition Console_init : Console := mkConsole (empty_queue CAPACITY) (empty_queue INPUT_CAPACITY) false.

Definition push_scancode (scancode : Z) (k : Console) : Console := mkConsole (push CAPACITY scancode (scancodes k)) (input k) (shift k).
Definition push_input (byte : Z) (k : Console) : Console := mkConsole (scancodes k) (push INPUT_CAPACITY byte (input k)) (shift k).

(** The loop of [read_key]; every turn takes a scancode off the ring. *)
Fixpoint read_loop (fuel : nat) (k : Console) : option Key * Console :=
  match fuel with
  | O => (None, k)
  | S fuel =>
      match pop CAPACITY (scancodes k) with
      | (None, _) => (None, k)
      | (Some scancode, q) =>
          let k := mkConsole q (input k) (shift k) in
          let released := has scancode 128 in
          let code := Z.land scancode 127 in
          if (code =? 42) || (code =? 54) then read_loop fuel (mkConsole q (input k) (negb released))
          else if released then read_loop fuel k
          else if code =? 28 then (Some Enter, k)
          else if code =? 14 then (Some Backspace, k)
          else match translate code (shift k) with
               | Some c => (Some (Char c), k)
               | None => read_loop fuel k
               end
      end
  end.
Definition read_key (k : Console) : option Key * Console := read_loop CAPACITY k.

Definition next_key (k : Console) : option Key * Console :=
  match pop INPUT_CAPACITY (input k) with
  | (Some byte, q) =>
      let k := mkConsole (scancodes k) q (shift k) in
      (if (byte =? 13) || (byte =? 10) then Some Enter
       else if (byte =? 8) || (byte =? 127) then Some Backspace
       else if (32 <=? byte) && (byte <=? 126) then Some (Char byte)
       else None, k)
  | (None, _) => read_key k
  end.

Definition key_byte (k : Key) : Z := match k with Char c => c | Enter => 10 | Backspace => 8 end.
Definition next_byte (k : Console) : option Z * Console :=
  let '(key, k) := next_key k in (option_map key_byte key, k).

(** [read] of the console into a buffer of [size] bytes: [None] when the task
    goes to sleep on the first. *)
Fixpoint drain (size : nat) (k : Console) : list Z * Console :=
  match size with
  | O => ([], k)
  | S size =>
      match next_byte k with
      | (Some byte, k) => let '(bytes, k) := drain size k in (byte :: bytes, k)
      | (None, k) => ([], k)
      end
  end.
Definition console_read (size : nat) (k : Console) : option (list Z) * Console :=
  match size with
  | O => (Some [], k)
  | S size =>
      match next_byte k with
      | (Some first, k) => let '(bytes, k) := drain size k in (Some (first :: bytes), k)
      | (None, k) => (None, k)
      end
  end.

(** ** What the scancodes mean *)

Definition modifier (code : Z) : bool := (Z.land code 127 =? 42) || (Z.land code 127 =? 54).
(** One event: the shift state after it, and the key it is. *)
Definition interpret (shift : bool) (code : Z) : bool * option Key :=
  if modifier code then (negb (has code 128), None)
  else (shift,
    if has code 128 then None
    else if Z.land code 127 =? 28 then Some Enter
    else if Z.land code 127 =? 14 then Some Backspace
    else option_map Char (translate (Z.land code 127) shift)).
(** The keys of a stream of events, and the shift state it leaves. *)
Fixpoint keys_of (shift : bool) (codes : list Z) : list Key :=
  match codes with
  | [] => []
  | code :: codes => let '(shift, key) := interpret shift code in option_list key ++ keys_of shift codes
  end.

Definition console_wf (k : Console) : Prop := queue_wf CAPACITY (scancodes k) /\ queue_wf INPUT_CAPACITY (input k).
Definition waiting (k : Console) : list Z := contents CAPACITY (scancodes k).
Definition line (k : Console) : list Z := contents INPUT_CAPACITY (input k).

Lemma capacities : (1 < CAPACITY)%nat /\ (1 < INPUT_CAPACITY)%nat.
Proof. unfold CAPACITY, INPUT_CAPACITY. lia. Qed.

Lemma waiting_length k : console_wf k -> (length (waiting k) < CAPACITY)%nat.
Proof.
  intros [Hq _]. unfold waiting, contents. rewrite length_map, length_seq. unfold used. apply Nat.mod_upper_bound. pose proof capacities. lia.
Qed.

(** Enough turns for what is waiting find the next key. *)
Lemma read_loop_spec fuel : forall k, console_wf k -> (length (waiting k) <= fuel)%nat ->
  let '(key, k') := read_loop fuel k in
  console_wf k' /\ input k' = input k /\
  (forall more, keys_of (shift k) (waiting k ++ more) = option_list key ++ keys_of (shift k') (waiting k' ++ more)) /\
  (key = None -> waiting k' = []).
Proof.
  induction fuel as [|fuel IH]; intros k Hk Hf; cbn [read_loop].
  - assert (E : waiting k = []) by (apply length_zero_iff_nil; lia). rewrite E. done.
  - pose proof (queue_pop_spec CAPACITY (proj1 capacities) (scancodes k) (proj1 Hk)) as Hp. fold (waiting k) in Hp.
    destruct (waiting k) as [|code rest] eqn:Ew; [rewrite Hp; by rewrite Ew|].
    destruct Hp as (q & Epop & Hq & Eq). rewrite Epop. cbn [app keys_of]. unfold interpret, modifier.
    assert (Hgo : forall sh, let k1 := mkConsole q (input k) sh in let '(key, k') := read_loop fuel k1 in
      console_wf k' /\ input k' = input k /\ (forall more, keys_of sh (rest ++ more) = option_list key ++ keys_of (shift k') (waiting k' ++ more)) /\ (key = None -> waiting k' = [])).
    { intros sh. pose proof (IH (mkConsole q (input k) sh)) as H. unfold waiting in H at 1 2. cbn [scancodes shift] in H. rewrite Eq in H.
      apply H; [by split; [|apply Hk]|cbn in Hf; lia]. }
    assert (Hstop : forall key, let k1 := mkConsole q (input k) (shift k) in
      console_wf k1 /\ input k1 = input k /\
      (forall more, option_list (Some key) ++ keys_of (shift k) (rest ++ more) = option_list (Some key) ++ keys_of (shift k1) (waiting k1 ++ more)) /\
      (Some key = None -> waiting k1 = [])).
    { intros key. split; [by split; [|apply Hk]|]. split; [done|]. split; [|done]. unfold waiting. cbn [scancodes shift]. by rewrite Eq. }
    destruct ((Z.land code 127 =? 42) || (Z.land code 127 =? 54)); [apply Hgo|]. destruct (has code 128); [apply Hgo|].
    destruct (Z.land code 127 =? 28); [apply Hstop|]. destruct (Z.land code 127 =? 14); [apply Hstop|].
    cbn [shift]. destruct (translate (Z.land code 127) (shift k)) as [c|]; [apply Hstop|apply Hgo].
Qed.

Lemma next_key_spec k : console_wf k ->
  let '(key, k') := next_key k in
  console_wf k' /\
  match line k with
  | [] => line k' = [] /\ (forall more, keys_of (shift k) (waiting k ++ more) = option_list key ++ keys_of (shift k') (waiting k' ++ more)) /\
      (key = None -> waiting k' = [])
  | byte :: rest => line k' = rest /\ scancodes k' = scancodes k /\ shift k' = shift k
  end.
Proof.
  intros Hk. pose proof (queue_pop_spec INPUT_CAPACITY (proj2 capacities) (input k) (proj2 Hk)) as Hp. fold (line k) in Hp. unfold next_key.
  destruct (line k) as [|byte rest] eqn:El.
  - rewrite Hp. pose proof (read_loop_spec CAPACITY k Hk) as H. pose proof (waiting_length k Hk). unfold read_key.
    destruct (read_loop CAPACITY k) as [key k']. destruct H as (H1 & H2 & H3 & H4); [lia|]. split_and!; try done. unfold line. rewrite H2. exact El.
  - destruct Hp as (q & -> & Hq & Eq). split; [by split; [apply Hk|]|]. done.
Qed.

(** A byte that [next_key] understands. *)
Definition is_printable (byte : Z) : bool :=
  ((byte =? 13) || (byte =? 10)) || ((byte =? 8) || (byte =? 127)) || ((32 <=? byte) && (byte <=? 126)).

(** ** Histories *)

(** Events of the two interrupt handlers and calls of [next_key]; the codes and
    bytes that were not dropped, the keys and bytes that came out. *)
Inductive Event := Press (scancode : Z) | Receive (byte : Z) | Next.
Record Play := mkPlay { console : Console; pressed : list Z; received : list Z; typed : list Key; passed : list Z }.
Definition Play_init : Play := mkPlay Console_init [] [] [] [].

Definition play_event (p : Play) (e : Event) : Play :=
  let k := console p in
  match e with
  | Press c => mkPlay (push_scancode c k) (if (length (waiting k) <? CAPACITY - 1)%nat then pressed p ++ [c] else pressed p)
                 (received p) (typed p) (passed p)
  | Receive b => mkPlay (push_input b k) (pressed p) (if (length (line k) <? INPUT_CAPACITY - 1)%nat then received p ++ [b] else received p)
                   (typed p) (passed p)
  | Next =>
      let '(key, k') := next_key k in
      match line k with
      | byte :: _ => mkPlay k' (pressed p) (received p) (typed p) (passed p ++ [byte])
      | [] => mkPlay k' (pressed p) (received p) (typed p ++ option_list key) (passed p)
      end
  end.
Definition play (events : list Event) : Play := fold_left play_event events Play_init.

Record played (p : Play) : Prop := {
  pl_wf : console_wf (console p);
  pl_keys more : typed p ++ keys_of (shift (console p)) (waiting (console p) ++ more) = keys_of false (pressed p ++ more);
  pl_line : passed p ++ line (console p) = received p
}.

Lemma Play_init_played : played Play_init.
Proof.
  destruct (empty_queue_wf CAPACITY (proj1 capacities)) as [H1 H2]. destruct (empty_queue_wf INPUT_CAPACITY (proj2 capacities)) as [H3 H4].
  constructor; unfold Play_init, waiting, line; cbn [console Console_init scancodes input shift typed pressed passed received].
  - done.
  - intros more. by rewrite H2.
  - by rewrite H4.
Qed.

Lemma play_event_played p e : played p -> played (play_event p e).
Proof.
  intros [Hk Hkeys Hline]. destruct e as [c|b|]; cbn [play_event].
  - destruct (queue_push_spec CAPACITY (proj1 capacities) c (scancodes (console p)) (proj1 Hk)) as [Hq E]. fold (waiting (console p)) in E.
    change (contents CAPACITY (push CAPACITY c (scancodes (console p)))) with (waiting (push_scancode c (console p))) in E.
    constructor; cbn [console typed pressed passed received]; [by split; [|apply Hk]| |done].
    intros more. rewrite E. change (shift (push_scancode c (console p))) with (shift (console p)). destruct (_ <? _)%nat; [|apply Hkeys].
    rewrite <- !app_assoc. apply Hkeys.
  - destruct (queue_push_spec INPUT_CAPACITY (proj2 capacities) b (input (console p)) (proj2 Hk)) as [Hq E]. fold (line (console p)) in E.
    change (contents INPUT_CAPACITY (push INPUT_CAPACITY b (input (console p)))) with (line (push_input b (console p))) in E.
    constructor; cbn [console typed pressed passed received]; [by split; [apply Hk|]|done|].
    rewrite E. destruct (_ <? _)%nat; [|done]. by rewrite app_assoc, Hline.
  - pose proof (next_key_spec (console p) Hk) as H. destruct (next_key (console p)) as [key k']. destruct H as [Hk' H].
    destruct (line (console p)) as [|byte rest] eqn:El.
    + destruct H as (El' & E & _). constructor; cbn [console typed pressed passed received]; [done| |by rewrite El'].
      intros more. by rewrite <- app_assoc, <- E.
    + destruct H as (El' & Es & Eh). constructor; cbn [console typed pressed passed received]; [done| |].
      * intros more. unfold waiting. rewrite Es, Eh. apply Hkeys.
      * by rewrite El', <- app_assoc.
Qed.

Lemma play_played events : played (play events).
Proof.
  unfold play. assert (G : forall l p, played p -> played (fold_left play_event l p)).
  { induction l as [|e l IH]; intros p Hp; [done|]. cbn [fold_left]. by apply IH, play_event_played. }
  apply G, Play_init_played.
Qed.


(** A byte of the serial line that is no key (an escape, a tab, any byte
    above 126) reads as no input at all: it is taken off the ring, and the
    console read goes to sleep although more bytes, or keys, are waiting. *)
Theorem unknown_byte_hides_input size k byte rest : console_wf k -> line k = byte :: rest -> is_printable byte = false ->
  let '(r, k') := console_read (S size) k in
  r = None /\ line k' = rest /\ waiting k' = waiting k.
Proof.
  intros Hk El Hb. pose proof (queue_pop_spec INPUT_CAPACITY (proj2 capacities) (input k) (proj2 Hk)) as Hp. fold (line k) in Hp. rewrite El in Hp.
  destruct Hp as (q & Ep & _ & Eq). cbn [console_read]. unfold next_byte, next_key. rewrite Ep.
  unfold is_printable in Hb. rewrite !orb_false_iff in Hb. destruct Hb as [[[H1 H2] [H3 H4]] H5]. rewrite H1, H2, H3, H4, H5. cbn [orb option_map].
  split; [done|]. split; [exact Eq|done].
Qed.


Lemma unknown_byte_hides_input_witness :
  let k := push_input 97 (push_input 27 Console_init) in
  (console_read 64 k).1 = None /\ line (console_read 64 k).2 = [97].
Proof.
  pose proof (unknown_byte_hides_input 63 (push_input 97 (push_input 27 Console_init)) 27 [97]) as H. cbv zeta in *.
  assert (Hk : console_wf (push_input 97 (push_input 27 Console_init))) by (split; split; vm_compute; lia).
  specialize (H Hk ltac:(vm_compute; reflexivity) ltac:(vm_compute; reflexivity)).
  destruct (console_read 64 (push_input 97 (push_input 27 Console_init))) as [r k']. destruct H as (H1 & H2 & _). split; [exact H1|exact H2].
Defined.
