(* ===== verification/User.v ===== *)
(** * Programs: [kernel/src/user.rs], and [exec] and [fork] of [syscall.rs]

    The parts put together: a file of the volume becomes the image of a fresh
    address space, with a stack and its arguments, and a task that runs it. *)

From S2P Require Import Prelude Bytes Disk Pages Replace Swap Policy Sched TaskTable Pipe Signal Kernel Fat Memory PageTables Spaces Access CowRun Elf.

#[local] Arguments Z.mul : simpl never.
#[local] Arguments Z.add : simpl never.

Definition USER_STACK_TOP : Z := 1114112.
Definition USER_STACK_LIMIT : Z := 851968.
(** [u64::MAX], what a refused call returns. *)
Definition REFUSED : Z := 2 ^ 64 - 1.

(** The tasks, and the memory with its disk. *)
Record World {D : Type} := mkWorld { tasks : Kernel; memory : Mem D }.
Arguments World D : clear implicits.

Section world.
Context {D : Type} `{!Disk D}.

Definition in_memory {A} (m : io (Mem D) A) : io (World D) A := fun w =>
  let '(r, k) := m (memory w) in (r, mkWorld D (tasks w) k).
Definition in_tasks {A} (f : Kernel -> result A * Kernel) : io (World D) A := fun w =>
  let '(r, t) := f (tasks w) in (r, mkWorld D t (memory w)).
Definition on_disk {A} (m : io D A) : io (Mem D) A := fun k =>
  let '(r, d) := m (DISK k) in (r, k <| DISK := d |>).
(** [m], with its failure as a value: [match m { Ok(a) => .., Err(e) => .. }]. *)
Definition attempt {S A} (m : io S A) : io S (option A) := fun s =>
  match m s with
  | (Ok a, s) => (Ok (Some a), s)
  | (Err _, s) => (Ok None, s)
  | (Panic, s) => (Panic, s)
  end.

(** [activate_root]: CR3, as both halves of the world see it. *)
Definition activate (root : Z) : io (World D) unit := fun w =>
  (Ok tt, mkWorld D ((tasks w) <| Kernel.CR3 := root |>) ((memory w) <| Memory.CR3 := root |>)).
Definition new_space : io (World D) (option Z) := in_memory (fun k => let '(r, k) := AddressSpace_new k in (Ok r, k)).
Definition destroy_space (root : Z) : io (World D) unit := in_memory (fun k => (Ok tt, (destroy root k).2)).
Definition update_tasks (f : Kernel -> Kernel) : io (World D) unit := in_tasks (fun t => (Ok tt, f t)).
Definition current_id : io (World D) nat := in_tasks (fun t => (Ok (CURRENT t), t)).
Definition active_root : io (World D) Z := in_memory (fun k => (Ok (read_cr3 k), k)).

(** ** Stacks *)

(** The top page of the stack: [false] when there is no memory for it. *)
Definition stack_page : io (Mem D) bool := fun k =>
  let first := USER_STACK_TOP - PAGE_SIZE in
  match translate k first with
  | Some _ => (Ok true, k)
  | None =>
      match allocate k with
      | (None, k) => (Ok false, k)
      | (Some frame, k) =>
          match map_page first frame (Z.lor USER WRITABLE) k with
          | (Ok _, k) => (_ ← zero_page first; mret true) k
          | (Err _, k) => (Ok false, k)
          | (Panic, k) => (Panic, k)
          end
      end
  end.

Definition map_stack : io (World D) (option Z) :=
  mapped ← in_memory stack_page;
  if (mapped : bool) then
    id ← current_id;
    _ ← update_tasks (set_stack_region id USER_STACK_TOP USER_STACK_LIMIT);
    mret (Some USER_STACK_TOP)
  else mret None.

(** ** Arguments *)

(** A string and its zero, below the cursor. *)
Definition place_argument (p : Z * list Z) (argument : list Z) : io (Mem D) (Z * list Z) :=
  let cursor := clear (p.1 -₆₄ (Z.of_nat (length argument) + 1)) 7 in
  _ ← copy_bytes cursor argument;
  _ ← store_byte (cursor +₆₄ Z.of_nat (length argument)) 0;
  mret (cursor, p.2 ++ [cursor]).

(** The stack pointer, the count and the address of the pointers. *)
Definition place_arguments (stack_top : Z) (arguments : list (list Z)) : io (Mem D) (Z * Z * Z) :=
  p ← fold_io place_argument arguments (stack_top, []);
  let addresses := p.2 in
  let argv := clear (p.1 -₆₄ ((Z.of_nat (length addresses) + 1) * 8)) 15 in
  _ ← for_each (imap pair addresses) (fun e => copy_bytes (argv +₆₄ Z.of_nat e.1 * 8) (le 8 e.2));
  _ ← copy_bytes (argv +₆₄ Z.of_nat (length addresses) * 8) (le 8 0);
  let stack := clear (argv -₆₄ 64) 15 in
  mret (stack -₆₄ 8, Z.of_nat (length addresses), argv).

(** ** Starting a program from the kernel *)

Definition abandon {A} (kernel_root space : Z) : io (World D) (option A) :=
  _ ← activate kernel_root;
  _ ← destroy_space space;
  mret None.

(** [run_bytes_named], up to the task that runs it; [stack] is the kernel
    stack [spawn_user] allocates. *)
Definition start_program (program name_ : list Z) (stack : Z) : io (World D) (option nat) :=
  space ← new_space;
  match space with
  | None => mret None
  | Some space =>
      kernel_root ← active_root;
      _ ← activate space;
      loaded ← attempt (in_memory (elf_load program));
      match loaded with
      | None => abandon kernel_root space
      | Some loaded =>
          stack_top ← map_stack;
          match stack_top with
          | None => abandon kernel_root space
          | Some stack_top =>
              placed ← in_memory (place_arguments stack_top [name_]);
              let '(sp, argc, argv) := placed in
              id ← attempt (in_tasks (spawn_user name_ (entry loaded) sp space (Some 0%nat) argc argv stack));
              match id with
              | None => abandon kernel_root space
              | Some id => _ ← activate kernel_root; mret (Some id)
              end
          end
      end
  end.

(** ** [exec] *)

(** [core::str::from_utf8(bytes).is_ok()]. *)
Definition continuation (b : Z) : bool := (128 <=? b) && (b <=? 191).
Definition between (a b c : Z) : bool := (a <=? b) && (b <=? c).
Fixpoint utf8 (bytes : list Z) : bool :=
  match bytes with
  | [] => true
  | b :: rest =>
      if b <=? 127 then utf8 rest
      else match rest with
      | c :: rest =>
          if between 194 b 223 then continuation c && utf8 rest
          else match rest with
          | d :: rest =>
              if between 224 b 239 then
                between (if b =? 224 then 160 else 128) c (if b =? 237 then 159 else 191) && continuation d && utf8 rest
              else match rest with
              | e :: rest =>
                  between 240 b 244 && between (if b =? 240 then 144 else 128) c (if b =? 244 then 143 else 191) &&
                  continuation d && continuation e && utf8 rest
              | [] => false
              end
          | [] => false
          end
      | [] => false
      end
  end.

(** [bytes.split(|&b| b == 0)]. *)
Fixpoint split_zero (bytes : list Z) : list (list Z) :=
  match bytes with
  | [] => [[]]
  | b :: bytes =>
      match split_zero bytes with
      | piece :: pieces => if b =? 0 then [] :: piece :: pieces else (b :: piece) :: pieces
      | [] => [[]]
      end
  end.

(** The arguments of the buffer, [None] if one is not text. *)
Fixpoint collect_arguments (pieces : list (list Z)) (count : Z) (arguments : list (list Z)) : option (list (list Z)) :=
  match pieces with
  | [] => Some arguments
  | piece :: pieces =>
      if count <=? Z.of_nat (length arguments) then Some arguments
      else if (length piece =? 0)%nat then collect_arguments pieces count arguments
      else if utf8 piece then collect_arguments pieces count (arguments ++ [piece])
      else None
  end.

(** The bytes at an address of the active space. In the kernel a page that is
    not there is a fault, and an address whose upper bits are no sign extension
    a general protection fault; both halt the machine. *)
Definition load_bytes (address len : Z) : io (Mem D) (list Z) := fun k =>
  match mapM (fun a => if canonical a then view k (read_cr3 k) a else None) (seqZ address len) with
  | Some bytes => (Ok bytes, k)
  | None => (Panic, k)
  end.

(** [is_user_accessible]; the fuel bounds the pages it looks at. *)
Definition accessible (fuel : nat) (address len : Z) : io (Mem D) bool := fun k =>
  match is_user_accessible fuel k address len with
  | Some b => (Ok b, k)
  | None => (Err "the range is longer than the fuel", k)
  end.

(** [fat::mount], [find] and [read_file]. *)
Definition read_program (name_ : list Z) : io D (list Z) := volume ← mount; load_file volume name_.

(** The frame the call returns through, as [exec] rewrites it. *)
Definition entry_frame (entry argc argv stack : Z) : list Z :=
  <[8%nat := argc]> (<[9%nat := argv]> (replicate 15 0)) ++ [entry; USER_CODE; 514; stack; USER_DATA].

(** Refused: the result, and the frame as it was. *)
Definition refused (frame : list Z) : io (World D) (Z * list Z) := mret (REFUSED, frame).
Definition withdraw (old_root fresh : Z) (frame : list Z) : io (World D) (Z * list Z) :=
  _ ← activate old_root; _ ← destroy_space fresh; refused frame.

(** From the program's bytes and the arguments on. *)
Definition exec_image (data : list Z) (arguments : list (list Z)) (frame : list Z) : io (World D) (Z * list Z) :=
  fresh ← new_space;
  match fresh with
  | None => refused frame
  | Some fresh =>
      old_root ← active_root;
      _ ← activate fresh;
      loaded ← attempt (in_memory (elf_load data));
      match loaded with
      | None => withdraw old_root fresh frame
      | Some loaded =>
          stack_top ← map_stack;
          match stack_top with
          | None => withdraw old_root fresh frame
          | Some stack_top =>
              id ← current_id;
              _ ← update_tasks (modify_task id clear_signal_handlers);
              _ ← update_tasks (set_address_space id fresh);
              _ ← destroy_space old_root;
              placed ← in_memory (place_arguments stack_top arguments);
              let '(stack, argc, argv) := placed in
              mret (0, entry_frame (entry loaded) argc argv stack)
          end
      end
  end.

Definition exec (fuel : nat) (blob len count : Z) (frame : list Z) : io (World D) (Z * list Z) :=
  allowed ← in_memory (accessible fuel blob len);
  if negb allowed || (1024 <? len) || (count =? 0) || (16 <? count) then refused frame
  else
    bytes ← in_memory (load_bytes blob len);
    match collect_arguments (split_zero bytes) count [] with
    | None => refused frame
    | Some [] => refused frame
    | Some ((name_ :: _) as arguments) =>
        data ← attempt (in_memory (on_disk (read_program name_)));
        match data with
        | None => refused frame
        | Some data => exec_image data arguments frame
        end
    end.

(** ** [fork] *)

Definition fork_call (stack : Z) (frame : list Z) : io (World D) Z :=
  parent_id ← current_id;
  root ← active_root;
  child ← in_memory (fun k => let '(r, k) := fork root k in (Ok r, k));
  match child with
  | None => mret REFUSED
  | Some child =>
      id ← attempt (in_tasks (fork_from parent_id child frame stack));
      match id with
      | Some id => mret (Z.of_nat id)
      | None => _ ← destroy_space child; mret REFUSED
      end
  end.
End world.
