(* ===== verification/UserSpec.v ===== *)
(** * What a new program finds

    Its arguments where the registers say, in a stack that is its own; and
    the theorems about [exec], [fork] and the first program. *)

From S2P Require Import Prelude Bytes Disk Pages Replace Swap Policy Sched TaskTable Pipe Signal Kernel Fat Memory PageTables Spaces UserPages Sharing Cow Destroy Access CowRun Elf ElfSpec User.

#[local] Arguments Z.pow : simpl never.
#[local] Arguments load : simpl never.
#[local] Arguments Z.mul : simpl never.
#[local] Arguments Z.add : simpl never.
#[local] Arguments Z.sub : simpl never.
#[local] Arguments le : simpl never.

(** ** Bytes in an image *)

(** [A] has [bytes] at [a]. *)
Definition holds (A : Image) (a : Z) (bytes : list Z) : Prop := forall i b, bytes !! i = Some b -> A (a + Z.of_nat i) = Some b.

Lemma holds_stores A a bytes : holds (stores a bytes A) a bytes.
Proof.
  intros i b Hi. pose proof (lookup_lt_Some _ _ _ Hi). unfold stores. rewrite (proj2 (Z.leb_le _ _)), (proj2 (Z.ltb_lt _ _)) by lia.
  cbn [andb]. f_equal. replace (Z.to_nat (a + Z.of_nat i - a)) with i by lia. by apply list_lookup_total_correct.
Qed.

Lemma stores_out A a bytes x : ~ a <= x < a + Z.of_nat (length bytes) -> stores a bytes A x = A x.
Proof. intros H. unfold stores. destruct (Z.leb_spec a x), (Z.ltb_spec x (a + Z.of_nat (length bytes))); (done || lia). Qed.

Lemma image_holds_ext A A' a bytes : (forall x, a <= x < a + Z.of_nat (length bytes) -> A' x = A x) -> holds A a bytes -> holds A' a bytes.
Proof. intros E H i b Hi. pose proof (lookup_lt_Some _ _ _ Hi). rewrite E by lia. by apply H. Qed.

Lemma holds_app A a l1 l2 : holds A a l1 -> holds A (a + Z.of_nat (length l1)) l2 -> holds A a (l1 ++ l2).
Proof.
  intros H1 H2 i b [Hi|[Hl Hi]]%lookup_app_Some; [by apply H1|]. specialize (H2 _ _ Hi). rewrite <- H2. f_equal. lia.
Qed.

(** Rounding down to a power of two. *)
Lemma clear_low e n : 0 <= n -> clear e (2 ^ n - 1) = e - e mod 2 ^ n.
Proof.
  intros Hn. unfold clear. replace (2 ^ n - 1) with (Z.ones n) by (rewrite Z.ones_equiv; lia).
  rewrite Z.ldiff_ones_r, Z.shiftl_mul_pow2, Z.shiftr_div_pow2 by lia.
  pose proof (Z.div_mod e (2 ^ n) ltac:(apply Z.pow_nonzero; lia)). lia.
Qed.

Lemma clear_7 e : e - 7 <= clear e 7 <= e.
Proof. assert (E : clear e 7 = e - e mod 8) by (by apply (clear_low e 3)). rewrite E. pose proof (Z.mod_pos_bound e 8). lia. Qed.

Lemma clear_15 e : clear e 15 mod 16 = 0 /\ e - 15 <= clear e 15 <= e.
Proof.
  assert (E : clear e 15 = e - e mod 16) by (by apply (clear_low e 4)). rewrite E. pose proof (Z.mod_pos_bound e 16).
  split; [|lia]. by rewrite Zminus_mod_idemp_r, Z.sub_diag.
Qed.

(** ** The layout *)

(** Room that is surely enough: a string, its zero and its padding. *)
Definition need (arguments : list (list Z)) : Z := fold_right (fun argument n => Z.of_nat (length argument) + 8 + n) 0 arguments.

Lemma need_app l1 l2 : need (l1 ++ l2) = need l1 + need l2.
Proof. unfold need. induction l1 as [|a l1 IH]; cbn; [done|]. rewrite IH. lia. Qed.

Lemma need_one a : need [a] = Z.of_nat (length a) + 8.
Proof. cbn. lia. Qed.

Lemma need_nonneg l : 8 * Z.of_nat (length l) <= need l.
Proof. unfold need. induction l as [|a l IH]; cbn [fold_right length]; lia. Qed.

(** The strings [args] below [top], from [cursor] on, at [addresses]. *)
Record laid (top : Z) (A0 : Image) (args : list (list Z)) (cursor : Z) (addresses : list Z) (A : Image) : Prop := {
  la_length : length addresses = length args;
  la_cursor : top - need args <= cursor <= top;
  la_strings i argument : args !! i = Some argument -> exists p, addresses !! i = Some p /\
    cursor <= p /\ p + Z.of_nat (length argument) + 1 <= top /\ holds A p (argument ++ [0]);
  la_out x : ~ cursor <= x < top -> A x = A0 x
}.

(** A string, and every byte of it. *)
Definition text (argument : list Z) : Prop := Forall is_byte argument.

Lemma in_stack_user x : USER_STACK_TOP - PAGE_SIZE <= x < USER_STACK_TOP -> user x.
Proof. unfold USER_STACK_TOP, PAGE_SIZE, user, USER_SPACE_END. lia. Qed.

Lemma stack_small x : USER_STACK_TOP - PAGE_SIZE <= x <= USER_STACK_TOP -> wrap 64 x = x.
Proof. intros H. apply wrap_small. unfold USER_STACK_TOP, PAGE_SIZE, in_u in *. assert (2 ^ 21 < 2 ^ 64) by (by apply Z.pow_lt_mono_r). change (2 ^ 21) with 2097152 in *. lia. Qed.

Lemma store_is_copy {D} `{!Disk D} va b (k : Mem D) : store_byte va b k = copy_bytes va [b] k.
Proof. cbn [copy_bytes]. unfold mbind, io_bind. by destruct (store_byte va b k) as [[[]|e|] k']. Qed.

Section arguments.
Context {D : Type} `{!Disk D}.
Implicit Types k : Mem D.
Context (k0 : Mem D) (roots : list Z).
Let r := read_cr3 k0.
Hypothesis Hr : r ∈ roots.

(** The stack page, as it was mapped. *)
Context (k1 : Mem D).
Hypothesis Hstack : forall x, USER_STACK_TOP - PAGE_SIZE <= x < USER_STACK_TOP -> writable k0 k1 x.

(** A write inside the stack page. *)
Lemma stack_write A va bytes k : written k0 roots k1 A k -> USER_STACK_TOP - PAGE_SIZE <= va -> va + Z.of_nat (length bytes) <= USER_STACK_TOP ->
  Forall is_byte bytes -> safe (copy_bytes va bytes) (fun _ => written k0 roots k1 (stores va bytes A)) (fun _ => False) k.
Proof using Hr Hstack.
  intros Hw H1 H2 Hb. apply (copy_bytes_written k0 roots Hr k1 bytes A va k Hw).
  - unfold USER_STACK_TOP, PAGE_SIZE in *. lia.
  - unfold USER_STACK_TOP, USER_SPACE_END in *. lia.
  - done.
  - intros x Hx. apply Hstack. lia.
Qed.

Lemma place_argument_safe A0 args cursor addresses argument A k :
  laid USER_STACK_TOP A0 args cursor addresses A -> written k0 roots k1 A k -> text argument ->
  need (args ++ [argument]) <= PAGE_SIZE ->
  safe (place_argument (cursor, addresses) argument)
    (fun p k' => exists A', laid USER_STACK_TOP A0 (args ++ [argument]) p.1 p.2 A' /\ written k0 roots k1 A' k') (fun _ => False) k.
Proof using Hr Hstack.
  intros [L1 L2 L3 L4] Hw Ht Hn. rewrite need_app, need_one in Hn.
  pose proof (need_nonneg args) as H0. set (n := Z.of_nat (length argument)) in *.
  unfold place_argument. cbn [fst snd]. fold n. rewrite (stack_small (cursor - (n + 1))) by lia.
  pose proof (clear_7 (cursor - (n + 1))) as Hc. set (c := clear (cursor - (n + 1)) 7) in *.
  eapply safe_bind; [apply (stack_write A c argument k Hw); (done || lia)|]. intros u k2 Hw2.
  rewrite (stack_small (c + n)) by lia. eapply safe_bind.
  { unfold safe. rewrite store_is_copy. apply (stack_write (stores c argument A) (c + n) [0] k2 Hw2); cbn [length]; [lia|lia|].
    constructor; [unfold is_byte; lia|done]. }
  intros u2 k3 Hw3. apply safe_ret. exists (stores (c + n) [0] (stores c argument A)). cbn [fst snd]. split; [|done].
  assert (Hout : forall x, ~ c <= x < c + n + 1 -> stores (c + n) [0] (stores c argument A) x = A x).
  { intros x Hx. rewrite !stores_out; [done|fold n; lia|cbn [length]; lia]. }
  constructor.
  - rewrite !length_app. cbn [length]. lia.
  - rewrite need_app, need_one. fold n. lia.
  - intros i a Hi. apply lookup_app_Some in Hi as [Hi|[Hl Hi]].
    + destruct (L3 i a Hi) as (p & Hp & H1 & H2 & H3). exists p. split; [by apply lookup_app_l_Some|]. split_and!; [lia|lia|].
      eapply image_holds_ext; [|exact H3]. intros x Hx. rewrite length_app in Hx. cbn [length] in Hx. apply Hout. lia.
    + apply list_lookup_singleton_Some in Hi as [Hi <-]. exists c. split; [|split_and!; [lia|fold n; lia|]].
      * rewrite lookup_app_r by lia. replace (i - length addresses)%nat with 0%nat by lia. done.
      * apply holds_app; [|fold n; apply holds_stores]. eapply image_holds_ext; [|apply holds_stores].
        intros x Hx. apply stores_out. cbn [length]. fold n in Hx. lia.
  - intros x Hx. rewrite Hout by lia. apply L4. lia.
Qed.

(** The pointers, from [argv] on, under the strings. *)
Lemma place_pointers_safe A argv addresses k : written k0 roots k1 A k ->
  USER_STACK_TOP - PAGE_SIZE <= argv -> argv + 8 * Z.of_nat (length addresses) <= USER_STACK_TOP ->
  safe (for_each (imap pair addresses) (fun e => copy_bytes (argv +₆₄ Z.of_nat e.1 * 8) (le 8 e.2)))
    (fun _ k' => exists A', written k0 roots k1 A' k' /\
       (forall i p, addresses !! i = Some p -> holds A' (argv + 8 * Z.of_nat i) (le 8 p)) /\
       (forall x, ~ argv <= x < argv + 8 * Z.of_nat (length addresses) -> A' x = A x)) (fun _ => False) k.
Proof using Hr Hstack.
  intros Hw H1 H2. eapply safe_mono.
  - apply (safe_for_each _ (fun d k' => exists A', written k0 roots k1 A' k' /\
       (forall i p, (i < length d)%nat -> addresses !! i = Some p -> holds A' (argv + 8 * Z.of_nat i) (le 8 p)) /\
       (forall x, ~ argv <= x < argv + 8 * Z.of_nat (length d) -> A' x = A x))).
    2: { exists A. split_and!; [done| |done]. intros i p Hi. cbn in Hi. lia. }
    intros d x rest' s E (A' & Hw' & Hd & Ho).
    assert (Hx : x.1 = length d /\ addresses !! length d = Some x.2).
    { assert (Hi : imap pair addresses !! length d = Some x) by (rewrite E, lookup_app_r, Nat.sub_diag by lia; done).
      rewrite list_lookup_imap in Hi. destruct (addresses !! length d) as [p|]; [|done]. by injection Hi as <-. }
    destruct Hx as [Ex Hp]. pose proof (lookup_lt_Some _ _ _ Hp) as Hlt. rewrite Ex.
    replace (argv +₆₄ Z.of_nat (length d) * 8) with (argv + 8 * Z.of_nat (length d)) by (rewrite stack_small; lia).
    eapply safe_mono; [apply (stack_write A' (argv + 8 * Z.of_nat (length d)) (le 8 x.2) s Hw')| |done].
    + lia.
    + rewrite le_length. lia.
    + apply le_bytes.
    + intros u k2 Hw2. exists (stores (argv + 8 * Z.of_nat (length d)) (le 8 x.2) A'). split; [done|].
      rewrite length_app. cbn [length]. split.
      * intros i p Hi Hip. destruct (decide (i = length d)) as [->|Hne]; [rewrite Hp in Hip; injection Hip as <-; apply holds_stores|].
        eapply image_holds_ext; [|apply (Hd i p); [lia|done]]. intros y Hy. rewrite le_length in Hy. apply stores_out. rewrite le_length. lia.
      * intros y Hy. rewrite stores_out by (rewrite le_length; lia). apply Ho. lia.
  - intros u k' (A' & Hw' & Hd & Ho). rewrite length_imap in *. exists A'. split_and!; [done| |done].
    intros i p Hip. apply Hd; [|done]. by apply lookup_lt_Some in Hip.
  - done.
Qed.

(** What the program finds: pointers at [argv] to its strings, a null, and
    nothing else changed from [A0]. *)
Record passed (A0 : Image) (arguments : list (list Z)) (A : Image) (stack argc argv : Z) : Prop := {
  pa_argc : argc = Z.of_nat (length arguments);
  pa_aligned : argv mod 16 = 0 /\ (stack + 8) mod 16 = 0;
  pa_room : USER_STACK_TOP - PAGE_SIZE <= stack < argv;
  pa_strings i argument : arguments !! i = Some argument -> exists p, holds A (argv + 8 * Z.of_nat i) (le 8 p) /\
    argv + 8 * Z.of_nat (length arguments) + 8 <= p /\ p + Z.of_nat (length argument) + 1 <= USER_STACK_TOP /\ holds A p (argument ++ [0]);
  pa_null : holds A (argv + 8 * Z.of_nat (length arguments)) (le 8 0);
  pa_out x : ~ argv <= x < USER_STACK_TOP -> A x = A0 x
}.

Definition fits (arguments : list (list Z)) : Prop := need arguments + 8 * (Z.of_nat (length arguments) + 1) + 102 <= PAGE_SIZE.

Lemma place_arguments_safe A0 arguments k : written k0 roots k1 A0 k -> Forall text arguments -> fits arguments ->
  safe (place_arguments USER_STACK_TOP arguments)
    (fun '(stack, argc, argv) k' => exists A, written k0 roots k1 A k' /\ passed A0 arguments A stack argc argv) (fun _ => False) k.
Proof using Hr Hstack.
  intros Hw Ht Hf. unfold fits in Hf. unfold place_arguments.
  eapply (safe_bind _ _ (fun p k' => exists A, laid USER_STACK_TOP A0 arguments p.1 p.2 A /\ written k0 roots k1 A k')).
  { apply (safe_fold_io place_argument (fun d p k' => exists A, laid USER_STACK_TOP A0 d p.1 p.2 A /\ written k0 roots k1 A k')).
    - intros d x rest' [cursor addresses] s E (A & HL & HW). apply (place_argument_safe A0 d cursor addresses x A s HL HW).
      + rewrite Forall_forall in Ht. apply Ht. rewrite E. set_solver.
      + pose proof (need_nonneg arguments). pose proof (need_nonneg rest').
        assert (need arguments = need (d ++ [x]) + need rest'); [|unfold PAGE_SIZE in *; lia].
        rewrite <- need_app, <- app_assoc. by rewrite E.
    - exists A0. split; [|done]. constructor; cbn [fst snd]; done. }
  intros [cursor addresses] k2 (A & [L1 L2 L3 L4] & HW). cbn [fst snd] in *. rewrite L1.
  set (n := Z.of_nat (length arguments)) in *. pose proof (need_nonneg arguments) as H0. fold n in H0.
  rewrite (stack_small (cursor - (n + 1) * 8)) by lia. destruct (clear_15 (cursor - (n + 1) * 8)) as [Ha Hc].
  set (argv := clear (cursor - (n + 1) * 8) 15) in *. rewrite (stack_small (argv - 64)) by lia.
  destruct (clear_15 (argv - 64)) as [Hs Hc2]. set (stack := clear (argv - 64) 15) in *. rewrite (stack_small (stack - 8)) by lia.
  eapply safe_bind; [apply (place_pointers_safe A argv addresses k2 HW); rewrite ?L1; fold n; lia|].
  intros u k3 (A2 & HW2 & Hd & Ho). rewrite L1 in Ho. fold n in Ho. rewrite (stack_small (argv + n * 8)) by lia.
  eapply safe_bind; [apply (stack_write A2 (argv + n * 8) (le 8 0) k3 HW2); [lia|rewrite le_length; lia|apply le_bytes]|].
  intros u2 k4 HW3. apply safe_ret. set (A3 := stores (argv + n * 8) (le 8 0) A2) in *. exists A3. split; [done|].
  assert (Hout : forall x, ~ argv + n * 8 <= x < argv + n * 8 + 8 -> A3 x = A2 x).
  { intros x Hx. apply stores_out. rewrite le_length. lia. }
  constructor; fold n; try done.
  - split; [done|]. by replace (stack - 8 + 8) with stack by lia.
  - lia.
  - intros i argument Hi. destruct (L3 i argument Hi) as (p & Hp & P1 & P2 & P3). pose proof (lookup_lt_Some _ _ _ Hi).
    exists p. split_and!; [|lia|done|].
    + eapply image_holds_ext; [|by apply Hd]. intros x Hx. rewrite le_length in Hx. apply Hout. lia.
    + eapply image_holds_ext; [|exact P3]. intros x Hx. rewrite length_app in Hx. cbn [length] in Hx. rewrite Hout, Ho by lia. done.
  - replace (argv + 8 * n) with (argv + n * 8) by lia. apply holds_stores.
  - intros x Hx. rewrite Hout, Ho, L4 by lia. done.
Qed.
End arguments.

(** ** The stack page *)

Definition STACK_PAGE : Z := USER_STACK_TOP - PAGE_SIZE.

Lemma in_stack_page x : page_of x = STACK_PAGE <-> STACK_PAGE <= x < USER_STACK_TOP.
Proof.
  unfold STACK_PAGE, USER_STACK_TOP, PAGE_SIZE. rewrite page_of_div. pose proof (Z.div_mod x 4096). pose proof (Z.mod_pos_bound x 4096).
  split; intros; lia.
Qed.

Lemma stack_page_aligned : aligned STACK_PAGE.
Proof. done. Qed.

Section stack.
Context {D : Type} `{!Disk D}.
Implicit Types k : Mem D.
Context (k0 : Mem D) (roots : list Z).
Let r := read_cr3 k0.
Hypothesis Hr : r ∈ roots.

(** A page of zeroes, or nothing. *)
Record stacked k k' : Prop := {
  st_zero va : page_of va = STACK_PAGE -> view k' r va = Some 0;
  st_writable va : page_of va = STACK_PAGE -> writable k0 k' va;
  st_other va : user va -> page_of va <> STACK_PAGE -> view k' r va = view k r va /\ leaf (ram k') r va = leaf (ram k) r va
}.

Lemma stack_page_safe k : ElfSpec.kept k0 roots k -> view k r STACK_PAGE = None ->
  safe stack_page (fun (ok : bool) k' => ElfSpec.kept k0 roots k' /\ if ok then stacked k k' else True) (fun _ => False) k.
Proof using Hr.
  intros Hk HA. pose proof Hk as [[fl Hsp] _ _ _]. assert (Er := kept_cr3 k0 roots k Hk).
  assert (U : user STACK_PAGE) by (apply in_stack_user; unfold STACK_PAGE, USER_STACK_TOP, PAGE_SIZE; lia).
  unfold stack_page, safe. fold STACK_PAGE.
  assert (Htr := translate_page k roots fl r STACK_PAGE _ (sp_sound _ _ _ Hsp) Hr U Er eq_refl).
  destruct (translate k STACK_PAGE) as [[physical es]|].
  { destruct Htr as [Hp _]. apply view_present in Hp. fold r in Hp. rewrite HA in Hp. by destruct Hp. }
  destruct (allocate k) as [[f|] k1] eqn:Ea.
  2:{ unfold allocate in Ea. case_match; [injection Ea as <-; done|done]. }
  pose proof (map_zeroed_safe k0 roots Hr k STACK_PAGE f k1 Hk U stack_page_aligned HA Ea) as Hz. unfold safe, mbind, io_bind, mret, io_ret in *.
  destruct (map_page _ _ _ k1) as [[u|err|] k2]; [|done..]. destruct (zero_page STACK_PAGE k2) as [[u2|err|] k3] eqn:Ez; [| |done].
  - destruct Hz as (Hk3 & Hnew & Hold). split; [done|]. assert (Hu : forall va, page_of va = STACK_PAGE -> user va) by (intros va E; by apply in_stack_user, in_stack_page).
    constructor; intros va E; [by destruct (Hnew va (Hu va E) E) as (_ & ? & _)|by destruct (Hnew va (Hu va E) E) as (_ & _ & ?)|]. by apply Hold.
  - unfold zero_page in Ez. by destruct (_ && _).
Qed.
End stack.

(** ** Running over the world *)

Section run.
Context {D : Type} `{!Disk D}.

Lemma safe_in_memory {A} (m : io (Mem D) A) (P : A -> World D -> Prop) E (w : World D) :
  safe m (fun a k => P a (mkWorld D (tasks w) k)) (fun k => E (mkWorld D (tasks w) k)) (memory w) -> safe (in_memory m) P E w.
Proof using Type. unfold safe, in_memory. by destruct (m (memory w)) as [[a|e|] k]. Qed.

Lemma safe_attempt {S A} (m : io S A) P E (s : S) : safe m P E s ->
  safe (attempt m) (fun o s => match o with Some a => P a s | None => E s end) (fun _ => False) s.
Proof using Type. unfold safe, attempt. by destruct (m s) as [[a|e|] s']. Qed.

(** A call that always answers [a] and leaves [s']. *)
Lemma safe_answer {S A} (m : io S A) (P : A -> S -> Prop) E s a s' : m s = (Ok a, s') -> P a s' -> safe m P E s.
Proof using Type. unfold safe. by intros ->. Qed.
Lemma safe_bind_run {S A B} (m : io S A) (f : A -> io S B) P E s a s' : m s = (Ok a, s') -> safe (f a) P E s' -> safe (m ≫= f) P E s.
Proof using Type. unfold safe, mbind, io_bind. by intros ->. Qed.
End run.

(** ** [exec] *)

(** An image with the stack page in it. *)
Definition with_stack (A : Image) : Image := fun va => if page_of va =? STACK_PAGE then Some 0 else A va.

(** No segment of the file claims the stack's top page. *)
Definition clear_of_stack (data : list Z) : Prop :=
  forall h va, h ∈ program_headers data -> loadable h = true -> page_of va = STACK_PAGE -> covers h va = false.

Lemma image_outside data hs A va : (forall h, h ∈ hs -> loadable h = true -> accepted data h /\ covers h va = false) -> image data hs A va = A va.
Proof.
  induction hs as [|h hs IH] using rev_ind; intros H; [done|]. rewrite image_snoc.
  assert (IHs : image data hs A va = A va) by (apply IH; intros g Hg; apply H, elem_of_app; by left).
  destruct (loadable h) eqn:El; [|done]. destruct (H h) as [Ha Hc]; [apply elem_of_app; right; by apply list_elem_of_singleton|done|].
  unfold place. rewrite Hc. destruct (in_file h va) eqn:Ef; [|done]. by rewrite (in_file_covers data h va Ha Ef) in Hc.
Qed.

Lemma filter_but_id (l : list Z) x : (x ∉ l) -> filter (fun y => y <> x) l = l.
Proof.
  induction l as [|y l IH]; intros Hx; [done|]. apply not_elem_of_cons in Hx as [Hne Hx]. rewrite filter_cons, decide_True by done. by rewrite IH.
Qed.

Section exec.
Context {D : Type} `{!Disk D} (roots : list Z).
Implicit Types (k : Mem D) (w : World D).

(** Every program reads what it read, and the same one is current. *)
Record unharmed w w' : Prop := {
  uh_tasks : tasks w' = tasks w;
  uh_root : read_cr3 (memory w') = read_cr3 (memory w);
  uh_space : exists fl, space (memory w') roots fl;
  uh_view r va : r ∈ roots -> user va -> view (memory w') r va = view (memory w) r va /\ leaf (ram (memory w')) r va = leaf (ram (memory w)) r va
}.

(** The current program is the file's: a new space takes the place of its
    own, with the image, the stack and the arguments, and the frame enters
    it. *)
Record replaced (data : list Z) (arguments : list (list Z)) (fresh stack argc argv : Z) (A : Image) w w' : Prop := {
  re_root : (fresh ∉ roots) /\ read_cr3 (memory w') = fresh;
  re_space : exists fl, space (memory w') (fresh :: filter (fun r => r <> read_cr3 (memory w)) roots) fl;
  re_view va : user va -> view (memory w') fresh va = A va;
  re_passed : passed (with_stack (image data (program_headers data) (fun _ => None))) arguments A stack argc argv;
  re_flags va f : user va -> page_of va <> STACK_PAGE ->
    permissions (NO_EXECUTE_ACTIVE (memory w)) (program_headers data) va = Some f ->
    leaf (ram (memory w')) fresh va = new_leaf (leaf (ram (memory w')) fresh va) f;
  re_others r va : r ∈ roots -> r <> read_cr3 (memory w) -> user va -> view (memory w') r va = view (memory w) r va;
  re_tasks : tasks w' = set_address_space (CURRENT (tasks w)) fresh (modify_task (CURRENT (tasks w)) clear_signal_handlers
    (set_stack_region (CURRENT (tasks w)) USER_STACK_TOP USER_STACK_LIMIT ((tasks w) <| Kernel.CR3 := fresh |>)))
}.

(** Where the load starts: a fresh space is current. *)
Record fresh_space k fresh k2 : Prop := {
  fs_new : fresh ∉ roots;
  fs_root : read_cr3 k2 = fresh;
  fs_kept : ElfSpec.kept k2 (fresh :: roots) k2;
  fs_empty va : user va -> view k2 fresh va = None;
  fs_nx : NO_EXECUTE_ACTIVE k2 = NO_EXECUTE_ACTIVE k;
  fs_old r va : r ∈ roots -> user va -> view k2 r va = view k r va /\ leaf (ram k2) r va = leaf (ram k) r va
}.

Lemma kept_start k0 rs fl : space k0 rs fl -> ElfSpec.kept k0 rs k0.
Proof using Type. intros Hsp. constructor; try done. by exists fl. Qed.

Lemma fresh_start k fl : space k roots fl -> read_cr3 k ∈ roots -> Z.of_nat (length roots) + 1 < 2 ^ 32 ->
  match AddressSpace_new k with
  | (None, k') => k' = k
  | (Some fresh, k') => fresh_space k fresh (k' <| CR3 := fresh |>) /\ read_cr3 k' = read_cr3 k
  end.
Proof using Type.
  intros Hsp Hr Hlen. pose proof (new_space_space k roots fl Hsp Hr Hlen) as H.
  destruct (AddressSpace_new k) as [[fresh|] k1]; [|by destruct H].
  destruct H as (fl1 & Hnin & Hsp1 & Hrest & H0 & Hold). unfold rest in Hrest. injection Hrest as _ Hcr Hnx _ _ _.
  destruct (space_CR3 k1 (fresh :: roots) fl1 fresh Hsp1 ltac:(left)) as [Hsp2 Er]. split; [|unfold read_cr3; by rewrite Hcr].
  constructor; [done|done|by apply (kept_start _ _ fl1)| |done|done].
  intros va U. unfold view. cbn [ram set_field set_CR3]. by rewrite H0.
Qed.

(** Back to the old space, the fresh one destroyed. *)
Lemma withdraw_safe w t fresh k2 k3 frame : fresh_space (memory w) fresh k2 -> ElfSpec.kept k2 (fresh :: roots) k3 ->
  read_cr3 (memory w) ∈ roots -> Kernel.CR3 (tasks w) = read_cr3 (memory w) -> t = (tasks w) <| Kernel.CR3 := fresh |> ->
  safe (withdraw (read_cr3 (memory w)) fresh frame) (fun p w' => p = (REFUSED, frame) /\ unharmed w w') (fun _ => False) (mkWorld D t k3).
Proof using Type.
  intros [Hnin Er _ _ _ Hold] [[fl3 Hsp3] _ _ Ho] Hr Hcr ->. rewrite Er in Ho.
  destruct (space_CR3 k3 (fresh :: roots) fl3 (read_cr3 (memory w)) Hsp3 ltac:(by right)) as [Hsp4 Er4].
  destruct (destroy_spec _ (fresh :: roots) fl3 fresh Hsp4 ltac:(left)) as (k5 & fl5 & Ed & Hsp5 & Hk5 & _).
  rewrite filter_cons, decide_False, (filter_but_id roots fresh Hnin) in Hsp5, Hk5 by (intros Hc; by apply Hc).
  eapply (safe_answer _ _ _ _ (REFUSED, frame) (mkWorld D (tasks w) k5)).
  - unfold withdraw, activate, destroy_space, in_memory, refused, mbind, io_bind, mret, io_ret. cbn [memory tasks]. rewrite Ed. cbn [snd].
    do 2 f_equal. rewrite <- Hcr. by destruct (tasks w).
  - split; [done|]. pose proof (kp_rest _ _ _ Hk5) as Hrest. injection Hrest as Hc5 _ _ _ _. constructor; cbn [tasks memory].
    + done.
    + unfold read_cr3 at 1. rewrite Hc5. exact Er4.
    + by exists fl5.
    + intros r va Hr' U. rewrite (kp_view _ _ _ Hk5), (kp_leaf _ _ _ Hk5) by done.
      destruct (Ho r va ltac:(by right) ltac:(by intros ->) U) as [E1 E2]. destruct (Hold r va Hr' U) as [E3 E4].
      split; [by rewrite <- E3|by rewrite <- E4].
Qed.

(** The new program in place: [k3] is loaded, [k4] has the stack too. *)
Lemma enter_safe w data arguments fresh k2 k3 k4 l t :
  fresh_space (memory w) fresh k2 -> loaded k2 (fresh :: roots) data (program_headers data) (word 8 data 24) l k3 ->
  ElfSpec.kept k2 (fresh :: roots) k4 -> stacked k2 k3 k4 -> read_cr3 (memory w) ∈ roots ->
  Forall text arguments -> fits arguments ->
  t = set_stack_region (CURRENT (tasks w)) USER_STACK_TOP USER_STACK_LIMIT ((tasks w) <| Kernel.CR3 := fresh |>) ->
  safe (id ← current_id;
        _ ← update_tasks (modify_task id clear_signal_handlers);
        _ ← update_tasks (set_address_space id fresh);
        _ ← destroy_space (read_cr3 (memory w));
        placed ← in_memory (place_arguments USER_STACK_TOP arguments);
        let '(stack, argc, argv) := placed in
        mret (0, entry_frame (entry l) argc argv stack))
    (fun p w' => exists stack argc argv A, p = (0, entry_frame (word 8 data 24) argc argv stack) /\
       replaced data arguments fresh stack argc argv A w w') (fun _ => False) (mkWorld D t k4).
Proof using Type.
  intros [Hnin Er2 _ Hempty Hnx Hold] Hl Hk4 Hst Hr Ht Hf ->. set (old := read_cr3 (memory w)) in *.
  pose proof Hk4 as [[fl4 Hsp4] Hcr4 Hnx4 Ho4]. pose proof (kept_cr3 _ _ _ Hk4) as Er4. rewrite Er2 in Ho4, Er4.
  destruct (destroy_spec k4 (fresh :: roots) fl4 old Hsp4 ltac:(by right)) as (k5 & fl5 & Ed & Hsp5 & Hk5 & _).
  assert (Hne : fresh <> old) by (intros ->; done). rewrite filter_cons, decide_True in Hsp5, Hk5 by done.
  set (roots' := fresh :: filter (fun x => x <> old) roots) in *.
  pose proof (kp_rest _ _ _ Hk5) as Hrest. injection Hrest as Hc5 _ _ _ _.
  assert (Er5 : read_cr3 k5 = fresh) by (unfold read_cr3 in *; by rewrite Hc5).
  assert (Hin : fresh ∈ roots') by left.
  set (A0 := with_stack (image data (program_headers data) (fun _ => None))).
  assert (HA0 : forall va, user va -> view k5 fresh va = A0 va).
  { intros va U. rewrite (kp_view _ _ _ Hk5) by done. unfold A0, with_stack. destruct (Z.eqb_spec (page_of va) STACK_PAGE) as [E|E].
    - rewrite <- Er2. by apply (st_zero _ _ _ Hst).
    - rewrite <- Er2, (proj1 (st_other _ _ _ Hst va U E)), (ld_view _ _ _ _ _ _ _ Hl va U). apply image_ext. rewrite Er2. by apply Hempty. }
  assert (Hw5 : written k5 roots' k5 A0 k5) by (constructor; [by apply (kept_start _ _ fl5)|by rewrite Er5|done]).
  assert (Hstack : forall x, USER_STACK_TOP - PAGE_SIZE <= x < USER_STACK_TOP -> writable k5 k5 x).
  { intros x Hx. apply in_stack_page in Hx. destruct (st_writable _ _ _ Hst x Hx) as [H1 H2].
    unfold writable. rewrite Er5, (kp_leaf _ _ _ Hk5) by done. by rewrite <- Er2. }
  assert (Hr5 : read_cr3 k5 ∈ roots') by (by rewrite Er5).
  pose proof (place_arguments_safe k5 roots' Hr5 k5 Hstack A0 arguments k5 Hw5 Ht Hf) as Hp. unfold safe in Hp.
  destruct (place_arguments USER_STACK_TOP arguments k5) as [[[[stack argc] argv]|e|] k6] eqn:Ep; [|done..].
  destruct Hp as (A & Hw6 & Hpass). eapply (safe_answer _ _ _ _ (0, entry_frame (entry l) argc argv stack)).
  { unfold current_id, update_tasks, destroy_space, in_tasks, in_memory, mbind, io_bind, mret, io_ret. cbn [memory tasks]. rewrite Ed. cbn [snd].
    rewrite Ep. reflexivity. }
  exists stack, argc, argv, A. destruct (ld_entry _ _ _ _ _ _ _ Hl) as (Een & _ & _). rewrite Een. split; [done|].
  pose proof (wr_kept _ _ _ _ _ Hw6) as Hk6. pose proof (kept_cr3 _ _ _ Hk6) as Er6. rewrite Er5 in Er6. constructor; cbn [memory tasks].
  - done.
  - apply (ke_space _ _ _ Hk6).
  - intros va U. rewrite <- Er5. by apply (wr_view _ _ _ _ _ Hw6).
  - done.
  - intros va f U Hva Hper. pose proof (wr_leaf _ _ _ _ _ Hw6 va U) as E6. rewrite Er5 in E6. rewrite E6, (kp_leaf _ _ _ Hk5) by done.
    pose proof (proj2 (st_other _ _ _ Hst va U Hva)) as E4. rewrite Er2 in E4. rewrite E4. rewrite <- Er2.
    apply (ld_flags _ _ _ _ _ _ _ Hl va f U). by rewrite Hnx.
  - intros r va Hr' Hro U. assert (Hrin : r ∈ roots') by (right; by apply elem_of_but).
    destruct (ke_others _ _ _ Hk6 r va Hrin ltac:(rewrite Er5; by intros ->) U) as [-> _]. rewrite (kp_view _ _ _ Hk5) by done.
    destruct (Ho4 r va ltac:(by right) ltac:(by intros ->) U) as [-> _]. by apply Hold.
  - reflexivity.
Qed.

(** The stack page, and then the region. *)
Lemma map_stack_safe k2 rs k3 t : read_cr3 k2 ∈ rs -> ElfSpec.kept k2 rs k3 -> view k3 (read_cr3 k2) STACK_PAGE = None ->
  safe map_stack (fun o w' => ElfSpec.kept k2 rs (memory w') /\
     match o with
     | Some top => top = USER_STACK_TOP /\ stacked k2 k3 (memory w') /\
         tasks w' = set_stack_region (CURRENT t) USER_STACK_TOP USER_STACK_LIMIT t
     | None => tasks w' = t
     end) (fun _ => False) (mkWorld D t k3).
Proof using Type.
  intros Hin Hk Hv. unfold map_stack.
  eapply (safe_bind _ _ (fun ok w' => (ElfSpec.kept k2 rs (memory w') /\ if ok : bool then stacked k2 k3 (memory w') else True) /\ tasks w' = t)).
  { apply safe_in_memory. cbn [memory tasks]. eapply safe_mono; [apply (stack_page_safe k2 rs Hin k3 Hk Hv)|done|done]. }
  intros ok [t1 k4] [[Hk4 Hs] Et]. cbn [memory tasks] in *. subst t1. destruct ok; [|by apply safe_ret].
  eapply safe_bind_run; [reflexivity|]. eapply safe_bind_run; [reflexivity|]. by apply safe_ret.
Qed.

Lemma exec_image_safe w data arguments frame fl : space (memory w) roots fl -> read_cr3 (memory w) ∈ roots ->
  Z.of_nat (length roots) + 1 < 2 ^ 32 -> Kernel.CR3 (tasks w) = read_cr3 (memory w) -> Forall is_byte data -> clear_of_stack data ->
  Forall text arguments -> fits arguments ->
  safe (exec_image data arguments frame)
    (fun p w' => (p = (REFUSED, frame) /\ unharmed w w') \/
       exists fresh stack argc argv A, p = (0, entry_frame (word 8 data 24) argc argv stack) /\ replaced data arguments fresh stack argc argv A w w')
    (fun _ => False) w.
Proof using Type.
  intros Hsp Hr Hlen Hcr Hb Hclear Ht Hf. unfold exec_image.
  assert (Hself : unharmed w w) by (constructor; try done; by exists fl).
  pose proof (fresh_start (memory w) fl Hsp Hr Hlen) as Hfresh.
  destruct (AddressSpace_new (memory w)) as [[fresh|] k1] eqn:En.
  2:{ eapply safe_bind_run; [unfold new_space, in_memory; rewrite En; reflexivity|]. rewrite Hfresh. left. by destruct w. }
  destruct Hfresh as [Hfs Er1]. set (k2 := k1 <| CR3 := fresh |>) in *. set (t := (tasks w) <| Kernel.CR3 := fresh |>).
  eapply safe_bind_run; [unfold new_space, in_memory; rewrite En; reflexivity|]. cbv beta iota.
  eapply safe_bind_run; [unfold active_root, in_memory; cbn [memory tasks]; rewrite Er1; reflexivity|].
  eapply safe_bind_run; [reflexivity|]. cbn [memory tasks]. fold k2 t.
  assert (Hin : read_cr3 k2 ∈ fresh :: roots) by (rewrite (fs_root _ _ _ Hfs); left).
  assert (Hld : loading k2 (fresh :: roots) (view k2 (read_cr3 k2)) k2).
  { destruct (ke_space _ _ _ (fs_kept _ _ _ Hfs)) as [fl2 Hsp2]. apply (loading_start k2 (fresh :: roots) fl2 Hsp2). intros va U P.
    apply view_present in P. rewrite (fs_root _ _ _ Hfs), (fs_empty _ _ _ Hfs va U) in P. by destruct P. }
  set (old := read_cr3 (memory w)) in *.
  eapply (safe_bind _ _ (fun o w' => tasks w' = t /\ match o with
     | Some l => loaded k2 (fresh :: roots) data (program_headers data) (word 8 data 24) l (memory w')
     | None => ElfSpec.kept k2 (fresh :: roots) (memory w') end)).
  { eapply safe_mono; [apply safe_attempt, (safe_in_memory _ (fun l w' => tasks w' = t /\ loaded k2 (fresh :: roots) data (program_headers data) (word 8 data 24) l (memory w'))
      (fun w' => tasks w' = t /\ ElfSpec.kept k2 (fresh :: roots) (memory w')))| |done].
    - cbn [memory tasks]. eapply safe_mono; [apply (elf_load_safe k2 (fresh :: roots) Hin Hld data Hb)|by split|by split].
    - intros [l|] w1 [? ?]; by split. }
  intros o [t1 k3] [Et Ho]. cbn [memory tasks] in *. subst t1.
  assert (Hwithdraw : forall k, ElfSpec.kept k2 (fresh :: roots) k -> safe (withdraw old fresh frame)
    (fun p w' => (p = (REFUSED, frame) /\ unharmed w w') \/
       exists fresh stack argc argv A, p = (0, entry_frame (word 8 data 24) argc argv stack) /\ replaced data arguments fresh stack argc argv A w w')
    (fun _ => False) (mkWorld D t k)).
  { intros k Hk. eapply safe_mono; [by apply (withdraw_safe w t fresh k2 k frame Hfs Hk Hr Hcr)|by left|done]. }
  destruct o as [l|]; [|by apply Hwithdraw].
  assert (Hempty : view k3 (read_cr3 k2) STACK_PAGE = None).
  { assert (U : user STACK_PAGE) by (apply in_stack_user; unfold STACK_PAGE, USER_STACK_TOP, PAGE_SIZE; lia).
    rewrite (ld_view _ _ _ _ _ _ _ Ho _ U), image_outside; [rewrite (fs_root _ _ _ Hfs); by apply (fs_empty _ _ _ Hfs)|].
    intros h Hh Hlo. split; [by apply (ld_accepted _ _ _ _ _ _ _ Ho)|]. apply Hclear; [done|done|]. by apply page_of_id. }
  eapply safe_bind; [apply (map_stack_safe k2 (fresh :: roots) k3 t Hin (ld_kept _ _ _ _ _ _ _ Ho) Hempty)|].
  intros o2 [t2 k4] [Hk4 Hs]. cbn [memory tasks] in *. destruct o2 as [top|]; [|rewrite Hs; by apply Hwithdraw].
  destruct Hs as (-> & Hst & ->).
  eapply safe_mono; [apply (enter_safe w data arguments fresh k2 k3 k4 l _ Hfs Ho Hk4 Hst Hr Ht Hf); reflexivity| |done].
  intros p w' (stack & argc & argv & A & H). right. by exists fresh, stack, argc, argv, A.
Qed.

End exec.
