(* ===== verification/Exec.v ===== *)
(** * [exec]

    The call as a program makes it: the arguments in its memory, the program
    on the disk.  Either nothing happened, or the caller runs the file. *)

From S2P Require Import Prelude Bytes Disk Pages Replace Swap Policy Sched TaskTable Pipe Signal Kernel Fat FatTable FatProps Memory PageTables Spaces UserPages Sharing Cow Destroy Access CowRun Elf ElfSpec User UserSpec.

#[local] Arguments Z.pow : simpl never.
#[local] Arguments load : simpl never.
#[local] Arguments Z.mul : simpl never.
#[local] Arguments Z.add : simpl never.
#[local] Arguments Z.sub : simpl never.

(** ** The file *)

Section file.
Context {D : Type} `{HL : DiskLaws D}.

Lemma mount_tame : tame (mount : io D Volume) geometry.
Proof using HL.
  intros d. unfold safe, mount. destruct (disk_present d) as [present d1]. destruct present; [|done]. cbn [negb].
  pose proof (read_bytes_tame 0 1 d1) as Hr. unfold safe, mbind, io_bind, lift in *. destruct (read 0 1 d1) as [[b|e|] d2]; [|done..].
  destruct Hr as [Hl Hb]. pose proof (parse_bpb_safe b Hl) as Hp. pose proof (parse_bpb_geometry b) as Hgeo. destruct (parse_bpb b) as [v|e|]; [|done..]. by apply Hgeo.
Qed.

Lemma read_program_tame name_ : tame (read_program name_ : io D _) (Forall is_byte).
Proof using HL. eapply tame_bind; [apply mount_tame|]. intros v Hv. apply load_file_tame, Hv. Qed.
End file.

(** ** The arguments *)

(** Bytes, and few enough of them. *)
Definition total_length (l : list (list Z)) : Z := fold_right (fun argument n => Z.of_nat (length argument) + n) 0 l.

Lemma total_length_app l1 l2 : total_length (l1 ++ l2) = total_length l1 + total_length l2.
Proof. unfold total_length. induction l1 as [|a l1 IH]; cbn [app fold_right]; lia. Qed.

Lemma need_total l : need l = total_length l + 8 * Z.of_nat (length l).
Proof. unfold need, total_length. induction l as [|a l IH]; cbn [fold_right length]; lia. Qed.

Lemma split_zero_spec bytes : split_zero bytes <> [] /\ total_length (split_zero bytes) <= Z.of_nat (length bytes) /\
  (Forall is_byte bytes -> Forall text (split_zero bytes)).
Proof.
  unfold total_length. induction bytes as [|b bytes (H0 & H1 & H2)]; cbn [split_zero].
  - split_and!; [done|done|]. intros _. repeat constructor.
  - destruct (split_zero bytes) as [|piece pieces]; [done|]. split_and!; [by destruct (b =? 0)| |].
    + destruct (b =? 0); cbn [fold_right length] in *; lia.
    + intros [Hb Hbs]%Forall_cons. specialize (H2 Hbs). apply Forall_cons in H2 as [Hp Hps].
      destruct (b =? 0); [constructor; [constructor|by constructor]|]. constructor; [by constructor|done].
Qed.

Lemma collect_arguments_spec pieces count : forall acc args, collect_arguments pieces count acc = Some args ->
  total_length args <= total_length acc + total_length pieces /\ Z.of_nat (length args) <= Z.max count (Z.of_nat (length acc)) /\
  (Forall text pieces -> Forall text acc -> Forall text args).
Proof.
  induction pieces as [|piece pieces IH]; intros acc args; cbn [collect_arguments].
  - intros [= <-]. split_and!; [cbn; lia|lia|done].
  - assert (H0 : 0 <= total_length (piece :: pieces)) by (unfold total_length; induction (piece :: pieces); cbn [fold_right]; lia).
    destruct (Z.leb_spec count (Z.of_nat (length acc))); [intros [= <-]; split_and!; (done || lia)|].
    change (total_length (piece :: pieces)) with (Z.of_nat (length piece) + total_length pieces).
    destruct (length piece =? 0)%nat.
    + intros (H1 & H2 & H3)%IH. split_and!; [lia|lia|]. intros [_ Hp]%Forall_cons. by apply H3.
    + destruct (utf8 piece); [|done]. intros (H1 & H2 & H3)%IH. rewrite total_length_app in H1. rewrite length_app in H2.
      assert (total_length [piece] = Z.of_nat (length piece)) by (cbn; lia). cbn [length] in *. split_and!; [lia|lia|].
      intros [Hp Hps]%Forall_cons Ha. apply H3; [done|]. apply Forall_app. split; [done|by constructor].
Qed.

(** What [exec] lets through fits the stack page. *)
Lemma collected_fits bytes count args : Forall is_byte bytes -> Z.of_nat (length bytes) <= 1024 -> count <= 16 ->
  collect_arguments (split_zero bytes) count [] = Some args -> Forall text args /\ fits args.
Proof.
  intros Hb Hl Hc (H1 & H2 & H3)%collect_arguments_spec. destruct (split_zero_spec bytes) as (_ & H4 & H5). change (total_length []) with 0 in H1.
  cbn [length] in H2. split; [apply H3; [by apply H5|constructor]|]. unfold fits, PAGE_SIZE. rewrite need_total. lia.
Qed.

(** ** The call *)

Section call.
Context {D : Type} `{HL : DiskLaws D}.
Implicit Types (k : Mem D) (w : World D).

Lemma view_byte k r va b : bytes_ok (ram k) -> view k r va = Some b -> is_byte b.
Proof. intros Hb. unfold view. destruct (has _ _); [|done]. intros [= <-]. apply Hb. Qed.

(** An accepted buffer can be read, and holds bytes. *)
Lemma accessible_bytes fuel k roots fl a len : space k roots fl -> read_cr3 k ∈ roots -> 0 <= a -> a + len <= USER_SPACE_END ->
  is_user_accessible fuel k a len = Some true ->
  exists bytes, load_bytes a len k = (Ok bytes, k) /\ Forall is_byte bytes /\ length bytes = Z.to_nat len /\
    forall i, 0 <= i < len -> bytes !! Z.to_nat i = view k (read_cr3 k) (a + i).
Proof.
  intros Hsp Hr Ha He Hacc. pose proof (accessible_mapped fuel k roots fl a len Hsp Hr Ha He Hacc) as Hm. unfold load_bytes.
  destruct (mapM _ (seqZ a len)) as [bytes|] eqn:E.
  - apply mapM_Some in E as E'. exists bytes. split_and!; [done| | |].
    + apply Forall_forall. intros b Hb. apply list_elem_of_lookup in Hb as [i Hi].
      destruct (Forall2_lookup_r _ _ _ _ _ E' Hi) as (x & _ & Hx). destruct (canonical x); [|done].
      exact (view_byte k (read_cr3 k) x b (sh_bytes _ _ _ (sp_shape _ _ _ Hsp)) Hx).
    + by rewrite <- (Forall2_length _ _ _ E'), length_seqZ.
    + intros i Hi. assert (Hs : seqZ a len !! Z.to_nat i = Some (a + i)) by (rewrite lookup_seqZ_lt by lia; do 2 f_equal; lia).
      destruct (Forall2_lookup_l _ _ _ _ _ E' Hs) as (b & -> & Hb). rewrite user_canonical in Hb by (unfold user; lia). done.
  - exfalso. apply mapM_None, Exists_exists in E as (x & Hx & Hn). apply elem_of_seqZ in Hx.
    rewrite user_canonical in Hn by (unfold user; lia). destruct (Hm x Hx) as [P _]. apply view_present in P. rewrite Hn in P. by destruct P.
Qed.

(** A change of the disk alone. *)
Definition with_disk w (d : D) : World D := mkWorld D (tasks w) ((memory w) <| DISK := d |>).

Lemma space_disk k roots fl d : space k roots fl -> space (k <| DISK := d |>) roots fl.
Proof. intros [[] []]. by split. Qed.

Lemma unharmed_disk roots w d w' : unharmed roots (with_disk w d) w' -> unharmed roots w w'.
Proof. intros [H1 H2 H3 H4]. constructor; [exact H1|exact H2|exact H3|exact H4]. Qed.

Lemma replaced_disk roots data args fresh stack argc argv A w d w' :
  replaced roots data args fresh stack argc argv A (with_disk w d) w' -> replaced roots data args fresh stack argc argv A w w'.
Proof. intros [H1 H2 H3 H4 H5 H6 H7]. constructor; [exact H1|exact H2|exact H3|exact H4|exact H5|exact H6|exact H7]. Qed.

(** The call refused, or the file and the arguments it was made from. *)
Definition exec_outcome roots (blob len count : Z) (frame : list Z) w (p : Z * list Z) w' : Prop :=
  (p = (REFUSED, frame) /\ unharmed roots w w') \/
  exists bytes name_ args data fresh stack argc argv A,
    mapM (view (memory w) (read_cr3 (memory w))) (seqZ blob len) = Some bytes /\
    collect_arguments (split_zero bytes) count [] = Some (name_ :: args) /\
    (read_program name_ (DISK (memory w))).1 = Ok data /\
    p = (0, entry_frame (word 8 data 24) argc argv stack) /\ replaced roots data (name_ :: args) fresh stack argc argv A w w'.

Lemma safe_accessible fuel a len w b (P : bool -> World D -> Prop) E : is_user_accessible fuel (memory w) a len = Some b -> P b w ->
  safe (in_memory (accessible fuel a len)) P E w.
Proof using Type. intros Hb HP. unfold safe, in_memory, accessible. rewrite Hb. by destruct w. Qed.

(** Reading the program changes only the disk. *)
Lemma safe_read_program name_ w : safe (attempt (in_memory (on_disk (read_program name_))))
  (fun o w' => exists d, w' = with_disk w d /\
     match o with Some data => Forall is_byte data /\ (read_program name_ (DISK (memory w))).1 = Ok data | None => True end) (fun _ => False) w.
Proof using HL.
  unfold safe, attempt, in_memory, on_disk. pose proof (read_program_tame name_ (DISK (memory w))) as H. unfold safe in H.
  destruct (read_program name_ (DISK (memory w))) as [[data|e|] d]; [| |done]; exists d; split; done.
Qed.

Lemma exec_safe roots fuel blob len count frame w fl : space (memory w) roots fl -> read_cr3 (memory w) ∈ roots ->
  Z.of_nat (length roots) + 1 < 2 ^ 32 -> Kernel.CR3 (tasks w) = read_cr3 (memory w) ->
  0 <= blob -> 0 <= len -> blob + len <= USER_SPACE_END -> len / 4096 + 3 <= Z.of_nat fuel ->
  (forall bytes name_ args data, mapM (view (memory w) (read_cr3 (memory w))) (seqZ blob len) = Some bytes ->
     collect_arguments (split_zero bytes) count [] = Some (name_ :: args) ->
     (read_program name_ (DISK (memory w))).1 = Ok data -> clear_of_stack data) ->
  safe (exec fuel blob len count frame) (exec_outcome roots blob len count frame w) (fun _ => False) w.
Proof using HL.
  intros Hsp Hr Hn Hcr Ha Hl He Hf Hclear. unfold exec.
  assert (Hself : unharmed roots w w) by (constructor; try done; by exists fl).
  assert (Href : forall w', unharmed roots w w' -> safe (refused frame) (exec_outcome roots blob len count frame w) (fun _ => False) w')
    by (intros w' Hu; by left).
  pose proof (accessible_enough fuel (memory w) blob len Ha Hl He Hf) as Hacc.
  destruct (is_user_accessible fuel (memory w) blob len) as [b|] eqn:Eb; [|done]. clear Hacc.
  eapply safe_bind; [by apply (safe_accessible fuel blob len w b (fun b' w' => b' = b /\ w' = w))|]. intros b' w' [-> ->].
  destruct (negb b || (1024 <? len) || (count =? 0) || (16 <? count)) eqn:Eg; [by apply Href|].
  rewrite !orb_false_iff, negb_false_iff, !Z.ltb_ge in Eg. destruct Eg as [[[-> Hlen] _] Hcount].
  destruct (accessible_bytes fuel (memory w) roots fl blob len Hsp Hr Ha He Eb) as (bytes & El & Hb & Hbl & Hbv).
  eapply (safe_bind_run _ _ _ _ w bytes w); [unfold in_memory; rewrite El; by destruct w|].
  assert (Hbytes : mapM (view (memory w) (read_cr3 (memory w))) (seqZ blob len) = Some bytes).
  { apply mapM_Some, Forall2_lookup. intros i. destruct (decide (i < Z.to_nat len)%nat) as [Hi|Hi].
    - rewrite lookup_seqZ_lt by lia. specialize (Hbv (Z.of_nat i) ltac:(lia)). rewrite Nat2Z.id in Hbv. rewrite Hbv. destruct (lookup_lt_is_Some_2 bytes i ltac:(lia)) as [x Hx].
      rewrite Hbv in Hx. rewrite Hx. by constructor.
    - rewrite lookup_seqZ_ge by lia. rewrite (lookup_ge_None_2 bytes i) by lia. constructor. }
  destruct (collect_arguments (split_zero bytes) count []) as [[|name_ args]|] eqn:Ec; [by apply Href| |by apply Href].
  destruct (collected_fits bytes count _ Hb ltac:(lia) Hcount Ec) as [Ht Hfit].
  eapply safe_bind; [apply safe_read_program|]. intros o w1 (d & -> & Ho).
  destruct o as [data|]; [|by apply Href, (unharmed_disk roots w d); constructor; [| |by exists fl; apply space_disk|]].
  destruct Ho as [Hdb Hd].
  eapply safe_mono; [apply (exec_image_safe roots (with_disk w d) data (name_ :: args) frame fl); try done; [by apply space_disk|by apply (Hclear bytes name_ args)]| |done].
  intros p w' [[-> Hu]|(fresh & stack & argc & argv & A & -> & Hrep)]; [left; split; [done|by apply unharmed_disk in Hu]|right].
  exists bytes, name_, args, data, fresh, stack, argc, argv, A. split_and!; [done|done|done|done|by apply replaced_disk in Hrep].
Qed.


(** C17: the address check takes addresses the processor does not. For every
    buffer a program may pass, the address 2^48 above it, which no program can
    map and which is not canonical, passes [is_user_accessible] as well, and
    [exec] then reads through it: a general protection fault in the kernel,
    which halts the machine. *)
Theorem exec_through_alias_halts fuel blob len count frame w : 0 <= blob -> 0 < len <= 1024 -> blob + len <= USER_SPACE_END ->
  0 < count <= 16 -> is_user_accessible fuel (memory w) blob len = Some true ->
  exec fuel (blob + 2 ^ 48) len count frame w = (Panic, w).
Proof using Type.
  intros Ha Hl He Hc Hacc. assert (Hal : is_user_accessible fuel (memory w) (blob + 2 ^ 48) len = Some true) by (by rewrite accessible_alias).
  unfold exec. rewrite (io_bind_run _ _ w true w) by (unfold in_memory, accessible; rewrite Hal; by destruct w).
  cbn [negb orb]. rewrite (proj2 (Z.ltb_ge 1024 len)), (proj2 (Z.eqb_neq count 0)), (proj2 (Z.ltb_ge 16 count)) by lia. cbn [orb].
  unfold in_memory, load_bytes, mbind, io_bind. destruct (mapM _ _) as [bytes|] eqn:E; [|by destruct w]. exfalso. apply mapM_Some in E.
  destruct (Forall2_lookup_l _ _ _ 0%nat (blob + 2 ^ 48) E) as (b & _ & Hb); [rewrite lookup_seqZ_lt by lia; f_equal; lia|].
  unfold canonical in Hb. unfold USER_SPACE_END in He. assert (E1 : 2 ^ 47 <= 2 ^ 48) by done. assert (E2 : 2 ^ 48 + 549755813888 < 2 ^ 64 - 2 ^ 47) by done.
  rewrite (proj2 (Z.ltb_ge _ _)), (proj2 (Z.leb_gt _ _)) in Hb by lia. done.
Qed.
End call.
