(* ===== verification/UserRun.v ===== *)
(** * [exec] on a machine

    A machine of [Boot] whose disk is an empty volume of [FatRun], and a
    program that asks for a file. *)

From S2P Require Import Prelude Bytes Disk Pages Replace Swap Policy Sched TaskTable Pipe Signal Kernel Resume Fat FatTable FatDir FatFile FatSpec FatFiles FatProps FatRun Memory PageTables Spaces UserPages Sharing Cow CowRun Boot Elf ElfSpec ElfRun Access User UserSpec Exec.

#[local] Arguments Z.pow : simpl never.
#[local] Arguments load : simpl never.

(** The same machine with another disk. *)
Definition recast {D D'} (d : D') (k : Mem D) : Mem D' :=
  mkMem D' (ram k) (ALLOCATOR k) (SHARED k) (Memory.CR3 k) (NO_EXECUTE_ACTIVE k) (REPLACE k) (SWAP k) d.

Lemma recast_space {D D'} (d : D') (k : Mem D) roots fl : space k roots fl -> space (recast d k) roots fl.
Proof. intros [[] []]. by split. Qed.

(** A program that has written a name and a zero below [32768]. *)
Definition hello_name : list Z := [104; 101; 108; 108; 111].
Definition BLOB : Z := 32752.
Definition name_written : list Action :=
  Grow ROOT (32768, 4096) 32760 :: imap (fun i b => Write ROOT (BLOB + Z.of_nat i) b) hello_name.
Definition named : option (Mem RamDisk * list Z * Private) := run name_written (machine 24, [ROOT]) blank_private.

Definition caller : World Platter :=
  mkWorld Platter (idle <| Kernel.CR3 := ROOT |>) (recast blank_volume (default off ((fun p => p.1.1) <$> named))).

Lemma caller_space : exists fl, space (memory caller) [ROOT] fl.
Proof.
  destruct (machine_space 24) as (fl & Hsp & _); [lia|].
  assert (G : forall o, run name_written (machine 24, [ROOT]) blank_private = o -> (fun p => p.1.2) <$> o = Some [ROOT] ->
            exists fl, space (recast blank_volume (default off ((fun p => p.1.1) <$> o))) [ROOT] fl).
  { intros [[[k roots] A]|] E; [|done]. cbn [fmap option_fmap option_map fst snd]. intros [= ->].
    destruct (run_spec name_written (machine 24) [ROOT] fl blank_private k [ROOT] A Hsp) as (_ & fl' & Hsp').
    - change (7 < 2 ^ 32). done.
    - intros r va ->%list_elem_of_singleton U. apply (machine_blank 24); [lia|exact U].
    - exact E.
    - exists fl'. by apply recast_space. }
  change (memory caller) with (recast blank_volume (default off ((fun p => p.1.1) <$> named))).
  apply (G named); [unfold named; reflexivity|]. vm_compute. reflexivity.
Qed.

Definition asked : list Z := replicate 20 7.


(** The same call through the alias of the buffer. *)
Lemma exec_through_alias_halts_witness :
  is_user_accessible 3 (memory caller) BLOB 6 = Some true /\ exec 3 (BLOB + 2 ^ 48) 6 1 asked caller = (Panic, caller).
Proof.
  assert (H1 : 0 <= BLOB) by done. assert (H2 : 0 < 6 <= 1024) by done. assert (H3 : BLOB + 6 <= USER_SPACE_END) by done. assert (H4 : 0 < 1 <= 16) by done.
  assert (Ha : is_user_accessible 3 (memory caller) BLOB 6 = Some true) by (vm_compute; reflexivity). split; [exact Ha|].
  exact (exec_through_alias_halts 3 BLOB 6 1 asked caller H1 H2 H3 H4 Ha).
Defined.
