(* ===== verification/Gates.v ===== *)
(** * The descriptor tables: [interrupts.rs] and [gdt.rs]

    The interrupt table as [init] fills it and the segment table as [gdt::init]
    does, as the bytes and words the processor reads; and what the processor
    makes of them, after the manufacturer's manual.  Where the linker put the
    handlers is a parameter. *)

From S2P Require Import Prelude Bytes Kernel.

#[local] Arguments Z.mul : simpl never.
#[local] Arguments Z.add : simpl never.
#[local] Arguments Z.pow : simpl never.
#[local] Arguments le : simpl never.

(** ** The interrupt table *)

Record Entry := mkEntry { ptr_low : Z; gdt_selector : Z; options : Z; ptr_mid : Z; ptr_high : Z; reserved : Z }.
#[export] Instance Entry_inhabited : Inhabited Entry := populate (mkEntry 0 0 0 0 0 0).

Definition Entry_empty : Entry := mkEntry 0 0 0 0 0 0.

(** [entry.set(handler, ist)]: every field but [reserved]. *)
Definition set (handler ist : Z) (e : Entry) : Entry :=
  mkEntry (wrap 16 handler) KERNEL_CODE (Z.lor 36352 ist) (wrap 16 (Z.shiftr handler 16)) (wrap 32 (Z.shiftr handler 32)) (reserved e).
Definition set_user_callable (handler : Z) (e : Entry) : Entry :=
  let e := set handler 0 e in
  mkEntry (ptr_low e) (gdt_selector e) 60928 (ptr_mid e) (ptr_high e) (reserved e).

(** The sixteen bytes of a packed entry. *)
Definition entry_bytes (e : Entry) : list Z :=
  le 2 (ptr_low e) ++ le 2 (gdt_selector e) ++ le 2 (options e) ++ le 2 (ptr_mid e) ++ le 4 (ptr_high e) ++ le 4 (reserved e).

Definition TIMER_VECTOR : nat := 32.
Definition KEYBOARD_VECTOR : nat := 33.
Definition SERIAL_VECTOR : nat := 36.
Definition SYSCALL_VECTOR : nat := 128.
Definition DOUBLE_FAULT_IST_INDEX : Z := 0.

(** Where each handler is. *)
Record Handlers := mkHandlers {
  divide_by_zero : Z; breakpoint : Z; invalid_opcode : Z; double_fault : Z; general_protection : Z; page_fault : Z;
  timer_entry : Z; keyboard_irq : Z; serial_irq : Z; syscall_entry : Z
}.

Definition IDT_empty : list Entry := replicate 256 Entry_empty.
Definition update (v : nat) (f : Entry -> Entry) (idt : list Entry) : list Entry := <[v := f (idt !!! v)]> idt.

Definition init_idt (h : Handlers) (idt : list Entry) : list Entry :=
  let idt := update 0 (set (divide_by_zero h) 0) idt in
  let idt := update 3 (set (breakpoint h) 0) idt in
  let idt := update 6 (set (invalid_opcode h) 0) idt in
  let idt := update 8 (set (double_fault h) (DOUBLE_FAULT_IST_INDEX + 1)) idt in
  let idt := update 13 (set (general_protection h) 0) idt in
  let idt := update 14 (set (page_fault h) 0) idt in
  let idt := update TIMER_VECTOR (set (timer_entry h) 0) idt in
  let idt := update KEYBOARD_VECTOR (set (keyboard_irq h) 0) idt in
  let idt := update SERIAL_VECTOR (set (serial_irq h) 0) idt in
  update SYSCALL_VECTOR (set_user_callable (syscall_entry h)) idt.

(** ** The segment table *)

Definition KERNEL_DATA : Z := 16.
Definition TSS_SELECTOR : Z := 24.
Definition TSS_SIZE : Z := 104.

Definition gdt_entries (tss : Z) : list Z :=
  let bit n := Z.shiftl 1 n in
  let limit := TSS_SIZE - 1 in
  let low := Z.land limit 65535 in
  let low := Z.lor low (wrap 64 (Z.shiftl (Z.land tss 16777215) 16)) in
  let low := Z.lor low (Z.shiftl 9 40) in
  let low := Z.lor low (bit 47) in
  let low := Z.lor low (Z.shiftl (Z.land (Z.shiftr limit 16) 15) 48) in
  let low := Z.lor low (wrap 64 (Z.shiftl (Z.land (Z.shiftr tss 24) 255) 56)) in
  [0;
   Z.lor (Z.lor (Z.lor (bit 43) (bit 44)) (bit 47)) (bit 53);
   Z.lor (Z.lor (bit 44) (bit 47)) (bit 41);
   low;
   Z.shiftr tss 32;
   Z.lor (Z.lor (Z.lor (bit 44) (bit 47)) (bit 41)) (Z.shiftl 3 45);
   Z.lor (Z.lor (Z.lor (Z.lor (bit 43) (bit 44)) (bit 47)) (bit 53)) (Z.shiftl 3 45)].

(** ** The processor's reading *)

(** Bits [lo, lo + n) of a word. *)
Definition bits (w lo n : Z) : Z := (w / 2 ^ lo) mod 2 ^ n.

(** A gate: where it leads, through which segment, on which stack, and the
    least privileged ring whose [int] may use it. *)
Record Gate := mkGate { gate_offset : Z; gate_selector : Z; gate_ist : Z; gate_dpl : Z }.

(** Sixteen bytes as a 64-bit interrupt gate, if present and one. *)
Definition read_gate (bytes : list Z) : option Gate :=
  let w := unle bytes in
  if (bits w 47 1 =? 1) && (bits w 40 5 =? 14)
  then Some (mkGate (bits w 0 16 + 2 ^ 16 * bits w 48 16 + 2 ^ 32 * bits w 64 32) (bits w 16 16) (bits w 32 3) (bits w 45 2))
  else None.

(** Vector [v], raised by the hardware or by an [int] at privilege [cpl]:
    the gate entered, or a fault. *)
Definition vector (idt : list Entry) (software : bool) (cpl : Z) (v : nat) : option Gate :=
  match read_gate (entry_bytes (idt !!! v)) with
  | Some g => if software && (gate_dpl g <? cpl) then None else Some g
  | None => None
  end.

(** A segment descriptor, and a selector that names one. *)
Record Segment := mkSegment { seg_code : bool; seg_dpl : Z; seg_long : bool; seg_writable : bool }.
Definition read_segment (w : Z) : option Segment :=
  if (bits w 47 1 =? 1) && (bits w 44 1 =? 1)
  then Some (mkSegment (bits w 43 1 =? 1) (bits w 45 2) (bits w 53 1 =? 1) ((bits w 43 1 =? 0) && (bits w 41 1 =? 1)))
  else None.
Definition selected (gdt : list Z) (selector : Z) : option Segment :=
  match gdt !! Z.to_nat (bits selector 3 13) with Some w => read_segment w | None => None end.

(** The base and the limit of a 16-byte system descriptor. *)
Definition system_base (low high : Z) : Z := bits low 16 24 + 2 ^ 24 * bits low 56 8 + 2 ^ 32 * bits high 0 32.
Definition system_limit (low : Z) : Z := bits low 0 16 + 2 ^ 16 * bits low 48 4.

(** ** What the tables say *)

Lemma bits_above a y lo k n : 0 <= lo -> 0 <= k -> 0 <= a < 2 ^ lo -> bits (a + 2 ^ lo * y) (lo + k) n = bits y k n.
Proof.
  intros Hl Hk Ha. unfold bits. rewrite Z.pow_add_r by done. rewrite <- Z.div_div by (apply Z.pow_nonzero || apply Z.pow_pos_nonneg; lia).
  rewrite (Z.mul_comm (2 ^ lo) y), Z.div_add, (Z.div_small a) by (done || lia). done.
Qed.

Lemma bits_below x y m k n : 0 <= k -> 0 <= n -> k + n <= m -> bits (x + 2 ^ m * y) k n = bits x k n.
Proof.
  intros Hk Hn Hm. unfold bits. replace m with (k + (n + (m - k - n))) by lia. rewrite !Z.pow_add_r by lia.
  replace (x + 2 ^ k * (2 ^ n * 2 ^ (m - k - n)) * y) with (x + (2 ^ (m - k - n) * y * 2 ^ n) * 2 ^ k) by lia.
  rewrite Z.div_add by (apply Z.pow_nonzero; lia). by rewrite Z.mod_add by (apply Z.pow_nonzero; lia).
Qed.

Lemma bits_all x n : 0 <= x < 2 ^ n -> bits x 0 n = x.
Proof. intros Hx. unfold bits. rewrite Z.div_1_r. by apply Z.mod_small. Qed.

(** The six fields of an entry, and a gate from them. *)
Record entry_ok (e : Entry) : Prop := {
  en_low : 0 <= ptr_low e < 2 ^ 16; en_selector : 0 <= gdt_selector e < 2 ^ 16; en_options : 0 <= options e < 2 ^ 16;
  en_mid : 0 <= ptr_mid e < 2 ^ 16; en_high : 0 <= ptr_high e < 2 ^ 32; en_reserved : 0 <= reserved e < 2 ^ 32
}.

Lemma entry_word e : entry_ok e -> unle (entry_bytes e) =
  ptr_low e + 2 ^ 16 * (gdt_selector e + 2 ^ 16 * (options e + 2 ^ 16 * (ptr_mid e + 2 ^ 16 * (ptr_high e + 2 ^ 32 * reserved e)))).
Proof.
  intros []. unfold entry_bytes. rewrite !unle_app, !le_length, !unle_le by done. done.
Qed.

Lemma read_entry e : entry_ok e -> read_gate (entry_bytes e) =
  if (bits (options e) 15 1 =? 1) && (bits (options e) 8 5 =? 14)
  then Some (mkGate (ptr_low e + 2 ^ 16 * ptr_mid e + 2 ^ 32 * ptr_high e) (gdt_selector e) (bits (options e) 0 3) (bits (options e) 13 2)) else None.
Proof.
  intros He. unfold read_gate. rewrite (entry_word e He). destruct He as [H1 H2 H3 H4 H5 H6]. set (y4 := ptr_high e + 2 ^ 32 * reserved e).
  set (y3 := ptr_mid e + 2 ^ 16 * y4). set (y2 := options e + 2 ^ 16 * y3). set (y1 := gdt_selector e + 2 ^ 16 * y2).
  assert (E1 : forall k n, 0 <= k -> bits (ptr_low e + 2 ^ 16 * y1) (16 + k) n = bits y1 k n) by (intros; by apply bits_above).
  assert (E2 : forall k n, 0 <= k -> bits y1 (16 + k) n = bits y2 k n) by (intros; by apply bits_above).
  assert (E3 : forall k n, 0 <= k -> bits y2 (16 + k) n = bits y3 k n) by (intros; by apply bits_above).
  assert (E4 : forall k n, 0 <= k -> bits y3 (16 + k) n = bits y4 k n) by (intros; by apply bits_above).
  assert (Eo : forall k n, 0 <= k -> 0 <= n -> k + n <= 16 -> bits (ptr_low e + 2 ^ 16 * y1) (16 + (16 + k)) n = bits (options e) k n).
  { intros k n Hk Hn Hkn. rewrite E1, E2 by lia. by apply bits_below. }
  assert (E47 : bits (ptr_low e + 2 ^ 16 * y1) 47 1 = bits (options e) 15 1) by (by apply (Eo 15 1)).
  assert (E40 : bits (ptr_low e + 2 ^ 16 * y1) 40 5 = bits (options e) 8 5) by (by apply (Eo 8 5)).
  assert (E32 : bits (ptr_low e + 2 ^ 16 * y1) 32 3 = bits (options e) 0 3) by (by apply (Eo 0 3)).
  assert (E45 : bits (ptr_low e + 2 ^ 16 * y1) 45 2 = bits (options e) 13 2) by (by apply (Eo 13 2)).
  assert (E0 : bits (ptr_low e + 2 ^ 16 * y1) 0 16 = ptr_low e) by (rewrite bits_below by lia; by apply bits_all).
  assert (E16 : bits (ptr_low e + 2 ^ 16 * y1) 16 16 = gdt_selector e).
  { transitivity (bits y1 0 16); [by apply (E1 0 16)|]. unfold y1. rewrite bits_below by lia. by apply bits_all. }
  assert (E48 : bits (ptr_low e + 2 ^ 16 * y1) 48 16 = ptr_mid e).
  { transitivity (bits y3 0 16); [|unfold y3; rewrite bits_below by lia; by apply bits_all].
    transitivity (bits y1 32 16); [by apply (E1 32 16)|]. transitivity (bits y2 16 16); [by apply (E2 16 16)|]. by apply (E3 0 16). }
  assert (E64 : bits (ptr_low e + 2 ^ 16 * y1) 64 32 = ptr_high e).
  { transitivity (bits y4 0 32); [|unfold y4; rewrite bits_below by lia; by apply bits_all].
    transitivity (bits y1 48 32); [by apply (E1 48 32)|]. transitivity (bits y2 32 32); [by apply (E2 32 32)|].
    transitivity (bits y3 16 32); [by apply (E3 16 32)|]. by apply (E4 0 32). }
  by rewrite E47, E40, E32, E45, E0, E16, E48, E64.
Qed.

(** The three pieces of an address. *)
Lemma address_pieces handler : in_u 64 handler ->
  wrap 16 handler + 2 ^ 16 * wrap 16 (Z.shiftr handler 16) + 2 ^ 32 * wrap 32 (Z.shiftr handler 32) = handler.
Proof.
  intros H. unfold wrap. rewrite !Z.shiftr_div_pow2 by done. unfold in_u in H. change (2 ^ 64) with (2 ^ 32 * 2 ^ 32) in H.
  rewrite (Z.mod_small (handler / 2 ^ 32)) by (split; [apply Z.div_pos; lia|apply Z.div_lt_upper_bound; lia]).
  pose proof (Z.div_mod handler (2 ^ 16)). pose proof (Z.div_mod (handler / 2 ^ 16) (2 ^ 16)). rewrite Z.div_div in * by done.
  change (2 ^ 16 * 2 ^ 16) with (2 ^ 32) in *. change (2 ^ 16) with 65536 in *. change (2 ^ 32) with 4294967296 in *. lia.
Qed.

Lemma wired_gate handler opts : in_u 64 handler -> 0 <= opts < 2 ^ 16 ->
  read_gate (entry_bytes (mkEntry (wrap 16 handler) KERNEL_CODE opts (wrap 16 (Z.shiftr handler 16)) (wrap 32 (Z.shiftr handler 32)) 0)) =
    if (bits opts 15 1 =? 1) && (bits opts 8 5 =? 14) then Some (mkGate handler KERNEL_CODE (bits opts 0 3) (bits opts 13 2)) else None.
Proof.
  intros Hh Ho. rewrite read_entry; cbn [ptr_low gdt_selector options ptr_mid ptr_high reserved].
  - by rewrite address_pieces.
  - constructor; cbn [ptr_low gdt_selector options ptr_mid ptr_high reserved]; try apply wrap_in_u; done.
Qed.

(** The vectors [init] wires: the handler, its stack, its lowest ring. *)
Definition wired (h : Handlers) : list (nat * (Z * Z * Z)) :=
  [(0%nat, (divide_by_zero h, 0, 0)); (3%nat, (breakpoint h, 0, 0)); (6%nat, (invalid_opcode h, 0, 0)); (8%nat, (double_fault h, 1, 0));
   (13%nat, (general_protection h, 0, 0)); (14%nat, (page_fault h, 0, 0)); (32%nat, (timer_entry h, 0, 0)); (33%nat, (keyboard_irq h, 0, 0));
   (36%nat, (serial_irq h, 0, 0)); (128%nat, (syscall_entry h, 0, 3))].

Definition handlers_ok (h : Handlers) : Prop := Forall (fun e => in_u 64 e.2.1.1) (wired h).

Lemma update_lookup v f idt w : (v < length idt)%nat -> update v f idt !!! w = if decide (v = w) then f (idt !!! v) else idt !!! w.
Proof. intros Hv. unfold update. by apply list_insert_total. Qed.

Lemma update_length v f idt : length (update v f idt) = length idt.
Proof. apply length_insert. Qed.

Lemma empty_lookup v : IDT_empty !!! v = Entry_empty.
Proof. unfold IDT_empty. apply (replicate_total_cases (fun e => e = Entry_empty)); done. Qed.

(** The options of a wired entry, and the whole table after [init]. *)
Definition entry_options (ist dpl : Z) : Z := if dpl =? 3 then 60928 else Z.lor 36352 ist.

Lemma init_lookup h v : (v < 256)%nat ->
  init_idt h IDT_empty !!! v =
    match List.find (fun e => (e.1 =? v)%nat) (wired h) with
    | Some (_, (handler, ist, dpl)) =>
        mkEntry (wrap 16 handler) KERNEL_CODE (entry_options ist dpl) (wrap 16 (Z.shiftr handler 16)) (wrap 32 (Z.shiftr handler 32)) 0
    | None => Entry_empty
    end.
Proof.
  intros Hv. unfold init_idt, wired, TIMER_VECTOR, KEYBOARD_VECTOR, SERIAL_VECTOR, SYSCALL_VECTOR.
  assert (Hl : length IDT_empty = 256%nat) by apply length_replicate. cbn [List.find fst].
  repeat match goal with |- context [update ?n ?f ?idt !!! v] => rewrite (update_lookup n f idt v) by (rewrite ?update_length, Hl; lia) end.
  repeat (case_decide; [subst v; cbn [Nat.eqb];
    repeat (rewrite update_lookup, decide_False by (rewrite ?update_length, ?Hl; lia)); rewrite empty_lookup; done|]).
  rewrite empty_lookup. by repeat (rewrite (proj2 (Nat.eqb_neq _ _)) by done).
Qed.

(** C36: the gates guard the kernel. After [init], whatever raises a vector
    (the hardware, or an [int] in any ring), the processor enters exactly the
    handler [init] meant, at its whole 64-bit address, in the kernel's code
    segment, on the double fault's own stack for that vector and on the
    current one for the others; a vector that was not wired is refused; and
    from ring 3 no [int] but the system call's gets through. *)
Theorem gates_guard_the_kernel h software cpl v : handlers_ok h -> (v < 256)%nat ->
  vector (init_idt h IDT_empty) software cpl v =
    match List.find (fun e => (e.1 =? v)%nat) (wired h) with
    | Some (_, (handler, ist, dpl)) => if software && (dpl <? cpl) then None else Some (mkGate handler KERNEL_CODE ist dpl)
    | None => None
    end.
Proof.
  intros Hh Hv. unfold vector. rewrite (init_lookup h v Hv).
  assert (Hin : forall e, List.find (fun e => (e.1 =? v)%nat) (wired h) = Some e -> in_u 64 e.2.1.1).
  { intros e [He _]%List.find_some. rewrite <- list_elem_of_In in He. unfold handlers_ok in Hh. rewrite Forall_forall in Hh. by apply Hh. }
  destruct (List.find _ (wired h)) as [[w [[handler ist] dpl]]|] eqn:E; [|by vm_compute].
  specialize (Hin _ eq_refl). cbn [fst snd] in Hin. assert (Ho : 0 <= entry_options ist dpl < 2 ^ 16 /\
    bits (entry_options ist dpl) 15 1 = 1 /\ bits (entry_options ist dpl) 8 5 = 14 /\ bits (entry_options ist dpl) 0 3 = ist /\ bits (entry_options ist dpl) 13 2 = dpl).
  { apply List.find_some in E as [E _]. rewrite <- list_elem_of_In in E. unfold wired in E.
    repeat (apply elem_of_cons in E as [[= _ _ -> ->]|E]; [by vm_compute|]). by apply not_elem_of_nil in E. }
  destruct Ho as (Ho & O1 & O2 & O3 & O4). rewrite wired_gate by done. by rewrite O1, O2, O3, O4.
Qed.

(** ** The segments *)

Lemma lor_above a y n : 0 <= n -> 0 <= a < 2 ^ n -> Z.lor a (Z.shiftl y n) = a + 2 ^ n * y.
Proof. intros Hn Ha. rewrite Z.lor_comm, shiftl_lor by done. lia. Qed.

(** The descriptor of the task state segment, as a sum of its fields. *)
Lemma tss_low tss : in_u 64 tss ->
  gdt_entries tss !!! 3%nat = 103 + 2 ^ 16 * (tss mod 2 ^ 24 + 2 ^ 24 * (137 + 2 ^ 16 * (tss / 2 ^ 24 mod 2 ^ 8))).
Proof.
  intros Ht. change (gdt_entries tss !!! 3%nat) with (Z.lor (Z.lor (Z.lor (Z.lor (Z.lor (Z.land (TSS_SIZE - 1) 65535)
    (wrap 64 (Z.shiftl (Z.land tss 16777215) 16))) (Z.shiftl 9 40)) (Z.shiftl 1 47)) (Z.shiftl (Z.land (Z.shiftr (TSS_SIZE - 1) 16) 15) 48))
    (wrap 64 (Z.shiftl (Z.land (Z.shiftr tss 24) 255) 56))).
  change 16777215 with (Z.ones 24). change 255 with (Z.ones 8). rewrite !Z.land_ones, (Z.shiftr_div_pow2 tss) by done.
  set (A := tss mod 2 ^ 24). set (B := tss / 2 ^ 24 mod 2 ^ 8). assert (HA : 0 <= A < 2 ^ 24) by by apply Z.mod_pos_bound. assert (HB : 0 <= B < 2 ^ 8) by by apply Z.mod_pos_bound.
  change (2 ^ 24) with 16777216 in HA. change (2 ^ 8) with 256 in HB.
  rewrite (wrap_small 64 (Z.shiftl A 16)), (wrap_small 64 (Z.shiftl B 56)).
  2:{ unfold in_u. rewrite Z.shiftl_mul_pow2 by done. change (2 ^ 64) with (256 * 2 ^ 56). nia. }
  2:{ unfold in_u. rewrite Z.shiftl_mul_pow2 by done. change (2 ^ 64) with (2 ^ 48 * 2 ^ 16). change (2 ^ 48) with 281474976710656. nia. }
  change (Z.land (TSS_SIZE - 1) 65535) with 103. change (Z.land (Z.shiftr (TSS_SIZE - 1) 16) 15) with 0. rewrite Z.shiftl_0_l, Z.lor_0_r.
  change (2 ^ 16) with 65536. change (2 ^ 24) with 16777216.
  rewrite (lor_above 103 A 16) by done. change (2 ^ 16) with 65536.
  rewrite (lor_above _ 9 40) by (change (2 ^ 40) with 1099511627776; lia). change (2 ^ 40) with 1099511627776.
  rewrite (lor_above _ 1 47) by (change (2 ^ 47) with 140737488355328; lia). change (2 ^ 47) with 140737488355328.
  rewrite (lor_above _ B 56) by (change (2 ^ 56) with 72057594037927936; lia). change (2 ^ 56) with 72057594037927936. lia.
Qed.

(** Every selector the kernel uses names the segment it means, requested
    at that segment's own privilege: code that runs in ring 0 and in ring 3 in
    long mode, writable data in each; and wherever the task state segment
    lies, its two-entry descriptor gives the processor back its whole 64-bit
    address and its last byte. *)
Theorem segments_mean_their_selectors tss : in_u 64 tss ->
  let gdt := gdt_entries tss in
  (selected gdt KERNEL_CODE = Some (mkSegment true 0 true false) /\ bits KERNEL_CODE 0 2 = 0) /\
  (selected gdt KERNEL_DATA = Some (mkSegment false 0 false true) /\ bits KERNEL_DATA 0 2 = 0) /\
  (selected gdt USER_CODE = Some (mkSegment true 3 true false) /\ bits USER_CODE 0 2 = 3) /\
  (selected gdt USER_DATA = Some (mkSegment false 3 false true) /\ bits USER_DATA 0 2 = 3) /\
  system_base (gdt !!! 3%nat) (gdt !!! 4%nat) = tss /\ system_limit (gdt !!! 3%nat) = TSS_SIZE - 1 /\
  bits (gdt !!! 3%nat) 47 1 = 1 /\ bits (gdt !!! 3%nat) 40 5 = 9.
Proof.
  intros Ht gdt. split_and!; try reflexivity.
  all: unfold gdt; rewrite ?tss_low by done; set (A := tss mod 2 ^ 24); set (B := tss / 2 ^ 24 mod 2 ^ 8);
    assert (HA : 0 <= A < 2 ^ 24) by (by apply Z.mod_pos_bound); assert (HB : 0 <= B < 2 ^ 8) by (by apply Z.mod_pos_bound).
  all: set (y2 := 137 + 2 ^ 16 * B); set (y1 := A + 2 ^ 24 * y2); set (w := 103 + 2 ^ 16 * y1).
  all: assert (E1 : forall k n, 0 <= k -> bits w (16 + k) n = bits y1 k n) by (intros; by apply bits_above).
  all: assert (E2 : forall k n, 0 <= k -> bits y1 (24 + k) n = bits y2 k n) by (intros; by apply bits_above).
  all: assert (E3 : forall k n, 0 <= k -> bits y2 (16 + k) n = bits B k n) by (intros; by apply bits_above).
  all: assert (E40 : forall k n, 0 <= k -> 0 <= n -> k + n <= 16 -> bits w (40 + k) n = bits 137 k n)
    by (intros k n ???; replace (40 + k) with (16 + (24 + k)) by lia; rewrite E1, E2 by lia; by apply bits_below).
  - unfold system_base. assert (B16 : bits w 16 24 = A) by (transitivity (bits y1 0 24); [by apply (E1 0)|unfold y1; rewrite bits_below by lia; by apply bits_all]).
    assert (B56 : bits w 56 8 = B) by (transitivity (bits y1 40 8); [by apply (E1 40)|]; transitivity (bits y2 16 8); [by apply (E2 16)|]; transitivity (bits B 0 8); [by apply (E3 0)|by apply bits_all]).
    rewrite B16, B56. change (gdt_entries tss !!! 4%nat) with (Z.shiftr tss 32). rewrite Z.shiftr_div_pow2 by done.
    unfold in_u in Ht. change (2 ^ 64) with (2 ^ 32 * 2 ^ 32) in Ht. rewrite bits_all by (split; [apply Z.div_pos; lia|apply Z.div_lt_upper_bound; lia]).
    pose proof (Z.div_mod tss (2 ^ 24)) as D1. pose proof (Z.div_mod (tss / 2 ^ 24) (2 ^ 8)) as D2. rewrite Z.div_div in D2 by done. change (2 ^ 24 * 2 ^ 8) with (2 ^ 32) in D2.
    fold A in D1. fold B in D2. change (2 ^ 24) with 16777216 in *. change (2 ^ 8) with 256 in *. change (2 ^ 32) with 4294967296 in *. lia.
  - unfold system_limit. assert (B48 : bits w 48 4 = bits 137 8 4) by (by apply (E40 8 4)).
    rewrite B48. unfold w. rewrite bits_below by lia. done.
  - transitivity (bits 137 7 1); [by apply (E40 7 1)|done].
  - transitivity (bits 137 0 5); [by apply (E40 0 5)|done].
Qed.

(** ** Examples *)

Definition sample_handlers : Handlers :=
  mkHandlers 1052672 1056768 1060864 1064960 1069056 (2 ^ 64 - 4096) 1073152 1077248 1081344 1085440.

(** A program's [int 0x80] arrives, its [int 14] does not, the processor's own
    page fault does. *)
Lemma gates_guard_the_kernel_witness :
  vector (init_idt sample_handlers IDT_empty) true 3 128 = Some (mkGate 1085440 KERNEL_CODE 0 3) /\
  vector (init_idt sample_handlers IDT_empty) true 3 14 = None /\
  vector (init_idt sample_handlers IDT_empty) false 3 14 = Some (mkGate (2 ^ 64 - 4096) KERNEL_CODE 0 0).
Proof.
  assert (H : handlers_ok sample_handlers) by (unfold handlers_ok, wired; repeat constructor; done).
  split; [|split]; rewrite gates_guard_the_kernel; (exact H || lia || reflexivity).
Defined.

Lemma segments_mean_their_selectors_witness :
  system_base (gdt_entries 18446744071562067968 !!! 3%nat) (gdt_entries 18446744071562067968 !!! 4%nat) = 18446744071562067968.
Proof. apply (segments_mean_their_selectors 18446744071562067968). done. Defined.
