(* ===== verification/Fault.v ===== *)
(** * Page faults, and the kernel at a program's addresses

    The page-fault handler of [kernel/src/interrupts.rs] over the tasks and
    the memory, and the kernel's loads and stores through a program's pointer,
    which the handler serves as it serves the program's own. *)

From S2P Require Import Prelude Bytes Disk Pages Replace Swap Policy Sched TaskTable Pipe Signal Kernel Fat Memory PageTables Spaces UserPages Sharing Cow CowRun Access Elf ElfSpec User UserSpec.

#[local] Arguments Z.mul : simpl never.
#[local] Arguments Z.add : simpl never.
#[local] Arguments Z.pow : simpl never.
#[local] Arguments load : simpl never.

Definition stack_region (id : nat) (t : Kernel) : Z * Z := let task := TASKS t !!! id in (stack_top task, stack_limit task).

Section fault.
Context {D : Type} `{!Disk D}.
Implicit Types (k : Mem D) (w : World D).

(** An operation on the memory that cannot fail. *)
Definition in_frames {A} (f : Mem D -> A * Mem D) : io (World D) A := in_memory (fun k => let '(a, k) := f k in (Ok a, k)).

(** A page that is not there: on the disk, or promised to the stack. *)
Definition absent_page (address : Z) : io (World D) bool :=
  handled ← in_frames (swap_in address);
  if (handled : bool) then mret true
  else
    id ← current_id;
    region ← in_tasks (fun t => (Ok (stack_region id t), t));
    page ← in_frames (demand_fault region address);
    match page with
    | Some _ => _ ← update_tasks (fun t => (note_stack_fault id t).2); mret true
    | None => mret false
    end.

(** [page_fault], to where it returns: [false] when it halts the machine. *)
Definition page_fault (address error : Z) : io (World D) bool :=
  handled ← (if has error 1 && has error 2 then in_frames (cow_fault address) else mret false);
  if (handled : bool) then mret true
  else if has error 1 then mret false
  else absent_page address.

(** ** The processor's accesses in ring 0 *)

(** The byte of memory an access reaches, if the tables allow it.  The tables
    above a program's pages allow everything; the kernel's own half may have
    huge pages. *)
Definition permitted (writing : bool) (va : Z) k : option Z :=
  if va <? USER_SPACE_END then
    let e := leaf (ram k) (read_cr3 k) va in
    if has e PRESENT && (negb writing || has e WRITABLE) then Some (frame_of e + va mod 4096) else None
  else
    match translate k va with
    | Some (physical, entries) =>
        if negb writing || forallb (fun e => (e =? 0) || has e WRITABLE) entries then Some physical else None
    | None => None
    end.
Definition present (va : Z) k : bool :=
  if va <? USER_SPACE_END then has (leaf (ram k) (read_cr3 k) va) PRESENT else bool_decide (is_Some (translate k va)).

(** The error code the processor pushes, its two low bits. *)
Definition error_code (writing : bool) (va : Z) k : Z := (if present va k then 1 else 0) + (if writing then 2 else 0).

(** An instruction is run again after every fault that was dealt with; a page
    that comes back from the disk may still have to be copied. *)
Definition FAULTS : nat := 3.
Fixpoint touch (faults : nat) (writing : bool) (va : Z) : io (World D) Z := fun w =>
  if negb (canonical va) then (Panic, w)
  else match permitted writing va (memory w) with
  | Some physical => (Ok physical, w)
  | None =>
      match faults with
      | O => (Err "the access faults again and again", w)
      | S faults =>
          match page_fault va (error_code writing va (memory w)) w with
          | (Ok true, w) => touch faults writing va w
          | (_, w) => (Panic, w)
          end
      end
  end.

Definition load_user (va : Z) : io (World D) Z :=
  physical ← touch FAULTS false va;
  in_frames (fun k => (ram k physical, k)).
Definition store_user (va b : Z) : io (World D) unit :=
  physical ← touch FAULTS true va;
  in_frames (fun k => (tt, update_ram (Bytes.put physical [b]) k)).

(** [from_raw_parts(pointer, length)], read, and written from its start. *)
Fixpoint read_user (va : Z) (size : nat) : io (World D) (list Z) :=
  match size with
  | O => mret []
  | S size => b ← load_user va; bytes ← read_user (va +₆₄ 1) size; mret (b :: bytes)
  end.
Fixpoint write_user (va : Z) (bytes : list Z) : io (World D) unit :=
  match bytes with
  | [] => mret tt
  | b :: bytes => _ ← store_user va b; write_user (va +₆₄ 1) bytes
  end.

(** ** The handler is the one of the memory *)

Lemma in_frames_run {A} (f : Mem D -> A * Mem D) w : in_frames f w = (Ok (f (memory w)).1, mkWorld D (tasks w) (f (memory w)).2).
Proof using Type. unfold in_frames, in_memory. by destruct (f (memory w)). Qed.

Lemma absent_page_memory address w : exists t', absent_page address w =
  let '(handled, k') := match swap_in address (memory w) with
    | (true, k) => (true, k)
    | (false, k) => match demand_fault (stack_region (CURRENT (tasks w)) (tasks w)) address k with
                    | (Some _, k) => (true, k)
                    | (None, k) => (false, k)
                    end
    end in (Ok handled, mkWorld D t' k').
Proof using Type.
  unfold absent_page. rewrite (io_bind_run _ _ w _ _ (in_frames_run (swap_in address) w)).
  destruct (swap_in address (memory w)) as [[|] k]; cbn [fst snd]; [by exists (tasks w)|].
  set (w' := mkWorld D (tasks w) k). rewrite (io_bind_run current_id _ w' (CURRENT (tasks w)) w' eq_refl).
  rewrite (io_bind_run (in_tasks (fun t => (Ok (stack_region (CURRENT (tasks w)) t), t))) _ w' (stack_region (CURRENT (tasks w)) (tasks w)) w' eq_refl).
  rewrite (io_bind_run _ _ w' _ _ (in_frames_run _ _)). cbn [memory w'].
  destruct (demand_fault _ address k) as [[page|] k']; cbn [fst snd]; by eexists.
Qed.

Lemma page_fault_memory address error w : exists t', page_fault address error w =
  let '(handled, k') := Memory.page_fault (stack_region (CURRENT (tasks w)) (tasks w)) address error (memory w) in
  (Ok handled, mkWorld D t' k').
Proof using Type.
  unfold page_fault, Memory.page_fault. destruct (has error 1 && has error 2) eqn:E.
  - rewrite (io_bind_run _ _ w _ _ (in_frames_run (cow_fault address) w)). apply andb_prop in E as [-> _].
    destruct (cow_fault address (memory w)) as [[|] k]; by exists (tasks w).
  - rewrite (io_bind_run _ _ w false w eq_refl). destruct (has error 1); [exists (tasks w); by destruct w|].
    destruct (absent_page_memory address w) as [t' E']. exists t'. cbv iota. rewrite E'. cbn [negb].
    by destruct (swap_in address (memory w)) as [[|] k]; [|destruct (demand_fault _ address k) as [[]]].
Qed.

(** ** What the accesses do *)

(** A store to [va] will succeed, if there is a frame for a copy. *)
Definition ready k (va : Z) : Prop :=
  let e := leaf (ram k) (read_cr3 k) va in has e PRESENT = true /\ (has e WRITABLE = true \/ has e COW = true).
Definition unshared k (va : Z) : Prop :=
  let e := leaf (ram k) (read_cr3 k) va in has e PRESENT = true /\ has e WRITABLE = true.

Context (roots : list Z).

(** The pages of [ps] that have to be copied before they are written. *)
Definition private_page k (p : Z) : bool := let e := leaf (ram k) (read_cr3 k) p in has e PRESENT && has e WRITABLE.
Definition owed k (ps : list Z) : nat := length (List.filter (fun p => negb (private_page k p)) ps).
Definition pages (ps : list Z) : Prop := Forall (fun p => user p /\ page_of p = p) ps.

(** Since [w0] bytes of the current program were written in the pages [ps]:
    it reads [A], and there are frames for the copies that may still be
    needed. *)
Record wrote w0 (ps : list Z) (A : Image) w : Prop := {
  wo_space : exists fl, space (memory w) roots fl /\ (owed (memory w) ps <= length fl)%nat;
  wo_root : Memory.CR3 (memory w) = Memory.CR3 (memory w0);
  wo_tasks : tasks w = tasks w0;
  wo_view va : user va -> view (memory w) (read_cr3 (memory w0)) va = A va;
  wo_others r va : r ∈ roots -> r <> read_cr3 (memory w0) -> user va -> view (memory w) r va = view (memory w0) r va;
  wo_ready va : user va -> ready (memory w0) va -> ready (memory w) va
}.

Lemma wrote_root w0 ps A w : wrote w0 ps A w -> read_cr3 (memory w) = read_cr3 (memory w0).
Proof using Type. intros H. unfold read_cr3. by rewrite (wo_root _ _ _ _ H). Qed.

Lemma wrote_ext w0 ps A A' w : (forall va, user va -> A' va = A va) -> wrote w0 ps A w -> wrote w0 ps A' w.
Proof using Type. intros E [(fl & Hsp & Hn) ? ? Hv ? ?]. constructor; try done; [by exists fl|]. intros va U. rewrite E by done. by apply Hv. Qed.

Lemma owed_length k ps : (owed k ps <= length ps)%nat.
Proof using Type. unfold owed. induction ps as [|p ps IH]; cbn; [lia|]. case_match; cbn; lia. Qed.

Lemma owed_same k k' ps : (forall p, p ∈ ps -> private_page k' p = private_page k p) -> owed k' ps = owed k ps.
Proof using Type.
  unfold owed. induction ps as [|p ps IH]; intros H; [done|]. cbn. rewrite (H p) by left.
  assert (E : length (List.filter (fun p => negb (private_page k' p)) ps) = length (List.filter (fun p => negb (private_page k p)) ps)) by (apply IH; intros q Hq; apply H; by right).
  case_match; cbn; lia.
Qed.

(** A copy pays for its page. *)
Lemma owed_copied k k' ps q : (forall p, p ∈ ps -> p <> q -> private_page k' p = private_page k p) -> q ∈ ps ->
  private_page k q = false -> private_page k' q = true -> (S (owed k' ps) <= owed k ps)%nat.
Proof using Type.
  unfold owed. intros H Hq E E'. assert (Hle : forall l, l ⊆ ps -> (length (List.filter (fun p => negb (private_page k' p)) l) <= length (List.filter (fun p => negb (private_page k p)) l))%nat).
  { induction l as [|p l IH]; intros Hl; [done|]. cbn. assert (Hl' : l ⊆ ps) by (intros x Hx; apply Hl; by right). specialize (IH Hl').
    destruct (decide (p = q)) as [->|Hne]; [rewrite E, E'; cbn; lia|]. rewrite H by (done || apply Hl; left). case_match; cbn; lia. }
  apply list_elem_of_split in Hq as (l1 & l2 & ->). rewrite !List.filter_app, !length_app. cbn. rewrite E, E'. cbn.
  pose proof (Hle l1 ltac:(set_solver)). pose proof (Hle l2 ltac:(set_solver)). lia.
Qed.

Lemma user_below va : user va -> (va <? USER_SPACE_END) = true /\ canonical va = true.
Proof using Type. intros U. split; [apply Z.ltb_lt; apply U|by apply user_canonical]. Qed.

Lemma next_byte va : user va -> va +₆₄ 1 = va + 1.
Proof using Type. unfold user, USER_SPACE_END. intros U. apply wrap_small. unfold in_u. change (2 ^ 64) with 18446744073709551616. lia. Qed.

Lemma touch_permitted faults writing va w physical : user va -> permitted writing va (memory w) = Some physical ->
  touch faults writing va w = (Ok physical, w).
Proof using Type. intros U Hp. destruct (user_below va U) as [_ Hc]. destruct faults; cbn [touch]; by rewrite Hc, Hp. Qed.

Lemma permitted_write va k : user va -> unshared k va -> permitted true va k = Some (frame_of (leaf (ram k) (read_cr3 k) va) + va mod 4096).
Proof using Type. intros U [P W]. unfold permitted. rewrite (proj1 (user_below va U)). cbv zeta. by rewrite P, W. Qed.

(** A store to a page of the program's own. *)
Lemma store_here w0 ps A w va b : wrote w0 ps A w -> read_cr3 (memory w0) ∈ roots -> user va -> is_byte b -> unshared (memory w) va ->
  safe (store_user va b) (fun _ => wrote w0 ps (stores va [b] A)) (fun _ => False) w.
Proof using Type.
  intros Hu Hr U Hb Hw. pose proof (wrote_root _ _ _ _ Hu) as Er. pose proof Hu as [(fl & Hsp & Hn) Hc Ht Hv Ho Hrd].
  assert (Hr' : read_cr3 (memory w) ∈ roots) by (by rewrite Er).
  destruct Hw as [P W]. destruct (cpu_write va b (memory w)) as [k'|] eqn:Ew; [|unfold cpu_write in Ew; by rewrite P, W in Ew].
  destruct (cpu_write_spec (memory w) roots fl va b k' Hsp Hr' U Hb Ew) as (Hsp' & Hc' & Hvb & Hvo).
  destruct (cpu_write_leaf (memory w) roots fl va b k' Hsp Hr' U Hb Ew) as [_ Hl].
  assert (Er' : read_cr3 k' = read_cr3 (memory w)) by (unfold read_cr3; by rewrite Hc').
  eapply (safe_answer _ _ _ _ tt (mkWorld D (tasks w) k')).
  { unfold store_user. rewrite (io_bind_run _ _ w _ w (touch_permitted FAULTS true va w _ U (permitted_write va _ U (conj P W)))).
    unfold cpu_write in Ew. rewrite P, W in Ew. cbn [andb] in Ew. injection Ew as <-. reflexivity. }
  assert (Hperm : forall x, leaf (ram k') (read_cr3 k') x = leaf (ram (memory w)) (read_cr3 (memory w)) x) by (intros x; by rewrite Er', Hl).
  constructor; cbn [tasks memory].
  - exists fl. split; [done|]. rewrite (owed_same (memory w) k' ps); [done|]. intros p _. unfold private_page. by rewrite Hperm.
  - congruence.
  - done.
  - intros x Ux. rewrite stores_one. rewrite Er in Hvb, Hvo. destruct (Z.eqb_spec x va) as [->|Hne]; [done|]. rewrite Hvo by (done || by intros [_ ?]). by apply Hv.
  - intros r x Hr1 Hne Ux. rewrite Hvo by (done || (rewrite Er; by intros [? _])). by apply Ho.
  - intros x Ux Hx. unfold ready. rewrite Hperm. by apply Hrd.
Qed.

Lemma frame_left k fl : space k roots fl -> (0 < length fl)%nat -> head (ALLOCATOR k) <> 0.
Proof using Type.
  intros Hsp Hn. destruct fl as [|f fl]; [cbn in Hn; lia|]. pose proof (so_chain _ _ _ (sp_sound _ _ _ Hsp)) as [-> _].
  pose proof (sh_free _ _ _ (sp_shape _ _ _ Hsp) f ltac:(left)) as [_ Hf]. lia.
Qed.

Lemma private_unshared k va : user va -> private_page k (page_of va) = true <-> unshared k va.
Proof using Type.
  intros U. pose proof (page_of_bound va) as Hb. assert (Up : user (page_of va)) by (unfold user in *; rewrite page_of_div in *; pose proof (Z.div_pos va 4096); lia).
  unfold private_page, unshared. rewrite (same_page_leaf _ _ (page_of va) va) by (done || apply page_of_id, page_of_aligned). by rewrite andb_true_iff.
Qed.

(** A page that [fork] made read-only gets a frame of its own first. *)
Lemma fault_copies w0 ps A w va : wrote w0 ps A w -> read_cr3 (memory w0) ∈ roots -> pages ps -> user va -> page_of va ∈ ps ->
  ready (memory w) va -> ~ unshared (memory w) va ->
  exists w', page_fault va (error_code true va (memory w)) w = (Ok true, w') /\ wrote w0 ps A w' /\ unshared (memory w') va.
Proof using Type.
  intros Hu Hr Hps U Hin [P Hrd] Hnw. pose proof (wrote_root _ _ _ _ Hu) as Er. pose proof Hu as [(fl & Hsp & Hn) Hc Ht Hv Ho Hk].
  assert (W : has (leaf (ram (memory w)) (read_cr3 (memory w)) va) WRITABLE = false) by (apply not_true_iff_false; intros W; by apply Hnw).
  destruct Hrd as [?|C]; [congruence|].
  assert (Hr' : read_cr3 (memory w) ∈ roots) by (by rewrite Er).
  assert (Hpriv : private_page (memory w) (page_of va) = false) by (apply not_true_iff_false; by rewrite private_unshared).
  assert (Hone : (0 < length fl)%nat).
  { unfold owed in Hn. apply list_elem_of_split in Hin as (l1 & l2 & ->). rewrite List.filter_app, length_app in Hn. cbn in Hn. rewrite Hpriv in Hn. cbn in Hn. lia. }
  destruct (cow_fault_spec (memory w) roots fl va Hsp Hr' U ltac:(by apply (frame_left _ fl)) P C W)
    as (k' & fl' & Ef & Hsp' & Hc' & Hv' & P' & W' & Hlen & Hl').
  assert (Er' : read_cr3 k' = read_cr3 (memory w)) by (unfold read_cr3; by rewrite Hc').
  assert (Hun : unshared k' va) by (unfold unshared; by rewrite Er').
  exists (mkWorld D (tasks w) k'). split; [|split; [constructor; cbn [memory tasks]|done]].
  - unfold error_code, present. rewrite (proj1 (user_below va U)), P. unfold page_fault. change (has (1 + 2) 1 && has (1 + 2) 2) with true. cbv iota.
    rewrite (io_bind_run _ _ w _ _ (in_frames_run (cow_fault va) w)), Ef. reflexivity.
  - exists fl'. split; [done|]. pose proof (owed_copied (memory w) k' ps (page_of va)) as Hpay.
    rewrite private_unshared in Hpay by done. enough (S (owed k' ps) <= owed (memory w) ps)%nat by lia. apply Hpay; try done.
    intros p Hp Hne. pose proof (proj1 (Forall_forall _ _) Hps p Hp) as [Up Ep]. unfold private_page. rewrite Er', Hl'; [done|done|done|]. intros [_ E]. by rewrite Ep in E.
  - congruence.
  - done.
  - intros x Ux. rewrite <- Er, Hv' by done. rewrite Er. by apply Hv.
  - intros r x Hr1 Hne Ux. rewrite Hv' by done. by apply Ho.
  - intros x Ux Hx. unfold ready. cbn [memory]. rewrite Er'. destruct (decide (page_of x = page_of va)) as [E|E].
    + rewrite (same_page_leaf _ _ x va Ux U E). auto.
    + rewrite Hl' by (done || by intros [_ ?]). by apply Hk.
Qed.

Lemma unshared_dec k va : unshared k va \/ ~ unshared k va.
Proof using Type. unfold unshared. destruct (has _ PRESENT), (has _ WRITABLE); intuition congruence. Qed.

Lemma store_user_spec w0 ps A w va b : wrote w0 ps A w -> read_cr3 (memory w0) ∈ roots -> pages ps -> user va -> page_of va ∈ ps -> is_byte b ->
  ready (memory w0) va -> safe (store_user va b) (fun _ => wrote w0 ps (stores va [b] A)) (fun _ => False) w.
Proof using Type.
  intros Hu Hr Hps U Hin Hb Hrd. destruct (unshared_dec (memory w) va) as [Hw|Hw]; [by apply store_here|].
  destruct (fault_copies w0 ps A w va Hu Hr Hps U Hin (wo_ready _ _ _ _ Hu va U Hrd) Hw) as (w1 & Ef & Hu1 & Hw1).
  assert (Et : store_user va b w = store_user va b w1).
  { unfold store_user, mbind, io_bind. destruct (user_below va U) as [Hlt Hc].
    assert (Ew : touch FAULTS true va w = touch FAULTS true va w1); [|by rewrite Ew].
    rewrite (touch_permitted FAULTS true va w1 _ U (permitted_write va _ U Hw1)). unfold FAULTS. cbn [touch]. rewrite Hc. cbn [negb].
    assert (Hp : permitted true va (memory w) = None).
    { unfold permitted. rewrite Hlt. cbv zeta. unfold unshared in Hw. destruct (has _ PRESENT), (has _ WRITABLE); try done. by destruct Hw. }
    rewrite Hp, Ef. by rewrite (permitted_write va _ U Hw1). }
  unfold safe. rewrite Et. by apply (store_here w0 ps A w1 va b).
Qed.

(** A run of bytes, wherever the pages' frames are. *)
Lemma write_user_spec w0 ps bytes : forall A w va, wrote w0 ps A w -> read_cr3 (memory w0) ∈ roots -> pages ps ->
  0 <= va -> va + Z.of_nat (length bytes) <= USER_SPACE_END -> Forall is_byte bytes ->
  (forall x, va <= x < va + Z.of_nat (length bytes) -> ready (memory w0) x /\ page_of x ∈ ps) ->
  safe (write_user va bytes) (fun _ => wrote w0 ps (stores va bytes A)) (fun _ => False) w.
Proof using Type.
  induction bytes as [|b bytes IH]; intros A w va Hu Hr Hps H0 H1 Hb Hw; cbn [write_user].
  - apply safe_ret. apply (wrote_ext w0 ps A); [|done]. intros x _. apply stores_nil.
  - apply Forall_cons in Hb as [Hb Hbs]. cbn [length] in *. assert (U : user va) by (unfold user; lia).
    destruct (Hw va ltac:(lia)) as [Hrd Hin]. eapply safe_bind; [by apply (store_user_spec w0 ps A w va b)|]. intros [] w1 Hu1.
    rewrite (next_byte va U).
    eapply safe_mono; [apply (IH (stores va [b] A) w1 (va + 1) Hu1 Hr Hps); [lia|lia|done|intros x Hx; apply Hw; lia]| |done].
    intros [] w2 Hu2. eapply wrote_ext; [|exact Hu2]. intros x _. by rewrite stores_cons.
Qed.

(** The pages of a short run. *)
Definition span (va len : Z) : list Z := if len <=? 0 then [] else [page_of va; page_of (va + len - 1)].

Lemma span_pages va len : 0 <= va -> va + len <= USER_SPACE_END -> pages (span va len).
Proof using Type.
  intros H0 H1. unfold span, pages. destruct (Z.leb_spec len 0); [constructor|].
  assert (Hp : forall x, user x -> user (page_of x) /\ page_of (page_of x) = page_of x).
  { intros x U. split; [|apply page_of_id, page_of_aligned]. pose proof (page_of_bound x). unfold user in *. rewrite page_of_div in *. pose proof (Z.div_pos x 4096). lia. }
  repeat constructor; apply Hp; unfold user; lia.
Qed.

Lemma span_covers va len x : len <= PAGE_SIZE -> va <= x < va + len -> page_of x ∈ span va len.
Proof using Type.
  unfold PAGE_SIZE. intros Hl Hx. unfold span. rewrite (proj2 (Z.leb_gt _ _)) by lia. rewrite !page_of_div.
  assert (Hd : x / 4096 = va / 4096 \/ x / 4096 = (va + len - 1) / 4096).
  { pose proof (Z.div_le_mono va x 4096). pose proof (Z.div_le_mono x (va + len - 1) 4096).
    assert ((va + len - 1) / 4096 <= va / 4096 + 1); [|lia]. rewrite <- (Z.div_add va 1 4096) by done. apply Z.div_le_mono; lia. }
  destruct Hd as [->| ->]; [left|right; left].
Qed.

Lemma span_owed k va len : (owed k (span va len) <= 2)%nat.
Proof using Type. etransitivity; [apply owed_length|]. unfold span. case_match; cbn; lia. Qed.

(** Reading what is mapped changes nothing. *)
Lemma read_user_spec size : forall va w fl, space (memory w) roots fl -> 0 <= va -> va + Z.of_nat size <= USER_SPACE_END ->
  (forall x, va <= x < va + Z.of_nat size -> has (leaf (ram (memory w)) (read_cr3 (memory w)) x) PRESENT = true) ->
  exists bytes, read_user va size w = (Ok bytes, w) /\ Forall is_byte bytes /\ length bytes = size /\
    forall i, (i < size)%nat -> view (memory w) (read_cr3 (memory w)) (va + Z.of_nat i) = bytes !! i.
Proof using Type.
  induction size as [|size IH]; intros va w fl Hsp H0 H1 Hp; cbn [read_user].
  - exists []. split_and!; [done|constructor|done|lia].
  - assert (U : user va) by (unfold user; lia). set (r := read_cr3 (memory w)) in *.
    set (b := ram (memory w) (frame_of (leaf (ram (memory w)) r va) + va mod 4096)).
    assert (Hl : load_user va w = (Ok b, w)).
    { unfold load_user. erewrite (io_bind_run _ _ w _ w); [|apply (touch_permitted _ _ _ _ (frame_of (leaf (ram (memory w)) r va) + va mod 4096) U)].
      - rewrite in_frames_run. cbn [fst snd]. by destruct w.
      - unfold permitted. rewrite (proj1 (user_below va U)). cbv zeta. fold r. by rewrite Hp by lia. }
    rewrite (io_bind_run _ _ w b w Hl), (next_byte va U).
    destruct (IH (va + 1) w fl Hsp ltac:(lia) ltac:(lia)) as (bytes & E & Hb & Hn & Hv); [intros x Hx; apply Hp; lia|].
    rewrite (io_bind_run _ _ w bytes w E). exists (b :: bytes). split_and!; [done|constructor; [apply (sp_shape _ _ _ Hsp)|done]|cbn; lia|].
    intros [|i] Hi; cbn [lookup list_lookup].
    + rewrite Z.add_0_r. unfold view. by rewrite Hp by lia.
    + rewrite <- Hv by lia. f_equal. lia.
Qed.
End fault.
