(* ===== verification/Syscall.v ===== *)
(** * System calls: the dispatcher of [kernel/src/syscall.rs]

    What a program gets when it raises [int 0x80]: the call it asked for, and
    the signals delivered on the way out.  A call runs to where it returns,
    ends the task or puts it to sleep; [continue_call] is what the task does
    when it is next run.  The state is everything the calls touch. *)

From S2P Require Import Input.
From S2P Require Import Prelude Bytes Disk Pages Replace Swap Policy Sched TaskTable Pipe Signal Kernel Fat Memory PageTables Spaces Access CowRun Elf User Fault.

#[local] Arguments Z.mul : simpl never.
#[local] Arguments Z.add : simpl never.

Definition SYS_EXIT : Z := 0.
Definition SYS_WRITE : Z := 1.
Definition SYS_REPORT_CS : Z := 2.
Definition SYS_FORK : Z := 3.
Definition SYS_EXEC : Z := 4.
Definition SYS_WAIT : Z := 5.
Definition SYS_PIPE : Z := 6.
Definition SYS_READ : Z := 7.
Definition SYS_CLOSE : Z := 8.
Definition SYS_DUP2 : Z := 9.
Definition SYS_KILL : Z := 10.
Definition SYS_SIGNAL : Z := 11.
Definition SYS_SIGRETURN : Z := 12.

(** [keyboard::INPUT_CHANNEL]. *)
Definition INPUT_CHANNEL : Z := 1515978753.

(** [output] is what programs printed; [COUNT] the calls so far. *)
Record System {D : Type} := mkSystem { world : World D; console : Console; output : list Z; COUNT : Z }.
Arguments System D : clear implicits.
Arguments mkSystem {D}.

(** What a task in a call sleeps on, and what it will go on with. *)
Inductive Wait :=
| OnChild (child : nat)
| OnData (pipe : nat) (pointer : Z) (size : nat)
| OnRoom (pipe : nat) (pointer : Z) (size written : nat)
| OnKey (pointer : Z) (size : nat).

(** How a call ends; [frame] is the saved frame it returns through. *)
Inductive Outcome := Returns (value : Z) (frame : list Z) | Exits | Sleeps (w : Wait).

(** An argument as an index.  What indexes are compared with is far below
    65535. *)
Definition index_of (argument : Z) : nat := Z.to_nat (Z.min argument 65535).

Section system.
Context {D : Type} `{!Disk D}.

Definition in_world {A} (m : io (World D) A) : io (System D) A := fun s =>
  let '(r, w) := m (world s) in (r, mkSystem w (console s) (output s) (COUNT s)).
Definition in_console {A} (f : Console -> A * Console) : io (System D) A := fun s =>
  let '(a, c) := f (console s) in (Ok a, mkSystem (world s) c (output s) (COUNT s)).
Definition print (text : list Z) : io (System D) unit := fun s =>
  (Ok tt, mkSystem (world s) (console s) (output s ++ text) (COUNT s)).
Definition on_tasks {A} (f : Kernel -> A * Kernel) : io (System D) A := in_world (in_tasks (fun t => let '(a, t) := f t in (Ok a, t))).
Definition wake_up (channel : Z) : io (System D) unit := on_tasks (fun t => (tt, wake channel t)).
Definition on_pipe {A} (pipe : nat) (f : Pipe -> A * Pipe) : io (System D) A :=
  on_tasks (fun t => let '(a, p) := f (PIPES t !!! pipe) in (a, modify_pipe pipe (fun _ => p) t)).
Definition the_pipe (pipe : nat) : io (System D) Pipe := on_tasks (fun t => (PIPES t !!! pipe, t)).
Definition current : io (System D) nat := in_world current_id.

(** [park(channel)], by the current task. *)
Definition sleep (channel : Z) (w : Wait) : io (System D) Outcome :=
  _ ← on_tasks (fun t => (tt, t <| TASKS := park (CURRENT t) channel (TASKS t) |>));
  mret (Sleeps w).

(** ** Pipes *)

(** [read]: what is there, or asleep until there is something. *)
Definition pipe_read (pipe : nat) (pointer : Z) (size : nat) (frame : list Z) : io (System D) Outcome :=
  taken ← on_pipe pipe (read_attempt size);
  match taken with
  | Some bytes =>
      _ ← in_world (write_user pointer bytes);
      _ ← (if (0 <? length bytes)%nat then wake_up (writable_channel pipe) else mret tt);
      mret (Returns (Z.of_nat (length bytes)) frame)
  | None => sleep (readable_channel pipe) (OnData pipe pointer size)
  end.

(** The bytes a section of [write] will take, so that these are read. *)
Definition takes (p : Pipe) (size : nat) : nat := if readers p =? 0 then 0%nat else Nat.min (CAPACITY - len p) size.

(** [write]'s loop; a turn that is not the last places a byte. *)
Fixpoint pipe_write (turns pipe : nat) (pointer : Z) (size written : nat) (frame : list Z) : io (System D) Outcome :=
  let done_ : io (System D) Outcome :=
    _ ← (if (0 <? written)%nat then wake_up (readable_channel pipe) else mret tt);
    mret (Returns (Z.of_nat written) frame) in
  if (size <=? written)%nat then done_
  else
    p ← the_pipe pipe;
    bytes ← in_world (read_user (pointer +₆₄ Z.of_nat written) (takes p (size - written)));
    placed ← on_pipe pipe (write_attempt bytes);
    match placed with
    | None => done_
    | Some O =>
        _ ← wake_up (readable_channel pipe);
        sleep (writable_channel pipe) (OnRoom pipe pointer size written)
    | Some count =>
        match turns with
        | O => throw "more turns than bytes"
        | S turns => pipe_write turns pipe pointer size (written + count) frame
        end
    end.

(** ** Descriptors *)

(** [user_slice]: a call's buffer has at most a page, so on three pages. *)
Definition user_slice (pointer length_ : Z) : io (System D) (option nat) :=
  if 4096 <? length_ then mret None
  else
    allowed ← in_world (in_memory (accessible 4 pointer length_));
    mret (if (allowed : bool) then Some (Z.to_nat length_) else None).

Definition refuse (frame : list Z) : io (System D) Outcome := mret (Returns REFUSED frame).

Definition write (fd pointer length_ : Z) (frame : list Z) : io (System D) Outcome :=
  slice ← user_slice pointer length_;
  match slice with
  | None => refuse frame
  | Some size =>
      id ← current;
      d ← on_tasks (fun t => (descriptor id (index_of fd) t, t));
      match d with
      | Descriptor.Console =>
          bytes ← in_world (read_user pointer size);
          if utf8 bytes then _ ← print bytes; mret (Returns (Z.of_nat size) frame) else refuse frame
      | Descriptor.PipeWrite pipe => pipe_write size pipe pointer size 0 frame
      | Descriptor.PipeRead _ | Descriptor.Free => refuse frame
      end
  end.

Definition console_turn (pointer : Z) (size : nat) (frame : list Z) : io (System D) Outcome :=
  bytes ← in_console (console_read size);
  match bytes with
  | Some bytes => _ ← in_world (write_user pointer bytes); mret (Returns (Z.of_nat (length bytes)) frame)
  | None => sleep INPUT_CHANNEL (OnKey pointer size)
  end.

Definition read (fd pointer length_ : Z) (frame : list Z) : io (System D) Outcome :=
  slice ← user_slice pointer length_;
  match slice with
  | None => refuse frame
  | Some size =>
      id ← current;
      d ← on_tasks (fun t => (descriptor id (index_of fd) t, t));
      match d with
      | Descriptor.PipeRead pipe => pipe_read pipe pointer size frame
      | Descriptor.Console => console_turn pointer size frame
      | _ => refuse frame
      end
  end.

Definition pipe_call (pointer : Z) (frame : list Z) : io (System D) Outcome :=
  allowed ← in_world (in_memory (accessible 4 pointer 16));
  if negb allowed then refuse frame
  else
    id ← current;
    ends ← on_tasks (make_pipe id);
    match ends with
    | None => refuse frame
    | Some (read_fd, write_fd) =>
        _ ← in_world (write_user pointer (le 8 (Z.of_nat read_fd)));
        _ ← in_world (write_user (pointer +₆₄ 8) (le 8 (Z.of_nat write_fd)));
        mret (Returns 0 frame)
    end.

(** ** Waiting and signals *)

Definition child_turn (o : wait_outcome) (frame : list Z) : io (System D) Outcome :=
  match o with
  | Collected code => mret (Returns code frame)
  | NoChild => refuse frame
  | SleepsOn child => mret (Sleeps (OnChild child))
  end.

(** [restore]: twenty words from the program's stack are the frame. *)
Definition sigreturn (frame : list Z) : io (System D) Outcome :=
  let saved := frame !!! RSP in
  frame ← fold_io (fun words index =>
    bytes ← in_world (read_user (word_at saved index) 8);
    mret (words ++ [unle bytes])) (seq 0 FRAME_WORDS) [];
  mret (Returns (frame !!! RAX) frame).

(** [finish] by the current task, and the loop of [yield_now] after it. *)
Definition exit (code : Z) : io (System D) Outcome :=
  id ← current; _ ← on_tasks (fun t => (tt, finish id code t)); mret Exits.

(** ** The calls *)

(** [handle]; [fuel] bounds the pages [exec]'s check looks at, and [stack] is
    the kernel stack [fork] allocates. *)
Definition handle (fuel : nat) (stack number arg0 arg1 arg2 : Z) (frame : list Z) : io (System D) Outcome :=
  if number =? SYS_EXIT then exit arg0
  else if number =? SYS_FORK then child ← in_world (fork_call stack frame); mret (Returns child frame)
  else if number =? SYS_EXEC then result ← in_world (exec fuel arg0 arg1 arg2 frame); mret (Returns result.1 result.2)
  else if number =? SYS_WAIT then id ← current; o ← on_tasks (wait_any_child id); child_turn o frame
  else if number =? SYS_WRITE then write arg0 arg1 arg2 frame
  else if number =? SYS_READ then read arg0 arg1 arg2 frame
  else if number =? SYS_PIPE then pipe_call arg0 frame
  else if number =? SYS_DUP2 then
    id ← current;
    ok ← on_tasks (duplicate_descriptor id (index_of arg0) (index_of arg1));
    mret (Returns (if (ok : bool) then arg1 else REFUSED) frame)
  else if number =? SYS_KILL then
    ok ← on_tasks (signal (index_of arg0) (index_of arg1));
    mret (Returns (if (ok : bool) then 0 else REFUSED) frame)
  else if number =? SYS_SIGNAL then
    id ← current;
    ok ← on_tasks (fun t => let '(ok, task) := set_signal_handler (index_of arg0) arg1 arg2 (TASKS t !!! id) in
                            (ok, modify_task id (fun _ => task) t));
    mret (Returns (if (ok : bool) then 0 else REFUSED) frame)
  else if number =? SYS_SIGRETURN then sigreturn frame
  else if number =? SYS_CLOSE then
    id ← current;
    ok ← on_tasks (close_descriptor id (index_of arg0));
    mret (Returns (if (ok : bool) then 0 else REFUSED) frame)
  else if number =? SYS_REPORT_CS then mret (Returns (Z.land arg0 3) frame)
  else refuse frame.

(** A sleeper that runs again tests its condition, and goes on or goes back
    to sleep. *)
Definition continue_call (w : Wait) (frame : list Z) : io (System D) Outcome :=
  match w with
  | OnChild child =>
      over ← on_tasks (fun t => (gone (TASKS t !!! child), t));
      if (over : bool) then id ← current; o ← on_tasks (wait_turn id); child_turn o frame
      else sleep (Z.of_nat child) w
  | OnData pipe pointer size =>
      p ← the_pipe pipe;
      if can_read p then pipe_read pipe pointer size frame else sleep (readable_channel pipe) w
  | OnRoom pipe pointer size written =>
      p ← the_pipe pipe;
      if can_write p then pipe_write (size - written) pipe pointer size written frame else sleep (writable_channel pipe) w
  | OnKey pointer size => console_turn pointer size frame
  end.

(** ** The way out *)

(** [signal::deliver], its stores made to the program's stack. *)
Definition deliver_signal (id : nat) (frame : list Z) : io (System D) (bool * list Z) :=
  d ← on_tasks (fun t => let '(kill, task, frame, stores) := deliver (TASKS t !!! id) frame in
                         ((kill, frame, stores), modify_task id (fun _ => task) t));
  let '(kill, frame, stores) := d in
  _ ← for_each stores (fun s => in_world (write_user s.1 (le 8 s.2)));
  mret (kill, frame).

Definition way_out (o : Outcome) : io (System D) Outcome :=
  match o with
  | Returns value frame =>
      id ← current;
      pending ← on_tasks (fun t => (has_pending_signal (TASKS t !!! id), t));
      if (pending : bool) then
        delivered ← deliver_signal id frame;
        let '(kill, frame) := delivered in
        if (kill : bool) then exit 128 else mret (Returns value frame)
      else mret o
  | _ => mret o
  end.

Definition dispatch (fuel : nat) (stack number arg0 arg1 arg2 : Z) (frame : list Z) : io (System D) Outcome :=
  _ ← (fun s => (Ok tt, mkSystem (world s) (console s) (output s) (COUNT s +₆₄ 1)));
  o ← handle fuel stack number arg0 arg1 arg2 frame;
  way_out o.
Definition resume_call (w : Wait) (frame : list Z) : io (System D) Outcome := o ← continue_call w frame; way_out o.

(** [syscall_entry]: the arguments are the saved registers, and the result is
    stored where [rax] will be restored from. *)
Definition RSI : nat := 9.
Definition RDX : nat := 12.
Definition syscall_entry (fuel : nat) (stack : Z) (frame : list Z) : io (System D) Outcome :=
  o ← dispatch fuel stack (frame !!! RAX) (frame !!! RDI) (frame !!! RSI) (frame !!! RDX) frame;
  mret (match o with Returns value frame => Returns value (<[RAX := value]> frame) | o => o end).
End system.
