(* ===== verification/Steady.v ===== *)
(** * What the task operations keep

    The kernel's operations on tasks and pipes leave the address space and the
    running task alone, and put only bytes in the pipes. *)

From S2P Require Import Input.
From S2P Require Import Prelude Bytes Policy Sched TaskTable Pipe Signal Kernel.

(** ** The task operations *)

Definition pipe_ok (p : Pipe) : Prop := Forall is_byte (Pipe.buffer p).
Definition pipes_ok (t : Kernel) : Prop := Forall pipe_ok (PIPES t).

(** The same task runs in the same space, and pipes still hold bytes. *)
Record steady (t t' : Kernel) : Prop := {
  st_cr3 : Kernel.CR3 t' = Kernel.CR3 t;
  st_current : CURRENT t' = CURRENT t;
  st_pipes : pipes_ok t -> pipes_ok t'
}.

Lemma steady_refl t : steady t t.
Proof. by constructor. Qed.
Lemma steady_trans t1 t2 t3 : steady t1 t2 -> steady t2 t3 -> steady t1 t3.
Proof. intros [] []. constructor; [congruence|congruence|auto]. Qed.

Lemma steady_fold {A} (f : Kernel -> A -> Kernel) l : (forall t x, steady t (f t x)) -> forall t, steady t (fold_left f l t).
Proof. intros Hf. induction l as [|x l IH]; intros t; [apply steady_refl|]. eapply steady_trans; [apply Hf|apply IH]. Qed.

Lemma steady_tasks ts t : steady t (t <| TASKS := ts |>).
Proof. by constructor. Qed.
Lemma steady_sched s t : steady t (t <| SCHED := s |>).
Proof. by constructor. Qed.
Lemma steady_stacks s t : steady t (t <| STACKS := s |>).
Proof. by constructor. Qed.
Lemma steady_orphans l t : steady t (t <| ORPHANS := l |>).
Proof. by constructor. Qed.

Lemma the_pipe_ok ps p : Forall pipe_ok ps -> pipe_ok (ps !!! p).
Proof.
  intros H. destruct (ps !! p) as [x|] eqn:E; [rewrite (list_lookup_total_correct _ _ _ E); by apply (Forall_lookup_1 _ _ _ _ H E)|].
  rewrite list_lookup_total_alt, E. apply Forall_replicate. by unfold is_byte.
Qed.

Lemma steady_pipe p f t : (forall x, pipe_ok x -> pipe_ok (f x)) -> steady t (modify_pipe p f t).
Proof.
  intros Hf. constructor; [done|done|]. intros H. apply Forall_insert; [exact H|]. by apply Hf, the_pipe_ok.
Qed.

Create HintDb steady.
#[export] Hint Resolve steady_refl steady_tasks steady_sched steady_stacks steady_orphans : steady.

Lemma steady_modify_task id f t : steady t (modify_task id f t).
Proof. apply steady_tasks. Qed.
Lemma steady_wake c t : steady t (wake c t).
Proof. apply steady_tasks. Qed.
Lemma steady_close_reader p t : steady t (pipe_close_reader p t).
Proof.
  eapply steady_trans; [apply (steady_pipe p close_reader)|apply steady_wake]. intros x Hx.
  unfold close_reader, release_if_closed. by case_match.
Qed.
Lemma steady_close_writer p t : steady t (pipe_close_writer p t).
Proof.
  eapply steady_trans; [apply (steady_pipe p close_writer)|apply steady_wake]. intros x Hx.
  unfold close_writer, release_if_closed. by case_match.
Qed.
#[export] Hint Resolve steady_modify_task steady_wake steady_close_reader steady_close_writer : steady.

Lemma steady_drop_owner d t : steady t (drop_owner d t).
Proof. destruct d; cbn; auto with steady. Qed.
Lemma steady_add_owner d t : steady t (add_owner d t).
Proof. destruct d; cbn; auto with steady; by apply steady_pipe. Qed.

Lemma steady_close_descriptor id fd t : steady t (close_descriptor id fd t).2.
Proof.
  unfold close_descriptor. case_match; [apply steady_refl|]. eapply steady_trans; [apply steady_modify_task|apply steady_drop_owner].
Qed.
Lemma steady_duplicate id old new t : steady t (duplicate_descriptor id old new t).2.
Proof.
  unfold duplicate_descriptor. repeat (case_match; [apply steady_refl|]).
  eapply steady_trans; [apply (steady_close_descriptor id new)|]. eapply steady_trans; [apply steady_add_owner|apply steady_modify_task].
Qed.
Lemma steady_finish id code t : steady t (finish id code t).
Proof.
  unfold finish. eapply steady_trans; [|apply steady_wake]. eapply steady_trans; [|apply steady_modify_task].
  apply steady_fold. intros. apply steady_close_descriptor.
Qed.

Lemma steady_make_pipe id t : steady t (make_pipe id t).2.
Proof.
  unfold make_pipe. assert (H1 : steady t (t <| PIPES := (Pipe.create (PIPES t)).2 |>)).
  { constructor; [done|done|]. unfold Pipe.create, pipes_ok. case_match; [|done]. intros Hok. apply Forall_insert; [exact Hok|].
    apply Forall_replicate. by unfold is_byte. }
  destruct (Pipe.create (PIPES t)) as [[pipe|] ps]; cbn [snd] in *; [|done]. set (t1 := t <| PIPES := ps |>) in *.
  assert (Hadd : forall d k, steady k (add_descriptor id d k).2) by (intros d k; unfold add_descriptor; case_match; [apply steady_modify_task|apply steady_refl]).
  pose proof (Hadd (Descriptor.PipeRead pipe) t1) as H2. destruct (add_descriptor id _ t1) as [[r|] t2]; cbn [snd] in *.
  - pose proof (Hadd (Descriptor.PipeWrite pipe) t2) as H3. destruct (add_descriptor id _ t2) as [[v|] t3]; cbn [snd] in *.
    + eauto using steady_trans.
    + eapply steady_trans; [exact H1|]. eapply steady_trans; [exact H2|]. eapply steady_trans; [exact H3|].
      eapply steady_trans; [apply (steady_close_descriptor id r)|apply steady_close_writer].
  - eapply steady_trans; [exact H1|]. eapply steady_trans; [exact H2|]. eapply steady_trans; [apply steady_close_reader|apply steady_close_writer].
Qed.

Lemma steady_empty_slot id t : steady t (empty_slot id t).
Proof. eapply steady_trans; [apply steady_modify_task|apply steady_sched]. Qed.
Lemma steady_collect id t : steady t (collect id t).2.
Proof. unfold collect. case_match; [|apply steady_refl]. cbn [snd]. eapply steady_trans; [|apply steady_empty_slot]. case_match; auto with steady. Qed.
Lemma steady_wait_turn id t : steady t (wait_turn id t).2.
Proof.
  unfold wait_turn. pose proof (steady_collect id t) as H. destruct (collect id t) as [[code|] t1]; [done|]. case_match; [|done].
  eapply steady_trans; [exact H|apply steady_tasks].
Qed.
Lemma steady_wait id t : steady t (wait_any_child id t).2.
Proof. unfold wait_any_child. case_match; [apply steady_refl|apply steady_wait_turn]. Qed.
Lemma steady_signal id n t : steady t (signal id n t).2.
Proof. unfold signal. case_match; [apply steady_refl|]. case_match. apply steady_modify_task. Qed.
Lemma steady_fork_from id root frame stack t : steady t (fork_from id root frame stack t).2.
Proof.
  unfold fork_from. case_match; [|apply steady_refl]. cbn [snd]. eapply steady_trans; [|apply steady_sched].
  eapply steady_trans; [|apply steady_fold; intros; apply steady_add_owner]. eapply steady_trans; [apply steady_stacks|apply steady_modify_task].
Qed.

(** ** The pipes *)

Lemma pop_bytes n : forall p, pipe_ok p -> Forall is_byte (Pipe.pop n p).1 /\ pipe_ok (Pipe.pop n p).2 /\ length (Pipe.pop n p).1 = n.
Proof.
  induction n as [|n IH]; intros p Hp; cbn [Pipe.pop]; [done|].
  match goal with |- context [Pipe.pop n ?q] => specialize (IH q Hp); destruct (Pipe.pop n q) as [bytes p'] end. cbn [fst snd] in *.
  destruct IH as (Hb & Hp' & Hl). split_and!; [|done|cbn; lia]. constructor; [|done].
  destruct (Pipe.buffer p !! tail p) as [x|] eqn:E; [rewrite (list_lookup_total_correct _ _ _ E); by apply (Forall_lookup_1 _ _ _ _ Hp E)|].
  rewrite list_lookup_total_alt, E. by unfold is_byte.
Qed.

Lemma read_attempt_bytes size p : pipe_ok p -> pipe_ok (read_attempt size p).2 /\
  match (read_attempt size p).1 with Some bytes => Forall is_byte bytes /\ (length bytes <= size)%nat | None => True end.
Proof.
  intros Hp. unfold read_attempt. destruct (len p =? 0)%nat.
  { split; [exact Hp|]. cbn [fst]. destruct (writers p =? 0); [split; [constructor|cbn; lia]|done]. }
  pose proof (pop_bytes (Nat.min (len p) size) p Hp) as (Hb & Hp' & Hl). destruct (Pipe.pop _ p) as [bytes p']. cbn [fst snd] in *.
  split; [done|]. split; [done|lia].
Qed.

Lemma push_bytes bytes : forall p, Forall is_byte bytes -> pipe_ok p -> pipe_ok (Pipe.push bytes p).
Proof.
  induction bytes as [|b bytes IH]; intros p Hb Hp; cbn [Pipe.push]; [done|]. apply Forall_cons in Hb as [Hb Hbs]. apply IH; [done|].
  by apply Forall_insert.
Qed.
Lemma write_attempt_bytes bytes p : Forall is_byte bytes -> pipe_ok p -> pipe_ok (write_attempt bytes p).2.
Proof.
  intros Hb Hp. unfold write_attempt. case_match; [done|]. case_match; [done|]. cbn [snd]. apply push_bytes; [by apply Forall_take|done].
Qed.

(** ** The console *)

Lemma key_bytes : Forall is_byte unshifted /\ Forall is_byte shifted.
Proof. split; apply Forall_forall; intros x Hx; unfold is_byte; repeat (apply elem_of_cons in Hx as [->|Hx]; [lia|]); by apply not_elem_of_nil in Hx. Qed.

Lemma translate_byte code s c : Input.translate code s = Some c -> is_byte c.
Proof.
  assert (Ht : Forall is_byte (if s then shifted else unshifted)) by (destruct s; apply key_bytes).
  unfold Input.translate. set (table := if s then shifted else unshifted) in *. cbv zeta. destruct (code =? 57); [intros [= <-]; by unfold is_byte|].
  destruct (_ <=? code); [done|]. destruct (_ =? 0); [done|]. intros [= <-].
  destruct (table !! Z.to_nat code) as [x|] eqn:E; [rewrite (list_lookup_total_correct _ _ _ E); by apply (Forall_lookup_1 _ _ _ _ Ht E)|].
  rewrite list_lookup_total_alt, E. by unfold is_byte.
Qed.

Lemma read_loop_byte fuel : forall c k c', read_loop fuel c = (Some k, c') -> is_byte (key_byte k).
Proof.
  induction fuel as [|fuel IH]; intros c k c'; cbn [read_loop]; [done|]. destruct (Input.pop _ _) as [[scancode|] q]; [|done].
  case_match; [apply IH|]. case_match; [apply IH|]. do 2 (case_match; [intros [= <- <-]; by unfold is_byte|]).
  destruct (Input.translate _ _) as [b|] eqn:E; [|apply IH]. intros [= <- <-]. by apply translate_byte in E.
Qed.

Lemma read_key_byte c k c' : read_key c = (Some k, c') -> is_byte (key_byte k).
Proof. unfold read_key. apply read_loop_byte. Qed.

Lemma next_byte_byte c b c' : Input.next_byte c = (Some b, c') -> is_byte b.
Proof.
  unfold Input.next_byte, next_key. destruct (Input.pop _ _) as [[byte|] q].
  - do 2 (match goal with |- context [if ?c then _ else _] => destruct c end; [intros [= <- <-]; by unfold is_byte|]).
    destruct ((32 <=? byte) && (byte <=? 126)) eqn:E; [|done]. apply andb_prop in E as [?%Z.leb_le ?%Z.leb_le].
    intros [= <- <-]. cbn. unfold is_byte. lia.
  - destruct (read_key c) as [[k|] c1] eqn:E; cbn [option_map]; [|done]. intros [= <- <-]. exact (read_key_byte c k c1 E).
Qed.

Lemma drain_bytes size : forall c, Forall is_byte (drain size c).1 /\ (length (drain size c).1 <= size)%nat.
Proof.
  induction size as [|size IH]; intros c; cbn [drain]; [split; [constructor|cbn; lia]|].
  destruct (Input.next_byte c) as [[b|] c1] eqn:E; [|split; [constructor|cbn; lia]].
  specialize (IH c1). destruct (drain size c1) as [bytes c2]. cbn [fst] in *. destruct IH as [Hb Hl].
  split; [constructor; [by apply next_byte_byte in E|done]|cbn; lia].
Qed.
Lemma console_read_bytes size c bytes c' : console_read size c = (Some bytes, c') -> Forall is_byte bytes /\ (length bytes <= size)%nat.
Proof.
  destruct size as [|size]; cbn [console_read]; [intros [= <- <-]; split; [constructor|cbn; lia]|].
  destruct (Input.next_byte c) as [[b|] c1] eqn:E; [|done]. pose proof (drain_bytes size c1) as [Hb Hl]. destruct (drain size c1) as [rest c2].
  intros [= <- <-]. split; [constructor; [by apply next_byte_byte in E|done]|cbn in *; lia].
Qed.
