(* ===== verification/SyscallSpec.v ===== *)
(** * What a system call may do

    A call reads and writes the buffer it was given, and no other program sees
    it happen. *)

From S2P Require Import Input.
From S2P Require Import Prelude Bytes Disk Pages Replace Swap Policy Sched TaskTable Pipe Signal Kernel Fat FatTable FatProps Memory PageTables Spaces UserPages Sharing Cow CowRun Destroy Access Elf ElfSpec User UserSpec Exec Fault Syscall Steady.

#[local] Arguments Z.mul : simpl never.
#[local] Arguments Z.add : simpl never.
#[local] Arguments Z.pow : simpl never.

(** ** Memory while a call runs *)

Section calls.
Context {D : Type} `{!Disk D} (roots : list Z).
Implicit Types (s : System D) (w : World D).

Abbreviation kernel s := (tasks (world s)).
Abbreviation mem s := (memory (world s)).
Abbreviation root s := (read_cr3 (memory (world s))).

Definition with_tasks s (t : Kernel) : System D := mkSystem (mkWorld D t (mem s)) (console s) (output s) (COUNT s).

(** Since [s] the current program's memory became [A], by stores to the pages
    [ps], and the tasks did nothing to upset it. *)
Record after s (ps : list Z) (A : Image) s' : Prop := {
  af_wrote : wrote roots (mkWorld D (kernel s') (mem s)) ps A (world s');
  af_steady : steady (kernel s) (kernel s')
}.

Lemma after_start s fl ps : space (mem s) roots fl -> (owed (mem s) ps <= length fl)%nat -> after s ps (view (mem s) (root s)) s.
Proof using Type. intros Hsp Hn. constructor; [|apply steady_refl]. constructor; try done. by exists fl. Qed.

Lemma after_tasks s ps A s1 t : after s ps A s1 -> steady (kernel s1) t -> after s ps A (with_tasks s1 t).
Proof using Type. intros [[] Hs] Ht. constructor; [by constructor|]. by eapply steady_trans. Qed.

Lemma safe_in_world {A} (m : io (World D) A) P E s :
  safe m (fun a w => P a (mkSystem w (console s) (output s) (COUNT s))) (fun w => E (mkSystem w (console s) (output s) (COUNT s))) (world s) ->
  safe (in_world m) P E s.
Proof using Type. unfold safe, in_world. by destruct (m (world s)) as [[] w]. Qed.

Lemma safe_lift_world {A} (m : io (World D) A) P s : safe m P (fun _ => False) (world s) -> safe (in_world m) (fun a s' => P a (world s')) (fun _ => False) s.
Proof using Type. intros H. by apply safe_in_world. Qed.

Lemma on_tasks_run {A} (f : Kernel -> A * Kernel) s : on_tasks f s = (Ok (f (kernel s)).1, with_tasks s (f (kernel s)).2).
Proof using Type. unfold on_tasks, in_world, in_tasks, with_tasks. by destruct (f (kernel s)). Qed.

Lemma with_tasks_id s : with_tasks s (kernel s) = s.
Proof using Type. by destruct s as [[] c o n]. Qed.

Lemma safe_on_tasks {A B} (f : Kernel -> A * Kernel) (g : A -> io (System D) B) P E s :
  safe (g (f (kernel s)).1) P E (with_tasks s (f (kernel s)).2) -> safe (on_tasks f ≫= g) P E s.
Proof using Type. intros H. eapply safe_bind_run; [apply on_tasks_run|done]. Qed.

(** A look at the tasks. *)
Lemma safe_look {A B} (f : Kernel -> A) (g : A -> io (System D) B) P E s :
  safe (g (f (kernel s))) P E s -> safe (on_tasks (fun t => (f t, t)) ≫= g) P E s.
Proof using Type. intros H. apply safe_on_tasks. cbn [fst snd]. by rewrite with_tasks_id. Qed.

Lemma safe_current {B} (g : nat -> io (System D) B) P E s : safe (g (CURRENT (kernel s))) P E s -> safe (current ≫= g) P E s.
Proof using Type. intros H. eapply safe_bind_run; [|exact H]. by destruct s as [[] c o n]. Qed.

(** A store by the call into its buffer. *)
Lemma after_write s ps A s1 va bytes : after s ps A s1 -> root s ∈ roots -> pages ps -> 0 <= va -> va + Z.of_nat (length bytes) <= USER_SPACE_END ->
  Forall is_byte bytes -> (forall x, va <= x < va + Z.of_nat (length bytes) -> ready (mem s) x /\ page_of x ∈ ps) ->
  safe (in_world (write_user va bytes)) (fun _ s' => after s ps (stores va bytes A) s' /\ kernel s' = kernel s1 /\ console s' = console s1 /\ output s' = output s1)
    (fun _ => False) s1.
Proof using Type.
  intros [Hw Hs] Hr Hps H0 H1 Hb Hrd. apply safe_in_world.
  eapply safe_mono; [apply (write_user_spec roots (mkWorld D (kernel s1) (mem s)) ps bytes A (world s1) va Hw Hr Hps H0 H1 Hb Hrd)| |done].
  intros [] w' Hw'. pose proof (wo_tasks _ _ _ _ _ Hw') as Et. cbn [tasks world] in *. rewrite Et. split; [|done].
  constructor; cbn [world]; rewrite Et; done.
Qed.

(** The same when the buffer is read. *)
Lemma after_read s va size fl : space (mem s) roots fl -> 0 <= va -> va + Z.of_nat size <= USER_SPACE_END ->
  (forall x, va <= x < va + Z.of_nat size -> has (leaf (ram (mem s)) (root s) x) PRESENT = true) ->
  exists bytes, in_world (read_user va size) s = (Ok bytes, s) /\ Forall is_byte bytes /\ length bytes = size /\
    forall i, (i < size)%nat -> view (mem s) (root s) (va + Z.of_nat i) = bytes !! i.
Proof using Type.
  intros Hsp H0 H1 Hp. destruct (read_user_spec roots size va (world s) fl Hsp H0 H1 Hp) as (bytes & E & H).
  exists bytes. split; [|done]. unfold in_world. rewrite E. by destruct s.
Qed.

(** The check of a buffer. *)
Lemma user_slice_spec s pointer len fl : space (mem s) roots fl -> root s ∈ roots -> 0 <= pointer -> 0 <= len -> pointer + len <= USER_SPACE_END ->
  safe (user_slice pointer len) (fun o s' => s' = s /\ match o with
    | Some size => size = Z.to_nat len /\ len <= PAGE_SIZE /\
        forall x, pointer <= x < pointer + len -> has (leaf (ram (mem s)) (root s) x) PRESENT = true
    | None => True end) (fun _ => False) s.
Proof using Type.
  intros Hsp Hr H0 H1 H2. unfold user_slice. destruct (Z.ltb_spec 4096 len) as [|Hlen]; [by apply safe_ret|].
  assert (Hf : len / 4096 + 3 <= Z.of_nat 4) by (assert (len / 4096 <= 4096 / 4096) by (by apply Z.div_le_mono); change (4096 / 4096) with 1 in *; lia).
  pose proof (accessible_enough 4 (mem s) pointer len H0 H1 H2 Hf) as Hacc. destruct (is_user_accessible 4 (mem s) pointer len) as [b|] eqn:Eb; [|done].
  eapply (safe_bind_run _ _ _ _ s b s); [unfold in_world, in_memory, accessible; rewrite Eb; by destruct s as [[] c o n]|].
  apply safe_ret. split; [done|]. destruct b; [|done]. split_and!; [done|done|]. intros x Hx.
  by apply (accessible_mapped 4 (mem s) roots fl pointer len Hsp Hr H0 H2 Eb).
Qed.

(** Only tasks and pipes changed. *)
Definition tasks_only s s' : Prop := mem s' = mem s /\ steady (kernel s) (kernel s').

Lemma tasks_only_refl s : tasks_only s s.
Proof using Type. split; [done|apply steady_refl]. Qed.
Lemma tasks_only_with s s1 t : tasks_only s s1 -> steady (kernel s1) t -> tasks_only s (with_tasks s1 t).
Proof using Type. intros [E Hs] Ht. split; [done|by eapply steady_trans]. Qed.

Lemma tasks_only_after s s' fl ps : space (mem s) roots fl -> (owed (mem s) ps <= length fl)%nat -> tasks_only s s' -> after s ps (view (mem s) (root s)) s'.
Proof using Type. intros Hsp Hn [E Hs]. constructor; [|done]. constructor; cbn [memory tasks]; rewrite ?E; try done. by exists fl. Qed.

(** How a call that does not end its task ends. *)
Definition answers (frame : list Z) (o : Outcome) : Prop := (exists v, o = Returns v frame) \/ exists w : Wait, o = Sleeps w.
Lemma answers_returns v frame : answers frame (Returns v frame).
Proof using Type. left. by exists v. Qed.
Lemma answers_sleeps (w : Wait) frame : answers frame (Sleeps w).
Proof using Type. right. by exists w. Qed.

Lemma sleep_spec channel (w : Wait) s s1 : tasks_only s s1 -> safe (sleep channel w) (fun o s' => tasks_only s s' /\ o = Sleeps w) (fun _ => False) s1.
Proof using Type. intros Ht. unfold sleep. apply safe_on_tasks, safe_ret. split; [|done]. apply tasks_only_with; [done|apply steady_tasks]. Qed.

(** Waking somebody and returning. *)
Lemma wake_spec (b : bool) channel v frame s s1 : tasks_only s s1 ->
  safe (_ ← (if b then wake_up channel else mret tt); mret (Returns v frame)) (fun o s' => tasks_only s s' /\ o = Returns v frame) (fun _ => False) s1.
Proof using Type.
  intros Ht. destruct b; [|by apply safe_ret]. apply safe_on_tasks, safe_ret. split; [|done]. apply tasks_only_with; [done|apply steady_wake].
Qed.

Lemma pipe_write_spec s pipe pointer size frame fl : space (mem s) roots fl -> pipes_ok (kernel s) ->
  0 <= pointer -> pointer + Z.of_nat size <= USER_SPACE_END ->
  (forall x, pointer <= x < pointer + Z.of_nat size -> has (leaf (ram (mem s)) (root s) x) PRESENT = true) ->
  forall turns written s1, tasks_only s s1 -> (size - written <= turns)%nat ->
  safe (pipe_write turns pipe pointer size written frame) (fun o s' => tasks_only s s' /\ answers frame o) (fun _ => False) s1.
Proof using Type.
  intros Hsp Hok H0 H1 Hp turns. induction turns as [|turns IH]; intros written s1 Ht Hf; cbn [pipe_write].
  all: assert (Hdone : forall s2, tasks_only s s2 -> safe (_ ← (if (0 <? written)%nat then wake_up (readable_channel pipe) else mret tt);
      mret (Returns (Z.of_nat written) frame)) (fun o s' => tasks_only s s' /\ answers frame o) (fun _ => False) s2)
    by (intros s2 H2; eapply safe_mono; [by apply wake_spec| |done]; intros o s' [? ->]; split; [done|apply answers_returns]).
  all: destruct (Nat.leb_spec size written) as [Hle|Hgt]; [by apply Hdone|].
  { lia. }
  pose proof Ht as [Em Hst]. apply safe_look. set (p := PIPES (kernel s1) !!! pipe). set (n := takes p (size - written)).
  assert (Hn : (n <= size - written)%nat) by (unfold n, takes; destruct (readers p =? 0); [apply Nat.le_0_l|apply Nat.le_min_r]).
  assert (Hw : pointer +₆₄ Z.of_nat written = pointer + Z.of_nat written).
  { apply wrap_small. unfold in_u, USER_SPACE_END in *. change (2 ^ 64) with 18446744073709551616. lia. }
  rewrite Hw. destruct (after_read s1 (pointer + Z.of_nat written) n fl) as (bytes & Er & Hb & Hlen & _); [by rewrite Em|lia|lia|rewrite Em; intros x Hx; apply Hp; lia|].
  eapply (safe_bind_run _ _ _ _ s1 bytes s1 Er). apply safe_on_tasks. fold p.
  assert (Hpok : pipe_ok p) by (by apply the_pipe_ok, Hst).
  pose proof (write_attempt_bytes bytes p Hb Hpok) as Hp'.
  assert (Hc : forall count, (write_attempt bytes p).1 = Some count -> (count <= n)%nat).
  { intros count. unfold write_attempt. destruct (readers p =? 0); [done|]. destruct (_ =? 0)%nat; cbn [fst]; intros [= <-]; [apply Nat.le_0_l|].
    rewrite <- Hlen. apply Nat.le_min_r. }
  destruct (write_attempt bytes p) as [placed p']. cbn [fst snd] in *. set (s2 := with_tasks s1 (modify_pipe pipe (fun _ => p') (kernel s1))).
  assert (Ht2 : tasks_only s s2) by (apply tasks_only_with; [done|by apply steady_pipe]).
  destruct placed as [[|count]|]; [|apply IH; [done|lia]|by apply Hdone].
  unfold wake_up. apply safe_on_tasks. eapply safe_mono; [apply (sleep_spec _ _ s)| |done].
  - apply tasks_only_with; [done|apply steady_wake].
  - intros o s' [? ->]. split; [done|apply answers_sleeps].
Qed.

(** [read] of a pipe. *)
Lemma pipe_read_spec s ps A s1 pipe pointer size frame : after s ps A s1 -> root s ∈ roots -> pages ps -> pipes_ok (kernel s1) ->
  0 <= pointer -> pointer + Z.of_nat size <= USER_SPACE_END ->
  (forall x, pointer <= x < pointer + Z.of_nat size -> ready (mem s) x /\ page_of x ∈ ps) ->
  safe (pipe_read pipe pointer size frame) (fun o s' => match (read_attempt size (PIPES (kernel s1) !!! pipe)).1 with
    | Some bytes => o = Returns (Z.of_nat (length bytes)) frame /\ after s ps (stores pointer bytes A) s' /\ (length bytes <= size)%nat
    | None => o = Sleeps (OnData pipe pointer size) /\ after s ps A s' end) (fun _ => False) s1.
Proof using Type.
  intros Ha Hr Hps Hok H0 H1 Hrd. unfold pipe_read. apply safe_on_tasks. set (p := PIPES (kernel s1) !!! pipe).
  assert (Hpok : pipe_ok p) by (by apply the_pipe_ok). destruct (read_attempt_bytes size p Hpok) as [Hp' Hb].
  destruct (read_attempt size p) as [o p']. cbn [fst snd] in *. set (s2 := with_tasks s1 _).
  assert (Ha2 : after s ps A s2) by (apply after_tasks; [done|by apply steady_pipe]).
  destruct o as [bytes|].
  - destruct Hb as [Hb Hlen]. eapply safe_bind; [apply (after_write s ps A s2 pointer bytes Ha2 Hr Hps H0); [lia|done|intros x Hx; apply Hrd; lia]|].
    intros [] s3 [Ha3 _]. eapply safe_mono; [apply (wake_spec _ _ _ _ s3 s3), tasks_only_refl| |done].
    intros o s4 [[Em Hst] ->]. split_and!; [done| |done]. destruct Ha3 as [[] Hs3]. constructor; [|by eapply steady_trans].
    constructor; cbn [memory tasks] in *; rewrite ?Em; done.
  - apply safe_on_tasks, safe_ret. split; [done|]. by apply after_tasks; [|apply steady_tasks].
Qed.

(** ** [fork] *)

Lemma fork_call_spec w stack frame fl : space (memory w) roots fl -> read_cr3 (memory w) ∈ roots -> Z.of_nat (length roots) + 1 < 2 ^ 32 ->
  safe (fork_call stack frame) (fun v w' =>
    Memory.CR3 (memory w') = Memory.CR3 (memory w) /\ steady (tasks w) (tasks w') /\
    (forall r va, r ∈ roots -> user va -> view (memory w') r va = view (memory w) r va) /\
    exists roots' fl', space (memory w') roots' fl' /\ (forall r, r ∈ roots -> r ∈ roots') /\
      (v = REFUSED \/ exists id child, v = Z.of_nat id /\ (child ∉ roots) /\ roots' = child :: roots /\
         fork_from (CURRENT (tasks w)) child frame stack (tasks w) = (Ok id, tasks w') /\
         forall va, user va -> view (memory w') child va = view (memory w) (read_cr3 (memory w)) va))
    (fun _ => False) w.
Proof using Type.
  intros Hsp Hr Hn. unfold fork_call. eapply (safe_bind_run current_id); [reflexivity|]. eapply (safe_bind_run active_root); [reflexivity|].
  cbn [tasks memory]. destruct (fork_spec (memory w) roots fl (read_cr3 (memory w)) Hsp Hr Hr Hn) as (o & k & fl' & Ef & Hc & Hk).
  eapply (safe_bind_run _ _ _ _ _ o (mkWorld D (tasks w) k)); [unfold in_memory; cbn [memory tasks]; by rewrite Ef|].
  destruct o as [child|].
  - destruct Hk as (Hnin & Hspc & Hch & Hold). pose proof (steady_fork_from (CURRENT (tasks w)) child frame stack (tasks w)) as Hst.
    destruct (fork_from (CURRENT (tasks w)) child frame stack (tasks w)) as [[id|e|] t] eqn:Eff; cbn [snd] in Hst.
    + eapply (safe_bind_run _ _ _ _ _ (Some id) (mkWorld D t k)); [unfold attempt, in_tasks; cbn [tasks memory]; by rewrite Eff|].
      apply safe_ret. cbn [tasks memory]. split_and!; [done|done|done|]. exists (child :: roots), fl'. split_and!; [done|by right|].
      right. exists id, child. done.
    + eapply (safe_bind_run _ _ _ _ _ None (mkWorld D t k)); [unfold attempt, in_tasks; cbn [tasks memory]; by rewrite Eff|].
      destruct (destroy_spec k (child :: roots) fl' child Hspc ltac:(left)) as (k5 & fl5 & Ed & Hsp5 & Hk5 & _).
      rewrite filter_cons, decide_False, (filter_but_id roots child Hnin) in Hsp5, Hk5 by (intros H; by apply H).
      eapply (safe_bind_run _ _ _ _ _ tt (mkWorld D t k5)); [unfold destroy_space, in_memory; cbn [tasks memory]; by rewrite Ed|].
      apply safe_ret. cbn [tasks memory]. pose proof (kp_rest _ _ _ Hk5) as Hrest. injection Hrest as Hc5 _ _ _ _.
      split_and!; [congruence|done|intros r va Hr' U; rewrite (kp_view _ _ _ Hk5) by done; by apply Hold|]. exists roots, fl5. split_and!; [done|done|by left].
    + exfalso. unfold fork_from in Eff. by case_match.
  - apply safe_ret. cbn [tasks memory]. destruct Hk as [Hold (lost & _ & _ & Hl)]. split_and!; [done|apply steady_refl|done|].
    exists (lost ++ roots), fl'. split_and!; [done|intros r; rewrite elem_of_app; by right|by left].
Qed.

(** ** [sigreturn] *)

Lemma sigreturn_words frame s fl : space (mem s) roots fl -> 0 <= frame !!! RSP -> (frame !!! RSP) + 160 <= USER_SPACE_END ->
  (forall x, frame !!! RSP <= x < (frame !!! RSP) + 160 -> has (leaf (ram (mem s)) (root s) x) PRESENT = true) ->
  exists words, sigreturn frame s = (Ok (Returns (words !!! RAX) words), s) /\ length words = FRAME_WORDS /\ Forall (in_u 64) words /\
    forall i j, (i < FRAME_WORDS)%nat -> (j < 8)%nat -> view (mem s) (root s) ((frame !!! RSP) + 8 * Z.of_nat i + Z.of_nat j) = le 8 (words !!! i) !! j.
Proof using Type.
  intros Hsp H0 H1 Hp. set (sp := frame !!! RSP) in *. unfold sigreturn. fold sp.
  set (body := fun (words : list Z) index => bytes ← in_world (read_user (word_at sp index) 8); mret (words ++ [unle bytes])).
  assert (Hloop : forall n words m, (m + n <= FRAME_WORDS)%nat -> exists more, fold_io body (seq m n) words s = (Ok (words ++ more), s) /\ length more = n /\ Forall (in_u 64) more /\
    forall i j, (i < n)%nat -> (j < 8)%nat -> view (mem s) (root s) (sp + 8 * Z.of_nat (m + i) + Z.of_nat j) = le 8 (more !!! i) !! j).
  { induction n as [|n IH]; intros words m Hm; cbn [seq fold_io].
    - exists []. rewrite app_nil_r. split_and!; [done|done|constructor|lia].
    - unfold FRAME_WORDS in Hm. assert (Ew : word_at sp m = sp + 8 * Z.of_nat m) by (apply word_at_small; [done|unfold FRAME_WORDS; lia|]; unfold USER_SPACE_END in H1; change (2 ^ 64) with 18446744073709551616; lia).
      destruct (after_read s (sp + 8 * Z.of_nat m) 8 fl Hsp) as (bytes & Er & Hb & Hlen & Hv); [lia|lia|intros x Hx; apply Hp; lia|].
      assert (Eb : body words m s = (Ok (words ++ [unle bytes]), s)) by (unfold body; rewrite Ew; by rewrite (io_bind_run _ _ s bytes s Er)).
      rewrite (io_bind_run _ _ s _ s Eb). destruct (IH (words ++ [unle bytes]) (S m)) as (more & E & Hl & Hu & Hmore); [unfold FRAME_WORDS; lia|].
      exists (unle bytes :: more). rewrite <- app_assoc in E. split_and!; [done|cbn; lia|constructor; [|done]|].
      { pose proof (unle_bound bytes Hb) as Hbd. rewrite Hlen in Hbd. exact Hbd. }
      intros [|i] j Hi Hj; cbn [lookup_total list_lookup_total].
      + rewrite Nat.add_0_r, Hv by done. by rewrite <- Hlen, le_unle.
      + replace (m + S i)%nat with (S m + i)%nat by lia. apply Hmore; lia. }
  destruct (Hloop FRAME_WORDS [] 0%nat ltac:(lia)) as (words & E & Hl & Hu & Hv). exists words. split_and!; [|done|done|exact Hv].
  by rewrite (io_bind_run _ _ s _ s E).
Qed.
End calls.

(** ** Every call *)

(** What a task in the kernel does next: a call its program made, or the call
    it was asleep in. *)
Inductive Request := Call (number arg0 arg1 arg2 : Z) | Resume (w : Wait).

Section every_call.
Context {D : Type} `{HL : DiskLaws D} (roots : list Z).
Implicit Types (s : System D) (w : World D).

Abbreviation kernel s := (tasks (world s)).
Abbreviation mem s := (memory (world s)).
Abbreviation root s := (read_cr3 (memory (world s))).

Definition serve (fuel : nat) (stack : Z) (q : Request) (frame : list Z) : io (System D) Outcome :=
  match q with
  | Call number arg0 arg1 arg2 => handle fuel stack number arg0 arg1 arg2 frame
  | Resume w => continue_call w frame
  end.

(** The bytes a request may store to. *)
Definition target (q : Request) : Z * Z :=
  match q with
  | Call number arg0 arg1 arg2 => if number =? SYS_READ then (arg1, arg2) else if number =? SYS_PIPE then (arg0, 16) else (0, 0)
  | Resume (OnData _ pointer size | OnKey pointer size) => (pointer, Z.of_nat size)
  | Resume _ => (0, 0)
  end.
(** The bytes it may read. *)
Definition source (frame : list Z) (q : Request) : Z * Z :=
  match q with
  | Call number arg0 arg1 arg2 => if number =? SYS_WRITE then (arg1, arg2) else if number =? SYS_EXEC then (arg0, arg1) else (0, 0)
  | Resume (OnRoom _ pointer size _) => (pointer, Z.of_nat size)
  | Resume _ => (0, 0)
  end.
Definition in_user (b : Z * Z) : Prop := 0 <= b.1 /\ 0 <= b.2 /\ b.1 + b.2 <= USER_SPACE_END.
Definition mapped s (b : Z * Z) : Prop := forall x, b.1 <= x < b.1 + b.2 -> has (leaf (ram (mem s)) (root s) x) PRESENT = true.

(** The machine a request is made on. *)
Record machine_ok s : Prop := {
  mo_space : exists fl, space (mem s) roots fl /\ (2 <= length fl)%nat;
  mo_root : root s ∈ roots;
  mo_few : Z.of_nat (length roots) + 1 < 2 ^ 32;
  mo_same : Kernel.CR3 (kernel s) = root s;
  mo_pipes : pipes_ok (kernel s)
}.

(** What the code does not check, and a request is assumed to respect: its
    buffers lie in the user half, what it has the kernel store to is not
    read-only, a sleeper's buffer and the frame of [sigreturn] are mapped, and
    the file of [exec] leaves the stack page alone. *)
Record request_ok (fuel : nat) s (frame : list Z) (q : Request) : Prop := {
  rq_user : in_user (target q) /\ in_user (source frame q);
  rq_writable : forall x, (target q).1 <= x < (target q).1 + (target q).2 ->
    has (leaf (ram (mem s)) (root s) x) PRESENT = true -> ready (mem s) x;
  rq_resumed : match q with
    | Resume (OnData _ _ size | OnKey _ size) => Z.of_nat size <= PAGE_SIZE /\ mapped s (target q)
    | Resume (OnRoom _ _ size _) => mapped s (source frame q)
    | _ => True
    end;
  rq_sigreturn : match q with
    | Call number _ _ _ => number = SYS_SIGRETURN -> in_user (frame !!! RSP, 160) /\ mapped s (frame !!! RSP, 160)
    | _ => True
    end;
  rq_exec : match q with
    | Call number arg0 arg1 arg2 => number = SYS_EXEC -> arg1 / 4096 + 3 <= Z.of_nat fuel /\
        forall bytes name_ args data, mapM (view (mem s) (root s)) (seqZ arg0 arg1) = Some bytes ->
          collect_arguments (split_zero bytes) arg2 [] = Some (name_ :: args) ->
          (read_program name_ (DISK (mem s))).1 = Ok data -> clear_of_stack data
    | _ => True
    end
}.

(** The other programs read what they did, the caller too except in the
    bytes it asked to have written, and the machine is as good as before. *)
Record apart s (b : Z * Z) s' : Prop := {
  ap_ok : exists roots', (exists fl, space (mem s') roots' fl) /\ root s' ∈ roots' /\ forall r, r ∈ roots -> r <> root s -> r ∈ roots';
  ap_same : Kernel.CR3 (kernel s') = root s';
  ap_pipes : pipes_ok (kernel s');
  ap_others r va : r ∈ roots -> r <> root s -> user va -> view (mem s') r va = view (mem s) r va;
  ap_own va : root s' = root s -> user va -> ~ b.1 <= va < b.1 + b.2 -> view (mem s') (root s) va = view (mem s) (root s) va
}.

Lemma after_apart s b ps A s' : machine_ok s -> after roots s ps A s' ->
  (forall va, user va -> ~ b.1 <= va < b.1 + b.2 -> A va = view (mem s) (root s) va) -> apart s b s' /\ root s' = root s.
Proof using Type.
  intros [_ Hr _ Hcr Hok] [[(fl & Hsp & _) Hc Ht Hv Ho _] [Hc' _ Hp]] HA. cbn [memory tasks] in *.
  assert (Er : root s' = root s) by (unfold read_cr3; by rewrite Hc). split; [|done]. constructor.
  - exists roots. split_and!; [by exists fl|by rewrite Er|done].
  - congruence.
  - by apply Hp.
  - done.
  - intros va _ U Hva. rewrite Hv by done. by apply HA.
Qed.

(** The ending every request but [exit] has in common. *)
Definition served s (frame : list Z) (q : Request) (o : Outcome) s' : Prop :=
  apart s (target q) s' /\ ((exists a b c, q = Call SYS_EXEC a b c) \/ root s' = root s).

Lemma tasks_only_served s frame q o s' : machine_ok s -> tasks_only s s' -> served s frame q o s'.
Proof using Type.
  intros Hm Ht. pose proof Hm as [(fl & Hsp & Hn) _ _ _ _].
  destruct (after_apart s (target q) [] _ s' Hm (tasks_only_after roots s s' fl [] Hsp ltac:(cbn; lia) Ht)) as [Ha Er]; [done|]. split; [done|by right].
Qed.

Abbreviation good s frame q := (fun o s' => served s frame q o s' /\ o <> Exits).

(** A call that works on the tasks and returns. *)
Lemma tasks_call s frame q {A} (f : Kernel -> A * Kernel) (v : A -> Z) : machine_ok s -> steady (kernel s) (f (kernel s)).2 ->
  safe (a ← on_tasks f; mret (Returns (v a) frame)) (good s frame q) (fun _ => False) s.
Proof using Type.
  intros Hm Hf. apply safe_on_tasks, safe_ret. split; [|done]. apply (tasks_only_served s frame q); [done|].
  apply tasks_only_with; [apply tasks_only_refl|done].
Qed.

Lemma refuse_good s frame q : machine_ok s -> safe (refuse frame) (good s frame q) (fun _ => False) s.
Proof using Type. intros Hm. apply safe_ret. split; [|done]. by apply (tasks_only_served s), tasks_only_refl. Qed.

Lemma child_call s frame q (f : Kernel -> wait_outcome * Kernel) : machine_ok s -> steady (kernel s) (f (kernel s)).2 ->
  safe (o ← on_tasks f; child_turn o frame) (good s frame q) (fun _ => False) s.
Proof using Type.
  intros Hm Hf. apply safe_on_tasks. set (s' := with_tasks s _).
  assert (Ht : served s frame q Exits s') by (apply (tasks_only_served s frame q); [done|apply tasks_only_with; [apply tasks_only_refl|done]]).
  destruct (f (kernel s)).1; by apply safe_ret.
Qed.

Lemma sleep_good s frame q channel (w : Wait) : machine_ok s -> safe (sleep channel w) (good s frame q) (fun _ => False) s.
Proof using Type.
  intros Hm. eapply safe_mono; [apply (sleep_spec channel w s s), tasks_only_refl| |done]. intros o s' [Ht ->]. split; [|done].
  by apply (tasks_only_served s).
Qed.

Lemma answers_good s frame q o s' : machine_ok s -> tasks_only s s' -> answers frame o -> served s frame q o s' /\ o <> Exits.
Proof using Type. intros Hm Ht [[v ->]|[w ->]]; (split; [by apply (tasks_only_served s)|done]). Qed.

Lemma outside_stores va bytes A b x : b.1 <= va -> va + Z.of_nat (length bytes) <= b.1 + b.2 -> ~ b.1 <= x < b.1 + b.2 -> stores va bytes A x = A x.
Proof using Type. intros H1 H2 H3. apply stores_out. lia. Qed.

(** The pages a request stores to, and the frames they may take. *)
Lemma target_pages s (b : Z * Z) (fl : list Z) : in_user b -> b.2 <= PAGE_SIZE -> (2 <= length fl)%nat ->
  pages (span b.1 b.2) /\ (owed (mem s) (span b.1 b.2) <= length fl)%nat /\ forall x, b.1 <= x < b.1 + b.2 -> page_of x ∈ span b.1 b.2.
Proof using Type.
  intros (H0 & H1 & H2) Hl Hn. split_and!; [by apply span_pages|pose proof (span_owed (mem s) b.1 b.2); lia|]. intros x Hx. by apply span_covers.
Qed.

(** A pipe read, from a call or from sleep. *)
Lemma pipe_read_good s frame q pipe pointer size : machine_ok s -> target q = (pointer, Z.of_nat size) -> in_user (target q) -> Z.of_nat size <= PAGE_SIZE ->
  (forall x, pointer <= x < pointer + Z.of_nat size -> ready (mem s) x) ->
  safe (pipe_read pipe pointer size frame) (good s frame q) (fun _ => False) s.
Proof using Type.
  intros Hm Eq Hu Hl Hrd. rewrite Eq in Hu. pose proof Hm as [(fl & Hsp & Hn) Hr Hf Hs Hp].
  destruct (target_pages s (pointer, Z.of_nat size) fl Hu Hl Hn) as (Hps & Ho & Hin). destruct Hu as (H0 & _ & H1). cbn [fst snd] in *.
  set (ps := span pointer (Z.of_nat size)) in *.
  eapply safe_mono; [apply (pipe_read_spec roots s ps _ s pipe pointer size frame (after_start roots s fl ps Hsp Ho) Hr Hps Hp H0 H1); intros x Hx; auto| |done].
  intros o s' H. destruct (read_attempt _ _).1 as [bytes|].
  - destruct H as (-> & Ha & Hlen). split; [|done]. destruct (after_apart s (target q) ps _ s' Hm Ha) as [Hap Er]; [|split; [done|by right]].
    intros x U Hx. apply (outside_stores _ _ _ (target q)); rewrite ?Eq; cbn [fst snd] in *; [lia|lia|by rewrite Eq in Hx].
  - destruct H as (-> & Ha). split; [|done]. destruct (after_apart s (target q) ps _ s' Hm Ha) as [Hap Er]; [done|split; [done|by right]].
Qed.

Lemma console_good s frame q pointer size : machine_ok s -> target q = (pointer, Z.of_nat size) -> in_user (target q) -> Z.of_nat size <= PAGE_SIZE ->
  (forall x, pointer <= x < pointer + Z.of_nat size -> ready (mem s) x) ->
  safe (console_turn pointer size frame) (good s frame q) (fun _ => False) s.
Proof using Type.
  intros Hm Eq Hu Hl Hrd. rewrite Eq in Hu. pose proof Hm as [(fl & Hsp & Hn) Hr Hf Hs Hp].
  destruct (target_pages s (pointer, Z.of_nat size) fl Hu Hl Hn) as (Hps & Ho & Hin). destruct Hu as (H0 & _ & H1). cbn [fst snd] in *.
  set (ps := span pointer (Z.of_nat size)) in *.
  unfold console_turn. destruct (console_read size (console s)) as [o c] eqn:Ec. set (s1 := mkSystem (world s) c (output s) (COUNT s)).
  eapply (safe_bind_run _ _ _ _ s o s1); [unfold in_console; by rewrite Ec|]. destruct o as [bytes|].
  - destruct (console_read_bytes size (console s) bytes c Ec) as [Hb Hlen]. pose proof (after_start roots s fl ps Hsp Ho) as Ha.
    assert (Ha1 : after roots s ps (view (mem s) (root s)) s1) by (destruct Ha; by constructor).
    eapply safe_bind; [apply (after_write roots s ps _ s1 pointer bytes Ha1 Hr Hps H0); [lia|done|intros x Hx; split; [apply Hrd|apply Hin]; lia]|].
    intros [] s2 [Ha2 _]. apply safe_ret. split; [|done]. destruct (after_apart s (target q) ps _ s2 Hm Ha2) as [Hap Er]; [|split; [done|by right]].
    intros x U Hx. apply (outside_stores _ _ _ (target q)); rewrite ?Eq; cbn [fst snd] in *; [lia|lia|by rewrite Eq in Hx].
  - eapply safe_mono; [apply (sleep_spec _ _ s s1); split; [done|apply steady_refl]| |done]. intros o s' [Ht ->]. split; [|done].
    by apply (tasks_only_served s).
Qed.

Lemma write_good s fuel fd pointer len frame : machine_ok s -> request_ok fuel s frame (Call SYS_WRITE fd pointer len) ->
  safe (write fd pointer len frame) (good s frame (Call SYS_WRITE fd pointer len)) (fun _ => False) s.
Proof using Type.
  intros Hm [[_ (H0 & H1 & H2)] _ _ _ _]. cbn [source fst snd Z.eqb SYS_WRITE Pos.eqb] in *. pose proof Hm as [(fl & Hsp & Hn) Hr Hf Hs Hp].
  unfold write. eapply safe_bind; [apply (user_slice_spec roots s pointer len fl Hsp Hr H0 H1 H2)|].
  intros o s' [-> Ho]. destruct o as [size|]; [|by apply (refuse_good s)]. destruct Ho as (-> & Hl & Hpr).
  apply safe_current, safe_look. destruct (descriptor _ _ _) as [| |pipe|pipe]; try by apply (refuse_good s).
  - destruct (after_read roots s pointer (Z.to_nat len) fl Hsp H0 ltac:(lia)) as (bytes & Er & _); [intros x Hx; apply Hpr; lia|].
    eapply (safe_bind_run _ _ _ _ s bytes s Er). destruct (utf8 bytes); [|by apply (refuse_good s)].
    eapply (safe_bind_run _ _ _ _ s tt); [reflexivity|]. apply safe_ret. split; [|done]. apply (tasks_only_served s); [done|split; [done|apply steady_refl]].
  - eapply safe_mono; [apply (pipe_write_spec roots s pipe pointer (Z.to_nat len) frame fl Hsp Hp H0 ltac:(lia)); [intros x Hx; apply Hpr; lia|apply tasks_only_refl|lia]| |done].
    intros o s' [Ht Ha]. by apply (answers_good s).
Qed.

Lemma read_good s fuel fd pointer len frame : machine_ok s -> request_ok fuel s frame (Call SYS_READ fd pointer len) ->
  safe (read fd pointer len frame) (good s frame (Call SYS_READ fd pointer len)) (fun _ => False) s.
Proof using Type.
  intros Hm [[Hu _] Hw _ _ _]. assert (Et : target (Call SYS_READ fd pointer len) = (pointer, len)) by done. rewrite Et in *.
  destruct Hu as (H0 & H1 & H2). cbn [fst snd] in *. pose proof Hm as [(fl & Hsp & Hn) Hr Hf Hs Hp].
  unfold read. eapply safe_bind; [apply (user_slice_spec roots s pointer len fl Hsp Hr H0 H1 H2)|].
  intros o s' [-> Ho]. destruct o as [size|]; [|by apply (refuse_good s)]. destruct Ho as (-> & Hl & Hpr).
  assert (Eq : target (Call SYS_READ fd pointer len) = (pointer, Z.of_nat (Z.to_nat len))) by (rewrite Et, Z2Nat.id by done; done).
  assert (Hu : in_user (target (Call SYS_READ fd pointer len))) by (rewrite Et; done).
  assert (Hrd : forall x, pointer <= x < pointer + Z.of_nat (Z.to_nat len) -> ready (mem s) x) by (intros x Hx; apply Hw; [lia|apply Hpr; lia]).
  apply safe_current, safe_look. destruct (descriptor _ _ _) as [| |pipe|pipe]; try by apply (refuse_good s).
  - apply console_good; try done. lia.
  - apply pipe_read_good; try done. lia.
Qed.

Lemma pipe_good s fuel pointer arg1 arg2 frame : machine_ok s -> request_ok fuel s frame (Call SYS_PIPE pointer arg1 arg2) ->
  safe (pipe_call pointer frame) (good s frame (Call SYS_PIPE pointer arg1 arg2)) (fun _ => False) s.
Proof using Type.
  intros Hm [[Hu _] Hw _ _ _]. assert (Et : target (Call SYS_PIPE pointer arg1 arg2) = (pointer, 16)) by done. rewrite Et in *.
  pose proof Hm as [(fl & Hsp & Hn) Hr Hf Hs Hp].
  destruct (target_pages s (pointer, 16) fl Hu ltac:(done) Hn) as (Hps & Ho & Hin). destruct Hu as (H0 & H1 & H2). cbn [fst snd] in *.
  set (ps := span pointer 16) in *.
  pose proof (accessible_enough 4 (mem s) pointer 16 H0 H1 H2 ltac:(done)) as Hacc. unfold pipe_call.
  destruct (is_user_accessible 4 (mem s) pointer 16) as [b|] eqn:Eb; [|done].
  eapply (safe_bind_run _ _ _ _ s b s); [unfold in_world, in_memory, accessible; rewrite Eb; by destruct s as [[] c o n]|].
  destruct b; [|by apply refuse_good]. cbn [negb].
  assert (Hrd : forall x, pointer <= x < pointer + 16 -> ready (mem s) x /\ page_of x ∈ ps).
  { intros x Hx. split; [|by apply Hin]. apply Hw; [done|]. by apply (accessible_mapped 4 (mem s) roots fl pointer 16 Hsp Hr H0 H2 Eb). }
  apply safe_current, safe_on_tasks. pose proof (steady_make_pipe (CURRENT (kernel s)) (kernel s)) as Hst.
  destruct (make_pipe _ _) as [[[r v]|] t]; cbn [fst snd] in *.
  - assert (Ha : after roots s ps (view (mem s) (root s)) (with_tasks s t)) by (apply after_tasks; [by apply (after_start roots s fl)|done]).
    assert (H8 : forall x, length (le 8 x) = 8%nat) by (intros; apply le_length).
    eapply safe_bind; [apply (after_write roots s ps _ _ pointer (le 8 (Z.of_nat r)) Ha Hr Hps H0); rewrite ?H8; [lia|apply le_bytes|intros x Hx; apply Hrd; lia]|].
    intros [] s2 [Ha2 _]. assert (E8 : pointer +₆₄ 8 = pointer + 8) by (apply wrap_small; unfold in_u, USER_SPACE_END in *; change (2 ^ 64) with 18446744073709551616; lia).
    rewrite E8. eapply safe_bind; [apply (after_write roots s ps _ _ (pointer + 8) (le 8 (Z.of_nat v)) Ha2 Hr Hps ltac:(lia)); rewrite ?H8; [lia|apply le_bytes|intros x Hx; apply Hrd; lia]|].
    intros [] s3 [Ha3 _]. apply safe_ret. split; [|done].
    destruct (after_apart s (pointer, 16) ps _ s3 Hm Ha3) as [Hap Er]; [|split; [by rewrite Et|by right]].
    intros x U Hx. rewrite !(outside_stores _ _ _ (pointer, 16)); rewrite ?H8; cbn [fst snd] in *; (done || lia).
  - apply safe_ret. split; [|done]. apply tasks_only_served; [done|]. by split.
Qed.

Lemma fork_good s stack arg0 arg1 arg2 frame : machine_ok s ->
  safe (child ← in_world (fork_call stack frame); mret (Returns child frame)) (good s frame (Call SYS_FORK arg0 arg1 arg2)) (fun _ => False) s.
Proof using Type.
  intros [(fl & Hsp & Hn) Hr Hf Hs Hp]. eapply safe_bind; [apply safe_lift_world, (fork_call_spec roots (world s) stack frame fl Hsp Hr Hf)|].
  intros v s' (Hc & [Hc' Hcu Hpo] & Hv & roots' & fl' & Hsp' & Hsub & _). cbn [world] in *.
  assert (Er : root s' = root s) by (unfold read_cr3; by rewrite Hc). apply safe_ret. split; [|done]. split; [|by right]. constructor.
  - exists roots'. split_and!; [by exists fl'|rewrite Er; by apply Hsub|intros r ? _; by apply Hsub].
  - congruence.
  - by apply Hpo.
  - intros r va Hr' _ U. by apply Hv.
  - intros va _ U _. by apply Hv.
Qed.

Lemma sigreturn_good s fuel arg0 arg1 arg2 frame : machine_ok s -> request_ok fuel s frame (Call SYS_SIGRETURN arg0 arg1 arg2) ->
  safe (sigreturn frame) (good s frame (Call SYS_SIGRETURN arg0 arg1 arg2)) (fun _ => False) s.
Proof using Type.
  intros Hm [_ _ _ Hsig _]. destruct (Hsig eq_refl) as [(H0 & _ & H1) Hp]. cbn [fst snd] in *. pose proof Hm as [(fl & Hsp & Hn) Hr Hf Hs Hpo].
  destruct (sigreturn_words roots frame s fl Hsp H0 H1 Hp) as (words & E & _). eapply safe_answer; [exact E|]. split; [|done].
  by apply (tasks_only_served s), tasks_only_refl.
Qed.

Lemma exec_good s fuel arg0 arg1 arg2 frame : machine_ok s -> request_ok fuel s frame (Call SYS_EXEC arg0 arg1 arg2) ->
  safe (result ← in_world (exec fuel arg0 arg1 arg2 frame); mret (Returns result.1 result.2)) (good s frame (Call SYS_EXEC arg0 arg1 arg2)) (fun _ => False) s.
Proof using HL.
  intros [(fl & Hsp & Hn) Hr Hf Hs Hp] [[_ (H0 & H1 & H2)] _ _ _ Hex]. cbn [source fst snd Z.eqb SYS_WRITE SYS_EXEC Pos.eqb] in *.
  destruct (Hex eq_refl) as [Hfuel Hclear].
  eapply safe_bind; [apply safe_lift_world, (exec_safe roots fuel arg0 arg1 arg2 frame (world s) fl Hsp Hr Hf Hs H0 H1 H2 Hfuel Hclear)|].
  intros p s' H. cbn [world] in H. apply safe_ret. split; [|done]. split; [|left; by eauto]. destruct H as [[_ [Et Er [fl' Hsp'] Hv]]|H].
  - constructor.
    + exists roots. split_and!; [by exists fl'|by rewrite Er|done].
    + by rewrite Et, Er.
    + by rewrite Et.
    + intros r va Hr' _ U. by apply Hv.
    + intros va _ U _. by apply Hv.
  - destruct H as (bytes & name_ & args & data & fresh & stack & argc & argv & A & _ & _ & _ & _ & [[Hnin Er] [fl' Hsp'] _ _ _ Ho Et]). constructor.
    + eexists. split; [exists fl'; exact Hsp'|]. split; [rewrite Er; by left|]. intros r Hr' Hne. right. by apply elem_of_but.
    + by rewrite Et, Er.
    + rewrite Et. exact Hp.
    + exact Ho.
    + intros va Hc. exfalso. apply Hnin. by rewrite <- Er, Hc.
Qed.

Lemma handle_good s fuel stack number arg0 arg1 arg2 frame : machine_ok s -> request_ok fuel s frame (Call number arg0 arg1 arg2) ->
  safe (handle fuel stack number arg0 arg1 arg2 frame)
    (fun o s' => served s frame (Call number arg0 arg1 arg2) o s' /\ (o = Exits <-> number = SYS_EXIT)) (fun _ => False) s.
Proof using HL.
  intros Hm Hq.
  assert (Hlift : forall m, number <> SYS_EXIT -> safe m (good s frame (Call number arg0 arg1 arg2)) (fun _ => False) s ->
    safe m (fun o s' => served s frame (Call number arg0 arg1 arg2) o s' /\ (o = Exits <-> number = SYS_EXIT)) (fun _ => False) s).
  { intros m Hne H. eapply safe_mono; [exact H| |done]. intros o s' [H1 H2]. split; [done|]. split; intros ?; by exfalso; auto. }
  unfold handle.
  destruct (Z.eqb_spec number SYS_EXIT) as [->|Hne].
  { unfold exit. apply safe_current, safe_on_tasks, safe_ret. split; [|done]. apply (tasks_only_served s); [done|].
    apply tasks_only_with; [apply tasks_only_refl|apply steady_finish]. }
  destruct (Z.eqb_spec number SYS_FORK) as [->|_]; [by apply Hlift, (fork_good s)|].
  destruct (Z.eqb_spec number SYS_EXEC) as [->|_]; [by apply Hlift, (exec_good s)|].
  destruct (Z.eqb_spec number SYS_WAIT) as [->|_]; [apply Hlift; [done|]; apply safe_current, (child_call s); [done|apply steady_wait]|].
  destruct (Z.eqb_spec number SYS_WRITE) as [->|_]; [apply Hlift; [done|]; by apply (write_good s fuel)|].
  destruct (Z.eqb_spec number SYS_READ) as [->|_]; [apply Hlift; [done|]; by apply (read_good s fuel)|].
  destruct (Z.eqb_spec number SYS_PIPE) as [->|_]; [apply Hlift; [done|]; by apply (pipe_good s fuel)|].
  destruct (Z.eqb_spec number SYS_DUP2) as [->|_].
  { apply Hlift; [done|]. apply safe_current, (tasks_call s frame _ _ (fun ok : bool => if ok then arg1 else REFUSED)); [done|apply steady_duplicate]. }
  destruct (Z.eqb_spec number SYS_KILL) as [->|_].
  { apply Hlift; [done|]. apply (tasks_call s frame _ _ (fun ok : bool => if ok then 0 else REFUSED)); [done|apply steady_signal]. }
  destruct (Z.eqb_spec number SYS_SIGNAL) as [->|_].
  { apply Hlift; [done|]. apply safe_current, (tasks_call s frame _ _ (fun ok : bool => if ok then 0 else REFUSED)); [done|].
    destruct (set_signal_handler _ _ _ _). apply steady_modify_task. }
  destruct (Z.eqb_spec number SYS_SIGRETURN) as [->|_]; [apply Hlift; [done|]; by apply (sigreturn_good s fuel)|].
  destruct (Z.eqb_spec number SYS_CLOSE) as [->|_].
  { apply Hlift; [done|]. apply safe_current, (tasks_call s frame _ _ (fun ok : bool => if ok then 0 else REFUSED)); [done|apply steady_close_descriptor]. }
  destruct (Z.eqb_spec number SYS_REPORT_CS) as [->|_]; [|by apply Hlift, (refuse_good s)].
  apply Hlift; [done|]. apply safe_ret. split; [|done]. by apply (tasks_only_served s), tasks_only_refl.
Qed.

Lemma continue_good s fuel (w : Wait) frame : machine_ok s -> request_ok fuel s frame (Resume w) ->
  safe (continue_call w frame) (good s frame (Resume w)) (fun _ => False) s.
Proof using Type.
  intros Hm [[Hut Hus] Hw Hres _ _]. pose proof Hm as [(fl & Hsp & Hn) Hr Hf Hs Hp].
  destruct w as [child|pipe pointer size|pipe pointer size written|pointer size]; cbn [continue_call].
  - apply safe_look. destruct (gone _); [|by apply (sleep_good s)]. apply safe_current, (child_call s); [done|apply steady_wait_turn].
  - destruct Hres as [Hl Hpr]. apply safe_look. destruct (can_read _); [|by apply (sleep_good s)].
    apply pipe_read_good; try done. intros x Hx. apply Hw; [done|]. by apply Hpr.
  - apply safe_look. destruct (can_write _); [|by apply (sleep_good s)]. destruct Hus as (H0 & _ & H1). cbn [source fst snd] in *.
    eapply safe_mono; [apply (pipe_write_spec roots s pipe pointer size frame fl Hsp Hp H0 H1 Hres); [apply tasks_only_refl|lia]| |done].
    intros o s' [Ht Ha]. by apply (answers_good s).
  - destruct Hres as [Hl Hpr]. apply console_good; try done. intros x Hx. apply Hw; [done|]. by apply Hpr.
Qed.

End every_call.
