(* ===== verification/Delivery.v ===== *)
(** * Signals through the program's memory

    [deliver] and [sigreturn] of a system call, over the page tables: the
    frame goes to the program's own stack, copied first where [fork] shared
    it, and comes back. *)

From S2P Require Import Input.
From S2P Require Import Prelude Bytes Disk Pages Replace Swap Policy Sched TaskTable Pipe Signal Kernel Fat FatTable FatProps Memory PageTables Spaces UserPages Sharing Cow CowRun Destroy Access Elf ElfSpec User UserSpec Exec Fault Syscall Steady SyscallSpec.

#[local] Arguments Z.mul : simpl never.
#[local] Arguments Z.add : simpl never.
#[local] Arguments Z.pow : simpl never.
#[local] Arguments le : simpl never.

(** The bytes of a list of words. *)
Definition words_bytes (words : list Z) : list Z := mjoin (map (le 8) words).

Lemma words_bytes_app l1 l2 : words_bytes (l1 ++ l2) = words_bytes l1 ++ words_bytes l2.
Proof. unfold words_bytes. rewrite map_app. induction (map (le 8) l1) as [|x l IH]; cbn; [done|]. rewrite <- (assoc_L (++)). f_equal. exact IH. Qed.
Lemma words_bytes_one w : words_bytes [w] = le 8 w.
Proof. unfold words_bytes. cbn. by rewrite app_nil_r. Qed.
Lemma words_bytes_length words : length (words_bytes words) = (8 * length words)%nat.
Proof.
  induction words as [|w words IH]; [done|]. change (w :: words) with ([w] ++ words). rewrite words_bytes_app, words_bytes_one, !length_app, IH, le_length. cbn. lia.
Qed.
Lemma words_bytes_ok words : Forall is_byte (words_bytes words).
Proof. unfold words_bytes. apply Forall_join, Forall_map, Forall_true. intros w. apply le_bytes. Qed.
Lemma words_bytes_lookup words : forall i j, (i < length words)%nat -> (j < 8)%nat -> words_bytes words !! (8 * i + j)%nat = le 8 (words !!! i) !! j.
Proof.
  induction words as [|w words IH]; intros i j Hi Hj; [cbn in Hi; lia|]. change (words_bytes (w :: words)) with (le 8 w ++ words_bytes words).
  destruct i as [|i]; cbn [lookup_total list_lookup_total].
  - rewrite lookup_app_l by (rewrite le_length; lia). done.
  - rewrite lookup_app_r by (rewrite le_length; lia). rewrite le_length. replace (8 * S i + j - 8)%nat with (8 * i + j)%nat by lia. apply IH; [cbn in Hi; lia|done].
Qed.

Lemma stores_app va l1 l2 A x : stores (va + Z.of_nat (length l1)) l2 (stores va l1 A) x = stores va (l1 ++ l2) A x.
Proof.
  revert va A. induction l1 as [|b l1 IH]; intros va A; cbn [app].
  - cbn [length]. rewrite Z.add_0_r. unfold stores at 1. by rewrite stores_nil.
  - rewrite <- stores_cons, <- IH. replace (va + 1 + Z.of_nat (length l1)) with (va + Z.of_nat (length (b :: l1))) by (cbn [length]; lia).
    unfold stores at 1 3. case_match; [done|]. by rewrite stores_cons.
Qed.

Lemma for_each_app {S A} (l1 l2 : list A) (body : A -> io S unit) (s : S) : for_each (l1 ++ l2) body s = (_ ← for_each l1 body; for_each l2 body) s.
Proof.
  revert s. induction l1 as [|x l1 IH]; intros s; [done|]. cbn [app for_each]. unfold mbind, io_bind. destruct (body x s) as [[[]|e|] s1]; [|done..].
  rewrite IH. unfold mbind, io_bind. done.
Qed.

Section delivery.
Context {D : Type} `{!Disk D} (roots : list Z).
Implicit Types (s : System D) (w : World D).

Abbreviation kernel s := (tasks (world s)).
Abbreviation mem s := (memory (world s)).
Abbreviation root s := (read_cr3 (memory (world s))).

Abbreviation store_word := (fun st : Z * Z => in_world (write_user st.1 (le 8 st.2)) : io (System D) unit).

(** Consecutive words are stored as the run of their bytes. *)
Lemma store_words s ps A s1 base words : forall done_ : list Z, after roots s ps A s1 -> root s ∈ roots -> pages ps ->
  0 <= base -> base + 8 * Z.of_nat (length done_ + length words) <= USER_SPACE_END ->
  (forall x, base <= x < base + 8 * Z.of_nat (length done_ + length words) -> ready (mem s) x /\ page_of x ∈ ps) ->
  safe (for_each (imap (fun i word => (word_at base (length done_ + i), word)) words) store_word)
    (fun _ s' => after roots s ps (stores (base + 8 * Z.of_nat (length done_)) (words_bytes words) A) s' /\ kernel s' = kernel s1) (fun _ => False) s1.
Proof using Type.
  revert A s1. induction words as [|w words IH]; intros A s1 done_ Ha Hr Hps H0 H1 Hrd; cbn [imap for_each].
  - apply safe_ret. split; [|done]. destruct Ha as [Hw Hs]. constructor; [|done]. eapply wrote_ext; [|exact Hw]. intros x _. apply stores_nil.
  - cbn [length] in *. rewrite Nat.add_0_r. set (n := length done_) in *.
    assert (Ew : word_at base n = base + 8 * Z.of_nat n).
    { unfold word_at. rewrite wrap_small; [lia|]. unfold in_u, USER_SPACE_END in *. change (2 ^ 64) with 18446744073709551616. lia. }
    eapply safe_bind; [rewrite Ew; apply (after_write roots s ps A s1 (base + 8 * Z.of_nat n) (le 8 w) Ha Hr Hps); rewrite ?le_length; [lia|lia|apply le_bytes|intros x Hx; apply Hrd; lia]|].
    intros [] s2 (Ha2 & Ek & _).
    assert (El : imap ((fun i word => (word_at base (n + i), word)) ∘ S) words = imap (fun i word => (word_at base (length (done_ ++ [w]) + i), word)) words).
    { apply imap_ext. intros i x _. cbn [compose]. do 2 f_equal. rewrite length_app. cbn. unfold n. lia. }
    rewrite El. assert (Ed : length (done_ ++ [w]) = S n) by (rewrite length_app; cbn; unfold n; lia).
    eapply safe_mono; [apply (IH _ s2 (done_ ++ [w]) Ha2 Hr Hps H0); rewrite Ed; [lia|intros x Hx; apply Hrd; lia]| |done].
    intros [] s3 [[Hw Hs] Ek3]. split; [|congruence]. constructor; [|done]. eapply wrote_ext; [|exact Hw]. intros x _. rewrite Ed.
    change (words_bytes (w :: words)) with (le 8 w ++ words_bytes words). rewrite <- stores_app, le_length.
    replace (base + 8 * Z.of_nat n + Z.of_nat 8) with (base + 8 * Z.of_nat (S n)) by lia. done.
Qed.

(** What is on the stack after a delivery: the return address, then the
    frame. *)
Definition delivered (frame : list Z) (restorer' saved : Z) (A : Image) : Image :=
  stores (saved - 8) (le 8 restorer') (stores saved (words_bytes frame) A).

Lemma delivered_frame frame restorer' saved A i j : (i < length frame)%nat -> (j < 8)%nat ->
  delivered frame restorer' saved A (saved + 8 * Z.of_nat i + Z.of_nat j) = le 8 (frame !!! i) !! j.
Proof using Type.
  intros Hi Hj. unfold delivered. rewrite stores_out by (rewrite le_length; lia). unfold stores.
  rewrite words_bytes_length, (proj2 (Z.leb_le _ _)), (proj2 (Z.ltb_lt _ _)) by lia. cbn [andb].
  replace (Z.to_nat (saved + 8 * Z.of_nat i + Z.of_nat j - saved)) with (8 * i + j)%nat by lia.
  rewrite <- words_bytes_lookup by done. symmetry. apply list_lookup_lookup_total_lt. rewrite words_bytes_length. lia.
Qed.

Lemma delivered_return frame restorer' saved A j : (j < 8)%nat -> delivered frame restorer' saved A (saved - 8 + Z.of_nat j) = le 8 restorer' !! j.
Proof using Type.
  intros Hj. unfold delivered, stores at 1. rewrite le_length, (proj2 (Z.leb_le _ _)), (proj2 (Z.ltb_lt _ _)) by lia. cbn [andb].
  replace (Z.to_nat (saved - 8 + Z.of_nat j - (saved - 8))) with j by lia. symmetry. apply list_lookup_lookup_total_lt. by rewrite le_length.
Qed.

(** The stores of a delivery. *)
Lemma deliver_spec s ps A s1 frame t t' frame' ws : enters t frame t' frame' ws -> length frame = FRAME_WORDS -> 176 <= frame !!! RSP <= USER_SPACE_END ->
  after roots s ps A s1 -> root s ∈ roots -> pages ps ->
  (forall x, frame' !!! RSP <= x < frame !!! RSP -> ready (mem s) x /\ page_of x ∈ ps) ->
  safe (for_each ws store_word) (fun _ s' => after roots s ps (delivered frame (restorer t') (saved_at (frame !!! RSP)) A) s' /\ kernel s' = kernel s1) (fun _ => False) s1.
Proof using Type.
  intros He Hlen Hsp Ha Hr Hps Hrd. assert (H64 : 176 <= frame !!! RSP < 2 ^ 64).
  { unfold USER_SPACE_END in Hsp. change (2 ^ 64) with 18446744073709551616. lia. }
  destruct (enters_below _ _ _ _ _ He Hlen H64) as [Ersp _]. destruct (enters_inv _ _ _ _ _ He) as (signal & _ & _ & _ & _ & _ & _ & ->).
  destruct (saved_at_bounds _ H64) as (_ & Hlo & Hhi). set (saved := saved_at (frame !!! RSP)) in *. rewrite Ersp in Hrd. unfold FRAME_WORDS in Hlen.
  unfold safe. rewrite for_each_app. fold (safe (_ ← for_each (save_frame saved frame) store_word; for_each [(saved -₆₄ 8, restorer t')] store_word)
    (fun _ s' => after roots s ps (delivered frame (restorer t') saved A) s' /\ kernel s' = kernel s1) (fun _ => False) s1).
  eapply safe_bind; [apply (store_words s ps A s1 saved frame [] Ha Hr Hps); rewrite ?Hlen; cbn [length]; [lia|lia|intros x Hx; apply Hrd; lia]|].
  intros [] s2 [Ha2 Ek2]. cbn [for_each fst snd]. cbn [length] in Ha2. replace (saved + 8 * Z.of_nat 0) with saved in Ha2 by lia.
  assert (E8 : saved -₆₄ 8 = saved - 8) by (apply wrap_small; unfold in_u; lia). rewrite E8.
  eapply safe_bind; [apply (after_write roots s ps _ s2 (saved - 8) (le 8 (restorer t')) Ha2 Hr Hps); rewrite ?le_length; [lia|lia|apply le_bytes|intros x Hx; apply Hrd; lia]|].
  intros [] s3 (Ha3 & Ek3 & _). apply safe_ret. split; [exact Ha3|congruence].
Qed.

(** Memory that still holds a saved frame gives it back. *)
Lemma sigreturn_restores s frame frame2 saved fl : space (mem s) roots fl -> length frame = FRAME_WORDS -> Forall (in_u 64) frame ->
  frame2 !!! RSP = saved -> 0 <= saved -> saved + 160 <= USER_SPACE_END ->
  (forall i j, (i < FRAME_WORDS)%nat -> (j < 8)%nat -> view (mem s) (root s) (saved + 8 * Z.of_nat i + Z.of_nat j) = le 8 (frame !!! i) !! j) ->
  sigreturn frame2 s = (Ok (Returns (frame !!! RAX) frame), s).
Proof using Type.
  intros Hsp Hlen Hu Ersp H0 H1 Hv. destruct (sigreturn_words roots frame2 s fl Hsp) as (words & E & Hl & Hwu & Hw); rewrite ?Ersp; try done.
  - intros x Hx. unfold FRAME_WORDS in *. assert (Hsome : is_Some (view (mem s) (root s) x)); [|unfold view in Hsome; by destruct (has _ PRESENT); [|destruct Hsome]].
    pose proof (Z.div_mod (x - saved) 8 ltac:(done)). pose proof (Z.mod_pos_bound (x - saved) 8 ltac:(done)).
    replace x with (saved + 8 * Z.of_nat (Z.to_nat ((x - saved) / 8)) + Z.of_nat (Z.to_nat ((x - saved) mod 8))) by lia.
    rewrite Hv by lia. apply lookup_lt_is_Some. rewrite le_length. lia.
  - rewrite Ersp in Hw. assert (Ew : words = frame); [|by rewrite E, Ew].
    apply (list_eq_same_length _ _ FRAME_WORDS); [done|done|]. intros i x y Hi Hx Hy.
    assert (Ex : words !!! i = x) by (by apply list_lookup_total_correct). assert (Ey : frame !!! i = y) by (by apply list_lookup_total_correct).
    assert (Ele : le 8 x = le 8 y).
    { apply (list_eq_same_length _ _ 8); [apply le_length|apply le_length|]. intros j a b Hj Ha Hb. apply Some_inj. rewrite <- Ha, <- Hb, <- Ex, <- Ey, <- Hw, <- Hv by done. done. }
    pose proof (Forall_lookup_1 _ _ _ _ Hwu Hx) as Bx. pose proof (Forall_lookup_1 _ _ _ _ Hu Hy) as By.
    rewrite <- (unle_le 8 x), <- (unle_le 8 y) by (exact Bx || exact By). by rewrite Ele.
Qed.
End delivery.

Section round_trip.
Context {D : Type} `{!Disk D} (roots : list Z).
Implicit Types (s : System D) (w : World D).

Abbreviation kernel s := (tasks (world s)).
Abbreviation mem s := (memory (world s)).
Abbreviation root s := (read_cr3 (memory (world s))).
Abbreviation store_word := (fun st : Z * Z => in_world (write_user st.1 (le 8 st.2)) : io (System D) unit).

(** C28: a caught signal is a detour through the program's own stack. On the
    way out of a call, with a handler for what is pending and the stack
    writable below the stack pointer (pages shared by [fork] are copied
    first): the frame that is resumed enters the handler on a stack whose top
    word is the restorer's address, no other program notices, and the caller's
    memory changes only between the new stack pointer and the old; and
    whenever the program later asks for [sigreturn] with that word popped and
    the saved frame still on its stack, whatever else has happened to the
    machine since, the frame comes back word for word. *)
Theorem signals_return_through_memory s frame t' frame' ws : machine_ok roots s ->
  enters (TASKS (kernel s) !!! CURRENT (kernel s)) frame t' frame' ws -> length frame = FRAME_WORDS -> Forall (in_u 64) frame ->
  176 <= frame !!! RSP <= USER_SPACE_END -> (forall x, frame' !!! RSP <= x < frame !!! RSP -> ready (mem s) x) ->
  exists s', deliver_signal (CURRENT (kernel s)) frame s = (Ok (false, frame'), s') /\
    apart roots s (frame' !!! RSP, frame !!! RSP - frame' !!! RSP) s' /\ root s' = root s /\
    (forall j, (j < 8)%nat -> view (mem s') (root s') (frame' !!! RSP + Z.of_nat j) = le 8 (restorer t') !! j) /\
    forall roots2 fl2 s2 frame2, space (mem s2) roots2 fl2 -> at_sigreturn frame' frame2 ->
      (forall x, frame' !!! RSP + 8 <= x < frame !!! RSP -> view (mem s2) (root s2) x = view (mem s') (root s') x) ->
      sigreturn frame2 s2 = (Ok (Returns (frame !!! RAX) frame), s2).
Proof using Type.
  intros Hm He Hlen Hu Hsp Hrd. pose proof Hm as [(fl & Hspc & Hn) Hr Hf Hs Hp].
  assert (H64 : 176 <= frame !!! RSP < 2 ^ 64) by (unfold USER_SPACE_END in Hsp; change (2 ^ 64) with 18446744073709551616; lia).
  destruct (enters_below _ _ _ _ _ He Hlen H64) as [Ersp _]. pose proof (saved_at_bounds _ H64) as (Hal & Hlo & Hhi).
  assert (Hlow : frame !!! RSP - saved_at (frame !!! RSP) <= 175).
  { unfold saved_at in *. change (Z.of_nat FRAME_WORDS * 8) with 160 in *. rewrite (wrap_small 64 (frame !!! RSP - 160)) in * by (unfold in_u; lia).
    pose proof (clear_15 (frame !!! RSP - 160)). lia. }
  set (saved := saved_at (frame !!! RSP)) in *. set (lo := frame' !!! RSP) in *. set (sp := frame !!! RSP) in *.
  set (ps := span lo (sp - lo)). assert (Hps : pages ps) by (apply span_pages; lia).
  assert (Ho : (owed (mem s) ps <= length fl)%nat) by (pose proof (span_owed (mem s) lo (sp - lo)) as Hso; fold ps in Hso; lia).
  destruct (deliver (TASKS (kernel s) !!! CURRENT (kernel s)) frame) as [[[k1 t1] f1] w1] eqn:Ed.
  assert (E4 : (k1, t1, f1, w1) = (false, t', frame', ws)) by (rewrite <- Ed; apply He). injection E4 as -> -> -> ->.
  set (f := fun t : Kernel => let '(kill, task, frame, stores) := deliver (TASKS t !!! CURRENT (kernel s)) frame in
                         ((kill, frame, stores), modify_task (CURRENT (kernel s)) (fun _ => task) t)).
  set (s1 := with_tasks s (f (kernel s)).2). assert (Hf1 : f (kernel s) = ((false, frame', ws), (f (kernel s)).2)) by (unfold f; by rewrite Ed).
  assert (Ha1 : after roots s ps (view (mem s) (root s)) s1).
  { apply after_tasks; [by apply (after_start roots s fl)|]. unfold f. rewrite Ed. apply steady_modify_task. }
  pose proof (deliver_spec roots s ps _ s1 frame _ t' frame' ws He Hlen Hsp Ha1 Hr Hps) as Hd. unfold safe in Hd.
  destruct (for_each ws store_word s1) as [[[]|e|] s'] eqn:El; [|exfalso; apply Hd..].
  2-3: intros x Hx; split; [by apply Hrd|apply span_covers; unfold PAGE_SIZE; lia].
  destruct Hd as [Ha' _]; [intros x Hx; split; [by apply Hrd|apply span_covers; unfold PAGE_SIZE; lia]|]. fold sp saved in Ha'.
  assert (Hview : forall x, user x -> view (mem s') (root s') x = delivered frame (restorer t') saved (view (mem s) (root s)) x).
  { intros x U. pose proof (wo_view _ _ _ _ _ (af_wrote _ _ _ _ _ Ha') x U) as Hv. pose proof (wrote_root _ _ _ _ _ (af_wrote _ _ _ _ _ Ha')) as Er. cbn [memory] in *. by rewrite Er. }
  exists s'. split; [|].
  - unfold deliver_signal. rewrite (io_bind_run (on_tasks f) _ s (false, frame', ws) s1) by (rewrite on_tasks_run, Hf1; done).
    by rewrite (io_bind_run _ _ s1 tt s' El).
  - destruct (after_apart roots s (lo, sp - lo) ps _ s' Hm Ha') as [Hap Er].
    { intros x U Hx. cbn [fst snd] in Hx. unfold delivered. rewrite stores_out by (rewrite le_length; lia). rewrite stores_out; [done|].
      rewrite words_bytes_length, Hlen. unfold FRAME_WORDS. lia. }
    split; [done|]. split; [done|]. split.
    + intros j Hj. rewrite Hview by (unfold user; lia). replace (lo + Z.of_nat j) with (saved - 8 + Z.of_nat j) by lia. by apply delivered_return.
    + intros roots2 fl2 s2 frame2 Hsp2 Hret Hsame. unfold FRAME_WORDS in *.
      apply (sigreturn_restores roots2 s2 frame frame2 saved fl2 Hsp2); unfold FRAME_WORDS; try done; [unfold at_sigreturn in Hret; fold lo in Hret; lia|lia|lia|].
      intros i j Hi Hj. rewrite Hsame by lia. rewrite Hview by (unfold user; lia). apply delivered_frame; [by rewrite Hlen|done].
Qed.
End round_trip.
