(* ===== verification/SyscallRun.v ===== *)
(** * System calls on a machine

    The program of [UserRun] reads a pipe into its page. *)

From S2P Require Import Input.
From S2P Require Import Prelude Bytes Disk Pages Replace Swap Policy Sched TaskTable Pipe Signal Kernel Resume Fat FatTable FatDir FatFile FatSpec FatFiles FatProps FatRun Memory PageTables Spaces UserPages Sharing Cow CowRun Boot Access Elf ElfSpec ElfRun User UserSpec Exec UserRun Fault Syscall Steady SyscallSpec Delivery.

#[local] Arguments Z.pow : simpl never.
#[local] Arguments load : simpl never.

(** The memory of the caller of [UserRun], which has one page. *)
Definition home : Mem Platter := memory caller.

(** The first task has a pipe on its descriptors 0 and 1, and two bytes in it. *)
Definition told : Kernel :=
  modify_pipe 0 (fun p => (write_attempt [104; 105] p).2) (make_pipe 0 (idle <| Kernel.CR3 := ROOT |>)).2.
Definition reader : System Platter := mkSystem (mkWorld Platter told home) Console_init [] 0.
Definition request : Request := Call SYS_READ 0 BLOB 2.

Lemma reader_ok : machine_ok [ROOT] reader.
Proof.
  constructor.
  - destruct caller_space as (fl & Hsp). exists fl. split; [exact Hsp|].
    pose proof (so_count _ _ _ (sp_sound _ _ _ Hsp)) as [Hn _]. assert (Hc : free (ALLOCATOR (memory caller)) = 20) by (vm_compute; reflexivity).
    change (memory (world reader)) with home. rewrite Hc in Hn. clear -Hn. lia.
  - assert (E : read_cr3 (memory (world reader)) = ROOT) by (vm_compute; reflexivity). rewrite E. left.
  - done.
  - vm_compute. reflexivity.
  - assert (H : pipes_ok idle) by (apply Forall_replicate, Forall_replicate; by unfold is_byte).
    apply (steady_pipe 0); [intros p Hp; apply write_attempt_bytes; [by repeat constructor|exact Hp]|].
    apply (steady_make_pipe 0). exact H.
Qed.

Lemma request_allowed : request_ok 3 reader asked request.
Proof.
  assert (Et : target request = (32752, 2)) by reflexivity. assert (Es : source asked request = (0, 0)) by reflexivity.
  constructor; rewrite ?Et, ?Es.
  - unfold in_user, USER_SPACE_END. cbn [fst snd]. lia.
  - intros x Hx _. cbn [fst snd] in Hx. assert (E : x = 32752 \/ x = 32753) by lia. clear Hx.
    destruct E as [->| ->]; vm_compute; split; (reflexivity || (left; reflexivity)).
  - exact I.
  - intros H. discriminate H.
  - intros H. discriminate H.
Qed.


(** A program interrupted in its page with a signal to catch. *)
Definition taught : Kernel := modify_task 0 (fun _ => caught) (idle <| Kernel.CR3 := ROOT |>).
Definition interrupted : System Platter := mkSystem (mkWorld Platter taught home) Console_init [] 0.
Definition stopped : list Z := <[RSP := 32760]> ring3_frame.

Lemma interrupted_ok : machine_ok [ROOT] interrupted.
Proof.
  destruct reader_ok as [Hsp Hr Hf _ _]. constructor; [exact Hsp|exact Hr|exact Hf|vm_compute; reflexivity|].
  assert (H : pipes_ok idle) by (apply Forall_replicate, Forall_replicate; by unfold is_byte). exact H.
Qed.

Lemma page_ready x : 28672 <= x < 32768 -> ready home x.
Proof.
  intros Hx. assert (H : ready home BLOB) by (vm_compute; split; [reflexivity|left; reflexivity]).
  assert (E : page_of x = page_of BLOB).
  { rewrite !page_of_div. change (BLOB / 4096) with 7. f_equal. symmetry. apply (Z.div_unique x 4096 7 (x - 28672)); lia. }
  unfold ready in *. by rewrite (same_page_leaf _ _ x BLOB) by (unfold user, USER_SPACE_END, BLOB; lia || exact E).
Qed.

(** Delivered, and back by [sigreturn]. *)
Lemma signals_return_through_memory_witness :
  let entered := (deliver caught stopped).1.2 in
  exists s', deliver_signal 0 stopped interrupted = (Ok (false, entered), s') /\
    sigreturn (<[RSP := entered !!! RSP + 8]> entered) s' = (Ok (Returns 7 stopped), s').
Proof.
  intros entered. destruct (deliver caught stopped) as [[[k t'] frame'] ws] eqn:E. cbn [fst snd] in entered.
  assert (Ek : k = false) by (vm_compute in E; congruence). subst k.
  assert (Ew : length ws = 21%nat) by (vm_compute in E; injection E as <- <- <-; reflexivity).
  assert (El : length frame' = 20%nat /\ frame' !!! RSP = 32584) by (vm_compute in E; injection E as <- <- <-; split; reflexivity). destruct El as [El Ersp].
  assert (He : enters (TASKS (tasks (world interrupted)) !!! CURRENT (tasks (world interrupted))) stopped t' frame' ws).
  { assert (Et : TASKS (tasks (world interrupted)) !!! CURRENT (tasks (world interrupted)) = caught) by reflexivity. rewrite Et. split; [exact E|]. intros ->. discriminate Ew. }
  assert (Hu : Forall (in_u 64) stopped) by (repeat constructor; unfold in_u; vm_compute; (discriminate || reflexivity)).
  assert (Hsp : 176 <= stopped !!! RSP <= USER_SPACE_END) by (vm_compute; split; discriminate).
  assert (Hrd : forall x, frame' !!! RSP <= x < stopped !!! RSP -> ready (memory (world interrupted)) x).
  { intros x Hx. apply page_ready. rewrite Ersp in Hx. change (stopped !!! RSP) with 32760 in Hx. lia. }
  destruct (signals_return_through_memory [ROOT] interrupted stopped t' frame' ws interrupted_ok He eq_refl Hu Hsp Hrd) as (s' & Ed & [(roots' & [fl' Hs'] & _) _ _ _ _] & _ & _ & Hback).
  exists s'. split; [exact Ed|]. apply (Hback roots' fl' s' _ Hs'); [|reflexivity].
  unfold at_sigreturn, entered. rewrite list_insert_total by (rewrite El; unfold RSP; lia). by rewrite decide_True.
Defined.
