(* ===== verification/Screen.v ===== *)
(** * The screen: [kernel/src/framebuffer.rs] and [kernel/src/font.rs]

    A text console drawn into the bytes of a frame buffer: where the cursor
    is, how a glyph becomes pixels, how a line wraps and the screen scrolls.
    [Terminal] is what the code promises, characters in cells; the frame
    buffer is proved to be its picture, byte for byte. *)

From S2P Require Import Prelude.

#[local] Open Scope nat_scope.
#[local] Arguments Nat.ltb : simpl never.
#[local] Arguments Nat.leb : simpl never.
#[local] Arguments Nat.div : simpl never.

(** ** The font *)

Definition WIDTH : nat := 8.
Definition HEIGHT : nat := 16.
Definition FIRST : Z := 32.
Definition LAST : Z := 126.

Definition GLYPHS : list (list Z) :=
  [[0; 0; 0; 0; 0; 0; 0; 0; 0; 0; 0; 0; 0; 0; 0; 0];
   [0; 0; 0; 0; 24; 24; 24; 24; 24; 24; 0; 24; 24; 0; 0; 0];
   [0; 0; 0; 100; 100; 100; 100; 0; 0; 0; 0; 0; 0; 0; 0; 0];
   [0; 0; 0; 0; 18; 22; 127; 36; 36; 254; 104; 72; 72; 0; 0; 0];
   [0; 0; 0; 0; 0; 60; 104; 64; 56; 28; 2; 70; 60; 0; 0; 0];
   [0; 0; 0; 0; 112; 144; 144; 118; 24; 206; 11; 11; 14; 0; 0; 0];
   [0; 0; 0; 0; 60; 96; 32; 48; 89; 203; 198; 70; 58; 0; 0; 0];
   [0; 0; 0; 24; 24; 24; 24; 0; 0; 0; 0; 0; 0; 0; 0; 0];
   [0; 0; 8; 8; 16; 16; 16; 48; 48; 16; 16; 16; 8; 8; 0; 0];
   [0; 0; 48; 16; 24; 8; 8; 8; 8; 8; 8; 24; 16; 48; 0; 0];
   [0; 0; 0; 0; 0; 16; 16; 86; 60; 60; 86; 16; 16; 0; 0; 0];
   [0; 0; 0; 0; 0; 0; 24; 24; 126; 24; 24; 24; 0; 0; 0; 0];
   [0; 0; 0; 0; 0; 0; 0; 0; 0; 0; 0; 24; 24; 48; 48; 0];
   [0; 0; 0; 0; 0; 0; 0; 0; 126; 0; 0; 0; 0; 0; 0; 0];
   [0; 0; 0; 0; 0; 0; 0; 0; 0; 0; 56; 56; 56; 0; 0; 0];
   [0; 0; 0; 0; 6; 4; 12; 8; 8; 16; 16; 48; 32; 96; 64; 0];
   [0; 0; 0; 60; 100; 70; 78; 90; 82; 114; 102; 100; 60; 0; 0; 0];
   [0; 0; 0; 0; 56; 120; 8; 8; 8; 8; 8; 8; 62; 0; 0; 0];
   [0; 0; 0; 0; 60; 68; 6; 4; 12; 24; 48; 96; 126; 0; 0; 0];
   [0; 0; 0; 0; 60; 68; 6; 4; 60; 6; 6; 70; 60; 0; 0; 0];
   [0; 0; 0; 0; 12; 28; 20; 36; 100; 68; 126; 4; 4; 0; 0; 0];
   [0; 0; 0; 0; 124; 96; 96; 124; 4; 6; 6; 68; 56; 0; 0; 0];
   [0; 0; 0; 0; 60; 96; 64; 124; 102; 66; 66; 102; 60; 0; 0; 0];
   [0; 0; 0; 0; 126; 6; 4; 12; 8; 24; 24; 16; 48; 0; 0; 0];
   [0; 0; 0; 0; 60; 102; 70; 100; 60; 102; 66; 102; 60; 0; 0; 0];
   [0; 0; 0; 0; 60; 100; 70; 70; 102; 62; 6; 4; 56; 0; 0; 0];
   [0; 0; 0; 0; 0; 0; 24; 24; 0; 0; 0; 24; 24; 0; 0; 0];
   [0; 0; 0; 0; 0; 0; 24; 24; 0; 0; 0; 24; 24; 48; 48; 0];
   [0; 0; 0; 0; 0; 0; 2; 28; 96; 96; 28; 2; 0; 0; 0; 0];
   [0; 0; 0; 0; 0; 0; 0; 254; 0; 0; 254; 0; 0; 0; 0; 0];
   [0; 0; 0; 0; 0; 0; 64; 56; 14; 14; 56; 64; 0; 0; 0; 0];
   [0; 0; 0; 0; 60; 6; 6; 12; 24; 16; 0; 16; 16; 0; 0; 0];
   [0; 0; 0; 0; 60; 98; 66; 207; 147; 147; 147; 206; 64; 96; 30; 0];
   [0; 0; 0; 0; 24; 24; 60; 44; 36; 102; 126; 66; 194; 0; 0; 0];
   [0; 0; 0; 0; 124; 70; 70; 124; 70; 66; 66; 70; 124; 0; 0; 0];
   [0; 0; 0; 0; 28; 34; 96; 64; 64; 64; 96; 34; 28; 0; 0; 0];
   [0; 0; 0; 0; 120; 68; 70; 66; 66; 66; 70; 68; 120; 0; 0; 0];
   [0; 0; 0; 0; 126; 96; 96; 126; 96; 96; 96; 96; 126; 0; 0; 0];
   [0; 0; 0; 0; 126; 96; 96; 126; 96; 96; 96; 96; 96; 0; 0; 0];
   [0; 0; 0; 0; 60; 98; 64; 64; 78; 66; 66; 98; 60; 0; 0; 0];
   [0; 0; 0; 0; 66; 66; 66; 126; 66; 66; 66; 66; 66; 0; 0; 0];
   [0; 0; 0; 0; 126; 24; 24; 24; 24; 24; 24; 24; 126; 0; 0; 0];
   [0; 0; 0; 0; 60; 4; 4; 4; 4; 4; 4; 76; 120; 0; 0; 0];
   [0; 0; 0; 0; 66; 68; 72; 112; 120; 72; 76; 70; 66; 0; 0; 0];
   [0; 0; 0; 0; 96; 96; 96; 96; 96; 96; 96; 96; 126; 0; 0; 0];
   [0; 0; 0; 0; 198; 230; 238; 170; 154; 146; 130; 130; 130; 0; 0; 0];
   [0; 0; 0; 0; 194; 226; 226; 242; 210; 218; 206; 206; 198; 0; 0; 0];
   [0; 0; 0; 0; 60; 102; 70; 66; 66; 66; 70; 102; 60; 0; 0; 0];
   [0; 0; 0; 0; 124; 102; 98; 98; 102; 124; 96; 96; 96; 0; 0; 0];
   [0; 0; 0; 0; 60; 102; 70; 66; 66; 66; 70; 102; 60; 12; 4; 0];
   [0; 0; 0; 0; 124; 70; 70; 70; 124; 76; 70; 66; 67; 0; 0; 0];
   [0; 0; 0; 0; 60; 96; 64; 96; 60; 6; 2; 70; 60; 0; 0; 0];
   [0; 0; 0; 0; 255; 24; 24; 24; 24; 24; 24; 24; 24; 0; 0; 0];
   [0; 0; 0; 0; 66; 66; 66; 66; 66; 66; 66; 102; 60; 0; 0; 0];
   [0; 0; 0; 0; 194; 66; 70; 100; 36; 36; 60; 24; 24; 0; 0; 0];
   [0; 0; 0; 0; 131; 131; 194; 218; 90; 90; 110; 102; 102; 0; 0; 0];
   [0; 0; 0; 0; 66; 102; 60; 24; 24; 60; 36; 102; 194; 0; 0; 0];
   [0; 0; 0; 0; 194; 102; 36; 60; 24; 24; 24; 24; 24; 0; 0; 0];
   [0; 0; 0; 0; 126; 6; 4; 12; 24; 16; 32; 96; 126; 0; 0; 0];
   [0; 0; 12; 8; 8; 8; 8; 8; 8; 8; 8; 8; 8; 12; 0; 0];
   [0; 0; 0; 0; 64; 96; 32; 48; 16; 16; 8; 8; 12; 4; 6; 0];
   [0; 0; 56; 24; 24; 24; 24; 24; 24; 24; 24; 24; 24; 56; 0; 0];
   [0; 0; 0; 0; 24; 36; 66; 0; 0; 0; 0; 0; 0; 0; 0; 0];
   [0; 0; 0; 0; 0; 0; 0; 0; 0; 0; 0; 0; 0; 0; 255; 0];
   [0; 0; 0; 48; 16; 0; 0; 0; 0; 0; 0; 0; 0; 0; 0; 0];
   [0; 0; 0; 0; 0; 0; 60; 68; 6; 62; 70; 70; 62; 0; 0; 0];
   [0; 0; 64; 64; 64; 64; 124; 102; 98; 66; 98; 102; 124; 0; 0; 0];
   [0; 0; 0; 0; 0; 0; 28; 34; 96; 96; 96; 34; 28; 0; 0; 0];
   [0; 0; 6; 6; 6; 6; 62; 102; 70; 70; 70; 102; 62; 0; 0; 0];
   [0; 0; 0; 0; 0; 0; 60; 102; 126; 64; 64; 96; 62; 0; 0; 0];
   [0; 0; 14; 24; 16; 16; 126; 16; 16; 16; 16; 16; 16; 0; 0; 0];
   [0; 0; 0; 0; 0; 0; 62; 102; 70; 70; 70; 102; 62; 6; 4; 56];
   [0; 0; 64; 64; 64; 64; 124; 102; 102; 70; 70; 70; 70; 0; 0; 0];
   [0; 0; 0; 8; 0; 0; 56; 8; 8; 8; 8; 8; 126; 0; 0; 0];
   [0; 0; 8; 0; 0; 0; 56; 8; 8; 8; 8; 8; 8; 8; 24; 112];
   [0; 0; 96; 96; 96; 96; 102; 108; 120; 120; 108; 102; 98; 0; 0; 0];
   [0; 0; 0; 120; 24; 24; 24; 24; 24; 24; 24; 8; 14; 0; 0; 0];
   [0; 0; 0; 0; 0; 0; 126; 90; 90; 90; 90; 90; 90; 0; 0; 0];
   [0; 0; 0; 0; 0; 0; 124; 102; 102; 70; 70; 70; 70; 0; 0; 0];
   [0; 0; 0; 0; 0; 0; 60; 102; 66; 66; 66; 102; 60; 0; 0; 0];
   [0; 0; 0; 0; 0; 0; 124; 102; 98; 66; 98; 102; 124; 64; 64; 64];
   [0; 0; 0; 0; 0; 0; 62; 102; 70; 70; 70; 102; 62; 6; 6; 6];
   [0; 0; 0; 0; 0; 0; 62; 48; 48; 48; 48; 48; 48; 0; 0; 0];
   [0; 0; 0; 0; 0; 0; 60; 100; 96; 60; 4; 68; 60; 0; 0; 0];
   [0; 0; 0; 0; 16; 16; 126; 16; 16; 16; 16; 16; 30; 0; 0; 0];
   [0; 0; 0; 0; 0; 0; 70; 70; 70; 70; 102; 102; 62; 0; 0; 0];
   [0; 0; 0; 0; 0; 0; 66; 70; 100; 36; 44; 24; 24; 0; 0; 0];
   [0; 0; 0; 0; 0; 0; 131; 195; 90; 90; 122; 102; 100; 0; 0; 0];
   [0; 0; 0; 0; 0; 0; 70; 36; 24; 24; 56; 36; 66; 0; 0; 0];
   [0; 0; 0; 0; 0; 0; 66; 102; 36; 36; 60; 24; 24; 24; 16; 96];
   [0; 0; 0; 0; 0; 0; 126; 4; 8; 24; 48; 32; 126; 0; 0; 0];
   [0; 0; 14; 8; 24; 24; 24; 24; 112; 24; 24; 24; 8; 14; 0; 0];
   [0; 0; 0; 8; 8; 8; 8; 8; 8; 8; 8; 8; 8; 8; 8; 8];
   [0; 0; 112; 16; 24; 24; 24; 24; 14; 24; 24; 24; 16; 112; 0; 0];
   [0; 0; 0; 0; 0; 0; 0; 96; 208; 10; 14; 0; 0; 0; 0; 0] ]%Z.

Definition glyph (ch : Z) : list Z :=
  let index := if ((FIRST <=? ch) && (ch <=? LAST))%Z then Z.to_nat (ch - FIRST) else Z.to_nat (63 - FIRST) in
  GLYPHS !!! index.

(** ** The console *)

(** The description the boot loader passes: [Other] is any layout the code
    has no arm for. *)
Inductive PixelFormat := Rgb | Bgr | U8 | Other.
Record FrameBufferInfo := mkInfo {
  width : nat; height : nat; stride : nat; bytes_per_pixel : nat; pixel_format : PixelFormat
}.
Record Console := mkConsole { buffer : list Z; info : FrameBufferInfo; column : nat; row : nat }.

(** [usize] arithmetic wraps at the width of the machine. *)
Definition mul (a b : nat) : nat := Z.to_nat (wrap 64 (Z.of_nat a * Z.of_nat b)).
Definition plus (a b : nat) : nat := Z.to_nat (wrap 64 (Z.of_nat a + Z.of_nat b)).

Definition minus (a b : nat) : nat := Z.to_nat (wrap 64 (Z.of_nat a - Z.of_nat b)).

Definition columns (i : FrameBufferInfo) : nat := width i / WIDTH.
Definition rows (i : FrameBufferInfo) : nat := height i / HEIGHT.

#[local] Arguments columns : simpl never.
#[local] Arguments rows : simpl never.

Definition here : io Console Console := fun c => (Ok c, c).
Definition set_buffer (b : list Z) : io Console unit := fun c => (Ok tt, mkConsole b (info c) (column c) (row c)).
Definition set_cursor (column' row' : nat) : io Console unit := fun c => (Ok tt, mkConsole (buffer c) (info c) column' row').

(** [pixel\[i\] = v], with the bounds check. *)
Definition store (i : nat) (v : Z) (pixel : list Z) : result (list Z) :=
  if i <? length pixel then Ok (<[i := v]> pixel) else Panic.

Definition R : Z := 200.
Definition G : Z := 232.
Definition B : Z := 200.

Definition paint (format : PixelFormat) (pixel : list Z) : result (list Z) :=
  match format with
  | Rgb => pixel ← store 0 R pixel; pixel ← store 1 G pixel; store 2 B pixel
  | Bgr => pixel ← store 0 B pixel; pixel ← store 1 G pixel; store 2 R pixel
  | U8 => store 0 ((R * 30 + G * 59 + B * 11) / 100) pixel
  | Other => Ok (replicate (length pixel) 192%Z)
  end.

Definition set_pixel (x y : nat) : io Console unit := fun c =>
  let i := info c in
  if (width i <=? x) || (height i <=? y) then (Ok tt, c)
  else
    let offset := mul (plus (mul y (stride i)) x) (bytes_per_pixel i) in
    let end_ := plus offset (bytes_per_pixel i) in
    if length (buffer c) <? end_ then (Ok tt, c)
    else if end_ <? offset then panic c
    else match paint (pixel_format i) (take (end_ - offset) (drop offset (buffer c))) with
         | Ok pixel => set_buffer (take offset (buffer c) ++ pixel ++ drop end_ (buffer c)) c
         | Err e => (Err e, c)
         | Panic => panic c
         end.

(** Bit 7 is the leftmost pixel. *)
Definition lit (bits : Z) (column : nat) : bool := has bits (Z.shiftr 128 (Z.of_nat column)).

Definition draw_glyph (byte : Z) (x y : nat) : io Console unit :=
  for_each (imap pair (glyph byte)) (fun '(row, bits) =>
    for_each (seq 0 WIDTH) (fun column =>
      if lit bits column then set_pixel (plus x column) (plus y row) else mret tt)).

Definition scroll : io Console unit := fun c =>
  let i := info c in
  let stride_bytes := mul (stride i) (bytes_per_pixel i) in
  let row_bytes := mul stride_bytes HEIGHT in
  let total := mul stride_bytes (height i) in
  if (total <? row_bytes) || (length (buffer c) <? total) then panic c
  else
    let moved := drop row_bytes (take total (buffer c)) ++ drop (total - row_bytes) (buffer c) in
    set_buffer (take (total - row_bytes) moved ++ replicate row_bytes 0%Z ++ drop total moved) c.

Definition newline : io Console unit :=
  c ← here;
  let row' := plus (row c) 1 in
  _ ← set_cursor 0 row';
  if row' <? rows (info c) then mret tt
  else _ ← scroll; set_cursor 0 (minus (rows (info c)) 1).

Definition write_byte (byte : Z) : io Console unit :=
  c ← here;
  if (byte =? 10)%Z then newline
  else if (byte =? 13)%Z then set_cursor 0 (row c)
  else if (byte =? 8)%Z then (if 0 <? column c then set_cursor (column c - 1) (row c) else mret tt)
  else
    _ ← (if columns (info c) <=? column c then newline else mret tt);
    c ← here;
    _ ← draw_glyph byte (mul (column c) WIDTH) (mul (row c) HEIGHT);
    set_cursor (plus (column c) 1) (row c).

(** A character is a Unicode scalar value. *)
Definition to_ascii (ch : Z) : Z :=
  (if (ch =? 8212) || (ch =? 8211) then 45
   else if (ch =? 8216) || (ch =? 8217) then 39
   else if (ch =? 8220) || (ch =? 8221) then 34
   else if ch =? 8230 then 46
   else if ch =? 160 then 32
   else if (0 <=? ch) && (ch <? 128) then ch
   else 63)%Z.

(** [static mut CONSOLE: Option<Console>]. *)
Definition Screen : Type := option Console.

Definition clear (s : Screen) : Screen :=
  match s with Some c => Some (mkConsole (replicate (length (buffer c)) 0%Z) (info c) 0 0) | None => None end.

Definition init (buffer : list Z) (info : FrameBufferInfo) : Screen := clear (Some (mkConsole buffer info 0 0)).

Definition is_active (s : Screen) : bool := match s with Some _ => true | None => false end.

Definition describe (s : Screen) : option (nat * nat * nat * nat) :=
  match s with
  | Some c => Some (width (info c), height (info c), columns (info c), rows (info c))
  | None => None
  end.

Definition write_str (text : list Z) : io Screen unit := fun s =>
  match s with
  | None => (Ok tt, None)
  | Some c => let '(r, c') := for_each text (fun ch => write_byte (to_ascii ch)) c in (r, Some c')
  end.

(** ** What the code promises: characters in cells *)

(** A cell holds the characters drawn in it and not scrolled away: drawing
    only ever adds ink. *)
Record Terminal := mkTerminal { cell : nat -> nat -> list Z; tcolumn : nat; trow : nat }.

Section terminal.
Context (i : FrameBufferInfo).

Definition tblank : Terminal := mkTerminal (fun _ _ => []) 0 0.

Definition tnewline (t : Terminal) : Terminal :=
  if trow t + 1 <? rows i then mkTerminal (cell t) 0 (trow t + 1)
  else mkTerminal (fun r k => if r + 1 <? rows i then cell t (r + 1) k else []) 0 (rows i - 1).

Definition tdraw (byte : Z) (t : Terminal) : Terminal :=
  mkTerminal (fun r k => if (r =? trow t) && (k =? tcolumn t) then byte :: cell t r k else cell t r k) (tcolumn t + 1) (trow t).

Definition tput (byte : Z) (t : Terminal) : Terminal :=
  if (byte =? 10)%Z then tnewline t
  else if (byte =? 13)%Z then mkTerminal (cell t) 0 (trow t)
  else if (byte =? 8)%Z then mkTerminal (cell t) (tcolumn t - 1) (trow t)
  else tdraw byte (if columns i <=? tcolumn t then tnewline t else t).

(** Pixel [(x, y)] of a picture of the cells. *)
Definition inked (t : Terminal) (x y : nat) : bool :=
  (x / WIDTH <? columns i) && (y / HEIGHT <? rows i) &&
  existsb (fun ch => lit (glyph ch !!! (y mod HEIGHT)) (x mod WIDTH)) (cell t (y / HEIGHT) (x / WIDTH)).

(** Channel [k] of an inked pixel. *)
Definition shade (k : nat) : Z :=
  match pixel_format i with
  | Rgb | Bgr => match k with 0 | 2 => R | 1 => G | _ => 0%Z end
  | U8 => match k with 0 => ((R * 30 + G * 59 + B * 11) / 100)%Z | _ => 0%Z end
  | Other => 192%Z
  end.
End terminal.

(** ** The picture *)

Lemma mul_small a b : (Z.of_nat a * Z.of_nat b < 2 ^ 64)%Z -> mul a b = a * b.
Proof. intros H. unfold mul. rewrite wrap_small by (unfold in_u; lia). lia. Qed.
Lemma plus_small a b : (Z.of_nat a + Z.of_nat b < 2 ^ 64)%Z -> plus a b = a + b.
Proof. intros H. unfold plus. rewrite wrap_small by (unfold in_u; lia). lia. Qed.
Lemma minus_small a b : b <= a -> (Z.of_nat a < 2 ^ 64)%Z -> minus a b = a - b.
Proof. intros H H64. unfold minus. rewrite wrap_small by (unfold in_u; lia). lia. Qed.

Lemma store_pixel_ok i v (pixel : list Z) : i < length pixel -> store i v pixel = Ok (<[i := v]> pixel).
Proof. intros H. unfold store. by rewrite (proj2 (Nat.ltb_lt _ _) H). Qed.

Section picture.
Context (i : FrameBufferInfo) (n : nat).

(** What the boot loader promises of its description: the picture lies in
    the buffer, a line of it is at least as long as a line of the display,
    a pixel has room for its channels; and there is room for a character. *)
Record screen_ok : Prop := {
  sc_width : WIDTH <= width i;
  sc_height : HEIGHT <= height i;
  sc_stride : width i <= stride i;
  sc_buffer : height i * stride i * bytes_per_pixel i <= n;
  sc_word : (Z.of_nat n < 2 ^ 64)%Z;
  sc_pixel : match pixel_format i with Rgb | Bgr => 3 | U8 | Other => 1 end <= bytes_per_pixel i
}.
Context (Hok : screen_ok).

Abbreviation bpp := (bytes_per_pixel i).
Definition at_ (x y k : nat) : nat := (y * stride i + x) * bpp + k.

Lemma sc_positive : 0 < bpp /\ 0 < stride i.
Proof using Hok. destruct Hok as [Hw _ Hs _ _ Hp]. unfold WIDTH in *. destruct (pixel_format i); lia. Qed.

Lemma at_total x y k : x < stride i -> y < height i -> k < bpp -> at_ x y k < height i * stride i * bpp.
Proof using Type.
  intros Hx Hy Hk. unfold at_. assert (y * stride i + x + 1 <= height i * stride i) by nia.
  assert ((y * stride i + x + 1) * bpp <= height i * stride i * bpp) by (apply Nat.mul_le_mono_r; done). lia.
Qed.

Lemma at_range x y x' y' k' : x < stride i -> x' < stride i -> k' < bpp ->
  at_ x y 0 <= at_ x' y' k' < at_ x y 0 + bpp <-> x' = x /\ y' = y.
Proof using Hok.
  intros Hx Hx' Hk'. destruct sc_positive as [Hb Hs]. unfold at_. rewrite Nat.add_0_r. split; [|intros [-> ->]; lia].
  intros H. assert (E : y' * stride i + x' = y * stride i + x) by nia.
  assert (y' = y) as -> by nia. lia.
Qed.

(** The buffer is the picture of a set of pixels. *)
Definition picture (S : nat -> nat -> bool) (c : Console) : Prop :=
  info c = i /\ length (buffer c) = n /\
  (forall x y k, x < stride i -> y < height i -> k < bpp -> buffer c !!! at_ x y k = if S x y then shade i k else 0%Z) /\
  (forall o, height i * stride i * bpp <= o < n -> buffer c !!! o = 0%Z).

Lemma picture_ext S S' c : (forall x y, x < stride i -> y < height i -> S x y = S' x y) -> picture S c -> picture S' c.
Proof using Type. intros HS (Hi & Hl & Hp & Ht). split_and!; [done..| |done]. intros x y k Hx Hy Hk. rewrite <- HS by done. by apply Hp. Qed.

(** Painting a pixel that holds what a picture holds. *)
Lemma paint_spec (pixel : list Z) : length pixel = bpp -> (forall k, k < bpp -> pixel !!! k = 0%Z \/ pixel !!! k = shade i k) ->
  exists pixel', paint (pixel_format i) pixel = Ok pixel' /\ length pixel' = bpp /\ forall k, k < bpp -> pixel' !!! k = shade i k.
Proof using Hok.
  intros Hl Hv. pose proof (sc_pixel Hok) as Hp. unfold paint, shade in *. destruct (pixel_format i) eqn:Ef; cbv zeta in Hp.
  1-2: unfold mbind, result_bind; rewrite (store_pixel_ok 0) by lia; rewrite (store_pixel_ok 1) by (rewrite length_insert; lia); rewrite (store_pixel_ok 2) by (rewrite !length_insert; lia);
    eexists; split; [reflexivity|]; split; [by rewrite !length_insert|]; intros k Hk; rewrite !list_insert_total by (rewrite ?length_insert; lia);
    destruct k as [|[|[|k]]]; [done..|]; rewrite !decide_False by lia; destruct (Hv _ Hk); done.
  - rewrite store_pixel_ok by lia. eexists. split; [reflexivity|]. split; [by rewrite length_insert|]. intros k Hk. rewrite list_insert_total by lia.
    destruct k as [|k]; [done|]. rewrite decide_False by lia. destruct (Hv _ Hk); done.
  - eexists. split; [reflexivity|]. rewrite length_replicate. split; [done|]. intros k Hk. rewrite lookup_total_replicate by lia. done.
Qed.

Lemma lookup_splice (b mid : list Z) o e j : o <= e -> e <= length b -> length mid = e - o ->
  (take o b ++ mid ++ drop e b) !!! j = if (o <=? j) && (j <? e) then mid !!! (j - o) else b !!! j.
Proof using Type.
  intros Ho He Hm. rewrite !list_lookup_total_alt. destruct (Nat.leb_spec o j), (Nat.ltb_spec j e); cbn [andb].
  - rewrite lookup_app_r by (rewrite length_take; lia). rewrite length_take, lookup_app_l by lia. do 2 f_equal. lia.
  - rewrite lookup_app_r by (rewrite length_take; lia). rewrite lookup_app_r by (rewrite length_take; lia). rewrite length_take, lookup_drop. do 2 f_equal. lia.
  - rewrite lookup_app_l by (rewrite length_take; lia). by rewrite lookup_take_lt by lia.
  - lia.
Qed.

Lemma set_pixel_spec S c x y : picture S c -> x < width i -> y < height i ->
  safe (set_pixel x y) (fun _ c' => picture (fun x' y' => S x' y' || ((x' =? x) && (y' =? y))) c' /\ column c' = column c /\ row c' = row c) (fun _ => False) c.
Proof using Hok.
  intros (Hi & Hl & Hp & Ht) Hx Hy. destruct Hok as [Hw Hh Hst Hb H64 Hpx]. destruct sc_positive as [Hb0 Hs0].
  pose proof (at_total x y (bpp - 1) ltac:(lia) Hy ltac:(lia)) as Hat. assert (Eat : at_ x y (bpp - 1) + 1 = at_ x y 0 + bpp) by (unfold at_; lia).
  assert (Hoff : mul (plus (mul y (stride i)) x) bpp = at_ x y 0).
  { unfold at_ in *. rewrite (mul_small y) by nia. rewrite plus_small by nia. rewrite mul_small by nia. lia. }
  unfold safe, set_pixel. rewrite Hi, Hoff, (proj2 (Nat.leb_gt (width i) x)), (proj2 (Nat.leb_gt (height i) y)) by done. cbn [orb].
  rewrite plus_small by lia. rewrite Hl, (proj2 (Nat.ltb_ge n _)) by lia. rewrite (proj2 (Nat.ltb_ge (at_ x y 0 + bpp) _)) by lia.
  replace (at_ x y 0 + bpp - at_ x y 0) with bpp by lia.
  destruct (paint_spec (take bpp (drop (at_ x y 0) (buffer c)))) as (pixel & -> & Hpl & Hpv).
  { rewrite length_take, length_drop. lia. }
  { intros k Hk. rewrite list_lookup_total_alt, lookup_take_lt, lookup_drop, <- list_lookup_total_alt by done.
    specialize (Hp x y k ltac:(lia) Hy Hk). unfold at_ in *. rewrite Nat.add_0_r, Hp. destruct (S x y); auto. }
  cbn. split; [|done]. split_and!; cbn [info buffer]; [done|rewrite !length_app, length_take, length_drop; lia| |].
  - intros x' y' k Hx' Hy' Hk. rewrite lookup_splice by lia. pose proof (at_range x y x' y' k ltac:(lia) Hx' Hk) as Hr.
    destruct (Nat.leb_spec (at_ x y 0) (at_ x' y' k)), (Nat.ltb_spec (at_ x' y' k) (at_ x y 0 + bpp)); cbn [andb].
    1: destruct (proj1 Hr) as [-> ->]; [done|]; rewrite !Nat.eqb_refl, orb_true_r; replace (at_ x y k - at_ x y 0) with k by (unfold at_; lia); by apply Hpv.
    all: rewrite Hp by done; destruct (Nat.eqb_spec x' x) as [->|]; [destruct (Nat.eqb_spec y' y) as [->|]|]; cbn [andb]; rewrite ?orb_false_r; try done; exfalso;
      pose proof (proj2 Hr (conj eq_refl eq_refl)); lia.
  - intros o Ho. rewrite lookup_splice by lia. rewrite (proj2 (Nat.ltb_ge o _)) by lia. rewrite andb_false_r. by apply Ht.
Qed.

Lemma glyphs_height : Forall (fun g => length g = HEIGHT) GLYPHS.
Proof using Type. by repeat constructor. Qed.

Lemma glyph_height ch : length (glyph ch) = HEIGHT.
Proof using Type.
  unfold glyph. apply (Forall_lookup_total_1 _ _ _ glyphs_height). change (length GLYPHS) with 95. unfold FIRST, LAST.
  destruct ((32 <=? ch)%Z && (ch <=? 126)%Z) eqn:E; [|by vm_compute; lia]. apply andb_true_iff in E. lia.
Qed.

Lemma screen_words : height i + width i <= n.
Proof using Hok.
  pose proof sc_positive as [Hb Hs]. destruct Hok as [Hw Hh Hst Hbuf H64 _]. unfold WIDTH, HEIGHT in *.
  assert (height i * stride i * 1 <= height i * stride i * bpp) by (apply Nat.mul_le_mono_l; lia).
  assert (height i * width i <= height i * stride i) by (apply Nat.mul_le_mono_l; lia). nia.
Qed.

(** The pixels of a glyph at [(x, y)]. *)
Definition row_pixels (bits : Z) (x y : nat) (cs : list nat) (x' y' : nat) : bool :=
  (y' =? y) && existsb (fun k => lit bits k && (x' =? x + k)) cs.
Definition glyph_pixels (lines : list (nat * Z)) (x y : nat) (x' y' : nat) : bool :=
  existsb (fun '(r, bits) => row_pixels bits x (y + r) (seq 0 WIDTH) x' y') lines.

Abbreviation drawn c S := (fun (_ : unit) c' => picture S c' /\ column c' = column c /\ row c' = row c).

Lemma draw_row_spec S c bits x y r : picture S c -> x + WIDTH <= width i -> y + r < height i ->
  safe (for_each (seq 0 WIDTH) (fun k => if lit bits k then set_pixel (plus x k) (plus y r) else mret tt))
    (drawn c (fun x' y' => S x' y' || row_pixels bits x (y + r) (seq 0 WIDTH) x' y')) (fun _ => False) c.
Proof using Hok.
  intros HS Hx Hy. pose proof screen_words as Hsw. pose proof (sc_word Hok) as H64.
  apply (safe_for_each _ (fun d c' => picture (fun x' y' => S x' y' || row_pixels bits x (y + r) d x' y') c' /\ column c' = column c /\ row c' = row c)).
  - intros d k rest c1 Hl (Hp & Ec & Er). assert (Hk : k < WIDTH).
    { assert (In k (seq 0 WIDTH)) as Hin by (rewrite Hl; apply in_or_app; right; by left). apply in_seq in Hin. lia. }
    destruct (lit bits k) eqn:El.
    + rewrite !plus_small by (unfold WIDTH in *; lia). eapply safe_mono; [apply (set_pixel_spec _ c1 (x + k) (y + r) Hp); lia| |done].
      intros _ c2 (Hp2 & Ec2 & Er2). split; [|split; congruence]. eapply picture_ext; [|exact Hp2]. intros x' y' _ _. cbn beta. unfold row_pixels.
      rewrite existsb_app. cbn [existsb]. rewrite El, orb_false_r. destruct (S x' y'), (y' =? y + r), (existsb _ d), (x' =? x + k); done.
    + apply safe_ret. split; [|done]. eapply picture_ext; [|exact Hp]. intros x' y' _ _. cbn beta. unfold row_pixels.
      rewrite existsb_app. cbn [existsb]. by rewrite El, andb_false_l, !orb_false_r.
  - split; [|done]. eapply picture_ext; [|exact HS]. intros x' y' _ _. cbn beta. unfold row_pixels. cbn [existsb]. by rewrite andb_false_r, orb_false_r.
Qed.

Lemma draw_glyph_spec S c ch x y : picture S c -> x + WIDTH <= width i -> y + HEIGHT <= height i ->
  safe (draw_glyph ch x y) (drawn c (fun x' y' => S x' y' || glyph_pixels (imap pair (glyph ch)) x y x' y')) (fun _ => False) c.
Proof using Hok.
  intros HS Hx Hy.
  apply (safe_for_each _ (fun d c' => picture (fun x' y' => S x' y' || glyph_pixels d x y x' y') c' /\ column c' = column c /\ row c' = row c)).
  - intros d [r bits] rest c1 Hl (Hp & Ec & Er). assert (Hr : r < HEIGHT).
    { assert ((r, bits) ∈ imap pair (glyph ch)) as Hin by (rewrite Hl; set_solver). apply elem_of_lookup_imap in Hin as (j & z & [= <- <-] & Hz).
      apply lookup_lt_Some in Hz. by rewrite glyph_height in Hz. }
    eapply safe_mono; [apply (draw_row_spec _ c1 bits x y r Hp Hx); lia| |done]. intros _ c2 (Hp2 & Ec2 & Er2). split; [|split; congruence].
    eapply picture_ext; [|exact Hp2]. intros x' y' _ _. cbn beta. unfold glyph_pixels. rewrite existsb_app. cbn [existsb]. by rewrite orb_false_r, orb_assoc.
  - split; [|done]. eapply picture_ext; [|exact HS]. intros x' y' _ _. cbn beta. unfold glyph_pixels. cbn [existsb]. by rewrite orb_false_r.
Qed.

(** A glyph drawn in a cell inks that cell and nothing else. *)
Lemma glyph_in_cell ch k r x' y' : glyph_pixels (imap pair (glyph ch)) (k * WIDTH) (r * HEIGHT) x' y' =
  (x' / WIDTH =? k) && (y' / HEIGHT =? r) && lit (glyph ch !!! (y' mod HEIGHT)) (x' mod WIDTH).
Proof using Type.
  pose proof (Nat.div_mod_eq x' WIDTH) as Ex. pose proof (Nat.div_mod_eq y' HEIGHT) as Ey.
  pose proof (Nat.mod_upper_bound x' WIDTH ltac:(done)) as Bx. pose proof (Nat.mod_upper_bound y' HEIGHT ltac:(done)) as By.
  set (qx := x' / WIDTH) in *. set (qy := y' / HEIGHT) in *. set (mx := x' mod WIDTH) in *. set (my := y' mod HEIGHT) in *. clearbody qx qy mx my.
  apply eq_true_iff_eq. unfold glyph_pixels, row_pixels. rewrite existsb_exists. split.
  - intros ([l bits] & Hin & Hr). apply list_elem_of_In, elem_of_lookup_imap in Hin as (j & z & [= -> ->] & Hz). apply andb_true_iff in Hr as [Hy Hx].
    apply Nat.eqb_eq in Hy. apply existsb_exists in Hx as (c & Hc & Hlit). apply in_seq in Hc. apply andb_true_iff in Hlit as [Hlit Hxe]. apply Nat.eqb_eq in Hxe.
    pose proof (lookup_lt_Some _ _ _ Hz) as Hj. rewrite glyph_height in Hj. unfold WIDTH, HEIGHT in *.
    assert (mx = c /\ qx = k) as [-> ->] by lia. assert (my = j /\ qy = r) as [-> ->] by lia.
    rewrite !Nat.eqb_refl. cbn [andb]. by rewrite (list_lookup_total_correct _ _ _ Hz).
  - intros H. apply andb_true_iff in H as [H Hlit]. apply andb_true_iff in H as [->%Nat.eqb_eq ->%Nat.eqb_eq].
    exists (my, glyph ch !!! my). split.
    + apply list_elem_of_In, elem_of_lookup_imap. exists my, (glyph ch !!! my). split; [done|]. apply list_lookup_lookup_total_lt. by rewrite glyph_height.
    + apply andb_true_iff. split; [apply Nat.eqb_eq; lia|]. apply existsb_exists. exists mx. split; [apply in_seq; lia|].
      rewrite Hlit. cbn. apply Nat.eqb_eq. lia.
Qed.

(** Scrolling moves the picture up a line of text and blanks the last. *)
Lemma scroll_spec S c : picture S c ->
  safe scroll (drawn c (fun x y => (y + HEIGHT <? height i) && S x (y + HEIGHT))) (fun _ => False) c.
Proof using Hok.
  intros (Hi & Hl & Hp & Ht). pose proof sc_positive as [Hb Hs]. destruct Hok as [Hw Hh Hst Hbuf H64 _].
  set (rb := stride i * bpp * HEIGHT). set (total := height i * stride i * bpp) in *.
  assert (Hrb : rb <= total) by (unfold rb, total; rewrite (Nat.mul_comm _ HEIGHT), <- (Nat.mul_assoc (height i)); by apply Nat.mul_le_mono_r).
  assert (Esb : mul (stride i) bpp = stride i * bpp) by (apply mul_small; unfold HEIGHT in *; nia).
  unfold safe, scroll. rewrite Hi, Esb. rewrite (mul_small _ HEIGHT) by (fold rb; unfold rb, total, HEIGHT in *; nia).
  rewrite (mul_small _ (height i)) by (unfold total in *; nia). replace (stride i * bpp * height i) with total by (unfold total; lia). fold rb.
  rewrite Hl, (proj2 (Nat.ltb_ge total rb)), (proj2 (Nat.ltb_ge n total)) by lia. cbn [orb].
  set (moved := drop rb (take total (buffer c)) ++ drop (total - rb) (buffer c)).
  assert (Hml : length moved = n) by (unfold moved; rewrite length_app, !length_drop, length_take; lia).
  unfold set_buffer. cbv beta iota zeta. split; [|done]. split_and!; cbn [info buffer]; [done|rewrite !length_app, length_take, length_drop, length_replicate; lia| |].
  - intros x y k Hx Hy Hk. pose proof (at_total x y k Hx Hy Hk) as Hat. fold total in Hat. rewrite lookup_splice by (rewrite ?length_replicate; lia).
    assert (Ep : at_ x (y + HEIGHT) k = at_ x y k + rb) by (unfold at_, rb; lia).
    destruct (Nat.ltb_spec (y + HEIGHT) (height i)) as [Hv|Hv]; cbn [andb].
    + pose proof (at_total x (y + HEIGHT) k Hx Hv Hk) as Hat2. fold total in Hat2.
      rewrite (proj2 (Nat.leb_gt (total - rb) _)) by lia. cbn [andb]. unfold moved. rewrite list_lookup_total_alt.
      rewrite lookup_app_l by (rewrite length_drop, length_take; lia). rewrite lookup_drop, lookup_take_lt, <- list_lookup_total_alt by lia.
      rewrite (Nat.add_comm rb), <- Ep. by apply Hp.
    + assert (total - rb <= at_ x y k).
      { unfold total, rb, at_. assert (height i * stride i <= y * stride i + HEIGHT * stride i) by nia. nia. }
      rewrite (proj2 (Nat.leb_le (total - rb) _)), (proj2 (Nat.ltb_lt _ total)) by lia. cbn [andb]. apply lookup_total_replicate. lia.
  - intros o Ho. rewrite lookup_splice by (rewrite ?length_replicate; lia). rewrite (proj2 (Nat.ltb_ge o _)) by lia. rewrite andb_false_r.
    unfold moved. rewrite list_lookup_total_alt, lookup_app_r by (rewrite length_drop, length_take; lia). rewrite length_drop, length_take, lookup_drop, <- list_lookup_total_alt.
    replace (total - rb + (o - (total `min` length (buffer c) - rb))) with o by lia. by apply Ht.
Qed.

(** ** The simulation *)

Record shows (t : Terminal) (c : Console) : Prop := {
  sh_picture : picture (inked i t) c;
  sh_column : column c = tcolumn t /\ tcolumn t <= columns i;
  sh_row : row c = trow t /\ trow t < rows i
}.

Lemma rows_height : 0 < rows i /\ rows i * HEIGHT <= height i /\ 0 < columns i /\ columns i * WIDTH <= width i.
Proof using Hok.
  destruct Hok as [Hw Hh _ _ _ _]. unfold rows, columns.
  pose proof (Nat.div_str_pos (height i) HEIGHT ltac:(unfold HEIGHT in *; lia)). pose proof (Nat.div_str_pos (width i) WIDTH ltac:(unfold WIDTH in *; lia)).
  pose proof (Nat.Div0.mul_div_le (height i) HEIGHT). pose proof (Nat.Div0.mul_div_le (width i) WIDTH). lia.
Qed.

Lemma newline_spec t c : picture (inked i t) c -> row c = trow t -> trow t < rows i ->
  safe newline (fun _ c' => shows (tnewline i t) c') (fun _ => False) c.
Proof using Hok.
  intros Hp Er Hr. destruct rows_height as (Hr0 & Hrh & Hc0 & Hcw). pose proof screen_words as Hsw. pose proof (sc_word Hok) as H64.
  unfold safe, newline, here. rewrite (io_bind_run _ _ c c c) by done. cbv beta zeta. destruct (Hp) as (Hi & Hl & _). unfold HEIGHT in Hrh.
  rewrite Er, Hi, plus_small by lia. rewrite (io_bind_run _ _ c tt (mkConsole (buffer c) (info c) 0 (trow t + 1))) by done. unfold tnewline.
  destruct (Nat.ltb_spec (trow t + 1) (rows i)) as [Hlt|Hge].
  - cbn. split; cbn; [exact Hp|split; [done|lia]|done].
  - pose proof (scroll_spec (inked i t) (mkConsole (buffer c) (info c) 0 (trow t + 1)) Hp) as Hs. unfold safe in Hs. unfold mbind, io_bind.
    destruct (scroll _) as [[[]|e|] c']; [|done..]. destruct Hs as (Hp' & Ec & _). unfold set_cursor. rewrite minus_small by lia. split; cbn [column row tcolumn trow]; [|split; [done|lia]|split; [done|lia]].
    destruct Hp' as (Hi' & Hl' & Hp' & Ht'). split_and!; cbn; [done..| |done]. intros x y k Hx Hy Hk. rewrite Hp' by done.
    f_equal. unfold inked. cbn [cell]. assert (Ed : (y + HEIGHT) / HEIGHT = y / HEIGHT + 1) by (rewrite <- (Nat.mul_1_l HEIGHT) at 1; by apply Nat.div_add).
    assert (Em : (y + HEIGHT) mod HEIGHT = y mod HEIGHT) by (rewrite <- (Nat.mul_1_l HEIGHT) at 1; by apply Nat.Div0.mod_add).
    pose proof (Nat.div_mod_eq y HEIGHT) as Ey. pose proof (Nat.mod_upper_bound y HEIGHT ltac:(done)) as By.
    rewrite Ed, Em. set (q := y / HEIGHT) in *. destruct (Nat.ltb_spec (q + 1) (rows i)) as [Hy1|Hy1].
    + rewrite (proj2 (Nat.ltb_lt (y + HEIGHT) _)), (proj2 (Nat.ltb_lt q _)) by (unfold HEIGHT in *; lia). cbn [andb].
      done.
    + cbn [existsb]. by rewrite !andb_false_r.
Qed.

(** One character: the console follows the terminal. *)
Lemma write_byte_spec t c byte : shows t c -> safe (write_byte byte) (fun _ c' => shows (tput i byte t) c') (fun _ => False) c.
Proof using Hok.
  intros [Hp [Ec Hc] [Er Hr]]. pose proof rows_height as (Hr0 & Hrh & Hc0 & Hcw). pose proof screen_words as Hsw. pose proof (sc_word Hok) as H64.
  destruct (Hp) as (Hi & Hl & _). unfold write_byte, tput, here, safe. rewrite (io_bind_run _ _ c c c) by done. cbv beta.
  destruct (byte =? 10)%Z; [by apply newline_spec|]. destruct (byte =? 13)%Z.
  { cbn. split; cbn; [exact Hp|lia|done]. }
  destruct (byte =? 8)%Z.
  { rewrite Ec. destruct (Nat.ltb_spec 0 (tcolumn t)).
    - cbn. split; cbn; [exact Hp|split; [done|lia]|done].
    - cbn. split; cbn; [exact Hp|split; lia|done]. }
  set (t1 := if columns i <=? tcolumn t then tnewline i t else t).
  assert (H1 : safe (if columns (info c) <=? column c then newline else mret tt) (fun _ c1 => shows t1 c1 /\ tcolumn t1 < columns i) (fun _ => False) c).
  { rewrite Hi, Ec. unfold t1. destruct (Nat.leb_spec (columns i) (tcolumn t)).
    - eapply safe_mono; [by apply (newline_spec t c)| |done]. intros ? c1 Hs. split; [exact Hs|]. unfold tnewline. case_match; cbn; lia.
    - apply safe_ret. split; [by split|done]. }
  fold (safe (_ ← (if columns (info c) <=? column c then newline else mret tt); c0 ← here; _ ← draw_glyph byte (mul (column c0) WIDTH) (mul (row c0) HEIGHT); set_cursor (plus (column c0) 1) (row c0))
    (fun _ c' => shows (tdraw byte t1) c') (fun _ => False) c).
  eapply safe_bind; [exact H1|]. intros [] c1 [[Hp1 [Ec1 _] [Er1 Hr1]] Hlt]. unfold safe, here. rewrite (io_bind_run _ _ c1 c1 c1) by reflexivity. rewrite Ec1, Er1. unfold WIDTH, HEIGHT in Hcw, Hrh.
  rewrite !mul_small by (unfold WIDTH, HEIGHT; lia).
  pose proof (draw_glyph_spec (inked i t1) c1 byte (tcolumn t1 * WIDTH) (trow t1 * HEIGHT) Hp1 ltac:(unfold WIDTH; lia) ltac:(unfold HEIGHT; lia)) as Hd. unfold safe in Hd.
  unfold mbind, io_bind. destruct (draw_glyph _ _ _ c1) as [[[]|e|] c2]; [|done..]. destruct Hd as (Hp2 & Ec2 & Er2). unfold set_cursor. rewrite plus_small by lia.
  unfold tdraw. split; cbn [tcolumn trow column row]; [|lia..]. destruct Hp2 as (Hi2 & Hl2 & Hp2 & Ht2). split_and!; cbn [info buffer]; [done..| |done]. intros x y k Hx Hy Hk. rewrite Hp2 by done.
  rewrite glyph_in_cell. f_equal. unfold inked. cbn [cell]. destruct (Nat.eqb_spec (y / HEIGHT) (trow t1)) as [->|], (Nat.eqb_spec (x / WIDTH) (tcolumn t1)) as [->|]; cbn [andb existsb]; rewrite ?orb_false_r; try done.
  rewrite (proj2 (Nat.ltb_lt (tcolumn t1) _)), (proj2 (Nat.ltb_lt (trow t1) _)) by done. cbn [andb]. by rewrite orb_comm.
Qed.

(** Rubbing out, as the shells do it - back, a space, back - moves the
    cursor and leaves every pixel as it was: a space has no ink and nothing
    is cleared. *)
Lemma rubbing_out_leaves_ink t c : shows t c -> 0 < tcolumn t -> tcolumn t < columns i ->
  safe (for_each [8; 32; 8]%Z write_byte) (fun _ c' => picture (inked i t) c' /\ column c' = column c - 1) (fun _ => False) c.
Proof using Hok.
  intros Hs H0 H1. cbn [for_each]. eapply safe_bind; [exact (write_byte_spec t c 8 Hs)|]. intros [] c1 Hs1.
  eapply safe_bind; [exact (write_byte_spec _ c1 32 Hs1)|]. intros [] c2 Hs2. eapply safe_bind; [exact (write_byte_spec _ c2 8 Hs2)|]. intros [] c3 Hs3.
  apply safe_ret. cbn in Hs3. assert (E : (columns i <=? tcolumn t - 1) = false) by (apply Nat.leb_gt; lia). rewrite E in Hs3. cbn in Hs3. destruct Hs3 as [Hp [Ec _] _]. split.
  - eapply picture_ext; [|exact Hp]. intros x y _ _. unfold inked. cbn [cell]. f_equal. destruct ((y / HEIGHT =? trow t) && (x / WIDTH =? tcolumn t - 1)); [|done].
    cbn [existsb]. change (glyph 32) with (replicate 16 0%Z). pose proof (Nat.mod_upper_bound y HEIGHT ltac:(done)) as By. unfold HEIGHT in By.
    rewrite lookup_total_replicate by done. unfold lit, has. by rewrite Z.land_0_l.
  - cbn in Ec. rewrite Ec, (proj1 (sh_column _ _ Hs)). lia.
Qed.
End picture.

(** ** Lines of text *)

Fixpoint split_lines (text : list Z) : list (list Z) :=
  match text with
  | [] => [ [] ]
  | c :: rest =>
      if (c =? 10)%Z then [] :: split_lines rest
      else match split_lines rest with line :: lines => (c :: line) :: lines | [] => [ [c] ] end
  end.

(** A line longer than the screen is wide, in pieces. *)
Fixpoint pieces (fuel k : nat) (line : list Z) : list (list Z) :=
  match fuel with
  | 0 => [line]
  | S fuel => if length line <=? k then [line] else take k line :: pieces fuel k (drop k line)
  end.

Definition layout (k : nat) (text : list Z) : list (list Z) := mjoin (map (fun line => pieces (length line) k line) (split_lines text)).

(** The character in a cell of a screen of [h] lines: the last lines show. *)
Definition shown_at (h : nat) (lines : list (list Z)) (k r : nat) : option Z :=
  lines !! (length lines - h `min` length lines + r) ≫= (.!! k).

(** One more character in a layout. *)
Definition extend (k : nat) (byte : Z) (lines : list (list Z)) : list (list Z) :=
  let line := default [] (last lines) in
  if (byte =? 10)%Z then lines ++ [ [] ]
  else if k <=? length line then lines ++ [ [byte] ]
  else take (length lines - 1) lines ++ [line ++ [byte] ].

Lemma pieces_short fuel k line : length line <= k -> pieces fuel k line = [line].
Proof. intros H. destruct fuel; [done|]. cbn [pieces]. by rewrite (proj2 (Nat.leb_le _ _) H). Qed.

Lemma pieces_fuel fuel k line : 0 < k -> length line <= fuel -> pieces fuel k line = pieces (length line) k line.
Proof.
  intros Hk. revert line. induction fuel as [fuel IH] using lt_wf_ind. intros line Hf. destruct fuel as [|fuel]; [by destruct line; [|cbn in Hf; lia]|].
  destruct (Nat.leb_spec (length line) k) as [Hs|Hs]; [by rewrite !pieces_short|]. destruct (length line) as [|l] eqn:El; [lia|].
  cbn [pieces]. rewrite El, (proj2 (Nat.leb_gt (S l) k)) by lia. f_equal.
  rewrite (IH fuel) by (rewrite ?length_drop; lia). symmetry. destruct (decide (l = fuel)) as [->|]; [apply IH; rewrite ?length_drop; lia|].
  apply IH; rewrite ?length_drop; lia.
Qed.

(** The last piece takes one more character, or a new piece does. *)
Lemma pieces_snoc k line c : 0 < k -> exists init lst, pieces (length line) k line = init ++ [lst] /\ length lst <= k /\
  pieces (length (line ++ [c])) k (line ++ [c]) = if k <=? length lst then init ++ [lst; [c] ] else init ++ [lst ++ [c] ].
Proof.
  intros Hk. remember (length line) as m eqn:Em. revert line Em. induction m as [m IH] using lt_wf_ind. intros line Em.
  destruct (Nat.leb_spec m k) as [Hs|Hs].
  - exists [], line. rewrite pieces_short by lia. split; [done|]. split; [lia|]. destruct (Nat.leb_spec k (length line)) as [Hf|Hf].
    + assert (length line = k) as El by lia. rewrite length_app. cbn [length]. rewrite Nat.add_1_r. cbn [pieces]. rewrite length_app. cbn [length].
      rewrite (proj2 (Nat.leb_gt _ k)) by lia. rewrite take_app_le, drop_app_ge by lia. rewrite take_ge by lia. rewrite El, Nat.sub_diag. by rewrite pieces_short.
    + rewrite pieces_short; [done|]. rewrite length_app. cbn. lia.
  - destruct (IH (m - k) ltac:(lia) (drop k line) ltac:(rewrite length_drop; lia)) as (init & lst & E & Hl & E2).
    exists (take k line :: init), lst. split; [|split; [done|]].
    + destruct m as [|m]; [lia|]. cbn [pieces]. rewrite <- Em, (proj2 (Nat.leb_gt (S m) k)) by lia. cbn [app]. f_equal. rewrite <- E.
      rewrite pieces_fuel by (rewrite ?length_drop; lia). f_equal. rewrite length_drop. lia.
    + rewrite length_app. cbn [length]. rewrite Nat.add_1_r. cbn [pieces]. rewrite length_app. cbn [length]. rewrite (proj2 (Nat.leb_gt _ k)) by lia.
      rewrite take_app_le, drop_app_le by lia. rewrite pieces_fuel by (rewrite ?length_app, ?length_drop; cbn; lia). rewrite E2. by case_match.
Qed.

Lemma pieces_nonempty fuel k line : pieces fuel k line <> [].
Proof. destruct fuel; [done|]. cbn. by case_match. Qed.

Lemma split_lines_snoc text c : exists init lst, split_lines text = init ++ [lst] /\
  split_lines (text ++ [c]) = if (c =? 10)%Z then init ++ [lst; [] ] else init ++ [lst ++ [c] ].
Proof.
  induction text as [|x text (init & lst & E & E2)]; [exists [], []; cbn; by case_match|]. cbn [split_lines app]. destruct (x =? 10)%Z.
  - exists ([] :: init), lst. rewrite E, E2. split; [done|]. by case_match.
  - rewrite E, E2. destruct init as [|l init]; cbn [app].
    + exists [], (x :: lst). split; [done|]. by case_match.
    + exists ((x :: l) :: init), lst. split; [done|]. by case_match.
Qed.

Lemma layout_snoc k text c : 0 < k -> layout k (text ++ [c]) = extend k c (layout k text).
Proof.
  intros Hk. destruct (split_lines_snoc text c) as (init & lst & E & E2). destruct (pieces_snoc k lst c Hk) as (pre & p & Ep & Hp & Ep2).
  unfold layout, extend. rewrite E, E2. set (f := fun line => pieces (length line) k line). fold (f lst) (f (lst ++ [c])) in Ep, Ep2.
  assert (Ef : mjoin (map f (init ++ [lst])) = mjoin (map f init) ++ pre ++ [p]) by (rewrite map_app, join_app; cbn; by rewrite Ep, app_nil_r).
  rewrite Ef, !app_assoc, last_snoc. cbn [default]. destruct (c =? 10)%Z.
  - rewrite map_app, join_app. cbn. by rewrite Ep, !app_assoc.
  - rewrite map_app, join_app. cbn [map]. cbn. rewrite app_nil_r, Ep2. destruct (k <=? length p).
    + by rewrite <- !app_assoc.
    + rewrite length_app. cbn [length]. rewrite Nat.add_sub, take_app_length. by rewrite <- !app_assoc.
Qed.

Lemma layout_nil k : layout k [] = [ [] ].
Proof. done. Qed.

(** ** Text on the screen *)

Section text.
Context (i : FrameBufferInfo) (n : nat) (Hok : screen_ok i n).

Abbreviation h := (rows i).
Abbreviation w := (columns i).

(** Terminals that agree on the cells of the screen. *)
Definition alike (t t' : Terminal) : Prop :=
  (forall r k, r < h -> k < w -> cell t r k = cell t' r k) /\ tcolumn t = tcolumn t' /\ trow t = trow t'.

#[local] Instance alike_equivalence : Equivalence alike.
Proof using Type.
  split.
  - intros t. done.
  - intros t t' (H & Ec & Er). split_and!; [|done..]. intros r k Hr Hk. by rewrite H.
  - intros t t' t'' (H & Ec & Er) (H' & Ec' & Er'). split_and!; [|congruence..]. intros r k Hr Hk. by rewrite H, H'.
Qed.

#[local] Instance shows_alike : Proper (alike ==> eq ==> impl) (shows i n).
Proof using Type.
  intros t t' (H & Ec & Er) c _ <- [Hp [Ec' Hc] [Er' Hr]]. split; [|rewrite <- Ec; done|rewrite <- Er; done].
  eapply picture_ext; [|exact Hp]. intros x y _ _. unfold inked. destruct (Nat.ltb_spec (x / WIDTH) w), (Nat.ltb_spec (y / HEIGHT) h); cbn [andb]; [|done..]. by rewrite H.
Qed.

#[local] Instance tnewline_alike : Proper (alike ==> alike) (tnewline i).
Proof using Type.
  intros t t' (H & Ec & Er). unfold tnewline. rewrite Er. case_match; (split_and!; cbn [cell tcolumn trow]; [|done..]); intros r k Hr Hk; [by apply H|].
  destruct (Nat.ltb_spec (r + 1) h); [by apply H|done].
Qed.

#[local] Instance tdraw_alike byte : Proper (alike ==> alike) (tdraw byte).
Proof using Type.
  intros t t' (H & Ec & Er). unfold tdraw. rewrite Er, Ec. split_and!; cbn [cell tcolumn trow]; [|done..]. intros r k Hr Hk. by rewrite H.
Qed.

(** The terminal after a text laid out in lines. *)
Definition laid (lines : list (list Z)) : Terminal :=
  mkTerminal (fun r k => option_list (shown_at h lines k r)) (length (default [] (last lines))) (h `min` length lines - 1).

Lemma lookup_blank_line (lines : list (list Z)) j k : (lines ++ [ [] ]) !! j ≫= (.!! k) = lines !! j ≫= (.!! k).
Proof using Type.
  destruct (decide (j < length lines)); [by rewrite lookup_app_l by done|]. rewrite lookup_app_r, (lookup_ge_None_2 lines) by lia.
  destruct (j - length lines) as [|d]; cbn; [done|]. by destruct d.
Qed.

Lemma newline_laid lines : lines <> [] -> alike (tnewline i (laid lines)) (laid (lines ++ [ [] ])).
Proof using Hok.
  intros Hne. destruct (rows_height i n Hok) as (Hh & _). assert (HL : 0 < length lines) by (destruct lines; [done|cbn; lia]).
  unfold laid, tnewline. cbn [trow cell]. rewrite length_app, last_snoc. cbn [length default from_option id].
  destruct (Nat.ltb_spec (h `min` length lines - 1 + 1) h) as [Hlt|Hge]; (split_and!; cbn [cell tcolumn trow]; [|done|lia]); intros r k Hr Hk; unfold shown_at; rewrite lookup_blank_line, length_app; cbn [length].
  - do 3 f_equal. lia.
  - destruct (Nat.ltb_spec (r + 1) h).
    + do 3 f_equal. lia.
    + by rewrite (lookup_ge_None_2 lines) by lia.
Qed.

Lemma draw_laid lines line c : length line < w -> alike (tdraw c (laid (lines ++ [line]))) (laid (lines ++ [line ++ [c] ])).
Proof using Hok.
  intros Hw. destruct (rows_height i n Hok) as (Hh & _). unfold laid, tdraw, alike. cbn [cell tcolumn trow]. rewrite !last_snoc. cbn [default from_option id]. rewrite !length_app. cbn [length].
  split_and!; [|done..]. intros r k Hr Hk. unfold shown_at. rewrite !length_app. cbn [length].
  set (L := length lines). destruct (Nat.eqb_spec r (h `min` (L + 1) - 1)) as [->|Hne]; cbn [andb].
  - replace (L + 1 - h `min` (L + 1) + (h `min` (L + 1) - 1)) with L by lia. rewrite !list_lookup_middle by done. cbn.
    destruct (Nat.eqb_spec k (length line)) as [->|Hk'].
    + rewrite lookup_ge_None_2 by lia. by rewrite list_lookup_middle.
    + destruct (decide (k < length line)); [by rewrite lookup_app_l|]. rewrite !lookup_ge_None_2 by (rewrite ?length_app; cbn; lia). done.
  - destruct (decide (L + 1 - h `min` (L + 1) + r < L)); [by rewrite !lookup_app_l by done|].
    rewrite !lookup_ge_None_2 by (rewrite ?length_app; cbn; lia). done.
Qed.

Lemma tput_laid lines c : lines <> [] -> length (default [] (last lines)) <= w -> c <> 13%Z -> c <> 8%Z ->
  alike (tput i c (laid lines)) (laid (extend w c lines)) /\ extend w c lines <> [] /\ length (default [] (last (extend w c lines))) <= w.
Proof using Hok.
  intros Hne Hw H13 H8. destruct (rows_height i n Hok) as (_ & _ & Hc & _). unfold tput, extend. destruct (Z.eqb_spec c 10) as [->|H10].
  { split; [by apply newline_laid|]. split; [by destruct lines|]. rewrite last_snoc. cbn. lia. }
  rewrite (proj2 (Z.eqb_neq c 13)), (proj2 (Z.eqb_neq c 8)) by done. change (tcolumn (laid lines)) with (length (default [] (last lines))).
  destruct lines as [|line lines _] using rev_ind; [done|]. rewrite last_snoc in *. cbn [default from_option id] in *. destruct (Nat.leb_spec w (length line)).
  - split; [|split; [by destruct lines|rewrite last_snoc; cbn; lia]]. rewrite newline_laid by done. apply (draw_laid (lines ++ [line]) [] c). done.
  - rewrite length_app. cbn [length]. rewrite Nat.add_sub, take_app_length. split; [by apply draw_laid|]. split; [by destruct lines|].
    rewrite last_snoc. cbn. rewrite length_app. cbn. lia.
Qed.

Lemma write_text_spec text : forall c done_, shows i n (laid (layout w done_)) c -> Forall (fun ch => to_ascii ch <> 13%Z /\ to_ascii ch <> 8%Z) text ->
  layout w done_ <> [] -> length (default [] (last (layout w done_))) <= w ->
  safe (for_each text (fun ch => write_byte (to_ascii ch))) (fun _ c' => shows i n (laid (layout w (done_ ++ map to_ascii text))) c') (fun _ => False) c.
Proof using Hok.
  destruct (rows_height i n Hok) as (_ & _ & Hc & _).
  induction text as [|ch text IH]; intros c done_ Hs Hf Hne Hw; cbn [for_each map].
  - apply safe_ret. by rewrite app_nil_r.
  - apply Forall_cons in Hf as [[H13 H8] Hf]. destruct (tput_laid _ (to_ascii ch) Hne Hw H13 H8) as (Ha & Hne2 & Hw2). rewrite <- layout_snoc in * by done.
    eapply safe_bind; [exact (write_byte_spec i n Hok _ c (to_ascii ch) Hs)|]. intros [] c1 Hs1. rewrite Ha in Hs1.
    eapply safe_mono; [by apply (IH c1 (done_ ++ [to_ascii ch]))| |done]. intros ? c2 Hs2. by rewrite <- app_assoc in Hs2.
Qed.
End text.

(** C37: what is printed is on the screen. From a cleared frame buffer, whose
    description fits it, any text without carriage returns and backspaces is
    drawn without a panic, and the buffer ends up, byte for byte, as the
    picture of that text: folded to ASCII, broken at its newlines and at the
    width of the screen, its last lines in the rows of the screen, each
    character in its cell as the font draws it in the channels of the pixel
    format, everything else black; and the cursor is after the last one. *)
Theorem screen_shows_the_text i n b text : screen_ok i n -> length b = n ->
  Forall (fun ch => to_ascii ch <> 13%Z /\ to_ascii ch <> 8%Z) text ->
  let lines := layout (columns i) (map to_ascii text) in
  exists c, write_str text (init b i) = (Ok tt, Some c) /\ info c = i /\ length (buffer c) = n /\
    column c = length (default [] (last lines)) /\ row c = rows i `min` length lines - 1 /\
    (forall x y k, x < stride i -> y < height i -> k < bytes_per_pixel i ->
       buffer c !!! ((y * stride i + x) * bytes_per_pixel i + k) =
       match shown_at (rows i) lines (x / WIDTH) (y / HEIGHT) with
       | Some ch => if (x / WIDTH <? columns i) && (y / HEIGHT <? rows i) && lit (glyph ch !!! (y mod HEIGHT)) (x mod WIDTH) then shade i k else 0%Z
       | None => 0%Z
       end) /\
    (forall o, height i * stride i * bytes_per_pixel i <= o < n -> buffer c !!! o = 0%Z).
Proof.
  intros Hok Hb Hf lines. pose proof (rows_height i n Hok) as (Hr & _ & Hc & _). set (c0 := mkConsole (replicate n 0%Z) i 0 0).
  assert (H0 : shows i n (laid i (layout (columns i) [])) c0).
  { split; cbn; [|lia..]. split_and!; cbn [info buffer c0]; [done|apply length_replicate| |].
    - intros x y k Hx Hy Hk. pose proof (at_total i x y k Hx Hy Hk) as Hat. pose proof (sc_buffer _ _ Hok). rewrite lookup_total_replicate by lia.
      unfold inked, laid, shown_at. cbn [cell layout split_lines]. destruct (_ !! _) as [l|] eqn:E; [|by rewrite andb_false_r].
      apply list_elem_of_lookup_2 in E. cbn in E. apply list_elem_of_singleton in E as ->. cbn. by rewrite andb_false_r.
    - intros o Ho. rewrite lookup_total_replicate by lia. done. }
  pose proof (write_text_spec i n Hok text c0 [] H0 Hf ltac:(done) ltac:(cbn; lia)) as Hs. unfold safe in Hs. unfold write_str, init, clear. cbn [buffer info]. rewrite Hb. fold c0.
  destruct (for_each _ _ c0) as [[[]|e|] c]; [|done..]. exists c. cbn [app] in Hs. fold lines in Hs. destruct Hs as [(Hi & Hl & Hp & Ht) [Ec _] [Er _]].
  split_and!; [done..| |done]. intros x y k Hx Hy Hk. specialize (Hp x y k Hx Hy Hk). unfold at_ in Hp. rewrite Hp. unfold inked, laid. cbn [cell].
  destruct (shown_at _ _ _ _) as [ch|]; cbn; [by rewrite orb_false_r|by rewrite andb_false_r].
Qed.

(** A display of two columns and two rows, in three channels. *)
Definition small_screen : FrameBufferInfo := mkInfo 17 35 18 3 Bgr.

Lemma screen_shows_the_text_witness :
  screen_ok small_screen 1900 /\
  exists c, write_str [65; 8212; 66; 10; 67]%Z (init (replicate 1900 7%Z) small_screen) = (Ok tt, Some c) /\ column c = 1 /\ row c = 1 /\
    layout 2 [65; 45; 66; 10; 67]%Z = [ [65; 45]; [66]; [67] ]%Z.
Proof.
  assert (Hok : screen_ok small_screen 1900) by (split; cbn; unfold WIDTH, HEIGHT; lia). split; [exact Hok|].
  destruct (screen_shows_the_text small_screen 1900 (replicate 1900 7%Z) [65; 8212; 66; 10; 67]%Z Hok) as (c & E & _ & _ & Ec & Er & _).
  - apply length_replicate.
  - repeat constructor; done.
  - exists c. split; [exact E|]. split; [exact Ec|]. split; [exact Er|done].
Defined.
