(* ===== verification/Bridge.v ===== *)
(** * The serial ports and the bridge: [kernel/src/serial.rs],
    [kernel/src/ai.rs] and [bridge/bridge.py]

    A UART answers reads of its registers with a script nobody controls; the
    kernel's side of the question-and-answer protocol runs against any such
    script, the bridge's side against any cutting of the wire into chunks. *)

From S2P Require Import Prelude.

#[local] Open Scope Z_scope.
#[local] Arguments has : simpl never.

(** ** The UART *)

Definition COM1 : Z := 1016.
Definition COM2 : Z := 760.
Definition DATA : Z := 0.
Definition INT_ENABLE : Z := 1.
Definition DIVISOR_LO : Z := 0.
Definition DIVISOR_HI : Z := 1.
Definition FIFO_CTRL : Z := 2.
Definition LINE_CTRL : Z := 3.
Definition MODEM_CTRL : Z := 4.
Definition LINE_STATUS : Z := 5.

(** What the ports will answer, what the tick counter will read, what has
    been written to the ports and what has been printed on the console.  A
    read past the script is a machine that has not answered yet. *)
Record Wire := mkWire { answers : list Z; clock : list Z; outs : list (Z * Z); printed : list Z }.

Definition outb (port value : Z) : io Wire unit := fun w =>
  (Ok tt, mkWire (answers w) (clock w) (outs w ++ [(port, value)]) (printed w)).

Definition inb (port : Z) : io Wire Z := fun w =>
  match answers w with
  | [] => (Err "waiting", w)
  | v :: rest => (Ok v, mkWire rest (clock w) (outs w) (printed w))
  end.

Definition ticks : io Wire Z := fun w =>
  match clock w with
  | [] => (Err "waiting", w)
  | t :: rest => (Ok t, mkWire (answers w) rest (outs w) (printed w))
  end.

Definition print (text : list Z) : io Wire unit := fun w =>
  (Ok tt, mkWire (answers w) (clock w) (outs w) (printed w ++ text)).

(** The bytes of a Rust string. *)
Fixpoint bytes (s : string) : list Z :=
  match s with EmptyString => [] | String c rest => Z.of_nat (Ascii.nat_of_ascii c) :: bytes rest end.

Definition println (text : list Z) : io Wire unit := print (text ++ [10]).

(** [SerialPort::init]. *)
Definition init (base : Z) : io Wire unit :=
  _ ← outb (base + INT_ENABLE) 0;
  _ ← outb (base + LINE_CTRL) 128;
  _ ← outb (base + DIVISOR_LO) 3;
  _ ← outb (base + DIVISOR_HI) 0;
  _ ← outb (base + LINE_CTRL) 3;
  _ ← outb (base + FIFO_CTRL) 199;
  outb (base + MODEM_CTRL) 11.

Definition can_send (base : Z) : io Wire bool := v ← inb (base + LINE_STATUS); mret (has v 32).
Definition enable_receive_interrupt (base : Z) : io Wire unit := outb (base + INT_ENABLE) 1.
Definition has_data (base : Z) : io Wire bool := v ← inb (base + LINE_STATUS); mret (has v 1).

Definition try_recv (base : Z) : io Wire (option Z) :=
  ready ← has_data base;
  if (ready : bool) then v ← inb (base + DATA); mret (Some v) else mret None.

(** Loops that end when the device says so: every turn takes an answer, so
    one turn more than there are answers is enough fuel. *)
Definition with_fuel {A} (body : nat -> io Wire A) : io Wire A := fun w => body (S (length (answers w))) w.

(** [while !self.can_send() {}]. *)
Fixpoint spin (fuel : nat) (base : Z) : io Wire unit :=
  match fuel with
  | O => throw "waiting"
  | S fuel => ready ← can_send base; if (ready : bool) then mret tt else spin fuel base
  end.
Definition until_ready (base : Z) : io Wire unit := with_fuel (fun fuel => spin fuel base).

Definition send_raw (base byte : Z) : io Wire unit :=
  _ ← until_ready base; outb (base + DATA) byte.

Definition send (base byte : Z) : io Wire unit :=
  _ ← (if byte =? 10 then _ ← until_ready base; outb (base + DATA) 13 else mret tt);
  _ ← until_ready base;
  outb (base + DATA) byte.

Definition write_str (base : Z) (s : list Z) : io Wire unit := for_each s (send base).

(** [while port.try_recv().is_some() {}], and the same with at most 64. *)
Fixpoint drain (fuel : nat) (base : Z) : io Wire unit :=
  match fuel with
  | O => throw "waiting"
  | S fuel => byte ← try_recv base; match byte with Some _ => drain fuel base | None => mret tt end
  end.

Fixpoint drain_console (drained : nat) : io Wire unit :=
  byte ← try_recv COM1;
  match byte, drained with Some _, S drained => drain_console drained | _, _ => mret tt end.

(** ** The kernel's side *)

Definition REPLY_TIMEOUT_TICKS : Z := 18 * 90.
Definition REPLY_TIMEOUT_SPINS : Z := 60000000.
Definition TERMINATOR : list Z := bytes "END".

Definition write_line (base : Z) (text : list Z) : io Wire unit :=
  _ ← for_each text (send_raw base); send_raw base 10.

Inductive Feed := Hold | Stop | Show (text : list Z) (line_start : bool).

(** What one byte of the reply does, [matched] bytes of the terminator
    being held back. *)
Definition feed (line_start : bool) (matched : nat) (byte : Z) : Feed :=
  if line_start && (matched <? length TERMINATOR)%nat && (byte =? TERMINATOR !!! matched) then Hold
  else if (matched =? length TERMINATOR)%nat && ((byte =? 10) || (byte =? 13)) then Stop
  else if byte =? 13 then Show (take matched TERMINATOR) line_start
  else Show (take matched TERMINATOR ++ [byte]) (byte =? 10).

Definition no_answer : io Wire unit :=
  _ ← println [];
  _ ← println (bytes "[ai  ] no answer from the bridge.");
  _ ← println (bytes "       Start it with:  python3 bridge/bridge.py");
  println (bytes "       It needs ANTHROPIC_API_KEY set in its environment.").

Fixpoint reply_loop (fuel : nat) (base : Z) (use_ticks : bool) (deadline spins : Z) (line_start : bool) (matched : nat) : io Wire unit :=
  match fuel with
  | O => throw "waiting"
  | S fuel =>
      byte ← try_recv base;
      match byte with
      | Some byte =>
          match feed line_start matched byte with
          | Hold => reply_loop fuel base use_ticks deadline 0 line_start (matched + 1)
          | Stop => println []
          | Show text line_start => _ ← print text; reply_loop fuel base use_ticks deadline 0 line_start 0
          end
      | None =>
          let spins := spins + 1 in
          expired ← (if use_ticks then now ← ticks; mret (deadline <? now) else mret (REPLY_TIMEOUT_SPINS <? spins));
          if (expired : bool) then no_answer else reply_loop fuel base use_ticks deadline spins line_start matched
      end
  end.

(** [interrupts_enabled] is the flag of the processor. *)
Definition read_reply (base : Z) (use_ticks : bool) : io Wire unit :=
  now ← ticks;
  let deadline := now +₆₄ REPLY_TIMEOUT_TICKS in
  with_fuel (fun fuel => reply_loop fuel base use_ticks deadline 0 true 0).

Definition exchange (use_ticks : bool) (verb state question : list Z) : io Wire unit :=
  _ ← println [];
  _ ← println (bytes "[ai  ] asking the bridge ...");
  _ ← with_fuel (fun fuel => drain fuel COM2);
  _ ← write_line COM2 verb;
  _ ← write_line COM2 state;
  _ ← for_each [bytes "q: "; question] (fun chunk => for_each chunk (send_raw COM2));
  _ ← send_raw COM2 10;
  _ ← write_line COM2 (bytes "END");
  read_reply COM2 use_ticks.

(** [StateLine]: what does not fit is dropped. *)
Definition LINE_LENGTH : nat := 320.
Definition write_line_buffer (line s : list Z) : list Z := fold_left (fun line byte => if (length line <? LINE_LENGTH)%nat then line ++ [byte] else line) s line.

(** [write!] of a number with [{:#x}] and with [{}]. *)
Fixpoint digits (fuel : nat) (base z : Z) : list Z :=
  match fuel with
  | O => []
  | S fuel => (if z <? base then [] else digits fuel base (z / base)) ++ [if z mod base <? 10 then 48 + z mod base else 87 + z mod base]
  end.
Definition hex (z : Z) : list Z := bytes "0x" ++ digits 16 16 z.
Definition decimal (z : Z) : list Z := digits 20 10 z.

Record Registers := mkRegisters { cr0 : Z; cr2 : Z; cr3 : Z; cr4 : Z; cs : Z; rsp : Z }.

Definition capture (r : Registers) (ticks : Z) : list Z :=
  fold_left write_line_buffer
    [ bytes "state: cr0="; hex (cr0 r); bytes " cr2="; hex (cr2 r); bytes " cr3="; hex (cr3 r); bytes " cr4="; hex (cr4 r);
      bytes " cs="; hex (cs r); bytes " rsp="; hex (rsp r); bytes " ring="; decimal (Z.land (cs r) 3); bytes " ticks="; decimal ticks ] [].

Definition ask (use_ticks : bool) (r : Registers) (question : list Z) : io Wire unit :=
  now ← ticks; exchange use_ticks (bytes "5AMOS/1 ASK") (capture r now) question.

(** ** The bridge's side

    Text is a list of code points; on ASCII the codecs are the identity. *)

Fixpoint prefixes (p l : list Z) : bool :=
  match p, l with
  | [], _ => true
  | x :: p, y :: l => (x =? y) && prefixes p l
  | _, [] => false
  end.

Fixpoint contains (p l : list Z) : bool :=
  prefixes p l || match l with [] => false | _ :: l => contains p l end.

Definition remove_cr (l : list Z) : list Z := List.filter (fun b => negb (b =? 13)) l.

(** [text.split("\n")]. *)
Fixpoint split (l : list Z) : list (list Z) :=
  match l with
  | [] => [ [] ]
  | b :: l => if b =? 10 then [] :: split l else match split l with line :: lines => (b :: line) :: lines | [] => [ [b] ] end
  end.

(** [str.strip()] on ASCII. *)
Definition is_space (b : Z) : bool := ((9 <=? b) && (b <=? 13)) || ((28 <=? b) && (b <=? 32)).
Fixpoint lstrip (l : list Z) : list Z := match l with b :: l' => if is_space b then lstrip l' else l | [] => [] end.
Definition strip (l : list Z) : list Z := reverse (lstrip (reverse (lstrip l))).

(** [read_request]: chunks arrive until the request is whole; an empty one
    is the end of the connection. *)
Fixpoint whole (buffer : list Z) (chunks : list (list Z)) : option (list Z) :=
  if contains (10 :: bytes "END" ++ [10]) (remove_cr buffer) then Some buffer
  else match chunks with
       | [] | [] :: _ => None
       | chunk :: chunks => whole (buffer ++ chunk) chunks
       end.

Record Request := mkRequest { verb : list Z; state : list Z; question : list Z }.

Fixpoint parse (lines : list (list Z)) (r : Request) : Request :=
  match lines with
  | [] => r
  | line :: lines =>
      if prefixes (bytes "5AMOS/1 ") line then parse lines (mkRequest (strip (drop 8 line)) (state r) (question r))
      else if prefixes (bytes "state:") line then parse lines (mkRequest (verb r) line (question r))
      else if prefixes (bytes "q: ") line then parse lines (mkRequest (verb r) (state r) (drop 3 line))
      else if bool_decide (line = bytes "END") then r
      else parse lines r
  end.

Definition read_request (chunks : list (list Z)) : option Request :=
  match whole [] chunks with
  | None => None
  | Some buffer => Some (parse (split (remove_cr buffer)) (mkRequest (bytes "ASK") [] []))
  end.

(** ["\n".join(lines)]. *)
Fixpoint join_lines (lines : list (list Z)) : list Z :=
  match lines with [] => [] | [line] => line | line :: lines => line ++ 10 :: join_lines lines end.

Definition guard_line (line : list Z) : list Z := if bool_decide (strip line = bytes "END") then bytes " END" else line.
Definition safe_text (text : list Z) : list Z := join_lines (map guard_line (split text)).
Definition send_reply (text : list Z) : list Z := safe_text text ++ 10 :: bytes "END" ++ [10].

(** ** Sending *)

(** A script in which the transmitter takes [n] bytes, each when it is
    ready. *)
Inductive paced : nat -> list Z -> Prop :=
| paced_done : paced 0 []
| paced_byte n busy ready rest : Forall (fun v => has v 32 = false) busy -> has ready 32 = true -> paced n rest -> paced (S n) (busy ++ ready :: rest).

Lemma can_send_run base v rest clock outs printed : can_send base (mkWire (v :: rest) clock outs printed) = (Ok (has v 32), mkWire rest clock outs printed).
Proof. done. Qed.
Lemma try_recv_none base v rest clock outs printed : has v 1 = false -> try_recv base (mkWire (v :: rest) clock outs printed) = (Ok None, mkWire rest clock outs printed).
Proof. intros H. unfold try_recv. rewrite (io_bind_run _ _ _ (has v 1) (mkWire rest clock outs printed)) by done. by rewrite H. Qed.
Lemma try_recv_some base v b rest clock outs printed : has v 1 = true -> try_recv base (mkWire (v :: b :: rest) clock outs printed) = (Ok (Some b), mkWire rest clock outs printed).
Proof. intros H. unfold try_recv. rewrite (io_bind_run _ _ _ (has v 1) (mkWire (b :: rest) clock outs printed)) by done. by rewrite H. Qed.

Lemma spin_run base busy ready rest clock outs printed fuel : Forall (fun v => has v 32 = false) busy -> has ready 32 = true -> (length busy < fuel)%nat ->
  spin fuel base (mkWire (busy ++ ready :: rest) clock outs printed) = (Ok tt, mkWire rest clock outs printed).
Proof.
  intros Hb Hr. revert fuel. induction Hb as [|v busy Hv _ IH]; intros fuel Hf; (destruct fuel as [|fuel]; [cbn in Hf; lia|]).
  - cbn [spin app]. rewrite (io_bind_run _ _ _ _ _ (can_send_run _ _ _ _ _ _)). by rewrite Hr.
  - cbn [spin app]. rewrite (io_bind_run _ _ _ _ _ (can_send_run _ _ _ _ _ _)). rewrite Hv. apply IH. cbn in Hf. lia.
Qed.

Lemma send_raw_run base byte n script w rest : paced (S n) script -> answers w = script ++ rest -> exists script', paced n script' /\
  send_raw base byte w = (Ok tt, mkWire (script' ++ rest) (clock w) (outs w ++ [(base + DATA, byte)]) (printed w)).
Proof.
  intros Hp Ha. inversion Hp as [|n' busy ready script' Hb Hr Hp' E1 E2]; subst. exists script'. split; [done|]. unfold send_raw, until_ready, with_fuel.
  destruct w as [ans clk out prt]. cbn [answers] in Ha. subst ans. rewrite <- app_assoc. cbn [app].
  erewrite io_bind_run; [|apply (spin_run base busy ready (script' ++ rest)); [done|done|cbn [answers]; rewrite length_app; cbn; lia]]. done.
Qed.

Lemma send_bytes_run base l : forall script w rest, paced (length l) script -> answers w = script ++ rest ->
  for_each l (send_raw base) w = (Ok tt, mkWire rest (clock w) (outs w ++ map (pair (base + DATA)) l) (printed w)).
Proof.
  induction l as [|b l IH]; intros script w rest Hp Ha; cbn [for_each map length] in *.
  - inversion Hp; subst. rewrite app_nil_r. destruct w. cbn in *. by subst.
  - destruct (send_raw_run base b _ _ w rest Hp Ha) as (script' & Hp' & E). rewrite (io_bind_run _ _ _ _ _ E). rewrite (IH script' _ rest Hp') by done. cbn. by rewrite <- app_assoc.
Qed.

Lemma for_each_app_io {S A} (l1 l2 : list A) (body : A -> io S unit) (s : S) : for_each (l1 ++ l2) body s = (_ ← for_each l1 body; for_each l2 body) s.
Proof.
  revert s. induction l1 as [|x l1 IH]; intros s; [done|]. cbn [app for_each]. unfold mbind, io_bind. destruct (body x s) as [[[]|e|] s1]; [|done..].
  rewrite IH. unfold mbind, io_bind. done.
Qed.

(** Everything a request sends, as one run of bytes. *)
Definition request (verb state question : list Z) : list Z := verb ++ 10 :: state ++ 10 :: bytes "q: " ++ question ++ 10 :: bytes "END" ++ [10].

Lemma send_request verb state question w (K : io Wire unit) :
  (_ ← write_line COM2 verb; _ ← write_line COM2 state; _ ← for_each [bytes "q: "; question] (fun chunk => for_each chunk (send_raw COM2));
   _ ← send_raw COM2 10; _ ← write_line COM2 (bytes "END"); K) w =
  (_ ← for_each (request verb state question) (send_raw COM2); K) w.
Proof.
  assert (bind_assoc : forall (m1 m2 m3 : io Wire unit) w, ((_ ← (_ ← m1; m2); m3) w = (_ ← m1; _ ← m2; m3) w)).
  { intros m1 m2 m3 w0. unfold mbind, io_bind. by destruct (m1 w0) as [[[]|e|] w1]. }
  assert (bind_ext : forall (m k1 k2 : io Wire unit) w, (forall w, k1 w = k2 w) -> (_ ← m; k1) w = (_ ← m; k2) w).
  { intros m k1 k2 w0 He. unfold mbind, io_bind. destruct (m w0) as [[[]|e|] w1]; [apply He|done..]. }
  assert (split_app : forall l1 l2 (K : io Wire unit) w, (_ ← for_each (l1 ++ l2) (send_raw COM2); K) w = (_ ← for_each l1 (send_raw COM2); _ ← for_each l2 (send_raw COM2); K) w).
  { intros l1 l2 K0 w0. rewrite <- bind_assoc. unfold mbind, io_bind. rewrite for_each_app_io. done. }
  assert (one : forall b (K : io Wire unit) w, (_ ← send_raw COM2 b; K) w = (_ ← for_each [b] (send_raw COM2); K) w).
  { intros b K0 w0. cbn [for_each]. rewrite bind_assoc. apply bind_ext. done. }
  assert (line : forall l (K : io Wire unit) w, (_ ← write_line COM2 l; K) w = (_ ← for_each l (send_raw COM2); _ ← for_each [10] (send_raw COM2); K) w).
  { intros l K0 w0. unfold write_line. rewrite bind_assoc. apply bind_ext. intros w1. apply one. }
  assert (ret_l : forall (K : io Wire unit) w, (_ ← (mret tt : io Wire unit); K) w = K w) by done.
  unfold request. change (10 :: state ++ ?l) with ([10] ++ state ++ l). change (10 :: bytes "q: " ++ ?l) with ([10] ++ bytes "q: " ++ l).
  change (10 :: bytes "END" ++ [10]) with ([10] ++ bytes "END" ++ [10]).
  rewrite line, !split_app. apply bind_ext. intros w1. rewrite split_app. apply bind_ext. intros w2. rewrite line, split_app. apply bind_ext. intros w3.
  rewrite split_app. apply bind_ext. intros w4. cbn [for_each]. rewrite bind_assoc, split_app. apply bind_ext. intros w5. rewrite !bind_assoc, split_app. apply bind_ext. intros w6.
  rewrite ret_l, one, split_app. apply bind_ext. intros w7. by rewrite line, split_app.
Qed.

(** ** Listening *)

(** One poll of the port: a status with a byte behind it, or a status with
    none and what the tick counter says then. *)
Inductive Poll := Byte (status byte : Z) | Quiet (status tick : Z).

Definition poll_ok (p : Poll) : Prop := match p with Byte s _ => has s 1 = true | Quiet s _ => has s 1 = false end.
Definition answers_of (polls : list Poll) : list Z := flat_map (fun p => match p with Byte s b => [s; b] | Quiet s _ => [s] end) polls.
Definition clock_of (use_ticks : bool) (polls : list Poll) : list Z :=
  if use_ticks then flat_map (fun p => match p with Quiet _ t => [t] | Byte _ _ => [] end) polls else [].
Definition bytes_of (polls : list Poll) : list Z := flat_map (fun p => match p with Byte _ b => [b] | Quiet _ _ => [] end) polls.

(** Polls during which the kernel does not lose patience. *)
Definition patient (use_ticks : bool) (deadline spins : Z) (polls : list Poll) : Prop :=
  if use_ticks then Forall (fun p => match p with Quiet _ t => t <= deadline | Byte _ _ => True end) polls
  else spins + Z.of_nat (length polls) <= REPLY_TIMEOUT_SPINS.

(** What a run of bytes makes of the reply: what is shown until the
    terminator, and what is left. *)
Fixpoint hear (line_start : bool) (matched : nat) (l : list Z) : option (list Z * list Z) :=
  match l with
  | [] => None
  | b :: l =>
      match feed line_start matched b with
      | Hold => hear line_start (matched + 1) l
      | Stop => Some ([], l)
      | Show text line_start => match hear line_start 0 l with Some (shown, rest) => Some (text ++ shown, rest) | None => None end
      end
  end.

Lemma reply_loop_run base use_ticks deadline polls : forall spins line_start matched shown left w arest crest fuel,
  Forall poll_ok polls -> 0 <= spins -> patient use_ticks deadline spins polls -> hear line_start matched (bytes_of polls) = Some (shown, left) ->
  answers w = answers_of polls ++ arest -> clock w = clock_of use_ticks polls ++ crest -> (length polls < fuel)%nat ->
  exists later, bytes_of later = left /\ reply_loop fuel base use_ticks deadline spins line_start matched w =
    (Ok tt, mkWire (answers_of later ++ arest) (clock_of use_ticks later ++ crest) (outs w) (printed w ++ shown ++ [10])).
Proof.
  induction polls as [|p polls IH]; intros spins ls m shown left w arest crest fuel Hok Hs Hp Hh Ha Hc Hf; [done|].
  apply Forall_cons in Hok as [Hp1 Hok]. destruct fuel as [|fuel]; [cbn in Hf; lia|]. cbn [length] in Hf. destruct w as [ans clk out prt]. cbn [answers clock outs printed] in *. subst ans clk.
  destruct p as [s b|s t]; cbn [poll_ok] in Hp1; cbn [reply_loop].
  - change (answers_of (Byte s b :: polls)) with (s :: b :: answers_of polls). change (clock_of use_ticks (Byte s b :: polls)) with (if use_ticks then clock_of true polls else []).
    cbn [app]. rewrite (io_bind_run _ _ _ _ _ (try_recv_some _ _ _ _ _ _ _ Hp1)). cbv beta iota. cbn [bytes_of flat_map app hear] in Hh. fold (bytes_of polls) in Hh.
    assert (Hp' : patient use_ticks deadline 0 polls) by (unfold patient in *; destruct use_ticks; [apply Forall_cons in Hp as [_ Hp]; exact Hp|cbn [length] in Hp; lia]).
    replace (if use_ticks then clock_of true polls else []) with (clock_of use_ticks polls) by (by destruct use_ticks).
    destruct (feed ls m b) as [| |text ls'].
    + apply IH; (done || lia).
    + injection Hh as <- <-. exists polls. split; [done|]. done.
    + destruct (hear ls' 0 (bytes_of polls)) as [[shown' left']|] eqn:Eh; [|done]. injection Hh as <- <-.
      rewrite (io_bind_run (print text) _ _ tt _ eq_refl). cbn [answers clock outs printed].
      destruct (IH 0 ls' 0%nat shown' left' (mkWire (answers_of polls ++ arest) (clock_of use_ticks polls ++ crest) out (prt ++ text)) arest crest fuel) as (later & El & E); [done..|lia|].
      exists later. split; [done|]. rewrite E. cbn. by rewrite <- !app_assoc.
  - change (answers_of (Quiet s t :: polls)) with (s :: answers_of polls).
    cbn [app]. rewrite (io_bind_run _ _ _ _ _ (try_recv_none _ _ _ _ _ _ Hp1)). cbv beta iota zeta. cbn [bytes_of flat_map app] in Hh. fold (bytes_of polls) in Hh. unfold patient in Hp. cbn [length] in Hp.
    destruct use_ticks.
    + apply Forall_cons in Hp as [Ht Hp]. change (clock_of true (Quiet s t :: polls)) with (t :: clock_of true polls). cbn [app].
      rewrite (io_bind_run _ _ _ false (mkWire (answers_of polls ++ arest) (clock_of true polls ++ crest) out prt)); [|unfold mbind, io_bind, mret, io_ret; cbn; rewrite (proj2 (Z.ltb_ge deadline t)) by lia; reflexivity].
      cbv iota. apply (IH (spins + 1)); (done || lia).
    + change (clock_of false (Quiet s t :: polls)) with (clock_of false polls).
      rewrite (io_bind_run _ _ _ false (mkWire (answers_of polls ++ arest) (clock_of false polls ++ crest) out prt)); [|unfold mret, io_ret; rewrite (proj2 (Z.ltb_ge REPLY_TIMEOUT_SPINS (spins + 1))) by lia; reflexivity].
      cbv iota. apply (IH (spins + 1)); try done; [lia|unfold patient; lia|lia].
Qed.

Lemma feed_plain b : b <> 10 -> b <> 13 -> feed false 0 b = Show [b] false.
Proof. intros H10 H13. unfold feed. rewrite (proj2 (Z.eqb_neq b 13)), (proj2 (Z.eqb_neq b 10)) by done. done. Qed.

(** A line of a reply that is not the terminator is shown whole. *)
Lemma hear_line line rest : Forall (fun b => b <> 10 /\ b <> 13) line -> line <> TERMINATOR ->
  hear true 0 (line ++ 10 :: rest) = match hear true 0 rest with Some (shown, after) => Some (line ++ 10 :: shown, after) | None => None end.
Proof.
  intros Hl Hne.
  assert (Hplain : forall line, Forall (fun b => b <> 10 /\ b <> 13) line -> hear false 0 (line ++ 10 :: rest) = match hear true 0 rest with Some (shown, after) => Some (line ++ 10 :: shown, after) | None => None end).
  { clear. induction 1 as [|b line [H10 H13] _ IH]; [done|]. cbn [app hear]. rewrite feed_plain, IH by done. by destruct (hear true 0 rest) as [[]|]. }
  assert (Hheld : forall m line, (m <= 3)%nat -> Forall (fun b => b <> 10 /\ b <> 13) line -> take m TERMINATOR ++ line <> TERMINATOR ->
    hear true m (line ++ 10 :: rest) = match hear true 0 rest with Some (shown, after) => Some (take m TERMINATOR ++ line ++ 10 :: shown, after) | None => None end); [|apply (Hheld 0%nat line); [lia|done|done]].
  clear line Hl Hne. intros m line Hm Hl. revert m Hm. induction Hl as [|b line [H10 H13] Hl IH]; intros m Hm Hne; cbn [app hear].
  - rewrite app_nil_r in Hne. assert (Ef : (m < 3)%nat -> feed true m 10 = Show (take m TERMINATOR ++ [10]) true) by (intros; destruct m as [|[|[|]]]; [done..|lia]).
    rewrite Ef by (destruct (decide (m = 3%nat)) as [->|]; [done|lia]). destruct (hear true 0 rest) as [[]|]; [|done]. by rewrite <- app_assoc.
  - unfold feed. destruct (true && (m <? length TERMINATOR)%nat && (b =? TERMINATOR !!! m)) eqn:Eh.
    + apply andb_true_iff in Eh as [Em Eb%Z.eqb_eq]. cbn [andb] in Em. apply Nat.ltb_lt in Em. change (length TERMINATOR) with 3%nat in Em.
      assert (Et : take (m + 1) TERMINATOR = take m TERMINATOR ++ [b]) by (rewrite Nat.add_1_r, Eb; destruct m as [|[|[|m]]]; [done..|lia]).
      rewrite IH; [|lia|rewrite Et, <- app_assoc; done]. rewrite Et. destruct (hear true 0 rest) as [[]|]; [|done]. by rewrite <- app_assoc.
    + rewrite (proj2 (Z.eqb_neq b 13)), (proj2 (Z.eqb_neq b 10)) by done. cbn [orb]. rewrite andb_false_r. rewrite Hplain by done.
      destruct (hear true 0 rest) as [[]|]; [|done]. by rewrite <- app_assoc.
Qed.

Lemma hear_lines lines rest : Forall (fun line => Forall (fun b => b <> 10 /\ b <> 13) line /\ line <> TERMINATOR) lines ->
  hear true 0 (mjoin (map (fun line => line ++ [10]) lines) ++ bytes "END" ++ 10 :: rest) = Some (mjoin (map (fun line => line ++ [10]) lines), rest).
Proof.
  induction 1 as [|line lines [Hl Hne] _ IH]; [done|].
  change (mjoin (map ?f (line :: lines))) with ((line ++ [10]) ++ mjoin (map f lines)). rewrite <- (app_assoc (line ++ [10])), <- (app_assoc line). cbn [app].
  rewrite hear_line, IH by done. rewrite <- app_assoc. done.
Qed.

(** ** The two ends meet *)

Lemma split_nonempty l : split l <> [].
Proof. destruct l as [|b l]; [done|]. cbn. case_match; [done|]. by case_match. Qed.

Lemma split_app a b : split (a ++ 10 :: b) = split a ++ split b.
Proof.
  induction a as [|x a IH]; [done|]. cbn [app split]. rewrite IH. destruct (x =? 10); [done|].
  pose proof (split_nonempty a). by destruct (split a).
Qed.

Lemma split_line l : Forall (fun b => b <> 10) l -> split l = [l].
Proof. induction 1 as [|b l Hb _ IH]; [done|]. cbn. rewrite (proj2 (Z.eqb_neq b 10)) by done. by rewrite IH. Qed.

Lemma split_lines_plain P l : Forall P l -> Forall (fun line => Forall (fun b => b <> 10 /\ P b) line) (split l).
Proof.
  induction 1 as [|b l Hb _ IH]; cbn [split]; [by repeat constructor|]. destruct (Z.eqb_spec b 10); [by constructor|].
  destruct (split l) as [|line lines]; [by repeat constructor|]. apply Forall_cons in IH as [Hl Hls]. by repeat constructor.
Qed.

Lemma join_terminated lines : lines <> [] -> join_lines lines ++ [10] = mjoin (map (fun line => line ++ [10]) lines).
Proof.
  intros Hne. induction lines as [|line lines IH]; [done|]. destruct lines as [|line2 lines].
  - cbn. by rewrite app_nil_r.
  - change (join_lines (line :: line2 :: lines)) with (line ++ 10 :: join_lines (line2 :: lines)).
    change (mjoin (map ?f (line :: line2 :: lines))) with ((line ++ [10]) ++ mjoin (map f (line2 :: lines))).
    rewrite <- IH by done. by rewrite <- !app_assoc.
Qed.

(** What the bridge sends is heard whole. *)
Lemma hear_reply text : Forall (fun b => b <> 13) text -> hear true 0 (send_reply text) = Some (safe_text text ++ [10], []).
Proof.
  intros Ht. unfold send_reply, safe_text. set (lines := map guard_line (split text)).
  assert (Hne : lines <> []) by (unfold lines; pose proof (split_nonempty text); by destruct (split text)).
  change (10 :: bytes "END" ++ [10]) with ([10] ++ bytes "END" ++ 10 :: []). rewrite app_assoc, join_terminated by done.
  apply (hear_lines lines []). unfold lines. apply Forall_map. eapply Forall_impl; [apply (split_lines_plain _ _ Ht)|]. intros line Hl. cbn. unfold guard_line.
  case_bool_decide as Hs; [split; [by repeat constructor|done]|]. split; [exact Hl|]. intros ->. by apply Hs.
Qed.

Lemma prefixes_app p l : prefixes p l = true <-> exists r, l = p ++ r.
Proof.
  revert l. induction p as [|x p IH]; intros l; cbn; [split; eauto|]. destruct l as [|y l]; [split; [done|by intros []]|].
  rewrite andb_true_iff, IH, Z.eqb_eq. split; [intros (-> & r & ->); eauto|intros (r & [= -> ->]); eauto].
Qed.

Lemma contains_app p l : contains p l = true <-> exists a b, l = a ++ p ++ b.
Proof.
  induction l as [|y l IH]; cbn [contains]; rewrite orb_true_iff, prefixes_app.
  - split; [intros [(r & ->)|]; [by exists [], r|done]|]. intros (a & b & H). left. exists b. by destruct a.
  - rewrite IH. split; [intros [(r & ->)|(a & b & ->)]; [by exists [], r|by exists (y :: a), b]|]. intros ([|x a] & b & H); cbn in H; [left; by exists b|].
    injection H as -> ->. right. by exists a, b.
Qed.

Abbreviation plain := (Forall (fun b => b <> 10 /\ b <> 13)).

Lemma remove_cr_id l : Forall (fun b => b <> 13) l -> remove_cr l = l.
Proof. induction 1 as [|b l Hb _ IH]; [done|]. change (remove_cr (b :: l)) with (if negb (b =? 13) then b :: remove_cr l else remove_cr l). rewrite (proj2 (Z.eqb_neq b 13)) by done. by rewrite IH. Qed.

Lemma plain_10 l : plain l -> Forall (fun b => b <> 10) l.
Proof. intros H. eapply Forall_impl; [exact H|]. by intros b []. Qed.
Lemma plain_13 l : plain l -> Forall (fun b => b <> 13) l.
Proof. intros H. eapply Forall_impl; [exact H|]. by intros b []. Qed.

Lemma request_split verb state question : plain verb -> plain state -> plain question ->
  split (request verb state question) = [verb; state; bytes "q: " ++ question; bytes "END"; [] ].
Proof.
  intros Hv Hs Hq. unfold request. rewrite split_app, (split_line verb) by (by apply plain_10). rewrite split_app, (split_line state) by (by apply plain_10).
  rewrite (app_assoc (bytes "q: ") question), split_app, (split_line (bytes "q: " ++ question)); [done|]. apply Forall_app. split; [by repeat constructor|by apply plain_10].
Qed.

Lemma request_no_cr verb state question : plain verb -> plain state -> plain question -> Forall (fun b => b <> 13) (request verb state question).
Proof.
  intros Hv%plain_13 Hs%plain_13 Hq%plain_13. unfold request.
  repeat ((apply Forall_app; split; [done || by repeat constructor|]) || (apply Forall_cons; split; [done|])). by repeat constructor.
Qed.

(** The end of a request is where it ends and nowhere before. *)
Lemma request_ends_once verb state question p s : plain verb -> plain state -> plain question ->
  verb <> bytes "END" -> state <> bytes "END" -> request verb state question = p ++ s ->
  contains (10 :: bytes "END" ++ [10]) p = true -> s = [].
Proof.
  intros Hv Hs Hq Hve Hse E (a & b & ->)%contains_app. pose proof (request_split verb state question Hv Hs Hq) as Hsp. rewrite E in Hsp.
  change (10 :: bytes "END" ++ [10]) with (10 :: bytes "END" ++ 10 :: []) in *. rewrite <- !app_assoc in Hsp. cbn [app] in Hsp. rewrite <- app_assoc in Hsp. cbn [app] in Hsp.
  rewrite split_app, split_app, (split_line (bytes "END")) in Hsp by (by repeat constructor).
  assert (split (b ++ s) = [ [] ]) as Hend.
  { pose proof (split_nonempty a) as Ha. pose proof (split_nonempty (b ++ s)) as Hb. assert (Hq3 : bytes "END" <> bytes "q: " ++ question) by done.
    destruct (split a) as [|a1 [|a2 [|a3 [|a4 la] ] ] ]; cbn [app] in Hsp; [done| | | |]; [congruence..| |].
    - by injection Hsp as _ _ _ ->.
    - injection Hsp as _ _ _ _ Hla. exfalso. destruct la as [|a5 la]; cbn [app] in Hla; [by injection Hla as Hla; subst|].
      injection Hla as _ Hla. by destruct la. }
  destruct (b ++ s) as [|x l] eqn:Ebs; [by apply app_nil in Ebs as []|]. cbn in Hend. destruct (x =? 10).
  - by destruct (split l) eqn:El; [apply split_nonempty in El|].
  - by destruct (split l).
Qed.

Lemma whole_request verb state question chunks : plain verb -> plain state -> plain question -> verb <> bytes "END" -> state <> bytes "END" ->
  forall buffer, mjoin chunks <> [] -> buffer ++ mjoin chunks = request verb state question -> Forall (fun c => c <> []) chunks ->
  whole buffer chunks = Some (request verb state question).
Proof.
  intros Hv Hs Hq Hve Hse. pose proof (request_no_cr _ _ _ Hv Hs Hq) as Hcr.
  induction chunks as [|chunk chunks IH]; intros buffer Hne E Hc; [done|]. apply Forall_cons in Hc as [Hc1 Hc]. cbn [whole].
  assert (Hb : Forall (fun b => b <> 13) buffer) by (rewrite <- E in Hcr; by apply Forall_app in Hcr as []). rewrite remove_cr_id by done.
  destruct (contains _ buffer) eqn:Eb.
  - exfalso. apply Hne. by apply (request_ends_once verb state question buffer).
  - destruct chunk as [|x chunk]; [done|]. change (mjoin ((x :: chunk) :: chunks)) with ((x :: chunk) ++ mjoin chunks) in E.
    destruct (mjoin chunks) as [|y m] eqn:Em.
    + rewrite app_nil_r in E. destruct chunks as [|c2 chunks]; [|by apply Forall_cons in Hc as [Hc2 _]; destruct c2].
      cbn [whole]. rewrite E, remove_cr_id by done. rewrite (proj2 (contains_app _ _)); [done|]. unfold request.
      exists (verb ++ 10 :: state ++ 10 :: bytes "q: " ++ question), []. cbn [app]. rewrite <- !app_assoc. cbn [app]. by rewrite <- !app_assoc.
    + apply IH; [done| |done]. by rewrite <- app_assoc.
Qed.

Lemma read_request_spec verb state question chunks : plain verb -> plain state -> plain question ->
  mjoin chunks = request (bytes "5AMOS/1 " ++ verb) (bytes "state:" ++ state) question -> Forall (fun c => c <> []) chunks ->
  read_request chunks = Some (mkRequest (strip verb) (bytes "state:" ++ state) question).
Proof.
  intros Hv Hs Hq E Hc. unfold read_request.
  assert (Hv' : plain (bytes "5AMOS/1 " ++ verb)) by (apply Forall_app; split; [by repeat constructor|done]).
  assert (Hs' : plain (bytes "state:" ++ state)) by (apply Forall_app; split; [by repeat constructor|done]).
  rewrite (whole_request (bytes "5AMOS/1 " ++ verb) (bytes "state:" ++ state) question chunks) by (done || by rewrite E).
  rewrite remove_cr_id by (by apply request_no_cr). rewrite request_split by done. done.
Qed.

Lemma write_line_buffer_spec s : forall line, (length line <= LINE_LENGTH)%nat -> write_line_buffer line s = take LINE_LENGTH (line ++ s).
Proof.
  induction s as [|b s IH]; intros line Hl; [by rewrite app_nil_r, take_ge|]. unfold write_line_buffer in *. cbn [fold_left]. destruct (Nat.ltb_spec (length line) LINE_LENGTH) as [Hlt|Hge].
  - rewrite (IH (line ++ [b])) by (rewrite length_app; cbn; lia). by rewrite <- app_assoc.
  - rewrite (IH line) by done. rewrite !take_app, !(take_ge line) by lia. replace (LINE_LENGTH - length line)%nat with 0%nat by lia. by rewrite !take_0.
Qed.

Lemma take_take_app {A} n (l1 l2 : list A) : take n (take n l1 ++ l2) = take n (l1 ++ l2).
Proof.
  destruct (decide (n <= length l1)%nat).
  - rewrite !take_app_le, take_take by (rewrite ?length_take; lia). f_equal. lia.
  - by rewrite (take_ge l1) by lia.
Qed.

Lemma write_pieces_spec pieces : forall line, (length line <= LINE_LENGTH)%nat -> fold_left write_line_buffer pieces line = take LINE_LENGTH (line ++ mjoin pieces).
Proof.
  induction pieces as [|p pieces IH]; intros line Hl; cbn [fold_left]; [by rewrite app_nil_r, take_ge|].
  rewrite IH; rewrite write_line_buffer_spec by done; [|rewrite length_take; lia]. change (mjoin (p :: pieces)) with (p ++ mjoin pieces). rewrite app_assoc.
  apply take_take_app.
Qed.

Lemma digits_plain fuel base z : 0 < base -> plain (digits fuel base z).
Proof.
  intros Hb. revert z. induction fuel as [|fuel IH]; intros z; [constructor|]. cbn [digits]. apply Forall_app. split; [case_match; [constructor|apply IH]|].
  pose proof (Z.mod_pos_bound z base Hb). constructor; [|constructor]. destruct (Z.ltb_spec (z mod base) 10); lia.
Qed.

(** The state the kernel sends is one line that says what it is. *)
Lemma capture_spec r now : exists rest, capture r now = bytes "state:" ++ rest /\ plain rest.
Proof.
  unfold capture. rewrite write_pieces_spec by (unfold LINE_LENGTH; cbn; lia). cbn [app].
  assert (Hh : forall z, plain (hex z)) by (intros z; apply Forall_app; split; [by repeat constructor|by apply digits_plain]).
  assert (Hd : forall z, plain (decimal z)) by (intros z; by apply digits_plain).
  set (pieces := [hex (cr0 r); _; _; _; _; _; _; _; _; _; _; _; _; _; _]). change (mjoin _) with (bytes "state:" ++ bytes " cr0=" ++ mjoin pieces).
  exists (take (LINE_LENGTH - 6) (bytes " cr0=" ++ mjoin pieces)). split; [by rewrite take_app|]. apply Forall_take, Forall_app. split; [by repeat constructor|].
  apply Forall_join. unfold pieces. repeat (constructor; [apply Hh || apply Hd || by repeat constructor|]). constructor.
Qed.

(** Stale bytes are thrown away until the port is quiet. *)
Definition stale_ok (p : Z * Z) : Prop := has p.1 1 = true.
Definition stale_answers (stale : list (Z * Z)) : list Z := flat_map (fun p => [p.1; p.2]) stale.

Lemma drain_run base quiet stale : forall ans clk out prt fuel, Forall stale_ok stale -> has quiet 1 = false -> (length stale < fuel)%nat ->
  drain fuel base (mkWire (stale_answers stale ++ quiet :: ans) clk out prt) = (Ok tt, mkWire ans clk out prt).
Proof.
  induction stale as [|[s b] stale IH]; intros ans clk out prt fuel Hs Hq Hf; (destruct fuel as [|fuel]; [cbn in Hf; lia|]); cbn [drain].
  - cbn [stale_answers flat_map app]. by rewrite (io_bind_run _ _ _ _ _ (try_recv_none _ _ _ _ _ _ Hq)).
  - apply Forall_cons in Hs as [Hs1 Hs]. cbn [stale_answers flat_map app fst snd]. rewrite (io_bind_run _ _ _ _ _ (try_recv_some _ _ _ _ _ _ _ Hs1)).
    apply IH; [done|done|cbn in Hf; lia].
Qed.

Lemma with_fuel_run {A} (body : nat -> io Wire A) w r : body (S (length (answers w))) w = r -> with_fuel body w = r.
Proof. done. Qed.

Lemma stale_length stale : (length stale <= length (stale_answers stale))%nat.
Proof. unfold stale_answers. induction stale as [|p stale IH]; [done|]. cbn in *. lia. Qed.
Lemma polls_length polls : (length polls <= length (answers_of polls))%nat.
Proof. unfold answers_of. induction polls as [|[] polls IH]; [done|cbn in *; lia..]. Qed.


Lemma silence_run base deadline polls late : forall spins ls m w arest crest fuel,
  Forall (fun p => exists s t, p = Quiet s t /\ has s 1 = false /\ t <= deadline) polls -> has late.1 1 = false -> deadline < late.2 ->
  answers w = answers_of polls ++ late.1 :: arest -> clock w = clock_of true polls ++ late.2 :: crest -> (length polls < fuel)%nat ->
  reply_loop fuel base true deadline spins ls m w = no_answer (mkWire arest crest (outs w) (printed w)).
Proof.
  destruct late as [s' t']. cbn [fst snd]. induction polls as [|p polls IH]; intros spins ls m [ans clk out prt] arest crest fuel Hp Hl Ht Ha Hc Hf; (destruct fuel as [|fuel]; [cbn in Hf; lia|]);
    cbn [answers clock outs printed] in *; subst ans clk; cbn [reply_loop].
  - cbn [answers_of clock_of flat_map app]. rewrite (io_bind_run _ _ _ _ _ (try_recv_none _ _ _ _ _ _ Hl)). cbv beta iota zeta.
    erewrite io_bind_run; [|unfold mbind, io_bind; cbn; rewrite (proj2 (Z.ltb_lt _ _) Ht); reflexivity]. done.
  - apply Forall_cons in Hp as [(s & t & -> & Hs & Htd) Hp]. change (answers_of (Quiet s t :: polls)) with (s :: answers_of polls). change (clock_of true (Quiet s t :: polls)) with (t :: clock_of true polls).
    cbn [app]. rewrite (io_bind_run _ _ _ _ _ (try_recv_none _ _ _ _ _ _ Hs)). cbv beta iota zeta.
    erewrite io_bind_run; [|unfold mbind, io_bind; cbn; rewrite (proj2 (Z.ltb_ge _ _) Htd); reflexivity]. apply IH; try done. cbn in Hf. lia.
Qed.

(** A bridge that is not there costs a minute and a half: the first poll past
    the deadline ends the wait with a message. *)
Lemma silence_ends polls late w start arest crest :
  Forall (fun p => exists s t, p = Quiet s t /\ has s 1 = false /\ t <= start +₆₄ REPLY_TIMEOUT_TICKS) polls -> has late.1 1 = false -> start +₆₄ REPLY_TIMEOUT_TICKS < late.2 ->
  answers w = answers_of polls ++ late.1 :: arest -> clock w = start :: clock_of true polls ++ late.2 :: crest ->
  read_reply COM2 true w = no_answer (mkWire arest crest (outs w) (printed w)).
Proof.
  intros Hp Hl Ht Ha Hc. unfold read_reply. destruct w as [ans clk out prt]. cbn [answers clock outs printed] in *. subst ans clk. erewrite (io_bind_run ticks); [|reflexivity].
  apply with_fuel_run. eapply (silence_run COM2 _ polls late); try done. cbn [answers]. rewrite length_app. pose proof (polls_length polls). cbn. lia.
Qed.

(** The console sends a carriage return before every line feed. *)
Definition crlf (text : list Z) : list Z := flat_map (fun b => if b =? 10 then [13; 10] else [b]) text.

Lemma send_is_raw base b w : send base b w = for_each (if b =? 10 then [13; 10] else [b]) (send_raw base) w.
Proof.
  unfold send. destruct (Z.eqb_spec b 10) as [->|]; cbn [for_each]; unfold send_raw, mbind, io_bind, mret, io_ret.
  - destruct (until_ready base w) as [[[]|e|] w1]; [|done..]. destruct (outb (base + DATA) 13 w1) as [[[]|e|] w2]; [|done..].
    destruct (until_ready base w2) as [[[]|e|] w3]; [|done..]. by destruct (outb (base + DATA) 10 w3) as [[[]|e|] w4].
  - destruct (until_ready base w) as [[[]|e|] w1]; [|done..]. by destruct (outb (base + DATA) b w1) as [[[]|e|] w2].
Qed.

Lemma console_sends_crlf base text : forall script w rest, paced (length (crlf text)) script -> answers w = script ++ rest ->
  write_str base text w = (Ok tt, mkWire rest (clock w) (outs w ++ map (pair (base + DATA)) (crlf text)) (printed w)).
Proof.
  intros script w rest. assert (E : forall w, write_str base text w = for_each (crlf text) (send_raw base) w).
  { unfold write_str. induction text as [|b text IH]; intros w0; [done|]. cbn [crlf flat_map for_each]. rewrite for_each_app_io. fold (crlf text).
    unfold mbind, io_bind. rewrite send_is_raw. by destruct (for_each _ _ w0) as [[[]|e|] w1]. }
  rewrite E. apply send_bytes_run.
Qed.

(** A wire on which a stale byte waits, the transmitter is busy twice before
    each byte, and the reply comes after a silence. *)
Definition pace_of (n : nat) : list Z := mjoin (replicate n [0; 1; 96]).
Lemma pace_of_paced n : paced n (pace_of n).
Proof. induction n as [|n IH]; [constructor|]. apply (paced_byte n [0; 1] 96 (pace_of n)); [by repeat constructor|done|exact IH]. Qed.

Definition registers0 : Registers := mkRegisters 2147483665 0 1052672 32 8 65520.
Definition question0 : list Z := bytes "why?".
Definition text0 : list Z := bytes "because" ++ 10 :: bytes "END" ++ 10 :: bytes "ENDING".
Definition polls0 : list Poll := Quiet 96 43 :: map (Byte 97) (send_reply text0).
Definition wire0 : Wire :=
  mkWire ([97; 120] ++ 96 :: pace_of (length (request (bytes "5AMOS/1 ASK") (capture registers0 42) question0)) ++ answers_of polls0 ++ []) (42 :: 42 :: [43] ++ []) [] [].

