(* ===== verification/Float32.v ===== *)
(** * Single-precision floats, as [kernel/src/llm.rs] uses them

    A Rust [f32] is an IEEE 754 binary32 number; its operations round to
    nearest, ties to even.  The Standard Library's [SpecFloat] gives them at
    any precision.  [sqrt] and [exp] are the code's own. *)

From Stdlib Require Import Floats.SpecFloat.
From S2P Require Import Prelude.

Definition f32 : Type := spec_float.

#[export] Instance f32_inhabited : Inhabited f32 := populate (S754_zero false).

Definition zero : f32 := S754_zero false.
Definition add (x y : f32) : f32 := SFadd 24 128 x y.
Definition sub (x y : f32) : f32 := SFsub 24 128 x y.
Definition mul (x y : f32) : f32 := SFmul 24 128 x y.
Definition div (x y : f32) : f32 := SFdiv 24 128 x y.
Definition neg (x : f32) : f32 := SFopp x.
Definition flt (x y : f32) : bool := SFltb x y.
Definition fle (x y : f32) : bool := SFleb x y.

(** [n as f32], and a decimal literal [p / q]: the nearest number. *)
Definition of_Z (n : Z) : f32 := binary_normalize 24 128 n 0 false.
Definition literal (p q : positive) : f32 :=
  let '(m, e, l) := SFdiv_core_binary 24 128 (Z.pos p) 0 (Z.pos q) 0 in binary_round_aux 24 128 false m e l.

(** [x as i32]: towards zero, clamped, and zero for a NaN. *)
Definition to_i32 (x : f32) : Z :=
  let clamp z := Z.max (- 2 ^ 31) (Z.min (2 ^ 31 - 1) z) in
  match x with
  | S754_zero _ | S754_nan => 0
  | S754_infinity s => if s then - 2 ^ 31 else 2 ^ 31 - 1
  | S754_finite s m e => let v := Z.shiftl (Z.pos m) e in clamp (if s then - v else v)
  end.

(** [f32::from_bits]. *)
Definition from_bits (bits : Z) : f32 :=
  let s := Z.testbit bits 31 in
  let e := Z.land (Z.shiftr bits 23) 255 in
  let m := Z.land bits (2 ^ 23 - 1) in
  if e =? 255 then (if m =? 0 then S754_infinity s else S754_nan)
  else if e =? 0 then match m with Z.pos m => S754_finite s m (-149) | _ => S754_zero s end
  else match m + 2 ^ 23 with Z.pos m => S754_finite s m (e - 150) | _ => S754_zero s end.

(** The processor's [sqrtss]. *)
Definition sqrt (x : f32) : f32 := SFsqrt 24 128 x.

Definition LOG2_E : f32 := literal 1442695 1000000.

Definition exp (x : f32) : f32 :=
  if flt x (of_Z (-87)) then zero
  else if flt (of_Z 88) x then S754_infinity false
  else
    let half := literal 1 2 in
    let t := mul x LOG2_E in
    let n := if fle zero t then to_i32 (add t half) else to_i32 (sub t half) in
    let f := sub t (of_Z n) in
    let p :=
      add (of_Z 1) (mul f (add (literal 69314718 100000000)
        (mul f (add (literal 24022651 100000000)
          (mul f (add (literal 5550411 100000000)
            (mul f (add (literal 961813 100000000)
              (mul f (literal 133270 100000000)))))))))) in
    mul p (from_bits (wrap 32 (Z.shiftl (wrap 32 (n + 127)) 23))).

(** ** Order

    Away from NaNs [flt] is the strict part of a total preorder: compare by
    sign and infinity, then by exponent and mantissa. *)

Definition key (x : f32) : Z * Z * Z :=
  match x with
  | S754_infinity true => (-2, 0, 0)
  | S754_finite true m e => (-1, - e, Z.neg m)
  | S754_zero _ => (0, 0, 0)
  | S754_finite false m e => (1, e, Z.pos m)
  | S754_infinity false => (2, 0, 0)
  | S754_nan => (3, 0, 0)
  end.

Definition is_nan (x : f32) : bool := match x with S754_nan => true | _ => false end.

Definition before (a b : Z * Z * Z) : Prop :=
  let '(a1, a2, a3) := a in let '(b1, b2, b3) := b in a1 < b1 \/ a1 = b1 /\ (a2 < b2 \/ a2 = b2 /\ a3 < b3).

Lemma lt_key x y : is_nan x = false -> is_nan y = false -> flt x y = true <-> before (key x) (key y).
Proof.
  intros Hx Hy. unfold flt, SFltb, SFcompare.
  destruct x as [sx|[]| |[] mx ex], y as [sy|[]| |[] my ey]; try done; cbn; try (split; [done|lia]); try (split; [lia|done]).
  - change (Pos.compare_cont Eq mx my) with (mx ?= my)%positive. destruct (Z.compare_spec ex ey), (Pos.compare_spec mx my); cbn; split; (done || lia).
  - change (Pos.compare_cont Eq mx my) with (mx ?= my)%positive. destruct (Z.compare_spec ex ey), (Pos.compare_spec mx my); cbn; split; (done || lia).
Qed.

Lemma before_trans a b c : before a b -> before b c -> before a c.
Proof. destruct a as [[]], b as [[]], c as [[]]. cbn. lia. Qed.
Lemma before_total a b : before a b \/ a = b \/ before b a.
Proof. destruct a as [[a1 a2] a3], b as [[b1 b2] b3]. cbn. destruct (decide (a1 = b1)) as [->|], (decide (a2 = b2)) as [->|], (decide (a3 = b3)) as [->|]; try (right; left; reflexivity); lia. Qed.
Lemma before_irrefl a : ~ before a a.
Proof. destruct a as [[]]. cbn. lia. Qed.

Lemma lt_nan x y : is_nan x = true \/ is_nan y = true -> flt x y = false.
Proof. unfold flt, SFltb, SFcompare. intros [H|H]; destruct x as [| | |]; destruct y as [| | |]; done. Qed.

(** [exp 1] is ten units in the last place below [e]: the degree-five
    polynomial is not accurate to one of them. *)
Lemma exp_one_is_ten_ulps_low : exp (of_Z 1) = S754_finite false 11401290 (-22) /\ literal 271828182845904523 100000000000000000 = S754_finite false 11401300 (-22).
Proof. by vm_compute. Qed.
