(* ===== verification/Tokens.v ===== *)
(** * The tokenizer: [parse_tokenizer], [encode] and [emit] of
    [kernel/src/llm.rs]

    A vocabulary of texts with scores, byte-pair encoding of a prompt into
    the fixed array of tokens, and the printing of a token. *)

From S2P Require Import Prelude Bytes Float32.

#[local] Open Scope nat_scope.
#[local] Arguments Nat.ltb : simpl never.
#[local] Arguments Nat.leb : simpl never.

Definition MAX_VOCAB : Z := 32000.

Record Token := mkToken { text : list Z; score : f32 }.
#[export] Instance Token_inhabited : Inhabited Token := populate (mkToken [] zero).

(** [static mut VOCAB] with the count of the parsed entries. *)
Record Vocabulary := mkVocabulary { VOCAB : list Token; vocab_len : nat }.

(** ** UTF-8, as Rust's [str] has it *)

Definition within (lo hi b : Z) : bool := ((lo <=? b) && (b <=? hi))%Z.
Definition tail_byte (b : Z) : bool := within 128 191 b.

(** [core::str::from_utf8] succeeds. *)
Fixpoint is_utf8 (l : list Z) : bool :=
  match l with
  | [] => true
  | a :: l =>
      if within 0 127 a then is_utf8 l
      else match l with
           | [] => false
           | b :: l =>
               if within 194 223 a then tail_byte b && is_utf8 l
               else match l with
                    | [] => false
                    | c :: l =>
                        if ((a =? 224) && within 160 191 b || within 225 236 a && tail_byte b || (a =? 237) && within 128 159 b || within 238 239 a && tail_byte b)%Z
                        then tail_byte c && is_utf8 l
                        else match l with
                             | [] => false
                             | d :: l =>
                                 ((a =? 240) && within 144 191 b || within 241 243 a && tail_byte b || (a =? 244) && within 128 143 b)%Z
                                 && tail_byte c && tail_byte d && is_utf8 l
                             end
                    end
           end
  end.

(** [char::encode_utf8]. *)
Definition encode_utf8 (ch : Z) : list Z :=
  (if ch <? 128 then [ch]
   else if ch <? 2048 then [192 + ch / 64; 128 + ch mod 64]
   else if ch <? 65536 then [224 + ch / 4096; 128 + ch / 64 mod 64; 128 + ch mod 64]
   else [240 + ch / 262144; 128 + ch / 4096 mod 64; 128 + ch / 64 mod 64; 128 + ch mod 64])%Z.

(** ** Loading *)

(** [read_u32], with the bounds checks of its four index expressions. *)
Definition read_u32 (bytes : list Z) (at_ : Z) : result Z := read_le 4 bytes at_.

(** The loop of [parse_tokenizer]; each turn consumes at least eight bytes,
    so the length of the data is enough fuel. *)
Fixpoint parse_loop (fuel : nat) (bytes : list Z) (vocab_size : nat) (at_ : Z) (count : nat) (V : list Token) : result (nat * list Token) :=
  match fuel with
  | 0 => Ok (count, V)
  | S fuel =>
      if (count <? vocab_size) && (at_ + 8 <=? Z.of_nat (length bytes))%Z then
        s ← read_u32 bytes at_;
        len ← read_u32 bytes (at_ + 4);
        let at_ := (at_ + 8)%Z in
        if (Z.of_nat (length bytes) <? at_ + len)%Z then Ok (count, V)
        else
          raw ← slice bytes at_ (at_ + len);
          let text := if is_utf8 raw then raw else [] in
          if length V <=? count then Panic
          else parse_loop fuel bytes vocab_size (at_ + len) (count + 1) (<[count := mkToken text (from_bits s)]> V)
      else Ok (count, V)
  end.

Definition parse_tokenizer (bytes : list Z) (vocab_size : nat) (V : list Token) : result Vocabulary :=
  r ← parse_loop (S (length bytes)) bytes vocab_size 4 0 V;
  Ok (mkVocabulary r.2 r.1).

(** ** Encoding *)

Section encode.
Context (v : Vocabulary).

Definition text_of (id : nat) : list Z := text (VOCAB v !!! id).
Definition score_of (id : nat) : f32 := score (VOCAB v !!! id).

Definition lookup (t : list Z) : option nat := range_find 0 (vocab_len v) (fun i => bool_decide (text_of i = t)).

(** [tokens\[count\] = id; count += 1]. *)
Definition put (id : nat) (st : list nat * nat) : list nat * nat := (<[st.2 := id]> st.1, st.2 + 1).

Definition put_byte (st : list nat * nat) (byte : Z) : list nat * nat :=
  if st.2 <? length st.1 then put (Z.to_nat byte + 3) st else st.

Definition place (ch : Z) (st : list nat * nat) : list nat * nat :=
  let piece := encode_utf8 ch in
  match lookup piece with
  | Some id => put id st
  | None => fold_left put_byte piece st
  end.

Fixpoint place_all (chars : list Z) (st : list nat * nat) : list nat * nat :=
  match chars with
  | [] => st
  | ch :: chars => if length st.1 <=? st.2 then st else place_all chars (place ch st)
  end.

Definition SCRATCH : nat := 64.

(** What the pair at [i] joins into. *)
Definition candidate (tokens : list nat) (i : nat) : option nat :=
  let a := text_of (tokens !!! i) in
  let b := text_of (tokens !!! (i + 1)) in
  if SCRATCH <? length a + length b then None
  else if negb (is_utf8 (a ++ b)) then None
  else lookup (a ++ b).

Definition consider (tokens : list nat) (best : option (f32 * nat * nat)) (i : nat) : option (f32 * nat * nat) :=
  match candidate tokens i with
  | Some id =>
      if match best with None => true | Some (b, _, _) => flt b (score_of id) end then Some (score_of id, i, id) else best
  | None => best
  end.

Definition best_pair (tokens : list nat) (count : nat) : option (f32 * nat * nat) :=
  fold_left (consider tokens) (seq 0 (count - 1)) None.

Definition merge_at (tokens : list nat) (count at_ id : nat) : list nat :=
  fold_left (fun tokens i => <[i := tokens !!! (i + 1)]> tokens) (seq (at_ + 1) (count - 1 - (at_ + 1))) (<[at_ := id]> tokens).

(** The merging loop: each turn takes a token away, so their number is
    enough fuel. *)
Fixpoint merge_loop (fuel : nat) (tokens : list nat) (count : nat) : list nat * nat :=
  match fuel with
  | 0 => (tokens, count)
  | S fuel =>
      match best_pair tokens count with
      | None => (tokens, count)
      | Some (_, at_, id) => merge_loop fuel (merge_at tokens count at_ id) (count - 1)
      end
  end.

Definition encode (prompt : list Z) (tokens : list nat) : list nat * nat :=
  let '(tokens, count) := place_all (32%Z :: prompt) (tokens, 0) in merge_loop count tokens count.

(** ** Printing *)

(** [u8::from_str_radix(hex, 16)]. *)
Definition hex_digit (b : Z) : option Z :=
  (if within 48 57 b then Some (b - 48) else if within 97 102 b then Some (b - 87) else if within 65 70 b then Some (b - 55) else None)%Z.
Fixpoint hex_value (acc : Z) (l : list Z) : option Z :=
  match l with
  | [] => Some acc
  | b :: l => d ← hex_digit b; let acc := (acc * 16 + d)%Z in if (255 <? acc)%Z then None else hex_value acc l
  end.
Definition from_str_radix (l : list Z) : option Z :=
  match l with
  | [] => None
  | 43%Z :: [] | 45%Z :: [] => None
  | 43%Z :: l => hex_value 0 l
  | l => hex_value 0 l
  end.

(** [text.strip_prefix("<0x")] and [strip_suffix('>')]. *)
Definition fallback_digits (t : list Z) : option (list Z) :=
  match t with
  | 60%Z :: 48%Z :: 120%Z :: rest => match reverse rest with 62%Z :: digits => Some (reverse digits) | _ => None end
  | _ => None
  end.

Fixpoint trim_start (t : list Z) : list Z := match t with 32%Z :: t => trim_start t | _ => t end.

Definition emit (token previous : nat) : list Z :=
  if vocab_len v <=? token then []
  else if token =? 1 then []
  else
    let t := if previous =? 1 then trim_start (text_of token) else text_of token in
    match fallback_digits t ≫= from_str_radix with
    | Some byte => encode_utf8 byte
    | None => t
    end.
End encode.

(** ** Byte-pair encoding *)

Section bpe.
Context (v : Vocabulary).

Definition ids (ch : Z) : list nat :=
  match lookup v (encode_utf8 ch) with Some id => [id] | None => map (fun byte => Z.to_nat byte + 3) (encode_utf8 ch) end.

(** The tokens a prompt starts as: a space in front, a token a character
    where the vocabulary has one and a token a byte where it has none. *)
Definition initial (prompt : list Z) : list nat := flat_map ids (32%Z :: prompt).

Definition joins (a b : nat) : option nat :=
  if SCRATCH <? length (text_of v a) + length (text_of v b) then None
  else if negb (is_utf8 (text_of v a ++ text_of v b)) then None
  else lookup v (text_of v a ++ text_of v b).

(** One turn of byte-pair encoding: the neighbours whose join scores best,
    the leftmost of equals, become one token. *)
Inductive best_merge : list nat -> list nat -> Prop :=
| merge_pair pre a b post id :
    joins a b = Some id ->
    (forall pre' a' b' post' id', pre ++ a :: b :: post = pre' ++ a' :: b' :: post' -> joins a' b' = Some id' ->
       flt (score_of v id) (score_of v id') = false /\ (length pre' < length pre -> flt (score_of v id') (score_of v id) = true)) ->
    best_merge (pre ++ a :: b :: post) (pre ++ id :: post).

Definition finished (l : list nat) : Prop := forall pre a b post, l = pre ++ a :: b :: post -> joins a b = None.

Lemma joins_text a b id : joins a b = Some id -> text_of v id = text_of v a ++ text_of v b /\ id < vocab_len v.
Proof using Type.
  unfold joins. case_match; [done|]. case_match; [done|]. intros (Hr & Ht & _)%range_find_Some. apply bool_decide_eq_true in Ht. split; [done|lia].
Qed.

Lemma best_merge_text l l' : best_merge l l' -> mjoin (map (text_of v) l') = mjoin (map (text_of v) l) /\ length l = S (length l').
Proof using Type.
  intros [pre a b post id Hj _]. apply joins_text in Hj as [Ht _]. rewrite !map_app, !join_app, !length_app. cbn [map mjoin list_join]. change (list_join ?x) with (mjoin x).
  split; [|cbn; lia]. f_equal. cbn. rewrite Ht. by rewrite <- app_assoc.
Qed.

Section scores.
Context (Hscores : forall id, is_nan (score_of v id) = false).

Lemma flt_key a b : flt (score_of v a) (score_of v b) = true <-> before (key (score_of v a)) (key (score_of v b)).
Proof using Hscores. by apply lt_key. Qed.

Lemma flt_key_false a b : flt (score_of v a) (score_of v b) = false <-> before (key (score_of v b)) (key (score_of v a)) \/ key (score_of v a) = key (score_of v b).
Proof using Hscores.
  pose proof (flt_key a b) as H. destruct (before_total (key (score_of v a)) (key (score_of v b))) as [Hb|[Hb|Hb]].
  - rewrite (proj2 H Hb). split; [done|]. intros [Hc|Hc]; exfalso; [eapply before_irrefl, before_trans; eauto|rewrite Hc in Hb; by apply before_irrefl in Hb].
  - split; [tauto|]. intros _. destruct (flt _ _); [|done]. pose proof (proj1 H eq_refl) as Hx. rewrite Hb in Hx. by apply before_irrefl in Hx.
  - split; [tauto|]. intros _. destruct (flt _ _); [|done]. exfalso. eapply before_irrefl, before_trans; [exact Hb|]. by apply H.
Qed.

(** The scan keeps the best of the candidates it has seen. *)
Lemma best_pair_scan tokens n :
  match fold_left (consider v tokens) (seq 0 n) None with
  | None => forall j, j < n -> candidate v tokens j = None
  | Some (s, i, id) => i < n /\ candidate v tokens i = Some id /\ s = score_of v id /\
      forall j id', j < n -> candidate v tokens j = Some id' -> flt (score_of v id) (score_of v id') = false /\ (j < i -> flt (score_of v id') (score_of v id) = true)
  end.
Proof using Hscores.
  induction n as [|n IH]; [cbn; lia|]. rewrite seq_S, fold_left_app. cbn [fold_left Nat.add]. destruct (fold_left _ _ _) as [[[s i] id]|]; unfold consider; destruct (candidate v tokens n) as [idn|] eqn:En.
  - destruct IH as (Hi & Hc & -> & Hbest). destruct (flt (score_of v id) (score_of v idn)) eqn:El.
    + split_and!; [lia|done|done|]. intros j id' Hj Hcj. destruct (decide (j = n)) as [->|Hne].
      * assert (id' = idn) as -> by congruence. split; [|lia]. apply flt_key_false. by right.
      * destruct (Hbest j id' ltac:(lia) Hcj) as [Hb _]. apply flt_key in El. apply flt_key_false in Hb.
        assert (Hbn : before (key (score_of v id')) (key (score_of v idn))) by (destruct Hb as [Hb|Hb]; [by eapply before_trans|by rewrite <- Hb]).
        split; [apply flt_key_false; by left|intros _; by apply flt_key].
    + split_and!; [lia|done|done|]. intros j id' Hj Hcj. destruct (decide (j = n)) as [->|Hne]; [assert (id' = idn) as -> by congruence; split; [done|lia]|apply Hbest; [lia|done]].
  - destruct IH as (Hi & Hc & -> & Hbest). split_and!; [lia|done|done|]. intros j id' Hj Hcj. destruct (decide (j = n)) as [->|]; [congruence|apply Hbest; [lia|done]].
  - split_and!; [lia|done|done|]. intros j id' Hj Hcj. destruct (decide (j = n)) as [->|]; [assert (id' = idn) as -> by congruence; split; [apply flt_key_false; by right|lia]|].
    rewrite IH in Hcj by lia. done.
  - intros j Hj. destruct (decide (j = n)) as [->|]; [done|]. apply IH. lia.
Qed.

(** The pairs of a list by position. *)
Lemma pair_at (l : list nat) pre a b post : l = pre ++ a :: b :: post -> l !!! length pre = a /\ l !!! (length pre + 1) = b /\ length pre + 1 < length l.
Proof using Type.
  intros ->. rewrite length_app. cbn. split_and!; [by rewrite list_lookup_total_middle| |lia].
  apply list_lookup_total_correct. rewrite lookup_app_r by lia. by replace (length pre + 1 - length pre) with 1 by lia.
Qed.

Lemma split_pair (l : list nat) i : i + 1 < length l -> l = take i l ++ l !!! i :: l !!! (i + 1) :: drop (i + 2) l.
Proof using Type.
  intros Hi. destruct (lookup_lt_is_Some_2 l i ltac:(lia)) as [a Ha]. destruct (lookup_lt_is_Some_2 l (i + 1) Hi) as [b Hb].
  rewrite (list_lookup_total_correct _ _ _ Ha), (list_lookup_total_correct _ _ _ Hb). rewrite <- (take_drop i l) at 1. f_equal.
  rewrite (drop_S _ a) by done. f_equal. replace (S i) with (i + 1) by lia. rewrite (drop_S _ b) by done. do 2 f_equal. lia.
Qed.

Lemma take_lookup_total (l : list nat) n i : i < n -> n <= length l -> take n l !!! i = l !!! i.
Proof using Type. intros Hi Hn. by rewrite !list_lookup_total_alt, lookup_take_lt. Qed.

Lemma merge_at_spec tokens count at_ id : count <= length tokens -> at_ + 1 < count ->
  length (merge_at tokens count at_ id) = length tokens /\ take (count - 1) (merge_at tokens count at_ id) = take at_ (take count tokens) ++ id :: drop (at_ + 2) (take count tokens).
Proof using Type.
  intros Hc Ha.
  assert (G : forall n (l : list nat), at_ + 1 + n < length l -> let l' := fold_left (fun (tokens : list nat) (i : nat) => <[i := tokens !!! (i + 1)]> tokens) (seq (at_ + 1) n) l in
    length l' = length l /\ forall j, j < length l -> l' !!! j = if (at_ <? j) && (j <? at_ + 1 + n) then l !!! (j + 1) else l !!! j).
  { induction n as [|n IH]; intros l Hl; cbn zeta.
    - cbn. split; [done|]. intros j Hj. destruct (Nat.ltb_spec at_ j), (Nat.ltb_spec j (at_ + 1 + 0)); cbn; (done || lia).
    - rewrite seq_S, fold_left_app. cbn [fold_left]. destruct (IH l ltac:(lia)) as [Hl' Hj']. cbv zeta in *. set (l' := fold_left _ _ l) in *. rewrite length_insert. split; [done|].
      intros j Hj. rewrite list_insert_total by lia. destruct (decide (at_ + 1 + n = j)) as [<-|Hne].
      + rewrite (Hj' (at_ + 1 + n + 1)) by lia. rewrite (proj2 (Nat.ltb_ge (at_ + 1 + n + 1) _)) by lia. rewrite andb_false_r.
        by rewrite (proj2 (Nat.ltb_lt at_ _)), (proj2 (Nat.ltb_lt (at_ + 1 + n) _)) by lia.
      + rewrite Hj' by done. destruct (Nat.ltb_spec at_ j), (Nat.ltb_spec j (at_ + 1 + n)), (Nat.ltb_spec j (at_ + 1 + S n)); cbn; (done || lia). }
  unfold merge_at. destruct (G (count - 1 - (at_ + 1)) (<[at_ := id]> tokens) ltac:(rewrite length_insert; lia)) as [Hl Hj]. cbv zeta in *. rewrite length_insert in *. split; [done|].
  set (l' := fold_left _ _ _) in *. apply (list_eq_same_length _ _ (count - 1)).
  - rewrite length_app, length_take, !length_take. cbn. rewrite length_drop, length_take. lia.
  - rewrite length_take. lia.
  - intros j x y Hlt Hx Hy. rewrite lookup_take_lt in Hx by done. apply list_lookup_total_correct in Hx. rewrite Hj in Hx by lia. rewrite !list_insert_total in Hx by lia.
    destruct (Nat.ltb_spec at_ j); cbn [andb] in Hx.
    + rewrite (proj2 (Nat.ltb_lt j _)) in Hx by lia. rewrite decide_False in Hx by lia. rewrite lookup_app_r in Hy by (rewrite !length_take; lia). rewrite !length_take in Hy.
      replace (j - (at_ `min` (count `min` length tokens))) with (S (j - at_ - 1)) in Hy by lia. rewrite lookup_cons, lookup_drop, lookup_take_lt in Hy by lia.
      apply list_lookup_total_correct in Hy. rewrite <- Hx, <- Hy. f_equal. lia.
    + case_decide as Ed.
      * subst j. rewrite lookup_app_r in Hy by (rewrite !length_take; lia). rewrite !length_take in Hy. replace (at_ - (at_ `min` (count `min` length tokens))) with 0 in Hy by lia. cbn in Hy. congruence.
      * rewrite lookup_app_l in Hy by (rewrite !length_take; lia). rewrite !lookup_take_lt in Hy by lia. apply list_lookup_total_correct in Hy. congruence.
Qed.

(** The merging loop, on the tokens in use. *)
Lemma merge_loop_spec fuel : forall tokens count, count <= length tokens -> count <= fuel ->
  let '(tokens', count') := merge_loop v fuel tokens count in
  length tokens' = length tokens /\ count' <= count /\ rtc best_merge (take count tokens) (take count' tokens') /\ finished (take count' tokens').
Proof using Hscores.
  assert (Hcand : forall tokens count i, count <= length tokens -> i + 1 < count -> candidate v tokens i = joins (take count tokens !!! i) (take count tokens !!! (i + 1))).
  { intros tokens count i Hc Hi. unfold candidate, joins. by rewrite !take_lookup_total by lia. }
  induction fuel as [|fuel IH]; intros tokens count Hc Hf; cbn [merge_loop].
  - split_and!; [done..|]. intros pre a b post E. apply (f_equal length) in E. rewrite length_take, length_app in E. cbn in E. lia.
  - pose proof (best_pair_scan tokens (count - 1)) as Hs. unfold best_pair. destruct (fold_left _ _ _) as [[[s i] id]|].
    + destruct Hs as (Hi & Hci & -> & Hbest). destruct (merge_at_spec tokens count i id Hc ltac:(lia)) as [Hlen Hm].
      specialize (IH (merge_at tokens count i id) (count - 1) ltac:(lia) ltac:(lia)). destruct (merge_loop _ _ _ _) as [tokens' count']. destruct IH as (Hl & Hcount & Hr & Hfin).
      split_and!; [congruence|lia| |done]. eapply rtc_l; [|exact Hr]. rewrite Hm. set (l := take count tokens) in *.
      assert (Hll : length l = count) by (unfold l; rewrite length_take; lia). rewrite (Hcand tokens count) in Hci by lia. fold l in Hci.
      rewrite (split_pair l i) at 1 by lia. constructor; [exact Hci|]. intros pre' a' b' post' id' E Hj. rewrite <- (split_pair l i) in E by lia.
      destruct (pair_at l _ _ _ _ E) as (Ea & Eb & Hlt). rewrite length_take. replace (i `min` length l) with i by lia. apply (Hbest (length pre')); [lia|].
      rewrite (Hcand tokens count) by lia. fold l. by rewrite Ea, Eb.
    + split_and!; [done..|]. intros pre a b post E. destruct (pair_at _ _ _ _ _ E) as (Ea & Eb & Hlt). rewrite length_take in Hlt.
      rewrite <- Ea, <- Eb, <- Hcand by lia. apply Hs. lia.
Qed.
End scores.

(** Placing the characters. *)
Definition holds (st : list nat * nat) (l : list nat) : Prop := st.2 <= length st.1 /\ take st.2 st.1 = take (length st.1) l.

Lemma put_holds st l id : st.2 < length st.1 -> holds st l -> length st.1 = length (put id st).1 /\ holds (put id st) (l ++ [id]).
Proof using Type.
  destruct st as [tokens count]. intros Hlt [Hc Hl]. cbn in *. unfold holds, put. cbn [fst snd]. rewrite length_insert. split_and!; [done|lia|].
  assert (Hll : length l = count) by (apply (f_equal length) in Hl; rewrite !length_take in Hl; lia). rewrite (take_ge l) in Hl by lia. rewrite (take_ge (l ++ [id])) by (rewrite length_app; cbn; lia).
  rewrite Nat.add_1_r, (take_S_r _ _ id) by (by apply list_lookup_insert_eq). f_equal. by rewrite take_insert_ge.
Qed.

Lemma full_holds st l l' : length st.1 <= st.2 -> holds st l -> holds st (l ++ l').
Proof using Type.
  destruct st as [tokens count]. intros Hge [Hc Hl]. cbn in *. split; [done|]. cbn. rewrite Hl, take_app_le; [done|].
  apply (f_equal length) in Hl. rewrite !length_take in Hl. lia.
Qed.

Lemma place_holds st l ch : st.2 < length st.1 -> holds st l -> length (place v ch st).1 = length st.1 /\ holds (place v ch st) (l ++ ids ch).
Proof using Type.
  intros Hlt Hh. unfold place, ids. destruct (lookup v (encode_utf8 ch)) as [id|].
  - destruct (put_holds st l id Hlt Hh) as [Hl Hp]. by split.
  - clear Hlt. generalize (encode_utf8 ch). intros bytes. revert st l Hh. induction bytes as [|b bytes IH]; intros st l Hh; cbn [fold_left map]; [by rewrite app_nil_r|].
    assert (Hb : length (put_byte st b).1 = length st.1 /\ holds (put_byte st b) (l ++ [Z.to_nat b + 3])).
    { unfold put_byte. destruct (Nat.ltb_spec st.2 (length st.1)) as [Hlt|Hge]; [destruct (put_holds st l (Z.to_nat b + 3) Hlt Hh); by split|]. split; [done|by apply full_holds]. }
    destruct Hb as [Hl Hp]. destruct (IH _ _ Hp) as [Hl2 Hh2]. split; [congruence|]. by rewrite <- app_assoc in Hh2.
Qed.

Lemma place_all_holds chars : forall st l, holds st l -> length (place_all v chars st).1 = length st.1 /\ holds (place_all v chars st) (l ++ flat_map ids chars).
Proof using Type.
  induction chars as [|ch chars IH]; intros st l Hh; cbn [place_all flat_map]; [by rewrite app_nil_r|]. destruct (Nat.leb_spec (length st.1) st.2) as [Hge|Hlt].
  - split; [done|]. by apply full_holds.
  - destruct (place_holds st l ch Hlt Hh) as [Hl Hh1]. destruct (IH _ _ Hh1) as [Hl2 Hh2]. split; [congruence|]. by rewrite app_assoc.
Qed.
End bpe.

Lemma rtc_text v l l' : rtc (best_merge v) l l' -> mjoin (map (text_of v) l') = mjoin (map (text_of v) l) /\ length l' <= length l.
Proof. induction 1 as [l|l l1 l2 H _ [IH1 IH2]]; [done|]. apply best_merge_text in H as [Ht Hl]. split; [by rewrite IH1|lia]. Qed.

Lemma ids_known v ch id : lookup v (encode_utf8 ch) = Some id -> ids v ch = [id] /\ text_of v id = encode_utf8 ch.
Proof. intros H. unfold ids. rewrite H. split; [done|]. apply range_find_Some in H as (_ & H & _). by apply bool_decide_eq_true in H. Qed.

(** When the vocabulary has every character, the tokens spell them. *)
Lemma known_text v chars : Forall (fun ch => lookup v (encode_utf8 ch) <> None) chars ->
  mjoin (map (text_of v) (flat_map (ids v) chars)) = mjoin (map encode_utf8 chars) /\ length (flat_map (ids v) chars) = length chars.
Proof.
  induction 1 as [|ch chars Hch _ [IH1 IH2]]; [done|]. destruct (lookup v (encode_utf8 ch)) as [id|] eqn:E; [|done]. destruct (ids_known v ch id E) as [Ei Et].
  cbn [flat_map]. rewrite Ei, map_app, join_app. cbn [map app length]. change (mjoin (encode_utf8 ch :: ?l)) with (encode_utf8 ch ++ mjoin l). split; [|by rewrite IH2].
  rewrite IH1. change (mjoin [text_of v id]) with (text_of v id ++ []). by rewrite app_nil_r, Et.
Qed.

Lemma encode_utf8_bytes ch : (0 <= ch < 1114112)%Z -> Forall is_byte (encode_utf8 ch).
Proof.
  intros Hch. pose proof (Z.mod_pos_bound ch 64 ltac:(done)). pose proof (Z.mod_pos_bound (ch / 64) 64 ltac:(done)). pose proof (Z.mod_pos_bound (ch / 4096) 64 ltac:(done)).
  assert (G1 : (0 <= ch / 64)%Z) by (apply Z.div_pos; lia). assert (G2 : (0 <= ch / 4096)%Z) by (apply Z.div_pos; lia). assert (G3 : (0 <= ch / 262144)%Z) by (apply Z.div_pos; lia).
  unfold encode_utf8, is_byte. destruct (Z.ltb_spec ch 128); [repeat constructor; lia|]. destruct (Z.ltb_spec ch 2048).
  - assert ((ch / 64 < 32)%Z) by (apply Z.div_lt_upper_bound; lia). repeat constructor; lia.
  - destruct (Z.ltb_spec ch 65536).
    + assert ((ch / 4096 < 16)%Z) by (apply Z.div_lt_upper_bound; lia). repeat constructor; lia.
    + assert ((ch / 262144 < 8)%Z) by (apply Z.div_lt_upper_bound; lia). repeat constructor; lia.
Qed.

(** Every token is an entry of the vocabulary or stands for a byte. *)
Definition token_ok (v : Vocabulary) (id : nat) : Prop := id < vocab_len v \/ 3 <= id < 259.

Lemma initial_ok v prompt : Forall (fun ch => 0 <= ch < 1114112)%Z prompt -> Forall (token_ok v) (initial v prompt).
Proof.
  intros Hp. unfold initial. assert (Hp' : Forall (fun ch => 0 <= ch < 1114112)%Z (32%Z :: prompt)) by (by constructor). revert Hp'. generalize (32%Z :: prompt). clear Hp prompt.
  induction 1 as [|ch chars Hch _ IH]; [constructor|]. cbn [flat_map]. apply Forall_app. split; [|done]. unfold ids. destruct (lookup v _) as [id|] eqn:E.
  - constructor; [|constructor]. left. apply range_find_Some in E as (Hr & _). lia.
  - apply Forall_map. eapply Forall_impl; [by apply encode_utf8_bytes|]. intros b Hb. cbn. right. unfold is_byte in Hb. lia.
Qed.

Lemma rtc_ok v l l' : rtc (best_merge v) l l' -> Forall (token_ok v) l -> Forall (token_ok v) l'.
Proof.
  induction 1 as [l|l l1 l2 [pre a b post id Hj _] _ IH]; [done|]. intros H. apply IH. apply Forall_app in H as [Hpre H]. apply Forall_cons in H as [_ H]. apply Forall_cons in H as [_ Hpost].
  apply Forall_app. split; [done|]. constructor; [|done]. left. by apply joins_text in Hj as [].
Qed.

Lemma encode_spec v prompt tokens : (forall id, is_nan (score_of v id) = false) ->
  let '(tokens', count) := encode v prompt tokens in
  length tokens' = length tokens /\ count <= length tokens /\
  rtc (best_merge v) (take (length tokens) (initial v prompt)) (take count tokens') /\ finished v (take count tokens').
Proof.
  intros Hn. unfold encode. destruct (place_all_holds v (32%Z :: prompt) (tokens, 0) []) as [Hl [Hc Ht]]; [split; [cbn; lia|by rewrite take_nil]|]. cbn [app fst] in *.
  destruct (place_all v (32%Z :: prompt) (tokens, 0)) as [tokens1 count1]. cbn [fst snd] in *.
  pose proof (merge_loop_spec v Hn count1 tokens1 count1 Hc ltac:(lia)) as Hm. destruct (merge_loop _ _ _ _) as [tokens' count']. destruct Hm as (Hl' & Hc' & Hr & Hf).
  split_and!; [lia|lia| |done]. rewrite Ht, Hl in Hr. exact Hr.
Qed.


(** A token that stands for one byte of a longer character is printed as a
    character of its own: the first byte of an em dash comes out as two. *)
Lemma fallback_is_not_the_byte v token previous : token < vocab_len v -> token <> 1 -> previous <> 1 -> text_of v token = [60; 48; 120; 69; 50; 62]%Z ->
  emit v token previous = [195; 162]%Z.
Proof.
  intros Ht H1 Hp E. unfold emit. rewrite (proj2 (Nat.leb_gt _ _)), (proj2 (Nat.eqb_neq token 1)), (proj2 (Nat.eqb_neq previous 1)), E by done. by vm_compute.
Qed.

(** A vocabulary of seven texts. *)
Definition small_vocabulary : Vocabulary :=
  mkVocabulary [mkToken [60; 117; 62]%Z (of_Z 0); mkToken [10; 60; 115; 62; 10]%Z (of_Z 0); mkToken [32]%Z (of_Z (-9)); mkToken [97]%Z (of_Z (-3)); mkToken [98]%Z (of_Z (-4));
    mkToken [32; 97]%Z (of_Z (-7)); mkToken [97; 98]%Z (of_Z (-2)) ] 7.

