(* ===== verification/Llm.v ===== *)
(** * The transformer: loading, the forward pass and generation of
    [kernel/src/llm.rs]

    The weights are read in place from a blob; the activations are arrays of
    fixed size; every index and slice of them is checked.  What is computed
    is computed on single-precision floats ([Float32]). *)

From Stdlib Require Import Floats.SpecFloat.
From stdpp Require Import gmap.
From S2P Require Import Prelude Bytes Sync Float32 Tokens.

#[local] Open Scope Z_scope.

Notation "x *₆₄ y" := (wrap 64 (x * y)) (at level 40, left associativity) : os_scope.

(** ** Indexing *)

(** [l\[i\]], [&l\[a..b\]] and [&l\[a..\]]. *)
Definition at_ {S A} `{Inhabited A} (l : list A) (i : Z) : io S A := fun s =>
  if (0 <=? i) && (i <? Z.of_nat (length l)) then (Ok (l !!! Z.to_nat i), s) else (Panic, s).
Definition part {S A} (l : list A) (a b : Z) : io S (list A) := fun s =>
  if (0 <=? a) && (a <=? b) && (b <=? Z.of_nat (length l)) then (Ok (take (Z.to_nat (b - a)) (drop (Z.to_nat a) l)), s) else (Panic, s).
Definition from {S A} (l : list A) (a : Z) : io S (list A) := part l a (Z.of_nat (length l)).

(** The same on an array that is the state: reading, writing, and working
    on a slice of it. *)
Definition fetch (i : Z) : io (list f32) f32 := fun l => at_ l i l.
Definition store (i : Z) (v : f32) : io (list f32) unit := fun l =>
  if (0 <=? i) && (i <? Z.of_nat (length l)) then (Ok tt, <[Z.to_nat i := v]> l) else (Panic, l).
Definition on_part {A} (a b : Z) (m : io (list f32) A) : io (list f32) A := fun l =>
  match part l a b l with
  | (Ok sub, _) => let '(r, sub') := m sub in (r, take (Z.to_nat a) l ++ sub' ++ drop (Z.to_nat b) l)
  | (Err e, _) => (Err e, l)
  | (Panic, _) => (Panic, l)
  end.

(** [0..n]. *)
Definition range (n : Z) : list Z := map Z.of_nat (seq 0 (Z.to_nat n)).

(** ** The model *)

Record Config := mkConfig {
  dim : Z; hidden_dim : Z; n_layers : Z; n_heads : Z; n_kv_heads : Z; vocab_size : Z; seq_len : Z
}.

Definition head_size {S} (c : Config) : io S Z := if n_heads c =? 0 then panic else mret (dim c / n_heads c).
Definition kv_dim {S} (c : Config) : io S Z := if n_heads c =? 0 then panic else mret ((dim c *₆₄ n_kv_heads c) / n_heads c).

Definition MAX_DIM : Z := 512.
Definition MAX_HIDDEN : Z := 1408.
Definition MAX_LAYERS : Z := 8.
Definition MAX_SEQ : Z := 256.
Definition MAX_HEADS : Z := 8.

Record RunState := mkRunState {
  x : list f32; xb : list f32; xb2 : list f32; hb : list f32; hb2 : list f32; q : list f32;
  att : list f32; logits : list f32; key_cache : list f32; value_cache : list f32
}.
Definition eta_state (s : RunState) : RunState :=
  mkRunState (x s) (xb s) (xb2 s) (hb s) (hb2 s) (q s) (att s) (logits s) (key_cache s) (value_cache s).
#[export] Instance set_x : Setter x := fun v s => ltac:(setter eta_state x v s).
#[export] Instance set_xb : Setter xb := fun v s => ltac:(setter eta_state xb v s).
#[export] Instance set_xb2 : Setter xb2 := fun v s => ltac:(setter eta_state xb2 v s).
#[export] Instance set_hb : Setter hb := fun v s => ltac:(setter eta_state hb v s).
#[export] Instance set_hb2 : Setter hb2 := fun v s => ltac:(setter eta_state hb2 v s).
#[export] Instance set_q : Setter q := fun v s => ltac:(setter eta_state q v s).
#[export] Instance set_att : Setter att := fun v s => ltac:(setter eta_state att v s).
#[export] Instance set_logits : Setter logits := fun v s => ltac:(setter eta_state logits v s).
#[export] Instance set_key_cache : Setter key_cache := fun v s => ltac:(setter eta_state key_cache v s).
#[export] Instance set_value_cache : Setter value_cache := fun v s => ltac:(setter eta_state value_cache v s).

Definition zeros (n : Z) : list f32 := replicate (Z.to_nat n) zero.

Definition STATE_init : RunState :=
  mkRunState (zeros MAX_DIM) (zeros MAX_DIM) (zeros MAX_DIM) (zeros MAX_HIDDEN) (zeros MAX_HIDDEN) (zeros MAX_DIM)
    (zeros (MAX_HEADS * MAX_SEQ)) (zeros (MAX_VOCAB)) (zeros (MAX_LAYERS * MAX_SEQ * MAX_DIM)) (zeros (MAX_LAYERS * MAX_SEQ * MAX_DIM)).

Record Weights := mkWeights {
  token_embedding : list f32; rms_att : list f32; wq : list f32; wk : list f32; wv : list f32; wo : list f32; rms_ffn : list f32;
  w1 : list f32; w2 : list f32; w3 : list f32; rms_final : list f32; freq_cos : list f32; freq_sin : list f32
}.

Record Model := mkModel { config : Config; weights : Weights; vocabulary : Vocabulary }.

(** ** Loading *)

Definition read_i32 (bytes : list Z) (i : Z) : result Z :=
  v ← read_u32 bytes i; Ok (if v <? 2 ^ 31 then v else v - 2 ^ 32).
Definition read_u64 (bytes : list Z) (i : Z) : result Z := read_le 8 bytes i.

(** The data after the header as little-endian words of four bytes, those
    that are there in full. *)
Fixpoint words (bytes : list Z) : list f32 :=
  match bytes with
  | b0 :: b1 :: b2 :: b3 :: bytes => from_bits (unle [b0; b1; b2; b3]) :: words bytes
  | _ => []
  end.
Definition floats (bytes : list Z) : list f32 := words (drop 28 bytes).

(** The closure [take]: the state is [at]. *)
Definition take_floats (all : list f32) (count : Z) : io Z (list f32) := fun at_ =>
  match part all at_ (at_ +₆₄ count) at_ with
  | (Ok slice, _) => (Ok slice, at_ +₆₄ count)
  | (Err e, _) => (Err e, at_)
  | (Panic, _) => (Panic, at_)
  end.

Definition take_weights (all : list f32) (c : Config) : io Z Weights :=
  kv ← kv_dim c;
  hs ← head_size c;
  let dm := dim c in let hidden := hidden_dim c in let layers := n_layers c in let heads := n_heads c in let vocab := vocab_size c in
  token_embedding ← take_floats all (vocab *₆₄ dm);
  rms_att ← take_floats all (layers *₆₄ dm);
  wq ← take_floats all (layers *₆₄ dm *₆₄ heads *₆₄ hs);
  wk ← take_floats all (layers *₆₄ dm *₆₄ kv);
  wv ← take_floats all (layers *₆₄ dm *₆₄ kv);
  wo ← take_floats all (layers *₆₄ heads *₆₄ hs *₆₄ dm);
  rms_ffn ← take_floats all (layers *₆₄ dm);
  w1 ← take_floats all (layers *₆₄ hidden *₆₄ dm);
  w2 ← take_floats all (layers *₆₄ dm *₆₄ hidden);
  w3 ← take_floats all (layers *₆₄ hidden *₆₄ dm);
  rms_final ← take_floats all dm;
  freq_cos ← take_floats all (seq_len c *₆₄ hs / 2);
  freq_sin ← take_floats all (seq_len c *₆₄ hs / 2);
  mret (mkWeights token_embedding rms_att wq wk wv wo rms_ffn w1 w2 w3 rms_final freq_cos freq_sin).

(** [as usize] of an [i32] extends the sign. *)
Definition as_usize (v : Z) : Z := wrap 64 v.

Definition parse_model (bytes : list Z) : result (option (Config * Weights)) :=
  if Z.of_nat (length bytes) <? 28 then Ok None
  else
    dm ← read_i32 bytes 0; hidden ← read_i32 bytes 4; layers ← read_i32 bytes 8; heads ← read_i32 bytes 12;
    kv_heads ← read_i32 bytes 16; vocab ← read_i32 bytes 20; len ← read_i32 bytes 24;
    let c := mkConfig (as_usize dm) (as_usize hidden) (as_usize layers) (as_usize heads) (as_usize kv_heads) (Z.abs vocab) (as_usize len) in
    if (MAX_DIM <? dim c) || (MAX_HIDDEN <? hidden_dim c) || (MAX_LAYERS <? n_layers c) || (MAX_SEQ <? seq_len c)
       || (MAX_VOCAB <? vocab_size c) || (MAX_HEADS <? n_heads c)
    then Ok None
    else match take_weights (floats bytes) c 0 with
         | (Ok w, _) => Ok (Some (c, w))
         | (Err e, _) => Err e
         | (Panic, _) => Panic
         end.

Definition MAGIC : Z := 894258253.

(** [init]: what becomes of [static mut MODEL], which starts as [None]. *)
Definition init (blob : list Z) (V : list Token) : result (option Model) :=
  let len := Z.of_nat (length blob) in
  if len <? 20 then Ok None
  else
    magic ← read_u32 blob 0;
    if negb (magic =? MAGIC) then Ok None
    else
      model_len ← read_u64 blob 4;
      tok_len ← read_u64 blob 12;
      if len <? 20 +₆₄ model_len +₆₄ tok_len then Ok None
      else
        model_bytes ← slice blob 20 (20 +₆₄ model_len);
        tokenizer_bytes ← slice blob (20 +₆₄ model_len) (20 +₆₄ model_len +₆₄ tok_len);
        parsed ← parse_model model_bytes;
        match parsed with
        | None => Ok None
        | Some (c, w) =>
            v ← parse_tokenizer tokenizer_bytes (Z.to_nat (vocab_size c)) V;
            Ok (Some (mkModel c w v))
        end.

(** ** Arithmetic *)

Definition one : f32 := of_Z 1.
Definition EPSILON : f32 := literal 1 100000.

(** [for i in 0..n { sum += f(i) }]. *)
Definition sum_over {S} (n : Z) (f : Z -> io S f32) : io S f32 := fold_io (fun sum i => v ← f i; mret (add sum v)) (range n) zero.

(** [out] is the state. *)
Definition rmsnorm (x weight : list f32) (size : Z) : io (list f32) unit :=
  sum ← sum_over size (fun i => a ← at_ x i; mret (mul a a));
  let scale := div one (sqrt (add (div sum (of_Z size)) EPSILON)) in
  for_each (range size) (fun i => w ← at_ weight i; a ← at_ x i; store i (mul w (mul a scale))).

Definition softmax : io (list f32) unit := fun x =>
  match x with
  | [] => (Panic, x)
  | first :: _ =>
      let max := fold_left (fun max value => if flt max value then value else max) x first in
      let es := map (fun value => exp (sub value max)) x in
      let sum := fold_left add es zero in
      (Ok tt, map (fun value => div value sum) es)
  end.

Definition matmul (x w : list f32) (n d : Z) : io (list f32) unit :=
  for_each (range d) (fun i =>
    row ← part w (i * n) (i * n + n);
    sum ← sum_over n (fun j => a ← at_ row j; b ← at_ x j; mret (mul a b));
    store i sum).

(** ** The forward pass

    Index arithmetic is written without its wrap: the weights have been
    found in the file, so no product here comes near [2^64]. *)

Definition here : io RunState RunState := fun s => (Ok s, s).
Definition on {F A} (proj : RunState -> F) `{!Setter proj} (m : io F A) : io RunState A := fun s =>
  let '(r, f) := m (proj s) in (r, s <| proj := f |>).

(** Rotate the pairs of [heads] heads from [offset] by the angles of [pos]. *)
Definition rope (w : Weights) (offset heads hs pos : Z) : io (list f32) unit :=
  let half := hs / 2 in
  for_each (range heads) (fun head => for_each (range half) (fun i =>
    cos ← at_ (freq_cos w) (pos * half + i);
    sin ← at_ (freq_sin w) (pos * half + i);
    let base := offset + head * hs + i * 2 in
    a ← fetch base;
    b ← fetch (base + 1);
    _ ← store base (sub (mul a cos) (mul b sin));
    store (base + 1) (add (mul a sin) (mul b cos)))).

Definition row_at (c : Config) (kv layer t : Z) : Z := layer * seq_len c * kv + t * kv.

Definition attend (c : Config) (kv hs kv_mul layer pos head : Z) : io RunState unit :=
  let scale := div one (sqrt (of_Z hs)) in
  s ← here;
  query ← part (q s) (head * hs) (head * hs + hs);
  _ ← on att (on_part (head * MAX_SEQ) (head * MAX_SEQ + pos + 1) (
    _ ← for_each (range (pos + 1)) (fun t =>
          let k_at := row_at c kv layer t + head / kv_mul * hs in
          score ← sum_over hs (fun i => a ← at_ query i; k ← at_ (key_cache s) (k_at + i); mret (mul a k));
          store t (mul score scale));
    softmax));
  s ← here;
  scores ← part (att s) (head * MAX_SEQ) (head * MAX_SEQ + pos + 1);
  on xb (on_part (head * hs) (head * hs + hs) (
    _ ← for_each (range hs) (fun i => store i zero);
    for_each (range (pos + 1)) (fun t =>
      let v_at := row_at c kv layer t + head / kv_mul * hs in
      weight ← at_ scores t;
      for_each (range hs) (fun i =>
        v ← at_ (value_cache s) (v_at + i);
        o ← fetch i;
        store i (add o (mul weight v)))))).

(** [for i in 0..dim { state.x\[i\] += l\[i\] }]. *)
Definition add_into_x (l : list f32) (n : Z) : io RunState unit :=
  on x (for_each (range n) (fun i => a ← fetch i; b ← at_ l i; store i (add a b))).

Definition feed_forward (m : Model) (layer : Z) : io RunState unit :=
  let c := config m in let w := weights m in let dm := dim c in let hidden := hidden_dim c in
  s ← here;
  rms ← from (rms_ffn w) (layer * dm);
  _ ← on xb (rmsnorm (x s) rms dm);
  s ← here;
  input ← part (xb s) 0 dm;
  w_1 ← from (w1 w) (layer * hidden * dm);
  _ ← on hb (matmul input w_1 dm hidden);
  w_3 ← from (w3 w) (layer * hidden * dm);
  _ ← on hb2 (matmul input w_3 dm hidden);
  s ← here;
  _ ← on hb (for_each (range hidden) (fun i =>
        value ← fetch i;
        gate ← at_ (hb2 s) i;
        store i (mul (mul value (div one (add one (exp (neg value))))) gate)));
  s ← here;
  input ← part (hb s) 0 hidden;
  w_2 ← from (w2 w) (layer * dm * hidden);
  _ ← on xb (matmul input w_2 hidden dm);
  s ← here;
  add_into_x (xb s) dm.

Definition run_layer (m : Model) (kv hs kv_mul pos layer : Z) : io RunState unit :=
  let c := config m in let w := weights m in let dm := dim c in
  s ← here;
  rms ← from (rms_att w) (layer * dm);
  _ ← on xb (rmsnorm (x s) rms dm);
  let key_offset := row_at c kv layer pos in
  s ← here;
  input ← part (xb s) 0 dm;
  w_q ← from (wq w) (layer * dm * dm);
  _ ← on q (matmul input w_q dm dm);
  w_k ← from (wk w) (layer * dm * kv);
  _ ← on key_cache (on_part key_offset (key_offset + kv) (matmul input w_k dm kv));
  w_v ← from (wv w) (layer * dm * kv);
  _ ← on value_cache (on_part key_offset (key_offset + kv) (matmul input w_v dm kv));
  _ ← on q (rope w 0 (n_heads c) hs pos);
  _ ← on key_cache (rope w key_offset (n_kv_heads c) hs pos);
  _ ← for_each (range (n_heads c)) (attend c kv hs kv_mul layer pos);
  s ← here;
  input ← part (xb s) 0 dm;
  w_o ← from (wo w) (layer * dm * dm);
  _ ← on xb2 (matmul input w_o dm dm);
  s ← here;
  _ ← add_into_x (xb2 s) dm;
  feed_forward m layer.

Definition forward (m : Model) (token pos : Z) : io RunState (list f32) :=
  let c := config m in let w := weights m in let dm := dim c in
  kv ← kv_dim c;
  hs ← head_size c;
  kv_mul ← (if n_kv_heads c =? 0 then panic else mret (n_heads c / n_kv_heads c));
  row ← part (token_embedding w) (token * dm) (token * dm + dm);
  _ ← on x (on_part 0 dm (fun _ => (Ok tt, row)));
  _ ← for_each (range (n_layers c)) (run_layer m kv hs kv_mul pos);
  s ← here;
  _ ← on x (rmsnorm (x s) (rms_final w) dm);
  s ← here;
  input ← part (x s) 0 dm;
  _ ← on logits (matmul input (token_embedding w) dm (vocab_size c));
  s ← here;
  mret (logits s).

(** ** Generation *)

(** The first of the largest. *)
Definition argmax (values : list f32) : nat :=
  fold_left (fun best i => if flt (values !!! best) (values !!! i) then i else best) (seq 0 (length values)) 0%nat.

(** [generate], from the prompt to the text it prints; the messages around
    it are left out.  The loop runs over the positions to come. *)
Fixpoint generate_loop (m : Model) (tokens : list nat) (prompt_len : nat) (positions : list nat) (token previous generated : nat) (out : list Z)
  : io RunState (list Z * nat) :=
  match positions with
  | [] => mret (out ++ emit (vocabulary m) token previous, generated)
  | pos :: positions =>
      lgs ← forward m (Z.of_nat token) (Z.of_nat pos);
      next ← (if (pos + 1 <? prompt_len)%nat then at_ tokens (Z.of_nat (pos + 1)) else mret (argmax lgs));
      let out := out ++ emit (vocabulary m) token previous in
      if (next =? 2)%nat then mret (out ++ emit (vocabulary m) next token, (generated + 1)%nat)
      else generate_loop m tokens prompt_len positions next token (generated + 1) out
  end.

Definition TOKENS : nat := 128.

Definition run_prompt (m : Model) (prompt : list Z) (steps : Z) : io RunState (list Z * nat) :=
  let '(rest, count) := encode (vocabulary m) prompt (replicate (TOKENS - 1) 0%nat) in
  let tokens := 1%nat :: rest in
  let prompt_len := (count + 1)%nat in
  let limit := Z.min steps (seq_len (config m)) in
  generate_loop m tokens prompt_len (seq 0 (Z.to_nat limit)) 1 0 0 [].

(** What a call of [generate] says: another one is running, no model is
    loaded, or a text of so many tokens. *)
Inductive Generated := Busy | NoModel | Story (story : list Z) (generated : nat).

(** The claim [GENERATING], at address [g], is given back where its guard
    goes out of scope. *)
Definition generate (g : Z) (model : option Model) (prompt : list Z) (steps : Z) : io (Cpu * RunState) Generated := fun '(cpu, s) =>
  match claim_try_take g cpu with
  | (false, cpu) => (Ok Busy, (cpu, s))
  | (true, cpu) =>
      match model with
      | None => (Ok NoModel, (drop_claim g cpu, s))
      | Some m =>
          match run_prompt m prompt steps s with
          | (Ok (story, generated), s) => (Ok (Story story generated), (drop_claim g cpu, s))
          | (Err e, s) => (Err e, (cpu, s))
          | (Panic, s) => (Panic, (cpu, s))
          end
      end
  end.

(** ** What a computation on an array may write *)

Definition keeps {A} (n : Z) (W : Z -> Prop) (m : io (list f32) A) (Q : A -> Prop) : Prop := forall l, Z.of_nat (length l) = n ->
  safe m (fun a l' => Q a /\ Z.of_nat (length l') = n /\ forall j, 0 <= j -> ~ W j -> l' !!! Z.to_nat j = l !!! Z.to_nat j) (fun _ => False) l.

Section keeps.
Context (n : Z) (W : Z -> Prop).

Abbreviation any := (fun _ => True).

Lemma keeps_ret {A} (a : A) (Q : A -> Prop) : Q a -> keeps n W (mret a) Q.
Proof. intros HQ l Hl. by apply safe_ret. Qed.

Lemma keeps_bind {A B} (m : io (list f32) A) (f : A -> io (list f32) B) Q Q' : keeps n W m Q -> (forall a, Q a -> keeps n W (f a) Q') -> keeps n W (m ≫= f) Q'.
Proof.
  intros Hm Hf l Hl. eapply safe_bind; [by apply Hm|]. intros a l1 (Ha & Hl1 & H1). eapply safe_mono; [by apply (Hf a Ha l1)| |done].
  intros b l2 (Hb & Hl2 & H2). split_and!; [done..|]. intros j H0 Hj. by rewrite H2, H1.
Qed.

Lemma keeps_weaken {A} (m : io (list f32) A) (Q Q' : A -> Prop) : keeps n W m Q -> (forall a, Q a -> Q' a) -> keeps n W m Q'.
Proof. intros Hm HQ l Hl. eapply safe_mono; [by apply Hm| |done]. intros a l' (Ha & H). split; [by apply HQ|done]. Qed.

Lemma range_spec k i : i ∈ range k <-> 0 <= i < k.
Proof.
  unfold range. rewrite list_elem_of_In, in_map_iff. split.
  - intros (j & <- & Hj%in_seq). lia.
  - intros Hi. exists (Z.to_nat i). split; [lia|]. apply in_seq. lia.
Qed.

Lemma keeps_for_each {A} (l : list A) (body : A -> io (list f32) unit) : (forall x, x ∈ l -> keeps n W (body x) any) -> keeps n W (for_each l body) any.
Proof.
  induction l as [|x l IH]; intros Hb; [by apply keeps_ret|]. cbn [for_each]. eapply keeps_bind; [apply Hb; by left|]. intros [] _. apply IH. intros y Hy. apply Hb. by right.
Qed.

Lemma keeps_fold {A B} (body : B -> A -> io (list f32) B) (l : list A) b : (forall b x, x ∈ l -> keeps n W (body b x) any) -> keeps n W (fold_io body l b) any.
Proof.
  revert b. induction l as [|x l IH]; intros b Hb; [by apply keeps_ret|]. cbn [fold_io]. eapply keeps_bind; [apply Hb; by left|]. intros b' _. apply IH. intros c y Hy. apply Hb. by right.
Qed.

Lemma keeps_at (l : list f32) i : 0 <= i < Z.of_nat (length l) -> keeps n W (at_ l i) any.
Proof. intros Hi s Hs. unfold safe, at_. by rewrite (proj2 (Z.leb_le 0 i)), (proj2 (Z.ltb_lt i _)) by lia. Qed.

Lemma keeps_part (l : list f32) a b : 0 <= a <= b -> b <= Z.of_nat (length l) -> keeps n W (part l a b) (fun r => Z.of_nat (length r) = b - a).
Proof.
  intros Ha Hb s Hs. unfold safe, part. rewrite (proj2 (Z.leb_le 0 a)), (proj2 (Z.leb_le a b)), (proj2 (Z.leb_le b _)) by lia. cbn [andb].
  split; [rewrite length_take, length_drop; lia|done].
Qed.

Lemma keeps_sum k (f : Z -> io (list f32) f32) : (forall i, 0 <= i < k -> keeps n W (f i) any) -> keeps n W (sum_over k f) any.
Proof. intros Hf. apply keeps_fold. intros b i Hi%range_spec. eapply keeps_bind; [by apply Hf|]. intros v _. by apply keeps_ret. Qed.

Lemma keeps_range k (body : Z -> io (list f32) unit) : (forall i, 0 <= i < k -> keeps n W (body i) any) -> keeps n W (for_each (range k) body) any.
Proof. intros Hb. apply keeps_for_each. intros i Hi%range_spec. by apply Hb. Qed.

Lemma keeps_fetch i : 0 <= i < n -> keeps n W (fetch i) any.
Proof. intros Hi l Hl. unfold safe, fetch, at_. by rewrite (proj2 (Z.leb_le 0 i)), (proj2 (Z.ltb_lt i _)) by lia. Qed.

Lemma keeps_store i v : 0 <= i < n -> W i -> keeps n W (store i v) any.
Proof.
  intros Hi HW l Hl. unfold safe, store. rewrite (proj2 (Z.leb_le 0 i)), (proj2 (Z.ltb_lt i _)) by lia. cbn [andb]. rewrite length_insert. split_and!; [done..|].
  intros j H0 Hj. rewrite list_insert_total by lia. rewrite decide_False; [done|]. intros E. apply Hj. by replace j with i by lia.
Qed.
End keeps.

Abbreviation any := (fun _ => True).

Lemma keeps_on_part {A} n W W' a b (m : io (list f32) A) Q : 0 <= a <= b -> b <= n -> keeps (b - a) W' m Q -> (forall j, 0 <= j < b - a -> W' j -> W (a + j)) -> keeps n W (on_part a b m) Q.
Proof.
  intros Ha Hb Hm HW l Hl. unfold safe, on_part, part. rewrite (proj2 (Z.leb_le 0 a)), (proj2 (Z.leb_le a b)), (proj2 (Z.leb_le b _)) by lia. cbn [andb].
  set (sub := take _ _). assert (Hsub : Z.of_nat (length sub) = b - a) by (unfold sub; rewrite length_take, length_drop; lia).
  pose proof (Hm sub Hsub) as H. unfold safe in H. destruct (m sub) as [[r|e|] sub']; [|done..]. destruct H as (HQ & Hl' & Hj). split_and!; [done|rewrite !length_app, length_take, length_drop; lia|].
  intros j H0 HjW. rewrite list_lookup_total_alt. destruct (decide (j < a)); [|destruct (decide (j < b))].
  - rewrite lookup_app_l by (rewrite length_take; lia). rewrite lookup_take_lt by lia. by rewrite <- list_lookup_total_alt.
  - rewrite lookup_app_r by (rewrite length_take; lia). rewrite length_take, lookup_app_l by lia. rewrite <- list_lookup_total_alt.
    replace (Z.to_nat j - Z.to_nat a `min` length l)%nat with (Z.to_nat (j - a)) by lia. rewrite Hj; [|lia|intros HW'; apply HjW; replace j with (a + (j - a)) by lia; apply HW; [lia|done] ].
    unfold sub. rewrite list_lookup_total_alt, lookup_take_lt, lookup_drop, <- list_lookup_total_alt by lia. f_equal. lia.
  - rewrite lookup_app_r by (rewrite length_take; lia). rewrite lookup_app_r by (rewrite length_take; lia). rewrite length_take, lookup_drop, <- list_lookup_total_alt. f_equal. lia.
Qed.

Lemma keeps_softmax n : 0 < n -> keeps n any softmax any.
Proof.
  intros Hn l Hl. unfold safe, softmax. destruct l as [|v l]; [cbn in Hl; lia|]. split_and!; [done|by rewrite !length_map|]. intros j _ []. done.
Qed.

Lemma row_end i m n : 0 <= i < m -> 0 <= n -> 0 <= i * n /\ i * n + n <= m * n.
Proof. intros Hi Hn. nia. Qed.

Lemma keeps_matmul k W (x w : list f32) n d : 0 <= n -> d <= k -> n <= Z.of_nat (length x) -> d * n <= Z.of_nat (length w) -> (forall j, 0 <= j < d -> W j) -> keeps k W (matmul x w n d) any.
Proof.
  intros Hn Hd Hx Hw HW. apply keeps_range. intros i Hi. pose proof (row_end i d n Hi Hn) as [H1 H2].
  eapply keeps_bind; [apply keeps_part; lia|]. intros row Hr. cbn beta in Hr.
  eapply keeps_bind; [|intros sum _; apply keeps_store; [lia|by apply HW] ]. apply keeps_sum. intros j Hj.
  eapply keeps_bind; [apply keeps_at; lia|]. intros a _. eapply keeps_bind; [apply keeps_at; lia|]. intros b _. by apply keeps_ret.
Qed.

Lemma keeps_rmsnorm k W (x weight : list f32) size : size <= k -> size <= Z.of_nat (length x) -> size <= Z.of_nat (length weight) -> (forall j, 0 <= j < size -> W j) -> keeps k W (rmsnorm x weight size) any.
Proof.
  intros Hk Hx Hw HW. eapply keeps_bind; [apply keeps_sum; intros i Hi; eapply keeps_bind; [apply keeps_at; lia|intros a _; by apply keeps_ret] |]. intros sum _.
  apply keeps_range. intros i Hi. eapply keeps_bind; [apply keeps_at; lia|]. intros w _. eapply keeps_bind; [apply keeps_at; lia|]. intros a _. apply keeps_store; [lia|by apply HW].
Qed.

Lemma keeps_rope k W (w : Weights) offset heads hs pos seq : 0 <= offset -> 0 <= hs -> 0 <= pos < seq -> offset + heads * hs <= k ->
  seq * (hs / 2) <= Z.of_nat (length (freq_cos w)) -> seq * (hs / 2) <= Z.of_nat (length (freq_sin w)) ->
  (forall j, 0 <= j < heads * hs -> W (offset + j)) -> keeps k W (rope w offset heads hs pos) any.
Proof.
  intros Ho Hhs Hpos Hk Hc Hs HW. pose proof (Z.div_mod hs 2 ltac:(done)) as E2. pose proof (Z.mod_pos_bound hs 2 ltac:(done)). assert (Hhalf : 0 <= hs / 2) by (apply Z.div_pos; lia).
  apply keeps_range. intros head Hh. pose proof (row_end head heads hs Hh Hhs) as [H1 H2]. apply keeps_range. intros i Hi. pose proof (row_end pos seq (hs / 2) Hpos Hhalf) as [H3 H4].
  eapply keeps_bind; [apply keeps_at; lia|]. intros cos _. eapply keeps_bind; [apply keeps_at; lia|]. intros sin _. cbv zeta.
  eapply keeps_bind; [apply keeps_fetch; lia|]. intros a _. eapply keeps_bind; [apply keeps_fetch; lia|]. intros b _.
  replace (offset + head * hs + i * 2) with (offset + (head * hs + i * 2)) by lia. replace (offset + (head * hs + i * 2) + 1) with (offset + (head * hs + i * 2 + 1)) by lia.
  eapply keeps_bind; [apply keeps_store; [lia|apply HW; lia] |]. intros [] _. apply keeps_store; [lia|apply HW; lia].
Qed.

(** ** The activations *)

Record lens (s : RunState) : Prop := {
  ln_x : Z.of_nat (length (x s)) = MAX_DIM; ln_xb : Z.of_nat (length (xb s)) = MAX_DIM; ln_xb2 : Z.of_nat (length (xb2 s)) = MAX_DIM;
  ln_hb : Z.of_nat (length (hb s)) = MAX_HIDDEN; ln_hb2 : Z.of_nat (length (hb2 s)) = MAX_HIDDEN; ln_q : Z.of_nat (length (q s)) = MAX_DIM;
  ln_att : Z.of_nat (length (att s)) = MAX_HEADS * MAX_SEQ; ln_logits : Z.of_nat (length (logits s)) = MAX_VOCAB;
  ln_key : Z.of_nat (length (key_cache s)) = MAX_LAYERS * MAX_SEQ * MAX_DIM; ln_value : Z.of_nat (length (value_cache s)) = MAX_LAYERS * MAX_SEQ * MAX_DIM
}.

Lemma STATE_lens : lens STATE_init.
Proof. split; unfold STATE_init, zeros; cbn [x xb xb2 hb hb2 q att logits key_cache value_cache]; rewrite length_replicate; unfold MAX_VOCAB, MAX_LAYERS, MAX_SEQ, MAX_DIM, MAX_HEADS, MAX_HIDDEN; lia. Qed.

(** The caches outside [W]. *)
Definition cached (W : Z -> Prop) (s s' : RunState) : Prop :=
  forall j, 0 <= j -> ~ W j -> key_cache s' !!! Z.to_nat j = key_cache s !!! Z.to_nat j /\ value_cache s' !!! Z.to_nat j = value_cache s !!! Z.to_nat j.

Definition does {A} (W : Z -> Prop) (m : io RunState A) (Q : A -> Prop) : Prop := forall s, lens s ->
  safe m (fun a s' => Q a /\ lens s' /\ cached W s s') (fun _ => False) s.

Section does.
Context (W : Z -> Prop).

Lemma does_ret {A} (a : A) (Q : A -> Prop) : Q a -> does W (mret a) Q.
Proof. intros HQ s Hs. by apply safe_ret. Qed.

Lemma does_bind {A B} (m : io RunState A) (f : A -> io RunState B) Q Q' : does W m Q -> (forall a, Q a -> does W (f a) Q') -> does W (m ≫= f) Q'.
Proof.
  intros Hm Hf s Hs. eapply safe_bind; [by apply Hm|]. intros a s1 (Ha & Hs1 & H1). eapply safe_mono; [by apply (Hf a Ha s1)| |done].
  intros b s2 (Hb & Hs2 & H2). split_and!; [done..|]. intros j H0 Hj. destruct (H1 j H0 Hj) as [E1 E2], (H2 j H0 Hj) as [E3 E4]. split; congruence.
Qed.

Lemma does_here : does W here lens.
Proof. intros s Hs. done. Qed.

Lemma does_at {A} `{Inhabited A} (l : list A) i : 0 <= i < Z.of_nat (length l) -> does W (at_ l i) (fun a => a = l !!! Z.to_nat i).
Proof. intros Hi s Hs. unfold safe, at_. by rewrite (proj2 (Z.leb_le 0 i)), (proj2 (Z.ltb_lt i _)) by lia. Qed.

Lemma does_part (l : list f32) a b : 0 <= a <= b -> b <= Z.of_nat (length l) -> does W (part l a b) (fun r => Z.of_nat (length r) = b - a).
Proof.
  intros Ha Hb s Hs. unfold safe, part. rewrite (proj2 (Z.leb_le 0 a)), (proj2 (Z.leb_le a b)), (proj2 (Z.leb_le b _)) by lia. cbn [andb].
  split; [rewrite length_take, length_drop; lia|done].
Qed.

Lemma does_from (l : list f32) a : 0 <= a <= Z.of_nat (length l) -> does W (from l a) (fun r => Z.of_nat (length r) = Z.of_nat (length l) - a).
Proof. intros Ha. apply does_part; lia. Qed.

Lemma does_range k (body : Z -> io RunState unit) : (forall i, 0 <= i < k -> does W (body i) any) -> does W (for_each (range k) body) any.
Proof.
  intros Hb. assert (G : forall l, (forall i, i ∈ l -> 0 <= i < k) -> does W (for_each l body) any); [|apply G; intros i; by rewrite range_spec].
  induction l as [|i l IH]; intros Hl; [by apply does_ret|]. cbn [for_each]. eapply does_bind; [apply Hb, Hl; by left|]. intros [] _. apply IH. intros j Hj. apply Hl. by right.
Qed.

(** A field that is not a cache: any array of its length may replace it. *)
Class Scratch (proj : RunState -> list f32) `{!Setter proj} (n : Z) : Prop := {
  scratch_len s : lens s -> Z.of_nat (length (proj s)) = n;
  scratch_set s v : lens s -> Z.of_nat (length v) = n -> lens (s <| proj := v |>) /\ cached W s (s <| proj := v |>)
}.
Ltac scratch := split; [intros s []; assumption|intros [] v [] ?; cbn in *; split; [constructor; assumption|intros j _ _; split; reflexivity] ].
#[export] Instance x_scratch : Scratch x MAX_DIM. Proof. scratch. Qed.
#[export] Instance xb_scratch : Scratch xb MAX_DIM. Proof. scratch. Qed.
#[export] Instance xb2_scratch : Scratch xb2 MAX_DIM. Proof. scratch. Qed.
#[export] Instance hb_scratch : Scratch hb MAX_HIDDEN. Proof. scratch. Qed.
#[export] Instance hb2_scratch : Scratch hb2 MAX_HIDDEN. Proof. scratch. Qed.
#[export] Instance q_scratch : Scratch q MAX_DIM. Proof. scratch. Qed.
#[export] Instance att_scratch : Scratch att (MAX_HEADS * MAX_SEQ). Proof. scratch. Qed.
#[export] Instance logits_scratch : Scratch logits (MAX_VOCAB). Proof. scratch. Qed.

Lemma does_scratch {A} (proj : RunState -> list f32) `{!Setter proj} n `{!Scratch proj n} (m : io (list f32) A) (Q : A -> Prop) : keeps n any m Q -> does W (on proj m) Q.
Proof.
  intros Hm s Hs. pose proof (Hm (proj s) (scratch_len s Hs)) as H. unfold safe, on in *. destruct (m (proj s)) as [[a|e|] f]; [|done..].
  destruct H as (HQ & Hl & _). split; [done|]. by apply scratch_set.
Qed.

Lemma does_key {A} (m : io (list f32) A) (Q : A -> Prop) : keeps (MAX_LAYERS * MAX_SEQ * MAX_DIM) W m Q -> does W (on key_cache m) Q.
Proof.
  intros Hm s Hs. pose proof (Hm (key_cache s) (ln_key s Hs)) as H. unfold safe, on in *. destruct (m (key_cache s)) as [[a|e|] f]; [|done..].
  destruct H as (HQ & Hl & Hj). destruct s, Hs. cbn in *. split; [exact HQ|]. split; [constructor; assumption|]. intros j H0 HW. split; [exact (Hj j H0 HW)|reflexivity].
Qed.

Lemma does_value {A} (m : io (list f32) A) (Q : A -> Prop) : keeps (MAX_LAYERS * MAX_SEQ * MAX_DIM) W m Q -> does W (on value_cache m) Q.
Proof.
  intros Hm s Hs. pose proof (Hm (value_cache s) (ln_value s Hs)) as H. unfold safe, on in *. destruct (m (value_cache s)) as [[a|e|] f]; [|done..].
  destruct H as (HQ & Hl & Hj). destruct s, Hs. cbn in *. split; [exact HQ|]. split; [constructor; assumption|]. intros j H0 HW. split; [reflexivity|exact (Hj j H0 HW)].
Qed.
End does.

(** ** A model that fits together

    [hs] is the size of a head, [share] how many heads share a key. *)
Record fits (c : Config) (w : Weights) (hs share : Z) : Prop := {
  ft_dim : dim c = n_heads c * hs; ft_max_dim : dim c <= MAX_DIM; ft_heads : 0 < n_heads c <= MAX_HEADS; ft_hs : 0 < hs;
  ft_kv : n_heads c = n_kv_heads c * share; ft_kv_heads : 0 < n_kv_heads c; ft_share : 0 < share;
  ft_hidden : 0 <= hidden_dim c <= MAX_HIDDEN; ft_layers : 0 <= n_layers c <= MAX_LAYERS; ft_seq : 0 <= seq_len c <= MAX_SEQ;
  ft_vocab : 0 <= vocab_size c <= MAX_VOCAB;
  ft_embedding : Z.of_nat (length (token_embedding w)) = vocab_size c * dim c;
  ft_rms_att : Z.of_nat (length (rms_att w)) = n_layers c * dim c;
  ft_wq : Z.of_nat (length (wq w)) = n_layers c * (dim c * dim c);
  ft_wk : Z.of_nat (length (wk w)) = n_layers c * (dim c * (n_kv_heads c * hs));
  ft_wv : Z.of_nat (length (wv w)) = n_layers c * (dim c * (n_kv_heads c * hs));
  ft_wo : Z.of_nat (length (wo w)) = n_layers c * (dim c * dim c);
  ft_rms_ffn : Z.of_nat (length (rms_ffn w)) = n_layers c * dim c;
  ft_w1 : Z.of_nat (length (w1 w)) = n_layers c * (hidden_dim c * dim c);
  ft_w2 : Z.of_nat (length (w2 w)) = n_layers c * (hidden_dim c * dim c);
  ft_w3 : Z.of_nat (length (w3 w)) = n_layers c * (hidden_dim c * dim c);
  ft_rms_final : Z.of_nat (length (rms_final w)) = dim c;
  ft_cos : seq_len c * (hs / 2) <= Z.of_nat (length (freq_cos w));
  ft_sin : seq_len c * (hs / 2) <= Z.of_nat (length (freq_sin w))
}.

Section forward.
Context (m : Model) (hs share pos : Z) (Hfit : fits (config m) (weights m) hs share) (Hpos : 0 <= pos < seq_len (config m)).

Abbreviation c := (config m).
Abbreviation w := (weights m).
Abbreviation kv := (n_kv_heads c * hs).

(** The places a pass at [pos] writes: that row of every layer. *)
Definition rows_of_pos (j : Z) : Prop := exists layer, 0 <= layer < n_layers c /\ row_at c kv layer pos <= j < row_at c kv layer pos + kv.

Lemma fit_small : 0 < dim c <= MAX_DIM /\ 0 < kv <= dim c /\ n_heads c * hs = dim c.
Proof using Hfit.
  destruct Hfit. assert (kv * share = dim c) by (rewrite ft_dim0, ft_kv0; lia). assert (0 < kv) by nia. assert (kv <= kv * share) by nia. lia.
Qed.

Lemma row_bounds layer t : 0 <= layer < n_layers c -> 0 <= t < seq_len c -> 0 <= row_at c kv layer t /\ row_at c kv layer t + kv <= MAX_LAYERS * MAX_SEQ * MAX_DIM.
Proof using Hfit.
  intros Hl Ht. destruct fit_small as ((Hd & Hdm) & (Hk & Hkd) & _). destruct Hfit. unfold row_at, MAX_LAYERS, MAX_SEQ, MAX_DIM in *.
  assert (E : layer * seq_len c * kv + t * kv = (layer * seq_len c + t) * kv) by lia. rewrite E.
  assert (H1 : 0 <= layer * seq_len c + t) by nia. assert (H2 : layer * seq_len c + t + 1 <= 8 * 256) by nia. nia.
Qed.

Lemma attend_does layer head : 0 <= layer < n_layers c -> 0 <= head < n_heads c -> does rows_of_pos (attend c kv hs share layer pos head) any.
Proof using Hfit Hpos.
  intros Hl Hh. destruct fit_small as ((Hd & Hdm) & (Hk & Hkd) & Hdh). pose proof Hfit as []. pose proof (row_end head (n_heads c) hs Hh ltac:(lia)) as [H1 H2].
  assert (Hg : 0 <= head / share * hs /\ head / share * hs + hs <= kv).
  { apply (row_end (head / share) (n_kv_heads c)); [|lia]. split; [apply Z.div_pos; lia|]. apply Z.div_lt_upper_bound; lia. }
  assert (Ha : 0 <= head * MAX_SEQ /\ head * MAX_SEQ + MAX_SEQ <= MAX_HEADS * MAX_SEQ) by (apply row_end; [lia|done]).
  assert (Hpm : pos + 1 <= MAX_SEQ) by lia.
  unfold attend. eapply does_bind; [apply does_here|]. intros s Hs. eapply does_bind; [apply does_part; [lia|rewrite (ln_q s Hs); lia] |]. intros query Hq. cbn beta in Hq.
  eapply does_bind; [apply (does_scratch _ att (MAX_HEADS * MAX_SEQ)); apply (keeps_on_part _ _ any); [lia|lia| |done] |].
  - eapply keeps_bind; [apply keeps_range; intros t Ht|intros [] _; apply keeps_softmax; lia]. cbv zeta. destruct (row_bounds layer t Hl ltac:(lia)) as [H3 H4].
    eapply keeps_bind; [apply keeps_sum; intros i Hi|intros sc _; apply keeps_store; [lia|done] ].
    eapply keeps_bind; [apply keeps_at; lia|]. intros a _. eapply keeps_bind; [apply keeps_at; rewrite (ln_key s Hs); lia|]. intros k _. by apply keeps_ret.
  - intros [] _. eapply does_bind; [apply does_here|]. intros s' Hs'. eapply does_bind; [apply does_part; [lia|rewrite (ln_att s' Hs'); lia] |]. intros scores Hsc. cbn beta in Hsc.
    apply (does_scratch _ xb MAX_DIM), (keeps_on_part _ _ any); [lia|lia| |done].
    eapply keeps_bind; [apply keeps_range; intros i Hi; apply keeps_store; [lia|done] |]. intros [] _. apply keeps_range. intros t Ht. cbv zeta. destruct (row_bounds layer t Hl ltac:(lia)) as [H3 H4].
    eapply keeps_bind; [apply keeps_at; lia|]. intros weight _. apply keeps_range. intros i Hi.
    eapply keeps_bind; [apply keeps_at; rewrite (ln_value s' Hs'); lia|]. intros v _. eapply keeps_bind; [apply keeps_fetch; lia|]. intros o _. apply keeps_store; [lia|done].
Qed.

Lemma add_into_x_does (l : list f32) k : k <= MAX_DIM -> k <= Z.of_nat (length l) -> does rows_of_pos (add_into_x l k) any.
Proof using Type.
  intros Hk Hl. apply (does_scratch _ x MAX_DIM), keeps_range. intros i Hi. eapply keeps_bind; [apply keeps_fetch; lia|]. intros a _.
  eapply keeps_bind; [apply keeps_at; lia|]. intros b _. apply keeps_store; [lia|done].
Qed.

(** A product into a scratch array. *)
Lemma matmul_does (proj : RunState -> list f32) `{!Setter proj} k `{!Scratch rows_of_pos proj k} (a b : list f32) nn d :
  0 <= nn -> d <= k -> nn <= Z.of_nat (length a) -> d * nn <= Z.of_nat (length b) -> does rows_of_pos (on proj (matmul a b nn d)) any.
Proof using Type. intros. apply (does_scratch _ proj k). by apply keeps_matmul. Qed.

(** A weight matrix of the layer, to the end of the tensor. *)
Lemma layer_matrix layer (l : list f32) size : 0 <= layer < n_layers c -> 0 <= size -> Z.of_nat (length l) = n_layers c * size ->
  does rows_of_pos (from l (layer * size)) (fun r => size <= Z.of_nat (length r)).
Proof using Type.
  intros Hl Hs E. pose proof (row_end layer _ size Hl Hs) as [H1 H2]. intros s Hln. eapply safe_mono; [apply (does_from rows_of_pos l (layer * size)); [lia|done] | |done].
  intros r s' (Hr & H). split; [lia|exact H].
Qed.

Lemma attention_does layer : 0 <= layer < n_layers c -> does rows_of_pos (for_each (range (n_heads c)) (attend c kv hs share layer pos)) any.
Proof using Hfit Hpos. intros Hl. apply does_range. intros head Hh. by apply attend_does. Qed.

Lemma rope_cos : 0 <= hs /\ seq_len c * (hs / 2) <= Z.of_nat (length (freq_cos w)) /\ seq_len c * (hs / 2) <= Z.of_nat (length (freq_sin w)).
Proof using Hfit. destruct Hfit. lia. Qed.

(** The projections and the rotation of a layer. *)
Lemma cache_row_does layer (a b : list f32) : 0 <= layer < n_layers c -> dim c <= Z.of_nat (length a) -> kv * dim c <= Z.of_nat (length b) ->
  does rows_of_pos (on key_cache (on_part (row_at c kv layer pos) (row_at c kv layer pos + kv) (matmul a b (dim c) kv))) any /\
  does rows_of_pos (on value_cache (on_part (row_at c kv layer pos) (row_at c kv layer pos + kv) (matmul a b (dim c) kv))) any.
Proof using Hfit Hpos.
  intros Hl Ha Hb. destruct fit_small as ((Hd & Hdm) & (Hk & Hkd) & Hdh). destruct (row_bounds layer pos Hl Hpos) as [H1 H2].
  split; [apply does_key|apply does_value]; (apply (keeps_on_part _ _ any); [lia|lia| |intros j Hj _; exists layer; lia]); apply keeps_matmul; (lia || done).
Qed.

Lemma feed_forward_does layer : 0 <= layer < n_layers c -> does rows_of_pos (feed_forward m layer) any.
Proof using Hfit.
  intros Hl. destruct fit_small as ((Hd & Hdm) & _). pose proof Hfit as []. assert (Hhd : 0 <= hidden_dim c * dim c) by nia.
  unfold feed_forward. eapply does_bind; [apply does_here|]. intros s Hs. eapply does_bind; [apply (layer_matrix layer _ (dim c)); [done|lia|done] |]. intros rms Hr.
  eapply does_bind; [apply (does_scratch _ xb MAX_DIM), keeps_rmsnorm; [lia|rewrite (ln_x s Hs); lia|done|done] |]. intros [] _.
  eapply does_bind; [apply does_here|]. intros s1 Hs1. eapply does_bind; [apply (does_part _ _ 0 (dim c)); [lia|rewrite (ln_xb s1 Hs1); lia] |]. intros input Hin. cbn beta in Hin.
  eapply does_bind; [rewrite <- Z.mul_assoc; apply (layer_matrix layer _ (hidden_dim c * dim c)); done|]. intros w_1 Hw1. cbn beta in Hw1.
  eapply does_bind; [apply (matmul_does hb MAX_HIDDEN); lia|]. intros [] _.
  eapply does_bind; [rewrite <- Z.mul_assoc; apply (layer_matrix layer _ (hidden_dim c * dim c)); done|]. intros w_3 Hw3. cbn beta in Hw3.
  eapply does_bind; [apply (matmul_does hb2 MAX_HIDDEN); lia|]. intros [] _. eapply does_bind; [apply does_here|]. intros s2 Hs2.
  eapply does_bind; [apply (does_scratch _ hb MAX_HIDDEN), keeps_range; intros i Hi|].
  { eapply keeps_bind; [apply keeps_fetch; lia|]. intros v _. eapply keeps_bind; [apply keeps_at; rewrite (ln_hb2 s2 Hs2); lia|]. intros g _. apply keeps_store; [lia|done]. }
  intros [] _. eapply does_bind; [apply does_here|]. intros s3 Hs3. eapply does_bind; [apply (does_part _ _ 0 (hidden_dim c)); [lia|rewrite (ln_hb s3 Hs3); lia] |]. intros input3 Hin3. cbn beta in Hin3.
  eapply does_bind; [rewrite <- Z.mul_assoc, (Z.mul_comm (dim c)); apply (layer_matrix layer _ (hidden_dim c * dim c)); done|]. intros w_2 Hw2. cbn beta in Hw2.
  eapply does_bind; [apply (matmul_does xb MAX_DIM); lia|]. intros [] _. eapply does_bind; [apply does_here|]. intros s4 Hs4. apply add_into_x_does; [lia|rewrite (ln_xb s4 Hs4); lia].
Qed.

Lemma run_layer_does layer : 0 <= layer < n_layers c -> does rows_of_pos (run_layer m kv hs share pos layer) any.
Proof using Hfit Hpos.
  intros Hl. destruct fit_small as ((Hd & Hdm) & (Hk & Hkd) & Hdh). destruct rope_cos as (Hhs & Hcos & Hsin). destruct (row_bounds layer pos Hl Hpos) as [H1 H2]. pose proof Hfit as [].
  unfold run_layer. eapply does_bind; [apply does_here|]. intros s Hs. eapply does_bind; [apply (layer_matrix layer _ (dim c)); [done|lia|done] |]. intros rms Hr.
  eapply does_bind; [apply (does_scratch _ xb MAX_DIM), keeps_rmsnorm; [lia|rewrite (ln_x s Hs); lia|done|done] |]. intros [] _. cbv zeta.
  eapply does_bind; [apply does_here|]. intros s1 Hs1. eapply does_bind; [apply (does_part _ _ 0 (dim c)); [lia|rewrite (ln_xb s1 Hs1); lia] |]. intros input Hin. cbn beta in Hin.
  eapply does_bind; [rewrite <- Z.mul_assoc; apply (layer_matrix layer _ (dim c * dim c)); [done|lia|done] |]. intros w_q Hwq. cbn beta in Hwq.
  eapply does_bind; [apply (matmul_does q MAX_DIM); lia|]. intros [] _.
  eapply does_bind; [rewrite <- Z.mul_assoc; apply (layer_matrix layer _ (dim c * kv)); [done|lia|done] |]. intros w_k Hwk. cbn beta in Hwk.
  eapply does_bind; [apply (cache_row_does layer input w_k Hl); lia|]. intros [] _.
  eapply does_bind; [rewrite <- Z.mul_assoc; apply (layer_matrix layer _ (dim c * kv)); [done|lia|done] |]. intros w_v Hwv. cbn beta in Hwv.
  eapply does_bind; [apply (cache_row_does layer input w_v Hl); lia|]. intros [] _.
  eapply does_bind; [apply (does_scratch _ q MAX_DIM), (keeps_rope _ _ _ _ _ _ _ (seq_len c)); (lia || done) |]. intros [] _.
  eapply does_bind; [apply does_key, (keeps_rope _ _ _ _ _ _ _ (seq_len c)); try (lia || done); intros j Hj; exists layer; lia|]. intros [] _.
  eapply does_bind; [by apply attention_does|]. intros [] _.
  eapply does_bind; [apply does_here|]. intros s2 Hs2. eapply does_bind; [apply (does_part _ _ 0 (dim c)); [lia|rewrite (ln_xb s2 Hs2); lia] |]. intros input2 Hin2. cbn beta in Hin2.
  eapply does_bind; [rewrite <- Z.mul_assoc; apply (layer_matrix layer _ (dim c * dim c)); [done|lia|done] |]. intros w_o Hwo. cbn beta in Hwo.
  eapply does_bind; [apply (matmul_does xb2 MAX_DIM); lia|]. intros [] _.
  eapply does_bind; [apply does_here|]. intros s3 Hs3. eapply does_bind; [apply add_into_x_does; [lia|rewrite (ln_xb2 s3 Hs3); lia] |]. intros [] _. apply (feed_forward_does layer Hl).
Qed.
End forward.

Section pass.
Context (m : Model) (hs share pos : Z) (Hfit : fits (config m) (weights m) hs share) (Hpos : 0 <= pos < seq_len (config m)).

Abbreviation c := (config m).
Abbreviation kv := (n_kv_heads c * hs).

Lemma kv_dim_fit {S} (s : S) : kv_dim c s = (Ok kv, s) /\ head_size c s = (Ok hs, s).
Proof using Hfit.
  destruct (fit_small m hs share Hfit) as ((Hd & Hdm) & (Hk & Hkd) & Hdh). pose proof Hfit as []. unfold kv_dim, head_size. rewrite (proj2 (Z.eqb_neq (n_heads c) 0)) by lia.
  assert (Hw : in_u 64 (dim c * n_kv_heads c)) by (unfold in_u; assert (0 <= dim c * n_kv_heads c <= 512 * 8) by (unfold MAX_DIM, MAX_HEADS in *; nia); lia).
  rewrite (wrap_small 64) by done. split; unfold mret, io_ret; do 2 f_equal.
  - rewrite ft_dim0. replace (n_heads c * hs * n_kv_heads c) with (n_kv_heads c * hs * n_heads c) by lia. apply Z.div_mul. lia.
  - rewrite ft_dim0, Z.mul_comm. apply Z.div_mul. lia.
Qed.

Lemma forward_does token : 0 <= token < vocab_size c -> does (rows_of_pos m hs pos) (forward m token pos) (fun l => Z.of_nat (length l) = MAX_VOCAB).
Proof using Hfit Hpos.
  intros Ht. destruct (fit_small m hs share Hfit) as ((Hd & Hdm) & (Hk & Hkd) & Hdh). pose proof Hfit as [].
  unfold forward. eapply does_bind; [intros s Hs; unfold safe; rewrite (proj1 (kv_dim_fit s)); exact (conj (eq_refl kv) (conj Hs (fun _ _ _ => conj eq_refl eq_refl)))|]. intros ? <-.
  eapply does_bind; [intros s Hs; unfold safe; rewrite (proj2 (kv_dim_fit s)); exact (conj (eq_refl hs) (conj Hs (fun _ _ _ => conj eq_refl eq_refl)))|]. intros ? <-.
  assert (Eshare : n_heads c / n_kv_heads c = share) by (rewrite ft_kv0, Z.mul_comm; apply Z.div_mul; lia).
  rewrite (proj2 (Z.eqb_neq (n_kv_heads c) 0)) by lia. rewrite Eshare. eapply (does_bind _ _ _ (eq share)); [by apply does_ret|]. intros ? <-.
  pose proof (row_end token _ (dim c) Ht ltac:(lia)) as [H1 H2].
  eapply does_bind; [apply does_part; [lia|rewrite ft_embedding0; lia] |]. intros row Hr. cbn beta in Hr.
  eapply does_bind; [apply (does_scratch _ x MAX_DIM), (keeps_on_part _ _ any _ _ _ any); [lia|lia| |done]; intros l Hl; split_and!; [done|cbn; lia|intros j _ []; done] |]. intros [] _.
  eapply does_bind; [apply does_range; intros layer Hl; by apply (run_layer_does m hs share pos)|]. intros [] _.
  eapply does_bind; [apply does_here|]. intros s Hs. eapply does_bind; [apply (does_scratch _ x MAX_DIM), keeps_rmsnorm; [lia|rewrite (ln_x s Hs); lia|lia|done] |]. intros [] _.
  eapply does_bind; [apply does_here|]. intros s1 Hs1. eapply does_bind; [apply (does_part _ _ 0 (dim c)); [lia|rewrite (ln_x s1 Hs1); lia] |]. intros input Hin. cbn beta in Hin.
  eapply does_bind; [apply (matmul_does m hs pos logits (MAX_VOCAB)); lia|]. intros [] _. eapply does_bind; [apply does_here|]. intros s2 Hs2. apply does_ret. exact (ln_logits s2 Hs2).
Qed.

(** A row of another position is not among those written. *)
Lemma other_rows layer t i : 0 <= layer < n_layers c -> 0 <= t < seq_len c -> t <> pos -> 0 <= i < kv -> ~ rows_of_pos m hs pos (row_at c kv layer t + i).
Proof using Hfit Hpos.
  intros Hl Ht Hne Hi (layer' & Hl' & H). unfold row_at in H.
  assert (E1 : layer * seq_len c * kv + t * kv = (layer * seq_len c + t) * kv) by lia. assert (E2 : layer' * seq_len c * kv + pos * kv = (layer' * seq_len c + pos) * kv) by lia. rewrite E1, E2 in H.
  assert (E : layer * seq_len c + t = layer' * seq_len c + pos) by nia. assert (layer = layer') by nia. subst. lia.
Qed.
End pass.

(** ** Loading a model that fits *)

(** What a header must say for the pieces to fit together; the loader checks
    only the upper bounds. *)
Record coherent (c : Config) (hs share : Z) : Prop := {
  ch_dim : dim c = n_heads c * hs; ch_heads : 0 < n_heads c; ch_hs : 0 < hs;
  ch_kv : n_heads c = n_kv_heads c * share; ch_kv_heads : 0 < n_kv_heads c; ch_share : 0 < share
}.

Lemma take_floats_length all count a l a' : in_u 64 a -> in_u 64 count -> take_floats all count a = (Ok l, a') -> Z.of_nat (length l) = count /\ in_u 64 a'.
Proof.
  intros Ha Hc. unfold take_floats, part. pose proof (wrap_in_u 64 (a + count) ltac:(done)) as Hw. destruct ((0 <=? a) && (a <=? a +₆₄ count) && (a +₆₄ count <=? Z.of_nat (length all))) eqn:E; [|done].
  intros [= <- <-]. apply andb_true_iff in E as [E E3]. apply andb_true_iff in E as [E1 E2]. split; [|done]. rewrite length_take, length_drop.
  assert (a +₆₄ count = a + count).
  { apply wrap_small. unfold in_u in *. split; [lia|]. destruct (Z.lt_ge_cases (a + count) (2 ^ 64)); [done|]. exfalso.
    assert (E : a +₆₄ count = a + count - 2 ^ 64) by (unfold wrap; symmetry; apply (Zmod_unique _ _ 1); lia). lia. }
  lia.
Qed.

Ltac taken H := let s := fresh "s" in let E := fresh "E" in apply io_bind_Ok in H as (?l & s & E & H); apply take_floats_length in E as [? ?]; [|done|unfold in_u; lia].

Lemma take_weights_fit all c hs share w a' : coherent c hs share ->
  0 <= dim c <= MAX_DIM -> 0 <= hidden_dim c <= MAX_HIDDEN -> 0 <= n_layers c <= MAX_LAYERS -> 0 <= seq_len c <= MAX_SEQ -> 0 <= vocab_size c <= MAX_VOCAB -> n_heads c <= MAX_HEADS ->
  take_weights all c 0 = (Ok w, a') -> fits c w hs share.
Proof.
  intros [] Hd Hh Hl Hs Hv Hhd H. unfold MAX_DIM, MAX_HIDDEN, MAX_LAYERS, MAX_SEQ, MAX_HEADS, MAX_VOCAB in *.
  set (kv := n_kv_heads c * hs). assert (Ekv : kv * share = dim c) by (unfold kv; rewrite ch_dim0, ch_kv0; lia). assert (Hkv : 0 < kv) by (unfold kv; nia). assert (kv <= dim c) by nia. assert (Hhs : hs <= dim c) by nia.
  unfold take_weights, kv_dim, head_size in H. rewrite (proj2 (Z.eqb_neq (n_heads c) 0)) in H by lia.
  apply io_bind_Ok in H as (k & s0 & E0 & H). injection E0 as <- <-. apply io_bind_Ok in H as (k & s0 & E0 & H). injection E0 as <- <-.
  assert (W1 : dim c *₆₄ n_kv_heads c = kv * n_heads c) by (rewrite wrap_small; [unfold kv; lia|unfold in_u; nia]). rewrite W1, Z.div_mul in H by lia.
  assert (W2 : dim c / n_heads c = hs) by (rewrite ch_dim0, Z.mul_comm; apply Z.div_mul; lia). rewrite W2 in H.
  assert (P1 : 0 <= vocab_size c * dim c <= 32000 * 512) by nia. assert (P2 : 0 <= n_layers c * dim c <= 8 * 512) by nia.
  assert (P3 : 0 <= n_layers c * dim c * n_heads c <= 8 * 512 * 8) by nia. assert (P4 : 0 <= n_layers c * dim c * n_heads c * hs <= 8 * 512 * 8 * 512) by nia.
  assert (P5 : 0 <= n_layers c * dim c * kv <= 8 * 512 * 512) by nia. assert (P6 : 0 <= n_layers c * n_heads c <= 64) by nia. assert (P7 : 0 <= n_layers c * n_heads c * hs <= 64 * 512) by nia.
  assert (P8 : 0 <= n_layers c * n_heads c * hs * dim c <= 64 * 512 * 512) by nia. assert (P9 : 0 <= n_layers c * hidden_dim c <= 8 * 1408) by nia.
  assert (P10 : 0 <= n_layers c * hidden_dim c * dim c <= 8 * 1408 * 512) by nia. assert (P11 : 0 <= n_layers c * dim c * hidden_dim c <= 8 * 512 * 1408) by nia.
  assert (P12 : 0 <= seq_len c * hs <= 256 * 512) by nia. assert (P13 : 0 <= seq_len c * hs / 2 <= 256 * 512) by (split; [apply Z.div_pos; lia|apply Z.div_le_upper_bound; lia]).
  rewrite !(wrap_small 64 (vocab_size c * dim c)), !(wrap_small 64 (n_layers c * dim c)), !(wrap_small 64 (n_layers c * n_heads c)), !(wrap_small 64 (n_layers c * hidden_dim c)), !(wrap_small 64 (seq_len c * hs)) in H by (unfold in_u; lia).
  rewrite !(wrap_small 64 (n_layers c * dim c * n_heads c)), !(wrap_small 64 (n_layers c * dim c * kv)), !(wrap_small 64 (n_layers c * n_heads c * hs)), !(wrap_small 64 (n_layers c * hidden_dim c * dim c)), !(wrap_small 64 (n_layers c * dim c * hidden_dim c)) in H by (unfold in_u; lia).
  rewrite !(wrap_small 64 (n_layers c * dim c * n_heads c * hs)), !(wrap_small 64 (n_layers c * n_heads c * hs * dim c)) in H by (unfold in_u; lia).
  assert (Hz : in_u 64 0) by done. do 13 taken H. injection H as <- _.
  assert (E2 : seq_len c * (hs / 2) <= seq_len c * hs / 2) by (apply Z.div_le_lower_bound; [lia|]; pose proof (Z.mul_div_le hs 2 ltac:(lia)); nia).
  split; cbn [token_embedding rms_att wq wk wv wo rms_ffn w1 w2 w3 rms_final freq_cos freq_sin]; unfold MAX_DIM, MAX_HEADS, MAX_HIDDEN, MAX_LAYERS, MAX_SEQ, MAX_VOCAB; fold kv; try lia; nia.
Qed.

Lemma take_weights_some all c w a' : take_weights all c 0 = (Ok w, a') -> n_heads c <> 0.
Proof. intros H E. unfold take_weights, kv_dim in H. rewrite E in H. done. Qed.

Lemma read_i32_bound bytes i v : Forall is_byte bytes -> read_i32 bytes i = Ok v -> - 2 ^ 31 <= v < 2 ^ 31.
Proof.
  intros Hb. unfold read_i32, read_u32, read_le, mbind, result_bind. destruct (slice bytes i _) as [l|e|] eqn:Es; [|done..]. intros [= <-].
  assert (Hl : Forall is_byte l /\ (length l <= 4)%nat).
  { unfold slice in Es. case_match; [|done]. injection Es as <-. split; [by apply Forall_take, Forall_drop|]. rewrite length_take, length_drop. lia. }
  destruct Hl as [Hl Hn]. pose proof (unle_bound l Hl) as Hu. assert (256 ^ Z.of_nat (length l) <= 256 ^ 4) by (apply Z.pow_le_mono_r; lia).
  destruct (Z.ltb_spec (unle l) (2 ^ 31)); lia.
Qed.

(** A model the loader takes, whose header is coherent, fits. *)
Lemma parse_model_fits bytes c w hs share : Forall is_byte bytes -> parse_model bytes = Ok (Some (c, w)) -> coherent c hs share -> fits c w hs share.
Proof.
  intros Hb H Hc. unfold parse_model in H. case_match; [done|]. unfold mbind, result_bind in H.
  destruct (read_i32 bytes 0) as [d| |] eqn:E0; [|done..]. destruct (read_i32 bytes 4) as [h| |] eqn:E4; [|done..]. destruct (read_i32 bytes 8) as [ly| |] eqn:E8; [|done..].
  destruct (read_i32 bytes 12) as [hd| |] eqn:E12; [|done..]. destruct (read_i32 bytes 16) as [kvh| |] eqn:E16; [|done..]. destruct (read_i32 bytes 20) as [vc| |] eqn:E20; [|done..]. destruct (read_i32 bytes 24) as [sq| |] eqn:E24; [|done..].
  set (c' := mkConfig _ _ _ _ _ _ _) in H. destruct (_ || _) eqn:Eg in H; [done|]. destruct (take_weights (floats bytes) c' 0) as [[w'| |] a'] eqn:Et; [|done..]. injection H as <- <-.
  repeat (apply orb_false_iff in Eg as [Eg ?]). rewrite !Z.ltb_ge in *.
  assert (Hw : forall v, 0 <= as_usize v) by (intros v; apply wrap_in_u; done).
  apply (take_weights_fit (floats bytes) c' hs share w' a' Hc); [.. |exact Et]; subst c'; cbn [dim hidden_dim n_layers seq_len vocab_size n_heads] in *; try (split; [apply Hw|assumption]); [split; [lia|assumption]|assumption].
Qed.

Lemma parse_loop_spec fuel bytes size : forall a n V n' V', (n <= size)%nat -> parse_loop fuel bytes size a n V = Ok (n', V') -> (n' <= size)%nat /\ length V' = length V.
Proof.
  induction fuel as [|fuel IH]; intros a n V n' V' Hn H; cbn [parse_loop] in H; [by injection H as <- <-|].
  destruct ((n <? size)%nat && _) eqn:E; [|by injection H as <- <-]. apply andb_true_iff in E as [E%Nat.ltb_lt _]. unfold mbind, result_bind in H.
  destruct (read_u32 bytes a) as [s| |]; [|done..]. destruct (read_u32 bytes (a + 4)) as [len| |]; [|done..]. destruct (_ <? _); [by injection H as <- <-|].
  destruct (slice bytes _ _) as [raw| |]; [|done..]. destruct (length V <=? n)%nat; [done|]. apply IH in H as [H1 H2]; [|lia]. rewrite length_insert in H2. done.
Qed.

Lemma init_fits blob V m hs share : Forall is_byte blob -> init blob V = Ok (Some m) -> coherent (config m) hs share ->
  fits (config m) (weights m) hs share /\ Z.of_nat (vocab_len (vocabulary m)) <= vocab_size (config m).
Proof.
  intros Hb H Hc. unfold init in H. case_match; [done|]. unfold mbind, result_bind in H. destruct (read_u32 blob 0) as [magic| |]; [|done..]. destruct (negb _); [done|].
  destruct (read_u64 blob 4) as [ml| |]; [|done..]. destruct (read_u64 blob 12) as [tl| |]; [|done..]. case_match; [done|].
  destruct (slice blob 20 _) as [mb| |] eqn:Em; [|done..]. destruct (slice blob _ _) as [tb| |] in H; [|done..]. destruct (parse_model mb) as [[[c w]|]| |] eqn:Ep; [|done..].
  destruct (parse_tokenizer tb _ V) as [v| |] eqn:Et; [|done..]. injection H as <-. cbn [config weights vocabulary] in *.
  assert (Hmb : Forall is_byte mb) by (unfold slice in Em; case_match; [|done]; injection Em as <-; by apply Forall_take, Forall_drop).
  pose proof (parse_model_fits mb c w hs share Hmb Ep Hc) as Hf. split; [done|]. unfold parse_tokenizer, mbind, result_bind in Et.
  destruct (parse_loop _ _ _ _ _ _) as [[n' V']| |] eqn:El; [|done..]. injection Et as <-. cbn [vocab_len fst snd].
  apply parse_loop_spec in El as [El _]; [|lia]. destruct (ft_vocab _ _ _ _ Hf). lia.
Qed.

(** ** Generation *)

Lemma argmax_bound l : l <> [] -> (argmax l < length l)%nat.
Proof.
  intros Hl. unfold argmax. assert (G : forall js best, Forall (fun i => (i < length l)%nat) js -> (best < length l)%nat -> (fold_left (fun best i => if flt (l !!! best) (l !!! i) then i else best) js best < length l)%nat).
  { induction js as [|i js IH]; intros best His Hb; [done|]. apply Forall_cons in His as [Hi His]. cbn [fold_left]. apply IH; [done|]. by case_match. }
  apply G; [apply Forall_forall; intros i Hi%list_elem_of_In%in_seq; lia|]. destruct l; [done|cbn; lia].
Qed.

(** The tokens of a prompt are tokens of the model, numbers or not. *)
Lemma merge_loop_ok v fuel : forall tokens n, (n <= length tokens)%nat -> Forall (token_ok v) (take n tokens) ->
  let '(tokens', n') := merge_loop v fuel tokens n in length tokens' = length tokens /\ (n' <= n)%nat /\ Forall (token_ok v) (take n' tokens').
Proof.
  induction fuel as [|fuel IH]; intros tokens n Hn Hok; cbn [merge_loop]; [done|]. unfold best_pair.
  assert (G : match fold_left (consider v tokens) (seq 0 (n - 1)) None with Some (_, i, id) => (i < n - 1)%nat /\ candidate v tokens i = Some id | None => True end).
  { generalize (n - 1)%nat. intros k. induction k as [|k IHk]; [done|]. rewrite seq_S, fold_left_app. cbn [fold_left Nat.add]. set (b := fold_left _ _ _) in *. unfold consider.
    destruct b as [[[s i] id']|]; destruct (candidate v tokens k) as [id|] eqn:Ek; [|destruct IHk; split; [lia|done]|split; [lia|done]|done].
    destruct (flt s _); [split; [lia|done]|]. destruct IHk. split; [lia|done]. }
  destruct (fold_left _ _ _) as [[[s i] id]|]; [|done]. destruct G as [Hi Hc]. destruct (merge_at_spec tokens n i id Hn ltac:(lia)) as [Hl Hm].
  specialize (IH (merge_at tokens n i id) (n - 1)%nat ltac:(lia)). destruct (merge_loop _ _ _ _) as [tokens' n']. destruct IH as (Hl' & Hn' & Hf).
  - rewrite Hm. apply Forall_app. split; [by apply Forall_take|]. constructor; [|by apply Forall_drop]. left. unfold candidate in Hc. do 2 (case_match; [done|]). apply range_find_Some in Hc as (Hr & _). lia.
  - split_and!; [lia|lia|done].
Qed.

Lemma encode_ok v prompt tokens : Forall (fun ch => 0 <= ch < 1114112) prompt ->
  let '(tokens', n) := encode v prompt tokens in length tokens' = length tokens /\ (n <= length tokens)%nat /\ Forall (token_ok v) (take n tokens').
Proof.
  intros Hp. unfold encode. destruct (place_all_holds v (32 :: prompt) (tokens, 0%nat) []) as [Hl [Hc Ht]]; [split; [cbn; lia|by rewrite take_nil]|]. cbn [app fst] in *.
  destruct (place_all v (32 :: prompt) (tokens, 0%nat)) as [tokens1 n1]. cbn [fst snd] in *.
  pose proof (merge_loop_ok v n1 tokens1 n1 Hc) as Hm. destruct (merge_loop _ _ _ _) as [tokens' n']. destruct Hm as (Hl' & Hn' & Hf).
  - rewrite Ht. apply Forall_take. by apply (initial_ok v prompt).
  - split_and!; [lia|lia|done].
Qed.

Section generation.
Context (m : Model) (hs share : Z) (Hfit : fits (config m) (weights m) hs share) (Hlen : Z.of_nat (vocab_len (vocabulary m)) <= vocab_size (config m))
  (Hvocab : vocab_size (config m) = MAX_VOCAB).

Lemma known_token id : token_ok (vocabulary m) id -> 0 <= Z.of_nat id < vocab_size (config m).
Proof using Hlen Hvocab. intros [H|H]; [lia|]. rewrite Hvocab. unfold MAX_VOCAB. lia. Qed.

Lemma generate_loop_safe tokens prompt_len positions : forall token previous generated out s,
  lens s -> 0 <= Z.of_nat token < vocab_size (config m) -> (prompt_len <= length tokens)%nat -> Forall (fun id => 0 <= Z.of_nat id < vocab_size (config m)) (take prompt_len tokens) ->
  Forall (fun pos => Z.of_nat pos < seq_len (config m)) positions ->
  safe (generate_loop m tokens prompt_len positions token previous generated out)
    (fun r s' => lens s' /\ (generated <= r.2 <= generated + length positions)%nat /\ exists more, r.1 = out ++ more) (fun _ => False) s.
Proof using Hfit Hlen Hvocab.
  induction positions as [|pos positions IH]; intros token previous generated out s Hs Ht Hpl Htok Hpos; cbn [generate_loop].
  - apply safe_ret. cbn. split_and!; [done|lia|lia|by eexists].
  - apply Forall_cons in Hpos as [Hp Hpos]. eapply safe_bind; [by apply (forward_does m hs share (Z.of_nat pos) Hfit ltac:(lia) (Z.of_nat token) Ht s Hs)|]. intros lgs s1 (Hlg & Hs1 & _).
    eapply (safe_bind _ _ (fun next s2 => lens s2 /\ 0 <= Z.of_nat next < vocab_size (config m))).
    { destruct (Nat.ltb_spec (pos + 1) prompt_len) as [Hlt|Hge].
      - unfold safe, at_. rewrite (proj2 (Z.leb_le 0 _)), (proj2 (Z.ltb_lt (Z.of_nat (pos + 1)) _)) by lia. cbn [andb]. split; [done|]. rewrite Nat2Z.id.
        rewrite <- (take_lookup_total tokens prompt_len) by lia. apply (Forall_lookup_total_1 _ _ _ Htok). rewrite length_take. lia.
      - apply safe_ret. split; [done|]. assert (Hb : (argmax lgs < length lgs)%nat) by (apply argmax_bound; intros ->; cbn in Hlg; unfold MAX_VOCAB in Hlg; lia). rewrite Hvocab. lia. }
    intros next s2 [Hs2 Hnext]. cbv zeta. destruct (next =? 2)%nat.
    + apply safe_ret. cbn [fst snd length]. split_and!; [done|lia|lia|]. rewrite <- app_assoc. by eexists.
    + eapply safe_mono; [by apply IH| |done]. intros r s3 (Hs3 & Hr & more & Em). cbn [length]. split_and!; [done|lia|lia|]. rewrite Em, <- app_assoc. by eexists.
Qed.
End generation.

Lemma run_prompt_safe m hs share prompt steps s : fits (config m) (weights m) hs share -> Z.of_nat (vocab_len (vocabulary m)) <= vocab_size (config m) ->
  vocab_size (config m) = MAX_VOCAB -> lens s -> Forall (fun ch => 0 <= ch < 1114112) prompt -> 0 <= steps ->
  safe (run_prompt m prompt steps) (fun r s' => lens s' /\ Z.of_nat r.2 <= Z.min steps (seq_len (config m))) (fun _ => False) s.
Proof.
  intros Hfit Hlen Hv Hs Hp Hst. unfold run_prompt.
  pose proof (encode_ok (vocabulary m) prompt (replicate (TOKENS - 1) 0%nat) Hp) as He. destruct (encode _ _ _) as [rest n]. destruct He as (Hl & Hn & Hok). rewrite length_replicate in *.
  eapply safe_mono; [apply (generate_loop_safe m hs share Hfit Hlen Hv (1%nat :: rest) (n + 1) _ 1 0 0 [] s Hs)| |done].
  - rewrite Hv. unfold MAX_VOCAB. lia.
  - cbn [length]. lia.
  - rewrite Nat.add_1_r. cbn [take]. constructor; [rewrite Hv; unfold MAX_VOCAB; lia|]. eapply Forall_impl; [exact Hok|]. intros id Hid. by apply (known_token m).
  - apply Forall_forall. intros pos Hin%list_elem_of_In%in_seq. lia.
  - cbn. intros r s' (Hs' & Hr & _). rewrite length_seq in Hr. pose proof (ft_seq _ _ _ _ Hfit). split; [done|lia].
Qed.


(** ** A small model

    One head of one dimension, no layers and a full vocabulary of embeddings,
    all zero. *)

Definition model_header : list Z := mjoin (map (Bytes.le 4) [1; 0; 0; 1; 1; 32000; 1]).
Definition small_model : list Z := model_header ++ replicate (Z.to_nat 128004) 0.
Definition blob_header : list Z := Bytes.le 4 MAGIC ++ Bytes.le 8 (28 + 128004) ++ Bytes.le 8 0.
Definition small_blob : list Z := blob_header ++ small_model.

Lemma read_le_app n l r i : 0 <= i -> i + n <= Z.of_nat (length l) -> 0 <= n -> read_le n (l ++ r) i = read_le n l i.
Proof.
  intros Hi Hn H0. unfold read_le. rewrite !slice_Ok by (rewrite ?length_app; lia). do 2 f_equal. rewrite drop_app_le by lia. rewrite take_app_le; [done|]. rewrite length_drop. lia.
Qed.

Lemma words_zeros n : words (replicate (4 * n) 0) = replicate n zero.
Proof. induction n as [|n IH]; [done|]. replace (4 * S n)%nat with (4 + 4 * n)%nat by lia. cbn [replicate plus words]. by rewrite IH. Qed.

Lemma take_floats_zeros N count a : 0 <= a -> 0 <= count -> a + count <= N -> N < 2 ^ 64 -> take_floats (zeros N) count a = (Ok (zeros count), a + count).
Proof.
  intros Ha Hc HN H64. unfold take_floats, part. rewrite (wrap_small 64 (a + count)) by (unfold in_u; lia). unfold zeros at 1. rewrite length_replicate.
  rewrite (proj2 (Z.leb_le 0 a)), (proj2 (Z.leb_le a (a + count))), (proj2 (Z.leb_le (a + count) _)) by lia. cbn [andb]. f_equal. f_equal. unfold zeros.
  rewrite drop_replicate, take_replicate. f_equal. lia.
Qed.

Lemma words_are_zeros N : words (replicate (4 * Z.to_nat N) 0) = zeros N.
Proof. apply words_zeros. Qed.

#[local] Opaque zeros.

Definition small_config : Config := mkConfig 1 0 0 1 1 32000 1.

Lemma small_weights : exists w a, take_weights (zeros 32001) small_config 0 = (Ok w, a).
Proof.
  unfold take_weights. erewrite (io_bind_run (kv_dim small_config)); [|reflexivity]. erewrite (io_bind_run (head_size small_config)); [|reflexivity]. cbv zeta.
  do 13 (erewrite io_bind_run; [|apply take_floats_zeros; by vm_compute]). do 2 eexists. reflexivity.
Qed.

Lemma small_parses : exists w, parse_model small_model = Ok (Some (small_config, w)).
Proof.
  assert (Hl : Z.of_nat (length small_model) = 28 + 128004) by (unfold small_model; rewrite length_app, length_replicate; change (length model_header) with 28%nat; lia).
  assert (Hr : forall i v, 0 <= i <= 24 -> read_le 4 model_header i = Ok v -> read_i32 small_model i = Ok (if v <? 2 ^ 31 then v else v - 2 ^ 32)).
  { intros i v Hi E. unfold read_i32, read_u32, small_model. rewrite read_le_app by (change (length model_header) with 28%nat; lia). by rewrite E. }
  unfold parse_model. rewrite Hl. change (28 + 128004 <? 28) with false. cbv iota.
  unfold mbind, result_bind.
  rewrite (Hr 0 1 ltac:(lia) eq_refl), (Hr 4 0 ltac:(lia) eq_refl), (Hr 8 0 ltac:(lia) eq_refl), (Hr 12 1 ltac:(lia) eq_refl), (Hr 16 1 ltac:(lia) eq_refl), (Hr 20 32000 ltac:(lia) eq_refl), (Hr 24 1 ltac:(lia) eq_refl).
  assert (Ef : floats small_model = zeros 32001).
  { unfold floats, small_model. rewrite drop_app_ge by (change (length model_header) with 28%nat; lia). change (length model_header) with 28%nat. rewrite Nat.sub_diag, drop_0.
    replace (Z.to_nat 128004) with (4 * Z.to_nat 32001)%nat by lia. apply (words_are_zeros 32001). }
  rewrite Ef. set (c' := mkConfig _ _ _ _ _ _ _). assert (Ec : c' = small_config) by reflexivity. rewrite Ec. clear c' Ec. change ((MAX_DIM <? dim small_config) || _ || _ || _ || _ || _) with false. cbv iota.
  destruct small_weights as (w & a & E). rewrite E. by eexists.
Qed.

Lemma small_loads V : exists m, init small_blob V = Ok (Some m) /\ config m = small_config.
Proof.
  destruct small_parses as [w Ew].
  assert (Hm : Z.of_nat (length small_model) = 28 + 128004) by (unfold small_model; rewrite length_app, length_replicate; change (length model_header) with 28%nat; lia).
  assert (Hl : Z.of_nat (length small_blob) = 20 + 28 + 128004) by (unfold small_blob; rewrite length_app; change (length blob_header) with 20%nat; lia).
  assert (Hr : forall n i v, 0 <= n -> 0 <= i -> i + n <= 20 -> read_le n blob_header i = Ok v -> read_le n small_blob i = Ok v).
  { intros n i v Hn Hi Hin E. unfold small_blob. rewrite read_le_app by (change (length blob_header) with 20%nat; lia). exact E. }
  unfold init. rewrite Hl. change (20 + 28 + 128004 <? 20) with false. cbv iota zeta. unfold read_u32, read_u64, mbind, result_bind.
  rewrite (Hr 4 0 MAGIC ltac:(lia) ltac:(lia) ltac:(lia) eq_refl), (Hr 8 4 (28 + 128004) ltac:(lia) ltac:(lia) ltac:(lia) eq_refl), (Hr 8 12 0 ltac:(lia) ltac:(lia) ltac:(lia) eq_refl). rewrite Z.eqb_refl. cbn [negb].
  change (20 +₆₄ (28 + 128004)) with (20 + 28 + 128004). change ((20 + 28 + 128004) +₆₄ 0) with (20 + 28 + 128004). rewrite (Z.ltb_irrefl).
  rewrite slice_Ok by lia. rewrite slice_Ok by lia.
  assert (Es : take (Z.to_nat (20 + 28 + 128004 - 20)) (drop (Z.to_nat 20) small_blob) = small_model).
  { unfold small_blob. rewrite drop_app_ge by (change (length blob_header) with 20%nat; lia). change (Z.to_nat 20 - length blob_header)%nat with 0%nat. rewrite drop_0. apply take_ge. lia. }
  rewrite Es, Ew. rewrite (Z.sub_diag), take_0. eexists. split; [reflexivity|done].
Qed.

Lemma small_blob_bytes : Forall is_byte small_blob.
Proof.
  unfold small_blob, small_model, blob_header, model_header. apply Forall_app. split; [apply Forall_app; split; [|apply Forall_app; split]; apply le_bytes|].
  apply Forall_app. split; [apply Forall_join, Forall_map, Forall_true; intros; apply le_bytes|]. apply Forall_replicate. unfold is_byte. lia.
Qed.


(** ** What the loader lets through *)

(** The largest is looked for in the whole array, not in the model's part of
    it: where every score is negative and the vocabulary is smaller than the
    array, the choice is the first entry behind it, and the next pass panics. *)
Lemma argmax_leaves_vocabulary l rest : l <> [] -> Forall (fun v => flt v zero = true) l -> (length l <= argmax (l ++ zero :: rest))%nat.
Proof.
  intros Hl Hneg. unfold argmax. rewrite length_app. cbn [length]. rewrite seq_app, fold_left_app. cbn [seq Nat.add]. set (all := l ++ zero :: rest). set (step := fun best i => _).
  assert (Hb : (fold_left step (seq 0 (length l)) 0 < length l)%nat).
  { assert (G : forall js best, Forall (fun i => (i < length l)%nat) js -> (best < length l)%nat -> (fold_left step js best < length l)%nat).
    { induction js as [|j js IH]; intros best Hj Hb; [done|]. apply Forall_cons in Hj as [Hj Hjs]. apply IH; [done|]. unfold step. by case_match. }
    apply G; [apply Forall_forall; intros i Hi%list_elem_of_In%in_seq; lia|]. destruct l; [done|cbn; lia]. }
  set (b := fold_left step _ _) in *. cbn [fold_left].
  assert (E : step b (length l) = length l).
  { unfold step, all. rewrite (list_lookup_total_middle l rest zero (length l) eq_refl). rewrite (lookup_total_app_l l (zero :: rest) b) by exact Hb. by rewrite (Forall_lookup_total_1 _ _ _ Hneg Hb). }
  rewrite E. assert (G : forall js best, Forall (fun i => (length l <= i)%nat) js -> (length l <= best)%nat -> (length l <= fold_left step js best)%nat).
  { induction js as [|j js IH]; intros best Hj Hb'; [done|]. apply Forall_cons in Hj as [Hj Hjs]. apply IH; [done|]. unfold step. by case_match. }
  apply G; [|done]. apply Forall_forall. intros i Hi%list_elem_of_In%in_seq. lia.
Qed.

Lemma forward_panics_outside_vocabulary m hs share token pos s : fits (config m) (weights m) hs share -> vocab_size (config m) <= token ->
  (forward m token pos s).1 = Panic.
Proof.
  intros Hfit Ht. destruct (fit_small m hs share Hfit) as ((Hd & _) & _). pose proof Hfit as []. destruct (kv_dim_fit m hs share Hfit s) as [E1 E2].
  unfold forward. rewrite (io_bind_run _ _ _ _ _ E1), (io_bind_run _ _ _ _ _ E2). rewrite (proj2 (Z.eqb_neq (n_kv_heads (config m)) 0)) by lia.
  erewrite io_bind_run; [|reflexivity]. unfold mbind, io_bind, part. rewrite (proj2 (Z.leb_gt (token * dim (config m) + dim (config m)) _)) by (rewrite ft_embedding0; nia).
  by rewrite andb_false_r.
Qed.

(** A header with no heads is not refused: the division panics. *)
Lemma no_heads_panics : parse_model (mjoin (map (Bytes.le 4) [1; 0; 0; 0; 1; 1; 1])) = Panic.
Proof. by vm_compute. Qed.
